(* ===== verification/_CoqProject ===== *)
-Q . S2P
Prelude.v
Interfaces.v
Locks.v
Memory.v
Multiboot.v
PageAlloc.v
Paging.v
Stacks.v
PagingInit.v
Vmalloc.v
Heap.v
MemoryInit.v
Cmdline.v
Initrd.v
Console.v
Vga.v
Rtc.v
Keyboard.v
Desktop.v
Serial.v
Printk.v
User.v
WorkQueue.v
Acpi.v
Interrupts.v
Clock.v
Pit.v
Timers.v
Segments.v
Tlb.v
Smp.v
Scheduler.v
ThreadList.v
Trace.v
Symbols.v
Modules.v
Panic.v
SelfTests.v
Entry.v
Api.v
Elf.v
UserSpace.v
Device.v
Pci.v
Virtio.v
Block.v
Vfs.v
Ramfs.v
Ext2.v
Devfs.v
FileSystems.v
Process.v
Syscall.v
Programs.v
Loader.v
Launch.v
Boot.v
