(* ===== verification/Prelude.v ===== *)
(** * Verification of the eris kernel

    eris is a small x86-64 kernel in C++ with loadable modules: memory management,
    a scheduler over several CPUs, a module loader, file systems, drivers and ring 3
    programs.  This development models its source, file by file, as executable
    definitions and proves what the parts promise, alone and to one another.

    ** How the source is modelled

    An unsigned integer of width [w] is a [Z] in [0, 2^w) with every wrap-around
    written out ([u8] ... [u64] below).  State is passed explicitly: a record of the
    variables of the source file.  Byte memory is a finite map ([Memory]); reading or
    writing an address outside it is a fault, and a function that can fault returns
    [option], [None] being the fault, the panic or (where said) running out of fuel.
    Error codes are values, as in the source.  A lock that makes an operation atomic
    makes it one step; the locks themselves, and the hand-over to other CPUs, are
    modelled one memory access at a time.  What is outside the source (the chips, the
    firmware, what a module's init function or a program does) is a parameter: a class
    where several operations share laws, a function otherwise.  Log output (pr_info
    and its like) is left out everywhere except in [Printk] itself and in [Panic].  The
    assembly between the kernel and ring 3, between threads and around interrupts is
    lists of instructions on the registers and memory of one CPU ([Entry]).

    ** The files and what they model (paths under src/)

    Foundations: [Prelude] (integers, loops, lists), [Interfaces] (what the page
    allocator, the page tables and the process address spaces promise their clients),
    [Memory] (kernel/lib/string.cpp), [Locks] (include/eris/lock.hpp,
    kernel/lib/lock.cpp), [Multiboot] (include/eris/multiboot.hpp).

    Memory management: [PageAlloc] (kernel/mm/page_alloc.cpp), [Paging] and
    [PagingInit] (kernel/mm/paging.cpp), [Stacks] (kernel/cpu/stacks.cpp), [Vmalloc]
    (kernel/mm/vmalloc.cpp), [Heap] (kernel/mm/heap.cpp), [Tlb] (the accesses of map,
    unmap and protect of paging.cpp against the translation caches of all CPUs, and the
    shootdown), [MemoryInit] (the three init calls of main.cpp together).  The page allocator is an
    instance of [FrameAllocator], the page tables over any such allocator an instance
    of [PageMapper]; heap, device windows, module loader and program loader are proved
    against [PageMapper].

    Boot input: [Cmdline] (kernel/cmdline.cpp), [Initrd] (kernel/initrd.cpp), [Acpi]
    (kernel/acpi/tables.cpp).

    Output and input: [Console] (kernel/lib/console.cpp), [Serial]
    (kernel/lib/serial.cpp), [Printk] (kernel/lib/printk.cpp), [Vga], [Keyboard],
    [Desktop], [Rtc] (modules/).

    CPUs, time and threads: [Segments] (gdt, tss, percpu and the gates of idt in
    kernel/cpu), [Interrupts] (pic, ioapic, lapic, irq, idt in kernel/cpu), [Smp]
    (kernel/cpu/smp.cpp), [Clock] and [Timers] (kernel/time), [Pit] (the wait on the
    legacy timer and the calibration by it), [Scheduler] and [ThreadList]
    (kernel/sched/scheduler.cpp), [WorkQueue] (kernel/lib/work.cpp), [Trace]
    (kernel/lib/ksyms.cpp, backtrace.cpp), [Panic] (kernel/lib/panic.cpp: the report in
    [Report], its output against the other CPUs in [Output]), [Entry]
    (kernel/proc/syscall_entry.asm, kernel/cpu/isr.asm, kernel/sched/switch.asm and the
    call gate of syscall.cpp).

    Modules and devices: [Symbols], [Modules], [Loader], [Api] (kernel/module), [Elf]
    (include/eris/elf.hpp), [Device], [Pci] (kernel/device), [Virtio]
    (modules/virtio_blk), [Block] (kernel/block/block.cpp).

    Files: [Vfs], [Ramfs], [Ext2], [Devfs] (kernel/fs) and [FileSystems], the three of
    them mounted together as main.cpp does, as one instance of the interface the VFS
    walks.

    Programs: [UserSpace] and [Process] (kernel/proc/process.cpp), [Syscall]
    (kernel/proc/syscall.cpp), [Launch] (process_run: file, heap buffer, address
    space, ring 3 and back), [User] (the arithmetic of user/) and [Programs] (init, crash
    and spin with the library and crt0, over the system calls).  [Boot] is the second half
    of the boot in kernel/main.cpp: the modules of the archive, the blacklist and the
    first program; [SelfTests] the heap, SMP and thread tests of the same file.

    ** What the theorems show

    Invariants over every reachable state: the scheduler's queues
    ([Scheduler.scheduler_safe]), the list of all threads ([ThreadList.thread_list_sound]), the heap's tiling ([Heap.heap_allocations_safe]),
    disjoint virtual reservations ([Vmalloc.reservations_disjoint]), the module table
    and its counters ([Modules.modules_safe]), the block and device registries.  Under
    every interleaving of any number of CPUs: mutual exclusion of both locks, the
    hand-over to a starting CPU and the jobs sent to the others ([Locks], [Smp]), a stale
    translation of a page only while its unmapping is under way or a CPU has yet to answer
    the shootdown ([Tlb.tlb_coherent], which names the operations it is for), a panic report no other CPU writes into ([Panic.Output.panic_report_whole]), counters
    and heap after the SMP test as before it.  From the loader's memory map to the first
    allocation and through any sequence of them, no page is used twice
    ([MemoryInit.memory_boot_safe]).

    Functional correctness: mapping, unmapping and translating through four levels of
    tables with huge page splits that keep every other page's rights, first fit page allocation, the round-robin order of
    yields, timers firing once when due, slot by slot, work in order, an interrupt reaching the
    handler of its line, PCI enumeration in its order and base address decoding, the descriptors of
    a disk request, the layout and relocation of a module image, the memory a program
    sees, a read from a file arriving in its buffer.  System calls, interrupts, thread
    switches and programs that leave restore what they interrupted, register by register
    ([Entry]), and the panic report is made, part by part, from any state of the threads and
    modules ([Panic.Report.panic_report_made]).

    Equivalence and round trips: calendar arithmetic against a day count, the screen
    against its cells, file contents written and read back through a path, firmware
    table entries, ext2 reads against the file's blocks.

    Errors and progress: refused system calls change nothing, running a program is all
    or nothing ([Launch.process_run_outcome]), every module that may start starts
    ([Boot.initrd_modules_started]), bus enumeration ends, init reaches its exit call with
    42 whatever the disk holds ([Programs.init_runs]), calibration returns within its
    error bound ([Pit.tsc_calibrate_accurate]).

    Some theorems state what the code does where that is not what it should do: a lost
    stack in the start of a CPU, a clock that wraps, an address check that ignores high
    bits, counters left in a reused slot, an unmap that is over before the other CPUs have
    flushed, a frame shifted by an error code, a back trace that follows a frame onto a
    guard page, a core that misses a job.  They are kept as statements about the code.

    ** Fuel and bounds

    Loops over arrays recurse on the array or on a count; loops the source bounds by a
    constant run with that constant.  Where the bound is not in the code, the fuel is
    the number of mapped bytes (a string loop reads a new address each turn), the
    number of blocks of the archive, the number of buses (256, a parent is always below
    its child unless bridges form a circle, which [Pci] shows to diverge), the depth
    limit of module dependencies (66), or a parameter with a theorem that enough of it
    exists.  Theorems that say an operation returns prove that it does with this fuel.

    ** Not modelled

    The entry to long mode (boot/head.asm), the real-mode code of the trampoline and its
    installation; loading CR3, descriptor tables and model specific registers other than
    those of the call gate.  The endless loops (idle, the work thread) and the order of
    the calls in start_kernel and kernel_init beyond their memory part; the module, block
    and file system self tests, the fault injection and the reports of main.cpp, which
    call modelled operations and print.  The six port accesses of module/api.cpp, which
    are single instructions.  SpinLock::try_lock and Guard, which have no user.  Page
    permissions are part of the page tables but not of what a program of [Programs] may
    store to.  The memory order of the atomics is taken to be sequential consistency. *)

From Stdlib Require Export ZArith Lia.
From stdpp Require Export base numbers gmap strings option.
From stdpp Require Export list.

#[global] Open Scope Z_scope.

(** ** Machine integers *)

(** A [w]-bit unsigned integer is a [Z] in [0, 2^w); every operation of the
    source that can wrap is followed by one of these. *)
Definition wrap (w x : Z) : Z := x mod 2 ^ w.

Definition u8 (x : Z) : Z := wrap 8 x.
Definition u16 (x : Z) : Z := wrap 16 x.
Definition u32 (x : Z) : Z := wrap 32 x.
Definition u64 (x : Z) : Z := wrap 64 x.

(** [~x] at 32 and 64 bits. *)
Definition not32 (x : Z) : Z := u32 (Z.lnot x).
Definition not64 (x : Z) : Z := u64 (Z.lnot x).

Definition page_size : Z := 4096.

Definition fits (w x : Z) : Prop := 0 <= x < 2 ^ w.

Create HintDb eris.

Lemma wrap_small w x : 0 <= x < 2 ^ w -> wrap w x = x.
Proof. apply Z.mod_small. Qed.

Lemma wrap_range w x : 0 <= w -> 0 <= wrap w x < 2 ^ w.
Proof. intros. apply Z.mod_pos_bound, Z.pow_pos_nonneg; lia. Qed.

Lemma u8_small x : 0 <= x < 2 ^ 8 -> u8 x = x.
Proof. apply wrap_small. Qed.
Lemma u16_small x : 0 <= x < 2 ^ 16 -> u16 x = x.
Proof. apply wrap_small. Qed.
Lemma u32_small x : 0 <= x < 2 ^ 32 -> u32 x = x.
Proof. apply wrap_small. Qed.
Lemma u64_small x : 0 <= x < 2 ^ 64 -> u64 x = x.
Proof. apply wrap_small. Qed.

Lemma u64_range x : 0 <= u64 x < 2 ^ 64.
Proof. apply wrap_range; lia. Qed.
Lemma u32_range x : 0 <= u32 x < 2 ^ 32.
Proof. apply wrap_range; lia. Qed.
Lemma u8_range x : 0 <= u8 x < 2 ^ 8.
Proof. apply wrap_range; lia. Qed.

(** A wrapped integer is in range. *)
#[export] Hint Resolve u64_range u32_range u8_range : eris.

(** Removes the wrap-arounds whose argument [lia] can bound. *)
Ltac unwrap :=
  repeat first
    [ rewrite u64_small by lia | rewrite u32_small by lia
    | rewrite u16_small by lia | rewrite u8_small by lia ].

Ltac unwrap_in H :=
  repeat first
    [ rewrite u64_small in H by lia | rewrite u32_small in H by lia
    | rewrite u16_small in H by lia | rewrite u8_small in H by lia ].

(** The same for nested wrap-arounds, from the inside out. *)
Ltac unwrap_inner :=
  repeat match goal with
  | |- context [u64 ?a] => lazymatch a with context [u64 _] => fail | _ => rewrite (u64_small a) by lia end
  end.

(** [lia] with quotients and remainders. *)
Ltac dlia := Z.div_mod_to_equations; lia.

(** ** Bits *)

Lemma testbit_wrap w x i : 0 <= w -> 0 <= i ->
  Z.testbit (wrap w x) i = bool_decide (i < w) && Z.testbit x i.
Proof.
  intros. unfold wrap. case_bool_decide.
  - by rewrite Z.mod_pow2_bits_low by lia.
  - by rewrite Z.mod_pow2_bits_high by lia.
Qed.

(** Testing one bit the way the C code does, [(x & (1 << k)) != 0]. *)
Lemma land_bit_testbit x k : 0 <= k ->
  negb (Z.land x (Z.shiftl 1 k) =? 0) = Z.testbit x k.
Proof.
  intros Hk. rewrite Z.shiftl_1_l.
  destruct (Z.testbit x k) eqn:E.
  - apply negb_true_iff, Z.eqb_neq. intros H0.
    assert (Z.testbit (Z.land x (2 ^ k)) k = false) as Hf.
    { rewrite H0. apply Z.testbit_0_l. }
    rewrite Z.land_spec, E, Z.pow2_bits_true in Hf by lia. done.
  - apply negb_false_iff, Z.eqb_eq, Z.bits_inj'. intros i Hi.
    rewrite Z.land_spec, Z.testbit_0_l, Z.pow2_bits_eqb by lia.
    destruct (Z.eqb_spec k i) as [->|]; [by rewrite E | by rewrite andb_false_r].
Qed.

(** A number is below [2^w] when it has no bit from [w] on; so [|] and [&] keep widths. *)
Lemma bits_bound w x : 0 <= w -> 0 <= x -> (forall k, w <= k -> Z.testbit x k = false) -> x < 2 ^ w.
Proof.
  intros Hw Hx Hk. assert (x = x mod 2 ^ w) as ->.
  { apply Z.bits_inj'. intros k Hk0. destruct (Z.lt_ge_cases k w); [by rewrite Z.mod_pow2_bits_low|].
    rewrite Z.mod_pow2_bits_high by lia. by apply Hk. }
  apply Z.mod_pos_bound, Z.pow_pos_nonneg; lia.
Qed.

Lemma bit_beyond w x k : 0 <= x < 2 ^ w -> 0 <= w <= k -> Z.testbit x k = false.
Proof.
  intros Hx Hk. rewrite Z.testbit_eqb by lia. rewrite Z.div_small; [done|].
  split; [lia|]. apply Z.lt_le_trans with (2 ^ w); [lia|]. apply Z.pow_le_mono_r; lia.
Qed.

Lemma lor_fits w a b : 0 <= w -> 0 <= a < 2 ^ w -> 0 <= b < 2 ^ w -> 0 <= Z.lor a b < 2 ^ w.
Proof.
  intros Hw Ha Hb. assert (0 <= Z.lor a b) by (apply Z.lor_nonneg; lia). split; [done|]. apply bits_bound; [done|done|].
  intros k Hk. by rewrite Z.lor_spec, !(bit_beyond w) by lia.
Qed.

Lemma land_fits w a b : 0 <= w -> 0 <= b < 2 ^ w -> 0 <= Z.land a b < 2 ^ w.
Proof.
  intros Hw Hb. assert (0 <= Z.land a b) by (apply Z.land_nonneg; lia). split; [done|]. apply bits_bound; [done|done|].
  intros k Hk. by rewrite Z.land_spec, (bit_beyond w b), andb_false_r by lia.
Qed.

Lemma bit_of_shift k n : 0 <= n -> 0 <= k -> Z.testbit (Z.shiftl 1 n) k = (k =? n).
Proof. intros. rewrite Z.shiftl_1_l, Z.pow2_bits_eqb by lia. apply Z.eqb_sym. Qed.

(** [x & ~(2^k - 1)] rounds down to a multiple of [2^k]. *)
Lemma land_not64_ones x k : 0 <= k <= 64 -> fits 64 x ->
  Z.land x (not64 (2 ^ k - 1)) = x - x mod 2 ^ k.
Proof.
  intros Hk Hx. replace (2 ^ k - 1) with (Z.ones k) by (rewrite Z.ones_equiv; lia).
  assert (Z.land x (not64 (Z.ones k)) = Z.ldiff x (Z.ones k)) as ->.
  { apply Z.bits_inj'. intros i Hi. unfold not64, u64.
    rewrite Z.land_spec, Z.ldiff_spec, testbit_wrap, Z.lnot_spec by lia.
    case_bool_decide; [done|].
    rewrite (Z.testbit_eqb x i) by lia. rewrite Z.div_small; [done|].
    unfold fits in Hx. split; [lia|].
    apply Z.lt_le_trans with (2 ^ 64); [lia|]. apply Z.pow_le_mono_r; lia. }
  rewrite Z.ldiff_ones_r, Z.shiftl_mul_pow2, Z.shiftr_div_pow2 by lia.
  pose proof (Z.div_mod x (2 ^ k) ltac:(apply Z.pow_nonzero; lia)). lia.
Qed.

(** ** Loops *)

(** [for (i = lo; i < hi; ++i) body]. *)
Fixpoint count_up {S : Type} (n : nat) (i : Z) (body : Z -> S -> S) (s : S) : S :=
  match n with
  | O => s
  | Datatypes.S n' => count_up n' (i + 1) body (body i s)
  end.

Definition for_z {S : Type} (lo hi : Z) (body : Z -> S -> S) (s : S) : S := count_up (Z.to_nat (hi - lo)) lo body s.

Arguments for_z : simpl never.

Lemma for_z_done {S} lo hi (body : Z -> S -> S) s : hi <= lo -> for_z lo hi body s = s.
Proof. intros. unfold for_z. by rewrite (Z2Nat.nonpos (hi - lo)) by lia. Qed.

Lemma for_z_step {S} lo hi (body : Z -> S -> S) s :
  lo < hi -> for_z lo hi body s = for_z (lo + 1) hi body (body lo s).
Proof.
  intros. unfold for_z. replace (Z.to_nat (hi - lo)) with (Datatypes.S (Z.to_nat (hi - (lo + 1)))) by lia. done.
Qed.

(** Invariant rule: [P i s] holds before iteration [i]. *)
Lemma for_z_ind {S} (P : Z -> S -> Prop) lo hi body s :
  lo <= hi -> P lo s ->
  (forall i s, lo <= i < hi -> P i s -> P (i + 1) (body i s)) ->
  P hi (for_z lo hi body s).
Proof.
  intros Hle. remember (Z.to_nat (hi - lo)) as n eqn:Hn.
  revert lo s Hle Hn. induction n as [|n IH]; intros lo s Hle Hn HP Hstep.
  - assert (lo = hi) as -> by lia. by rewrite for_z_done by lia.
  - rewrite for_z_step by lia. apply IH; [lia|lia| |].
    + apply Hstep; [lia|done].
    + intros. apply Hstep; [lia|done].
Qed.

(** ** Optional results: [None] is a fault (a read or write outside the object,
    a null dereference, a panic). *)

Lemma bind_Some_inv {A B} (m : option A) (k : A -> option B) b :
  (m ≫= k) = Some b -> exists a, m = Some a /\ k a = Some b.
Proof. destruct m; simpl; naive_solver. Qed.

(** [for (i = lo; i < hi; ++i) body] where the body may fault. *)
Fixpoint for_n {S : Type} (n : nat) (i : Z) (body : Z -> S -> option S) (s : S) : option S :=
  match n with
  | O => Some s
  | Datatypes.S n' => s' ← body i s; for_n n' (i + 1) body s'
  end.

Definition for_o {S : Type} (lo hi : Z) (body : Z -> S -> option S) (s : S) : option S :=
  for_n (Z.to_nat (hi - lo)) lo body s.

Arguments for_o : simpl never.

(** Total-correctness rule: the loop returns, and the invariant holds at the end. *)
Lemma for_o_ind {S} (P : Z -> S -> Prop) lo hi body (s : S) :
  lo <= hi -> P lo s ->
  (forall i s, lo <= i < hi -> P i s -> exists s', body i s = Some s' /\ P (i + 1) s') ->
  exists s', for_o lo hi body s = Some s' /\ P hi s'.
Proof.
  intros Hle. unfold for_o. remember (Z.to_nat (hi - lo)) as n eqn:Hn.
  revert lo s Hle Hn. induction n as [|n IH]; intros lo s Hle Hn HP Hstep; simpl.
  - assert (lo = hi) as -> by lia. eauto.
  - destruct (Hstep lo s ltac:(lia) HP) as (s' & -> & HP'). simpl.
    apply IH; [lia|lia|done|]. intros. apply Hstep; [lia|done].
Qed.

(** Partial-correctness rule, for loops whose body may fault. *)
Lemma for_o_inv {S} (P : Z -> S -> Prop) lo hi body (s s' : S) :
  lo <= hi -> P lo s -> for_o lo hi body s = Some s' ->
  (forall i s s', lo <= i < hi -> P i s -> body i s = Some s' -> P (i + 1) s') ->
  P hi s'.
Proof.
  intros Hle. unfold for_o. remember (Z.to_nat (hi - lo)) as n eqn:Hn.
  revert lo s Hle Hn. induction n as [|n IH]; intros lo s Hle Hn HP E Hstep; simpl in E.
  - injection E as <-. assert (lo = hi) as -> by lia. done.
  - apply bind_Some_inv in E as (s1 & E1 & E). eapply (IH (lo + 1)); [lia|lia| |done|].
    + eapply Hstep; [lia|done|done].
    + intros. eapply Hstep; [lia|done|done].
Qed.

(** ** Counting over an index range *)

Definition count_z (P : Z -> bool) (lo hi : Z) : Z :=
  Z.of_nat (length (filter (fun i => P i = true) (seqZ lo (hi - lo)))).

Lemma count_z_nil P lo hi : hi <= lo -> count_z P lo hi = 0.
Proof. intros. unfold count_z. by rewrite seqZ_nil by lia. Qed.

Lemma count_z_cons P lo hi : lo < hi ->
  count_z P lo hi = (if P lo then 1 else 0) + count_z P (lo + 1) hi.
Proof.
  intros. unfold count_z. rewrite seqZ_cons by lia.
  replace (Z.succ lo) with (lo + 1) by lia.
  replace (Z.pred (hi - lo)) with (hi - (lo + 1)) by lia.
  rewrite filter_cons. destruct (P lo); case_decide; simpl; try done; lia.
Qed.

Lemma count_z_split P lo mid hi : lo <= mid <= hi ->
  count_z P lo hi = count_z P lo mid + count_z P mid hi.
Proof.
  intros H. remember (Z.to_nat (mid - lo)) as n eqn:Hn.
  revert lo H Hn. induction n as [|n IH]; intros lo H Hn.
  - assert (lo = mid) as -> by lia. rewrite (count_z_nil P mid mid) by lia. lia.
  - rewrite (count_z_cons P lo hi), (count_z_cons P lo mid), (IH (lo + 1)) by lia. lia.
Qed.

Lemma count_z_ext P Q lo hi :
  (forall i, lo <= i < hi -> P i = Q i) -> count_z P lo hi = count_z Q lo hi.
Proof.
  destruct (Z.le_gt_cases hi lo) as [?|Hlt].
  { intros. by rewrite !count_z_nil by lia. }
  remember (Z.to_nat (hi - lo)) as n eqn:Hn.
  revert lo Hn Hlt. induction n as [|n IH]; intros lo Hn Hlt H; [lia|].
  rewrite !(count_z_cons _ lo) by lia. rewrite (H lo) by lia. f_equal.
  destruct (Z.le_gt_cases hi (lo + 1)); [by rewrite !count_z_nil by lia|].
  apply IH; [lia..|]. intros. apply H. lia.
Qed.

Lemma count_z_bound P lo hi : lo <= hi -> 0 <= count_z P lo hi <= hi - lo.
Proof.
  intros. unfold count_z. split; [lia|].
  pose proof (length_filter (fun i => P i = true) (seqZ lo (hi - lo))) as Hf.
  rewrite length_seqZ in Hf. lia.
Qed.

(** Changing the predicate at one index changes the count by one. *)
Lemma count_z_update P Q lo hi j :
  lo <= j < hi -> (forall i, lo <= i < hi -> i <> j -> P i = Q i) ->
  P j = false -> Q j = true -> count_z Q lo hi = count_z P lo hi + 1.
Proof.
  intros Hj Hext HP HQ.
  rewrite (count_z_split Q lo j hi), (count_z_split P lo j hi) by lia.
  rewrite (count_z_cons Q j), (count_z_cons P j), HP, HQ by lia.
  rewrite (count_z_ext P Q lo j) by (intros; apply Hext; lia).
  rewrite (count_z_ext P Q (j + 1) hi) by (intros; apply Hext; lia). lia.
Qed.

(** ** Arrays of [count] used entries *)

(** [a[i] = a[--count]]: the last entry takes the place of entry [i]. *)
Definition remove_at {A} (i : nat) (r : list A) : list A :=
  match last r with
  | Some x => take (length r - 1) (<[i := x]> r)
  | None => r
  end.

Lemma remove_at_perm {A} (i : nat) (r : list A) x : r !! i = Some x -> x :: remove_at i r ≡ₚ r.
Proof.
  intros Hi. unfold remove_at. destruct (last r) as [y|] eqn:El.
  2:{ apply last_None in El as ->. done. }
  apply last_Some in El as [r' ->]. rewrite length_app, Nat.add_sub.
  destruct (decide (i = length r')) as [->|Hne].
  - rewrite lookup_app_r, Nat.sub_diag in Hi by lia. injection Hi as <-.
    rewrite insert_app_r_alt, Nat.sub_diag by lia. cbn. rewrite take_app_length. solve_Permutation.
  - assert (i < length r')%nat as Hlt.
    { apply lookup_lt_Some in Hi. rewrite length_app in Hi. cbn in Hi. lia. }
    rewrite lookup_app_l in Hi by done. rewrite insert_app_l by done.
    replace (length r') with (length (<[i := y]> r')) by apply length_insert. rewrite take_app_length.
    rewrite (delete_Permutation r' i x Hi) at 2. rewrite (delete_Permutation (<[i := y]> r') i y).
    + assert (forall (l : list A) k z, delete k (<[k := z]> l) = delete k l) as ->.
      { clear. induction l as [|w l IH]; intros [|k] z; cbn; [done..|]. f_equal. apply IH. }
      solve_Permutation.
    + by apply list_lookup_insert_eq.
Qed.

Lemma remove_at_length {A} (i : nat) (r : list A) x : r !! i = Some x -> S (length (remove_at i r)) = length r.
Proof. intros H. by rewrite <- (Permutation_length (remove_at_perm i r x H)). Qed.

Lemma remove_at_take {A} (i : nat) (r : list A) x : r !! i = Some x -> take i (remove_at i r) = take i r.
Proof.
  intros Hi. apply lookup_lt_Some in Hi. unfold remove_at. destruct (last r); [|done].
  rewrite take_take, Nat.min_l by lia. by rewrite take_insert_ge by lia.
Qed.


Lemma filter_all {A} (f : A -> bool) l : Forall (fun x => f x = true) l -> List.filter f l = l.
Proof. induction 1 as [|x l Hx Hl IH]; cbn; [done|]. by rewrite Hx, IH. Qed.

Lemma filter_perm {A} (f : A -> bool) l l' : l ≡ₚ l' -> List.filter f l ≡ₚ List.filter f l'.
Proof.
  induction 1; cbn [List.filter]; repeat case_match; try done; [by constructor|by constructor|by etrans].
Qed.

(** The bytes of a literal of the source. *)
Definition literal (s : string) : list Z := (fun a => Z.of_nat (Ascii.nat_of_ascii a)) <$> String.list_ascii_of_string s.

(** ** Case analysis used throughout *)

(** Turns the boolean tests of the source into propositions. *)
Ltac breflect :=
  repeat match goal with
  | H : (_ && _)%bool = true |- _ => apply andb_true_iff in H as [? ?]
  | H : (_ || _)%bool = false |- _ => apply orb_false_iff in H as [? ?]
  | H : negb _ = true |- _ => apply negb_true_iff in H
  | H : negb _ = false |- _ => apply negb_false_iff in H
  | H : (_ <? _) = true |- _ => apply Z.ltb_lt in H
  | H : (_ <? _) = false |- _ => apply Z.ltb_ge in H
  | H : (_ <=? _) = true |- _ => apply Z.leb_le in H
  | H : (_ <=? _) = false |- _ => apply Z.leb_gt in H
  | H : (_ =? _) = true |- _ => apply Z.eqb_eq in H
  | H : (_ =? _) = false |- _ => apply Z.eqb_neq in H
  end.
