(* ===== verification/Interfaces.v ===== *)
(** * Interfaces between the components

    What one part of the kernel promises another.  A client is proved against the
    class; the component that provides it gives the instance and discharges the
    laws. *)

From S2P Require Import Prelude.

(** [mm::alloc_page] / [mm::free_page], as page tables, stacks and images use them. *)
Class FrameAllocator (A : Type) := {
  fa_alloc : A -> Z * A;
  fa_free : A -> Z -> A;
  (** The frame is in use: handed out, or never available. *)
  fa_owned : A -> Z -> Prop
}.

Class FrameAllocatorSpec (A : Type) `{FrameAllocator A} := {
  fa_alloc_keeps a f a' g : fa_alloc a = (f, a') -> fa_owned a g -> fa_owned a' g;
  fa_alloc_fresh a f a' : fa_alloc a = (f, a') -> f <> 0 -> ~ fa_owned a f;
  fa_alloc_owned a f a' : fa_alloc a = (f, a') -> f <> 0 -> fa_owned a' f;
  fa_alloc_frame a f a' : fa_alloc a = (f, a') -> f <> 0 ->
    0 < f < 2 ^ 30 /\ f mod page_size = 0;
  fa_free_other a f g : 0 <= f < 2 ^ 64 -> g mod page_size = 0 -> f mod page_size = 0 ->
    f <> g -> fa_owned a g -> fa_owned (fa_free a f) g
}.

(** ** Pages borrowed and given back *)

Section borrowing.
  Context {A : Type} `{FrameAllocator A}.

(** From one allocator to another by taking pages and giving each back, the pages taken
    in between first. *)
Inductive balanced : A -> A -> Prop :=
  | bal_refl a : balanced a a
  | bal_page a f a1 a2 a3 : fa_alloc a = (f, a1) -> f <> 0 -> balanced a1 a2 -> balanced (fa_free a2 f) a3 -> balanced a a3.

Lemma balanced_trans a b c : balanced a b -> balanced b c -> balanced a c.
Proof. induction 1; intros; [done|]. eapply bal_page; eauto. Qed.

Lemma balanced_page a f a1 a2 : fa_alloc a = (f, a1) -> f <> 0 -> balanced a1 a2 -> balanced a (fa_free a2 f).
Proof. intros. eapply bal_page; [done..|]. apply bal_refl. Qed.

(** An allocation fails while at most [held] pages are borrowed. *)
Fixpoint out_of_pages (held : nat) (a : A) : Prop :=
  exists a', balanced a a' /\ ((fa_alloc a').1 = 0 \/ match held with O => False | S k => out_of_pages k (fa_alloc a').2 end).

Lemma out_of_pages_balanced held a b : balanced a b -> out_of_pages held b -> out_of_pages held a.
Proof. intros Hb. destruct held; intros (c & Hc & Hf); exists c; (split; [by eapply balanced_trans|done]). Qed.

Lemma out_of_pages_now held a a1 : fa_alloc a = (0, a1) -> out_of_pages held a.
Proof. intros E. destruct held; exists a; rewrite E; (split; [apply bal_refl|by left]). Qed.

Lemma out_of_pages_inside held a f a1 : fa_alloc a = (f, a1) -> out_of_pages held a1 -> out_of_pages (S held) a.
Proof. intros E Ho. exists a. rewrite E. split; [apply bal_refl|by right]. Qed.

Lemma out_of_pages_more held a : out_of_pages held a -> out_of_pages (S held) a.
Proof.
  revert a. induction held as [|held IH]; intros a (c & Hc & [Hf|Hf]); try done; exists c; (split; [done|]); [by left..|].
  right. by apply IH.
Qed.
End borrowing.

(** [mm::AddressSpace::kernel()] together with [mm::alloc_page] and [mm::free_page],
    as the heap, the device windows and the module loader use them. *)
Class PageMapper (M : Type) := {
  pm_alloc : M -> Z * M;
  pm_free : M -> Z -> M;
  pm_map : M -> Z -> Z -> Z -> Z -> bool * M;
  pm_unmap : M -> Z -> Z -> bool * M;
  pm_protect : M -> Z -> Z -> Z -> bool * M;
  pm_translate : M -> Z -> Z;
  (** The tables are sound and the frames of the set are in use, none as a table. *)
  pm_wf : M -> gset Z -> Prop
}.

(** [length] rounded up to whole pages. *)
Definition pm_span (length : Z) : Z := (length + page_size - 1) / page_size * page_size.

(** The request covers whole pages of the 48-bit address space. *)
Definition pm_range (address length : Z) : Prop :=
  0 <= address /\ address mod page_size = 0 /\ 0 <= length /\
  address + pm_span length <= 2 ^ 48.

(** Outside [address, address + n) both translate alike. *)
Definition pm_same {M} `{PageMapper M} (m m' : M) (address n : Z) : Prop :=
  forall va, 0 <= va < 2 ^ 48 -> ~ address <= va < address + n ->
    pm_translate m' va = pm_translate m va.

Class PageMapperSpec (M : Type) `{PageMapper M} := {
  pm_alloc_spec m D f m' : pm_wf m D -> pm_alloc m = (f, m') ->
    pm_same m m' 0 0 /\
    if f =? 0 then pm_wf m' D
    else pm_wf m' ({[ f ]} ∪ D) /\ f ∉ D /\ 0 < f < 2 ^ 30 /\ f mod page_size = 0;
  pm_free_spec m D f : pm_wf m D -> f ∈ D -> 0 <= f < 2 ^ 30 -> f mod page_size = 0 ->
    (forall g, g ∈ D -> g mod page_size = 0) ->
    pm_wf (pm_free m f) (D ∖ {[ f ]}) /\ pm_same m (pm_free m f) 0 0;
  pm_map_spec m D address frame length flags ok m' :
    pm_wf m D -> pm_range address length -> 0 <= frame -> frame mod page_size = 0 ->
    frame + pm_span length <= 2 ^ 52 ->
    pm_map m address frame length flags = (ok, m') ->
    pm_wf m' D /\ pm_same m m' address (pm_span length) /\
    (ok = true -> forall va, address <= va < address + pm_span length ->
       pm_translate m' va = frame + (va - address));
  pm_unmap_spec m D address length ok m' :
    pm_wf m D -> pm_range address length -> pm_unmap m address length = (ok, m') ->
    pm_wf m' D /\ pm_same m m' address (pm_span length) /\
    (ok = true -> forall va, address <= va < address + pm_span length ->
       pm_translate m' va = 0);
  pm_protect_spec m D address length flags ok m' :
    pm_wf m D -> pm_range address length -> pm_protect m address length flags = (ok, m') ->
    pm_wf m' D /\ pm_same m m' 0 0
}.

(** User space starts at the second entry of the top level table. *)
Definition user_base : Z := 0x0000008000000000.

(** A process address space made from the kernel's: [us_create] leaves the new one in
    place of the kernel's, over the same frames; [false] when there is no frame. *)
Class UserSpaces (M : Type) `{PageMapper M} := {
  us_create : M -> bool * M
}.

Class UserSpacesSpec (M : Type) `{UserSpaces M} := {
  us_create_spec m D ok m' : pm_wf m D -> us_create m = (ok, m') ->
    pm_wf m' D /\
    (ok = true ->
       (forall va, 0 <= va < user_base -> pm_translate m' va = pm_translate m va) /\
       (forall va, user_base <= va < 2 ^ 48 -> pm_translate m' va = 0))
}.
