(* ===== verification/Locks.v ===== *)
(** * Locks (src/include/eris/lock.hpp, src/kernel/lib/lock.cpp)

    The locks one memory access at a time, for any number of CPUs: each CPU is at a
    point of [lock] or [unlock] with its interrupt flag, and a step lets one of them
    perform its next access.  This is what makes it right to treat the operations of
    the other components, which run under these locks, as atomic. *)

From S2P Require Import Prelude.

Definition no_owner : Z := 0xFFFFFFFF.

(** What a CPU does next where it has a choice. *)
Inductive action := Acquire | Continue | Release.

Module IrqSpinLock.

(** Where a CPU is; [flags] is the interrupt flag [lock] saved.  [Again] is a second
    [lock] by the CPU that already holds the lock. *)
Inductive pc :=
  | Outside
  | ReadHeld (flags : bool)       (* interrupts off, about to read [inner_.held()] *)
  | ReadOwner (flags : bool)      (* held: about to compare the owner *)
  | Spin (flags : bool)           (* about to exchange *)
  | StoreOwner (flags : bool)     (* has the inner lock *)
  | Holding (flags : bool)
  | AgainHeld (flags : bool)
  | AgainOwner (flags : bool)
  | AgainSpin (flags : bool)
  | Unlocking (flags : bool)      (* owner cleared, about to clear the inner lock *)
  | Restoring (flags : bool)      (* about to restore the interrupt flag *)
  | Panicked (holder : bool).     (* [lock_recursion_panic] *)

Record state := mk { locked : bool; owner : Z; cpus : list (pc * bool) }.

Definition put (k : nat) (c : pc * bool) (s : state) : state := mk (locked s) (owner s) (<[k := c]> (cpus s)).

(** One access by CPU [k]; [None] when it cannot act that way. *)
Definition step (a : action) (k : nat) (s : state) : option state :=
  c ← cpus s !! k;
  let '(p, irq) := c in
  match a, p with
  | Acquire, Outside => Some (put k (ReadHeld irq, false) s)
  | Continue, ReadHeld f => Some (put k (if locked s then ReadOwner f else Spin f, irq) s)
  | Continue, ReadOwner f =>
    Some (put k (if owner s =? Z.of_nat k then Panicked false else Spin f, irq) s)
  | Continue, Spin f =>
    Some (mk true (owner s) (<[k := (if locked s then Spin f else StoreOwner f, irq)]> (cpus s)))
  | Continue, StoreOwner f => Some (mk (locked s) (Z.of_nat k) (<[k := (Holding f, irq)]> (cpus s)))
  | Acquire, Holding f => Some (put k (AgainHeld f, irq) s)
  | Continue, AgainHeld f => Some (put k (if locked s then AgainOwner f else AgainSpin f, irq) s)
  | Continue, AgainOwner f =>
    Some (put k (if owner s =? Z.of_nat k then Panicked true else AgainSpin f, irq) s)
  | Continue, AgainSpin f => Some (mk true (owner s) (cpus s))
  | Release, Holding f => Some (mk (locked s) no_owner (<[k := (Unlocking f, irq)]> (cpus s)))
  | Continue, Unlocking f => Some (mk false (owner s) (<[k := (Restoring f, irq)]> (cpus s)))
  | Continue, Restoring f => Some (put k (Outside, if f then true else irq) s)
  | _, _ => None
  end.

(** Any interleaving from a free lock. *)
Inductive reachable : state -> Prop :=
  | reach_init (irqs : list bool) : Z.of_nat (length irqs) < no_owner ->
      reachable (mk false no_owner ((fun i => (Outside, i)) <$> irqs))
  | reach_step a k s s' : reachable s -> step a k s = Some s' -> reachable s'.

(** Has the inner lock. *)
Definition inside (p : pc) : bool :=
  match p with
  | StoreOwner _ | Holding _ | AgainHeld _ | AgainOwner _ | AgainSpin _ | Unlocking _ | Panicked true => true
  | _ => false
  end.

(** Has stored itself as owner. *)
Definition owns (p : pc) : bool :=
  match p with
  | Holding _ | AgainHeld _ | AgainOwner _ | AgainSpin _ | Panicked true => true
  | _ => false
  end.

Record inv (s : state) : Prop := {
  inv_one : forall i j p q x y, cpus s !! i = Some (p, x) -> cpus s !! j = Some (q, y) ->
    inside p = true -> inside q = true -> i = j;
  inv_locked : forall i p x, cpus s !! i = Some (p, x) -> inside p = true -> locked s = true;
  inv_owner : forall i p x, cpus s !! i = Some (p, x) -> owns p = true -> owner s = Z.of_nat i;
  inv_owned : owner s <> no_owner -> exists i p x, cpus s !! i = Some (p, x) /\ owns p = true /\ owner s = Z.of_nat i;
  inv_irq : forall i p x, cpus s !! i = Some (p, x) -> p <> Outside -> x = false;
  inv_good : forall i p x, cpus s !! i = Some (p, x) ->
    match p with Panicked false | AgainSpin _ => False | _ => True end;
  inv_count : Z.of_nat (length (cpus s)) < no_owner
}.

Lemma owns_inside p : owns p = true -> inside p = true.
Proof. destruct p as [| | | | | | | | | | |[]]; done. Qed.

(** A step that keeps what CPU [k] has of the lock. *)
Lemma inv_put k s p x q y :
  inv s -> cpus s !! k = Some (p, x) -> inside q = inside p -> owns q = owns p ->
  (q <> Outside -> y = false) -> match q with Panicked false | AgainSpin _ => False | _ => True end ->
  inv (put k (q, y) s).
Proof.
  intros [H1 H2 H3 H4 H5 H6 H7] Hk Ei Eo Hy Hg.
  assert (forall i r z, (<[k := (q, y)]> (cpus s)) !! i = Some (r, z) ->
    (i = k /\ r = q /\ z = y) \/ (i <> k /\ cpus s !! i = Some (r, z))) as Hinv.
  { intros i r z Hi. apply list_lookup_insert_Some in Hi as [(-> & Heq & _)|[Hne Hi]]; [left|right; by split].
    by injection Heq as -> ->. }
  constructor; unfold put; cbn [locked owner cpus].
  - intros i j r r' z z' Hi Hj Hr Hr'.
    destruct (Hinv _ _ _ Hi) as [(-> & -> & _)|[Hni Hi']]; destruct (Hinv _ _ _ Hj) as [(-> & -> & _)|[Hnj Hj']]; [done| | |].
    + rewrite Ei in Hr. by eapply (H1 k j).
    + rewrite Ei in Hr'. by eapply (H1 i k).
    + by eapply (H1 i j).
  - intros i r z Hi Hr. destruct (Hinv _ _ _ Hi) as [(-> & -> & _)|[_ Hi']]; [rewrite Ei in Hr; by eapply H2|by eapply H2].
  - intros i r z Hi Hr. destruct (Hinv _ _ _ Hi) as [(-> & -> & _)|[_ Hi']]; [rewrite Eo in Hr; by eapply H3|by eapply H3].
  - intros Ho. destruct (H4 Ho) as (i & r & z & Hi & Hr & E). destruct (decide (i = k)) as [->|Hne].
    + exists k, q, y. assert (r = p) as -> by congruence. rewrite list_lookup_insert_eq by (by eapply lookup_lt_Some).
      split_and!; [done|congruence|done].
    + exists i, r, z. by rewrite list_lookup_insert_ne.
  - intros i r z Hi Hr. destruct (Hinv _ _ _ Hi) as [(-> & -> & ->)|[_ Hi']]; [by apply Hy|by eapply H5].
  - intros i r z Hi. destruct (Hinv _ _ _ Hi) as [(-> & -> & ->)|[_ Hi']]; [done|by eapply H6].
  - by rewrite length_insert.
Qed.

Lemma index_not_no_owner s k p x : inv s -> cpus s !! k = Some (p, x) -> Z.of_nat k <> no_owner.
Proof. intros Hi Hk. apply lookup_lt_Some in Hk. pose proof (inv_count _ Hi). lia. Qed.

(** The accesses that change the lock itself. *)
Lemma inv_write k s p x q y l o :
  inv s -> cpus s !! k = Some (p, x) ->
  (forall i r z, i <> k -> cpus s !! i = Some (r, z) -> inside r = true -> inside q = false /\ l = true) ->
  (inside q = true -> l = true) ->
  (forall i r z, i <> k -> cpus s !! i = Some (r, z) -> owns r = true -> o = Z.of_nat i) ->
  (owns q = true -> o = Z.of_nat k) ->
  (o <> no_owner -> (o = Z.of_nat k /\ owns q = true) \/
     exists i r z, i <> k /\ cpus s !! i = Some (r, z) /\ owns r = true /\ o = Z.of_nat i) ->
  y = false -> match q with Panicked false | AgainSpin _ => False | _ => True end ->
  inv (mk l o (<[k := (q, y)]> (cpus s))).
Proof.
  intros Hi Hk Ho1 Hl Ho2 Hq Ho3 Hy Hg. pose proof Hi as [H1 H2 H3 H4 H5 H6 H7].
  assert (forall i r z, (<[k := (q, y)]> (cpus s)) !! i = Some (r, z) ->
    (i = k /\ r = q /\ z = y) \/ (i <> k /\ cpus s !! i = Some (r, z))) as Hinv.
  { intros i r z Hj. apply list_lookup_insert_Some in Hj as [(-> & Heq & _)|[Hne Hj]]; [left|right; by split].
    by injection Heq as -> ->. }
  constructor; cbn [locked owner cpus].
  - intros i j r r' z z' Hi' Hj Hr Hr'.
    destruct (Hinv _ _ _ Hi') as [(-> & -> & _)|[Hni Hi2]]; destruct (Hinv _ _ _ Hj) as [(-> & -> & _)|[Hnj Hj2]]; [done| | |].
    + destruct (Ho1 _ _ _ Hnj Hj2 Hr') as [? _]. congruence.
    + destruct (Ho1 _ _ _ Hni Hi2 Hr) as [? _]. congruence.
    + by eapply (H1 i j).
  - intros i r z Hi' Hr. destruct (Hinv _ _ _ Hi') as [(-> & -> & _)|[Hni Hi2]]; [by apply Hl|].
    by destruct (Ho1 _ _ _ Hni Hi2 Hr).
  - intros i r z Hi' Hr. destruct (Hinv _ _ _ Hi') as [(-> & -> & _)|[Hni Hi2]]; [by apply Hq|]. by eapply Ho2.
  - intros Hno. destruct (Ho3 Hno) as [[-> Hq']|(i & r & z & Hne & Hi' & Hr & ->)].
    + exists k, q, y. by rewrite list_lookup_insert_eq by (by eapply lookup_lt_Some).
    + exists i, r, z. by rewrite list_lookup_insert_ne.
  - intros i r z Hi' Hr. destruct (Hinv _ _ _ Hi') as [(-> & -> & ->)|[_ Hi2]]; [done|by eapply H5].
  - intros i r z Hi'. destruct (Hinv _ _ _ Hi') as [(-> & -> & ->)|[_ Hi2]]; [done|by eapply H6].
  - by rewrite length_insert.
Qed.

Lemma owner_elsewhere s k p x : inv s -> cpus s !! k = Some (p, x) -> owns p = false ->
  owner s <> no_owner -> exists i r z, i <> k /\ cpus s !! i = Some (r, z) /\ owns r = true /\ owner s = Z.of_nat i.
Proof.
  intros Hi Hk Hp Ho. destruct (inv_owned _ Hi Ho) as (i & r & z & H & Hr & E). exists i, r, z.
  split_and!; try done. intros ->. congruence.
Qed.

Lemma irq_step_inv a k s s' : inv s -> step a k s = Some s' -> inv s'.
Proof.
  intros Hi E. unfold step in E. destruct (cpus s !! k) as [[p irq]|] eqn:Hk; [|done]. cbn [mbind option_bind] in E.
  pose proof (inv_irq _ Hi k p irq Hk) as Hirq. pose proof (inv_good _ Hi k p irq Hk) as Hgood.
  assert (forall i r z, i <> k -> cpus s !! i = Some (r, z) -> inside p = true -> inside r = true -> False) as Hone.
  { intros i r z Hne Hir Hp Hr. apply Hne. by eapply (inv_one _ Hi). }
  destruct a, p as [|f|f|f|f|f|f|f|f|f|f|b]; try discriminate E; injection E as <-; cbn [mbind option_bind].
  - by eapply inv_put.
  - eapply inv_put; [done|exact Hk|done|done|intros _; by apply Hirq|done].
  - eapply inv_put; [done|exact Hk|by destruct (locked s)|by destruct (locked s)|intros _; by apply Hirq|by destruct (locked s)].
  - (* the owner is somebody else *)
    destruct (Z.eqb_spec (owner s) (Z.of_nat k)) as [Eo|_].
    + exfalso. destruct (owner_elsewhere s k _ _ Hi Hk eq_refl) as (i & r & z & Hne & _ & _ & Ei).
      { rewrite Eo. by eapply index_not_no_owner. }
      lia.
    + eapply inv_put; [done|exact Hk|done|done|intros _; by apply Hirq|done].
  - (* the exchange *)
    destruct (locked s) eqn:El.
    + eapply inv_write; [done|exact Hk|done|done| | | |by apply Hirq|done].
      * intros i r z _ Hr Ho. by eapply (inv_owner _ Hi).
      * done.
      * intros Ho. right. by eapply owner_elsewhere.
    + eapply inv_write; [done|exact Hk| |done| |done| |by apply Hirq|done].
      * intros i r z _ Hr Hin. pose proof (inv_locked _ Hi _ _ _ Hr Hin). congruence.
      * intros i r z _ Hr Ho. by eapply (inv_owner _ Hi).
      * intros Ho. right. by eapply owner_elsewhere.
  - (* storing the owner *)
    eapply inv_write; [done|exact Hk| |intros _; by eapply (inv_locked _ Hi)| |done|intros _; by left|by apply Hirq|done].
    + intros i r z Hne Hr Hin. exfalso. by eapply Hone.
    + intros i r z Hne Hr Ho. exfalso. eapply Hone; [exact Hne|exact Hr|done|by apply owns_inside].
  - rewrite (inv_locked _ Hi _ _ _ Hk eq_refl). eapply inv_put; [done|exact Hk|done|done|intros _; by apply Hirq|done].
  - rewrite (inv_owner _ Hi _ _ _ Hk eq_refl), Z.eqb_refl. eapply inv_put; [done|exact Hk|done|done|intros _; by apply Hirq|done].
  - done.
  - (* clearing the inner lock *)
    eapply inv_write; [done|exact Hk| |done| |done| |by apply Hirq|done].
    + intros i r z Hne Hr Hin. exfalso. by eapply Hone.
    + intros i r z _ Hr Ho. by eapply (inv_owner _ Hi).
    + intros Ho. right. by eapply owner_elsewhere.
  - (* restoring the flag *)
    eapply inv_put; [done|exact Hk|done|done|by intros []|done].
  - (* clearing the owner *)
    eapply inv_write; [done|exact Hk| |intros _; by eapply (inv_locked _ Hi)| |done|done|by apply Hirq|done].
    + intros i r z Hne Hr Hin. exfalso. by eapply Hone.
    + intros i r z Hne Hr Ho. exfalso. eapply Hone; [exact Hne|exact Hr|done|by apply owns_inside].
Qed.

Lemma irq_reachable_inv s : reachable s -> inv s.
Proof.
  induction 1 as [irqs Hn|a k s s' Hr IH E]; [|by eapply irq_step_inv].
  assert (forall i p x, ((fun i => (Outside, i)) <$> irqs) !! i = Some (p, x) -> p = Outside) as Ho.
  { intros i p x H. rewrite list_lookup_fmap in H. destruct (irqs !! i); [|done]. by injection H as <- _. }
  constructor; cbn [locked owner cpus].
  - intros i j p q x y Hi _ Hp. by rewrite (Ho _ _ _ Hi) in Hp.
  - intros i p x Hi Hp. by rewrite (Ho _ _ _ Hi) in Hp.
  - intros i p x Hi Hp. by rewrite (Ho _ _ _ Hi) in Hp.
  - done.
  - intros i p x Hi Hp. by rewrite (Ho _ _ _ Hi) in Hp.
  - intros i p x Hi. by rewrite (Ho _ _ _ Hi).
  - by rewrite length_fmap.
Qed.

(** C8: Mutual exclusion, without false alarms: under any interleaving of the accesses of
    any number of CPUs, at most one is inside the lock, its interrupts are off from
    before it asks until it is out, the recursion panic is never raised by a CPU that
    does not hold the lock, and a CPU that asks for the lock it holds panics instead
    of spinning for ever. *)
Theorem irq_lock_exclusive s :
  reachable s ->
  (forall i j p q x y, cpus s !! i = Some (p, x) -> cpus s !! j = Some (q, y) ->
     inside p = true -> inside q = true -> i = j) /\
  (forall i p x, cpus s !! i = Some (p, x) -> p <> Outside -> x = false) /\
  (forall i x, cpus s !! i <> Some (Panicked false, x)) /\
  (forall i f x, cpus s !! i = Some (AgainHeld f, x) ->
     exists s' s'', step Continue i s = Some s' /\ step Continue i s' = Some s'' /\
       cpus s'' !! i = Some (Panicked true, x)).
Proof.
  intros Hr. pose proof (irq_reachable_inv s Hr) as Hi. split_and!.
  - apply (inv_one _ Hi).
  - apply (inv_irq _ Hi).
  - intros i x H. apply (inv_good _ Hi i _ _ H).
  - intros i f x H. unfold step at 1. rewrite H. cbn [mbind option_bind].
    rewrite (inv_locked _ Hi _ _ _ H eq_refl). eexists _, _. split; [reflexivity|].
    unfold step, put. cbn [cpus]. rewrite list_lookup_insert_eq by (by eapply lookup_lt_Some). cbn [mbind option_bind owner].
    rewrite (inv_owner _ Hi _ _ _ H eq_refl), Z.eqb_refl. split; [reflexivity|].
    cbn [cpus]. apply list_lookup_insert_eq. rewrite length_insert. by eapply lookup_lt_Some.
Qed.

(** A whole schedule. *)
Fixpoint run (l : list (action * nat)) (s : state) : option state :=
  match l with
  | [] => Some s
  | (a, k) :: l => s ← step a k s; run l s
  end.

Lemma run_reachable l s s' : reachable s -> run l s = Some s' -> reachable s'.
Proof.
  revert s. induction l as [|[a k] l IH]; intros s Hr E; cbn [run] in E; [by injection E as <-|].
  destruct (step a k s) as [s1|] eqn:E1; [|done]. eapply IH; [|exact E]. by eapply reach_step.
Qed.

(** Two CPUs: the second spins while the first holds the lock. *)
Definition demo_schedule : list (action * nat) :=
  [(Acquire, 0%nat); (Continue, 0%nat); (Acquire, 1%nat); (Continue, 0%nat); (Continue, 1%nat);
   (Continue, 0%nat); (Continue, 1%nat); (Continue, 1%nat)].

Definition demo_end : state := mk true 0 [(Holding true, false); (Spin true, false)].

Lemma irq_lock_exclusive_witness :
  run demo_schedule (mk false no_owner [(Outside, true); (Outside, true)]) = Some demo_end /\
  forall i j p q x y, cpus demo_end !! i = Some (p, x) -> cpus demo_end !! j = Some (q, y) ->
     inside p = true -> inside q = true -> i = j.
Proof.
  split; [reflexivity|]. apply irq_lock_exclusive.
  apply (run_reachable demo_schedule (mk false no_owner [(Outside, true); (Outside, true)])); [|reflexivity].
  by apply (reach_init [true; true]).
Defined.

End IrqSpinLock.

Module RecursiveIrqLock.

(** Where a CPU is.  [depth_] and the saved flags are ordinary memory: a CPU reads
    the depth without the lock. *)
Inductive pc :=
  | Idle
  | ReadDepth (flags : bool)
  | ReadOwner (flags : bool)     (* depth was not zero *)
  | Bump (flags : bool)          (* its own lock: about to increment the depth *)
  | Spin (flags : bool)
  | StoreOwner (flags : bool)
  | StoreDepth (flags : bool)
  | ClearOwner (flags : bool)    (* depth came back to zero *)
  | ClearLock (flags : bool)
  | Restore (flags : bool).

(** A CPU with the flags its guards saved, innermost first. *)
Record cpu := mk_cpu { at_ : pc; saved : list bool; irq : bool }.

Record state := mk { locked : bool; owner : Z; depth_ : Z; cpus : list cpu }.

Definition goto (c : cpu) (p : pc) : cpu := mk_cpu p (saved c) (irq c).

Definition put (k : nat) (c : cpu) (s : state) : state := mk (locked s) (owner s) (depth_ s) (<[k := c]> (cpus s)).

Definition step (a : action) (k : nat) (s : state) : option state :=
  c ← cpus s !! k;
  match a, at_ c with
  | Acquire, Idle => Some (put k (mk_cpu (ReadDepth (irq c)) (saved c) false) s)
  | Continue, ReadDepth f => Some (put k (goto c (if 0 <? depth_ s then ReadOwner f else Spin f)) s)
  | Continue, ReadOwner f => Some (put k (goto c (if owner s =? Z.of_nat k then Bump f else Spin f)) s)
  | Continue, Bump f =>
    Some (mk (locked s) (owner s) (u32 (depth_ s + 1)) (<[k := mk_cpu Idle (f :: saved c) (irq c)]> (cpus s)))
  | Continue, Spin f =>
    Some (mk true (owner s) (depth_ s) (<[k := goto c (if locked s then Spin f else StoreOwner f)]> (cpus s)))
  | Continue, StoreOwner f => Some (mk (locked s) (Z.of_nat k) (depth_ s) (<[k := goto c (StoreDepth f)]> (cpus s)))
  | Continue, StoreDepth f => Some (mk (locked s) (owner s) 1 (<[k := mk_cpu Idle (f :: saved c) (irq c)]> (cpus s)))
  | Release, Idle =>
    match saved c with
    | [] => None
    | f :: rest =>
      let d := u32 (depth_ s - 1) in
      Some (mk (locked s) (owner s) d
        (<[k := mk_cpu (if d =? 0 then ClearOwner f else Restore f) rest (irq c)]> (cpus s)))
    end
  | Continue, ClearOwner f => Some (mk (locked s) no_owner (depth_ s) (<[k := goto c (ClearLock f)]> (cpus s)))
  | Continue, ClearLock f => Some (mk false (owner s) (depth_ s) (<[k := goto c (Restore f)]> (cpus s)))
  | Continue, Restore f => Some (put k (mk_cpu Idle (saved c) (if f then true else irq c)) s)
  | _, _ => None
  end.

(** The stack bounds the nesting. *)
Definition bounded (s : state) : Prop := Forall (fun c => Z.of_nat (length (saved c)) < 2 ^ 32) (cpus s).

Inductive reachable : state -> Prop :=
  | reach_init (irqs : list bool) : Z.of_nat (length irqs) < no_owner ->
      reachable (mk false no_owner 0 (mk_cpu Idle [] <$> irqs))
  | reach_step a k s s' : reachable s -> step a k s = Some s' -> bounded s' -> reachable s'.

Definition nested (c : cpu) : bool := match saved c with [] => false | _ => true end.

(** Has the inner lock. *)
Definition inside (c : cpu) : bool :=
  nested c || match at_ c with StoreOwner _ | StoreDepth _ | ClearOwner _ | ClearLock _ => true | _ => false end.

(** Is recorded as the owner. *)
Definition owns (c : cpu) : bool :=
  nested c || match at_ c with StoreDepth _ | ClearOwner _ => true | _ => false end.

(** Every flag but the outermost was saved with interrupts off. *)
Definition flags_ok (l : list bool) : Prop := forall n, (n + 1 < length l)%nat -> l !! n = Some false.

Definition ok (c : cpu) : Prop :=
  flags_ok (saved c) /\
  match at_ c with
  | Idle => nested c = true -> irq c = false
  | ReadDepth f | ReadOwner f => irq c = false /\ (nested c = true -> f = false)
  | Bump f => irq c = false /\ nested c = true /\ f = false
  | Spin _ | StoreOwner _ | StoreDepth _ | ClearOwner _ | ClearLock _ => irq c = false /\ saved c = []
  | Restore f => irq c = false /\ (nested c = true -> f = false)
  end.

(** The lock's words as they are while CPU [h] is inside. *)
Definition words (h : option nat) (s : state) : Prop :=
  match h with
  | None => locked s = false /\ owner s = no_owner /\ depth_ s = 0
  | Some i => exists c, cpus s !! i = Some c /\ locked s = true /\
      owner s = (if owns c then Z.of_nat i else no_owner) /\ depth_ s = Z.of_nat (length (saved c))
  end.

Definition inv (s : state) : Prop :=
  Z.of_nat (length (cpus s)) < no_owner /\
  exists h, (forall i c, cpus s !! i = Some c -> ok c /\ (inside c = true <-> h = Some i)) /\ words h s.

Lemma inv_step h' k h s c c' l o d :
  Z.of_nat (length (cpus s)) < no_owner ->
  (forall i c, cpus s !! i = Some c -> ok c /\ (inside c = true <-> h = Some i)) ->
  cpus s !! k = Some c -> ok c' -> (inside c' = true <-> h' = Some k) ->
  (forall i, i <> k -> h' = Some i <-> h = Some i) ->
  words h' (mk l o d (<[k := c']> (cpus s))) ->
  inv (mk l o d (<[k := c']> (cpus s))).
Proof.
  intros Hn Hall Hk Hok Hin Hh Hw. split; [by cbn; rewrite length_insert|]. exists h'. split; [|done].
  cbn [cpus]. intros i x Hi. apply list_lookup_insert_Some in Hi as [(-> & <- & _)|[Hne Hi]]; [done|].
  rewrite Hh by done. by apply Hall.
Qed.

(** A step of a CPU outside the lock that stays outside. *)
Lemma inv_outside h k s c c' :
  Z.of_nat (length (cpus s)) < no_owner ->
  (forall i c, cpus s !! i = Some c -> ok c /\ (inside c = true <-> h = Some i)) ->
  words h s -> cpus s !! k = Some c -> inside c = false -> ok c' -> inside c' = false -> inv (put k c' s).
Proof.
  intros Hn Hall Hw Hk Hc Hok Hc'. destruct (Hall _ _ Hk) as [_ Hin].
  assert (h <> Some k) as Hne by (intros E; apply Hin in E; congruence).
  eapply (inv_step h); try done; [rewrite Hc'; by split|].
  destruct h as [i|]; [|done]. destruct Hw as (x & Hx & Hw). exists x. cbn.
  rewrite list_lookup_insert_ne by congruence. done.
Qed.

(** A step of the CPU inside that stays inside. *)
Lemma inv_inside k s c c' l o d :
  Z.of_nat (length (cpus s)) < no_owner ->
  (forall i c, cpus s !! i = Some c -> ok c /\ (inside c = true <-> Some k = Some i)) ->
  cpus s !! k = Some c -> ok c' -> inside c' = true -> l = true ->
  o = (if owns c' then Z.of_nat k else no_owner) -> d = Z.of_nat (length (saved c')) ->
  inv (mk l o d (<[k := c']> (cpus s))).
Proof.
  intros Hn Hall Hk Hok Hc' -> -> ->. eapply (inv_step (Some k)); try done.
  exists c'. cbn. split; [|done]. apply list_lookup_insert_eq. by eapply lookup_lt_Some.
Qed.

Lemma flags_ok_push f l : flags_ok l -> (l <> [] -> f = false) -> flags_ok (f :: l).
Proof. intros Hl Hf [|n] Hn; cbn in *; [|apply Hl; lia]. rewrite Hf; [done|]. by destruct l; cbn in *; [lia|]. Qed.

Lemma flags_ok_pop f l : flags_ok (f :: l) -> flags_ok l /\ (l <> [] -> f = false).
Proof.
  intros Hl. split; [intros n Hn; apply (Hl (S n)); cbn; lia|].
  intros Hne. specialize (Hl 0%nat). destruct l; [done|]. cbn in Hl. assert (Some f = Some false) as E by (apply Hl; lia). congruence.
Qed.

(** Whether [k] is the CPU inside, with what it knows of the words then. *)
Lemma inv_cases h k s c :
  (forall i c, cpus s !! i = Some c -> ok c /\ (inside c = true <-> h = Some i)) ->
  words h s -> cpus s !! k = Some c ->
  (inside c = false /\ h <> Some k) \/
  (inside c = true /\ h = Some k /\ locked s = true /\
   owner s = (if owns c then Z.of_nat k else no_owner) /\ depth_ s = Z.of_nat (length (saved c))).
Proof.
  intros Hall Hw Hk. destruct (Hall _ _ Hk) as [_ Hin]. destruct (inside c) eqn:Ec.
  - right. assert (h = Some k) as -> by by apply Hin. destruct Hw as (x & Hx & Hw). by simplify_eq.
  - left. split; [done|]. intros E. by apply Hin in E.
Qed.

Lemma owner_inside h k s : Z.of_nat (length (cpus s)) < no_owner -> words h s ->
  is_Some (cpus s !! k) -> h <> Some k -> owner s <> Z.of_nat k.
Proof.
  intros Hn Hw [c Hk] Hne. apply lookup_lt_Some in Hk.
  destruct h as [i|]; [destruct Hw as (x & Hx & _ & -> & _); destruct (owns x)|destruct Hw as (_ & -> & _)]; [|lia..].
  intros E. apply Hne. f_equal. lia.
Qed.

Lemma nested_length c : nested c = true <-> 0 < Z.of_nat (length (saved c)).
Proof. unfold nested. destruct (saved c); cbn; split; intros; [done|lia|lia|done]. Qed.

Lemma nested_inside c : inside c = false -> nested c = false.
Proof. unfold inside. by destruct (nested c). Qed.

Lemma recursive_step_inv a k s s' : inv s -> step a k s = Some s' -> bounded s' -> inv s'.
Proof.
  intros (Hn & h & Hall & Hw) E Hb. unfold step in E. destruct (cpus s !! k) as [c|] eqn:Hk; [|done].
  cbn [mbind option_bind] in E. destruct (Hall _ _ Hk) as [[Hf Hat] _].
  pose proof (inv_cases h k s c Hall Hw Hk) as Hcase. pose proof (owner_inside h k s Hn Hw ltac:(by eexists)) as Hown.
  destruct c as [p sv i]. cbn [at_ saved irq goto] in *.
  destruct a, p as [|f|f|f|f|f|f|f|f|f]; try discriminate E.
  - injection E as <-. destruct Hcase as [[Hc Hne]|(Hc & -> & Hl & Ho & Hd)].
    + by eapply inv_outside.
    + by eapply inv_inside.
  - injection E as <-. destruct Hat as [Hi Hfl]. destruct Hcase as [[Hc Hne]|(Hc & -> & Hl & Ho & Hd)].
    + eapply inv_outside; try done; [|by destruct (0 <? depth_ s)]. split; [done|].
      apply nested_inside in Hc. unfold nested in Hc. cbn in *. destruct sv; [|done]. by destruct (0 <? depth_ s).
    + assert (nested (mk_cpu (ReadDepth f) sv i) = true) as Hnn by (unfold inside in Hc; by rewrite orb_false_r in Hc).
      apply nested_length in Hnn as Hlen. cbn in Hlen. rewrite (proj2 (Z.ltb_lt _ _)) by (cbn in Hd; lia).
      by eapply inv_inside.
  - injection E as <-. destruct Hat as [Hi Hfl]. destruct Hcase as [[Hc Hne]|(Hc & -> & Hl & Ho & Hd)].
    + rewrite (proj2 (Z.eqb_neq _ _)) by by apply Hown. eapply inv_outside; try done. split; [done|].
      apply nested_inside in Hc. unfold nested in Hc. cbn in *. by destruct sv.
    + assert (nested (mk_cpu (ReadOwner f) sv i) = true) as Hnn by (unfold inside in Hc; by rewrite orb_false_r in Hc).
      unfold owns in Ho. change (nested _) with (nested (mk_cpu (ReadOwner f) sv i)) in Ho. rewrite Hnn in Ho. cbn in Ho.
      rewrite Ho, Z.eqb_refl. eapply inv_inside; try done; [split; [done|]; split_and!; [done..|by apply Hfl]|].
      cbn. unfold owns. change (nested _) with (nested (mk_cpu (ReadOwner f) sv i)). by rewrite Hnn.
  - injection E as <-. destruct Hat as (-> & Hnn & ->).
    destruct Hcase as [[Hc Hne]|(Hc & -> & Hl & Ho & Hd)]; [apply nested_inside in Hc; congruence|].
    apply (Forall_lookup_1 _ _ k (mk_cpu Idle (false :: sv) false)) in Hb; [|apply list_lookup_insert_eq; by eapply lookup_lt_Some].
    cbn [saved length] in Hb, Hd. eapply inv_inside; try done; [by split; [apply flags_ok_push|]| |cbn [saved length]; rewrite Hd; unfold u32, wrap; dlia].
    unfold owns in Ho. change (nested _) with (nested (mk_cpu (Bump false) sv false)) in Ho. by rewrite Hnn in Ho.
  - injection E as <-. destruct Hat as (-> & ->). destruct Hcase as [[_ Hne]|(Hc & _)]; [|done].
    destruct (locked s) eqn:El.
    + pose proof (inv_outside h k s (mk_cpu (Spin f) [] false) (mk_cpu (Spin f) [] false) Hn Hall Hw Hk eq_refl) as Hi.
      unfold put in Hi. rewrite El in Hi. by apply Hi.
    + destruct h as [j|]; [destruct Hw as (? & _ & ? & _); congruence|]. destruct Hw as (_ & Ho & Hd).
      eapply (inv_step (Some k) k None); try done; [by split; intros; simplify_eq|].
      exists (mk_cpu (StoreOwner f) [] false). cbn. rewrite list_lookup_insert_eq by (by eapply lookup_lt_Some). done.
  - injection E as <-. destruct Hat as (-> & ->). destruct Hcase as [[Hc _]|(_ & -> & Hl & Ho & Hd)]; [done|].
    by eapply inv_inside.
  - injection E as <-. destruct Hat as (-> & ->). destruct Hcase as [[Hc _]|(_ & -> & Hl & Ho & Hd)]; [done|].
    eapply inv_inside; try done. by split; [apply flags_ok_push|].
  - injection E as <-. destruct Hat as (-> & ->). destruct Hcase as [[Hc _]|(_ & -> & Hl & Ho & Hd)]; [done|].
    by eapply inv_inside.
  - injection E as <-. destruct Hat as (-> & ->). destruct Hcase as [[Hc _]|(_ & -> & Hl & Ho & Hd)]; [done|].
    eapply (inv_step None k (Some k)); try done. by split; intros; simplify_eq.
  - injection E as <-. destruct Hat as (-> & Hfl). destruct Hcase as [[Hc Hne]|(Hc & -> & Hl & Ho & Hd)].
    + eapply inv_outside; try done. split; [done|]. cbn. apply nested_inside in Hc. unfold nested in *. cbn in *. by destruct sv.
    + eapply inv_inside; try done. split; [done|]. cbn. intros Hnn. by rewrite Hfl.
  - destruct sv as [|f rest]; [done|]. injection E as <-.
    destruct Hcase as [[Hc Hne]|(Hc & -> & Hl & Ho & Hd)]; [done|]. apply flags_ok_pop in Hf as [Hf Hff].
    specialize (Hat eq_refl). subst i. cbn in Ho.
    apply Forall_lookup_1 with (i := k) (x := mk_cpu (if u32 (depth_ s - 1) =? 0 then ClearOwner f else Restore f) rest false) in Hb;
      [|apply list_lookup_insert_eq; by eapply lookup_lt_Some]. cbn [saved length] in Hb, Hd.
    assert (u32 (depth_ s - 1) = Z.of_nat (length rest)) as Ed by (rewrite Hd; unfold u32, wrap; dlia).
    rewrite Ed. destruct rest as [|g rest]; cbn [length]; [by eapply inv_inside|].
    rewrite (proj2 (Z.eqb_neq _ _)) by lia. eapply inv_inside; try done. split; [done|]. cbn. split; [done|]. intros _. by apply Hff.
Qed.

Lemma recursive_reachable_inv s : reachable s -> inv s.
Proof.
  induction 1 as [irqs Hn|a k s s' Hr IH E Hb]; [|by eapply recursive_step_inv].
  split; [by cbn; rewrite length_fmap|]. exists None. split; [|done]. cbn [cpus].
  intros i c Hc. rewrite list_lookup_fmap in Hc. destruct (irqs !! i) as [b|]; [|done]. injection Hc as <-.
  split; [|by split]. by split; [intros n; cbn; lia|].
Qed.

(** C36: The recursive lock excludes the other CPUs and lets its own back in: under any
    interleaving at most one CPU is inside; while a CPU has guards its interrupts stay
    off, the lock is taken, the owner is that CPU and the depth is the number of its
    guards; and a CPU that has a guard never spins for the next one. *)
Theorem recursive_lock_sound s :
  reachable s ->
  (forall i j c d, cpus s !! i = Some c -> cpus s !! j = Some d -> inside c = true -> inside d = true -> i = j) /\
     (forall i c, cpus s !! i = Some c -> nested c = true ->
     irq c = false /\ locked s = true /\ owner s = Z.of_nat i /\ depth_ s = Z.of_nat (length (saved c)) /\
     (forall f, at_ c <> Spin f)).
Proof.
  intros Hr. destruct (recursive_reachable_inv s Hr) as (Hn & h & Hall & Hw). split.
  - intros i j c d Hi Hj Hc Hd. apply Hall in Hi as [_ Hi], Hj as [_ Hj]. apply Hi in Hc. apply Hj in Hd. congruence.
  - intros i c Hi Hnn. destruct (Hall _ _ Hi) as [[_ Hat] _].
    destruct (inv_cases h i s c Hall Hw Hi) as [[Hc _]|(_ & _ & Hl & Ho & Hd)]; [apply nested_inside in Hc; congruence|].
    unfold owns in Ho. rewrite Hnn in Ho. unfold nested in Hnn, Hat.
    destruct c as [[] sv b]; cbn in *; split_and!; try done; try tauto; by destruct Hat as [_ ->].
Qed.

Fixpoint run (l : list (action * nat)) (s : state) : option state :=
  match l with
  | [] => Some s
  | (a, k) :: l => s ← step a k s; run l s
  end.

(** CPU 0 takes the lock twice, CPU 1 spins meanwhile. *)
Definition demo_schedule : list (action * nat) :=
  [(Acquire, 0%nat); (Continue, 0%nat); (Continue, 0%nat); (Acquire, 1%nat); (Continue, 0%nat); (Continue, 0%nat);
   (Continue, 1%nat); (Acquire, 0%nat); (Continue, 0%nat); (Continue, 1%nat); (Continue, 0%nat); (Continue, 0%nat);
   (Continue, 1%nat)].

Definition demo_end : state :=
  mk true 0 2 [mk_cpu Idle [false; true] false; mk_cpu (Spin true) [] false].

Definition boundedb (s : state) : bool := forallb (fun c => Z.of_nat (length (saved c)) <? 2 ^ 32) (cpus s).

Fixpoint all_bounded (l : list (action * nat)) (s : state) : bool :=
  match l with
  | [] => true
  | (a, k) :: l => match step a k s with Some s => boundedb s && all_bounded l s | None => true end
  end.

Lemma recursive_run_reachable l s s' : reachable s -> all_bounded l s = true -> run l s = Some s' -> reachable s'.
Proof.
  revert s. induction l as [|[a k] l IH]; intros s Hr Hb E; cbn [run all_bounded] in *; [by injection E as <-|].
  destruct (step a k s) as [s1|] eqn:E1; [|done]. apply andb_prop in Hb as [Hb1 Hb].
  eapply IH; [|exact Hb|exact E]. eapply reach_step; [done|exact E1|]. apply Forall_forall. intros c Hc.
  unfold boundedb in Hb1. rewrite forallb_forall in Hb1. apply Z.ltb_lt, Hb1. by apply list_elem_of_In.
Qed.

Lemma recursive_lock_sound_witness :
  run demo_schedule (mk false no_owner 0 [mk_cpu Idle [] true; mk_cpu Idle [] true]) = Some demo_end /\
  forall i c, cpus demo_end !! i = Some c -> nested c = true ->
     irq c = false /\ locked demo_end = true /\ owner demo_end = Z.of_nat i /\
     depth_ demo_end = Z.of_nat (length (saved c)) /\ (forall f, at_ c <> Spin f).
Proof.
  split; [reflexivity|]. apply recursive_lock_sound.
  apply (recursive_run_reachable demo_schedule (mk false no_owner 0 [mk_cpu Idle [] true; mk_cpu Idle [] true]));
    [by apply (reach_init [true; true])|reflexivity..].
Defined.

End RecursiveIrqLock.
