(* ===== verification/Memory.v ===== *)
(** * Byte memory and the C string routines (src/kernel/lib/string.cpp)

    Memory is a finite map from addresses to bytes; an address outside the map is
    not readable and touching it is a fault ([None]).  [strlen] and [strcmp] run
    with fuel [S (size m)]: every iteration reads a different mapped address, so
    a run that exhausts it would have read more addresses than the map has
    ([strlen_complete] shows the fuel is enough). *)

From S2P Require Import Prelude.

Abbreviation memory := (gmap Z Z).

(** Little-endian loads of [n] bytes, the way a packed struct field is read. *)
Fixpoint rd_le (n : nat) (m : memory) (a : Z) : option Z :=
  match n with
  | O => Some 0
  | S n' => b ← m !! a; r ← rd_le n' m (a + 1); Some (b + 256 * r)
  end.

Definition rd16 (m : memory) (a : Z) : option Z := rd_le 2 m a.
Definition rd32 (m : memory) (a : Z) : option Z := rd_le 4 m a.
Definition rd64 (m : memory) (a : Z) : option Z := rd_le 8 m a.

(** A store faults on an address that is not mapped. *)
Definition wr8 (m : memory) (a v : Z) : option memory :=
  match m !! a with Some _ => Some (<[a := v]> m) | None => None end.

Definition memset (m : memory) (dest value count : Z) : option memory :=
  let byte := u8 value in
  for_o 0 count (fun i m => wr8 m (dest + i) byte) m.

Definition memcpy (m : memory) (dest src count : Z) : option memory :=
  for_o 0 count (fun i m => b ← m !! (src + i); wr8 m (dest + i) b) m.

(** The second loop of [memmove] runs [i] from [count] down to 1. *)
Definition memmove (m : memory) (dest src count : Z) : option memory :=
  if dest <? src
  then for_o 0 count (fun i m => b ← m !! (src + i); wr8 m (dest + i) b) m
  else for_o 0 count
         (fun k m => let i := count - k in
                     b ← m !! (src + (i - 1)); wr8 m (dest + (i - 1)) b) m.

Fixpoint memcmp_loop (n : nat) (m : memory) (a b : Z) : option Z :=
  match n with
  | O => Some 0
  | S n' =>
    x ← m !! a; y ← m !! b;
    if x =? y then memcmp_loop n' m (a + 1) (b + 1)
    else Some (if x <? y then -1 else 1)
  end.

Definition memcmp (m : memory) (a b count : Z) : option Z :=
  memcmp_loop (Z.to_nat count) m a b.

Fixpoint strlen_loop (fuel : nat) (m : memory) (s length : Z) : option Z :=
  match fuel with
  | O => None
  | S fuel' =>
    c ← m !! (s + length);
    if c =? 0 then Some length else strlen_loop fuel' m s (length + 1)
  end.

Definition strlen (m : memory) (s : Z) : option Z := strlen_loop (S (size m)) m s 0.

Fixpoint strcmp_loop (fuel : nat) (m : memory) (a b : Z) : option Z :=
  match fuel with
  | O => None
  | S fuel' =>
    x ← m !! a; y ← m !! b;
    if negb (x =? 0) && (x =? y) then strcmp_loop fuel' m (a + 1) (b + 1)
    else Some (x - y)
  end.

Definition strcmp (m : memory) (a b : Z) : option Z := strcmp_loop (S (size m)) m a b.

(** ** What the routines mean *)

(** [n] readable bytes at [a]. *)
Definition mapped (m : memory) (a n : Z) : Prop :=
  forall i, 0 <= i < n -> is_Some (m !! (a + i)).

(** The bytes [bs] stand at [a]. *)
Definition bytes_at (m : memory) (a : Z) (bs : list Z) : Prop :=
  forall i b, bs !! i = Some b -> m !! (a + Z.of_nat i) = Some b.

(** A NUL terminated string: non-zero bytes [bs], then a zero. *)
Definition cstring (m : memory) (a : Z) (bs : list Z) : Prop :=
  bytes_at m a (bs ++ [0]) /\ Forall (fun b => b <> 0) bs.

Lemma wr8_mapped m a v : is_Some (m !! a) -> wr8 m a v = Some (<[a := v]> m).
Proof. intros [x Hx]. unfold wr8. by rewrite Hx. Qed.

Lemma mapped_insert m a n k v : mapped m a n -> mapped (<[k := v]> m) a n.
Proof. intros H i Hi. rewrite lookup_insert. case_decide; eauto. Qed.

(** [n] zero bytes from [lo] on. *)
Definition zero_memory (lo n : Z) : memory := gset_to_gmap 0 (list_to_set (seqZ lo n)).

Lemma zero_memory_mapped lo n a : lo <= a < lo + n -> is_Some (zero_memory lo n !! a).
Proof.
  intros Ha. exists 0. apply lookup_gset_to_gmap_Some. split; [|done].
  apply elem_of_list_to_set, elem_of_seqZ. lia.
Qed.

(** A range of a concrete memory, by looking at each byte. *)
Lemma mapped_range (m : memory) lo n a :
  forallb (fun x => match m !! x with Some _ => true | None => false end) (seqZ lo n) = true ->
  lo <= a < lo + n -> is_Some (m !! a).
Proof.
  rewrite forallb_forall. intros Hall Ha. specialize (Hall a).
  destruct (m !! a); [by eexists|]. discriminate Hall. apply list_elem_of_In, elem_of_seqZ. lia.
Qed.

Lemma zero_memory_lookup lo n a v : zero_memory lo n !! a = Some v -> v = 0.
Proof. intros [_ <-]%lookup_gset_to_gmap_Some. done. Qed.

(** The number of mapped addresses bounds the length of a mapped run. *)
Lemma mapped_size m a n : 0 <= n -> mapped m a n -> n <= Z.of_nat (size m).
Proof.
  intros Hn Hm.
  assert (list_to_set (seqZ a n) ⊆ dom m) as Hsub.
  { intros x Hx. apply elem_of_list_to_set, elem_of_seqZ in Hx. apply elem_of_dom.
    destruct (Hm (x - a)) as [v Hv]; [lia|]. exists v. rewrite <- Hv. f_equal. lia. }
  apply subseteq_size in Hsub. rewrite size_dom, size_list_to_set in Hsub by apply NoDup_seqZ.
  rewrite length_seqZ in Hsub. lia.
Qed.

Lemma cstring_mapped m a bs : cstring m a bs -> mapped m a (Z.of_nat (length bs) + 1).
Proof.
  intros [Hb _] i Hi. destruct (lookup_lt_is_Some_2 (bs ++ [0]) (Z.to_nat i)) as [b Hib].
  { rewrite length_app. simpl. lia. }
  exists b. rewrite <- (Hb _ _ Hib). f_equal. lia.
Qed.

Lemma strlen_loop_complete fuel m s len n :
  0 <= len <= n -> m !! (s + n) = Some 0 ->
  (forall i, len <= i < n -> exists b, m !! (s + i) = Some b /\ b <> 0) ->
  n - len < Z.of_nat fuel -> strlen_loop fuel m s len = Some n.
Proof.
  revert len. induction fuel as [|fuel IH]; intros len Hl H0 Hnz Hf; [lia|]. simpl.
  destruct (Z.eq_dec len n) as [->|Hne].
  - by rewrite H0.
  - destruct (Hnz len) as (b & -> & Hb); [lia|]. simpl.
    rewrite (proj2 (Z.eqb_neq b 0)) by done.
    apply IH; [lia|done| |lia]. intros. apply Hnz. lia.
Qed.

(** On a terminated string [strlen] returns, and returns its length. *)
Lemma strlen_complete m a bs :
  cstring m a bs -> strlen m a = Some (Z.of_nat (length bs)).
Proof.
  intros Hc. pose proof (cstring_mapped _ _ _ Hc) as Hm.
  apply mapped_size in Hm; [|lia]. destruct Hc as [Hb Hnz]. unfold strlen.
  apply strlen_loop_complete; [lia| | |lia].
  - apply (Hb (length bs)). by rewrite list_lookup_middle.
  - intros i Hi. destruct (lookup_lt_is_Some_2 bs (Z.to_nat i)) as [b Hib]; [lia|].
    exists b. split; [|exact (Forall_lookup_1 _ _ _ _ Hnz Hib)].
    replace (a + i) with (a + Z.of_nat (Z.to_nat i)) by lia.
    apply Hb. by rewrite lookup_app_l by (apply lookup_lt_Some in Hib; lia).
Qed.

Lemma memset_spec m dest v n :
  0 <= n -> mapped m dest n ->
  exists m', memset m dest v n = Some m' /\
    forall a, m' !! a = if bool_decide (dest <= a < dest + n) then Some (u8 v) else m !! a.
Proof.
  intros Hn Hm. unfold memset.
  destruct (for_o_ind
    (fun i (m' : memory) => forall a, m' !! a =
       if bool_decide (dest <= a < dest + i) then Some (u8 v) else m !! a)
    0 n (fun i m => wr8 m (dest + i) (u8 v)) m) as (m' & E & H).
  - done.
  - intros a. by rewrite bool_decide_eq_false_2 by lia.
  - intros i s Hi Hs. rewrite wr8_mapped.
    2:{ rewrite Hs, bool_decide_eq_false_2 by lia. by apply Hm. }
    eexists; split; [done|]. intros a. rewrite lookup_insert, Hs.
    repeat case_bool_decide; case_decide; (lia || done).
  - eauto.
Qed.

(** Forward copying is right whenever the destination does not start inside the
    source. *)
Lemma copy_forward m dest src n :
  0 <= n -> mapped m dest n -> mapped m src n -> (dest <= src \/ src + n <= dest) ->
  exists m',
    for_o 0 n (fun i m => b ← m !! (src + i); wr8 m (dest + i) b) m = Some m' /\
    forall a, m' !! a =
      if bool_decide (dest <= a < dest + n) then m !! (src + (a - dest)) else m !! a.
Proof.
  intros Hn Hd Hs Hov.
  apply (for_o_ind (fun i (m' : memory) => forall a, m' !! a =
    if bool_decide (dest <= a < dest + i) then m !! (src + (a - dest)) else m !! a) 0 n).
  - done.
  - intros a. by rewrite bool_decide_eq_false_2 by lia.
  - intros i s Hi HP. destruct (Hs i Hi) as [b Hb].
    rewrite HP, bool_decide_eq_false_2, Hb by lia. simpl. rewrite wr8_mapped.
    2:{ rewrite HP, bool_decide_eq_false_2 by lia. by apply Hd. }
    eexists; split; [done|]. intros a. rewrite lookup_insert, HP.
    case_decide as Ha; repeat case_bool_decide; try lia; try done.
    subst a. rewrite <- Hb. f_equal; lia.
Qed.

(** Backward copying is right whenever the source does not start inside the
    destination. *)
Lemma copy_backward m dest src n :
  0 <= n -> mapped m dest n -> mapped m src n -> src <= dest ->
  exists m',
    for_o 0 n (fun k m => let i := n - k in
                 b ← m !! (src + (i - 1)); wr8 m (dest + (i - 1)) b) m = Some m' /\
    forall a, m' !! a =
      if bool_decide (dest <= a < dest + n) then m !! (src + (a - dest)) else m !! a.
Proof.
  intros Hn Hd Hs Hov.
  destruct (for_o_ind (fun k (m' : memory) => forall a, m' !! a =
    if bool_decide (dest + (n - k) <= a < dest + n)
    then m !! (src + (a - dest)) else m !! a) 0 n
    (fun k m => let i := n - k in b ← m !! (src + (i - 1)); wr8 m (dest + (i - 1)) b) m)
    as (m' & E & HP).
  - done.
  - intros a. by rewrite bool_decide_eq_false_2 by lia.
  - intros k s Hk HP. destruct (Hs (n - k - 1)) as [b Hb]; [lia|]. simpl.
    rewrite HP, bool_decide_eq_false_2, Hb by lia. simpl. rewrite wr8_mapped.
    2:{ rewrite HP, bool_decide_eq_false_2 by lia. apply Hd. lia. }
    eexists; split; [done|]. intros a. rewrite lookup_insert, HP.
    case_decide as Ha; repeat case_bool_decide; try lia; try done.
    subst a. rewrite <- Hb. f_equal; lia.
  - exists m'. split; [done|]. intros a. rewrite HP.
    repeat case_bool_decide; (lia || done).
Qed.

(** [memmove] copies the bytes the source range held before the call, however the
    two ranges overlap, and changes nothing else. *)
Theorem memmove_correct (m : memory) (dest src n : Z) :
  0 <= n -> mapped m dest n -> mapped m src n ->
  exists m', memmove m dest src n = Some m' /\
    forall a, m' !! a =
      if bool_decide (dest <= a < dest + n) then m !! (src + (a - dest)) else m !! a.
Proof.
  intros. unfold memmove. destruct (Z.ltb_spec dest src).
  - apply copy_forward; auto; lia.
  - apply copy_backward; auto.
Qed.

Lemma memmove_correct_witness :
  exists m', memmove (<[2 := 7]> (<[1 := 6]> {[0 := 5]})) 1 0 2 = Some m' /\ m' !! 2 = Some 6.
Proof.
  destruct (memmove_correct (<[2 := 7]> (<[1 := 6]> {[0 := 5]})) 1 0 2) as (m' & E & H).
  - lia.
  - intros i Hi. assert (i = 0 \/ i = 1) as [->| ->] by lia; vm_compute; eauto.
  - intros i Hi. assert (i = 0 \/ i = 1) as [->| ->] by lia; vm_compute; eauto.
  - exists m'. split; [exact E|]. rewrite H. vm_compute. reflexivity.
Defined.

Lemma memcmp_loop_zero n m a b :
  memcmp_loop n m a b = Some 0 <->
  forall i, 0 <= i < Z.of_nat n -> exists x, m !! (a + i) = Some x /\ m !! (b + i) = Some x.
Proof.
  revert a b. induction n as [|n IH]; intros a b; simpl.
  - split; [intros; lia | done].
  - split.
    + intros H. apply bind_Some_inv in H as (x & Hx & H).
      apply bind_Some_inv in H as (y & Hy & H).
      destruct (Z.eqb_spec x y) as [->|]; [|by destruct (x <? y)].
      rewrite IH in H. intros i Hi. destruct (Z.eq_dec i 0) as [->|].
      * rewrite !Z.add_0_r. eauto.
      * replace (a + i) with (a + 1 + (i - 1)) by lia.
        replace (b + i) with (b + 1 + (i - 1)) by lia. apply H. lia.
    + intros H. destruct (H 0 ltac:(lia)) as (x & Hx & Hy).
      rewrite Z.add_0_r in Hx, Hy. rewrite Hx, Hy. simpl.
      rewrite Z.eqb_refl. apply IH. intros i Hi.
      replace (a + 1 + i) with (a + (i + 1)) by lia.
      replace (b + 1 + i) with (b + (i + 1)) by lia. apply H. lia.
Qed.

(** ** Runs of bytes *)

Lemma bytes_at_cons m a x xs :
  bytes_at m a (x :: xs) <-> m !! a = Some x /\ bytes_at m (a + 1) xs.
Proof.
  split.
  - intros Hb. split.
    + rewrite <- (Hb 0%nat x eq_refl). f_equal. lia.
    + intros i b Hi. rewrite <- (Hb (S i) b Hi). f_equal. lia.
  - intros [Hx Hb] [|i] b Hi; simpl in Hi.
    + injection Hi as ->. rewrite <- Hx. f_equal. lia.
    + rewrite <- (Hb i b Hi). f_equal. lia.
Qed.

Lemma bytes_at_nil m a : bytes_at m a [].
Proof. intros i b Hi. done. Qed.

Lemma bytes_at_app m a xs ys :
  bytes_at m a (xs ++ ys) <-> bytes_at m a xs /\ bytes_at m (a + Z.of_nat (length xs)) ys.
Proof.
  revert a. induction xs as [|x xs IH]; intros a.
  - cbn [app length Z.of_nat]. rewrite Z.add_0_r. split; [|tauto]. intros ?.
    split; [apply bytes_at_nil|done].
  - rewrite <- app_comm_cons, !bytes_at_cons, IH, length_cons.
    replace (a + Z.of_nat (S (length xs))) with (a + 1 + Z.of_nat (length xs)) by lia. tauto.
Qed.

(** Bytes outside a changed region stay. *)
Lemma bytes_at_ext m m' a xs :
  (forall x, a <= x < a + Z.of_nat (length xs) -> m' !! x = m !! x) ->
  bytes_at m a xs -> bytes_at m' a xs.
Proof.
  intros Hext Hb i b Hi. rewrite Hext; [by apply Hb|]. apply lookup_lt_Some in Hi. lia.
Qed.

Lemma cstring_head m a xs : cstring m a xs -> m !! a = Some (hd 0 xs).
Proof. intros [Hb _]. destruct xs as [|x xs]; cbn [app] in Hb; by apply bytes_at_cons in Hb as [? _]. Qed.

Lemma cstring_tail m a x xs : cstring m a (x :: xs) -> cstring m (a + 1) xs.
Proof.
  intros [Hb Hn]. rewrite <- app_comm_cons in Hb. apply bytes_at_cons in Hb as [_ Hb].
  split; [done|]. by inversion Hn.
Qed.

Lemma cstring_drop m a xs ys : cstring m a (xs ++ ys) -> cstring m (a + Z.of_nat (length xs)) ys.
Proof.
  intros [Hb Hn]. rewrite <- app_assoc in Hb. apply bytes_at_app in Hb as [_ Hb].
  apply list.Forall_app in Hn as [_ Hn]. done.
Qed.

Lemma cstring_ext m m' a xs :
  (forall x, a <= x <= a + Z.of_nat (length xs) -> m' !! x = m !! x) ->
  cstring m a xs -> cstring m' a xs.
Proof.
  intros Hext [Hb Hn]. split; [|done]. eapply bytes_at_ext; [|done].
  intros x Hx. apply Hext. rewrite length_app in Hx. cbn [length] in Hx. lia.
Qed.

Lemma memcmp_bytes m a b xs ys :
  bytes_at m a xs -> bytes_at m b ys -> length xs = length ys ->
  exists d, memcmp m a b (Z.of_nat (length xs)) = Some d /\ (d = 0 <-> xs = ys).
Proof.
  unfold memcmp. rewrite Nat2Z.id. revert a b ys.
  induction xs as [|x xs IH]; intros a b [|y ys] Hx Hy Hl; try done; cbn [length memcmp_loop].
  { exists 0. done. }
  apply bytes_at_cons in Hx as [-> Hx], Hy as [-> Hy]. cbn [mbind option_bind].
  destruct (Z.eqb_spec x y) as [->|Hne].
  - destruct (IH (a + 1) (b + 1) ys Hx Hy) as (d & -> & Hd); [by injection Hl|].
    exists d. split; [done|]. rewrite Hd. naive_solver.
  - eexists. split; [done|]. destruct (x <? y); (split; [lia|naive_solver]).
Qed.

Lemma strcmp_loop_complete fuel m a b xs ys :
  cstring m a xs -> cstring m b ys -> Z.of_nat (length xs) < Z.of_nat fuel ->
  exists d, strcmp_loop fuel m a b = Some d /\ (d = 0 <-> xs = ys).
Proof.
  revert a b xs ys. induction fuel as [|fuel IH]; intros a b xs ys Hx Hy Hf; [lia|].
  simpl. destruct Hx as [Hx Hxn], Hy as [Hy Hyn].
  pose proof (Hx 0%nat) as Hx0. pose proof (Hy 0%nat) as Hy0.
  replace (a + Z.of_nat 0) with a in Hx0 by lia.
  replace (b + Z.of_nat 0) with b in Hy0 by lia.
  destruct xs as [|x xs], ys as [|y ys]; simpl in Hx0, Hy0;
    rewrite (Hx0 _ eq_refl), (Hy0 _ eq_refl); simpl.
  - exists 0. done.
  - exists (0 - y). split; [done|]. inversion Hyn; subst. split; [lia|done].
  - inversion Hxn; subst. rewrite (proj2 (Z.eqb_neq x 0)) by done. simpl.
    destruct (Z.eqb_spec x 0); [done|]. exists (x - 0). split; [done|]. split; [lia|done].
  - inversion Hxn as [|? ? Hx1 Hx2]; inversion Hyn as [|? ? Hy1 Hy2]; subst.
    rewrite (proj2 (Z.eqb_neq x 0)) by done. simpl.
    destruct (Z.eqb_spec x y) as [->|Hne].
    + destruct (IH (a + 1) (b + 1) xs ys) as (d & -> & Hd).
      * split; [|done]. intros i v Hv. replace (a + 1 + Z.of_nat i) with (a + Z.of_nat (S i)) by lia.
        by apply Hx.
      * split; [|done]. intros i v Hv. replace (b + 1 + Z.of_nat i) with (b + Z.of_nat (S i)) by lia.
        by apply Hy.
      * rewrite length_cons in Hf. lia.
      * exists d. split; [done|]. rewrite Hd. naive_solver.
    + exists (x - y). split; [done|]. split; [lia|naive_solver].
Qed.

(** [strcmp] returns on two terminated strings, zero exactly when they are equal. *)
Theorem strcmp_correct (m : memory) (a b : Z) (xs ys : list Z) :
  cstring m a xs -> cstring m b ys ->
  exists d, strcmp m a b = Some d /\ (d = 0 <-> xs = ys).
Proof.
  intros Hx Hy. apply strcmp_loop_complete; [done|done|].
  pose proof (cstring_mapped _ _ _ Hx) as Hm. apply mapped_size in Hm; lia.
Qed.

(** ** Concrete memories *)

(** The little-endian bytes of a 32-bit word. *)
Definition le32 (v : Z) : list Z :=
  [v mod 256; v / 256 mod 256; v / 65536 mod 256; v / 16777216 mod 256].

(** The bytes [bs] from [a] on. *)
Definition place (a : Z) (bs : list Z) : memory :=
  list_to_map (zip (seqZ a (Z.of_nat (length bs))) bs).

(** The strings "ab" at 16 and "a" at 32. *)
Definition two_strings : memory :=
  list_to_map [(16, 97); (17, 98); (18, 0); (32, 97); (33, 0)].

Lemma two_strings_first : cstring two_strings 16 [97; 98].
Proof.
  split; [|repeat constructor; lia]. intros i b Hi.
  do 3 (destruct i as [|i]; [injection Hi as <-; reflexivity|]). discriminate.
Qed.

Lemma two_strings_second : cstring two_strings 32 [97].
Proof.
  split; [|repeat constructor; lia]. intros i b Hi.
  do 2 (destruct i as [|i]; [injection Hi as <-; reflexivity|]). discriminate.
Qed.

Lemma strcmp_correct_witness :
  exists d, strcmp two_strings 16 32 = Some d /\ (d = 0 <-> [97; 98] = [97]).
Proof.
  apply (strcmp_correct two_strings 16 32 [97; 98] [97]).
  - exact two_strings_first.
  - exact two_strings_second.
Defined.
