(* ===== verification/Multiboot.v ===== *)
(** * Multiboot boot information (src/include/eris/multiboot.hpp)

    The structures the boot loader leaves in memory, read field by field at their
    packed offsets.  Shared by the page allocator, the command line and the initrd. *)

From S2P Require Import Prelude Memory.

Definition multiboot_bootloader_magic : Z := 0x2BADB002.
Definition multiboot_flag_cmdline : Z := Z.shiftl 1 2.
Definition multiboot_flag_mods : Z := Z.shiftl 1 3.
Definition multiboot_flag_mmap : Z := Z.shiftl 1 6.
Definition multiboot_mmap_type_available : Z := 1.

(** The fields of [MultibootInfo] the kernel reads. *)
Record MultibootInfo := {
  mbi_flags : Z;
  mbi_cmdline : Z;
  mbi_mods_count : Z;
  mbi_mods_addr : Z;
  mbi_mmap_length : Z;
  mbi_mmap_addr : Z
}.

Definition sizeof_MultibootInfo : Z := 52.

Definition read_info (m : memory) (a : Z) : option MultibootInfo :=
  flags ← rd32 m a;
  cmdline ← rd32 m (a + 16);
  mods_count ← rd32 m (a + 20);
  mods_addr ← rd32 m (a + 24);
  mmap_length ← rd32 m (a + 44);
  mmap_addr ← rd32 m (a + 48);
  Some {| mbi_flags := flags; mbi_cmdline := cmdline; mbi_mods_count := mods_count;
          mbi_mods_addr := mods_addr; mbi_mmap_length := mmap_length;
          mbi_mmap_addr := mmap_addr |}.

Record MultibootModule := { mod_start : Z; mod_end : Z; mod_string : Z }.

Definition sizeof_MultibootModule : Z := 16.

(** [mods[i]] of the module array at [a]. *)
Definition read_module (m : memory) (a i : Z) : option MultibootModule :=
  let p := a + i * sizeof_MultibootModule in
  s ← rd32 m p; e ← rd32 m (p + 4); t ← rd32 m (p + 8);
  Some {| mod_start := s; mod_end := e; mod_string := t |}.

Record MultibootMmapEntry := {
  mmap_size : Z; mmap_base : Z; mmap_len : Z; mmap_type : Z
}.

Definition read_mmap_entry (m : memory) (a : Z) : option MultibootMmapEntry :=
  sz ← rd32 m a; ad ← rd64 m (a + 4); ln ← rd64 m (a + 12); ty ← rd32 m (a + 20);
  Some {| mmap_size := sz; mmap_base := ad; mmap_len := ln; mmap_type := ty |}.

(** Bytes are bytes: what a well-formed memory loads is in range. *)
Definition byte_memory (m : memory) : Prop := forall a b, m !! a = Some b -> 0 <= b < 256.

Lemma rd_le_range n m a v :
  byte_memory m -> rd_le n m a = Some v -> 0 <= v < 2 ^ (8 * Z.of_nat n).
Proof.
  intros Hm. revert a v. induction n as [|n IH]; intros a v H; simpl in H.
  - injection H as <-. simpl. lia.
  - apply bind_Some_inv in H as (b & Hb & H). apply bind_Some_inv in H as (r & Hr & H).
    injection H as <-. apply Hm in Hb. apply IH in Hr.
    replace (8 * Z.of_nat (S n)) with (8 + 8 * Z.of_nat n) by lia.
    rewrite Z.pow_add_r by lia. change (2 ^ 8) with 256. nia.
Qed.

Lemma rd32_range m a v : byte_memory m -> rd32 m a = Some v -> 0 <= v < 2 ^ 32.
Proof. intros Hm H. exact (rd_le_range 4 m a v Hm H). Qed.

Lemma rd64_range m a v : byte_memory m -> rd64 m a = Some v -> 0 <= v < 2 ^ 64.
Proof. intros Hm H. exact (rd_le_range 8 m a v Hm H). Qed.

Lemma read_mmap_entry_range m a e :
  byte_memory m -> read_mmap_entry m a = Some e ->
  0 <= mmap_size e < 2 ^ 32 /\ 0 <= mmap_base e < 2 ^ 64 /\ 0 <= mmap_len e < 2 ^ 64.
Proof.
  intros Hm H. unfold read_mmap_entry in H.
  apply bind_Some_inv in H as (sz & H1 & H). apply bind_Some_inv in H as (ad & H2 & H).
  apply bind_Some_inv in H as (ln & H3 & H). apply bind_Some_inv in H as (ty & H4 & H).
  injection H as <-. simpl.
  split; [by eapply rd32_range|]. split; by eapply rd64_range.
Qed.
