(* ===== verification/PageAlloc.v ===== *)
(** * Physical page allocator (src/kernel/mm/page_alloc.cpp)

    State: the allocation bitmap, one bit per 4 KiB frame of the first gigabyte,
    and the count of used pages.  The allocator lock serialises the operations, so
    each one is a state transformer. *)

From S2P Require Import Prelude Memory Multiboot Interfaces.

Definition managed_limit : Z := Z.shiftl 1 30.
Definition managed_pages : Z := managed_limit / page_size.

(** [bitmap] is zero-initialised: an index without an entry reads as zero. *)
Record state := mk { bitmap : gmap Z Z; used_pages : Z }.

Definition byte_at (s : state) (i : Z) : Z := default 0 (bitmap s !! i).

Definition test_bit (s : state) (index : Z) : bool :=
  negb (Z.land (byte_at s (index / 8)) (Z.shiftl 1 (index mod 8)) =? 0).

Definition set_bit (index : Z) (s : state) : state :=
  mk (<[index / 8 := Z.lor (byte_at s (index / 8)) (u8 (Z.shiftl 1 (index mod 8)))]> (bitmap s))
     (used_pages s).

Definition clear_bit (index : Z) (s : state) : state :=
  mk (<[index / 8 := Z.land (byte_at s (index / 8))
                            (u8 (not32 (Z.shiftl 1 (index mod 8))))]> (bitmap s))
     (used_pages s).

Definition mark_used (index : Z) (s : state) : state :=
  if (index <? managed_pages) && negb (test_bit s index)
  then let s := set_bit index s in mk (bitmap s) (u64 (used_pages s + 1))
  else s.

(** The body of the loops of [mark_range_free] and [free_pages]. *)
Definition mark_free (index : Z) (s : state) : state :=
  if test_bit s index
  then let s := clear_bit index s in mk (bitmap s) (u64 (used_pages s - 1))
  else s.

Definition mark_range_used (start end_ : Z) (s : state) : state :=
  let first := start / page_size in
  let last := u64 (end_ + page_size - 1) / page_size in
  for_z first last mark_used s.

Definition mark_range_free (start end_ : Z) (s : state) : state :=
  let first := u64 (start + page_size - 1) / page_size in
  let last := end_ / page_size in
  for_z first (Z.min last managed_pages) mark_free s.

Fixpoint alloc_scan (fuel : nat) (s : state) (count i run : Z) : Z * state :=
  match fuel with
  | O => (0, s)
  | S fuel' =>
    if test_bit s i then alloc_scan fuel' s count (i + 1) 0
    else
      let run := run + 1 in
      if run <? count then alloc_scan fuel' s count (i + 1) run
      else
        let first := i + 1 - count in
        (first * page_size, for_z first (i + 1) mark_used s)
  end.

(** The loop visits every managed page at most once, hence the fuel. *)
Definition alloc_pages (s : state) (count : Z) : Z * state :=
  if count =? 0 then (0, s) else alloc_scan (Z.to_nat managed_pages) s count 0 0.

Definition alloc_page (s : state) : Z * state := alloc_pages s 1.

Definition free_pages (s : state) (page count : Z) : state :=
  let first := page / page_size in
  for_z first (Z.min (u64 (first + count)) managed_pages) mark_free s.

Definition free_page (s : state) (page : Z) : state := free_pages s page 1.

Definition total_pages : Z := managed_pages.
Definition free_pages_count (s : state) : Z := u64 (managed_pages - used_pages s).

(** ** Initialisation from the boot loader's memory map *)

Definition reserve_string (m : memory) (address : Z) (s : state) : option state :=
  len ← strlen m address;
  Some (mark_range_used address (address + len + 1) s).

Definition reserve_module (m : memory) (mods i : Z) (s : state) : option state :=
  md ← read_module m mods i;
  let s := mark_range_used (mod_start md) (mod_end md) s in
  if mod_string md =? 0 then Some s else reserve_string m (mod_string md) s.

Definition reserve_boot_data (m : memory) (info_address : Z) (info : MultibootInfo)
    (s : state) : option state :=
  let s := mark_range_used info_address (u64 (info_address + sizeof_MultibootInfo)) s in
  let s := mark_range_used (mbi_mmap_addr info) (mbi_mmap_addr info + mbi_mmap_length info) s in
  s ← (if Z.land (mbi_flags info) multiboot_flag_cmdline =? 0 then Some s
       else reserve_string m (mbi_cmdline info) s);
  if Z.land (mbi_flags info) multiboot_flag_mods =? 0 then Some s
  else
    let mods := mbi_mods_addr info in
    let s := mark_range_used mods (mods + mbi_mods_count info * sizeof_MultibootModule) s in
    for_o 0 (mbi_mods_count info) (reserve_module m mods) s.

(** Each entry advances the cursor by at least [sizeof(entry->size)] = 4 bytes, so
    the map's length in bytes is enough fuel. *)
Fixpoint mmap_loop (fuel : nat) (m : memory) (cursor mmap_end : Z) (s : state) : option state :=
  if cursor <? mmap_end then
    match fuel with
    | O => None
    | S fuel' =>
      entry ← read_mmap_entry m cursor;
      let s :=
        if mmap_type entry =? multiboot_mmap_type_available then
          let start := mmap_base entry in
          let end_ := u64 (mmap_base entry + mmap_len entry) in
          if start <? managed_limit
          then mark_range_free start (if end_ <? managed_limit then end_ else managed_limit) s
          else s
        else s in
      mmap_loop fuel' m (cursor + (mmap_size entry + 4)) mmap_end s
    end
  else Some s.

(** [memset(bitmap, 0xFF, sizeof(bitmap))]. *)
Definition bitmap_full : gmap Z Z :=
  for_z 0 (managed_pages / 8) (fun i b => <[i := 0xFF]> b) ∅.

(** [None] stands for the two panics and for a fault on the boot data. *)
Definition page_alloc_init (m : memory) (kernel_end : Z)
    (multiboot_magic multiboot_info : Z) : option state :=
  if negb (multiboot_magic =? multiboot_bootloader_magic) then None
  else
    info ← read_info m multiboot_info;
    if Z.land (mbi_flags info) multiboot_flag_mmap =? 0 then None
    else
      let s := mk bitmap_full managed_pages in
      let mmap_start := mbi_mmap_addr info in
      let mmap_end := mmap_start + mbi_mmap_length info in
      s ← mmap_loop (Z.to_nat (mbi_mmap_length info)) m mmap_start mmap_end s;
      let s := mark_range_used 0 (Z.shiftl 1 20) s in
      let s := mark_range_used (Z.shiftl 1 20) kernel_end s in
      reserve_boot_data m multiboot_info info s.

Lemma managed_pages_eq : managed_pages = 262144.
Proof. reflexivity. Qed.

#[global] Opaque managed_pages.

(** ** The bitmap as a set of pages *)

Lemma byte_at_insert i v s u k :
  byte_at (mk (<[i := v]> (bitmap s)) u) k = if decide (i = k) then v else byte_at s k.
Proof. unfold byte_at. simpl. rewrite lookup_insert. by case_decide. Qed.

Lemma test_bit_testbit s k : test_bit s k = Z.testbit (byte_at s (k / 8)) (k mod 8).
Proof. unfold test_bit. apply land_bit_testbit. apply Z.mod_pos_bound. lia. Qed.

(** Two indices with the same byte and the same bit are equal. *)
Lemma index_split i k : i / 8 = k / 8 -> i mod 8 = k mod 8 -> i = k.
Proof. intros. rewrite (Z.div_mod i 8), (Z.div_mod k 8) by lia. congruence. Qed.

Lemma bit_u8 r k : 0 <= r < 8 -> 0 <= k < 8 -> Z.testbit (u8 (Z.shiftl 1 r)) k = (r =? k).
Proof.
  intros. unfold u8. rewrite testbit_wrap, Z.shiftl_1_l, Z.pow2_bits_eqb by lia.
  by rewrite bool_decide_eq_true_2 by lia.
Qed.

Lemma bit_not_u8 r k : 0 <= r < 8 -> 0 <= k < 8 ->
  Z.testbit (u8 (not32 (Z.shiftl 1 r))) k = negb (r =? k).
Proof.
  intros. unfold u8, not32, u32. rewrite !testbit_wrap, Z.lnot_spec by lia.
  rewrite !bool_decide_eq_true_2 by lia. by rewrite Z.shiftl_1_l, Z.pow2_bits_eqb by lia.
Qed.

Lemma test_set_bit s i k : test_bit (set_bit i s) k = test_bit s k || (i =? k).
Proof.
  rewrite !test_bit_testbit. unfold set_bit. rewrite byte_at_insert.
  pose proof (Z.mod_pos_bound i 8). pose proof (Z.mod_pos_bound k 8).
  case_decide as Hd.
  - rewrite Z.lor_spec, bit_u8, Hd by lia. f_equal.
    destruct (Z.eqb_spec (i mod 8) (k mod 8)), (Z.eqb_spec i k); try done.
    + exfalso. by apply n, index_split.
    + by subst.
  - destruct (Z.eqb_spec i k); [by subst | by rewrite orb_false_r].
Qed.

Lemma test_clear_bit s i k : test_bit (clear_bit i s) k = test_bit s k && negb (i =? k).
Proof.
  rewrite !test_bit_testbit. unfold clear_bit. rewrite byte_at_insert.
  pose proof (Z.mod_pos_bound i 8). pose proof (Z.mod_pos_bound k 8).
  case_decide as Hd.
  - rewrite Z.land_spec, bit_not_u8, Hd by lia. f_equal.
    destruct (Z.eqb_spec (i mod 8) (k mod 8)), (Z.eqb_spec i k); try done.
    + exfalso. by apply n, index_split.
    + by subst.
  - destruct (Z.eqb_spec i k); [by subst | by rewrite andb_true_r].
Qed.

Lemma test_mark_used s i k :
  test_bit (mark_used i s) k = test_bit s k || ((i =? k) && (i <? managed_pages)).
Proof.
  unfold mark_used. destruct (i <? managed_pages) eqn:Hi; simpl.
  - destruct (test_bit s i) eqn:Ht; simpl.
    + destruct (Z.eqb_spec i k) as [->|]; [by rewrite Ht | by rewrite orb_false_r].
    + transitivity (test_bit (set_bit i s) k); [reflexivity|].
      by rewrite test_set_bit, andb_true_r.
  - by rewrite andb_false_r, orb_false_r.
Qed.

Lemma test_mark_free s i k : test_bit (mark_free i s) k = test_bit s k && negb (i =? k).
Proof.
  unfold mark_free. destruct (test_bit s i) eqn:Ht.
  - transitivity (test_bit (clear_bit i s) k); [reflexivity | apply test_clear_bit].
  - destruct (Z.eqb_spec i k) as [->|]; [by rewrite Ht | by rewrite andb_true_r].
Qed.

(** ** Accounting invariant: [used_pages] is the number of set bits *)

Definition count_used (s : state) : Z := count_z (test_bit s) 0 managed_pages.
Definition inv (s : state) : Prop := used_pages s = count_used s.

Lemma count_used_bound s : 0 <= count_used s <= managed_pages.
Proof.
  pose proof managed_pages_eq.
  pose proof (count_z_bound (test_bit s) 0 managed_pages). unfold count_used. lia.
Qed.

Lemma used_mark_used i s :
  used_pages (mark_used i s) =
  if (i <? managed_pages) && negb (test_bit s i) then u64 (used_pages s + 1) else used_pages s.
Proof. unfold mark_used. by destruct (_ && _). Qed.

Lemma used_mark_free i s :
  used_pages (mark_free i s) = if test_bit s i then u64 (used_pages s - 1) else used_pages s.
Proof. unfold mark_free. by destruct (test_bit s i). Qed.

Lemma mark_used_inv i s : 0 <= i -> inv s -> inv (mark_used i s).
Proof.
  intros Hi Hs. pose proof managed_pages_eq. pose proof (count_used_bound s).
  unfold inv in *. rewrite used_mark_used, Hs. symmetry.
  destruct ((i <? managed_pages) && negb (test_bit s i)) eqn:E.
  - breflect. unwrap. apply (count_z_update _ _ _ _ i); [lia| |done|].
    + intros k _ Hk. rewrite test_mark_used. destruct (test_bit s k); simpl; lia.
    + rewrite test_mark_used. destruct (test_bit s i); simpl; lia.
  - apply count_z_ext. intros k Hk. rewrite test_mark_used.
    destruct (Z.eqb_spec i k) as [->|]; [|by rewrite orb_false_r].
    destruct (test_bit s k), (k <? managed_pages); done.
Qed.

Lemma mark_free_inv i s : 0 <= i < managed_pages -> inv s -> inv (mark_free i s).
Proof.
  intros Hi Hs. pose proof managed_pages_eq. pose proof (count_used_bound (mark_free i s)).
  unfold inv in *. rewrite used_mark_free, Hs. pose proof (count_used_bound s).
  destruct (test_bit s i) eqn:E.
  - assert (count_used s = count_used (mark_free i s) + 1) as Hc.
    { apply (count_z_update _ _ _ _ i); [lia| | |done].
      - intros k _ Hk. rewrite test_mark_free. destruct (test_bit s k); simpl; lia.
      - by rewrite test_mark_free, Z.eqb_refl, andb_false_r. }
    unwrap. lia.
  - apply count_z_ext. intros k Hk. rewrite test_mark_free.
    destruct (Z.eqb_spec i k) as [->|]; [by rewrite E | by rewrite andb_true_r].
Qed.

(** ** Range operations *)

Definition in_range (lo hi k : Z) : bool := (lo <=? k) && (k <? hi).

Lemma test_for_mark_used lo hi s k : lo <= hi -> hi <= managed_pages ->
  test_bit (for_z lo hi mark_used s) k = test_bit s k || in_range lo hi k.
Proof.
  intros. apply (for_z_ind (fun i s' => test_bit s' k = test_bit s k || in_range lo i k)).
  - done.
  - unfold in_range. destruct (test_bit s k); simpl; lia.
  - intros i s' Hi IH. rewrite test_mark_used, IH. unfold in_range.
    destruct (test_bit s k); simpl; lia.
Qed.

Lemma test_for_mark_used_sat lo hi s k : lo <= hi ->
  test_bit (for_z lo hi mark_used s) k =
  test_bit s k || (in_range lo hi k && (k <? managed_pages)).
Proof.
  intros. apply (for_z_ind (fun i s' =>
    test_bit s' k = test_bit s k || (in_range lo i k && (k <? managed_pages)))).
  - done.
  - unfold in_range. destruct (test_bit s k); simpl; lia.
  - intros i s' Hi IH. rewrite test_mark_used, IH. unfold in_range.
    destruct (test_bit s k); simpl; lia.
Qed.

Lemma test_for_mark_free lo hi s k :
  test_bit (for_z lo hi mark_free s) k = test_bit s k && negb (in_range lo hi k).
Proof.
  destruct (Z.le_gt_cases lo hi).
  - apply (for_z_ind (fun i s' => test_bit s' k = test_bit s k && negb (in_range lo i k))).
    + done.
    + unfold in_range. destruct (test_bit s k); simpl; lia.
    + intros i s' Hi IH. rewrite test_mark_free, IH. unfold in_range.
      destruct (test_bit s k); simpl; lia.
  - rewrite for_z_done by lia. unfold in_range. destruct (test_bit s k); simpl; lia.
Qed.

Lemma for_mark_used_inv lo hi s : 0 <= lo -> inv s -> inv (for_z lo hi mark_used s).
Proof.
  intros. destruct (Z.le_gt_cases lo hi); [|by rewrite for_z_done by lia].
  apply (for_z_ind (fun _ s => inv s)); [done|done|].
  intros. apply mark_used_inv; [lia|done].
Qed.

Lemma for_mark_free_inv lo hi s :
  0 <= lo -> hi <= managed_pages -> inv s -> inv (for_z lo hi mark_free s).
Proof.
  intros. destruct (Z.le_gt_cases lo hi); [|by rewrite for_z_done by lia].
  apply (for_z_ind (fun _ s => inv s)); [done|done|].
  intros. apply mark_free_inv; [lia|done].
Qed.

(** ** Allocation: first fit *)

(** [count] free pages starting at [first], all managed. *)
Definition free_run (s : state) (first count : Z) : Prop :=
  0 <= first /\ first + count <= managed_pages /\
  forall k, first <= k < first + count -> test_bit s k = false.

Definition no_run_before (s : state) (limit count : Z) : Prop :=
  forall j, 0 <= j < limit -> ~ free_run s j count.

(** What a call that found [first] did to the bitmap. *)
Definition taken (s : state) (first count : Z) (s' : state) : Prop :=
  forall k, test_bit s' k = test_bit s k || in_range first (first + count) k.

Lemma alloc_scan_spec fuel s count i run :
  0 < count -> 0 <= run < count -> run <= i -> Z.of_nat fuel = managed_pages - i ->
  (forall k, i - run <= k < i -> test_bit s k = false) ->
  (forall j, 0 <= j < i - run -> ~ free_run s j count) ->
  (exists first, free_run s first count /\ no_run_before s first count /\
     alloc_scan fuel s count i run =
       (first * page_size, for_z first (first + count) mark_used s)) \/
  (no_run_before s managed_pages count /\ alloc_scan fuel s count i run = (0, s)).
Proof.
  intros Hc. pose proof managed_pages_eq as HM.
  revert i run. induction fuel as [|fuel IH]; intros i run Hr Hri Hf Hfree Hno; simpl.
  - right. split; [|done]. intros j Hj Hrun. destruct (Z.lt_ge_cases j (i - run)).
    + apply (Hno j); [lia|done].
    + destruct Hrun as (_ & Hb & _). lia.
  - destruct (test_bit s i) eqn:Ht.
    + apply IH; [lia..| |]; [intros; lia|].
      intros j Hj Hrun. destruct (Z.lt_ge_cases j (i - run)); [apply (Hno j); [lia|done]|].
      destruct Hrun as (? & Hb & Hall). destruct (Z.le_gt_cases (j + count) i); [lia|].
      rewrite (Hall i) in Ht by lia. done.
    + destruct (Z.ltb_spec (run + 1) count).
      * replace (i - run) with (i + 1 - (run + 1)) in * by lia.
        apply IH; [lia..| |done].
        intros k Hk. destruct (Z.eq_dec k i) as [->|]; [done|]. apply Hfree. lia.
      * left. exists (i + 1 - count). assert (run = count - 1) as -> by lia.
        split; [|split].
        -- split; [lia|]. split; [lia|].
           intros k Hk. destruct (Z.eq_dec k i) as [->|]; [done|]. apply Hfree. lia.
        -- intros j Hj. apply Hno. lia.
        -- do 2 f_equal. lia.
Qed.

Lemma alloc_pages_cases s count : 0 < count ->
  (exists first, free_run s first count /\ no_run_before s first count /\
     alloc_pages s count = (first * page_size, for_z first (first + count) mark_used s)) \/
  (no_run_before s managed_pages count /\ alloc_pages s count = (0, s)).
Proof.
  intros Hc. unfold alloc_pages. rewrite (proj2 (Z.eqb_neq count 0)) by lia.
  pose proof managed_pages_eq. apply alloc_scan_spec; try lia; intros; lia.
Qed.

(** Page 0 is reserved at boot; with it reserved the null result means failure. *)
Definition null_reserved (s : state) : Prop := test_bit s 0 = true.

(** C7: [alloc_pages] finds the lowest run of [count] free pages when there is one,
    marks exactly those pages and keeps the accounting, and otherwise returns 0
    and changes nothing. *)
Theorem alloc_pages_first_fit (s : state) (count : Z) :
  0 < count -> inv s -> null_reserved s ->
  let (r, s') := alloc_pages s count in
  inv s' /\
  ((r = 0 /\ s' = s /\ no_run_before s managed_pages count) \/
   (r <> 0 /\ exists first, r = first * page_size /\ free_run s first count /\
      no_run_before s first count /\ taken s first count s')).
Proof.
  intros Hc Hi H0. destruct (alloc_pages_cases s count Hc)
    as [(first & Hrun & Hno & ->)|[Hno ->]]; [|tauto].
  destruct Hrun as (Hf & Hl & Hfree). split; [apply for_mark_used_inv; [lia|done]|].
  right. split.
  - intros Hz. assert (first = 0) as -> by (unfold page_size in Hz; lia).
    unfold null_reserved in H0. rewrite Hfree in H0 by lia. done.
  - exists first. split_and!; try done. intros k. apply test_for_mark_used; lia.
Qed.

(** [free_pages] clears exactly the pages of the range that are managed. *)
Lemma test_free_pages s page count k :
  0 <= page -> 0 <= count -> page / page_size + count < 2 ^ 64 ->
  test_bit (free_pages s page count) k =
  test_bit s k && negb (in_range (page / page_size)
                          (Z.min (page / page_size + count) managed_pages) k).
Proof.
  intros. assert (0 <= page / page_size) by (apply Z.div_pos; unfold page_size; lia).
  unfold free_pages. rewrite u64_small by lia. apply test_for_mark_free.
Qed.

Lemma free_pages_inv s page count : 0 <= page -> inv s -> inv (free_pages s page count).
Proof.
  intros. apply for_mark_free_inv; [|lia|done]. apply Z.div_pos; unfold page_size; lia.
Qed.

(** Freeing what was just allocated restores the bitmap and the count. *)
Theorem alloc_free_roundtrip (s s' : state) (count r : Z) :
  0 < count -> inv s -> null_reserved s ->
  alloc_pages s count = (r, s') -> r <> 0 ->
  used_pages (free_pages s' r count) = used_pages s /\
  forall k, test_bit (free_pages s' r count) k = test_bit s k.
Proof.
  intros Hc Hi H0 E Hr. pose proof managed_pages_eq.
  destruct (alloc_pages_cases s count Hc) as [(first & (Hf & Hl & Hfree) & _ & E')|[_ E']];
    rewrite E' in E; injection E as <- <-; [|done].
  set (s' := for_z first (first + count) mark_used s).
  assert (inv s') as Hi' by (apply for_mark_used_inv; [lia|done]).
  assert (taken s first count s') as Ht by (intros k; apply test_for_mark_used; lia).
  clearbody s'.
  assert (first * page_size / page_size = first) as Hdiv.
  { apply Z.div_mul. unfold page_size. lia. }
  assert (forall k, test_bit (free_pages s' (first * page_size) count) k = test_bit s k) as Heq.
  { intros k. rewrite test_free_pages, Hdiv by (unfold page_size in *; lia). rewrite Ht.
    rewrite Z.min_l by lia. destruct (in_range first (first + count) k) eqn:E2.
    - unfold in_range in E2. rewrite Hfree by lia. done.
    - destruct (test_bit s k); done. }
  split; [|done].
  assert (inv (free_pages s' (first * page_size) count)) as Hi''.
  { apply free_pages_inv; [unfold page_size; lia|done]. }
  unfold inv in *. rewrite Hi'', Hi. apply count_z_ext. intros. apply Heq.
Qed.

(** ** Initialisation *)

(** The cursors the memory-map loop visits. *)
Inductive visited (m : memory) (start end_ : Z) : Z -> Prop :=
| visited_start : start < end_ -> visited m start end_ start
| visited_next c e : visited m start end_ c -> read_mmap_entry m c = Some e ->
    c + (mmap_size e + 4) < end_ -> visited m start end_ (c + (mmap_size e + 4)).

(** The page lies wholly inside a region the loader reported as available. *)
Definition available (m : memory) (start end_ k : Z) : Prop :=
  exists c e, visited m start end_ c /\ read_mmap_entry m c = Some e /\
    mmap_type e = multiboot_mmap_type_available /\
    mmap_base e <= k * page_size /\
    (k + 1) * page_size <= Z.min (u64 (mmap_base e + mmap_len e)) managed_limit.

Lemma test_mark_range_free a b s k :
  0 <= a < managed_limit -> 0 <= b <= managed_limit ->
  test_bit s k = true -> test_bit (mark_range_free a b s) k = false ->
  a <= k * page_size /\ (k + 1) * page_size <= b.
Proof.
  intros Ha Hb Hs Ht. unfold mark_range_free in Ht. rewrite test_for_mark_free, Hs in Ht.
  cbn [andb] in Ht. change managed_limit with 1073741824 in *.
  rewrite u64_small in Ht by (unfold page_size; lia). unfold in_range, page_size in *. breflect.
  pose proof (Z.div_mod (a + 4096 - 1) 4096). pose proof (Z.mod_pos_bound (a + 4096 - 1) 4096).
  pose proof (Z.div_mod b 4096). pose proof (Z.mod_pos_bound b 4096). lia.
Qed.

Lemma mmap_loop_spec fuel m start end_ c s s' :
  byte_memory m -> (visited m start end_ c \/ end_ <= c) ->
  mmap_loop fuel m c end_ s = Some s' ->
  forall k, test_bit s k = true -> test_bit s' k = false -> available m start end_ k.
Proof.
  intros Hm. revert c s. induction fuel as [|fuel IH]; intros c s Hc E k Hs Hs';
    simpl in E; (destruct (Z.ltb_spec c end_); [|injection E as <-; congruence]); [done|].
  apply bind_Some_inv in E as (e & He & E). simpl in E.
  destruct Hc as [Hc|]; [|lia].
  assert (visited m start end_ (c + (mmap_size e + 4)) \/ end_ <= c + (mmap_size e + 4)) as Hc'.
  { destruct (Z.lt_ge_cases (c + (mmap_size e + 4)) end_); [left|right; done].
    by apply visited_next. }
  pose proof (read_mmap_entry_range _ _ _ Hm He) as (_ & Hb & Hlen).
  destruct (Z.eqb_spec (mmap_type e) multiboot_mmap_type_available) as [Hty|];
    [destruct (Z.ltb_spec (mmap_base e) managed_limit)|]; [|by eapply IH..].
  match type of E with mmap_loop _ _ _ _ ?s1 = _ => destruct (test_bit s1 k) eqn:E1 end;
    [by eapply IH|].
  pose proof (u64_range (mmap_base e + mmap_len e)).
  apply test_mark_range_free in E1; [|lia| |done].
  - exists c, e. split_and!; try done; [lia|]. destruct (Z.ltb_spec (u64 (mmap_base e + mmap_len e)) managed_limit); lia.
  - destruct (Z.ltb_spec (u64 (mmap_base e + mmap_len e)) managed_limit);
      unfold managed_limit in *; lia.
Qed.

(** Reserving only ever sets bits. *)
Lemma mark_range_used_mono a b s k :
  test_bit s k = true -> test_bit (mark_range_used a b s) k = true.
Proof.
  intros H. unfold mark_range_used.
  destruct (Z.le_gt_cases (a / page_size) (u64 (b + page_size - 1) / page_size)).
  - rewrite test_for_mark_used_sat by lia. by rewrite H.
  - by rewrite for_z_done by lia.
Qed.

(** Every page that meets the reserved range is marked. *)
Lemma mark_range_used_covers a b s k :
  0 <= a -> b + page_size <= 2 ^ 64 -> 0 <= k < managed_pages ->
  a < (k + 1) * page_size -> k * page_size < b ->
  test_bit (mark_range_used a b s) k = true.
Proof.
  intros Ha Hb Hk H1 H2. unfold mark_range_used, page_size in *.
  rewrite u64_small by lia. pose proof (Z.div_mod a 4096). pose proof (Z.mod_pos_bound a 4096).
  pose proof (Z.div_mod (b + 4096 - 1) 4096). pose proof (Z.mod_pos_bound (b + 4096 - 1) 4096).
  rewrite test_for_mark_used_sat by lia. unfold in_range.
  destruct (test_bit s k); simpl; lia.
Qed.

Lemma bitmap_full_spec i : 0 <= i < managed_pages / 8 -> bitmap_full !! i = Some 0xFF.
Proof.
  intros Hi. unfold bitmap_full.
  assert (forall j, 0 <= j < managed_pages / 8 ->
    for_z 0 (managed_pages / 8) (fun i (b : gmap Z Z) => <[i := 0xFF]> b) ∅ !! j
      = Some 0xFF) as H; [|by apply H].
  apply (for_z_ind (fun n (b : gmap Z Z) => forall j, 0 <= j < n -> b !! j = Some 0xFF)).
  - lia.
  - intros. lia.
  - intros n b Hn IH j Hj. rewrite lookup_insert. case_decide; [done|]. apply IH. lia.
Qed.

Lemma full_test_bit k u : 0 <= k < managed_pages -> test_bit (mk bitmap_full u) k = true.
Proof.
  intros Hk. rewrite test_bit_testbit. unfold byte_at. cbn [bitmap].
  rewrite bitmap_full_spec by (rewrite managed_pages_eq in Hk |- *; dlia). simpl.
  change 255 with (Z.ones 8). apply Z.ones_spec_low. apply Z.mod_pos_bound. lia.
Qed.

Lemma count_z_true n : 0 <= n -> count_z (fun _ => true) 0 n = n.
Proof.
  apply (natlike_ind (fun n => count_z (fun _ => true) 0 n = n)).
  - by rewrite count_z_nil by lia.
  - intros x Hx IH. rewrite (count_z_split _ 0 x) by lia. rewrite IH.
    rewrite count_z_cons, count_z_nil by lia. lia.
Qed.

Lemma full_inv : inv (mk bitmap_full managed_pages).
Proof.
  unfold inv, count_used. simpl.
  rewrite (count_z_ext _ (fun _ => true)) by (intros; by apply full_test_bit).
  symmetry. apply count_z_true. by rewrite managed_pages_eq.
Qed.

Lemma mark_range_used_inv a b s : 0 <= a -> inv s -> inv (mark_range_used a b s).
Proof. intros. apply for_mark_used_inv; [|done]. apply Z.div_pos; unfold page_size; lia. Qed.

Lemma mmap_loop_inv fuel m c end_ s s' :
  inv s -> mmap_loop fuel m c end_ s = Some s' -> inv s'.
Proof.
  revert c s. induction fuel as [|fuel IH]; intros c s Hi E; simpl in E;
    (destruct (c <? end_); [|by injection E as <-]); [done|].
  apply bind_Some_inv in E as (e & He & E). eapply IH; [|exact E].
  destruct (mmap_type e =? _); [|done]. destruct (_ <? managed_limit); [|done].
  apply for_mark_free_inv; [|lia|done]. apply Z.div_pos; [apply u64_range|unfold page_size; lia].
Qed.

Lemma reserve_string_mono m a s s' k :
  reserve_string m a s = Some s' -> test_bit s k = true -> test_bit s' k = true.
Proof.
  intros E H. apply bind_Some_inv in E as (n & _ & E). injection E as <-.
  by apply mark_range_used_mono.
Qed.

Lemma reserve_module_mono m a i s s' k :
  reserve_module m a i s = Some s' -> test_bit s k = true -> test_bit s' k = true.
Proof.
  intros E H. apply bind_Some_inv in E as (md & _ & E).
  assert (test_bit (mark_range_used (mod_start md) (mod_end md) s) k = true) as H1
    by by apply mark_range_used_mono.
  destruct (mod_string md =? 0); [by injection E as <-|]. by eapply reserve_string_mono.
Qed.

Lemma read_module_range m mods i md :
  byte_memory m -> read_module m mods i = Some md ->
  0 <= mod_start md < 2 ^ 32 /\ 0 <= mod_end md < 2 ^ 32 /\ 0 <= mod_string md < 2 ^ 32.
Proof.
  intros Hm Hmd. unfold read_module in Hmd. do 3 apply bind_Some_inv in Hmd as (? & ? & Hmd).
  injection Hmd as <-. simpl. split_and!; eapply rd32_range; done.
Qed.

(** No byte of [lo, hi) is in page [k]. *)
Definition misses (lo hi k : Z) : Prop := hi <= k * page_size \/ (k + 1) * page_size <= lo.

Lemma mark_range_used_misses a b s k :
  0 <= a -> b + page_size <= 2 ^ 64 -> 0 <= k < managed_pages ->
  test_bit (mark_range_used a b s) k = false -> misses a b k.
Proof.
  intros Ha Hb Hk H. unfold misses.
  destruct (Z.le_gt_cases b (k * page_size)); [by left|].
  destruct (Z.le_gt_cases ((k + 1) * page_size) a); [by right|].
  rewrite mark_range_used_covers in H by done. done.
Qed.

(** Page [k] holds no byte of the string at [a], its terminator included. *)
Definition misses_string (m : memory) (a k : Z) : Prop :=
  forall bs, cstring m a bs -> Z.of_nat (length bs) < 2 ^ 32 ->
    misses a (a + Z.of_nat (length bs) + 1) k.

Lemma reserve_string_misses m a s s' k :
  0 <= a < 2 ^ 32 -> 0 <= k < managed_pages -> reserve_string m a s = Some s' ->
  test_bit s' k = false -> test_bit s k = false /\ misses_string m a k.
Proof.
  intros Ha Hk E Hf. split.
  - destruct (test_bit s k) eqn:E4; [|done]. by rewrite (reserve_string_mono _ _ _ _ _ E E4) in Hf.
  - intros bs Hc Hlen. unfold reserve_string in E. rewrite (strlen_complete _ _ _ Hc) in E.
    simpl in E. injection E as E. eapply mark_range_used_misses; [lia| |done|by rewrite E].
    unfold page_size. lia.
Qed.

(** Page [k] holds no byte of the module, nor of its command line. *)
Definition misses_module (m : memory) (md : MultibootModule) (k : Z) : Prop :=
  misses (mod_start md) (mod_end md) k /\ (mod_string md <> 0 -> misses_string m (mod_string md) k).

Lemma reserve_module_misses m mods i md s s' k :
  byte_memory m -> 0 <= k < managed_pages -> read_module m mods i = Some md ->
  reserve_module m mods i s = Some s' -> test_bit s' k = false -> misses_module m md k.
Proof.
  intros Hm Hk Hmd E Hf. unfold reserve_module in E. rewrite Hmd in E. simpl in E.
  destruct (read_module_range _ _ _ _ Hm Hmd) as (Hs & He & Ht).
  assert (test_bit (mark_range_used (mod_start md) (mod_end md) s) k = false ->
    misses (mod_start md) (mod_end md) k) as Hrange.
  { apply mark_range_used_misses; [lia|unfold page_size; lia|done]. }
  destruct (Z.eqb_spec (mod_string md) 0) as [H0|H0].
  - injection E as <-. split; [auto|done].
  - apply (reserve_string_misses _ _ _ _ k) in E as [E Hstr]; [|done..]. split; auto.
Qed.

Lemma reserve_modules_misses m mods n s s' k :
  byte_memory m -> 0 <= n -> 0 <= k < managed_pages ->
  for_o 0 n (reserve_module m mods) s = Some s' -> test_bit s' k = false ->
  test_bit s k = false /\
  forall i md, 0 <= i < n -> read_module m mods i = Some md -> misses_module m md k.
Proof.
  intros Hm Hn Hk E.
  eapply (for_o_inv (fun j s1 => test_bit s1 k = false -> test_bit s k = false /\
    forall i md, 0 <= i < j -> read_module m mods i = Some md -> misses_module m md k) 0 n);
    [done| |exact E|].
  - intros H. split; [done|]. intros. lia.
  - intros j s1 s2 Hj IH E2 H2.
    assert (test_bit s1 k = false) as H1.
    { destruct (test_bit s1 k) eqn:E1; [|done].
      by rewrite (reserve_module_mono _ _ _ _ _ _ E2 E1) in H2. }
    destruct (IH H1) as [Hs Hmods]. split; [done|]. intros i md Hi Hmd.
    destruct (Z.eq_dec i j) as [->|]; [|apply (Hmods i md); [lia|done]].
    by eapply reserve_module_misses.
Qed.

(** What [page_alloc_init] promises about a page [k] it left free. *)
Record boot_safe (m : memory) (kernel_end info_address : Z) (info : MultibootInfo) (k : Z) :
    Prop := {
  bs_available : available m (mbi_mmap_addr info) (mbi_mmap_addr info + mbi_mmap_length info) k;
  bs_low : Z.shiftl 1 20 <= k * page_size;
  bs_kernel : kernel_end <= k * page_size;
  bs_info : misses info_address (info_address + sizeof_MultibootInfo) k;
  bs_mmap : misses (mbi_mmap_addr info) (mbi_mmap_addr info + mbi_mmap_length info) k;
  bs_cmdline : Z.land (mbi_flags info) multiboot_flag_cmdline <> 0 ->
    misses_string m (mbi_cmdline info) k;
  bs_module_array : Z.land (mbi_flags info) multiboot_flag_mods <> 0 ->
    misses (mbi_mods_addr info)
      (mbi_mods_addr info + mbi_mods_count info * sizeof_MultibootModule) k;
  bs_modules : forall i md,
    Z.land (mbi_flags info) multiboot_flag_mods <> 0 -> 0 <= i < mbi_mods_count info ->
    read_module m (mbi_mods_addr info) i = Some md -> misses_module m md k
}.

Lemma read_info_range m a info :
  byte_memory m -> read_info m a = Some info ->
  0 <= mbi_mmap_addr info < 2 ^ 32 /\ 0 <= mbi_mmap_length info < 2 ^ 32 /\
  0 <= mbi_cmdline info < 2 ^ 32 /\ 0 <= mbi_mods_count info < 2 ^ 32 /\
  0 <= mbi_mods_addr info < 2 ^ 32.
Proof.
  intros Hm H. unfold read_info in H. do 6 apply bind_Some_inv in H as (? & ? & H).
  injection H as <-. simpl. split_and!; eapply rd32_range; done.
Qed.

Lemma reserve_boot_data_safe m ia info s s' k :
  byte_memory m -> read_info m ia = Some info -> 0 <= ia -> ia + 8192 <= 2 ^ 64 ->
  0 <= k < managed_pages ->
  reserve_boot_data m ia info s = Some s' -> test_bit s' k = false ->
  test_bit s k = false /\
  misses ia (ia + sizeof_MultibootInfo) k /\
  misses (mbi_mmap_addr info) (mbi_mmap_addr info + mbi_mmap_length info) k /\
  (Z.land (mbi_flags info) multiboot_flag_cmdline <> 0 -> misses_string m (mbi_cmdline info) k) /\
  (Z.land (mbi_flags info) multiboot_flag_mods <> 0 ->
    misses (mbi_mods_addr info)
      (mbi_mods_addr info + mbi_mods_count info * sizeof_MultibootModule) k) /\
  (forall i md, Z.land (mbi_flags info) multiboot_flag_mods <> 0 ->
    0 <= i < mbi_mods_count info -> read_module m (mbi_mods_addr info) i = Some md ->
    misses_module m md k).
Proof.
  intros Hm Hinfo Hia Hia2 Hk E Hf. unfold reserve_boot_data in E.
  pose proof (read_info_range _ _ _ Hm Hinfo) as (Hma & Hml & Hcl & Hmc & Hmd).
  rewrite u64_small in E by (unfold sizeof_MultibootInfo; lia).
  set (s1 := mark_range_used ia _ s) in E. set (s2 := mark_range_used (mbi_mmap_addr info) _ s1) in E.
  apply bind_Some_inv in E as (s3 & E3 & E).
  assert (test_bit s3 k = false /\
    (Z.land (mbi_flags info) multiboot_flag_mods <> 0 ->
      misses (mbi_mods_addr info)
        (mbi_mods_addr info + mbi_mods_count info * sizeof_MultibootModule) k) /\
    forall i md, Z.land (mbi_flags info) multiboot_flag_mods <> 0 ->
      0 <= i < mbi_mods_count info -> read_module m (mbi_mods_addr info) i = Some md ->
      misses_module m md k) as (Hf3 & Harray & Hmods).
  { destruct (Z.eqb_spec (Z.land (mbi_flags info) multiboot_flag_mods) 0) as [H0|H0].
    - injection E as ->. split; [done|]. split; [by rewrite H0|]. intros ? ? Hn. by rewrite H0 in Hn.
    - eapply reserve_modules_misses in E; [|done|lia|done|done]. destruct E as [E Hall].
      split; [|split; [intros _|intros i md _; apply Hall]].
      + destruct (test_bit s3 k) eqn:E4; [|done]. by rewrite mark_range_used_mono in E.
      + eapply mark_range_used_misses; [lia| |done|exact E].
        unfold sizeof_MultibootModule, page_size. lia. }
  assert (test_bit s2 k = false /\ (Z.land (mbi_flags info) multiboot_flag_cmdline <> 0 ->
    misses_string m (mbi_cmdline info) k)) as [Hf2 Hcmd].
  { destruct (Z.eqb_spec (Z.land (mbi_flags info) multiboot_flag_cmdline) 0) as [H0|H0].
    - injection E3 as ->. split; [done|]. intros Hn. by rewrite H0 in Hn.
    - apply (reserve_string_misses _ _ _ _ k) in E3 as [? ?]; auto. }
  assert (test_bit s1 k = false) as Hf1.
  { destruct (test_bit s1 k) eqn:E4; [|done]. unfold s2 in Hf2.
    by rewrite mark_range_used_mono in Hf2. }
  split_and!; try done.
  - destruct (test_bit s k) eqn:E4; [|done]. unfold s1 in Hf1. by rewrite mark_range_used_mono in Hf1.
  - eapply mark_range_used_misses; [done| |done|exact Hf1].
    unfold sizeof_MultibootInfo, page_size. lia.
  - eapply mark_range_used_misses; [lia| |done|exact Hf2]. unfold page_size. lia.
Qed.

Lemma reserve_string_inv m a s s' : 0 <= a -> inv s -> reserve_string m a s = Some s' -> inv s'.
Proof.
  intros Ha Hs E. apply bind_Some_inv in E as (n & _ & E). injection E as <-.
  by apply mark_range_used_inv.
Qed.

Lemma reserve_module_inv m mods i s s' :
  byte_memory m -> inv s -> reserve_module m mods i s = Some s' -> inv s'.
Proof.
  intros Hm Hs E. apply bind_Some_inv in E as (md & Hmd & E). unfold read_module in Hmd.
  do 3 apply bind_Some_inv in Hmd as (? & ? & Hmd). injection Hmd as <-. simpl in E.
  repeat match goal with H : rd32 _ _ = Some _ |- _ => apply rd32_range in H; [|done] end.
  assert (inv (mark_range_used x x0 s)) by (apply mark_range_used_inv; [lia|done]).
  destruct (x1 =? 0); [by injection E as <-|]. apply reserve_string_inv in E; [done|lia|done].
Qed.

Lemma page_alloc_init_inv m kernel_end magic ia info s :
  byte_memory m -> 0 <= ia -> read_info m ia = Some info ->
  page_alloc_init m kernel_end magic ia = Some s -> inv s.
Proof.
  intros Hm Hia Hinfo E. unfold page_alloc_init in E.
  destruct (negb _); [done|]. rewrite Hinfo in E. simpl in E.
  pose proof (read_info_range _ _ _ Hm Hinfo) as (Hma & Hml & Hcl & Hmc & Hmd).
  destruct (_ =? 0); [done|]. apply bind_Some_inv in E as (s1 & E1 & E).
  apply mmap_loop_inv in E1; [|apply full_inv].
  unfold reserve_boot_data in E. apply bind_Some_inv in E as (s2 & E2 & E).
  assert (inv s2) as H2.
  { destruct (_ =? 0) in E2; [injection E2 as <-|apply reserve_string_inv in E2; [done|lia|]];
      repeat (apply mark_range_used_inv; [lia||done|]); done. }
  destruct (_ =? 0) in E; [by injection E as <-|].
  eapply (for_o_inv (fun _ s => inv s) 0 (mbi_mods_count info)); [lia| |exact E|].
  - apply mark_range_used_inv; [lia|done].
  - intros. by eapply reserve_module_inv.
Qed.

(** After initialisation a free page lies inside memory the loader reported as
    available and meets neither low memory, nor the kernel image, nor anything the
    loader handed over; page 0 is reserved. *)
Theorem page_alloc_init_safe (m : memory) (kernel_end magic ia : Z) (info : MultibootInfo)
    (s : state) :
  byte_memory m -> 0 <= kernel_end -> kernel_end + page_size <= 2 ^ 64 ->
  0 <= ia -> ia + 8192 <= 2 ^ 64 -> read_info m ia = Some info ->
  page_alloc_init m kernel_end magic ia = Some s ->
  inv s /\ null_reserved s /\
  forall k, 0 <= k < managed_pages -> test_bit s k = false ->
    boot_safe m kernel_end ia info k.
Proof.
  intros Hm Hke Hke2 Hia Hia2 Hinfo E.
  split; [by eapply page_alloc_init_inv|]. unfold page_alloc_init in E.
  destruct (negb _); [done|]. rewrite Hinfo in E. simpl in E.
  destruct (_ =? 0); [done|]. apply bind_Some_inv in E as (s1 & E1 & E).
  assert (forall k, 0 <= k < managed_pages -> test_bit s k = false ->
    boot_safe m kernel_end ia info k) as Hall.
  { intros k Hk Hf.
    eapply reserve_boot_data_safe in E; [|done..]. destruct E as (Hf4 & Hi & Hmm & Hc & Har & Hmd).
    assert (misses (Z.shiftl 1 20) kernel_end k) as Hmk.
    { eapply mark_range_used_misses; [done..|exact Hf4]. }
    assert (test_bit (mark_range_used 0 (Z.shiftl 1 20) s1) k = false) as Hf3.
    { destruct (test_bit (mark_range_used 0 _ s1) k) eqn:E4; [|done].
      by rewrite mark_range_used_mono in Hf4. }
    assert (misses 0 (Z.shiftl 1 20) k) as Hlow.
    { eapply mark_range_used_misses; [done| |done|exact Hf3]. done. }
    assert (test_bit s1 k = false) as Hf2.
    { destruct (test_bit s1 k) eqn:E4; [|done]. by rewrite mark_range_used_mono in Hf3. }
    assert (Z.shiftl 1 20 <= k * page_size) as Hlow'.
    { unfold misses in Hlow. unfold page_size in *. lia. }
    constructor; try done.
    - eapply mmap_loop_spec; [done| |exact E1|by apply full_test_bit|done].
      destruct (Z.lt_ge_cases (mbi_mmap_addr info) (mbi_mmap_addr info + mbi_mmap_length info));
        [left; by constructor|by right].
    - unfold misses in Hmk. unfold page_size in *. lia. }
  split; [|done]. unfold null_reserved. destruct (test_bit s 0) eqn:E0; [done|].
  destruct (Hall 0) as [_ Hlow _ _ _ _ _ _]; [by rewrite managed_pages_eq|done|].
  change (1048576 <= 0) in Hlow. lia.
Qed.

(** ** The allocator as a source of frames *)

#[export] Instance page_allocator : FrameAllocator state := {
  fa_alloc := alloc_page;
  fa_free := free_page;
  fa_owned s f := test_bit s (f / page_size) = true
}.

#[export] Instance page_allocator_spec : FrameAllocatorSpec state.
Proof.
  constructor; simpl; unfold alloc_page.
  - intros a f a' g E Hg. destruct (alloc_pages_cases a 1 ltac:(lia))
      as [(first & (? & ? & _) & _ & E')|[_ E']]; rewrite E' in E; injection E as <- <-; [|done].
    rewrite test_for_mark_used by lia. by rewrite Hg.
  - intros a f a' E Hf. destruct (alloc_pages_cases a 1 ltac:(lia))
      as [(first & (? & ? & Hfree) & _ & E')|[_ E']]; rewrite E' in E; injection E as <- <-; [|done].
    rewrite Z.div_mul by done. rewrite Hfree by lia. done.
  - intros a f a' E Hf. destruct (alloc_pages_cases a 1 ltac:(lia))
      as [(first & (? & ? & Hfree) & _ & E')|[_ E']]; rewrite E' in E; injection E as <- <-; [|done].
    rewrite Z.div_mul, test_for_mark_used by (done || lia). unfold in_range.
    destruct (test_bit a first); simpl; lia.
  - intros a f a' E Hf. pose proof managed_pages_eq. destruct (alloc_pages_cases a 1 ltac:(lia))
      as [(first & (? & ? & Hfree) & _ & E')|[_ E']]; rewrite E' in E; injection E as <- <-; [|done].
    unfold page_size in *. split; [|by apply Z.mod_mul]. lia.
  - intros a f g Hf Hg Hf' Hne Hown. unfold free_page, page_size in *.
    rewrite test_free_pages by (unfold page_size; dlia). rewrite Hown. simpl.
    apply negb_true_iff. unfold in_range, page_size. apply andb_false_iff.
    pose proof (Z.div_mod f 4096). pose proof (Z.div_mod g 4096). lia.
Qed.

(** Taking a page and giving it back leaves every page as it was, so with [n] pages free
    a client that holds fewer than [n] at a time never runs out. *)
Lemma balanced_same s s' : balanced s s' -> inv s -> null_reserved s ->
  inv s' /\ null_reserved s' /\ forall k, test_bit s' k = test_bit s k.
Proof.
  induction 1 as [s|s f s1 s2 s3 E Hf _ IH1 _ IH2]; intros Hi H0; [done|]. pose proof managed_pages_eq as Hm. cbn [fa_alloc page_allocator] in E. unfold alloc_page in E.
  destruct (alloc_pages_cases s 1 ltac:(lia)) as [(first & (Hf1 & Hf2 & Hfree) & _ & E')|[_ E']]; rewrite E' in E; injection E as <- <-; [|done].
  assert (first <> 0) as Hne by (intros ->; done).
  destruct IH1 as (Hi2 & H02 & Hb2); [apply for_mark_used_inv; [lia|done]|unfold null_reserved; rewrite test_for_mark_used, H0 by lia; done|].
  assert (forall k, test_bit (free_page s2 (first * page_size)) k = test_bit s k) as Hb.
  { intros k. unfold free_page. rewrite test_free_pages, Z.div_mul, Hb2, test_for_mark_used, Z.min_l by (unfold page_size in *; rewrite ?Z.div_mul by lia; lia).
    destruct (in_range first (first + 1) k) eqn:Er; [|by rewrite orb_false_r, andb_true_r].
    unfold in_range in Er. rewrite Hfree by lia. by rewrite andb_false_r. }
  destruct IH2 as (Hi3 & H03 & Hb3); [apply free_pages_inv; [unfold page_size; lia|done]|unfold null_reserved; by rewrite Hb|].
  split_and!; [done|done|]. intros k. rewrite Hb3. apply Hb.
Qed.

Lemma alloc_page_left s : inv s -> null_reserved s -> used_pages s < managed_pages ->
  exists f s', alloc_page s = (f, s') /\ f <> 0 /\ inv s' /\ null_reserved s' /\ used_pages s' = used_pages s + 1.
Proof.
  intros Hi H0 Hu. pose proof managed_pages_eq as Hm. unfold alloc_page.
  destruct (alloc_pages_cases s 1 ltac:(lia)) as [(first & (Hf1 & Hf2 & Hfree) & _ & E')|[Hn _]].
  - assert (first <> 0) as Hne. { intros ->. unfold null_reserved in H0. rewrite Hfree in H0 by lia. done. }
    exists (first * page_size), (for_z first (first + 1) mark_used s). split_and!; [done|unfold page_size; lia|apply for_mark_used_inv; [lia|done]|..].
    + unfold null_reserved. rewrite test_for_mark_used, H0 by lia. done.
    + unfold inv in *. rewrite Hi. rewrite (for_mark_used_inv first (first + 1) s) by (done || lia).
      apply (count_z_update _ _ _ _ first); [lia| |apply Hfree; lia|].
      * intros k Hk Hkf. rewrite test_for_mark_used by lia. unfold in_range. destruct (test_bit s k); cbn; lia.
      * rewrite test_for_mark_used by lia. unfold in_range. destruct (test_bit s first); cbn; lia.
  - exfalso. unfold inv, count_used in Hi. rewrite (count_z_ext _ (fun _ => true)), count_z_true in Hi; [lia|lia|].
    intros k Hk. destruct (test_bit s k) eqn:E; [done|]. destruct (Hn k Hk). split_and!; [lia|lia|]. intros j Hj. by replace j with k by lia.
Qed.

Lemma pages_suffice n : forall s, inv s -> null_reserved s -> used_pages s + Z.of_nat n < managed_pages -> ~ out_of_pages n s.
Proof.
  assert (forall s s', balanced s s' -> inv s -> null_reserved s -> used_pages s < managed_pages ->
    exists f s1, fa_alloc s' = (f, s1) /\ f <> 0 /\ inv s1 /\ null_reserved s1 /\ used_pages s1 = used_pages s + 1) as Hleft.
  { intros s s' Hb Hi H0 Hu. destruct (balanced_same _ _ Hb Hi H0) as (Hi' & H0' & Hbits).
    assert (used_pages s' = used_pages s) as Eu by (unfold inv in *; rewrite Hi, Hi'; apply count_z_ext; intros; apply Hbits).
    rewrite <- Eu. apply alloc_page_left; [done|done|lia]. }
  induction n as [|n IH]; intros s Hi H0 Hu (s' & Hb & Hf).
  - destruct (Hleft s s') as (f & s1 & E & Hne & _); [done|done|done|lia|]. rewrite E in Hf. by destruct Hf.
  - destruct (Hleft s s') as (f & s1 & E & Hne & Hi1 & H01 & Hu1); [done|done|done|lia|]. rewrite E in Hf. destruct Hf as [Hf|Hf]; [done|].
    revert Hf. apply (IH s1); [done|done|lia].
Qed.

(** ** Concrete states *)

(** Everything reserved except pages 5, 6 and 7. *)
Definition three_free : state := free_pages (mk bitmap_full managed_pages) (5 * page_size) 3.

Lemma three_free_test k : 0 <= k < managed_pages -> test_bit three_free k = negb (in_range 5 8 k).
Proof.
  intros Hk. pose proof managed_pages_eq. unfold three_free.
  rewrite test_free_pages by (unfold page_size; vm_compute; done).
  rewrite full_test_bit by done. rewrite Z.div_mul, Z.min_l by (done || lia). done.
Qed.

Lemma three_free_inv : inv three_free.
Proof. apply free_pages_inv; [done|apply full_inv]. Qed.

Lemma three_free_null : null_reserved three_free.
Proof. unfold null_reserved. rewrite three_free_test; [done|by rewrite managed_pages_eq]. Qed.

Lemma three_free_run : free_run three_free 5 2.
Proof.
  pose proof managed_pages_eq. split; [lia|]. split; [lia|]. intros k Hk.
  rewrite three_free_test by lia. unfold in_range. lia.
Qed.

Lemma three_free_alloc : fst (alloc_pages three_free 2) <> 0.
Proof.
  pose proof managed_pages_eq.
  destruct (alloc_pages_cases three_free 2 ltac:(lia)) as [(first & Hr & _ & ->)|[Hno _]].
  - simpl. intros H0. assert (first = 0) as -> by (unfold page_size in H0; lia).
    destruct Hr as (_ & _ & Hr). pose proof three_free_null as Hn. unfold null_reserved in Hn.
    by rewrite Hr in Hn by lia.
  - exfalso. apply (Hno 5); [lia|apply three_free_run].
Qed.

Lemma alloc_pages_first_fit_witness :
  let (r, s') := alloc_pages three_free 2 in
  inv s' /\
  ((r = 0 /\ s' = three_free /\ no_run_before three_free managed_pages 2) \/
   (r <> 0 /\ exists first, r = first * page_size /\ free_run three_free first 2 /\
      no_run_before three_free first 2 /\ taken three_free first 2 s')).
Proof.
  apply (alloc_pages_first_fit three_free 2); [lia|apply three_free_inv|apply three_free_null].
Defined.

Lemma alloc_free_roundtrip_witness :
  used_pages (free_pages (snd (alloc_pages three_free 2)) (fst (alloc_pages three_free 2)) 2)
    = used_pages three_free /\
  forall k, test_bit (free_pages (snd (alloc_pages three_free 2))
                       (fst (alloc_pages three_free 2)) 2) k = test_bit three_free k.
Proof.
  apply (alloc_free_roundtrip three_free (snd (alloc_pages three_free 2)) 2
           (fst (alloc_pages three_free 2))).
  - lia.
  - apply three_free_inv.
  - apply three_free_null.
  - apply surjective_pairing.
  - apply three_free_alloc.
Defined.

(** A boot with one available region, [1 MiB, 16 MiB): the information block at
    0x9000, the memory map at 0x9100. *)
Definition boot_info_bytes : list Z :=
  le32 64 ++ replicate 40 0 ++ le32 24 ++ le32 0x9100.

Definition boot_mmap_bytes : list Z :=
  le32 20 ++ le32 0x100000 ++ le32 0 ++ le32 0xF00000 ++ le32 0 ++ le32 1.

Definition boot_memory : memory := place 0x9000 boot_info_bytes ∪ place 0x9100 boot_mmap_bytes.

Definition boot_memory_ok : bool :=
  forallb (fun p => (0 <=? p.2) && (p.2 <? 256)) (map_to_list boot_memory).

Lemma boot_memory_bytes : byte_memory boot_memory.
Proof.
  intros a b H. apply elem_of_map_to_list in H.
  assert (boot_memory_ok = true) as Hok by (vm_compute; reflexivity).
  unfold boot_memory_ok in Hok. rewrite forallb_forall in Hok.
  specialize (Hok (a, b)). apply list_elem_of_In in H. apply Hok in H. simpl in H. lia.
Qed.

Definition is_some {A} (o : option A) : bool := match o with Some _ => true | None => false end.

Lemma page_alloc_init_safe_witness :
  exists info s, page_alloc_init boot_memory 0x200000 multiboot_bootloader_magic 0x9000 = Some s /\
    null_reserved s /\
    forall k, 0 <= k < managed_pages -> test_bit s k = false ->
      boot_safe boot_memory 0x200000 0x9000 info k.
Proof.
  assert (is_some (page_alloc_init boot_memory 0x200000 multiboot_bootloader_magic 0x9000) = true)
    as Hs by exact (eq_refl true).
  destruct (read_info boot_memory 0x9000) as [info|] eqn:Ei; [|vm_compute in Ei; discriminate Ei].
  destruct (page_alloc_init boot_memory 0x200000 multiboot_bootloader_magic 0x9000)
    as [s|] eqn:E; [|discriminate Hs].
  exists info, s. split; [reflexivity|].
  apply (page_alloc_init_safe boot_memory 0x200000 multiboot_bootloader_magic 0x9000 info s).
  - apply boot_memory_bytes.
  - lia.
  - unfold page_size. lia.
  - lia.
  - lia.
  - exact Ei.
  - exact E.
Defined.
