(* ===== verification/Paging.v ===== *)
(** * Page tables (src/kernel/mm/paging.cpp, src/include/eris/paging.hpp)

    State: the contents of the page-table frames, as a map from (table address,
    index) to the 64-bit entry, and the frame allocator the tables come from (any
    [FrameAllocator]).  Tables are only ever touched as [table_at(frame)[index]]
    with [index < 512], and physical addresses are their own virtual addresses, so
    the pair names the memory word.  The table lock serialises the operations.
    [invlpg], the TLB and the shootdown broadcast are the business of Tlb.v. *)

From S2P Require Import Prelude Interfaces.

(** ** Constants *)

Definition pte_present : Z := Z.shiftl 1 0.
Definition pte_write : Z := Z.shiftl 1 1.
Definition pte_user : Z := Z.shiftl 1 2.
Definition pte_write_through : Z := Z.shiftl 1 3.
Definition pte_no_cache : Z := Z.shiftl 1 4.
Definition pte_huge : Z := Z.shiftl 1 7.
Definition pte_global : Z := Z.shiftl 1 8.
Definition pte_no_execute : Z := Z.shiftl 1 63.
Definition pte_address_mask : Z := 0x000FFFFFFFFFF000.

Definition huge_page_size : Z := 2 * 1024 * 1024.
Definition entries_per_table : Z := 512.
Definition direct_limit : Z := Z.shiftl 1 30.

(** [enum class PageFlags : u64] and its operators. *)
Definition PageFlags_None : Z := 0.
Definition PageFlags_Write : Z := Z.shiftl 1 0.
Definition PageFlags_User : Z := Z.shiftl 1 1.
Definition PageFlags_NoExecute : Z := Z.shiftl 1 2.
Definition PageFlags_Global : Z := Z.shiftl 1 3.
Definition PageFlags_NoCache : Z := Z.shiftl 1 4.

Definition flags_or (a b : Z) : Z := Z.lor a b.
Definition has (set flag : Z) : bool := negb (Z.land set flag =? 0).

Definition phys_to_virt (address : Z) : Z := address.
Definition virt_to_phys (address : Z) : Z := address.

Definition encode (flags : Z) : Z :=
  let bits := pte_present in
  let bits := if has flags PageFlags_Write then Z.lor bits pte_write else bits in
  let bits := if has flags PageFlags_User then Z.lor bits pte_user else bits in
  let bits := if has flags PageFlags_NoExecute then Z.lor bits pte_no_execute else bits in
  let bits := if has flags PageFlags_Global then Z.lor bits pte_global else bits in
  let bits := if has flags PageFlags_NoCache
              then Z.lor bits (Z.lor pte_no_cache pte_write_through) else bits in
  bits.

Definition table_at (frame : Z) : Z := phys_to_virt (Z.land frame pte_address_mask).

Definition index_of (address level : Z) : Z :=
  Z.land (Z.shiftr address (12 + 9 * level)) 0x1FF.

Definition is_present (e : Z) : bool := negb (Z.land e pte_present =? 0).
Definition is_huge (e : Z) : bool := negb (Z.land e pte_huge =? 0).

Section operations.
Context {A : Type} `{FrameAllocator A}.

Record state := mk { tables : gmap (Z * Z) Z; frames : A }.

Definition entry (st : state) (table index : Z) : Z := default 0 (tables st !! (table, index)).

Definition set_entry (table index value : Z) (st : state) : state :=
  mk (<[(table, index) := value]> (tables st)) (frames st).

(** [memset(table, 0, page_size)]. *)
Definition zero_table (table : Z) (st : state) : state :=
  for_z 0 entries_per_table (fun i => set_entry table i 0) st.

(** Null is 0. *)
Definition allocate_table (st : state) : Z * state :=
  let (frame, a) := fa_alloc (frames st) in
  let st := mk (tables st) a in
  if frame =? 0 then (0, st)
  else let table := table_at frame in (table, zero_table table st).

Definition split_huge_page (st : state) (dtable dindex : Z) : bool * state :=
  let e := entry st dtable dindex in
  let base := Z.land e pte_address_mask in
  let flags := Z.land e (not64 (Z.lor pte_address_mask pte_huge)) in
  let (table, st) := allocate_table st in
  if table =? 0 then (false, st)
  else
    let st := for_z 0 entries_per_table
                (fun i => set_entry table i (Z.lor (u64 (base + i * page_size)) flags)) st in
    let st := set_entry dtable dindex
                (Z.lor (Z.lor (virt_to_phys table) pte_present) pte_write) st in
    (true, st).

(** One level of the walk: make the entry present, mark it for user access, split
    it when it is a 2 MiB mapping.  [false] is [return nullptr]. *)
Definition walk_level (level : nat) (st : state) (table address : Z) (create user : bool) :
    bool * state :=
  let i := index_of address (Z.of_nat level) in
  let (ok, st) :=
    if is_present (entry st table i) then (true, st)
    else if create then
      let (next, st) := allocate_table st in
      if next =? 0 then (false, st)
      else (true, set_entry table i
                    (Z.lor (Z.lor (virt_to_phys next) pte_present) pte_write) st)
    else (false, st) in
  if negb ok then (false, st)
  else
    let st := if user then set_entry table i (Z.lor (entry st table i) pte_user) st else st in
    if (level =? 1)%nat && is_huge (entry st table i)
    then if create then split_huge_page st table i else (false, st)
    else (true, st).

Fixpoint table_for_from (level : nat) (st : state) (table address : Z) (create user : bool) :
    Z * state :=
  match level with
  | O => (table, st)
  | S level' =>
    let (ok, st) := walk_level level st table address create user in
    if ok
    then table_for_from level' st
           (table_at (entry st table (index_of address (Z.of_nat level)))) address create user
    else (0, st)
  end.

Definition table_for (st : state) (root address : Z) (create user : bool) : Z * state :=
  table_for_from 3 st (table_at root) address create user.

(** Iterations of [for (offset = 0; offset < length; offset += page_size)]. *)
Definition pages_of (length : Z) : nat := Z.to_nat ((length + page_size - 1) / page_size).

Fixpoint map_loop (n : nat) (offset : Z) (st : state) (root address frame bits : Z)
    (user : bool) : bool * state :=
  match n with
  | O => (true, st)
  | S n' =>
    let va := u64 (address + offset) in
    let (table, st) := table_for st root va true user in
    if table =? 0 then (false, st)
    else
      let st := set_entry table (index_of va 0)
                  (Z.lor (Z.land (u64 (frame + offset)) pte_address_mask) bits) st in
      map_loop n' (offset + page_size) st root address frame bits user
  end.

Definition map (st : state) (root address frame length flags : Z) : bool * state :=
  let bits := encode flags in
  let user := has flags PageFlags_User in
  map_loop (pages_of length) 0 st root address frame bits user.

Fixpoint unmap_loop (n : nat) (offset : Z) (st : state) (root address : Z) : bool * state :=
  match n with
  | O => (true, st)
  | S n' =>
    let va := u64 (address + offset) in
    let (table, st) := table_for st root va true false in
    if table =? 0 then (false, st)
    else unmap_loop n' (offset + page_size) (set_entry table (index_of va 0) 0 st) root address
  end.

Definition unmap (st : state) (root address length : Z) : bool * state :=
  unmap_loop (pages_of length) 0 st root address.

Fixpoint protect_loop (n : nat) (offset : Z) (st : state) (root address bits : Z)
    (user : bool) : bool * state :=
  match n with
  | O => (true, st)
  | S n' =>
    let va := u64 (address + offset) in
    let (table, st) := table_for st root va true user in
    if table =? 0 then (false, st)
    else
      let e := entry st table (index_of va 0) in
      if negb (is_present e) then (false, st)
      else
        let st := set_entry table (index_of va 0)
                    (Z.lor (Z.land e pte_address_mask) bits) st in
        protect_loop n' (offset + page_size) st root address bits user
  end.

Definition protect (st : state) (root address length flags : Z) : bool * state :=
  let bits := encode flags in
  let user := has flags PageFlags_User in
  protect_loop (pages_of length) 0 st root address bits user.

Fixpoint translate_from (level : nat) (st : state) (table address : Z) : Z :=
  let e := entry st table (index_of address (Z.of_nat level)) in
  match level with
  | O =>
    if negb (is_present e) then 0
    else Z.land e pte_address_mask + Z.land address (page_size - 1)
  | S level' =>
    if negb (is_present e) then 0
    else if is_huge e
    then Z.land e pte_address_mask + Z.land address (huge_page_size - 1)
    else translate_from level' st (table_at e) address
  end.

Definition translate (st : state) (root address : Z) : Z :=
  translate_from 3 st (table_at root) address.

Definition mapped (st : state) (root address : Z) : bool :=
  negb (translate st root address =? 0) || (address =? 0).

(** What the processor reads off the entries on the way to an address: [leaf] of the
    entry that maps it, [node] for every entry above, [absent] when one is missing. *)
Fixpoint walk {B} (leaf : Z -> B) (node : Z -> B -> B) (absent : B)
    (level : nat) (st : state) (table address : Z) : B :=
  let e := entry st table (index_of address (Z.of_nat level)) in
  if negb (is_present e) then absent
  else match level with
       | O => leaf e
       | S level' =>
         if is_huge e then leaf e
         else node e (walk leaf node absent level' st (table_at e) address)
       end.

(** The bits of an entry that are neither its address nor its size. *)
Definition entry_flags (e : Z) : Z := Z.land e (not64 (Z.lor pte_address_mask pte_huge)).

(** The flags of the entry, of 4 KiB or 2 MiB, that maps an address. *)
Definition leaf_flags (st : state) (root address : Z) : option Z :=
  walk (fun e => Some (entry_flags e)) (fun _ x => x) None 3 st (table_at root) address.

(** Access is the intersection of every level: [p] holds of the whole path. *)
Definition allows (p : Z -> bool) (st : state) (root address : Z) : bool :=
  walk p (fun e b => p e && b) false 3 st (table_at root) address.

Definition may_write : state -> Z -> Z -> bool := allows (fun e => Z.testbit e 1).
Definition may_user : state -> Z -> Z -> bool := allows (fun e => Z.testbit e 2).
Definition may_execute : state -> Z -> Z -> bool := allows (fun e => negb (Z.testbit e 63)).

End operations.

Arguments state : clear implicits.
Arguments mk {A} _ _.

(** ** Entries as bit fields *)

Lemma mask_shift : pte_address_mask = Z.shiftl (Z.ones 40) 12.
Proof. reflexivity. Qed.

Lemma mask_testbit i : 0 <= i ->
  Z.testbit pte_address_mask i = (12 <=? i) && (i <? 52).
Proof.
  intros Hi. rewrite mask_shift. destruct (Z.leb_spec 12 i); simpl.
  - rewrite Z.shiftl_spec, Z.testbit_ones_nonneg by lia. lia.
  - by rewrite Z.shiftl_spec_low by lia.
Qed.

Lemma is_present_bit e : is_present e = Z.testbit e 0.
Proof. apply (land_bit_testbit e 0). lia. Qed.

Lemma is_huge_bit e : is_huge e = Z.testbit e 7.
Proof. apply (land_bit_testbit e 7). lia. Qed.

Lemma testbit_mod_low x k i : 0 <= i < k -> x mod 2 ^ k = 0 -> Z.testbit x i = false.
Proof.
  intros Hi Hx. rewrite <- (Z.mod_pow2_bits_low x k i) by lia. rewrite Hx. apply Z.testbit_0_l.
Qed.

Lemma testbit_high x k i : 0 <= x < 2 ^ k -> 0 <= k <= i -> Z.testbit x i = false.
Proof.
  intros Hx Hi. rewrite <- (Z.mod_small x (2 ^ k)) by lia. apply Z.mod_pow2_bits_high. lia.
Qed.

Lemma land_mask_aligned x : 0 <= x < 2 ^ 52 -> x mod page_size = 0 ->
  Z.land x pte_address_mask = x.
Proof.
  intros Hx Ha. apply Z.bits_inj'. intros i Hi.
  rewrite Z.land_spec, mask_testbit by done.
  destruct (Z.leb_spec 12 i), (Z.ltb_spec i 52); simpl; rewrite ?andb_true_r, ?andb_false_r;
    try done; symmetry.
  - by apply (testbit_high x 52); lia.
  - by apply (testbit_mod_low x 12); [lia|].
  - by apply (testbit_mod_low x 12); [lia|].
Qed.

Lemma land_mask_idem e : Z.land (Z.land e pte_address_mask) pte_address_mask
  = Z.land e pte_address_mask.
Proof. by rewrite <- Z.land_assoc, Z.land_diag. Qed.

Lemma land_mask_range e : 0 <= Z.land e pte_address_mask < 2 ^ 52.
Proof.
  assert (Z.land e pte_address_mask = Z.land e pte_address_mask mod 2 ^ 52) as ->.
  { apply Z.bits_inj'. intros i Hi. destruct (Z.lt_ge_cases i 52).
    - by rewrite Z.mod_pow2_bits_low by lia.
    - rewrite Z.mod_pow2_bits_high, Z.land_spec, mask_testbit by lia.
      destruct (Z.ltb_spec i 52); [lia|]. by rewrite !andb_false_r. }
  apply Z.mod_pos_bound. lia.
Qed.

Lemma land_mask_mod e : Z.land e pte_address_mask mod page_size = 0.
Proof.
  apply Z.bits_inj'. intros i Hi. rewrite Z.testbit_0_l. change page_size with (2 ^ 12).
  destruct (Z.lt_ge_cases i 12).
  - rewrite Z.mod_pow2_bits_low, Z.land_spec, mask_testbit by lia.
    destruct (Z.leb_spec 12 i); [lia|]. by rewrite andb_false_r.
  - by rewrite Z.mod_pow2_bits_high by lia.
Qed.

(** Or-ing bits outside the address field leaves the address alone. *)
Lemma land_mask_lor x b : Z.land b pte_address_mask = 0 ->
  Z.land (Z.lor x b) pte_address_mask = Z.land x pte_address_mask.
Proof. intros Hb. by rewrite Z.land_lor_distr_l, Hb, Z.lor_0_r. Qed.

(** The entry that links a table at frame [f]. *)
Definition link_entry (f : Z) : Z := Z.lor (Z.lor (virt_to_phys f) pte_present) pte_write.

Lemma link_entry_present f : is_present (link_entry f) = true.
Proof.
  rewrite is_present_bit. unfold link_entry. rewrite !Z.lor_spec.
  change (Z.testbit pte_present 0) with true. by rewrite orb_true_r.
Qed.

Lemma frame_bits_clear f i : f mod page_size = 0 -> 0 <= i < 12 -> Z.testbit f i = false.
Proof. intros Hf Hi. by apply (testbit_mod_low f 12). Qed.

Lemma link_entry_huge f : f mod page_size = 0 -> is_huge (link_entry f) = false.
Proof.
  intros Hf. rewrite is_huge_bit. unfold link_entry, virt_to_phys. rewrite !Z.lor_spec.
  by rewrite frame_bits_clear by (done || lia).
Qed.

Lemma link_entry_table f : 0 <= f < 2 ^ 52 -> f mod page_size = 0 -> table_at (link_entry f) = f.
Proof.
  intros. unfold link_entry, table_at, virt_to_phys, phys_to_virt.
  rewrite !land_mask_lor by reflexivity. by apply land_mask_aligned.
Qed.

(** Two entries the walk cannot tell apart: same address, presence and size. *)
Definition same_walk (e e' : Z) : Prop :=
  is_present e = is_present e' /\ is_huge e = is_huge e' /\
  Z.land e pte_address_mask = Z.land e' pte_address_mask.

Lemma same_walk_refl e : same_walk e e.
Proof. done. Qed.

Lemma same_walk_user e : same_walk e (Z.lor e pte_user).
Proof.
  unfold same_walk. rewrite !is_present_bit, !is_huge_bit, !Z.lor_spec.
  rewrite land_mask_lor by reflexivity.
  change (Z.testbit pte_user 0) with false. change (Z.testbit pte_user 7) with false.
  by rewrite !orb_false_r.
Qed.

Lemma encode_mask flags : Z.land (encode flags) pte_address_mask = 0.
Proof. unfold encode. by repeat case_match. Qed.

Lemma encode_present flags : is_present (encode flags) = true.
Proof. unfold encode. by repeat case_match. Qed.

(** The entry [split_huge_page] writes for page [j] of the 2 MiB mapping [e]. *)
Definition split_entry (e j : Z) : Z :=
  Z.lor (u64 (Z.land e pte_address_mask + j * page_size))
        (Z.land e (not64 (Z.lor pte_address_mask pte_huge))).

Lemma split_flags_mask e :
  Z.land (Z.land e (not64 (Z.lor pte_address_mask pte_huge))) pte_address_mask = 0.
Proof.
  rewrite <- Z.land_assoc.
  change (Z.land (not64 (Z.lor pte_address_mask pte_huge)) pte_address_mask) with 0.
  apply Z.land_0_r.
Qed.

Lemma split_page_range e j :
  Z.land e pte_address_mask mod huge_page_size = 0 -> 0 <= j < 512 ->
  0 <= Z.land e pte_address_mask + j * page_size < 2 ^ 52 /\
  (Z.land e pte_address_mask + j * page_size) mod page_size = 0.
Proof.
  intros Ha Hj. pose proof (land_mask_range e). unfold huge_page_size, page_size in *.
  split; [dlia|]. rewrite Z.mod_add by lia. dlia.
Qed.

Lemma split_entry_address e j :
  Z.land e pte_address_mask mod huge_page_size = 0 -> 0 <= j < 512 ->
  Z.land (split_entry e j) pte_address_mask = Z.land e pte_address_mask + j * page_size.
Proof.
  intros Ha Hj. destruct (split_page_range e j Ha Hj). unfold split_entry.
  rewrite land_mask_lor by apply split_flags_mask. rewrite u64_small by lia.
  by apply land_mask_aligned.
Qed.

Lemma split_entry_present e j :
  Z.land e pte_address_mask mod huge_page_size = 0 -> 0 <= j < 512 ->
  is_present (split_entry e j) = is_present e.
Proof.
  intros Ha Hj. destruct (split_page_range e j Ha Hj). unfold split_entry.
  rewrite !is_present_bit, Z.lor_spec, u64_small, frame_bits_clear by (done || lia).
  rewrite Z.land_spec. change (Z.testbit (not64 _) 0) with true. by rewrite andb_true_r.
Qed.

(** ** Views of a path *)

(** A view of the path to an address that [table_for] keeps, as far as [R] can tell:
    setting the user bit of an entry (only when [u]), linking an empty table, and
    replacing a 2 MiB entry by a table of its pages. *)
Record view (u : bool) {B} (leaf : Z -> B) (node : Z -> B -> B) (absent : B)
    (R : B -> B -> Prop) (S : Z -> Z -> Prop) : Prop := {
  v_refl x : R x x;
  v_trans x y z : R x y -> R y z -> R x z;
  v_same e : S e e;
  v_leaf e e' : S e e' -> R (leaf e) (leaf e');
  v_node e e' x y : S e e' -> R x y -> R (node e x) (node e' y);
  v_user e : u = true -> S e (Z.lor e pte_user);
  v_link f : 0 < f < 2 ^ 52 -> f mod page_size = 0 -> R absent (node (link_entry f) absent);
  v_split f e j : 0 < f < 2 ^ 52 -> f mod page_size = 0 -> 0 <= j < 512 ->
    Z.land e pte_address_mask mod huge_page_size = 0 ->
    R (leaf e) (node (link_entry f) (leaf (split_entry e j)))
}.

(** The flags of the mapping entry, up to the user bit when [u]. *)
Definition flags_kept (u : bool) (o o' : option Z) : Prop :=
  o' = o \/ (u = true /\ exists f, o = Some f /\ o' = Some (Z.lor f pte_user)).

Lemma entry_flags_testbit e i : 0 <= i ->
  Z.testbit (entry_flags e) i = Z.testbit e i && Z.testbit (not64 (Z.lor pte_address_mask pte_huge)) i.
Proof. intros. unfold entry_flags. by rewrite Z.land_spec. Qed.

Lemma entry_flags_user e : entry_flags (Z.lor e pte_user) = Z.lor (entry_flags e) pte_user.
Proof. unfold entry_flags. by rewrite Z.land_lor_distr_l. Qed.

Lemma flags_address_clear x : 0 <= x < 2 ^ 52 -> x mod page_size = 0 -> entry_flags x = 0.
Proof.
  intros Hx Hm. unfold entry_flags. rewrite <- (land_mask_aligned x Hx Hm), <- Z.land_assoc.
  change (Z.land pte_address_mask (not64 (Z.lor pte_address_mask pte_huge))) with 0.
  apply Z.land_0_r.
Qed.

(** A split page carries the flags of the 2 MiB mapping it was part of. *)
Lemma split_entry_flags e j :
  Z.land e pte_address_mask mod huge_page_size = 0 -> 0 <= j < 512 ->
  entry_flags (split_entry e j) = entry_flags e.
Proof.
  intros Ha Hj. destruct (split_page_range e j Ha Hj). unfold split_entry.
  rewrite u64_small by lia. fold (entry_flags e). unfold entry_flags at 1.
  rewrite Z.land_lor_distr_l. fold (entry_flags (Z.land e pte_address_mask + j * page_size)).
  rewrite flags_address_clear by done. rewrite Z.lor_0_l. unfold entry_flags.
  by rewrite <- Z.land_assoc, Z.land_diag.
Qed.

Lemma split_entry_bit e j i :
  Z.land e pte_address_mask mod huge_page_size = 0 -> 0 <= j < 512 -> 0 <= i ->
  Z.testbit (not64 (Z.lor pte_address_mask pte_huge)) i = true ->
  Z.testbit (split_entry e j) i = Z.testbit e i.
Proof.
  intros Ha Hj Hi Hb. pose proof (f_equal (fun x => Z.testbit x i) (split_entry_flags e j Ha Hj)) as E.
  cbv beta in E. by rewrite !entry_flags_testbit, Hb, !andb_true_r in E.
Qed.

Lemma view_flags u :
  view u (fun e => Some (entry_flags e)) (fun _ x => x) None (flags_kept u)
    (fun e e' => e' = e \/ (u = true /\ e' = Z.lor e pte_user)).
Proof.
  constructor.
  - by left.
  - intros x y z [->|(Hu & f & -> & ->)] [->|(Hu' & g & Eg & ->)]; [by left| | |].
    + right. eauto.
    + right. eauto.
    + injection Eg as <-. right. split; [done|]. exists f. split; [done|].
      by rewrite <- Z.lor_assoc, Z.lor_diag.
  - by left.
  - intros e e' [->|[Hu ->]]; [by left|]. right. rewrite entry_flags_user. eauto.
  - done.
  - intros e Hu. by right.
  - by left.
  - intros f e j _ _ Hj Ha. left. by rewrite split_entry_flags.
Qed.

Lemma link_entry_bit f i : 0 < f < 2 ^ 52 -> f mod page_size = 0 ->
  (0 <= i < 12 \/ 52 <= i) ->
  Z.testbit (link_entry f) i = (i =? 0) || (i =? 1).
Proof.
  intros Hf Hm Hi. unfold link_entry, virt_to_phys, pte_present, pte_write.
  rewrite !Z.lor_spec, !Z.shiftl_1_l, !Z.pow2_bits_eqb by lia.
  replace (Z.testbit f i) with false; [by rewrite (Z.eqb_sym 0), (Z.eqb_sym 1)|]. symmetry.
  destruct Hi; [by apply frame_bits_clear|by apply (testbit_high f 52); lia].
Qed.

(** A right a link grants and that a page inherits from the mapping it was part of. *)
Lemma view_allows u (p : Z -> bool) :
  (forall e, p (Z.lor e pte_user) = p e) ->
  (forall f, 0 < f < 2 ^ 52 -> f mod page_size = 0 -> p (link_entry f) = true) ->
  (forall e j, Z.land e pte_address_mask mod huge_page_size = 0 -> 0 <= j < 512 ->
     p (split_entry e j) = p e) ->
  view u p (fun e b => p e && b) false eq (fun e e' => p e' = p e).
Proof.
  intros Hu Hl Hs. constructor; try done.
  - by intros x y z -> ->.
  - by intros e e' x y -> ->.
  - intros f ? ?. by rewrite andb_false_r.
  - intros f e j ? ? ? ?. by rewrite Hl, Hs.
Qed.

Lemma view_write u : view u (fun e => Z.testbit e 1) (fun e b => Z.testbit e 1 && b) false eq
  (fun e e' => Z.testbit e' 1 = Z.testbit e 1).
Proof.
  apply (view_allows u (fun e => Z.testbit e 1)).
  - intros e. rewrite Z.lor_spec. by rewrite orb_false_r.
  - intros f ? ?. rewrite link_entry_bit by (done || lia). done.
  - intros e j ? ?. by apply split_entry_bit.
Qed.

Lemma view_execute u : view u (fun e => negb (Z.testbit e 63))
  (fun e b => negb (Z.testbit e 63) && b) false eq
  (fun e e' => negb (Z.testbit e' 63) = negb (Z.testbit e 63)).
Proof.
  apply (view_allows u (fun e => negb (Z.testbit e 63))).
  - intros e. rewrite Z.lor_spec. by rewrite orb_false_r.
  - intros f ? ?. rewrite link_entry_bit by (done || lia). done.
  - intros e j ? ?. f_equal. by apply split_entry_bit.
Qed.

(** Without the user flag no page becomes a user page; a split withdraws the user bit
    from the table it links. *)
Lemma view_no_user : view false (fun e => Z.testbit e 2) (fun e b => Z.testbit e 2 && b) false
  (fun b b' => b' = true -> b = true) eq.
Proof.
  constructor; [done|auto|done|by intros e e' ->| |done| |].
  - intros e e' x y -> Hxy [? ?]%andb_true_iff. apply andb_true_iff. auto.
  - intros f _ _ [_ ?]%andb_true_iff. done.
  - intros f e j Hf Hm _ _ [Hb _]%andb_true_iff.
    by rewrite link_entry_bit in Hb by (done || lia).
Qed.

(** ** Virtual addresses *)

Lemma index_of_div va l : 0 <= l ->
  index_of va l = (va / 2 ^ (12 + 9 * l)) mod 512.
Proof.
  intros. unfold index_of. change 0x1FF with (Z.ones 9).
  rewrite Z.land_ones, Z.shiftr_div_pow2 by lia. done.
Qed.

Lemma index_of_range va l : 0 <= l -> 0 <= index_of va l < 512.
Proof. intros. rewrite index_of_div by done. apply Z.mod_pos_bound. lia. Qed.

(** Which table of level [l] translates [va]: the address bits above the level's
    index, of the 48 the walk looks at. *)
Definition pfx (l : nat) (va : Z) : Z := (va mod 2 ^ 48) / 2 ^ (12 + 9 * (Z.of_nat l + 1)).

Lemma pfx_step l va : (l < 3)%nat ->
  pfx l va = pfx (S l) va * 512 + index_of va (Z.of_nat (S l)).
Proof.
  intros Hl. rewrite index_of_div by lia. unfold pfx.
  destruct l as [|[|[|l]]]; [| | |lia];
    match goal with |- context [12 + 9 * ?z] => idtac end;
    cbv [Z.of_nat Pos.of_succ_nat Pos.succ];
    repeat match goal with |- context [2 ^ ?k] => let v := eval vm_compute in (2 ^ k) in
      change (2 ^ k) with v end; dlia.
Qed.

Lemma pfx_top va : pfx 3 va = 0.
Proof.
  unfold pfx. change (2 ^ (12 + 9 * (Z.of_nat 3 + 1))) with (2 ^ 48).
  apply Z.div_small. apply Z.mod_pos_bound. lia.
Qed.

Lemma pfx_leaf va va' : 0 <= va < 2 ^ 48 -> 0 <= va' < 2 ^ 48 ->
  pfx 0 va = pfx 0 va' -> index_of va 0 = index_of va' 0 -> va / page_size = va' / page_size.
Proof.
  intros Hva Hva' Hp Hi. rewrite !index_of_div in Hi by lia. unfold pfx in Hp.
  rewrite !Z.mod_small in Hp by lia.
  change (2 ^ (12 + 9 * 0)) with 4096 in Hi. change (2 ^ (12 + 9 * (Z.of_nat 0 + 1))) with 2097152 in Hp.
  unfold page_size. dlia.
Qed.

(** ** Well-formed tables and what an update does to translation *)

Section correctness.
Context {A : Type} `{FrameAllocatorSpec A}.
Implicit Types (st : state A) (T : gmap (nat * Z) Z).

Lemma entry_set_entry st t i v t' j :
  entry (set_entry t i v st) t' j = if decide (t = t' /\ i = j) then v else entry st t' j.
Proof.
  unfold entry, set_entry. simpl. rewrite lookup_insert.
  repeat case_decide; naive_solver.
Qed.

Lemma entry_set_entry_eq st t i v : entry (set_entry t i v st) t i = v.
Proof. rewrite entry_set_entry. by case_decide; [|naive_solver]. Qed.

Lemma entry_set_entry_ne st t i v t' j :
  t <> t' \/ i <> j -> entry (set_entry t i v st) t' j = entry st t' j.
Proof. intros. rewrite entry_set_entry. by case_decide; [naive_solver|]. Qed.

(** Filling a table changes that table only, and no frame changes hands. *)
Lemma fill_spec t (g : Z -> Z) n st : 0 <= n ->
  let st' := for_z 0 n (fun i => set_entry t i (g i)) st in
  frames st' = frames st /\
  (forall j, 0 <= j < n -> entry st' t j = g j) /\
  (forall t' j, t <> t' -> entry st' t' j = entry st t' j).
Proof.
  intros Hn. simpl. apply (for_z_ind (fun k (s : state A) => frames s = frames st /\
    (forall j, 0 <= j < k -> entry s t j = g j) /\
    (forall t' j, t <> t' -> entry s t' j = entry st t' j))).
  - done.
  - split_and!; [done|lia|done].
  - intros i s Hi (Hf & Hin & Hout). split_and!; [done| |].
    + intros j Hj. rewrite entry_set_entry. case_decide; [naive_solver|]. apply Hin.
      destruct (Z.eq_dec i j); [naive_solver|lia].
    + intros t' j Hne. rewrite entry_set_entry_ne by (by left). by apply Hout.
Qed.

(** [T] names the table frame of every level and address prefix the tables have:
    the ghost view of the radix tree. *)
Record wf (st : state A) (root : Z) (T : gmap (nat * Z) Z) : Prop := {
  wf_root : T !! (3%nat, 0) = Some root;
  wf_inj k1 k2 f : T !! k1 = Some f -> T !! k2 = Some f -> k1 = k2;
  wf_frame k f : T !! k = Some f ->
    fa_owned (frames st) f /\ 0 < f < 2 ^ 52 /\ f mod page_size = 0;
  wf_parent l p f : T !! (l, p) = Some f -> (l < 3)%nat -> is_Some (T !! (S l, p / 512));
  wf_next l p f i : T !! (S l, p) = Some f -> 0 <= i < 512 ->
    let e := entry st f i in
    if is_present e then
      if is_huge e
      then l = 0%nat /\ Z.land e pte_address_mask mod huge_page_size = 0 /\
           T !! (l, p * 512 + i) = None
      else T !! (l, p * 512 + i) = Some (table_at e)
    else T !! (l, p * 512 + i) = None
}.

Lemma table_at_wf st root T k f : wf st root T -> T !! k = Some f -> table_at f = f.
Proof. intros Hwf Hk. apply (wf_frame _ _ _ Hwf) in Hk as (_ & ? & ?). apply land_mask_aligned; [lia|done]. Qed.

(** Changes along the path of [va] that the walk cannot see, or that give the same
    answer, leave its translation alone. *)
Lemma translate_ext st st' root T va :
  wf st root T ->
  (forall l t, (l <= 3)%nat -> T !! (l, pfx l va) = Some t ->
     let i := index_of va (Z.of_nat l) in
     same_walk (entry st t i) (entry st' t i) \/
     translate_from l st' t va = translate_from l st t va) ->
  forall l t, (l <= 3)%nat -> T !! (l, pfx l va) = Some t ->
    translate_from l st' t va = translate_from l st t va.
Proof.
  intros Hwf Hpath. induction l as [|l IH]; intros t Hl Ht;
    (destruct (Hpath _ t Hl Ht) as [(Hp & Hh & Hm)|]; [|done]); simpl in *.
  - by rewrite <- Hp, <- Hm.
  - rewrite <- Hp, <- Hh, <- Hm.
    pose proof (wf_next _ _ _ Hwf l (pfx (S l) va) t _ Ht
                  (index_of_range va (Z.of_nat (S l)) ltac:(lia))) as Hn.
    simpl in Hn. destruct (is_present _) eqn:Ep; [|done]. destruct (is_huge _) eqn:Eh; [done|].
    unfold table_at, phys_to_virt. rewrite <- Hm. apply IH; [lia|].
    rewrite pfx_step by lia. exact Hn.
Qed.

(** The same for any view. *)
Lemma walk_ext {B} leaf node (absent : B) (R : B -> B -> Prop) S st st' root T va :
  (forall x, R x x) -> (forall e e', S e e' -> R (leaf e) (leaf e')) ->
  (forall e e' x y, S e e' -> R x y -> R (node e x) (node e' y)) -> wf st root T ->
  (forall l t, (l <= 3)%nat -> T !! (l, pfx l va) = Some t ->
     let i := index_of va (Z.of_nat l) in
     (same_walk (entry st t i) (entry st' t i) /\ S (entry st t i) (entry st' t i)) \/
     R (walk leaf node absent l st t va) (walk leaf node absent l st' t va)) ->
  forall l t, (l <= 3)%nat -> T !! (l, pfx l va) = Some t ->
    R (walk leaf node absent l st t va) (walk leaf node absent l st' t va).
Proof.
  intros Hrefl Hleaf Hnode Hwf Hpath. induction l as [|l IH]; intros t Hl Ht;
    (destruct (Hpath _ t Hl Ht) as [[(Hp & Hh & Hm) HS]|]; [|done]); cbn [walk] in *.
  - rewrite <- Hp. destruct (is_present _); [by apply Hleaf|apply Hrefl].
  - rewrite <- Hp, <- Hh.
    pose proof (wf_next _ _ _ Hwf l (pfx (Datatypes.S l) va) t _ Ht
                  (index_of_range va (Z.of_nat (Datatypes.S l)) ltac:(lia))) as Hn.
    cbv zeta in Hn. destruct (is_present _) eqn:Ep; [|apply Hrefl]. simpl negb. cbv iota.
    destruct (is_huge _) eqn:Eh; [by apply Hleaf|]. apply Hnode; [done|].
    unfold table_at, phys_to_virt. rewrite <- Hm. apply IH; [lia|].
    rewrite pfx_step by lia. exact Hn.
Qed.

Definition walk_view u {B} leaf node absent (R : B -> B -> Prop) S (HV : view u leaf node absent R S)
    st st' root T va :=
  walk_ext leaf node absent R S st st' root T va (v_refl _ _ _ _ _ _ HV) (v_leaf _ _ _ _ _ _ HV)
    (v_node _ _ _ _ _ _ HV).

(** Linking a fresh table [f] below [t]. *)
Lemma wf_link st st' root T l p t i f :
  wf st root T -> (l < 3)%nat -> T !! (S l, p) = Some t -> 0 <= i < 512 ->
  T !! (l, p * 512 + i) = None ->
  (forall k, T !! k <> Some f) -> 0 < f < 2 ^ 52 -> f mod page_size = 0 ->
  fa_owned (frames st') f ->
  (forall g, fa_owned (frames st) g -> fa_owned (frames st') g) ->
  is_present (entry st' t i) = true -> is_huge (entry st' t i) = false ->
  table_at (entry st' t i) = f ->
  (forall k t' j, T !! k = Some t' -> t' <> t \/ j <> i -> entry st' t' j = entry st t' j) ->
  ((0 < l)%nat -> forall j, 0 <= j < 512 -> is_present (entry st' f j) = false) ->
  wf st' root (<[(l, p * 512 + i) := f]> T).
Proof.
  intros Hwf Hl Ht Hi Hnone Hfresh Hf Hfa Hown Hkeep Hep Heh Het Hsame Hzero.
  assert (t <> f) as Htf by (intros ->; by apply (Hfresh (S l, p))).
  constructor.
  - rewrite lookup_insert_ne; [apply (wf_root _ _ _ Hwf)|]. intros [= -> _]. lia.
  - intros k1 k2 g H1 H2. rewrite lookup_insert in H1, H2.
    repeat case_decide; simplify_eq; try done;
      first [by apply (wf_inj _ _ _ Hwf k1 k2 g) | exfalso; eapply Hfresh; eassumption].
  - intros k g Hg. rewrite lookup_insert in Hg. case_decide; simplify_eq; [done|].
    destruct (wf_frame _ _ _ Hwf k g Hg) as (? & ? & ?). eauto.
  - intros l1 p1 g Hg Hl1. rewrite lookup_insert in Hg. rewrite lookup_insert_is_Some.
    case_decide as Hd; simplify_eq.
    + right. rewrite Z.div_add_l, (Z.div_small i), Z.add_0_r by lia.
      split; [intros [= ?]; lia|eauto].
    + destruct (decide ((l, p * 512 + i) = (S l1, p1 / 512))) as [|Hn]; [by left|right].
      split; [done|]. by apply (wf_parent _ _ _ Hwf l1 p1 g).
  - intros l1 p1 g j Hg Hj. simpl. rewrite lookup_insert in Hg. case_decide as Hd.
    + simplify_eq. rewrite Hzero by (lia || done). rewrite lookup_insert_ne by naive_solver lia.
      destruct (T !! (l1, (p * 512 + i) * 512 + j)) as [g'|] eqn:E; [|done]. exfalso.
      destruct (wf_parent _ _ _ Hwf _ _ _ E) as [x Hx]; [lia|].
      rewrite Z.div_add_l, (Z.div_small j), Z.add_0_r in Hx by lia. congruence.
    + destruct (decide (g = t /\ j = i)) as [[-> ->]|Hne].
      * assert ((S l1, p1) = (S l, p)) as E by by apply (wf_inj _ _ _ Hwf _ _ t).
        injection E as -> ->. rewrite Hep, Heh, Het. by rewrite lookup_insert_eq.
      * rewrite (Hsame (S l1, p1) g j Hg) by (destruct (Z.eq_dec j i); naive_solver).
        pose proof (wf_next _ _ _ Hwf l1 p1 g j Hg Hj) as Hn. simpl in Hn.
        rewrite lookup_insert_ne; [done|]. intros [= -> Heq].
        assert (p1 = p /\ j = i) as [-> ->] by lia. apply Hne. split; [|done].
        rewrite Ht in Hg. by injection Hg.
Qed.

(** An update that keeps every entry's walk attributes keeps the tree. *)
Lemma wf_same_walk st st' root T :
  wf st root T ->
  (forall g, fa_owned (frames st) g -> fa_owned (frames st') g) ->
  (forall l p t j, T !! (S l, p) = Some t -> 0 <= j < 512 ->
     same_walk (entry st t j) (entry st' t j)) ->
  wf st' root T.
Proof.
  intros Hwf Hown Hsame. constructor.
  - apply (wf_root _ _ _ Hwf).
  - apply (wf_inj _ _ _ Hwf).
  - intros k f Hk. destruct (wf_frame _ _ _ Hwf k f Hk). eauto.
  - apply (wf_parent _ _ _ Hwf).
  - intros l p f i Hf Hi. pose proof (wf_next _ _ _ Hwf l p f i Hf Hi) as Hn. simpl in *.
    destruct (Hsame l p f i Hf Hi) as (Hp & Hh & Hm). unfold table_at, phys_to_virt in *.
    by rewrite <- Hp, <- Hh, <- Hm.
Qed.

(** [st'] extends the tree of [st] without changing any translation, any view of a
    path or any existing leaf table. *)
Record extends (u : bool) (root : Z) (st : state A) T (st' : state A) T' : Prop := {
  ex_wf : wf st' root T';
  ex_sub : T ⊆ T';
  ex_owned g : fa_owned (frames st) g -> fa_owned (frames st') g;
  ex_translate va l t : (l <= 3)%nat -> T !! (l, pfx l va) = Some t ->
    translate_from l st' t va = translate_from l st t va;
  ex_view B leaf node absent (R : B -> B -> Prop) S : view u leaf node absent R S ->
    forall va l t, (l <= 3)%nat -> T !! (l, pfx l va) = Some t ->
    R (walk leaf node absent l st t va) (walk leaf node absent l st' t va);
  ex_leaf p t j : T !! (0%nat, p) = Some t -> entry st' t j = entry st t j;
  ex_new k f : T' !! k = Some f -> T !! k = Some f \/ ~ fa_owned (frames st) f
}.

Lemma extends_refl u root st T : wf st root T -> extends u root st T st T.
Proof. constructor; auto. intros * HV *. intros. apply (v_refl _ _ _ _ _ _ HV). Qed.

Lemma extends_trans u root st1 T1 st2 T2 st3 T3 :
  extends u root st1 T1 st2 T2 -> extends u root st2 T2 st3 T3 -> extends u root st1 T1 st3 T3.
Proof.
  intros [W1 S1 O1 X1 V1 L1 N1] [W2 S2 O2 X2 V2 L2 N2]. constructor; [done| | | | | |].
  - by etransitivity.
  - eauto.
  - intros va l t Hl Ht. rewrite X2, X1; [done|done|done|done|].
    by eapply lookup_weaken.
  - intros B leaf node absent R S HV va l t Hl Ht.
    apply (v_trans _ _ _ _ _ _ HV _ (walk leaf node absent l st2 t va)).
    + by apply (V1 _ _ _ _ _ _ HV).
    + apply (V2 _ _ _ _ _ _ HV); [done|]. by eapply lookup_weaken.
  - intros p t j Ht. rewrite (L2 p), (L1 p); [done|done|]. by eapply lookup_weaken.
  - intros k f Hk. apply N2 in Hk as [Hk|Hk]; [by apply N1|right; auto].
Qed.

Lemma allocate_table_spec st r st' :
  allocate_table st = (r, st') ->
  (forall g, fa_owned (frames st) g -> fa_owned (frames st') g) /\
  ((r = 0 /\ tables st' = tables st) \/
   (~ fa_owned (frames st) r /\ fa_owned (frames st') r /\
    0 < r < 2 ^ 52 /\ r mod page_size = 0 /\
    (forall j, 0 <= j < 512 -> entry st' r j = 0) /\
    (forall t j, r <> t -> entry st' t j = entry st t j))).
Proof.
  unfold allocate_table. destruct (fa_alloc (frames st)) as [f a] eqn:E.
  destruct (Z.eqb_spec f 0) as [->|Hf]; intros [= <- <-].
  { split; [|by left]. intros g. simpl. by eapply fa_alloc_keeps. }
  pose proof (fa_alloc_frame _ _ _ E Hf) as [Hr Hm].
  assert (table_at f = f) as -> by (apply land_mask_aligned; [lia|done]).
  destruct (fill_spec f (fun _ => 0) entries_per_table (mk (tables st) a)) as (Hfr & Hin & Hout);
    [done|]. fold (zero_table f (mk (tables st) a)) in *. rewrite Hfr. cbn [frames].
  split; [intros g; by eapply fa_alloc_keeps|]. right. split; [by eapply fa_alloc_fresh|].
  split; [by eapply fa_alloc_owned|]. split; [lia|]. split; [exact Hm|].
  split; [exact Hin|exact Hout].
Qed.

Lemma zero_table_translate l st t va :
  (forall j, 0 <= j < 512 -> entry st t j = 0) -> translate_from l st t va = 0.
Proof.
  intros Hz. destruct l; simpl; rewrite Hz by (apply index_of_range; lia); done.
Qed.

Lemma zero_table_walk {B} leaf node (absent : B) l st t va :
  (forall j, 0 <= j < 512 -> entry st t j = 0) -> walk leaf node absent l st t va = absent.
Proof.
  intros Hz. destruct l; cbn [walk]; rewrite Hz by (apply index_of_range; lia); done.
Qed.

Lemma frame_fresh st root T f :
  wf st root T -> ~ fa_owned (frames st) f -> forall k, T !! k <> Some f.
Proof. intros Hwf Hf k Hk. apply Hf. by apply (wf_frame _ _ _ Hwf) in Hk as [? _]. Qed.

(** The three updates of the walk. *)

Lemma extends_link u root st T l va t f st1 st2 :
  wf st root T -> (l < 3)%nat -> T !! (S l, pfx (S l) va) = Some t ->
  let i := index_of va (Z.of_nat (S l)) in
  is_present (entry st t i) = false ->
  allocate_table st = (f, st1) -> f <> 0 -> st2 = set_entry t i (link_entry f) st1 ->
  let T' := <[(l, pfx l va) := f]> T in
  extends u root st T st2 T' /\ entry st2 t i = link_entry f.
Proof.
  intros Hwf Hl Ht i Hnp Ealloc Hf0 -> T'.
  destruct (allocate_table_spec _ _ _ Ealloc)
    as (Hkeep & [[-> _]|(Hfresh & Hown & Hf & Hfm & Hz & Hout)]); [done|].
  pose proof (frame_fresh _ _ _ _ Hwf Hfresh) as HfT.
  assert (t <> f) as Htf by (intros ->; by apply (HfT (S l, pfx (S l) va))).
  pose proof (index_of_range va (Z.of_nat (S l)) ltac:(lia)) as Hi. fold i in Hi.
  pose proof (wf_next _ _ _ Hwf l _ t i Ht Hi) as Hn. simpl in Hn. rewrite Hnp in Hn.
  pose proof (pfx_step l va Hl) as Hpfx. fold i in Hpfx.
  assert (entry (set_entry t i (link_entry f) st1) t i = link_entry f) as Hnew
    by apply entry_set_entry_eq.
  assert (forall j, 0 <= j < 512 -> entry (set_entry t i (link_entry f) st1) f j = 0) as Hzero.
  { intros j Hj. rewrite entry_set_entry_ne by (by left). by apply Hz. }
  split; [|done]. constructor.
  - unfold T'. rewrite Hpfx. eapply wf_link; try done.
    + by rewrite Hnew, link_entry_present.
    + by rewrite Hnew, link_entry_huge.
    + rewrite Hnew. by apply link_entry_table; [lia|].
    + intros k t' j Hk Hne. rewrite entry_set_entry_ne by (destruct Hne; naive_solver).
      apply Hout. intros ->. by apply HfT in Hk.
    + intros _ j Hj. by rewrite Hzero.
  - unfold T'. rewrite Hpfx. by apply insert_subseteq.
  - done.
  - intros va' l' t'. apply (translate_ext st _ root T va'); [done|]. clear l' t'.
    intros l' t' Hl' Ht'. simpl.
    destruct (decide (t' = t /\ index_of va' (Z.of_nat l') = i)) as [[-> Hidx]|Hne].
    + right. assert ((l', pfx l' va') = (S l, pfx (S l) va)) as E
        by by apply (wf_inj _ _ _ Hwf _ _ t).
      injection E as -> _. simpl. rewrite Hidx, Hnew, Hnp.
      rewrite link_entry_present, link_entry_huge, link_entry_table by (done || lia).
      by apply zero_table_translate.
    + left. rewrite entry_set_entry_ne
        by (destruct (Z.eq_dec i (index_of va' (Z.of_nat l'))); naive_solver).
      rewrite Hout; [done|]. intros ->. by apply HfT in Ht'.
  - intros B leaf node absent R S HV va' l' t'.
    apply (walk_view u leaf node absent R S HV st _ root T va'); [done|]. clear l' t'.
    intros l' t' Hl' Ht'. cbv zeta.
    destruct (decide (t' = t /\ index_of va' (Z.of_nat l') = i)) as [[-> Hidx]|Hne].
    + right. assert ((l', pfx l' va') = (Datatypes.S l, pfx (Datatypes.S l) va)) as E
        by by apply (wf_inj _ _ _ Hwf _ _ t).
      injection E as -> _. cbn [walk]. rewrite Hidx, Hnew, Hnp.
      rewrite link_entry_present, link_entry_huge, link_entry_table by (done || lia).
      rewrite (zero_table_walk _ _ _ _ _ f) by done. by apply (v_link _ _ _ _ _ _ HV).
    + left. rewrite entry_set_entry_ne
        by (destruct (Z.eq_dec i (index_of va' (Z.of_nat l'))); naive_solver).
      rewrite Hout; [split; [done|apply (v_same _ _ _ _ _ _ HV)]|]. intros ->. by apply HfT in Ht'.
  - intros p t' j Ht'. rewrite entry_set_entry_ne.
    + apply Hout. intros ->. by apply HfT in Ht'.
    + left. intros ->. assert ((0%nat, p) = (S l, pfx (S l) va)) as E
        by by apply (wf_inj _ _ _ Hwf _ _ t'). done.
  - intros k g Hg. unfold T' in Hg. rewrite lookup_insert in Hg.
    case_decide; [right; congruence|by left].
Qed.

Lemma extends_user root st T l va t :
  wf st root T -> (l < 3)%nat -> T !! (S l, pfx (S l) va) = Some t ->
  let i := index_of va (Z.of_nat (S l)) in
  extends true root st T (set_entry t i (Z.lor (entry st t i) pte_user) st) T.
Proof.
  intros Hwf Hl Ht i. set (st' := set_entry _ _ _ _).
  assert (forall t' j, same_walk (entry st t' j) (entry st' t' j)) as Hsame.
  { intros t' j. unfold st'. rewrite entry_set_entry.
    case_decide as Hd; [destruct Hd as [<- <-]; apply same_walk_user|done]. }
  constructor; [| done | done | | | |auto].
  - by eapply wf_same_walk.
  - intros va' l' t'. apply (translate_ext st _ root T va'); [done|]. intros. left. apply Hsame.
  - intros B leaf node absent R S HV va' l' t'.
    apply (walk_view true leaf node absent R S HV st _ root T va'); [done|]. intros. left.
    split; [apply Hsame|]. unfold st'. rewrite entry_set_entry.
    case_decide as Hd; [destruct Hd as [<- <-]; by apply (v_user _ _ _ _ _ _ HV)
                       |apply (v_same _ _ _ _ _ _ HV)].
  - intros p t' j Ht'. unfold st'. apply entry_set_entry_ne. left. intros ->.
    assert ((0%nat, p) = (S l, pfx (S l) va)) as E by by apply (wf_inj _ _ _ Hwf _ _ t'). done.
Qed.

Lemma extends_frames u root st T st' :
  wf st root T -> tables st' = tables st ->
  (forall g, fa_owned (frames st) g -> fa_owned (frames st') g) -> extends u root st T st' T.
Proof.
  intros Hwf Ht Hkeep.
  assert (forall t j, entry st' t j = entry st t j) as He by (intros; unfold entry; by rewrite Ht).
  constructor; [|done|done| | |done|auto].
  - eapply wf_same_walk; [done|done|]. intros. by rewrite He.
  - intros va l t. apply (translate_ext st _ root T va); [done|]. intros. left. by rewrite He.
  - intros B leaf node absent R S HV va l t.
    apply (walk_view u leaf node absent R S HV st _ root T va); [done|]. intros. left. rewrite He.
    split; [done|apply (v_same _ _ _ _ _ _ HV)].
Qed.

Lemma page_in_huge va : Z.land va (huge_page_size - 1)
  = index_of va 0 * page_size + Z.land va (page_size - 1).
Proof.
  change (huge_page_size - 1) with (Z.ones 21). change (page_size - 1) with (Z.ones 12).
  rewrite !Z.land_ones, index_of_div by lia. change (2 ^ (12 + 9 * 0)) with 4096.
  change (2 ^ 21) with 2097152. change (2 ^ 12) with 4096. unfold page_size. dlia.
Qed.

Lemma extends_split u root st T va t ok st' :
  wf st root T -> T !! (1%nat, pfx 1 va) = Some t ->
  let i := index_of va 1 in
  is_present (entry st t i) = true -> is_huge (entry st t i) = true ->
  split_huge_page st t i = (ok, st') ->
  exists T', extends u root st T st' T' /\
    (ok = true -> T' !! (0%nat, pfx 0 va) = Some (table_at (entry st' t i))).
Proof.
  intros Hwf Ht i Hp Hh E. unfold split_huge_page in E.
  pose proof (index_of_range va 1 ltac:(lia)) as Hi. fold i in Hi.
  pose proof (wf_next _ _ _ Hwf 0 _ t i Ht Hi) as Hn. simpl in Hn. rewrite Hp, Hh in Hn.
  destruct Hn as (_ & Halign & Hnone).
  destruct (allocate_table st) as [f st1] eqn:Ealloc.
  destruct (allocate_table_spec _ _ _ Ealloc)
    as (Hkeep & [[-> Htab]|(Hfresh & Hown & Hf & Hfm & Hz & Hout)]).
  { simpl in E. injection E as <- <-. exists T. split; [by apply extends_frames|done]. }
  destruct (Z.eqb_spec f 0); [lia|]. injection E as <- E.
  pose proof (frame_fresh _ _ _ _ Hwf Hfresh) as HfT.
  assert (t <> f) as Htf by (intros ->; by apply (HfT (1%nat, pfx 1 va))).
  destruct (fill_spec f (split_entry (entry st t i)) entries_per_table st1)
    as (Hfr & Hin & Hfout); [done|].
  set (st2 := for_z 0 entries_per_table _ st1) in *.
  set (st3 := set_entry t i (link_entry f) st2).
  assert (st' = st3) as -> by (symmetry; exact E). clear E.
  assert (frames st3 = frames st1) as Hfr3 by exact Hfr. clearbody st2.
  assert (entry st3 t i = link_entry f) as Hnew by apply entry_set_entry_eq.
  assert (forall j, 0 <= j < 512 -> entry st3 f j = split_entry (entry st t i) j) as Hpage.
  { intros j Hj. unfold st3. rewrite entry_set_entry_ne by (by left). by apply Hin. }
  assert (forall k t' j, T !! k = Some t' -> t' <> t \/ j <> i -> entry st3 t' j = entry st t' j)
    as Hsame.
  { intros k t' j Hk Hne. unfold st3. rewrite entry_set_entry_ne by (destruct Hne; naive_solver).
    rewrite Hfout, Hout; [done|..]; intros ->; by apply HfT in Hk. }
  clearbody st3. pose proof (pfx_step 0 va ltac:(lia)) as Hpfx. change (Z.of_nat 1) with 1 in Hpfx. fold i in Hpfx.
  exists (<[(0%nat, pfx 0 va) := f]> T). split.
  2:{ intros _. rewrite lookup_insert_eq, Hnew, link_entry_table; [done|lia|done]. }
  constructor.
  - rewrite Hpfx. eapply wf_link; try done; rewrite ?Hfr3, ?Hnew;
      first [ done | lia | apply link_entry_present | by apply link_entry_huge
            | by apply link_entry_table; [lia|] | intros; lia ].
  - rewrite Hpfx. by apply insert_subseteq.
  - by rewrite Hfr3.
  - intros va' l' t'. apply (translate_ext st _ root T va'); [done|]. clear l' t'.
    intros l' t' Hl' Ht'. cbv zeta.
    destruct (decide (t' = t /\ index_of va' (Z.of_nat l') = i)) as [[-> Hidx]|Hne].
    + right. assert ((l', pfx l' va') = (1%nat, pfx 1 va)) as E
        by by apply (wf_inj _ _ _ Hwf _ _ t).
      injection E as -> _. cbn [translate_from]. change (Z.of_nat 1) with 1 in *.
      change (Z.of_nat 0) with 0. rewrite Hidx, Hnew, Hp, Hh.
      rewrite link_entry_present, link_entry_huge, link_entry_table by (done || lia).
      rewrite Hpage by (apply index_of_range; lia).
      pose proof (index_of_range va' 0 ltac:(lia)).
      rewrite split_entry_present, split_entry_address, Hp by done. simpl negb. cbv iota.
      rewrite (page_in_huge va'). lia.
    + left. rewrite (Hsame (l', pfx l' va')); [done|done|].
      destruct (Z.eq_dec (index_of va' (Z.of_nat l')) i); naive_solver.
  - intros B leaf node absent R S HV va' l' t'.
    apply (walk_view u leaf node absent R S HV st _ root T va'); [done|]. clear l' t'.
    intros l' t' Hl' Ht'. cbv zeta.
    destruct (decide (t' = t /\ index_of va' (Z.of_nat l') = i)) as [[-> Hidx]|Hne].
    + right. assert ((l', pfx l' va') = (1%nat, pfx 1 va)) as E
        by by apply (wf_inj _ _ _ Hwf _ _ t).
      injection E as -> _. cbn [walk]. change (Z.of_nat 1) with 1 in *.
      change (Z.of_nat 0) with 0. rewrite Hidx, Hnew, Hp, Hh.
      rewrite link_entry_present, link_entry_huge, link_entry_table by (done || lia).
      rewrite Hpage by (apply index_of_range; lia).
      pose proof (index_of_range va' 0 ltac:(lia)).
      rewrite split_entry_present, Hp by done. by apply (v_split _ _ _ _ _ _ HV).
    + left. rewrite (Hsame (l', pfx l' va')); [split; [done|apply (v_same _ _ _ _ _ _ HV)]|done|].
      destruct (Z.eq_dec (index_of va' (Z.of_nat l')) i); naive_solver.
  - intros p t' j Ht'. apply (Hsame (0%nat, p)); [done|]. left. intros ->.
    assert ((0%nat, p) = (1%nat, pfx 1 va)) as E by by apply (wf_inj _ _ _ Hwf _ _ t). done.
  - intros k g Hg. rewrite lookup_insert in Hg. case_decide; [right; congruence|by left].
Qed.

(** The huge-page test at the end of a level, from a present entry. *)
Lemma walk_tail_spec u root st T l va t ok st' :
  wf st root T -> (l < 3)%nat -> T !! (S l, pfx (S l) va) = Some t ->
  let i := index_of va (Z.of_nat (S l)) in
  is_present (entry st t i) = true ->
  (if (S l =? 1)%nat && is_huge (entry st t i) then split_huge_page st t i else (true, st))
    = (ok, st') ->
  exists T', extends u root st T st' T' /\
    (ok = true -> T' !! (l, pfx l va) = Some (table_at (entry st' t i))).
Proof.
  intros Hwf Hl Ht i Hp E.
  pose proof (index_of_range va (Z.of_nat (S l)) ltac:(lia)) as Hi. fold i in Hi.
  pose proof (wf_next _ _ _ Hwf l _ t i Ht Hi) as Hn. cbv zeta in Hn. rewrite Hp in Hn.
  destruct (is_huge (entry st t i)) eqn:Hh.
  - destruct Hn as (-> & _ & _). simpl andb in E. cbv iota in E.
    by eapply extends_split in E.
  - rewrite andb_false_r in E. injection E as <- <-. exists T.
    split; [by apply extends_refl|]. intros _. rewrite pfx_step by lia. exact Hn.
Qed.

Lemma walk_level_spec root st T l va t user ok st' :
  wf st root T -> (l < 3)%nat -> T !! (S l, pfx (S l) va) = Some t ->
  walk_level (S l) st t va true user = (ok, st') ->
  exists T', extends user root st T st' T' /\
    (ok = true -> T' !! (l, pfx l va)
       = Some (table_at (entry st' t (index_of va (Z.of_nat (S l)))))).
Proof.
  intros Hwf Hl Ht. unfold walk_level. set (i := index_of va (Z.of_nat (S l))).
  (* after the entry is present *)
  assert (forall st1 T1, extends user root st T st1 T1 -> is_present (entry st1 t i) = true ->
    (let st2 := if user then set_entry t i (Z.lor (entry st1 t i) pte_user) st1 else st1 in
     if (S l =? 1)%nat && is_huge (entry st2 t i) then split_huge_page st2 t i else (true, st2))
      = (ok, st') ->
    exists T', extends user root st T st' T' /\
      (ok = true -> T' !! (l, pfx l va) = Some (table_at (entry st' t i)))) as Hrest.
  { intros st1 T1 Hex Hp. cbv zeta.
    pose proof (ex_wf _ _ _ _ _ _ Hex) as Hwf1.
    assert (T1 !! (S l, pfx (S l) va) = Some t) as Ht1
      by (eapply lookup_weaken; [done|apply (ex_sub _ _ _ _ _ _ Hex)]).
    destruct user.
    - pose proof (extends_user _ _ _ _ _ _ Hwf1 Hl Ht1) as Hu. fold i in Hu.
      set (st2 := set_entry t i _ st1) in *. intros E.
      eapply walk_tail_spec in E as (T' & Hex' & Hok); [|apply (ex_wf _ _ _ _ _ _ Hu)|done|done|].
      + exists T'. split; [|done]. eauto using extends_trans.
      + unfold st2. rewrite entry_set_entry_eq.
        destruct (same_walk_user (entry st1 t i)) as [<- _]. done.
    - intros E. eapply walk_tail_spec in E as (T' & Hex' & Hok); [|done..].
      exists T'. split; [|done]. eauto using extends_trans. }
  destruct (is_present (entry st t i)) eqn:Hp.
  - simpl negb. cbv iota beta. intros E. eapply Hrest; [by apply extends_refl|done|exact E].
  - destruct (allocate_table st) as [f st1] eqn:Ealloc.
    destruct (Z.eqb_spec f 0) as [->|Hf].
    + simpl. intros [= <- <-]. exists T. split; [|done].
      destruct (allocate_table_spec _ _ _ Ealloc) as (Hkeep & [[_ Htab]|(_ & _ & ? & _)]); [|lia].
      by apply extends_frames.
    + destruct (extends_link user root st T l va t f st1 _ Hwf Hl Ht Hp Ealloc Hf eq_refl)
        as [Hex _]. simpl negb. cbv iota beta. intros E.
      eapply Hrest; [exact Hex| |exact E].
      change (is_present (entry (set_entry t i (link_entry f) st1) t i) = true).
      rewrite entry_set_entry_eq. apply link_entry_present.
Qed.

Lemma table_for_from_spec root l va user st T t r st' :
  wf st root T -> (l <= 3)%nat -> T !! (l, pfx l va) = Some t ->
  table_for_from l st t va true user = (r, st') ->
  exists T', extends user root st T st' T' /\ (r <> 0 -> T' !! (0%nat, pfx 0 va) = Some r).
Proof.
  revert st T t. induction l as [|l IH]; intros st T t Hwf Hl Ht E; cbn [table_for_from] in E.
  - injection E as <- <-. exists T. split; [by apply extends_refl|done].
  - destruct (walk_level (S l) st t va true user) as [ok st1] eqn:E1.
    eapply walk_level_spec in E1 as (T1 & Hex & Hok); [|done|lia|done].
    destruct ok.
    + eapply IH in E as (T' & Hex' & Hr); [|apply (ex_wf _ _ _ _ _ _ Hex)|lia|by apply Hok].
      exists T'. split; [by eapply extends_trans|done].
    + injection E as <- <-. exists T1. split; [done|]. done.
Qed.

Lemma table_for_spec root va user st T r st' :
  wf st root T -> table_for st root va true user = (r, st') ->
  exists T', extends user root st T st' T' /\ (r <> 0 -> T' !! (0%nat, pfx 0 va) = Some r).
Proof.
  intros Hwf E. unfold table_for in E.
  rewrite (table_at_wf _ _ _ _ _ Hwf (wf_root _ _ _ Hwf)) in E.
  eapply table_for_from_spec in E; [done|done|lia|]. rewrite pfx_top. apply (wf_root _ _ _ Hwf).
Qed.

(** ** Leaf tables *)

Lemma pfx_parent l va : (l < 3)%nat -> pfx l va / 512 = pfx (S l) va.
Proof.
  intros Hl. rewrite pfx_step by done. pose proof (index_of_range va (Z.of_nat (S l)) ltac:(lia)).
  rewrite Z.div_add_l, Z.div_small by lia. lia.
Qed.

(** A leaf table has its whole path of tables above it. *)
Lemma path_to_leaf st root T va t l :
  wf st root T -> T !! (0%nat, pfx 0 va) = Some t -> (l <= 3)%nat -> is_Some (T !! (l, pfx l va)).
Proof.
  intros Hwf Ht. induction l as [|l IH]; intros Hl; [eauto|].
  destruct (IH ltac:(lia)) as [g Hg]. rewrite <- pfx_parent by lia.
  apply (wf_parent _ _ _ Hwf l _ g Hg). lia.
Qed.

(** The walk down from a table whose child is in the tree. *)
Lemma walk_child st root T l va t c :
  wf st root T -> (l < 3)%nat -> T !! (S l, pfx (S l) va) = Some t ->
  T !! (l, pfx l va) = Some c ->
  let e := entry st t (index_of va (Z.of_nat (S l))) in
  is_present e = true /\ is_huge e = false /\ table_at e = c.
Proof.
  intros Hwf Hl Ht Hc e. rewrite pfx_step in Hc by done.
  pose proof (wf_next _ _ _ Hwf l _ t _ Ht (index_of_range va (Z.of_nat (S l)) ltac:(lia))) as Hn.
  cbv zeta in Hn. fold e in Hn. destruct (is_present e); [|congruence].
  destruct (is_huge e); [naive_solver|]. by rewrite Hc in Hn; injection Hn.
Qed.

Lemma translate_leaf_from st root T va t l t' :
  wf st root T -> T !! (0%nat, pfx 0 va) = Some t -> (l <= 3)%nat ->
  T !! (l, pfx l va) = Some t' -> translate_from l st t' va = translate_from 0 st t va.
Proof.
  intros Hwf Ht. revert t'. induction l as [|l IH]; intros t' Hl Ht'; [congruence|].
  assert (l < 3)%nat as Hl3 by lia. assert (l <= 3)%nat as Hl4 by lia.
  destruct (path_to_leaf _ _ _ _ _ l Hwf Ht Hl4) as [c Hc].
  destruct (walk_child _ _ _ _ _ _ _ Hwf Hl3 Ht' Hc) as (Hp & Hh & He).
  cbn [translate_from]. rewrite Hp, Hh, He. simpl negb. cbv iota. apply IH; [lia|done].
Qed.

Lemma translate_leaf st root T va t :
  wf st root T -> T !! (0%nat, pfx 0 va) = Some t ->
  translate st root va = translate_from 0 st t va.
Proof.
  intros Hwf Ht. unfold translate. pose proof (wf_root _ _ _ Hwf) as Hr.
  rewrite (table_at_wf _ _ _ _ _ Hwf Hr).
  eapply translate_leaf_from; [done|done|lia|]. by rewrite pfx_top.
Qed.

Lemma table_for_find_from st root T va l t :
  wf st root T -> (l <= 3)%nat -> T !! (l, pfx l va) = Some t ->
  table_for_from l st t va false false = (default 0 (T !! (0%nat, pfx 0 va)), st).
Proof.
  intros Hwf. revert t. induction l as [|l IH]; intros t Hl Ht; cbn [table_for_from].
  { by rewrite Ht. }
  pose proof (wf_next _ _ _ Hwf l _ t _ Ht (index_of_range va (Z.of_nat (S l)) ltac:(lia))) as Hn.
  cbv zeta in Hn. rewrite <- pfx_step in Hn by lia. unfold walk_level.
  assert (T !! (l, pfx l va) = None -> T !! (0%nat, pfx 0 va) = None) as Hnone.
  { intros HN. destruct (T !! (0%nat, pfx 0 va)) as [g|] eqn:E; [|done].
    destruct (path_to_leaf _ _ _ _ _ l Hwf E ltac:(lia)). congruence. }
  destruct (is_present _) eqn:Hp; simpl negb; cbv iota beta zeta.
  - destruct (is_huge _) eqn:Hh.
    + destruct Hn as (-> & _ & HN). simpl. by rewrite HN.
    + rewrite andb_false_r. apply IH; [lia|done].
  - by rewrite Hnone.
Qed.

(** [table_for] without [create] finds the leaf table of the tree, or null. *)
Lemma table_for_find st root T va :
  wf st root T ->
  table_for st root va false false = (default 0 (T !! (0%nat, pfx 0 va)), st).
Proof.
  intros Hwf. unfold table_for. rewrite (table_at_wf _ _ _ _ _ Hwf (wf_root _ _ _ Hwf)).
  eapply table_for_find_from; [done|lia|]. rewrite pfx_top. apply (wf_root _ _ _ Hwf).
Qed.

(** The 4 KiB entry that maps [va], when its leaf table exists. *)
Definition pte (st : state A) (root va : Z) : option Z :=
  let (t, _) := table_for st root va false false in
  if t =? 0 then None else Some (entry st t (index_of va 0)).

Lemma pte_leaf st root T va t :
  wf st root T -> T !! (0%nat, pfx 0 va) = Some t ->
  pte st root va = Some (entry st t (index_of va 0)).
Proof.
  intros Hwf Ht. unfold pte. erewrite table_for_find by done. rewrite Ht. simpl.
  apply (wf_frame _ _ _ Hwf) in Ht as (_ & ? & _). by destruct (Z.eqb_spec t 0); [lia|].
Qed.

Lemma pte_leaf_inv st root T va e :
  wf st root T -> pte st root va = Some e ->
  exists t, T !! (0%nat, pfx 0 va) = Some t /\ e = entry st t (index_of va 0).
Proof.
  intros Hwf. unfold pte. erewrite table_for_find by done.
  destruct (T !! (0%nat, pfx 0 va)) as [t|]; simpl; [|done].
  destruct (t =? 0); [done|]. intros [= <-]. eauto.
Qed.

Definition same_page (va va' : Z) : Prop := va / page_size = va' / page_size.

#[local] Instance same_page_dec va va' : Decision (same_page va va').
Proof. unfold same_page. apply _. Defined.

Lemma same_page_pfx va va' : same_page va va' ->
  pfx 0 va = pfx 0 va' /\ index_of va 0 = index_of va' 0.
Proof.
  unfold same_page, pfx, page_size. rewrite !index_of_div by lia.
  change (2 ^ (12 + 9 * 0)) with 4096. change (2 ^ (12 + 9 * (Z.of_nat 0 + 1))) with 2097152.
  change (2 ^ 48) with 281474976710656. intros Hs. split; [|by rewrite Hs].
  assert (forall x, x mod 281474976710656 / 2097152 = (x / 4096) mod 68719476736 / 512) as Hx.
  { intros x. dlia. }
  by rewrite !Hx, Hs.
Qed.

(** Writing one leaf entry: only that page's translation and entry change. *)
Lemma leaf_write st root T va t v :
  wf st root T -> T !! (0%nat, pfx 0 va) = Some t -> 0 <= va < 2 ^ 48 ->
  let st' := set_entry t (index_of va 0) v st in
  wf st' root T /\
  (forall va', 0 <= va' < 2 ^ 48 -> translate st' root va' =
     if decide (same_page va va')
     then if is_present v then Z.land v pte_address_mask + Z.land va' (page_size - 1) else 0
     else translate st root va') /\
  (forall va', 0 <= va' < 2 ^ 48 -> pte st' root va' =
     if decide (same_page va va') then Some v else pte st root va') /\
  (forall B leaf node (absent : B) va', 0 <= va' < 2 ^ 48 -> ~ same_page va va' ->
     walk leaf node absent 3 st' (table_at root) va' = walk leaf node absent 3 st (table_at root) va').
Proof.
  intros Hwf Ht Hva st'.
  assert (forall l p t' j, T !! (S l, p) = Some t' -> entry st' t' j = entry st t' j) as Hup.
  { intros l p t' j Hl. apply entry_set_entry_ne. left. intros ->.
    assert ((S l, p) = (0%nat, pfx 0 va)) as E by by apply (wf_inj _ _ _ Hwf _ _ t'). done. }
  assert (wf st' root T) as Hwf'.
  { eapply wf_same_walk; [done|done|]. intros l p t' j Hl _. by rewrite (Hup l p). }
  assert (forall va' t', T !! (0%nat, pfx 0 va') = Some t' -> 0 <= va' < 2 ^ 48 ->
    entry st' t' (index_of va' 0) =
    if decide (same_page va va') then v else entry st t' (index_of va' 0)) as Hent.
  { intros va' t' Ht' Hva'. unfold st'. rewrite entry_set_entry. case_decide as Hd.
    - destruct Hd as [-> Hi]. case_decide as Hs; [done|]. exfalso. apply Hs.
      assert ((0%nat, pfx 0 va) = (0%nat, pfx 0 va')) as E by by apply (wf_inj _ _ _ Hwf _ _ t').
      injection E as E. by apply pfx_leaf.
    - case_decide as Hs; [|done]. exfalso. apply Hd.
      apply same_page_pfx in Hs as [Hp Hi]. rewrite Hp in Ht. split; [congruence|done]. }
  split; [done|]. split; [intros va' Hva'|split; [intros va' Hva'|]].
  - destruct (T !! (0%nat, pfx 0 va')) as [t'|] eqn:Ht'.
    + rewrite (translate_leaf st' root T va' t'), (translate_leaf st root T va' t') by done.
      cbn [translate_from]. change (Z.of_nat 0) with 0. rewrite (Hent va') by done.
      case_decide; [|done]. by destruct (is_present v).
    + case_decide as Hs.
      { exfalso. apply same_page_pfx in Hs as [Hp _]. rewrite Hp in Ht. congruence. }
      unfold translate. apply (translate_ext st _ root T va'); [done| |lia|].
      * intros l t' Hl Ht''. left. destruct l; [congruence|]. by rewrite (Hup l (pfx (S l) va')).
      * rewrite pfx_top, (table_at_wf _ _ _ _ _ Hwf (wf_root _ _ _ Hwf)). apply (wf_root _ _ _ Hwf).
  - destruct (T !! (0%nat, pfx 0 va')) as [t'|] eqn:Ht'.
    + rewrite (pte_leaf st' root T va' t'), (pte_leaf st root T va' t') by done.
      rewrite (Hent va') by done. by case_decide.
    + unfold pte. rewrite (table_for_find _ _ T _ Hwf'), (table_for_find _ _ T _ Hwf), Ht'. simpl.
      case_decide as Hs; [|done]. apply same_page_pfx in Hs as [Hp _]. rewrite Hp in Ht. congruence.
  - intros B leaf node absent va' Hva' Hs. symmetry.
    apply (walk_ext leaf node absent eq eq st _ root T va'); [done|naive_solver|naive_solver|done| |lia|].
    + intros l t' Hl Ht'. cbv zeta. left.
      enough (entry st' t' (index_of va' (Z.of_nat l)) = entry st t' (index_of va' (Z.of_nat l)))
        as -> by done.
      destruct l; [|by rewrite (Hup l (pfx (S l) va'))].
      change (Z.of_nat 0) with 0. rewrite (Hent va' t') by done. by case_decide.
    + rewrite pfx_top, (table_at_wf _ _ _ _ _ Hwf (wf_root _ _ _ Hwf)). apply (wf_root _ _ _ Hwf).
Qed.

(** [table_for] with [create] changes no translation and no existing entry. *)
Lemma table_for_keeps root va user st T r st' :
  wf st root T -> table_for st root va true user = (r, st') ->
  exists T', wf st' root T' /\
    (forall va', translate st' root va' = translate st root va') /\
    (forall va' e, pte st root va' = Some e -> pte st' root va' = Some e) /\
    (forall B leaf node absent (R : B -> B -> Prop) S, view user leaf node absent R S -> forall va',
       R (walk leaf node absent 3 st (table_at root) va') (walk leaf node absent 3 st' (table_at root) va')) /\
    (r <> 0 -> T' !! (0%nat, pfx 0 va) = Some r) /\
    (forall g, fa_owned (frames st) g -> fa_owned (frames st') g /\
       ((forall k, T !! k <> Some g) -> forall k, T' !! k <> Some g)).
Proof.
  intros Hwf E. destruct (table_for_spec _ _ _ _ _ _ _ Hwf E) as (T' & Hex & Hr).
  exists T'. pose proof (ex_wf _ _ _ _ _ _ Hex) as Hwf'. split_and!; [done| | | |done|].
  - intros va'. unfold translate. rewrite (table_at_wf _ _ _ _ _ Hwf (wf_root _ _ _ Hwf)).
    apply (ex_translate _ _ _ _ _ _ Hex); [lia|]. rewrite pfx_top. apply (wf_root _ _ _ Hwf).
  - intros va' e He. destruct (pte_leaf_inv _ _ _ _ _ Hwf He) as (t & Ht & ->).
    erewrite pte_leaf; [|exact Hwf'|eapply lookup_weaken; [done|apply (ex_sub _ _ _ _ _ _ Hex)]].
    f_equal. by apply (ex_leaf _ _ _ _ _ _ Hex (pfx 0 va')).
  - intros B leaf node absent R S HV va'.
    rewrite (table_at_wf _ _ _ _ _ Hwf (wf_root _ _ _ Hwf)).
    apply (ex_view _ _ _ _ _ _ Hex _ _ _ _ _ _ HV); [lia|]. rewrite pfx_top. apply (wf_root _ _ _ Hwf).
  - intros g Hg. split; [by apply (ex_owned _ _ _ _ _ _ Hex)|].
    intros Hn k Hk. apply (ex_new _ _ _ _ _ _ Hex) in Hk as [Hk|Hk]; [by apply Hn in Hk|done].
Qed.

(** ** Ranges of pages *)

Definition page_base (va : Z) : Z := va / page_size * page_size.

(** The tables are a tree, whatever its shape. *)
Definition wf_space (st : state A) (root : Z) : Prop := exists T, wf st root T.

(** ... and the frames of [D] are in use, but not as tables. *)
Definition wf_data (st : state A) (root : Z) (D : gset Z) : Prop :=
  exists T, wf st root T /\ forall f, f ∈ D -> fa_owned (frames st) f /\ forall k, T !! k <> Some f.

Lemma wf_data_space st root D : wf_data st root D -> wf_space st root.
Proof. intros (T & HT & _). by exists T. Qed.

(** From [st] to [st'] the 4 KiB entry of every page of [a, b) became [v page], and
    nothing else can be told from the mappings. *)
Record rewritten (u : bool) (root : Z) (st st' : state A) (a b : Z) (v : Z -> Z) : Prop := {
  rw_wf : wf_space st' root;
  rw_in va : a <= va < b -> pte st' root va = Some (v (page_base va));
  rw_translate_in va : a <= va < b -> translate st' root va =
    let e := v (page_base va) in
    if is_present e then Z.land e pte_address_mask + Z.land va (page_size - 1) else 0;
  rw_out va : 0 <= va < 2 ^ 48 -> ~ a <= va < b -> translate st' root va = translate st root va;
  rw_pte_out va e : 0 <= va < 2 ^ 48 -> ~ a <= va < b ->
    pte st root va = Some e -> pte st' root va = Some e;
  rw_view B leaf node absent (R : B -> B -> Prop) S : view u leaf node absent R S ->
    forall va, 0 <= va < 2 ^ 48 -> ~ a <= va < b ->
    R (walk leaf node absent 3 st (table_at root) va) (walk leaf node absent 3 st' (table_at root) va);
  rw_data D : wf_data st root D -> wf_data st' root D
}.

Lemma rewritten_nil u root st a v : wf_space st root -> rewritten u root st st a a v.
Proof.
  intros. constructor; try done; try lia. intros * HV *. intros. apply (v_refl _ _ _ _ _ _ HV).
Qed.

Lemma rewritten_app u root st1 st2 st3 a b c v :
  0 <= a <= b -> b <= c <= 2 ^ 48 ->
  rewritten u root st1 st2 a b v -> rewritten u root st2 st3 b c v -> rewritten u root st1 st3 a c v.
Proof.
  intros Hab Hbc [W1 I1 T1 O1 P1 V1 D1] [W2 I2 T2 O2 P2 V2 D2]. constructor; [done|..].
  - intros va Hva. destruct (Z_lt_dec va b).
    + apply P2; [lia|lia|]. apply I1. lia.
    + apply I2. lia.
  - intros va Hva. destruct (Z_lt_dec va b).
    + rewrite O2 by lia. apply T1. lia.
    + apply T2. lia.
  - intros va Hva Hn. rewrite O2, O1 by lia. done.
  - intros va e Hva Hn He. apply P2; [lia|lia|]. apply P1; [lia|lia|done].
  - intros B leaf node absent R S HV va Hva Hn.
    apply (v_trans _ _ _ _ _ _ HV _ (walk leaf node absent 3 st2 (table_at root) va));
      [apply (V1 _ _ _ _ _ _ HV)|apply (V2 _ _ _ _ _ _ HV)]; lia.
  - auto.
Qed.

Lemma page_base_aligned a : a mod page_size = 0 -> page_base a = a.
Proof. unfold page_base, page_size. intros. dlia. Qed.

Lemma same_page_range a va : a mod page_size = 0 ->
  same_page a va <-> a <= va < a + page_size.
Proof. unfold same_page, page_size. intros. split; dlia. Qed.

Lemma same_page_base a va : a mod page_size = 0 -> a <= va < a + page_size -> page_base va = a.
Proof. unfold page_base, page_size. intros. dlia. Qed.

(** One turn of the three loops: find the leaf table, then write the entry. *)
Lemma page_step root st va user r st1 :
  wf_space st root -> 0 <= va -> va + page_size <= 2 ^ 48 -> va mod page_size = 0 ->
  table_for st root va true user = (r, st1) ->
  rewritten user root st st1 va va (fun _ => 0) /\
  (r <> 0 -> pte st1 root va = Some (entry st1 r (index_of va 0)) /\
    forall v, rewritten user root st (set_entry r (index_of va 0) (v va) st1) va (va + page_size) v).
Proof.
  intros [T Hwf] Hva Hva' Hal E. assert (page_size = 4096) as Hps by done.
  destruct (table_for_keeps _ _ _ _ _ _ _ Hwf E) as (T' & Hwf' & Htr & Hpte & Hview & Hr & _).
  split.
  { constructor; [by exists T'|lia|lia|auto|auto|by intros; eapply Hview|]. intros D (T1 & Hwf1 & HD).
    destruct (table_for_keeps _ _ _ _ _ _ _ Hwf1 E) as (T2 & Hwf2 & _ & _ & _ & _ & Hown).
    exists T2. split; [done|]. intros f Hf. destruct (HD f Hf) as [Ho Hn].
    destruct (Hown f Ho). eauto. }
  intros Hr0. specialize (Hr Hr0). split; [by eapply pte_leaf|]. intros v.
  destruct (leaf_write _ _ _ va r (v va) Hwf' Hr) as (Hw & Ht & Hp & Hv); [lia|].
  constructor; [by exists T'|..].
  - intros x Hx. rewrite Hp by lia. rewrite (same_page_base va x) by done.
    case_decide as Hd; [done|]. by apply same_page_range in Hx.
  - intros x Hx. rewrite Ht by lia. rewrite (same_page_base va x) by done. cbv zeta.
    case_decide as Hd; [done|]. by apply same_page_range in Hx.
  - intros x Hx Hn. rewrite Ht by lia. case_decide as Hd; [|done].
    by apply same_page_range in Hd.
  - intros x e Hx Hn He. rewrite Hp by lia. case_decide as Hd; [|auto].
    by apply same_page_range in Hd.
  - intros B leaf node absent R S HV x Hx Hn.
    rewrite Hv; [by eapply Hview|done|]. by intros Hd%same_page_range.
  - intros D (T1 & Hwf1 & HD).
    destruct (table_for_keeps _ _ _ _ _ _ _ Hwf1 E) as (T2 & Hwf2 & _ & _ & _ & Hr2 & Hown).
    exists T2. split; [by apply (leaf_write _ _ _ va r (v va) Hwf2 (Hr2 Hr0)); lia|].
    intros f Hf. destruct (HD f Hf) as [Ho Hn]. destruct (Hown f Ho). eauto.
Qed.

Lemma rewritten_ext u root st st' a b v v' :
  (forall va, a <= va < b -> v (page_base va) = v' (page_base va)) ->
  rewritten u root st st' a b v -> rewritten u root st st' a b v'.
Proof.
  intros Hv [W I T O P V D]. constructor; [done| | |done|done|done|done].
  - intros va Hva. rewrite <- Hv by done. by apply I.
  - intros va Hva. rewrite <- Hv by done. by apply T.
Qed.
(** The bytes the loops cover: the length in whole pages. *)
Definition span (length : Z) : Z := Z.of_nat (pages_of length) * page_size.

Section ranges.
Context (root address : Z).
Context (Haddress : 0 <= address) (Haligned : address mod page_size = 0).

Definition in_space (offset : Z) (n : nat) : Prop :=
  0 <= offset /\ offset mod page_size = 0 /\
  address + offset + Z.of_nat n * page_size <= 2 ^ 48.

Lemma in_space_head offset n : in_space offset (S n) ->
  u64 (address + offset) = address + offset /\ (address + offset) mod page_size = 0 /\
  address + offset + page_size <= 2 ^ 48 /\ in_space (offset + page_size) n.
Proof.
  unfold in_space, page_size in *. intros (? & ? & ?). split_and!; try lia; try dlia.
  apply u64_small. lia.
Qed.

(** Page [address + offset] rewritten, then [n] of those after it. *)
Lemma rewritten_cons u st st1 st2 offset n v :
  in_space offset (S n) ->
  rewritten u root st st1 (address + offset) (address + offset + page_size) v ->
  rewritten u root st1 st2 (address + (offset + page_size))
    (address + (offset + page_size) + Z.of_nat n * page_size) v ->
  rewritten u root st st2 (address + offset) (address + offset + Z.of_nat (S n) * page_size) v.
Proof.
  intros (? & ? & ?) R1 R2. unfold page_size in *.
  replace (address + offset + Z.of_nat (S n) * 4096)
    with (address + (offset + 4096) + Z.of_nat n * 4096) by lia.
  eapply rewritten_app; [| |exact R1|].
  - lia.
  - lia.
  - by rewrite <- (Z.add_assoc address).
Qed.

Lemma in_space_le offset n k : (k <= n)%nat -> in_space offset n -> in_space offset k.
Proof. unfold in_space, page_size. intros ? (? & ? & ?). split_and!; [done|done|lia]. Qed.

(** What every loop promises: a prefix of its pages is rewritten, all when it
    succeeds. *)
Definition loop_post (u : bool) (st st' : state A) (offset : Z) (n : nat) (ok : bool) (v : Z -> Z) : Prop :=
  exists k, (k <= n)%nat /\ (ok = true -> k = n) /\
  rewritten u root st st' (address + offset) (address + offset + Z.of_nat k * page_size) v.

Lemma loop_post_fail u st st' offset n v :
  rewritten u root st st' (address + offset) (address + offset) (fun _ => 0) ->
  loop_post u st st' offset n false v.
Proof.
  intros H1. exists 0%nat. split_and!; [lia|done|]. rewrite Z.mul_0_l, Z.add_0_r.
  eapply rewritten_ext; [|exact H1]. lia.
Qed.

Lemma loop_post_nil u st offset v : wf_space st root -> loop_post u st st offset 0 true v.
Proof.
  intros. exists 0%nat. split_and!; [lia|done|]. rewrite Z.mul_0_l, Z.add_0_r.
  by apply rewritten_nil.
Qed.

Lemma loop_post_cons u st st1 st2 offset n ok v :
  in_space offset (S n) ->
  rewritten u root st st1 (address + offset) (address + offset + page_size) v ->
  loop_post u st1 st2 (offset + page_size) n ok v -> loop_post u st st2 offset (S n) ok v.
Proof.
  intros Hsp H1 (k & Hk & Hok & H2). exists (S k). split_and!; [lia|naive_solver|].
  eapply rewritten_cons; [|done|done]. eapply in_space_le; [|done]. lia.
Qed.

Lemma map_loop_spec frame bits user n offset st ok st' :
  wf_space st root -> in_space offset n ->
  map_loop n offset st root address frame bits user = (ok, st') ->
  loop_post user st st' offset n ok
    (fun p => Z.lor (Z.land (u64 (frame + (p - address))) pte_address_mask) bits).
Proof.
  revert offset st. induction n as [|n IH]; intros offset st Hwf Hsp E; cbn [map_loop] in E.
  { injection E as <- <-. by apply loop_post_nil. }
  destruct (in_space_head _ _ Hsp) as (Hu & Ha & Hb & Hsp'). rewrite Hu in E.
  destruct (table_for st root (address + offset) true user) as [r st1] eqn:E1.
  assert (0 <= address + offset) as Hpos by (destruct Hsp; lia).
  destruct (page_step _ _ _ _ _ _ Hwf Hpos Hb Ha E1) as [Hf Hstep].
  destruct (Z.eqb_spec r 0) as [->|Hr].
  - injection E as <- <-. by apply loop_post_fail.
  - destruct (Hstep Hr) as [_ Hrw].
    specialize (Hrw (fun p => Z.lor (Z.land (u64 (frame + (p - address))) pte_address_mask) bits)).
    cbv beta in Hrw. replace (address + offset - address) with offset in Hrw by lia.
    eapply loop_post_cons; [done|exact Hrw|]. eapply IH; [apply (rw_wf _ _ _ _ _ _ _ Hrw)|done|done].
Qed.

Lemma unmap_loop_spec n offset st ok st' :
  wf_space st root -> in_space offset n ->
  unmap_loop n offset st root address = (ok, st') ->
  loop_post false st st' offset n ok (fun _ => 0).
Proof.
  revert offset st. induction n as [|n IH]; intros offset st Hwf Hsp E; cbn [unmap_loop] in E.
  { injection E as <- <-. by apply loop_post_nil. }
  destruct (in_space_head _ _ Hsp) as (Hu & Ha & Hb & Hsp'). rewrite Hu in E.
  destruct (table_for st root (address + offset) true false) as [r st1] eqn:E1.
  assert (0 <= address + offset) as Hpos by (destruct Hsp; lia).
  destruct (page_step _ _ _ _ _ _ Hwf Hpos Hb Ha E1) as [Hf Hstep].
  destruct (Z.eqb_spec r 0) as [->|Hr].
  - injection E as <- <-. by apply loop_post_fail.
  - destruct (Hstep Hr) as [_ Hrw]. specialize (Hrw (fun _ => 0)).
    eapply loop_post_cons; [done|exact Hrw|]. eapply IH; [apply (rw_wf _ _ _ _ _ _ _ Hrw)|done|done].
Qed.

(** The entry of a page and its translation agree. *)
Lemma pte_translate st va e :
  wf_space st root -> pte st root va = Some e -> is_present e = true ->
  translate st root va = Z.land e pte_address_mask + Z.land va (page_size - 1).
Proof.
  intros [T Hwf] He Hp. destruct (pte_leaf_inv _ _ _ _ _ Hwf He) as (t & Ht & ->).
  rewrite (translate_leaf _ _ _ _ _ Hwf Ht). cbn [translate_from]. change (Z.of_nat 0) with 0.
  by rewrite Hp.
Qed.

Lemma land_page_offset va : Z.land va (page_size - 1) = va mod page_size.
Proof. change (page_size - 1) with (Z.ones 12). by rewrite Z.land_ones by lia. Qed.

(** Every address of a present page translates by the page's offset. *)
Lemma present_page st va x e :
  wf_space st root -> va mod page_size = 0 -> va <= x < va + page_size ->
  pte st root va = Some e -> is_present e = true ->
  translate st root x = translate st root va + x mod page_size.
Proof.
  intros [T Hwf] Hal Hx He Hp. pose proof He as He'.
  destruct (pte_leaf_inv _ _ _ _ _ Hwf He) as (t & Ht & Et).
  assert (pte st root x = Some e) as Hxe.
  { apply same_page_range in Hx as [Hpf Hi]%same_page_pfx; [|done]. rewrite Hpf in Ht.
    by rewrite (pte_leaf _ _ _ _ _ Hwf Ht), Et, Hi. }
  rewrite (pte_translate st x e), (pte_translate st va e) by (done || by exists T).
  rewrite !land_page_offset, Hal. lia.
Qed.

(** [protect] keeps each page's frame: the new entry is the old translation with
    the new bits, and only pages that were mapped are reached. *)
Lemma protect_loop_spec bits user n offset st ok st' :
  wf_space st root -> in_space offset n ->
  protect_loop n offset st root address bits user = (ok, st') ->
  exists k, (k <= n)%nat /\ (ok = true -> k = n) /\
    rewritten user root st st' (address + offset) (address + offset + Z.of_nat k * page_size)
      (fun p => Z.lor (translate st root p) bits) /\
    (forall va, address + offset <= va < address + offset + Z.of_nat k * page_size ->
       translate st root va = translate st root (page_base va) + va mod page_size).
Proof.
  revert offset st. induction n as [|n IH]; intros offset st Hwf Hsp E; cbn [protect_loop] in E.
  { injection E as <- <-. destruct (loop_post_nil user _ offset (fun p => Z.lor (translate st root p) bits) Hwf)
      as (k & ? & ? & ?). exists k. split_and!; [done..|]. lia. }
  assert (forall st1, rewritten user root st st1 (address + offset) (address + offset) (fun _ => 0) ->
    exists k, (k <= S n)%nat /\ (false = true -> k = S n) /\
    rewritten user root st st1 (address + offset) (address + offset + Z.of_nat k * page_size)
      (fun p => Z.lor (translate st root p) bits) /\
    (forall va, address + offset <= va < address + offset + Z.of_nat k * page_size ->
       translate st root va = translate st root (page_base va) + va mod page_size)) as Hfail.
  { intros st1 Hf. exists 0%nat. split_and!; [lia|done| |lia].
    rewrite Z.mul_0_l, Z.add_0_r. eapply rewritten_ext; [|exact Hf]. lia. }
  destruct (in_space_head _ _ Hsp) as (Hu & Ha & Hb & Hsp'). rewrite Hu in E.
  destruct (table_for st root (address + offset) true user) as [r st1] eqn:E1.
  assert (0 <= address + offset) as Hpos by (destruct Hsp; lia).
  destruct (page_step _ _ _ _ _ _ Hwf Hpos Hb Ha E1) as [Hf Hstep].
  destruct (Z.eqb_spec r 0) as [->|Hr].
  { injection E as <- <-. by apply Hfail. }
  destruct (Hstep Hr) as [Hpte Hrw]. clear Hstep.
  destruct (is_present (entry st1 r (index_of (address + offset) 0))) eqn:Hp; simpl in E.
  2:{ injection E as <- <-. by apply Hfail. }
  specialize (Hrw (fun p => Z.lor (translate st root p) bits)). cbv beta in Hrw.
  assert (forall va, 0 <= va < 2 ^ 48 -> translate st1 root va = translate st root va) as Htr1.
  { intros va Hva. apply (rw_out _ _ _ _ _ _ _ Hf); lia. }
  assert (translate st root (address + offset)
    = Z.land (entry st1 r (index_of (address + offset) 0)) pte_address_mask) as Htr.
  { rewrite <- Htr1 by (unfold page_size in *; lia).
    rewrite (pte_translate st1 _ _ (rw_wf _ _ _ _ _ _ _ Hf) Hpte Hp).
    rewrite land_page_offset, Ha. lia. }
  rewrite Htr in Hrw.
  apply IH in E as (k & Hk & Hok & H2 & Hpg); [|apply (rw_wf _ _ _ _ _ _ _ Hrw)|done].
  set (st2 := set_entry _ _ _ st1) in *. clearbody st2.
  assert (forall va, address + (offset + page_size) <= va < 2 ^ 48 ->
    translate st2 root va = translate st root va) as Htr2.
  { intros va Hva. apply (rw_out _ _ _ _ _ _ _ Hrw); unfold page_size in *; lia. }
  destruct Hsp' as (? & ? & ?).
  exists (S k). split_and!; [lia|naive_solver| |].
  - eapply rewritten_cons; [eapply in_space_le; [|done]; lia|exact Hrw|].
    eapply rewritten_ext; [|exact H2]. intros va Hva. cbv beta. f_equal.
    apply Htr2. unfold page_base, page_size in *; dlia.
  - intros va Hva. destruct (Z_lt_dec va (address + offset + page_size)).
    + assert (page_base va = address + offset) as -> by (by apply same_page_base; [|lia]).
      rewrite <- !Htr1 by (unfold page_size in *; lia).
      by eapply present_page; [apply (rw_wf _ _ _ _ _ _ _ Hf)| |lia| |].
    + rewrite <- (Htr2 va), <- (Htr2 (page_base va)) by (unfold page_base, page_size in *; dlia).
      apply Hpg. unfold page_size in *. lia.
Qed.

End ranges.

Lemma in_space_start address length :
  0 <= address -> address + span length <= 2 ^ 48 -> in_space address 0 (pages_of length).
Proof. intros. unfold in_space, span in *. split_and!; [lia|done|lia]. Qed.

(** The frame bits of a whole page's translation. *)
Lemma translate_aligned st root T va :
  wf st root T -> va mod page_size = 0 ->
  Z.land (translate st root va) pte_address_mask = translate st root va.
Proof.
  intros Hwf Hva. unfold translate.
  assert (forall l t, (l <= 3)%nat -> T !! (l, pfx l va) = Some t ->
    Z.land (translate_from l st t va) pte_address_mask = translate_from l st t va) as Hlev.
  { induction l as [|l IH]; intros t Hl Ht; cbn [translate_from].
    - destruct (is_present _); [|done]. simpl negb. cbv iota.
      rewrite land_page_offset, Hva, Z.add_0_r. apply land_mask_idem.
    - pose proof (index_of_range va (Z.of_nat (S l)) ltac:(lia)) as Hi.
      pose proof (wf_next _ _ _ Hwf l _ t _ Ht Hi) as Hn. cbv zeta in Hn.
      rewrite <- pfx_step in Hn by lia.
      destruct (is_present _); [|done]. simpl negb. cbv iota.
      destruct (is_huge _).
      + destruct Hn as (_ & Hm & _). rewrite page_in_huge, land_page_offset, Hva, Z.add_0_r.
        pose proof (index_of_range va 0 ltac:(lia)).
        destruct (split_page_range _ (index_of va 0) Hm); [lia|].
        by apply land_mask_aligned.
      + by apply IH; [lia|]. }
  apply Hlev; [lia|]. rewrite pfx_top, (table_at_wf _ _ _ _ _ Hwf (wf_root _ _ _ Hwf)).
  apply (wf_root _ _ _ Hwf).
Qed.

(** ** The address space as a mapper *)

(** The kernel's [AddressSpace] object: its root and the tables. *)
Record space := Space { space_root : Z; space_tables : state A }.

Definition on_space {B} (s : space) (f : state A -> Z -> B * state A) : B * space :=
  let (r, st) := f (space_tables s) (space_root s) in (r, Space (space_root s) st).

#[global] Instance space_mapper : PageMapper space := {
  pm_alloc s := on_space s (fun st _ => let (f, a) := fa_alloc (frames st) in (f, mk (tables st) a));
  pm_free s f := Space (space_root s)
    (mk (tables (space_tables s)) (fa_free (frames (space_tables s)) f));
  pm_map s address frame length flags :=
    on_space s (fun st root => map st root address frame length flags);
  pm_unmap s address length := on_space s (fun st root => unmap st root address length);
  pm_protect s address length flags :=
    on_space s (fun st root => protect st root address length flags);
  pm_translate s va := translate (space_tables s) (space_root s) va;
  pm_wf s D := wf_data (space_tables s) (space_root s) D
}.

(** Only ownership of the tables' own frames matters to the tree. *)
Lemma wf_frames st a root T :
  wf st root T -> (forall k f, T !! k = Some f -> fa_owned a f) -> wf (mk (tables st) a) root T.
Proof.
  intros [W1 W2 W3 W4 W5] Hown. constructor; [done|done| |done|done].
  intros k f Hk. destruct (W3 k f Hk) as (_ & ? & ?). split; [by eapply Hown|done].
Qed.

Lemma span_pm length : 0 <= length -> span length = pm_span length.
Proof.
  intros. unfold span, pm_span, pages_of, page_size in *. rewrite Z2Nat.id; [done|]. dlia.
Qed.

(** A loop's outcome in the interface's terms. *)
Lemma loop_post_same u st root st' address length ok v D :
  loop_post root address u st st' 0 (pages_of length) ok v -> wf_data st root D ->
  pm_range address length ->
  wf_data st' root D /\
  (forall va, 0 <= va < 2 ^ 48 -> ~ address <= va < address + pm_span length ->
     translate st' root va = translate st root va).
Proof.
  intros (k & Hk & _ & Hrw) HD (? & ? & ? & ?). rewrite Z.add_0_r in Hrw.
  split; [by apply (rw_data _ _ _ _ _ _ _ Hrw)|]. intros va Hva Hn.
  apply (rw_out _ _ _ _ _ _ _ Hrw); [done|]. rewrite <- span_pm in Hn by done.
  unfold span, page_size in *. lia.
Qed.

#[global] Instance space_mapper_spec : PageMapperSpec space.
Proof.
  constructor; unfold pm_same; cbn [pm_alloc pm_free pm_map pm_unmap pm_protect pm_translate pm_wf space_mapper];
    unfold on_space.
  - intros [root st] D f m' (T & Hwf & HD) E. cbn [space_tables space_root] in *.
    destruct (fa_alloc (frames st)) as [g a] eqn:Ea. injection E as <- <-. cbn [space_tables space_root].
    split; [done|].
    assert (forall x, fa_owned (frames st) x -> fa_owned a x) as Hk by (intros; by eapply fa_alloc_keeps).
    assert (wf (mk (tables st) a) root T) as Hwf'.
    { apply wf_frames; [done|]. intros k x Hx. apply Hk. by apply (wf_frame _ _ _ Hwf) in Hx as [? _]. }
    destruct (Z.eqb_spec g 0) as [->|Hg].
    + exists T. split; [done|]. intros x Hx. destruct (HD x Hx). eauto.
    + pose proof (fa_alloc_fresh _ _ _ Ea Hg) as Hfresh.
      split; [|split; [intros Hin; by destruct (HD g Hin)|exact (fa_alloc_frame _ _ _ Ea Hg)]].
      exists T. split; [done|]. intros x [->%elem_of_singleton|Hx]%elem_of_union.
      * split; [exact (fa_alloc_owned _ _ _ Ea Hg)|exact (frame_fresh _ _ _ _ Hwf Hfresh)].
      * destruct (HD x Hx). eauto.
  - intros [root st] D f (T & Hwf & HD) Hf Hr Hal Hall. cbn [space_tables space_root] in *.
    split; [|done]. destruct (HD f Hf) as [_ HfT].
    assert (forall x, x mod page_size = 0 -> f <> x -> fa_owned (frames st) x ->
      fa_owned (fa_free (frames st) f) x) as Hk by (intros; apply fa_free_other; (done || lia)).
    exists T. split.
    + apply wf_frames; [done|]. intros k x Hx. pose proof (HfT k).
      destruct (wf_frame _ _ _ Hwf k x Hx) as (? & ? & ?). apply Hk; [done|congruence|done].
    + intros x [Hx Hne%not_elem_of_singleton]%elem_of_difference. destruct (HD x Hx).
      split; [apply Hk; auto|done].
  - intros [root st] D address frame length flags ok m' HD Hr Hf Hfa Hfs E.
    cbn [space_tables space_root] in *. pose proof (wf_data_space _ _ _ HD) as Hwf.
    destruct (map st root address frame length flags) as [b st'] eqn:Em. injection E as <- <-.
    cbn [space_tables space_root]. pose proof Hr as (Ha & Hal & Hl & Hs).
    apply map_loop_spec in Em; [|done|done|done|apply in_space_start; rewrite ?span_pm; lia].
    destruct (loop_post_same _ _ _ _ _ _ _ _ _ Em HD Hr) as [HD' Hout]. split_and!; [done|done|].
    intros -> va Hva. destruct Em as (k & _ & Hk & Hrw). rewrite Z.add_0_r, Hk in Hrw by done.
    rewrite <- (span_pm length) in * by done. fold (span length) in Hrw.
    rewrite (rw_translate_in _ _ _ _ _ _ _ Hrw) by done. cbv zeta.
    rewrite is_present_bit, Z.lor_spec, <- !is_present_bit, encode_present, orb_true_r.
    rewrite land_mask_lor, land_mask_idem by apply encode_mask.
    rewrite u64_small, land_mask_aligned, land_page_offset
      by (unfold page_base, page_size in *; dlia).
    unfold page_base, page_size in *. dlia.
  - intros [root st] D address length ok m' HD Hr E.
    cbn [space_tables space_root] in *. pose proof (wf_data_space _ _ _ HD) as Hwf.
    destruct (unmap st root address length) as [b st'] eqn:Em. injection E as <- <-.
    cbn [space_tables space_root]. pose proof Hr as (Ha & Hal & Hl & Hs).
    apply unmap_loop_spec in Em; [|done|done|done|apply in_space_start; rewrite ?span_pm; lia].
    destruct (loop_post_same _ _ _ _ _ _ _ _ _ Em HD Hr) as [HD' Hout]. split_and!; [done|done|].
    intros -> va Hva. destruct Em as (k & _ & Hk & Hrw). rewrite Z.add_0_r, Hk in Hrw by done.
    rewrite <- (span_pm length) in * by done. fold (span length) in Hrw.
    by rewrite (rw_translate_in _ _ _ _ _ _ _ Hrw).
  - intros [root st] D address length flags ok m' HD Hr E.
    cbn [space_tables space_root] in *. pose proof (wf_data_space _ _ _ HD) as [T Hwf].
    destruct (protect st root address length flags) as [b st'] eqn:Em. injection E as <- <-.
    cbn [space_tables space_root]. pose proof Hr as (Ha & Hal & Hl & Hs).
    apply protect_loop_spec in Em as (k & Hk & Hok & Hrw & Hpg);
      [|done|done|by exists T|apply in_space_start; rewrite ?span_pm; lia].
    rewrite Z.add_0_r in Hrw, Hpg. split; [by apply (rw_data _ _ _ _ _ _ _ Hrw)|].
    intros va Hva _.
    destruct (decide (address <= va < address + Z.of_nat k * page_size)) as [Hin|Hout].
    2:{ by apply (rw_out _ _ _ _ _ _ _ Hrw). }
    rewrite (rw_translate_in _ _ _ _ _ _ _ Hrw) by done. cbv zeta.
    rewrite is_present_bit, Z.lor_spec, <- !is_present_bit, encode_present, orb_true_r.
    rewrite land_mask_lor by apply encode_mask.
    rewrite (translate_aligned _ _ T) by (done || unfold page_base, page_size; dlia).
    rewrite land_page_offset. by rewrite (Hpg va).
Qed.

(** What a page keeps from [st] to [st']: the flags of the entry that maps it (up to the
    user bit when [u]), being writable and being executable; and it is no user page
    that was none unless [u]. *)
Record rights_kept (u : bool) (st st' : state A) (root va : Z) : Prop := {
  rk_flags : flags_kept u (leaf_flags st root va) (leaf_flags st' root va);
  rk_write : may_write st' root va = may_write st root va;
  rk_execute : may_execute st' root va = may_execute st root va;
  rk_user : u = false -> may_user st' root va = true -> may_user st root va = true
}.

Lemma rewritten_rights u root st st' a b v va :
  rewritten u root st st' a b v -> 0 <= va < 2 ^ 48 -> ~ a <= va < b ->
  rights_kept u st st' root va.
Proof.
  intros Hrw Hva Hn. pose proof (fun B l n x R S HV => rw_view _ _ _ _ _ _ _ Hrw B l n x R S HV va Hva Hn) as HV.
  constructor.
  - exact (HV _ _ _ _ _ _ (view_flags u)).
  - symmetry. exact (HV _ _ _ _ _ _ (view_write u)).
  - symmetry. exact (HV _ _ _ _ _ _ (view_execute u)).
  - intros ->. exact (HV _ _ _ _ _ _ view_no_user).
Qed.

(** C3: [map] on whole pages installs exactly the requested mapping.  When it
    succeeds, every address of the range translates to the corresponding physical
    address and its entry carries the encoded flags; when it runs out of table
    frames a prefix of the range has been mapped so.  In both cases every other
    address translates as before, its 4 KiB entry included, and the tables are still
    a tree of distinct owned frames, whatever 2 MiB mappings were split on the way: a
    page of a split mapping keeps the flags of its entry, stays writable or
    not and executable or not as it was.  Only the user bit can differ: it never spreads
    when the range is not mapped for user mode; with the user flag it may be set
    on other pages under the same tables ([user_bit_spreads_in_split]). *)
Theorem map_correct st root address frame length flags ok st' :
  wf_space st root -> 0 <= address -> address mod page_size = 0 ->
  0 <= frame -> frame mod page_size = 0 ->
  address + span length <= 2 ^ 48 -> frame + span length <= 2 ^ 52 ->
  map st root address frame length flags = (ok, st') ->
  wf_space st' root /\
  exists covered, 0 <= covered <= span length /\ (ok = true -> covered = span length) /\
    (forall va, address <= va < address + covered ->
       translate st' root va = frame + (va - address) /\
       pte st' root va = Some (Z.lor (frame + (page_base va - address)) (encode flags))) /\
    (forall va, 0 <= va < 2 ^ 48 -> ~ address <= va < address + covered ->
       translate st' root va = translate st root va /\
       rights_kept (has flags PageFlags_User) st st' root va /\
       (forall e, pte st root va = Some e -> pte st' root va = Some e)).
Proof.
  intros Hwf Ha Hal Hf Hfal Hsa Hsf E.
  apply map_loop_spec in E as (k & Hk & Hok & Hrw); [|done|done|done|by apply in_space_start].
  rewrite Z.add_0_r in Hrw. split; [apply (rw_wf _ _ _ _ _ _ _ Hrw)|].
  exists (Z.of_nat k * page_size). unfold span in *. unfold page_size in Hsa, Hsf |- *.
  split; [lia|]. split; [intros; f_equal; f_equal; auto|]. split.
  - intros va Hva.
    assert (Z.land (u64 (frame + (page_base va - address))) pte_address_mask
      = frame + (page_base va - address)) as Hpa.
    { rewrite u64_small by (unfold page_base, page_size in *; dlia).
      apply land_mask_aligned; unfold page_base, page_size in *; dlia. }
    rewrite (rw_in _ _ _ _ _ _ _ Hrw), (rw_translate_in _ _ _ _ _ _ _ Hrw) by done. cbv zeta.
    rewrite is_present_bit, Z.lor_spec, <- !is_present_bit, encode_present, orb_true_r.
    rewrite land_mask_lor, land_mask_idem, Hpa by apply encode_mask. split; [|done].
    rewrite land_page_offset. unfold page_base, page_size in *. dlia.
  - intros va Hva Hn. split; [by apply (rw_out _ _ _ _ _ _ _ Hrw)|].
    split; [by eapply rewritten_rights|]. intros e. by apply (rw_pte_out _ _ _ _ _ _ _ Hrw).
Qed.


(** [protect] changes permissions and nothing else: every address of the address
    space keeps its translation, the pages it reached carry exactly the frame they had
    with the encoded flags, and every other page keeps its 4 KiB entry. *)
Theorem protect_correct st root address length flags ok st' :
  wf_space st root -> 0 <= address -> address mod page_size = 0 ->
  address + span length <= 2 ^ 48 ->
  protect st root address length flags = (ok, st') ->
  wf_space st' root /\
  exists covered, 0 <= covered <= span length /\ (ok = true -> covered = span length) /\
    (forall va, address <= va < address + covered ->
       pte st' root va = Some (Z.lor (translate st root (page_base va)) (encode flags)) /\
       translate st' root va = translate st root va) /\
    (forall va, 0 <= va < 2 ^ 48 -> ~ address <= va < address + covered ->
       translate st' root va = translate st root va /\
       rights_kept (has flags PageFlags_User) st st' root va /\
       (forall e, pte st root va = Some e -> pte st' root va = Some e)).
Proof.
  intros Hwf Ha Hal Hsa E. destruct Hwf as [T HT].
  apply protect_loop_spec in E as (k & Hk & Hok & Hrw & Hpg);
    [|done|done|by exists T|by apply in_space_start].
  rewrite Z.add_0_r in Hrw. split; [apply (rw_wf _ _ _ _ _ _ _ Hrw)|].
  exists (Z.of_nat k * page_size). unfold span in *. unfold page_size in Hsa |- *.
  split; [lia|]. split; [intros; f_equal; f_equal; auto|]. split.
  - intros va Hva. split; [by apply (rw_in _ _ _ _ _ _ _ Hrw)|].
    rewrite (rw_translate_in _ _ _ _ _ _ _ Hrw) by done. cbv zeta.
    rewrite is_present_bit, Z.lor_spec, <- !is_present_bit, encode_present, orb_true_r.
    rewrite land_mask_lor by apply encode_mask.
    rewrite (translate_aligned _ _ T) by (done || unfold page_base, page_size; dlia).
    rewrite land_page_offset. rewrite Z.add_0_r in Hpg. by rewrite (Hpg va).
  - intros va Hva Hn. split; [by apply (rw_out _ _ _ _ _ _ _ Hrw)|].
    split; [by eapply rewritten_rights|]. intros e. by apply (rw_pte_out _ _ _ _ _ _ _ Hrw).
Qed.

End correctness.
