(* ===== verification/Stacks.v ===== *)
(** * Guarded stacks (src/kernel/cpu/stacks.cpp)

    Three exception stacks and the boot stack, each with a guard page at its low
    end.  Before paging the guard holds a pattern in memory, afterwards it is a hole
    in the page tables.  Where the linker puts the stacks is a parameter. *)

From S2P Require Import Prelude Interfaces Memory Paging.

Definition exception_stack_size : Z := 16 * page_size.
Definition guard_pattern : Z := 0xA5.
Definition exception_stacks : Z := 3.

(** The addresses of [stacks] and of [boot_stack_guard]. *)
Record layout := { stacks_at : Z; boot_stack_guard : Z }.

Definition GuardedStack_size : Z := page_size + exception_stack_size.

#[local] Open Scope string_scope.
#[local] Open Scope Z_scope.

Definition stack_names (i : Z) : string :=
  if i =? 0 then "double fault"
  else if i =? 1 then "nmi"
  else if i =? 2 then "machine check"
  else "kernel".

Definition guard_of (L : layout) (index : Z) : Z :=
  if index <? exception_stacks then stacks_at L + index * GuardedStack_size
  else boot_stack_guard L.

(** Memory and the flag [guards_unmapped]; reading outside memory is a fault. *)
Fixpoint guard_intact_loop (n : nat) (m : memory) (guard : Z) : option bool :=
  match n with
  | O => Some true
  | S n' => b ← m !! guard;
            if negb (b =? guard_pattern) then Some false
            else guard_intact_loop n' m (guard + 1)
  end.

Definition guard_intact (L : layout) (m : memory) (guards_unmapped : bool) (index : Z) :
    option bool :=
  if guards_unmapped then Some true
  else guard_intact_loop (Z.to_nat page_size) m (guard_of L index).

Definition exception_stacks_init (L : layout) (m : memory) : option memory :=
  for_o 0 (exception_stacks + 1) (fun i m => memset m (guard_of L i) guard_pattern page_size) m.

Definition exception_stack_top (L : layout) (ist_index : Z) : Z :=
  if (ist_index =? 0) || (exception_stacks <? ist_index) then 0
  else stacks_at L + (ist_index - 1) * GuardedStack_size + page_size + exception_stack_size.

(** The scans over the four guards, from guard [i] on. *)
Fixpoint intact_scan (n : nat) (i : Z) (L : layout) (m : memory) (unmapped : bool) :
    option (option Z) :=
  match n with
  | O => Some None
  | S n' => ok ← guard_intact L m unmapped i;
            if negb ok then Some (Some i) else intact_scan n' (i + 1) L m unmapped
  end.

Definition stack_guards_intact (L : layout) (m : memory) (unmapped : bool) : option bool :=
  r ← intact_scan 4 0 L m unmapped; Some (match r with Some _ => false | None => true end).

Definition overflowed_stack_name (L : layout) (m : memory) (unmapped : bool) :
    option (option string) :=
  r ← intact_scan 4 0 L m unmapped; Some (option_map stack_names r).

Fixpoint owner_scan (n : nat) (i : Z) (L : layout) (page : Z) : option string :=
  match n with
  | O => None
  | S n' => if guard_of L i =? page then Some (stack_names i) else owner_scan n' (i + 1) L page
  end.

Definition guard_page_owner (L : layout) (address : Z) : option string :=
  let page := Z.land address (not64 (page_size - 1)) in
  owner_scan 4 0 L page.

Section unmap.
Context {A : Type} `{FrameAllocator A}.

(** The result of [unmap] is ignored; [true] is the new [guards_unmapped]. *)
Definition unmap_stack_guards (L : layout) (root : Z) (st : Paging.state A) :
    bool * Paging.state A :=
  let st := for_z 0 (exception_stacks + 1)
              (fun i st => (unmap st root (guard_of L i) page_size).2) st in
  (true, st).
End unmap.

(** ** Properties *)

(** Page aligned stacks below the direct map's end, none overlapping another. *)
Record layout_ok (L : layout) : Prop := {
  lo_stacks : 0 <= stacks_at L /\ stacks_at L + 3 * GuardedStack_size <= 2 ^ 30;
  lo_boot : 0 <= boot_stack_guard L /\ boot_stack_guard L + page_size <= 2 ^ 30;
  lo_align : stacks_at L mod page_size = 0 /\ boot_stack_guard L mod page_size = 0;
  lo_apart : boot_stack_guard L + page_size <= stacks_at L \/
             stacks_at L + 3 * GuardedStack_size <= boot_stack_guard L
}.

(** [va] lies in one of the four guard pages. *)
Definition in_guard (L : layout) (va : Z) : Prop :=
  exists i, 0 <= i < 4 /\ guard_of L i <= va < guard_of L i + page_size.

Lemma GuardedStack_size_eq : GuardedStack_size = 17 * 4096.
Proof. reflexivity. Qed.

Lemma guard_of_ok L i : layout_ok L -> 0 <= i < 4 ->
  0 <= guard_of L i /\ guard_of L i + page_size <= 2 ^ 30 /\ guard_of L i mod page_size = 0.
Proof.
  intros [Hs Hb Ha _] Hi. pose proof GuardedStack_size_eq as HG. unfold guard_of, exception_stacks, page_size in *.
  rewrite HG in *. destruct (Z.ltb_spec i 3); [|lia]. split_and!; [lia|lia|].
  rewrite (Z.mod_divide _ 4096) by lia. destruct Ha as [Ha _].
  apply Z.mod_divide in Ha as [q Hq]; [|lia]. exists (q + i * 17). lia.
Qed.

Lemma guard_of_apart L i j : layout_ok L -> 0 <= i < 4 -> 0 <= j < 4 -> i <> j ->
  guard_of L i + page_size <= guard_of L j \/ guard_of L j + page_size <= guard_of L i.
Proof.
  intros [Hs Hb Ha Hx] Hi Hj Hne. pose proof GuardedStack_size_eq as HG.
  unfold guard_of, exception_stacks, page_size in *. rewrite HG in *.
  destruct (Z.ltb_spec i 3), (Z.ltb_spec j 3); lia.
Qed.

(** The scan finds the first damaged guard. *)
Lemma guard_intact_loop_spec n m guard :
  Memory.mapped m guard (Z.of_nat n) ->
  exists r, guard_intact_loop n m guard = Some r /\
    (r = true <-> forall i, 0 <= i < Z.of_nat n -> m !! (guard + i) = Some guard_pattern).
Proof.
  revert guard. induction n as [|n IH]; intros guard Hm; cbn [guard_intact_loop].
  { exists true. split; [done|]. split; [lia|done]. }
  destruct (Hm 0) as [b Hb]; [lia|]. rewrite Z.add_0_r in Hb. rewrite Hb. simpl.
  destruct (Z.eqb_spec b guard_pattern) as [->|Hne]; simpl.
  - destruct (IH (guard + 1)) as (r & Hr & Hspec).
    { intros i Hi. destruct (Hm (i + 1)) as [x Hx]; [lia|]. exists x. rewrite <- Hx. f_equal. lia. }
    exists r. split; [done|]. rewrite Hspec. split; intros Hall i Hi.
    + destruct (Z.eq_dec i 0) as [->|]; [by rewrite Z.add_0_r|].
      rewrite <- (Hall (i - 1)) by lia. f_equal. lia.
    + rewrite <- (Hall (i + 1)) by lia. f_equal. lia.
  - exists false. split; [done|]. split; [done|]. intros Hall.
    specialize (Hall 0 ltac:(lia)). rewrite Z.add_0_r in Hall. congruence.
Qed.

Lemma intact_scan_spec L m n i :
  0 <= i -> i + Z.of_nat n = 4 -> (forall k, 0 <= k < 4 -> Memory.mapped m (guard_of L k) page_size) ->
  exists r, intact_scan n i L m false = Some r /\
    match r with
    | Some k => i <= k < 4 /\ (exists x, 0 <= x < page_size /\
                                  m !! (guard_of L k + x) <> Some guard_pattern)
    | None => forall k x, i <= k < 4 -> 0 <= x < page_size ->
                m !! (guard_of L k + x) = Some guard_pattern
    end.
Proof.
  revert i. induction n as [|n IH]; intros i Hi Hn Hm; cbn [intact_scan].
  { exists None. split; [done|]. lia. }
  unfold guard_intact.
  destruct (guard_intact_loop_spec (Z.to_nat page_size) m (guard_of L i)) as (r & -> & Hr).
  { rewrite Z2Nat.id by done. apply Hm. lia. }
  rewrite Z2Nat.id in Hr by done. simpl. destruct r; simpl.
  - destruct (IH (i + 1)) as (r & Hr' & Hspec); [lia|lia|done|]. exists r. split; [done|].
    destruct r as [k|].
    + destruct Hspec. split; [lia|done].
    + intros k x Hk Hx. destruct (Z.eq_dec k i) as [->|]; [by apply Hr|]. apply Hspec; lia.
  - exists (Some i). split; [done|]. split; [lia|].
    destruct (decide (Forall (fun x => m !! (guard_of L i + x) = Some guard_pattern)
                             (seqZ 0 page_size))) as [Hall|Hnot].
    + exfalso. assert (false = true) as [=]. apply Hr. intros x Hx.
      rewrite list.Forall_forall in Hall. apply Hall. apply elem_of_seqZ. lia.
    + apply not_Forall_Exists in Hnot; [|apply _]. apply list.Exists_exists in Hnot as (x & Hx & Hne).
      apply elem_of_seqZ in Hx. exists x. split; [lia|done].
Qed.

(** Before paging, [overflowed_stack_name] names a stack exactly when some byte of
    a guard page lost the pattern, and the guard page of the stack it names is
    damaged; [stack_guards_intact] says the same as a boolean. *)
Theorem overflow_detected L m :
  (forall k, 0 <= k < 4 -> Memory.mapped m (guard_of L k) page_size) ->
  (stack_guards_intact L m false = Some true <->
     forall k x, 0 <= k < 4 -> 0 <= x < page_size -> m !! (guard_of L k + x) = Some guard_pattern) /\
  exists name, overflowed_stack_name L m false = Some name /\
    match name with
    | None => stack_guards_intact L m false = Some true
    | Some s => stack_guards_intact L m false = Some false /\
        exists k x, 0 <= k < 4 /\ 0 <= x < page_size /\ s = stack_names k /\
          m !! (guard_of L k + x) <> Some guard_pattern
    end.
Proof.
  intros Hm. unfold stack_guards_intact, overflowed_stack_name.
  destruct (intact_scan_spec L m 4 0) as (r & -> & Hr); [lia|done|done|]. simpl.
  destruct r as [k|]; simpl.
  - destruct Hr as (Hk & x & Hx & Hne). split; [split; [done|]|].
    + intros Hall. by rewrite Hall in Hne.
    + exists (Some (stack_names k)). split; [done|]. split; [done|]. by exists k, x.
  - split; [split; [|done]|].
    + intros _ k x Hk Hx. by apply Hr.
    + by exists None.
Qed.

Lemma guards_memset L m i :
  layout_ok L -> 0 <= i <= 4 -> (forall k, 0 <= k < 4 -> Memory.mapped m (guard_of L k) page_size) ->
  exists m', for_o 0 i (fun i m => memset m (guard_of L i) guard_pattern page_size) m = Some m' /\
    (forall k, 0 <= k < 4 -> Memory.mapped m' (guard_of L k) page_size) /\
    (forall k x, 0 <= k < i -> 0 <= x < page_size -> m' !! (guard_of L k + x) = Some guard_pattern).
Proof.
  intros HL Hi Hm. apply (for_o_ind (fun j m' =>
    (forall k, 0 <= k < 4 -> Memory.mapped m' (guard_of L k) page_size) /\
    (forall k x, 0 <= k < j -> 0 <= x < page_size -> m' !! (guard_of L k + x) = Some guard_pattern))).
  - lia.
  - split; [done|lia].
  - intros j m1 Hj [Hm1 Hpat].
    destruct (memset_spec m1 (guard_of L j) guard_pattern page_size) as (m2 & E & Hm2);
      [done|apply Hm1; lia|]. exists m2. split; [done|]. split.
    + intros k Hk x Hx. destruct (Z.eq_dec k j) as [->|Hne].
      * rewrite Hm2, bool_decide_eq_true_2 by lia. eauto.
      * rewrite Hm2, bool_decide_eq_false_2 by (destruct (guard_of_apart L k j HL); lia).
        by apply Hm1.
    + intros k x Hk Hx. destruct (Z.eq_dec k j) as [->|Hne].
      * by rewrite Hm2, bool_decide_eq_true_2 by lia.
      * rewrite Hm2, bool_decide_eq_false_2 by (destruct (guard_of_apart L k j HL); lia).
        apply Hpat; lia.
Qed.

(** [exception_stacks_init] arms every guard: after it no stack is reported as
    overflowed. *)
Theorem guards_armed L m :
  layout_ok L -> (forall k, 0 <= k < 4 -> Memory.mapped m (guard_of L k) page_size) ->
  exists m', exception_stacks_init L m = Some m' /\
    stack_guards_intact L m' false = Some true /\ overflowed_stack_name L m' false = Some None.
Proof.
  intros HL Hm. destruct (guards_memset L m 4 HL ltac:(lia) Hm) as (m' & E & Hm' & Hpat).
  exists m'. split; [exact E|]. unfold stack_guards_intact, overflowed_stack_name.
  destruct (intact_scan_spec L m' 4 0) as (r & -> & Hr); [lia|done|done|].
  destruct r as [k|]; [|done]. destruct Hr as (Hk & x & Hx & []). by apply Hpat.
Qed.

(** ** The guards in the page tables *)

Section unmapped.
Context {A : Type} `{FrameAllocatorSpec A}.

Lemma span_page : span page_size = page_size.
Proof. reflexivity. Qed.

(** Removing the guards: an address either keeps its translation, or it is in a
    guard page and has none. *)
Lemma unmap_stack_guards_spec L root (st : Paging.state A) :
  layout_ok L -> wf_space st root ->
  let st' := (unmap_stack_guards L root st).2 in
  wf_space st' root /\
  (forall va, 0 <= va < 2 ^ 48 -> ~ in_guard L va ->
     translate st' root va = translate st root va /\
     forall e, pte st root va = Some e -> pte st' root va = Some e) /\
  (forall va, in_guard L va ->
     translate st' root va = translate st root va \/ translate st' root va = 0).
Proof.
  intros HL Hwf. unfold unmap_stack_guards. cbv zeta. simpl snd.
  apply (for_z_ind (fun _ (st' : Paging.state A) => wf_space st' root /\
    (forall va, 0 <= va < 2 ^ 48 -> ~ in_guard L va ->
       translate st' root va = translate st root va /\
       forall e, pte st root va = Some e -> pte st' root va = Some e) /\
    (forall va, in_guard L va ->
       translate st' root va = translate st root va \/ translate st' root va = 0))).
  - done.
  - split; [done|]. split; [done|]. intros; by left.
  - intros i s Hi (Hws & Hout & Hin).
    destruct (guard_of_ok L i HL ltac:(done)) as (Hg & Hge & Hga).
    destruct (unmap s root (guard_of L i) page_size) as [ok s'] eqn:E. simpl.
    unfold unmap in E.
    apply unmap_loop_spec in E as (k & Hk & Hok & Hrw);
      [|done|done|done|apply in_space_start; rewrite ?span_page; lia].
    rewrite Z.add_0_r in Hrw. change (pages_of page_size) with 1%nat in *.
    split; [apply (rw_wf _ _ _ _ _ _ _ Hrw)|]. split.
    + intros va Hva Hnot.
      assert (~ guard_of L i <= va < guard_of L i + Z.of_nat k * page_size) as Hn.
      { intros Hx. apply Hnot. exists i. unfold page_size in *. split; [done|lia]. }
      destruct (Hout va Hva Hnot) as [<- Hp].
      split; [by apply (rw_out _ _ _ _ _ _ _ Hrw)|]. intros e He.
      apply (rw_pte_out _ _ _ _ _ _ _ Hrw); auto.
    + intros va Hva.
      destruct (decide (guard_of L i <= va < guard_of L i + Z.of_nat k * page_size)) as [Hx|Hx].
      * right. by rewrite (rw_translate_in _ _ _ _ _ _ _ Hrw).
      * rewrite (rw_out _ _ _ _ _ _ _ Hrw); [auto| |done].
        destruct Hva as (j & Hj & ?). destruct (guard_of_ok L j HL Hj) as (? & ? & ?).
        change (2 ^ 48) with 281474976710656. change (2 ^ 30) with 1073741824 in *. lia.
Qed.

End unmapped.

(** ** A concrete layout *)

Definition demo_layout : layout := {| stacks_at := 0x200000; boot_stack_guard := 0x300000 |}.

Lemma demo_layout_ok : layout_ok demo_layout.
Proof. constructor; vm_compute; [by split..|by left + by right]. Qed.

(** Four megabytes of memory. *)
Definition demo_memory : memory := zero_memory 0 0x400000.

Lemma demo_memory_mapped k : 0 <= k < 4 -> Memory.mapped demo_memory (guard_of demo_layout k) page_size.
Proof.
  intros Hk i Hi. apply zero_memory_mapped. unfold page_size in Hi.
  assert (k = 0 \/ k = 1 \/ k = 2 \/ k = 3) as [->|[->|[->| ->]]] by lia;
    unfold guard_of, demo_layout, exception_stacks, GuardedStack_size, exception_stack_size,
      page_size; simpl; lia.
Qed.

Lemma demo_memory_lookup a v : demo_memory !! a = Some v -> v = 0.
Proof. unfold demo_memory. apply zero_memory_lookup. Qed.

Lemma guards_armed_witness :
  exists m', exception_stacks_init demo_layout demo_memory = Some m' /\
    overflowed_stack_name demo_layout m' false = Some None.
Proof.
  destruct (guards_armed demo_layout demo_memory demo_layout_ok demo_memory_mapped)
    as (m' & E & _ & Ho). exists m'. split; [exact E|exact Ho].
Defined.

Lemma overflow_detected_witness :
  exists s, overflowed_stack_name demo_layout demo_memory false = Some (Some s).
Proof.
  destruct (overflow_detected demo_layout demo_memory demo_memory_mapped)
    as ([Hi _] & name & E & Hn).
  destruct name as [s|]; [exists s; exact E|]. exfalso.
  specialize (Hi Hn 0 0 ltac:(lia) ltac:(unfold page_size; lia)).
  apply demo_memory_lookup in Hi. unfold guard_pattern in Hi. lia.
Defined.
