(* ===== verification/PagingInit.v ===== *)
(** * Bringing up the kernel address space (paging_init of src/kernel/mm/paging.cpp)

    The linker's section addresses are a parameter.  Loading CR3 and the control
    register bits are not part of the state. *)

From S2P Require Import Prelude Interfaces Memory PageAlloc Paging Stacks.

(** The linker symbols [paging_init] reads. *)
Record image := {
  kernel_start : Z; text_start : Z; text_end : Z;
  rodata_start : Z; rodata_end : Z; data_start : Z; data_end : Z
}.

Section init.
Context {A : Type} `{FrameAllocator A}.
Implicit Types st : Paging.state A.

(** The 2 MiB entries of the direct map; the loop stops at [direct_limit]. *)
Fixpoint direct_loop (n : nat) (i : Z) (directory : Z) st : Paging.state A :=
  match n with
  | O => st
  | S n' =>
    let frame := i * huge_page_size in
    if direct_limit <=? frame then st
    else direct_loop n' (i + 1) directory
           (set_entry directory i
              (Z.lor (Z.lor (Z.lor (Z.lor frame pte_present) pte_write) pte_huge)
                     pte_no_execute) st)
  end.

(** The tables before the image gets its permissions; [None] is the panic. *)
Definition direct_map st : option (Z * Paging.state A) :=
  let (pml4, st) := allocate_table st in
  if pml4 =? 0 then None
  else
    let (pdpt, st) := allocate_table st in
    let (directory, st) := allocate_table st in
    if (pdpt =? 0) || (directory =? 0) then None
    else
      let st := set_entry pml4 0 (Z.lor (Z.lor (virt_to_phys pdpt) pte_present) pte_write) st in
      let st := set_entry pdpt 0
                  (Z.lor (Z.lor (virt_to_phys directory) pte_present) pte_write) st in
      Some (pml4, direct_loop (Z.to_nat entries_per_table) 0 directory st).

(** [kernel_space.map(start, virt_to_phys(start), end - start, flags)], result
    ignored. *)
Definition map_section (root start end_ flags : Z) st : Paging.state A :=
  (map st root start (virt_to_phys start) (u64 (end_ - start)) flags).2.

(** The new root, [guards_unmapped] and the tables. *)
Definition paging_init (I : image) (L : layout) st : option (Z * bool * Paging.state A) :=
  '(root, st) ← direct_map st;
  let st := map_section root (kernel_start I) (text_start I) PageFlags_NoExecute st in
  let st := map_section root (text_start I) (text_end I) PageFlags_None st in
  let st := map_section root (rodata_start I) (rodata_end I) PageFlags_NoExecute st in
  let st := map_section root (data_start I) (data_end I)
              (flags_or PageFlags_Write PageFlags_NoExecute) st in
  let (unmapped, st) := unmap_stack_guards L root st in
  Some (root, unmapped, st).
End init.

(** ** The direct map *)

Definition direct_entry (i : Z) : Z :=
  Z.lor (Z.lor (Z.lor (Z.lor (i * huge_page_size) pte_present) pte_write) pte_huge)
        pte_no_execute.

Lemma direct_frame_bits i k : 0 <= k < 21 -> Z.testbit (i * huge_page_size) k = false.
Proof.
  intros Hk. apply (testbit_mod_low _ 21); [done|]. change huge_page_size with (2 ^ 21).
  apply Z.mod_mul. lia.
Qed.

Lemma direct_entry_present i : is_present (direct_entry i) = true.
Proof.
  rewrite is_present_bit. unfold direct_entry. rewrite !Z.lor_spec.
  change (Z.testbit pte_present 0) with true. by rewrite !orb_true_r.
Qed.

Lemma direct_entry_huge i : is_huge (direct_entry i) = true.
Proof.
  rewrite is_huge_bit. unfold direct_entry. rewrite !Z.lor_spec.
  change (Z.testbit pte_huge 7) with true. by rewrite !orb_true_r.
Qed.

Lemma direct_entry_address i : 0 <= i < 512 ->
  Z.land (direct_entry i) pte_address_mask = i * huge_page_size.
Proof.
  intros Hi. unfold direct_entry. rewrite !land_mask_lor by reflexivity.
  apply land_mask_aligned; unfold huge_page_size, page_size; [lia|].
  replace (i * (2 * 1024 * 1024)) with (i * 512 * 4096) by lia. apply Z.mod_mul. lia.
Qed.

Section correctness.
Context {A : Type} `{FrameAllocatorSpec A}.
Implicit Types st : Paging.state A.

Lemma direct_loop_spec n i t st : 0 <= i -> i + Z.of_nat n <= 512 ->
  let st' := direct_loop n i t st in
  frames st' = frames st /\
  (forall t' j, t' <> t \/ j < i -> entry st' t' j = entry st t' j) /\
  (forall j, i <= j < i + Z.of_nat n -> entry st' t j = direct_entry j).
Proof.
  revert i st. induction n as [|n IH]; intros i st Hi Hn; cbn [direct_loop]; fold (direct_entry i).
  { split_and!; [done|done|lia]. }
  destruct (Z.leb_spec direct_limit (i * huge_page_size)) as [Hd|Hd].
  { change direct_limit with (512 * 2097152) in Hd.
    change huge_page_size with 2097152 in Hd. lia. }
  destruct (IH (i + 1) (set_entry t i (direct_entry i) st) ltac:(lia) ltac:(lia))
    as (Hf & Hout & Hin). cbv zeta.
  split_and!; [exact Hf| |].
  - intros t' j Hne.
    rewrite (Hout t' j) by (destruct Hne; [by left|right; lia]).
    apply entry_set_entry_ne. destruct Hne; [left; congruence|right; lia].
  - intros j Hj. destruct (Z.eq_dec j i) as [->|].
    + rewrite (Hout t i) by (right; lia). apply entry_set_entry_eq.
    + apply Hin. lia.
Qed.

(** The tree [paging_init] starts from. *)
Definition boot_tree (pml4 pdpt directory : Z) : gmap (nat * Z) Z :=
  <[(3%nat, 0) := pml4]> (<[(2%nat, 0) := pdpt]> (<[(1%nat, 0) := directory]> ∅)).

Lemma boot_tree_lookup a b c k f : boot_tree a b c !! k = Some f ->
  (k = (3%nat, 0) /\ f = a) \/ (k = (2%nat, 0) /\ f = b) \/ (k = (1%nat, 0) /\ f = c).
Proof.
  unfold boot_tree. rewrite !lookup_insert, lookup_empty. intros E.
  repeat case_decide; simplify_eq; auto.
Qed.

Lemma boot_tree_none a b c l p : (l = 0)%nat \/ p <> 0 -> boot_tree a b c !! (l, p) = None.
Proof.
  intros Hp. destruct (boot_tree a b c !! (l, p)) eqn:E; [|done].
  apply boot_tree_lookup in E. destruct Hp; naive_solver.
Qed.

(** The tables the three allocations and the four stores leave. *)
Record boot_tables st (pml4 pdpt dir : Z) : Prop := {
  bt_frames : Forall (fun f => fa_owned (frames st) f /\ 0 < f < 2 ^ 52 /\ f mod page_size = 0)
                     [pml4; pdpt; dir];
  bt_distinct : pml4 <> pdpt /\ pml4 <> dir /\ pdpt <> dir;
  bt_pml4 j : 0 <= j < 512 -> entry st pml4 j = if j =? 0 then link_entry pdpt else 0;
  bt_pdpt j : 0 <= j < 512 -> entry st pdpt j = if j =? 0 then link_entry dir else 0;
  bt_dir j : 0 <= j < 512 -> entry st dir j = direct_entry j
}.

Lemma direct_map_tables st root st' :
  direct_map st = Some (root, st') -> exists pdpt dir, boot_tables st' root pdpt dir /\
    forall g, fa_owned (frames st) g -> fa_owned (frames st') g /\ g <> root /\ g <> pdpt /\ g <> dir.
Proof.
  unfold direct_map. destruct (allocate_table st) as [f1 st1] eqn:E1.
  destruct (Z.eqb_spec f1 0) as [|Hf1]; [done|].
  destruct (allocate_table st1) as [f2 st2] eqn:E2.
  destruct (allocate_table st2) as [f3 st3] eqn:E3.
  destruct (Z.eqb_spec f2 0) as [|Hf2]; [done|]. destruct (Z.eqb_spec f3 0) as [|Hf3]; [done|].
  simpl orb. cbv iota. intros E.
  apply allocate_table_spec in E1 as (K1 & [[? _]|(F1 & O1 & R1 & M1 & Z1 & X1)]); [congruence|].
  apply allocate_table_spec in E2 as (K2 & [[? _]|(F2 & O2 & R2 & M2 & Z2 & X2)]); [congruence|].
  apply allocate_table_spec in E3 as (K3 & [[? _]|(F3 & O3 & R3 & M3 & Z3 & X3)]); [congruence|].
  assert (f1 <> f2) by (intros ->; auto). assert (f1 <> f3) by (intros ->; auto).
  assert (f2 <> f3) by (intros ->; auto).
  set (st4 := set_entry f2 0 _ _) in E.
  destruct (direct_loop_spec (Z.to_nat entries_per_table) 0 f3 st4) as (Hf & Hout & Hin);
    [lia|done|]. set (st5 := direct_loop _ _ _ _) in *.
  clearbody st5. injection E as <- <-. change (Z.of_nat (Z.to_nat entries_per_table)) with 512 in Hin.
  exists f2, f3. split.
  2:{ intros g Hg. split; [rewrite Hf; unfold st4; cbn [frames set_entry]; auto|]. split_and!; intros ->; auto. }
  constructor.
  - rewrite Hf. unfold st4. cbn [frames set_entry]. rewrite !list.Forall_cons, list.Forall_nil.
    split_and!; auto; lia.
  - done.
  - intros j Hj. rewrite (Hout f1 j) by (by left). unfold st4.
    rewrite entry_set_entry_ne by (by left). destruct (Z.eqb_spec j 0) as [->|Hj0].
    + by rewrite entry_set_entry_eq.
    + rewrite entry_set_entry_ne by (right; done). rewrite X3, X2 by done. by apply Z1.
  - intros j Hj. rewrite (Hout f2 j) by (by left). unfold st4. destruct (Z.eqb_spec j 0) as [->|Hj0].
    + by rewrite entry_set_entry_eq.
    + rewrite !entry_set_entry_ne by (by (left + right)). rewrite X3 by done. by apply Z2.
  - intros j Hj. apply Hin. lia.
Qed.

Lemma boot_tables_wf st a b c : boot_tables st a b c -> wf st a (boot_tree a b c).
Proof.
  intros [Hfr (Hab & Hac & Hbc) Ha Hb Hc]. rewrite !list.Forall_cons, list.Forall_nil in Hfr.
  destruct Hfr as (Fa & Fb & Fc & _). constructor.
  - apply lookup_insert_eq.
  - intros k1 k2 f [[-> ->]|[[-> ->]|[-> ->]]]%boot_tree_lookup
      [[-> E]|[[-> E]|[-> E]]]%boot_tree_lookup; done.
  - intros k f [[-> ->]|[[-> ->]|[-> ->]]]%boot_tree_lookup; done.
  - intros l p f [[E ->]|[[E ->]|[E ->]]]%boot_tree_lookup Hl; injection E as -> ->;
      [lia|eexists; reflexivity..].
  - intros l p f i [[E ->]|[[E ->]|[E ->]]]%boot_tree_lookup Hi; injection E as -> ->; cbv zeta.
    + rewrite Ha by done. destruct (Z.eqb_spec i 0) as [->|Hi0].
      * destruct Fb as (_ & ? & ?).
        rewrite link_entry_present, link_entry_huge, link_entry_table by (done || lia). done.
      * change (is_present 0) with false. cbv iota. apply boot_tree_none. right. lia.
    + rewrite Hb by done. destruct (Z.eqb_spec i 0) as [->|Hi0].
      * destruct Fc as (_ & ? & ?).
        rewrite link_entry_present, link_entry_huge, link_entry_table by (done || lia). done.
      * change (is_present 0) with false. cbv iota. apply boot_tree_none. right. lia.
    + rewrite Hc, direct_entry_present, direct_entry_huge, direct_entry_address by done.
      split_and!; [done| |by apply boot_tree_none; left].
      apply Z.mod_mul. done.
Qed.

(** Translation through the boot tables: the identity on the first gigabyte. *)
Lemma boot_tables_translate st a b c va : boot_tables st a b c -> 0 <= va < 2 ^ 48 ->
  translate st a va = if decide (va < 2 ^ 30) then va else 0.
Proof.
  intros Hbt Hva. pose proof (boot_tables_wf _ _ _ _ Hbt) as Hwf.
  destruct Hbt as [Hfr (Hab & Hac & Hbc) Ha Hb Hc]. rewrite !list.Forall_cons, list.Forall_nil in Hfr.
  destruct Hfr as (Fa & (_ & Fb & Gb) & (_ & Fc & Gc) & _).
  unfold translate. rewrite (table_at_wf _ _ _ _ _ Hwf (wf_root _ _ _ Hwf)). cbn [translate_from].
  change (Z.of_nat 3) with 3. change (Z.of_nat 2) with 2. change (Z.of_nat 1) with 1.
  pose proof (index_of_range va 3 ltac:(lia)) as H3. pose proof (index_of_range va 2 ltac:(lia)) as H2.
  pose proof (index_of_range va 1 ltac:(lia)) as H1.
  pose proof (index_of_div va 3 ltac:(lia)) as D3. pose proof (index_of_div va 2 ltac:(lia)) as D2.
  pose proof (index_of_div va 1 ltac:(lia)) as D1.
  change (2 ^ (12 + 9 * 3)) with 549755813888 in D3. change (2 ^ (12 + 9 * 2)) with 1073741824 in D2.
  change (2 ^ (12 + 9 * 1)) with 2097152 in D1. change (2 ^ 48) with 281474976710656 in Hva.
  change (2 ^ 30) with 1073741824.
  assert (va < 1073741824 <-> index_of va 3 = 0 /\ index_of va 2 = 0) as Hlow.
  { rewrite D3, D2. clear -Hva. split; [|intros [? ?]]; dlia. }
  rewrite Ha by done. destruct (Z.eqb_spec (index_of va 3) 0) as [E3|E3].
  2:{ change (is_present 0) with false. cbn [negb]. cbv iota. rewrite decide_False; [done|tauto]. }
  rewrite link_entry_present, link_entry_huge, link_entry_table by (done || lia). simpl negb. cbv iota.
  rewrite Hb by done. destruct (Z.eqb_spec (index_of va 2) 0) as [E2|E2].
  2:{ change (is_present 0) with false. cbn [negb]. cbv iota. rewrite decide_False; [done|tauto]. }
  rewrite link_entry_present, link_entry_huge, link_entry_table by (done || lia). simpl negb. cbv iota.
  rewrite Hc, direct_entry_present, direct_entry_huge, direct_entry_address by done. simpl negb. cbv iota.
  change (huge_page_size - 1) with (Z.ones 21). rewrite Z.land_ones by lia.
  change (2 ^ 21) with 2097152. change huge_page_size with 2097152.
  rewrite decide_True by tauto. apply proj2 in Hlow.
  specialize (Hlow (conj E3 E2)). rewrite D1. clear -Hlow Hva. dlia.
Qed.

(** Page-aligned sections of the image, in order, inside the direct map. *)
Record image_ok (I : image) : Prop := {
  io_aligned : Forall (fun a => a mod page_size = 0)
                 [kernel_start I; text_start I; rodata_start I; data_start I];
  io_order : 0 <= kernel_start I <= text_start I /\ text_start I <= text_end I <= rodata_start I /\
             rodata_start I <= rodata_end I <= data_start I /\ data_start I <= data_end I;
  io_limit : data_end I <= 2 ^ 30
}.

(** Identity on the first gigabyte, nothing above. *)
Definition identity st root : Prop := wf_space st root /\
  forall va, 0 <= va < 2 ^ 48 -> translate st root va = if decide (va < 2 ^ 30) then va else 0.

(** Mapping a section of the image onto itself keeps the identity, even when [map]
    stops half way. *)
Lemma map_section_identity st root start end_ flags :
  identity st root -> 0 <= start -> start mod page_size = 0 -> start <= end_ <= 2 ^ 30 ->
  identity (map_section root start end_ flags st) root.
Proof.
  intros [Hwf Hid] Hs Hal He. unfold map_section, virt_to_phys. rewrite u64_small by lia.
  destruct (map st root start start (end_ - start) flags) as [ok st'] eqn:E. simpl.
  assert (start + span (end_ - start) <= 2 ^ 30) as Hspan.
  { unfold span, pages_of, page_size in *. change (2 ^ 30) with 1073741824 in *.
    rewrite Z2Nat.id by dlia. dlia. }
  unfold map in E.
  apply map_loop_spec in E as (k & Hk & Hok & Hrw);
    [|done|done|done|apply in_space_start; lia].
  rewrite Z.add_0_r in Hrw. split; [apply (rw_wf _ _ _ _ _ _ _ Hrw)|]. intros va Hva.
  destruct (decide (start <= va < start + Z.of_nat k * page_size)) as [Hin|Hout].
  2:{ by rewrite (rw_out _ _ _ _ _ _ _ Hrw), Hid. }
  assert (va < 2 ^ 30) by (unfold span, page_size in *; lia).
  rewrite (rw_translate_in _ _ _ _ _ _ _ Hrw) by done. cbv zeta. rewrite decide_True by done.
  rewrite is_present_bit, Z.lor_spec, <- !is_present_bit, encode_present, orb_true_r.
  rewrite land_mask_lor, land_mask_idem by apply encode_mask.
  replace (start + (page_base va - start)) with (page_base va) by lia.
  rewrite u64_small, land_mask_aligned by (unfold page_base, page_size in *; dlia).
  rewrite land_page_offset. unfold page_base, page_size. dlia.
Qed.

(** The address space [paging_init] builds, whatever the frame allocator returns
    along the way: every address of the first gigabyte translates to itself or, in a
    stack guard page only, to nothing; no address above the first gigabyte is mapped;
    and the tables are a tree.  So the window through which the kernel touches
    physical pages is intact after the image got its permissions and its 2 MiB
    mappings were split. *)
Theorem paging_init_direct_map I L st root unmapped st' :
  image_ok I -> layout_ok L -> paging_init I L st = Some (root, unmapped, st') ->
  unmapped = true /\ wf_space st' root /\
  (forall va, 0 <= va < 2 ^ 30 -> ~ in_guard L va -> translate st' root va = va) /\
  (forall va, in_guard L va -> translate st' root va = va \/ translate st' root va = 0) /\
  (forall va, 2 ^ 30 <= va < 2 ^ 48 -> translate st' root va = 0).
Proof.
  intros [Ha Ho Hl] HL. unfold paging_init.
  destruct (direct_map st) as [[r st0]|] eqn:E0; cbn [mbind option_bind]; [|done].
  destruct (direct_map_tables _ _ _ E0) as (pdpt & dir & Hbt & _).
  rewrite !list.Forall_cons, list.Forall_nil in Ha. destruct Ha as (A1 & A2 & A3 & A4 & _).
  assert (identity st0 r) as I0.
  { split; [eexists; by apply boot_tables_wf|]. intros. by eapply boot_tables_translate. }
  eapply (map_section_identity _ _ (kernel_start I) (text_start I) PageFlags_NoExecute) in I0;
    [|lia|done|lia].
  eapply (map_section_identity _ _ (text_start I) (text_end I) PageFlags_None) in I0;
    [|lia|done|lia].
  eapply (map_section_identity _ _ (rodata_start I) (rodata_end I) PageFlags_NoExecute) in I0;
    [|lia|done|lia].
  eapply (map_section_identity _ _ (data_start I) (data_end I)
            (flags_or PageFlags_Write PageFlags_NoExecute)) in I0; [|lia|done|lia].
  destruct I0 as [Hwf Hid]. set (st1 := map_section r (data_start I) _ _ _) in *.
  clearbody st1. destruct (unmap_stack_guards_spec L r st1 HL Hwf) as (Hwf' & Hout & Hin).
  assert ((unmap_stack_guards L r st1).1 = true) as Hu by done.
  destruct (unmap_stack_guards L r st1) as [u st2]. intros [= <- <- <-]. simpl snd in *.
  assert (forall va, in_guard L va -> 0 <= va < 2 ^ 30) as Hg.
  { intros va (i & Hi & ?). destruct (guard_of_ok L i HL Hi) as (? & ? & ?). lia. }
  split; [done|]. split; [done|]. split_and!; intros va Hva.
  - intros Hn. destruct (Hout va ltac:(lia) Hn) as [-> _].
    by rewrite Hid, decide_True by lia.
  - destruct (Hin va Hva) as [->| ->]; [left|by right].
    apply Hg in Hva. by rewrite Hid, decide_True by lia.
  - destruct (Hout va) as [-> _]; [lia|intros ?%Hg; lia|]. by rewrite Hid, decide_False by lia.
Qed.

(** Frames in use before stay in use, and none of them becomes a table. *)
Lemma map_section_data st root start end_ flags D :
  wf_data st root D -> 0 <= start -> start mod page_size = 0 -> start <= end_ <= 2 ^ 30 ->
  wf_data (map_section root start end_ flags st) root D.
Proof.
  intros HD Hs Hal He. unfold map_section, virt_to_phys. rewrite u64_small by lia.
  destruct (map st root start start (end_ - start) flags) as [ok st'] eqn:E. simpl.
  destruct (pm_map_spec (Space root st) D start start (end_ - start) flags ok (Space root st')) as [Hd _].
  - exact HD.
  - split_and!; [done|done|lia|]. unfold pm_span, page_size in *. change (2 ^ 48) with 281474976710656. dlia.
  - done.
  - done.
  - unfold pm_span, page_size in *. change (2 ^ 52) with 4503599627370496. dlia.
  - unfold pm_map, space_mapper, on_space. cbn [space_tables space_root]. by rewrite E.
  - exact Hd.
Qed.

Lemma paging_init_data I L st root unmapped st' D :
  image_ok I -> layout_ok L -> (forall f, f ∈ D -> fa_owned (frames st) f) ->
  paging_init I L st = Some (root, unmapped, st') -> wf_data st' root D.
Proof.
  intros [Ha Ho Hl] HL HD. unfold paging_init. destruct (direct_map st) as [[r st0]|] eqn:E0; cbn [mbind option_bind]; [|done].
  destruct (direct_map_tables _ _ _ E0) as (pdpt & dir & Hbt & Hold).
  rewrite !list.Forall_cons, list.Forall_nil in Ha. destruct Ha as (A1 & A2 & A3 & A4 & _).
  assert (wf_data st0 r D) as I0.
  { exists (boot_tree r pdpt dir). split; [by apply boot_tables_wf|]. intros f Hf. destruct (Hold f (HD f Hf)) as (H1 & H2 & H3 & H4).
    split; [done|]. intros k Hk. apply boot_tree_lookup in Hk. naive_solver. }
  eapply (map_section_data _ _ (kernel_start I) (text_start I) PageFlags_NoExecute) in I0; [|lia|done|lia].
  eapply (map_section_data _ _ (text_start I) (text_end I) PageFlags_None) in I0; [|lia|done|lia].
  eapply (map_section_data _ _ (rodata_start I) (rodata_end I) PageFlags_NoExecute) in I0; [|lia|done|lia].
  eapply (map_section_data _ _ (data_start I) (data_end I) (flags_or PageFlags_Write PageFlags_NoExecute)) in I0; [|lia|done|lia].
  set (st1 := map_section r (data_start I) _ _ _) in *. clearbody st1.
  assert (wf_data (unmap_stack_guards L r st1).2 r D) as Hd.
  { unfold unmap_stack_guards. cbv zeta. simpl snd. apply (for_z_ind (fun _ (s : Paging.state A) => wf_data s r D)); [done|done|].
    intros i s Hi Hs. destruct (guard_of_ok L i HL ltac:(done)) as (Hg & Hge & Hga).
    destruct (unmap s r (guard_of L i) page_size) as [ok s'] eqn:E. simpl.
    destruct (pm_unmap_spec (Space r s) D (guard_of L i) page_size ok (Space r s')) as [Hd _]; [exact Hs| | |exact Hd].
    - split_and!; [lia|done|done|]. change (pm_span page_size) with page_size. change (2 ^ 30) with 1073741824 in *. change (2 ^ 48) with 281474976710656. lia.
    - unfold pm_unmap, space_mapper, on_space. cbn [space_tables space_root]. by rewrite E. }
  destruct (unmap_stack_guards L r st1) as [u st2]. intros [= <- <- <-]. exact Hd.
Qed.

End correctness.

(** ** A boot with the real page allocator *)

(** Five frames in use, everything else free. *)
Definition small_alloc : PageAlloc.state := PageAlloc.mk {[ 0 := 31 ]} 5.

(** An empty root table at frame 1. *)
Definition empty_space : Paging.state PageAlloc.state := Paging.mk ∅ small_alloc.

Lemma empty_space_wf : wf_space empty_space page_size.
Proof.
  exists {[ (3%nat, 0) := page_size ]}. constructor.
  - reflexivity.
  - intros k1 k2 f [<- _]%lookup_singleton_Some [<- _]%lookup_singleton_Some. done.
  - intros k f [_ <-]%lookup_singleton_Some. split; [reflexivity|]. by split; [|reflexivity].
  - intros l p f [E _]%lookup_singleton_Some Hl. injection E as <- <-. lia.
  - intros l p f i [E <-]%lookup_singleton_Some Hi. injection E as <- <-. simpl.
    change (is_present 0) with false. by apply lookup_singleton_ne.
Qed.

Definition demo_image : image := {|
  kernel_start := 0x100000; text_start := 0x101000; text_end := 0x102000;
  rodata_start := 0x102000; rodata_end := 0x103000; data_start := 0x103000;
  data_end := 0x104000 |}.


Lemma map_correct_witness :
  exists st', map empty_space page_size 0x40000000 0x7000 8192 PageFlags_Write = (true, st') /\
    translate st' page_size 0x40001234 = 0x8234.
Proof.
  destruct (map empty_space page_size 0x40000000 0x7000 8192 PageFlags_Write) as [ok st'] eqn:E.
  assert (ok = true) as -> by (change ok with (ok, st').1; rewrite <- E; exact (eq_refl true)).
  exists st'. split; [done|].
  destruct (map_correct empty_space page_size 0x40000000 0x7000 8192 PageFlags_Write true st'
              empty_space_wf) as (_ & c & _ & Hc & Hin & _); [by vm_compute..|exact E|].
  rewrite (Hc eq_refl) in Hin. clear E. apply (Hin 0x40001234). by vm_compute.
Defined.

(** The user bit and a 2 MiB kernel mapping: [table_for] marks the entry before it is
    split, and the split copies the bit to all 512 pages but not to the table it
    links.  One user page mapped inside is not reachable from ring 3; a second one marks
    the table, and with it every other page of the former mapping is. *)
Example user_bit_spreads_in_split :
  match direct_map (Paging.mk ∅ small_alloc) with
  | Some (root, st) =>
    let one := (map st root 0x200000 0x200000 4096 PageFlags_User).2 in
    let two := (map st root 0x200000 0x200000 8192 PageFlags_User).2 in
    (may_user st root 0x234000, may_user one root 0x200000, may_user two root 0x234000,
     may_write two root 0x234000) = (false, false, true, true)
  | None => False
  end.
Proof. vm_compute. reflexivity. Qed.


(** Two pages mapped at 1 GiB. *)
Definition two_pages : Paging.state PageAlloc.state :=
  (map empty_space page_size 0x40000000 0x7000 8192 PageFlags_Write).2.

Lemma two_pages_wf : wf_space two_pages page_size.
Proof.
  unfold two_pages, map.
  destruct (map_loop _ _ _ _ _ _ _ _) as [ok st'] eqn:E. cbn [snd].
  apply map_loop_spec in E as (k & _ & _ & Hrw).
  - exact (rw_wf _ _ _ _ _ _ _ Hrw).
  - clear E. lia.
  - clear E. reflexivity.
  - exact empty_space_wf.
  - clear E. split; [lia|]. split; [reflexivity|]. by vm_compute.
Qed.

Lemma protect_correct_witness :
  exists st', protect two_pages page_size 0x40000000 8192 PageFlags_NoExecute = (true, st') /\
    translate st' page_size 0x40001234 = translate two_pages page_size 0x40001234.
Proof.
  destruct (protect two_pages page_size 0x40000000 8192 PageFlags_NoExecute) as [ok st'] eqn:E.
  assert (ok = true) as -> by (change ok with (ok, st').1; rewrite <- E; exact (eq_refl true)).
  exists st'. split; [reflexivity|].
  destruct (protect_correct two_pages page_size 0x40000000 8192 PageFlags_NoExecute true st'
              two_pages_wf) as (_ & c & _ & Hc & Hin & _); [by vm_compute..|exact E|].
  rewrite (Hc eq_refl) in Hin. clear E. apply (Hin 0x40001234). by vm_compute.
Defined.

Lemma demo_image_ok : image_ok demo_image.
Proof.
  constructor; [repeat constructor|split_and!; by vm_compute|by vm_compute].
Qed.

Lemma paging_init_direct_map_witness :
  exists root st', paging_init demo_image demo_layout (Paging.mk ∅ small_alloc)
      = Some (root, true, st') /\ translate st' root 0x12345678 = 0x12345678.
Proof.
  assert ((if direct_map (Paging.mk ∅ small_alloc) then true else false) = true) as Hsome
    by exact (eq_refl true).
  destruct (direct_map (Paging.mk ∅ small_alloc)) as [[root st0]|] eqn:E0;
    [|exfalso; exact (Bool.diff_false_true Hsome)].
  destruct (paging_init demo_image demo_layout (Paging.mk ∅ small_alloc))
    as [[[r u] st']|] eqn:E.
  2:{ exfalso. unfold paging_init in E. rewrite E0 in E. cbn [mbind option_bind] in E.
      by destruct (unmap_stack_guards _ _ _). }
  destruct (paging_init_direct_map _ _ _ _ _ _ demo_image_ok demo_layout_ok E)
    as (-> & _ & Hid & _). exists r, st'. split; [reflexivity|].
  clear E E0. apply Hid; [lia|]. intros (i & Hi & Hg).
  assert (i = 0 \/ i = 1 \/ i = 2 \/ i = 3) as [->|[->|[->| ->]]] by lia; vm_compute in Hg;
    destruct Hg; congruence.
Defined.
