(* ===== verification/Vmalloc.v ===== *)
(** * Virtual space above the direct map (src/kernel/mm/vmalloc.cpp)

    State: the first [range_count] slots of [free_ranges], in order, and the
    [initialised] flag; the slots behind [range_count] are never read.  The address
    space the device windows are mapped in is any [PageMapper]. *)

From S2P Require Import Prelude Interfaces PageAlloc Paging PagingInit.

Definition vmalloc_base : Z := Z.shiftl 1 30.
Definition vmalloc_end : Z := Z.shiftl 2 30.
Definition max_ranges : nat := 64.

Record Range := mkRange { r_start : Z; r_length : Z }.

Record state := mk { free_ranges : list Range; initialised : bool }.

Definition ensure_initialised (s : state) : state :=
  if initialised s then s else mk [mkRange vmalloc_base (vmalloc_end - vmalloc_base)] true.

Definition round_up (length : Z) : Z :=
  Z.land (u64 (length + page_size - 1)) (not64 (page_size - 1)).

(** [free_ranges[i] = free_ranges[--range_count]]. *)
Definition swap_remove (l : list Range) (i : nat) : list Range :=
  match list.last l with
  | Some r => take (pred (length l)) (<[i := r]> l)
  | None => l
  end.

Definition vmalloc_reserve (s : state) (length : Z) : Z * state :=
  let s := ensure_initialised s in
  let wanted := u64 (round_up length + page_size) in
  match list_find (fun r => ~ r_length r < wanted) (free_ranges s) with
  | None => (0, s)
  | Some (i, range) =>
    let address := r_start range in
    let range := mkRange (u64 (r_start range + wanted)) (r_length range - wanted) in
    let l := <[i := range]> (free_ranges s) in
    let l := if r_length range =? 0 then swap_remove l i else l in
    (address, mk l (initialised s))
  end.

(** The loop of [vmalloc_release]: grow the first range the released one touches. *)
Fixpoint release_scan (l : list Range) (address released : Z) : option (list Range) :=
  match l with
  | [] => None
  | range :: l' =>
    if r_start range =? u64 (address + released)
    then Some (mkRange address (u64 (r_length range + released)) :: l')
    else if u64 (r_start range + r_length range) =? address
    then Some (mkRange (r_start range) (u64 (r_length range + released)) :: l')
    else match release_scan l' address released with
         | Some l'' => Some (range :: l'')
         | None => None
         end
  end.

Definition vmalloc_release (s : state) (address length : Z) : state :=
  let s := ensure_initialised s in
  let released := u64 (round_up length + page_size) in
  match release_scan (free_ranges s) address released with
  | Some l => mk l (initialised s)
  | None =>
    if (Datatypes.length (free_ranges s) <? max_ranges)%nat
    then mk (free_ranges s ++ [mkRange address released]) (initialised s)
    else s
  end.

Section devices.
Context {M : Type} `{PageMapper M}.

(** Null is 0. *)
Definition map_device (s : state) (m : M) (address length : Z) : Z * (state * M) :=
  let aligned := Z.land address (not64 (page_size - 1)) in
  let offset := address - aligned in
  let span := round_up (u64 (length + offset)) in
  let (window, s) := vmalloc_reserve s span in
  if window =? 0 then (0, (s, m))
  else
    let (ok, m) := pm_map m window aligned span
                     (flags_or (flags_or PageFlags_Write PageFlags_NoExecute) PageFlags_NoCache) in
    if negb ok then (0, (vmalloc_release s window span, m))
    else (u64 (window + offset), (s, m)).

Definition unmap_device (s : state) (m : M) (window length : Z) : state * M :=
  if window =? 0 then (s, m)
  else
    let address := Z.land window (not64 (page_size - 1)) in
    let span := round_up length in
    let (_, m) := pm_unmap m address span in
    (vmalloc_release s address span, m).
End devices.

(** The addresses of [__kernel_start] and [__kernel_end] are parameters. *)
Definition region_name (kernel_start kernel_end address : Z) : string :=
  if address <? page_size then "the null page"%string
  else if (kernel_start <=? address) && (address <? kernel_end) then "the kernel image"%string
  else if address <? Z.shiftl 1 30 then "the direct map"%string
  else if (vmalloc_base <=? address) && (address <? vmalloc_end) then "the vmalloc area"%string
  else "nothing mapped"%string.

(** ** How often an address is on the free list *)

Definition holds (r : Range) (a : Z) : Z :=
  if decide (r_start r <= a < r_start r + r_length r) then 1 else 0.

(** Additive in the list, so splitting, growing and reordering ranges are sums. *)
Fixpoint cover (l : list Range) (a : Z) : Z :=
  match l with [] => 0 | r :: l' => holds r a + cover l' a end.

Lemma cover_app l1 l2 a : cover (l1 ++ l2) a = cover l1 a + cover l2 a.
Proof. induction l1; simpl; lia. Qed.

Lemma cover_nonneg l a : 0 <= cover l a.
Proof. induction l; simpl; [lia|]. unfold holds. case_decide; lia. Qed.

Lemma cover_insert l i r x a : l !! i = Some r ->
  cover (<[i := x]> l) a = cover l a - holds r a + holds x a.
Proof.
  revert i. induction l as [|y l IH]; intros [|i] Hi; simpl in *; simplify_eq; [lia|].
  rewrite (IH i) by done. lia.
Qed.

Lemma cover_swap_remove l i r a : l !! i = Some r ->
  cover (swap_remove l i) a = cover l a - holds r a.
Proof.
  intros Hi. destruct l as [|x l _] using rev_ind; [done|]. unfold swap_remove.
  rewrite last_snoc, length_app. cbn [length]. rewrite Nat.add_1_r. cbn [pred].
  destruct (decide (i = length l)) as [->|Hne].
  - rewrite lookup_app_r, Nat.sub_diag in Hi by done. injection Hi as ->.
    rewrite insert_app_r_alt, Nat.sub_diag by done. simpl.
    rewrite take_app_length, cover_app. simpl. lia.
  - pose proof (lookup_lt_Some _ _ _ Hi) as Hlt. rewrite length_app in Hlt. cbn [length] in Hlt.
    rewrite lookup_app_l in Hi by lia. rewrite insert_app_l by lia.
    rewrite take_app_length' by (by rewrite length_insert).
    rewrite (cover_insert l i r), cover_app by done. simpl. lia.
Qed.

(** Removing a slot forgets what was written to it. *)
Lemma Forall_swap_remove (P : Range -> Prop) l i x :
  Forall P l -> Forall P (swap_remove (<[i := x]> l) i).
Proof.
  rewrite !list.Forall_lookup. intros HP j y Hj. apply list_elem_of_lookup_2 in Hj.
  unfold swap_remove in Hj. destruct (list.last _) as [z|] eqn:Ez.
  2:{ apply last_None in Ez. rewrite Ez in Hj. by apply not_elem_of_nil in Hj. }
  apply elem_of_take in Hj as (k & Hk & Hlt). rewrite length_insert in Hlt.
  rewrite last_lookup, length_insert in Ez. rewrite list_insert_insert_eq in Hk.
  apply list_lookup_insert_Some in Hk as [(<- & -> & _)|[_ Hk]]; [|by eapply HP].
  rewrite list_lookup_insert_ne in Ez by lia. by eapply HP.
Qed.

Lemma length_swap_remove l i : (length (swap_remove l i) <= length l)%nat.
Proof.
  unfold swap_remove. destruct (list.last l); [|done]. rewrite length_take, length_insert. lia.
Qed.

(** ** Invariant *)

(** Page-grained ranges of the vmalloc area. *)
Definition range_ok (r : Range) : Prop :=
  vmalloc_base <= r_start r /\ 0 < r_length r /\ r_start r + r_length r <= vmalloc_end /\
  r_start r mod page_size = 0 /\ r_length r mod page_size = 0.

(** Arithmetic on ranges of the area. *)
Ltac area := cbn [r_start r_length] in *; change vmalloc_base with 1073741824 in *;
  change vmalloc_end with 2147483648 in *; unfold page_size in *; first [lia | dlia].

(** The ranges are disjoint and fit the table. *)
Record inv (s : state) : Prop := {
  inv_init : initialised s = true;
  inv_ranges : Forall range_ok (free_ranges s);
  inv_disjoint a : cover (free_ranges s) a <= 1;
  inv_bound : (length (free_ranges s) <= max_ranges)%nat
}.

(** The address can still be handed out. *)
Definition free (s : state) (a : Z) : Prop := cover (free_ranges s) a = 1.

(** What a reservation of [length] bytes takes: whole pages and the guard page. *)
Definition footprint (length : Z) : Z := (length + page_size - 1) / page_size * page_size + page_size.

Lemma round_up_spec length : 0 <= length <= 2 ^ 64 - page_size ->
  round_up length = (length + page_size - 1) / page_size * page_size.
Proof.
  intros Hl. unfold round_up. rewrite u64_small by (unfold page_size in *; lia).
  change (page_size - 1) with (2 ^ 12 - 1). rewrite land_not64_ones
    by (unfold fits, page_size in *; lia).
  change (2 ^ 12) with 4096. unfold page_size. dlia.
Qed.

Lemma wanted_footprint length : 0 <= length <= 2 ^ 63 ->
  u64 (round_up length + page_size) = footprint length.
Proof.
  intros Hl. rewrite round_up_spec by (unfold page_size; lia). unfold footprint.
  apply u64_small. unfold page_size. dlia.
Qed.

Lemma footprint_ok length : 0 <= length -> 0 < footprint length /\ footprint length mod page_size = 0 /\
  length + page_size <= footprint length.
Proof. unfold footprint, page_size. intros. dlia. Qed.

Lemma inv_start s : initialised s = false -> inv (ensure_initialised s).
Proof.
  intros Hi. unfold ensure_initialised. rewrite Hi. constructor; simpl.
  - done.
  - constructor; [|done]. by vm_compute.
  - intros a. unfold holds. case_decide; lia.
  - unfold max_ranges. lia.
Qed.

Definition block (address length : Z) : Range := mkRange address (footprint length).

Lemma holds_block a length x : a <= x < a + footprint length -> holds (block a length) x = 1.
Proof. intros. unfold holds. by rewrite decide_True. Qed.

Lemma holds_bound r a : 0 <= holds r a <= 1.
Proof. unfold holds. case_decide; lia. Qed.

Lemma ensure_inv s : inv s -> ensure_initialised s = s.
Proof. intros Hs. unfold ensure_initialised. by rewrite (inv_init _ Hs). Qed.

Lemma reserve_spec s length a s' :
  inv s -> 0 <= length <= 2 ^ 63 -> vmalloc_reserve s length = (a, s') ->
  inv s' /\
  ((a = 0 /\ s' = s /\ Forall (fun r => r_length r < footprint length) (free_ranges s)) \/
   (range_ok (block a length) /\
    forall x, cover (free_ranges s') x = cover (free_ranges s) x - holds (block a length) x)).
Proof.
  intros Hinv Hl. unfold vmalloc_reserve. rewrite ensure_inv, wanted_footprint by done. cbv zeta.
  destruct (footprint_ok length) as (Hp & Hpm & _); [lia|].
  destruct (list_find _ (free_ranges s)) as [[i r]|] eqn:E.
  2:{ intros [= <- <-]. apply list_find_None in E. split; [done|]. left. split_and!; [done..|].
      apply (list.Forall_impl _ _ _ E). intros r ?. lia. }
  apply list_find_Some in E as (Hi & Hfit & _). intros [= <- <-].
  pose proof (inv_ranges _ Hinv) as Hall. rewrite list.Forall_lookup in Hall.
  destruct (Hall i r Hi) as (R1 & R2 & R3 & R4 & R5). change vmalloc_base with 1073741824 in *.
  change vmalloc_end with 2147483648 in *. unfold page_size in *.
  rewrite u64_small by lia. set (r' := mkRange (r_start r + footprint length) _).
  set (l1 := <[i := r']> (free_ranges s)).
  set (l2 := if r_length r' =? 0 then swap_remove l1 i else l1).
  assert (forall x, holds r x - holds r' x = holds (block (r_start r) length) x) as Hsplit.
  { intros x. unfold holds, r', block. cbn [r_start r_length]. repeat case_decide; lia. }
  assert (l1 !! i = Some r') as Hl1
    by (apply list_lookup_insert_eq; by eapply lookup_lt_Some).
  assert (forall x, cover l2 x = cover (free_ranges s) x - holds (block (r_start r) length) x) as Hc.
  { intros x. rewrite <- Hsplit. unfold l2. cbn [r_length r'].
    destruct (Z.eqb_spec (r_length r - footprint length) 0) as [E0|E0].
    - rewrite (cover_swap_remove l1 i r') by done. unfold l1. rewrite (cover_insert _ i r) by done.
      assert (holds r' x = 0) by (unfold holds, r'; cbn [r_start r_length]; case_decide; lia). lia.
    - unfold l1. rewrite (cover_insert _ i r) by done. lia. }
  split; [constructor; cbn [initialised free_ranges]|].
  - apply (inv_init _ Hinv).
  - destruct (Z.eqb_spec (r_length r - footprint length) 0) as [E0|E0].
    + apply Forall_swap_remove. by apply list.Forall_lookup.
    + apply Forall_insert; [by apply list.Forall_lookup|]. unfold r' in *. cbn [r_length] in E0.
      split_and!; area.
  - intros x. rewrite Hc. pose proof (inv_disjoint _ Hinv x).
    pose proof (holds_bound (block (r_start r) length) x). lia.
  - pose proof (inv_bound _ Hinv). pose proof (length_swap_remove l1 i).
    unfold l1 in *. destruct (_ =? 0); rewrite ?length_insert in *; lia.
  - right. split; [|done]. unfold block. split_and!; area.
Qed.

Lemma release_scan_spec l address n l' :
  Forall range_ok l -> range_ok (mkRange address n) ->
  (forall x, cover l x + holds (mkRange address n) x <= 1) ->
  release_scan l address n = Some l' ->
  Forall range_ok l' /\ length l' = length l /\
  forall x, cover l' x = cover l x + holds (mkRange address n) x.
Proof.
  intros Hl (B1 & B2 & B3 & B4 & B5) Hd. cbn [r_start r_length] in *.
  change vmalloc_base with 1073741824 in *. change vmalloc_end with 2147483648 in *.
  revert l'. induction Hl as [|r l (R1 & R2 & R3 & R4 & R5) Hl IH]; intros l' E;
    cbn [release_scan] in E; [done|].
  change vmalloc_base with 1073741824 in *. change vmalloc_end with 2147483648 in *.
  rewrite !u64_small in E by lia. unfold page_size in *.
  destruct (Z.eqb_spec (r_start r) (address + n)) as [E1|E1]; [|
  destruct (Z.eqb_spec (r_start r + r_length r) address) as [E2|E2]].
  - injection E as <-. split; [|split; [done|]].
    + constructor; [|done]. split_and!; area.
    + intros x. cbn [cover]. unfold holds. cbn [r_start r_length]. repeat case_decide; lia.
  - injection E as <-. split; [|split; [done|]].
    + constructor; [|done]. split_and!; area.
    + intros x. cbn [cover]. unfold holds. cbn [r_start r_length]. repeat case_decide; lia.
  - destruct (release_scan l address n) as [l''|]; [|done]. injection E as <-.
    destruct (IH) with (l' := l'') as (F & L & C); [|done|].
    { intros x. specialize (Hd x). cbn [cover] in Hd. pose proof (holds_bound r x). lia. }
    split; [|split].
    + constructor; [by split_and!|done].
    + cbn [length]. by rewrite L.
    + intros x. cbn [cover]. rewrite C. lia.
Qed.

(** No slot is free and no range touches the released one. *)
Definition table_full (s : state) (address length : Z) : Prop :=
  release_scan (free_ranges s) address (footprint length) = None /\
  Datatypes.length (free_ranges s) = max_ranges.

Lemma release_spec s address length :
  inv s -> 0 <= length <= 2 ^ 63 -> range_ok (block address length) ->
  (forall x, cover (free_ranges s) x + holds (block address length) x <= 1) ->
  let s' := vmalloc_release s address length in
  inv s' /\
  ((table_full s address length /\ s' = s) \/
   (~ table_full s address length /\
    forall x, cover (free_ranges s') x = cover (free_ranges s) x + holds (block address length) x)).
Proof.
  intros Hinv Hl Hb Hd. unfold vmalloc_release, table_full.
  rewrite ensure_inv, wanted_footprint by done. cbv zeta.
  pose proof (inv_bound _ Hinv) as Hn.
  destruct (release_scan (free_ranges s) address (footprint length)) as [l'|] eqn:E.
  - eapply release_scan_spec in E as (F & L & C); [|apply (inv_ranges _ Hinv)|done|done].
    split; [constructor; cbn [free_ranges initialised]|right; split; [naive_solver|done]].
    + apply (inv_init _ Hinv).
    + done.
    + intros x. rewrite C. apply Hd.
    + by rewrite L.
  - destruct (Nat.ltb_spec (Datatypes.length (free_ranges s)) max_ranges) as [Hlt|Hge].
    + assert (forall x, cover (free_ranges s ++ [block address length]) x
        = cover (free_ranges s) x + holds (block address length) x) as C
        by (intros x; rewrite cover_app; simpl; lia).
      split; [constructor; cbn [free_ranges initialised]|right; split; [naive_solver lia|done]].
      * apply (inv_init _ Hinv).
      * apply Forall_app. split; [apply (inv_ranges _ Hinv)|by constructor].
      * intros x. change (cover (free_ranges s ++ [block address length]) x <= 1). by rewrite C.
      * rewrite length_app. cbn [Datatypes.length]. lia.
    + split; [done|]. left. split; [|done]. split; [done|lia].
Qed.

(** ** What callers see *)

(** A reservation is whole pages that were free, with a guard page behind the
    requested bytes, and takes exactly those pages off the free list; it fails only
    when no free range is long enough, and then changes nothing. *)
Theorem vmalloc_reserve_correct s length a s' :
  inv s -> 0 <= length <= 2 ^ 63 -> vmalloc_reserve s length = (a, s') ->
  inv s' /\
  if a =? 0
  then s' = s /\ Forall (fun r => r_length r < footprint length) (free_ranges s)
  else a mod page_size = 0 /\ vmalloc_base <= a /\ a + length + page_size <= vmalloc_end /\
       (forall x, a <= x < a + footprint length -> free s x /\ ~ free s' x) /\
       (forall x, ~ a <= x < a + footprint length -> (free s' x <-> free s x)).
Proof.
  intros Hinv Hl E. destruct (footprint_ok length ltac:(lia)) as (_ & _ & Hfp).
  destruct (reserve_spec _ _ _ _ Hinv Hl E) as (Hinv' & [(-> & -> & Hall)|[Hb Hc]]); [done|].
  split; [done|]. destruct Hb as (B1 & B2 & B3 & B4 & B5). cbn [block r_start r_length] in *.
  destruct (Z.eqb_spec a 0) as [->|_]; [area|]. split_and!; [done|done|lia|..]; intros x Hx;
    unfold free; specialize (Hc x); pose proof (cover_nonneg (free_ranges s') x);
    pose proof (inv_disjoint _ Hinv x); unfold holds, block in Hc; cbn [r_start r_length] in Hc;
    case_decide; lia.
Qed.

(** Releasing a reservation undoes it: the same addresses are free again, unless
    the table of ranges has no slot left for them. *)
Theorem vmalloc_reserve_release s length a s' :
  inv s -> 0 <= length <= 2 ^ 63 -> vmalloc_reserve s length = (a, s') -> a <> 0 ->
  let s'' := vmalloc_release s' a length in
  inv s'' /\ (~ table_full s' a length -> forall x, free s'' x <-> free s x).
Proof.
  intros Hinv Hl E Ha.
  destruct (reserve_spec _ _ _ _ Hinv Hl E) as (Hinv' & [(-> & _)|[Hb Hc]]); [done|].
  destruct (release_spec s' a length Hinv' Hl Hb) as [Hinv'' Hr].
  { intros x. rewrite Hc. pose proof (inv_disjoint _ Hinv x). lia. }
  split; [done|]. intros Hnf x. destruct Hr as [[? _]|[_ Hc']]; [done|].
  unfold free. rewrite Hc', Hc. lia.
Qed.

(** *** Any sequence of reservations and releases *)

(** The allocator and the reservations handed out and not yet released. *)
Definition world : Type := state * list (Z * Z).

Inductive step : world -> world -> Prop :=
  | step_reserve s live length a s' :
      0 <= length <= 2 ^ 63 -> vmalloc_reserve s length = (a, s') -> a <> 0 ->
      step (s, live) (s', (a, length) :: live)
  | step_reserve_fail s live length s' :
      0 <= length <= 2 ^ 63 -> vmalloc_reserve s length = (0, s') ->
      step (s, live) (s', live)
  | step_release s l1 l2 a length :
      step (s, l1 ++ (a, length) :: l2) (vmalloc_release s a length, l1 ++ l2).

Definition start : world := (mk [] false, []).

(** The first operation initialises the table; from then on [inv] holds. *)
Definition world_inv (w : world) : Prop :=
  inv (ensure_initialised w.1) /\
  Forall (fun b => 0 <= b.2 <= 2 ^ 63 /\ range_ok (block b.1 b.2)) w.2 /\
  forall x, cover (free_ranges (ensure_initialised w.1)) x
            + cover ((fun b => block b.1 b.2) <$> w.2) x <= 1.

Lemma ensure_twice s : ensure_initialised (ensure_initialised s) = ensure_initialised s.
Proof. unfold ensure_initialised. by destruct (initialised s) eqn:E; rewrite ?E. Qed.

Lemma vmalloc_step_inv w w' : world_inv w -> step w w' -> world_inv w'.
Proof.
  intros (Hinv & Hlive & Hd) Hs. destruct Hs as [s live len a s' Hl E Ha|s live len s' Hl E|s l1 l2 a len];
    cbn [fst snd] in *.
  - assert (vmalloc_reserve (ensure_initialised s) len = (a, s')) as E'.
    { unfold vmalloc_reserve in *. by rewrite ensure_twice. }
    destruct (reserve_spec _ _ _ _ Hinv Hl E') as (Hinv' & [(-> & _)|[Hb Hc]]); [done|].
    unfold world_inv. cbn [fst snd]. rewrite (ensure_inv s') by done.
    split; [done|]. split; [by constructor|]. intros x. rewrite Hc. specialize (Hd x).
    rewrite fmap_cons. cbn [cover fst snd]. lia.
  - assert (vmalloc_reserve (ensure_initialised s) len = (0, s')) as E'.
    { unfold vmalloc_reserve in *. by rewrite ensure_twice. }
    destruct (reserve_spec _ _ _ _ Hinv Hl E') as (Hinv' & [(_ & -> & _)|[(Hb & _) _]]); [|cbn [block r_start] in Hb; area].
    unfold world_inv. cbn [fst snd]. rewrite ensure_twice. by split_and!.
  - apply list.Forall_app in Hlive as [HL1 HL2]. apply list.Forall_cons in HL2 as [[Hl Hb] HL2].
    cbn [fst snd] in *.
    assert (forall x, cover ((fun b => block b.1 b.2) <$> (l1 ++ (a, len) :: l2)) x
      = cover ((fun b => block b.1 b.2) <$> (l1 ++ l2)) x + holds (block a len) x) as Hx.
    { intros x. rewrite !fmap_app, !cover_app, fmap_cons. cbn [cover fst snd]. lia. }
    assert (vmalloc_release s a len = vmalloc_release (ensure_initialised s) a len) as E.
    { unfold vmalloc_release. by rewrite ensure_twice. }
    destruct (release_spec (ensure_initialised s) a len Hinv Hl Hb) as [Hinv' Hr].
    { intros x. specialize (Hd x). rewrite Hx in Hd.
      pose proof (cover_nonneg ((fun b => block b.1 b.2) <$> (l1 ++ l2)) x). lia. }
    unfold world_inv. cbn [fst snd]. rewrite E, ensure_inv by done.
    split; [done|]. split; [by apply list.Forall_app|]. intros x. specialize (Hd x). rewrite Hx in Hd.
    destruct Hr as [[_ ->]|[_ Hc]]; [|rewrite Hc]; pose proof (holds_bound (block a len) x); lia.
Qed.

Lemma start_inv : world_inv start.
Proof.
  split; [by apply inv_start|]. split; [constructor|]. intros x. simpl.
  unfold holds. case_decide; lia.
Qed.

Lemma vmalloc_reachable_inv w : rtc step start w -> world_inv w.
Proof.
  intros Hr. pose proof start_inv as H0. induction Hr as [|w1 w2 w3 Hs _ IH]; [done|].
  apply IH. by eapply vmalloc_step_inv.
Qed.

Lemma cover_fmap_ge live b x : b ∈ live -> holds (block b.1 b.2) x
  <= cover ((fun b => block b.1 b.2) <$> live) x.
Proof.
  induction live as [|c live IH]; intros Hb; [by apply not_elem_of_nil in Hb|].
  rewrite fmap_cons. cbn [cover]. apply elem_of_cons in Hb as [->|Hb].
  - pose proof (cover_nonneg ((fun b => block b.1 b.2) <$> live) x). lia.
  - pose proof (holds_bound (block c.1 c.2) x). specialize (IH Hb). lia.
Qed.

(** C6: After any sequence of reservations and releases, the reservations still held
    lie in the vmalloc area, and no address belongs to two of them (guard pages
    included) or to one of them and the free list. *)
Theorem reservations_disjoint s live :
  rtc step start (s, live) ->
  (forall a length, (a, length) ∈ live -> range_ok (block a length)) /\
  (forall l1 b1 l2 b2 l3 x, live = l1 ++ b1 :: l2 ++ b2 :: l3 ->
     ~ (b1.1 <= x < b1.1 + footprint b1.2 /\ b2.1 <= x < b2.1 + footprint b2.2)) /\
  (forall b x, b ∈ live -> b.1 <= x < b.1 + footprint b.2 -> ~ free (ensure_initialised s) x).
Proof.
  intros (Hinv & Hlive & Hd)%vmalloc_reachable_inv. cbn [fst snd] in *. split_and!.
  - intros a len Hin. rewrite list.Forall_forall in Hlive. by apply (Hlive (a, len)).
  - intros l1 b1 l2 b2 l3 x -> [H1 H2]. specialize (Hd x).
    rewrite fmap_app, fmap_cons, fmap_app, fmap_cons, cover_app in Hd. cbn [cover] in Hd.
    rewrite cover_app in Hd. cbn [cover] in Hd.
    pose proof (cover_nonneg (free_ranges (ensure_initialised s)) x).
    pose proof (cover_nonneg ((fun b => block b.1 b.2) <$> l1) x).
    pose proof (cover_nonneg ((fun b => block b.1 b.2) <$> l2) x).
    pose proof (cover_nonneg ((fun b => block b.1 b.2) <$> l3) x).
    rewrite !holds_block in Hd by done. lia.
  - intros b x Hb Hx Hf. specialize (Hd x). pose proof (cover_fmap_ge live b x Hb) as Hge.
    rewrite holds_block in Hge by done.
    unfold free in Hf. lia.
Qed.

(** ** Device windows *)

Section windows.
Context {M : Type} `{PageMapperSpec M}.

Lemma page_floor address : 0 <= address < 2 ^ 64 ->
  Z.land address (not64 (page_size - 1)) = address - address mod page_size.
Proof. intros. change (page_size - 1) with (2 ^ 12 - 1). by apply land_not64_ones. Qed.

(** The pages a device window spans. *)
Definition window_pages (address length : Z) : Z := pm_span (length + address mod page_size).

Lemma window_pages_round address length :
  0 <= address -> 0 <= length <= 2 ^ 62 ->
  round_up (u64 (length + address mod page_size)) = window_pages address length.
Proof.
  intros. pose proof (Z.mod_pos_bound address page_size ltac:(done)). unfold page_size in *.
  rewrite u64_small by lia. by rewrite round_up_spec by (unfold page_size; lia).
Qed.

Lemma window_pages_ok address length : 0 <= address -> 0 <= length <= 2 ^ 62 ->
  0 <= window_pages address length <= 2 ^ 63 /\
  address mod page_size + length <= window_pages address length /\
  pm_span (window_pages address length) = window_pages address length /\
  footprint (window_pages address length) = window_pages address length + page_size.
Proof.
  intros. unfold window_pages, pm_span, footprint, page_size. split_and!; dlia.
Qed.

Lemma map_device_eq s m address length :
  0 <= address <= 2 ^ 52 -> 0 <= length <= 2 ^ 62 ->
  map_device s m address length =
  let (window, s) := vmalloc_reserve s (window_pages address length) in
  if window =? 0 then (0, (s, m))
  else
    let (ok, m) := pm_map m window (address - address mod page_size) (window_pages address length)
                     (flags_or (flags_or PageFlags_Write PageFlags_NoExecute) PageFlags_NoCache) in
    if negb ok then (0, (vmalloc_release s window (window_pages address length), m))
    else (u64 (window + address mod page_size), (s, m)).
Proof.
  intros Ha Hl. unfold map_device. rewrite page_floor by lia. cbv zeta.
  replace (address - (address - address mod page_size)) with (address mod page_size) by lia.
  by rewrite window_pages_round by lia.
Qed.

(** A device window maps exactly the device: when [map_device] succeeds, every byte
    [i] of the requested length translates to [address + i], and nothing outside the
    newly reserved pages changed its translation; when it fails, the reservation is
    given back. *)
Theorem map_device_correct s m D address length window s' m' :
  inv s -> pm_wf m D -> 0 <= address -> 0 <= length <= 2 ^ 62 ->
  address + window_pages address length <= 2 ^ 52 ->
  map_device s m address length = (window, (s', m')) ->
  inv s' /\ pm_wf m' D /\
  if window =? 0
  then (forall x, free s' x <-> free s x) \/ Datatypes.length (free_ranges s') = max_ranges
  else (forall i, 0 <= i < length -> pm_translate m' (window + i) = address + i) /\
       (forall x, 0 <= x < 2 ^ 48 -> ~ (free s x /\ ~ free s' x) ->
          pm_translate m' x = pm_translate m x).
Proof.
  intros Hinv Hm Ha Hl Hlim E. change (2 ^ 52) with 4503599627370496 in Hlim.
  destruct (window_pages_ok address length Ha Hl) as (W1 & W2 & W3 & W4).
  pose proof (Z.mod_pos_bound address page_size ltac:(done)) as Hmod.
  pose proof (Z.mod_le address page_size Ha ltac:(done)) as Hle.
  rewrite map_device_eq in E by lia. set (pages := window_pages address length) in *.
  destruct (vmalloc_reserve s pages) as [a s1] eqn:Er.
  destruct (reserve_spec _ _ _ _ Hinv W1 Er) as (Hinv1 & [(-> & -> & _)|[Hb Hc]]).
  { injection E as <- <- <-. split_and!; [done..|]. left. done. }
  pose proof Hb as (B1 & B2 & B3 & B4 & B5). cbn [block r_start r_length] in *. rewrite W4 in *.
  assert (pm_range a pages) as Hr. { split_and!; [area|done|lia|]. rewrite W3. area. }
  destruct (Z.eqb_spec a 0) as [->|Ha0]; [area|].
  destruct (pm_map m a (address - address mod page_size) pages _) as [ok m1] eqn:Em.
  eapply pm_map_spec in Em as (Hm1 & Hsame & Hmap);
    [|done|done|lia|unfold page_size; dlia|rewrite W3; lia].
  rewrite W3 in *. destruct ok; cbn [negb] in E.
  - injection E as <- <- <-. split; [done|]. split; [done|].
    assert (u64 (a + address mod page_size) = a + address mod page_size) as ->
      by (apply u64_small; area).
    destruct (Z.eqb_spec (a + address mod page_size) 0) as [|_]; [area|]. split.
    + intros i Hi. rewrite (Hmap eq_refl) by lia. lia.
    + intros x Hx Hn. apply Hsame; [done|]. intros Hin. apply Hn. unfold free.
      pose proof (Hc x) as Hcx. pose proof (cover_nonneg (free_ranges s1) x).
      pose proof (inv_disjoint _ Hinv x).
      rewrite holds_block in Hcx by (rewrite W4; area). lia.
  - injection E as <- <- <-. destruct (release_spec s1 a pages Hinv1 W1 Hb) as [Hinv2 Hrel].
    { intros x. rewrite Hc. pose proof (inv_disjoint _ Hinv x). lia. }
    split_and!; [done..|]. destruct Hrel as [[[_ Hfull] ->]|[_ Hc']]; [by right|left].
    intros x. unfold free. rewrite Hc', Hc. lia.
Qed.

(** Exactly what taking a device window down again gives back.  [unmap_device]
    releases the pages of [length] bytes where [map_device] reserved those of
    [length] plus the device's offset in its page, so when the device crosses one
    page more than its length needs, the last page of the reservation is lost. *)
Theorem unmap_device_releases s m D address length window s1 m1 :
  inv s -> pm_wf m D -> 0 <= address -> 0 <= length <= 2 ^ 62 ->
  address + window_pages address length <= 2 ^ 52 ->
  map_device s m address length = (window, (s1, m1)) -> window <> 0 ->
  let base := window - window mod page_size in
  let s2 := (unmap_device s1 m1 window length).1 in
  inv s2 /\
  (~ table_full s1 base (pm_span length) -> forall x, free s2 x <->
     free s x /\ ~ base + pm_span length + page_size <= x
                   < base + window_pages address length + page_size).
Proof.
  intros Hinv Hm Ha Hl Hlim E Hw. change (2 ^ 52) with 4503599627370496 in Hlim.
  destruct (window_pages_ok address length Ha Hl) as (W1 & W2 & W3 & W4).
  pose proof (Z.mod_pos_bound address page_size ltac:(done)) as Hmod.
  rewrite map_device_eq in E by lia.
  assert (pm_span length <= window_pages address length) as Hsp
    by (unfold window_pages, pm_span, page_size in *; dlia).
  set (pages := window_pages address length) in *.
  destruct (vmalloc_reserve s pages) as [a s1'] eqn:Er.
  destruct (reserve_spec _ _ _ _ Hinv W1 Er) as (Hinv1 & [(-> & -> & _)|[Hb Hc]]).
  { injection E as <- <- <-. done. }
  destruct Hb as (B1 & B2 & B3 & B4 & B5). cbn [block r_start r_length] in *. rewrite W4 in *.
  destruct (Z.eqb_spec a 0) as [->|Ha0]; [area|].
  destruct (pm_map _ _ _ _ _) as [[] ?]; cbn [negb] in E; injection E as <- <- <-; [|done].
  rewrite u64_small in * by area.
  assert (a + address mod page_size - (a + address mod page_size) mod page_size = a) as Hbase.
  { rewrite Z.add_mod_idemp_r by done. unfold page_size in *. dlia. }
  rewrite Hbase. unfold unmap_device.
  destruct (Z.eqb_spec (a + address mod page_size) 0) as [|_]; [area|].
  rewrite page_floor, Hbase by area.
  rewrite round_up_spec by (unfold page_size; lia). fold (pm_span length).
  destruct (pm_unmap _ _ _) as [b m2]. cbn [fst].
  assert (0 <= pm_span length <= 2 ^ 63 /\ footprint (pm_span length) = pm_span length + page_size)
    as [Hs1 Hs2] by (unfold footprint, pm_span, page_size; split; dlia).
  destruct (release_spec s1' a (pm_span length) Hinv1 Hs1) as [Hinv2 Hrel].
  { unfold block. rewrite Hs2. split_and!; try area. cbn [r_length]. unfold pm_span, page_size. dlia. }
  { intros x. rewrite Hc. pose proof (inv_disjoint _ Hinv x) as H1.
    unfold holds, block. cbn [r_start r_length]. rewrite Hs2, W4. clear -Hsp H1 Hs1.
    unfold page_size. repeat case_decide; lia. }
  split; [done|]. intros Hnf x. destruct Hrel as [[? _]|[_ Hc']]; [done|].
  unfold free. rewrite Hc', Hc. pose proof (inv_disjoint _ Hinv x) as Hd.
  pose proof (cover_nonneg (free_ranges s1') x) as Hnn. rewrite Hc in Hnn. revert Hnn.
  unfold holds, block. cbn [r_start r_length]. rewrite Hs2, W4. clear -Hsp Hd Hs1. unfold page_size.
  repeat case_decide; lia.
Qed.

End windows.

(** ** Concrete runs *)

Definition fresh : state := ensure_initialised (mk [] false).

Lemma fresh_inv : inv fresh.
Proof. by apply inv_start. Qed.

Lemma vmalloc_reserve_correct_witness :
  exists s', vmalloc_reserve fresh 0x5000 = (0x40000000, s') /\
    free fresh 0x40000000 /\ ~ free s' 0x40000000.
Proof.
  destruct (vmalloc_reserve fresh 0x5000) as [a s'] eqn:E.
  assert (a = 0x40000000) as -> by (vm_compute in E; congruence).
  destruct (vmalloc_reserve_correct fresh 0x5000 0x40000000 s' fresh_inv ltac:(lia) E)
    as (_ & _ & _ & _ & Hin & _).
  exists s'. split; [reflexivity|]. apply Hin. vm_compute. split; [discriminate|reflexivity].
Defined.

Lemma vmalloc_reserve_release_witness :
  exists s', vmalloc_reserve fresh 0x5000 = (0x40000000, s') /\
    forall x, free (vmalloc_release s' 0x40000000 0x5000) x <-> free fresh x.
Proof.
  destruct (vmalloc_reserve fresh 0x5000) as [a s'] eqn:E.
  pose proof E as E'. vm_compute in E'. injection E' as <- Hs.
  destruct (vmalloc_reserve_release fresh 0x5000 0x40000000 s' fresh_inv ltac:(lia) E ltac:(lia))
    as [_ Hf].
  exists s'. split; [reflexivity|]. apply Hf. rewrite <- Hs. intros [Hn _]. vm_compute in Hn.
  discriminate.
Defined.

Definition two_live : world :=
  let (a, s) := vmalloc_reserve fresh 0x5000 in
  let (b, s) := vmalloc_reserve s 0x800 in (s, [(b, 0x800); (a, 0x5000)]).

Lemma reservations_disjoint_witness :
  rtc step start two_live /\
  forall x, ~ (0x40006000 <= x < 0x40006000 + footprint 0x800 /\
               0x40000000 <= x < 0x40000000 + footprint 0x5000).
Proof.
  assert (rtc step start two_live) as Hr.
  { eapply rtc_l; [|eapply rtc_l; [|reflexivity]].
    - apply (step_reserve _ _ 0x5000 0x40000000); [lia|vm_compute; reflexivity|lia].
    - apply (step_reserve _ _ 0x800 0x40006000); [lia|vm_compute; reflexivity|lia]. }
  split; [exact Hr|]. intros x.
  destruct (reservations_disjoint two_live.1 two_live.2 Hr) as (_ & Hd & _).
  exact (Hd [] (0x40006000, 0x800) [] (0x40000000, 0x5000) [] x eq_refl).
Defined.

(** The kernel address space over the real allocator. *)
Definition demo_space : space := Space page_size empty_space.

Lemma demo_space_wf : pm_wf demo_space ∅.
Proof.
  destruct empty_space_wf as [T HT]. exists T. split; [exact HT|]. intros f Hf.
  by apply not_elem_of_empty in Hf.
Qed.

(** A device of 16 bytes that starts 8 bytes before a page boundary. *)
Lemma map_device_correct_witness :
  exists s' m', map_device fresh demo_space 0xFEBFFFF8 16 = (0x40000FF8, (s', m')) /\
    pm_translate m' (0x40000FF8 + 9) = 0xFEBFFFF8 + 9.
Proof.
  destruct (map_device fresh demo_space 0xFEBFFFF8 16) as [w [s' m']] eqn:E.
  assert (w = 0x40000FF8) as ->
    by (change w with (w, (s', m')).1; rewrite <- E; exact (eq_refl 0x40000FF8)).
  exists s', m'. split; [reflexivity|].
  destruct (map_device_correct fresh demo_space ∅ 0xFEBFFFF8 16 0x40000FF8 s' m')
    as (_ & _ & Hin & _); [exact fresh_inv|exact demo_space_wf|lia|lia|vm_compute; discriminate|
    exact E|]. clear E. apply (Hin 9). lia.
Defined.

Lemma unmap_device_releases_witness :
  exists s' m', map_device fresh demo_space 0xFEBFFFF8 16 = (0x40000FF8, (s', m')) /\
    free fresh 0x40002000 /\ ~ free (unmap_device s' m' 0x40000FF8 16).1 0x40002000.
Proof.
  destruct (map_device fresh demo_space 0xFEBFFFF8 16) as [w [s' m']] eqn:E.
  assert (w = 0x40000FF8) as ->
    by (change w with (w, (s', m')).1; rewrite <- E; exact (eq_refl 0x40000FF8)).
  assert (s' = (vmalloc_reserve fresh 0x2000).2) as Hs'
    by (change s' with (0x40000FF8, (s', m')).2.1; rewrite <- E; vm_cast_no_check (eq_refl (vmalloc_reserve fresh 0x2000).2)).
  exists s', m'. split; [reflexivity|].
  destruct (unmap_device_releases fresh demo_space ∅ 0xFEBFFFF8 16 0x40000FF8 s' m')
    as (_ & Hf); [exact fresh_inv|exact demo_space_wf|lia|lia|vm_compute; discriminate|
    exact E|lia|]. clear E. split; [reflexivity|].
  rewrite Hf; [|rewrite Hs'; intros [_ Hn]; vm_compute in Hn; discriminate].
  intros [_ Hx]. apply Hx. vm_compute. split; [discriminate|reflexivity].
Defined.
