(* ===== verification/Heap.v ===== *)
(** * Kernel heap (src/kernel/mm/heap.cpp)

    State: the block headers in heap memory, by address, and the variables [head],
    [tail], [heap_base], [committed] and [used].  A header at an address without one
    cannot be read ([None], a fault).  Merging leaves the absorbed header behind in
    memory, as the code does.  Pages come from any [PageMapper]; the heap lock
    serialises the operations. *)

From S2P Require Import Prelude Interfaces Memory PageAlloc Paging PagingInit Vmalloc.

Record BlockHeader := mkHeader { size_ : Z; free_ : bool; next : Z; prev : Z }.

Definition sizeof_BlockHeader : Z := 32.
Definition heap_reserved : Z := 64 * 1024 * 1024.
Definition heap_growth_step : Z := 2 * 1024 * 1024.
Definition alignment : Z := 16.

Record heap := mkHeap {
  headers : gmap Z BlockHeader; head : Z; tail : Z; heap_base : Z; committed : Z; used : Z
}.

Definition align_up (value : Z) : Z :=
  Z.land (u64 (value + alignment - 1)) (not64 (alignment - 1)).

(** Field stores through a header pointer. *)
Definition put (a : Z) (b : BlockHeader) (h : heap) : heap :=
  mkHeap (<[a := b]> (headers h)) (head h) (tail h) (heap_base h) (committed h) (used h).
Definition modify (a : Z) (f : BlockHeader -> BlockHeader) (h : heap) : option heap :=
  b ← headers h !! a; Some (put a (f b) h).
Definition set_size (v : Z) (b : BlockHeader) := mkHeader v (free_ b) (next b) (prev b).
Definition set_free (v : bool) (b : BlockHeader) := mkHeader (size_ b) v (next b) (prev b).
Definition set_next (v : Z) (b : BlockHeader) := mkHeader (size_ b) (free_ b) v (prev b).
Definition set_prev (v : Z) (b : BlockHeader) := mkHeader (size_ b) (free_ b) (next b) v.
Definition set_head (v : Z) (h : heap) :=
  mkHeap (headers h) v (tail h) (heap_base h) (committed h) (used h).
Definition set_tail (v : Z) (h : heap) :=
  mkHeap (headers h) (head h) v (heap_base h) (committed h) (used h).
Definition set_committed (v : Z) (h : heap) :=
  mkHeap (headers h) (head h) (tail h) (heap_base h) v (used h).
Definition set_used (v : Z) (h : heap) :=
  mkHeap (headers h) (head h) (tail h) (heap_base h) (committed h) v.

(** [if (after != nullptr) after->prev = block; else tail = block;] *)
Definition relink_after (after block : Z) (h : heap) : option heap :=
  if negb (after =? 0) then modify after (set_prev block) h else Some (set_tail block h).

Definition split (block size : Z) (h : heap) : option heap :=
  b ← headers h !! block;
  let remaining := u64 (size_ b - size) in
  if remaining <? sizeof_BlockHeader + alignment then Some h
  else
    let nxt := block + sizeof_BlockHeader + size in
    let h := put nxt (mkHeader (remaining - sizeof_BlockHeader) true (next b) block) h in
    h ← relink_after (next b) nxt h;
    h ← modify block (set_next nxt) h;
    modify block (set_size size) h.

(** [block] takes over its successor [victim]. *)
Definition absorb (block victim : Z) (h : heap) : option heap :=
  b ← headers h !! block; v ← headers h !! victim;
  h ← modify block (set_size (u64 (size_ b + (sizeof_BlockHeader + size_ v)))) h;
  h ← modify block (set_next (next v)) h;
  relink_after (next v) block h.

Definition merge (block : Z) (h : heap) : option heap :=
  b ← headers h !! block;
  h ← (if next b =? 0 then Some h
       else v ← headers h !! next b;
            if free_ v then absorb block (next b) h else Some h);
  b ← headers h !! block;
  if prev b =? 0 then Some h
  else p ← headers h !! prev b;
       if free_ p then absorb (prev b) block h else Some h.

(** The loop that rounds the request up to whole growth steps. *)
Fixpoint grow_step (fuel : nat) (step wanted : Z) : Z :=
  match fuel with
  | O => step
  | S fuel' => if step <? u64 (wanted + sizeof_BlockHeader)
               then grow_step fuel' (u64 (step + heap_growth_step)) wanted
               else step
  end.

(** Enough turns: each adds a growth step. *)
Definition grow_fuel (wanted : Z) : nat :=
  Z.to_nat (u64 (wanted + sizeof_BlockHeader) / heap_growth_step + 1).

(** The header stores of [grow], up to [committed += step]. *)
Definition append (where_ step : Z) (h : heap) : option heap :=
  let h := put where_ (mkHeader (step - sizeof_BlockHeader) true 0 (tail h)) h in
  h ← (if tail h =? 0 then Some h else modify (tail h) (set_next where_) h);
  let h := set_tail where_ h in
  let h := if head h =? 0 then set_head where_ h else h in
  Some (set_committed (committed h + step) h).

Section mapped.
Context {M : Type} `{PageMapper M}.

(** The page loop of [grow]. *)
Fixpoint commit (n : nat) (where_ : Z) (m : M) : bool * M :=
  match n with
  | O => (true, m)
  | S n' =>
    let (frame, m) := pm_alloc m in
    if frame =? 0 then (false, m)
    else
      let (ok, m) := pm_map m where_ frame page_size
                       (flags_or PageFlags_Write PageFlags_NoExecute) in
      if negb ok then (false, pm_free m frame)
      else commit n' (where_ + page_size) m
  end.

Definition grow (wanted : Z) (h : heap) (m : M) : option (bool * heap * M) :=
  let step := grow_step (grow_fuel wanted) heap_growth_step wanted in
  if heap_reserved <? u64 (committed h + step) then Some (false, h, m)
  else
    let where_ := heap_base h + committed h in
    let (ok, m) := commit (Z.to_nat (step / page_size)) where_ m in
    if negb ok then Some (false, h, m)
    else
      h ← append where_ step h;
      h ← merge where_ h;
      Some (true, h, m).

(** [None] is the panic. *)
Definition heap_init (h : heap) (v : Vmalloc.state) (m : M) : option (heap * Vmalloc.state * M) :=
  let (base, v) := vmalloc_reserve v heap_reserved in
  if base =? 0 then None
  else
    let h := mkHeap (headers h) 0 0 base 0 0 in
    '(ok, h, m) ← grow page_size h m;
    if (ok : bool) then Some (h, v, m) else None.

(** The walk from [block]: [Some 0] when the list ends.  Every turn visits another
    header, so their number bounds the turns. *)
Fixpoint find_block (fuel : nat) (block wanted : Z) (h : heap) : option Z :=
  match fuel with
  | O => None
  | S fuel' =>
    if block =? 0 then Some 0
    else
      b ← headers h !! block;
      if negb (free_ b) || (size_ b <? wanted) then find_block fuel' (next b) wanted h
      else Some block
  end.

Definition find (wanted : Z) (h : heap) : option Z :=
  find_block (S (size (headers h))) (head h) wanted h.

(** Handing out [block]; the result is the payload address. *)
Definition take_block (block wanted : Z) (h : heap) : option (Z * heap) :=
  h ← split block wanted h;
  h ← modify block (set_free false) h;
  b ← headers h !! block;
  Some (block + sizeof_BlockHeader, set_used (u64 (used h + size_ b)) h).

(** The two attempts; null is 0. *)
Fixpoint attempts (n : nat) (wanted : Z) (h : heap) (m : M) : option (Z * heap * M) :=
  match n with
  | O => Some (0, h, m)
  | S n' =>
    block ← find wanted h;
    if negb (block =? 0) then '(p, h) ← take_block block wanted h; Some (p, h, m)
    else
      '(ok, h, m) ← grow wanted h m;
      if negb ok then Some (0, h, m) else attempts n' wanted h m
  end.

Definition kmalloc (size : Z) (h : heap) (m : M) : option (Z * heap * M) :=
  if (size =? 0) || (heap_reserved <? size) then Some (0, h, m)
  else attempts 2 (align_up size) h m.

(** [mem] holds the payload bytes. *)
Definition kzalloc (size : Z) (h : heap) (m : M) (mem : memory) :
    option (Z * heap * M * memory) :=
  '(p, h, m) ← kmalloc size h m;
  if negb (p =? 0) then mem ← memset mem p 0 size; Some (p, h, m, mem)
  else Some (p, h, m, mem).
End mapped.

Definition kfree (ptr : Z) (h : heap) : option heap :=
  if ptr =? 0 then Some h
  else
    let block := ptr - sizeof_BlockHeader in
    b ← headers h !! block;
    if free_ b then Some h
    else
      h ← modify block (set_free true) h;
      let h := set_used (u64 (used h - size_ b)) h in
      merge block h.

Definition heap_used (h : heap) : Z := used h.
Definition heap_capacity (h : heap) : Z := committed h.

(** ** The heap as a list of blocks *)

Record block := mkBlock { addr : Z; bsize : Z; bfree : bool }.

Definition hd_addr (l : list block) (n : Z) : Z :=
  match l with [] => n | b :: _ => addr b end.
Fixpoint last_addr (p : Z) (l : list block) : Z :=
  match l with [] => p | b :: l' => last_addr (addr b) l' end.

(** The headers of [l] in memory, linked in both directions, between [p] and [n]. *)
Fixpoint seg (hs : gmap Z BlockHeader) (p : Z) (l : list block) (n : Z) : Prop :=
  match l with
  | [] => True
  | b :: l' => hs !! addr b = Some (mkHeader (bsize b) (bfree b) (hd_addr l' n) p) /\
               seg hs (addr b) l' n
  end.

(** The blocks tile [lo, hi). *)
Fixpoint contig (lo : Z) (l : list block) (hi : Z) : Prop :=
  match l with
  | [] => lo = hi
  | b :: l' => addr b = lo /\ contig (lo + sizeof_BlockHeader + bsize b) l' hi
  end.

Definition block_ok (b : block) : Prop := alignment <= bsize b /\ bsize b mod alignment = 0.

(** Bytes handed out. *)
Fixpoint used_of (l : list block) : Z :=
  match l with [] => 0 | b :: l' => (if bfree b then 0 else bsize b) + used_of l' end.

(** No two free neighbours. *)
Fixpoint coalesced (l : list block) : Prop :=
  match l with
  | b :: (c :: _) as l' => ~ (bfree b = true /\ bfree c = true) /\ coalesced l'
  | _ => True
  end.

Lemma last_addr_app p l1 l2 : last_addr p (l1 ++ l2) = last_addr (last_addr p l1) l2.
Proof. revert p. induction l1; intros p; simpl; auto. Qed.

Lemma hd_addr_app l1 l2 n : hd_addr (l1 ++ l2) n = hd_addr l1 (hd_addr l2 n).
Proof. by destruct l1. Qed.

Lemma seg_app hs p l1 l2 n :
  seg hs p (l1 ++ l2) n <-> seg hs p l1 (hd_addr l2 n) /\ seg hs (last_addr p l1) l2 n.
Proof.
  revert p. induction l1 as [|b l1 IH]; intros p; simpl; [tauto|].
  rewrite IH, hd_addr_app. tauto.
Qed.

Lemma contig_app lo l1 l2 hi :
  contig lo (l1 ++ l2) hi <-> exists mid, contig lo l1 mid /\ contig mid l2 hi.
Proof.
  revert lo. induction l1 as [|b l1 IH]; intros lo; simpl.
  - split; [eauto|]. by intros (mid & -> & ?).
  - rewrite IH. split; [intros (? & mid & ? & ?)|intros (mid & (? & ?) & ?)]; eauto 6.
Qed.

Lemma used_of_app l1 l2 : used_of (l1 ++ l2) = used_of l1 + used_of l2.
Proof. induction l1; simpl; lia. Qed.

Lemma used_of_nonneg l : Forall block_ok l -> 0 <= used_of l.
Proof.
  induction 1 as [|b l [Hb _] _ IH]; simpl; [lia|]. unfold alignment in *. destruct (bfree b); lia.
Qed.

(** Addresses ascend, so they are distinct. *)
Lemma contig_bounds lo l hi : Forall block_ok l -> contig lo l hi ->
  lo <= hi /\ Forall (fun b => lo <= addr b /\ addr b + sizeof_BlockHeader + bsize b <= hi) l.
Proof.
  intros Hl. revert lo. induction Hl as [|b l [Hb _] Hl IH]; intros lo Hc; simpl in Hc.
  - subst. split; [lia|constructor].
  - destruct Hc as [<- Hc]. destruct (IH _ Hc) as [Hle Hall].
    unfold alignment, sizeof_BlockHeader in *. split; [lia|]. constructor; [lia|].
    eapply (list.Forall_impl _ _ _ Hall). intros c ?. lia.
Qed.

Lemma seg_ext hs hs' p l n :
  (forall b, b ∈ l -> hs' !! addr b = hs !! addr b) -> seg hs p l n -> seg hs' p l n.
Proof.
  revert p. induction l as [|b l IH]; intros p Hb; simpl; [done|].
  intros [H1 H2]. split; [by rewrite Hb by left|]. apply IH; [|done].
  intros c Hc. apply Hb. by right.
Qed.

Lemma seg_insert hs p l n a x : ~ a ∈ (addr <$> l) -> seg hs p l n -> seg (<[a := x]> hs) p l n.
Proof.
  intros Ha. apply seg_ext. intros b Hb. apply lookup_insert_ne. intros ->.
  apply Ha. by apply list_elem_of_fmap_2.
Qed.

(** The last link of a segment can be redirected. *)
Lemma seg_snoc hs p l b n : seg hs p (l ++ [b]) n <->
  seg hs p l (addr b) /\ hs !! addr b = Some (mkHeader (bsize b) (bfree b) n (last_addr p l)).
Proof. rewrite seg_app. simpl. tauto. Qed.

Lemma not_in_addrs a (l : list block) : (forall b, b ∈ l -> addr b <> a) -> ~ a ∈ (addr <$> l).
Proof. intros Hl (b & -> & Hb)%list_elem_of_fmap. by apply (Hl b). Qed.

(** ** Well-linked heaps *)

(** The structure, whatever is in use: linked, tiled, aligned, inside its
    reservation. *)
Record links (h : heap) (l : list block) : Prop := {
  lk_seg : seg (headers h) 0 l 0;
  lk_head : head h = hd_addr l 0;
  lk_tail : tail h = last_addr 0 l;
  lk_contig : contig (heap_base h) l (heap_base h + committed h);
  lk_ok : Forall block_ok l;
  lk_base : 0 < heap_base h /\ heap_base h + heap_reserved < 2 ^ 47 /\
            heap_base h mod page_size = 0;
  lk_committed : committed h <= heap_reserved /\ committed h mod page_size = 0
}.

Lemma elem_addr_lt lo l hi b : Forall block_ok l -> contig lo l hi -> b ∈ l ->
  lo <= addr b /\ addr b + sizeof_BlockHeader + bsize b <= hi /\ alignment <= bsize b.
Proof.
  intros Hok Hc Hb. destruct (contig_bounds _ _ _ Hok Hc) as [_ Hall].
  rewrite list.Forall_forall in Hall, Hok. destruct (Hall b Hb). destruct (Hok b Hb). lia.
Qed.

(** Where the parts of [l1 ++ m ++ l2] lie. *)
Lemma links_parts h l1 m l2 : links h (l1 ++ m ++ l2) ->
  exists lo hi, heap_base h <= lo /\ lo <= hi /\ hi <= heap_base h + committed h /\
    contig (heap_base h) l1 lo /\ contig lo m hi /\ contig hi l2 (heap_base h + committed h) /\
    Forall block_ok l1 /\ Forall block_ok m /\ Forall block_ok l2 /\
    (forall b, b ∈ l1 -> heap_base h <= addr b < lo) /\
    (forall b, b ∈ m -> lo <= addr b < hi) /\
    (forall b, b ∈ l2 -> hi <= addr b < heap_base h + committed h).
Proof.
  intros [_ _ _ Hc Hok _ _]. apply contig_app in Hc as (lo & C1 & C2).
  apply contig_app in C2 as (hi & C2 & C3).
  apply list.Forall_app in Hok as [O1 O2]. apply list.Forall_app in O2 as [O2 O3].
  destruct (contig_bounds _ _ _ O1 C1), (contig_bounds _ _ _ O2 C2), (contig_bounds _ _ _ O3 C3).
  exists lo, hi. unfold sizeof_BlockHeader, alignment in *.
  split_and!; try done; intros b Hb;
    [pose proof (elem_addr_lt _ _ _ _ O1 C1 Hb)|pose proof (elem_addr_lt _ _ _ _ O2 C2 Hb)
    |pose proof (elem_addr_lt _ _ _ _ O3 C3 Hb)]; unfold sizeof_BlockHeader, alignment in *; lia.
Qed.

Lemma relink_spec h p q l :
  seg (headers h) p l 0 -> NoDup (addr <$> l) -> (forall b, b ∈ l -> addr b <> 0) ->
  exists h', relink_after (hd_addr l 0) q h = Some h' /\
    seg (headers h') q l 0 /\
    (forall a, ~ a ∈ (addr <$> l) -> headers h' !! a = headers h !! a) /\
    tail h' = (match l with [] => q | _ => tail h end) /\
    head h' = head h /\ heap_base h' = heap_base h /\ committed h' = committed h /\ used h' = used h.
Proof.
  intros Hs Hnd Hnz. destruct l as [|c l].
  - exists (set_tail q h). by split_and!.
  - destruct Hs as [Hc Hs]. rewrite fmap_cons in Hnd. apply list.NoDup_cons in Hnd as [Hni Hnd].
    unfold relink_after, modify. simpl hd_addr.
    destruct (Z.eqb_spec (addr c) 0) as [E|_]; [by apply Hnz in E; [|left]|]. simpl negb. cbv iota.
    rewrite Hc. simpl. eexists. split; [done|]. cbn [put headers tail head heap_base committed used].
    split_and!; try done.
    + by rewrite lookup_insert_eq.
    + by apply seg_insert.
    + intros a Ha. apply lookup_insert_ne. intros <-. apply Ha. by left.
Qed.

Lemma contig_NoDup lo l hi : Forall block_ok l -> contig lo l hi -> NoDup (addr <$> l).
Proof.
  intros Hok. revert lo. induction Hok as [|b l [Hb _] Hok IH]; intros lo Hc; [constructor|].
  destruct Hc as [<- Hc]. rewrite fmap_cons. constructor; [|by eapply IH].
  apply not_in_addrs. intros c Hin. pose proof (elem_addr_lt _ _ _ _ Hok Hc Hin).
  unfold sizeof_BlockHeader, alignment in *. lia.
Qed.

(** Replacing the middle of the list by blocks that start at the same address. *)
Lemma links_replace h h' l1 m m' l2 :
  links h (l1 ++ m ++ l2) -> (forall n, hd_addr m' n = hd_addr m n) ->
  Forall block_ok m' -> (forall lo hi, contig lo m hi -> contig lo m' hi) ->
  (forall b, b ∈ l1 -> headers h' !! addr b = headers h !! addr b) ->
  seg (headers h') (last_addr 0 l1) m' (hd_addr l2 0) ->
  seg (headers h') (last_addr (last_addr 0 l1) m') l2 0 ->
  tail h' = match l2 with [] => last_addr (last_addr 0 l1) m' | _ => tail h end ->
  head h' = head h -> heap_base h' = heap_base h -> committed h' = committed h ->
  links h' (l1 ++ m' ++ l2).
Proof.
  intros Hl Hhd Hok Hcont H1 Hm H2 Ht Hh Hb Hc.
  destruct (links_parts _ _ _ _ Hl) as (lo & hi & _ & _ & _ & C1 & C2 & C3 & O1 & O2 & O3 & _).
  destruct Hl as [Ls Lh Lt Lc Lo Lb Lm]. apply seg_app in Ls as [S1 _].
  constructor.
  - rewrite !seg_app. rewrite hd_addr_app in *. split; [|done]. rewrite Hhd.
    eapply seg_ext; [|exact S1]. done.
  - rewrite Hh, Lh, !hd_addr_app. by rewrite Hhd.
  - rewrite Ht, !last_addr_app. destruct l2; [done|]. by rewrite Lt, !last_addr_app.
  - rewrite Hb, Hc. apply contig_app. exists lo. split; [done|]. apply contig_app. eauto.
  - rewrite !list.Forall_app. by split_and!.
  - by rewrite Hb.
  - by rewrite Hc.
Qed.

(** ** The operations on the list *)

(** The variables an operation on headers leaves alone. *)
Definition kept (h h' : heap) : Prop :=
  heap_base h' = heap_base h /\ committed h' = committed h /\ used h' = used h.

Lemma kept_trans h1 h2 h3 : kept h1 h2 -> kept h2 h3 -> kept h1 h3.
Proof. unfold kept. intuition congruence. Qed.

(** A block of the list, its header and its neighbours. *)
Lemma links_block h l1 b l2 : links h (l1 ++ b :: l2) ->
  headers h !! addr b = Some (mkHeader (bsize b) (bfree b) (hd_addr l2 0) (last_addr 0 l1)) /\
  seg (headers h) (addr b) l2 0 /\ block_ok b /\
  (forall c, c ∈ l1 -> addr c < addr b) /\
  (forall c, c ∈ l2 -> addr b + sizeof_BlockHeader + bsize b <= addr c) /\
  NoDup (addr <$> l2) /\ 0 < addr b /\ addr b + sizeof_BlockHeader + bsize b < 2 ^ 47 /\
  (forall c, c ∈ l2 -> addr c <> 0).
Proof.
  intros Hl. destruct (links_parts h l1 [b] l2 Hl)
    as (lo & hi & L1 & L2 & L3 & C1 & [Hab C2] & C3 & O1 & O2 & O3 & E1 & E2 & E3).
  simpl in C2. subst lo hi. rewrite list.Forall_singleton in O2.
  destruct (lk_base _ _ Hl) as (? & ? & _). destruct (lk_committed _ _ Hl) as [? _].
  destruct (contig_bounds _ _ _ O3 C3) as [? _]. pose proof (lk_seg _ _ Hl) as Hs.
  apply seg_app in Hs as [_ [Hh Hs]]. destruct O2 as [? ?].
  unfold sizeof_BlockHeader, alignment in *.
  split_and!; try done; try lia.
  - intros c Hc. apply E1 in Hc. lia.
  - intros c Hc. apply E3 in Hc. lia.
  - by eapply contig_NoDup.
  - intros c Hc. apply E3 in Hc. lia.
Qed.

(** The blocks [split] makes of [b]. *)
Definition carve (b : block) (w : Z) : list block :=
  if bsize b - w <? sizeof_BlockHeader + alignment then [b]
  else [mkBlock (addr b) w (bfree b);
        mkBlock (addr b + sizeof_BlockHeader + w) (bsize b - w - sizeof_BlockHeader) true].

Lemma split_links h l1 b l2 w :
  links h (l1 ++ b :: l2) -> alignment <= w <= bsize b -> w mod alignment = 0 ->
  exists h', split (addr b) w h = Some h' /\ links h' (l1 ++ carve b w ++ l2) /\ kept h h'.
Proof.
  intros Hl Hw Hwm. destruct (links_block _ _ _ _ Hl)
    as (Hh & Hs & [Hb1 Hb2] & E1 & E2 & Hnd & Hpos & Htop & Hnz).
  unfold split, carve. rewrite Hh. cbn [mbind option_bind size_ next].
  change (2 ^ 47) with 140737488355328 in *. unfold sizeof_BlockHeader, alignment in *.
  rewrite u64_small by lia. destruct (Z.ltb_spec (bsize b - w) (32 + 16)) as [Hs48|Hs48].
  { exists h. by split_and!. }
  set (nxt := addr b + 32 + w). set (r := mkBlock nxt (bsize b - w - 32) true).
  set (h1 := put nxt _ h).
  assert (~ nxt ∈ (addr <$> l2)) as Hn2
    by (apply not_in_addrs; intros c Hc; pose proof (E2 c Hc); lia).
  destruct (relink_spec h1 (addr b) nxt l2) as (h2 & R1 & R2 & R3 & R4 & R5 & R6 & R7 & R8).
  { cbn [h1 put headers]. by apply seg_insert. } { done. } { done. }
  rewrite R1. cbn [mbind option_bind]. unfold modify.
  assert (headers h2 !! addr b = headers h !! addr b) as Hb.
  { rewrite R3 by (apply not_in_addrs; intros c Hc; pose proof (E2 c Hc); lia).
    cbn [h1 put headers]. apply lookup_insert_ne. lia. }
  rewrite Hb, Hh. cbn [mbind option_bind]. cbn [put headers]. rewrite lookup_insert_eq.
  cbn [mbind option_bind]. set (h3 := put _ _ _). exists h3. split; [reflexivity|].
  assert (headers h3 = <[addr b := mkHeader w (bfree b) nxt (last_addr 0 l1)]> (headers h2)) as Hh3.
  { cbn [h3 put headers]. by rewrite insert_insert_eq. }
  split; [|by unfold kept, h3; cbn [put heap_base committed used]; rewrite R6, R7, R8].
  assert (headers h2 !! nxt = Some (mkHeader (bsize r) true (hd_addr l2 0) (addr b))) as Hr.
  { rewrite R3 by done. cbn [h1 put headers]. by rewrite lookup_insert_eq. }
  eapply (links_replace h h3 l1 [b] _ l2); [exact Hl|done|..]; rewrite ?Hh3;
    unfold h3; cbn [put tail head heap_base committed]; fold h3.
  - repeat constructor; unfold alignment; simpl; try done; try lia. dlia.
  - intros lo hi [Ea Eh]. unfold r, nxt. cbn [contig addr bsize] in *.
    unfold sizeof_BlockHeader in *. split_and!; lia.
  - intros c Hc. pose proof (E1 c Hc). rewrite lookup_insert_ne by lia.
    rewrite R3; [apply lookup_insert_ne; lia|].
    apply not_in_addrs. intros d Hd. pose proof (E2 d Hd). lia.
  - simpl. split; [by rewrite lookup_insert_eq|]. split; [|done].
    fold nxt. rewrite lookup_insert_ne by lia. exact Hr.
  - apply seg_insert; [|exact R2]. apply not_in_addrs. intros c Hc. pose proof (E2 c Hc). lia.
  - rewrite R4. by destruct l2.
  - by rewrite R5.
  - by rewrite R6.
  - by rewrite R7.
Qed.

Lemma absorb_links h l1 b v l2 :
  links h (l1 ++ b :: v :: l2) ->
  exists h', absorb (addr b) (addr v) h = Some h' /\
    links h' (l1 ++ mkBlock (addr b) (bsize b + sizeof_BlockHeader + bsize v) (bfree b) :: l2) /\
    kept h h'.
Proof.
  intros Hl. destruct (links_block _ _ _ _ Hl)
    as (Hh & [Hv Hs] & [Hb1 Hb2] & E1 & E2 & Hnd & Hpos & Htop & Hnz).
  assert (links h ((l1 ++ [b]) ++ v :: l2)) as Hl' by (by rewrite <- app_assoc).
  destruct (links_block _ _ _ _ Hl') as (_ & _ & [Hv1 Hv2] & F1 & F2 & Hnd2 & _ & Htop2 & Hnz2).
  clear Hl'. assert (addr b < addr v) as Hbv by (pose proof (E2 v ltac:(by left));
    unfold sizeof_BlockHeader, alignment in *; lia).
  unfold absorb. rewrite Hh, Hv. cbn [mbind option_bind size_ next].
  unfold modify. rewrite Hh. cbn [mbind option_bind put headers]. rewrite lookup_insert_eq.
  cbn [mbind option_bind].
  change (2 ^ 47) with 140737488355328 in *. unfold sizeof_BlockHeader, alignment in *.
  pose proof (E2 v ltac:(by left)). rewrite u64_small by lia.
  set (h1 := put (addr b) _ _).
  assert (headers h1 = <[addr b := mkHeader (bsize b + (32 + bsize v)) (bfree b) (hd_addr l2 0)
                                     (last_addr 0 l1)]> (headers h)) as Hh1.
  { cbn [h1 put headers]. by rewrite insert_insert_eq. }
  assert (forall c, c ∈ l2 -> addr b < addr c) as Hbl by (intros c Hc; pose proof (F2 c Hc); lia).
  destruct (relink_spec h1 (addr v) (addr b) l2) as (h2 & R1 & R2 & R3 & R4 & R5 & R6 & R7 & R8).
  { rewrite Hh1. apply seg_insert; [|done]. apply not_in_addrs. intros c Hc. pose proof (Hbl c Hc). lia. }
  { done. } { done. }
  exists h2. split; [exact R1|].
  split; [|by unfold kept; rewrite R6, R7, R8].
  eapply (links_replace h _ l1 [b; v] [_] l2); [exact Hl|done|..].
  - repeat constructor; unfold alignment; simpl; [lia|dlia].
  - intros lo hi (Ea & Ev & <-). simpl. unfold sizeof_BlockHeader. split; [done|lia].
  - intros c Hc. pose proof (E1 c Hc). rewrite R3.
    + rewrite Hh1. apply lookup_insert_ne. lia.
    + apply not_in_addrs. intros d Hd. pose proof (Hbl d Hd). lia.
  - simpl. split; [|done]. rewrite R3, Hh1, lookup_insert_eq.
    + do 2 f_equal. lia.
    + apply not_in_addrs. intros d Hd. pose proof (Hbl d Hd). lia.
  - done.
  - rewrite R4. by destruct l2.
  - by rewrite R5.
  - by rewrite R6.
  - by rewrite R7.
Qed.

(** [a] takes over its right neighbour [b]. *)
Definition join (a b : block) : block :=
  mkBlock (addr a) (bsize a + sizeof_BlockHeader + bsize b) (bfree a).

(** [merge] on the list: first with the right neighbour, then with the left. *)
Definition merge_right (b : block) (l2 : list block) : list block :=
  match l2 with
  | v :: l => if bfree v then join b v :: l else b :: l2
  | [] => [b]
  end.
Definition merge_left (l1 m : list block) : list block :=
  match list.last l1, m with
  | Some p, b :: l => if bfree p then take (pred (length l1)) l1 ++ join p b :: l else l1 ++ m
  | _, _ => l1 ++ m
  end.
Definition merged (l1 : list block) (b : block) (l2 : list block) : list block :=
  merge_left l1 (merge_right b l2).

Lemma merge_left_snoc l p b m : merge_left (l ++ [p]) (b :: m) =
  if bfree p then l ++ join p b :: m else l ++ p :: b :: m.
Proof.
  unfold merge_left. rewrite last_snoc, length_app. cbn [length]. rewrite Nat.add_1_r. cbn [pred].
  rewrite take_app_length. destruct (bfree p); [done|]. by rewrite <- app_assoc.
Qed.

Lemma last_addr_snoc p l b : last_addr p (l ++ [b]) = addr b.
Proof. by rewrite last_addr_app. Qed.

Lemma absorb_join h l1 b v l2 : links h (l1 ++ b :: v :: l2) ->
  exists h', absorb (addr b) (addr v) h = Some h' /\ links h' (l1 ++ join b v :: l2) /\ kept h h'.
Proof. apply absorb_links. Qed.

Lemma merge_right_spec h l1 b l2 :
  links h (l1 ++ b :: l2) ->
  exists h', (let nx := hd_addr l2 0 in
              if nx =? 0 then Some h
              else v ← headers h !! nx; if free_ v then absorb (addr b) nx h else Some h) = Some h' /\
    links h' (l1 ++ merge_right b l2) /\ kept h h'.
Proof.
  intros Hl. destruct (links_block _ _ _ _ Hl) as (_ & Hs & _ & _ & _ & _ & _ & _ & Hnz). cbv zeta.
  destruct l2 as [|v l2]; simpl hd_addr.
  { exists h. by split_and!. }
  destruct (Z.eqb_spec (addr v) 0) as [E|_]; [by apply Hnz in E; [|left]|].
  destruct Hs as [Hv _]. rewrite Hv. cbn [mbind option_bind free_ merge_right].
  destruct (bfree v).
  - by apply absorb_join.
  - exists h. by split_and!.
Qed.

Lemma merge_links h l1 b l2 :
  links h (l1 ++ b :: l2) ->
  exists h', merge (addr b) h = Some h' /\ links h' (merged l1 b l2) /\ kept h h'.
Proof.
  intros Hl. destruct (links_block _ _ _ _ Hl) as (Hh & _).
  destruct (merge_right_spec _ _ _ _ Hl) as (h1 & E1 & Hl1 & K1).
  unfold merge. rewrite Hh. cbn [mbind option_bind next]. cbv zeta in E1. rewrite E1.
  cbn [mbind option_bind]. clear E1 Hh. unfold merged.
  assert (exists b' l2', merge_right b l2 = b' :: l2' /\ addr b' = addr b) as (b' & l2' & Em & Ea).
  { destruct l2 as [|v l2]; simpl; [eauto|]. destruct (bfree v); eauto. }
  rewrite Em in *. clear Em Hl. rewrite <- Ea. destruct (links_block _ _ _ _ Hl1) as (Hh & _).
  rewrite Hh. cbn [mbind option_bind prev].
  destruct l1 as [|p l1 _] using rev_ind.
  { exists h1. by split_and!. }
  rewrite last_addr_snoc, merge_left_snoc. rewrite <- app_assoc in Hl1. cbn [app] in Hl1.
  destruct (links_block _ _ _ _ Hl1) as (Hp & _ & _ & _ & _ & _ & Hpos & _).
  destruct (Z.eqb_spec (addr p) 0) as [|_]; [lia|]. rewrite Hp. cbn [mbind option_bind free_].
  destruct (bfree p).
  - destruct (absorb_join _ _ _ _ _ Hl1) as (h2 & -> & Hl2 & K2).
    exists h2. split_and!; [done|done|by eapply kept_trans].
  - exists h1. by split_and!.
Qed.

Lemma set_free_links h l1 b l2 f :
  links h (l1 ++ b :: l2) ->
  exists h', modify (addr b) (set_free f) h = Some h' /\
    links h' (l1 ++ mkBlock (addr b) (bsize b) f :: l2) /\ kept h h' /\
    headers h' !! addr b = Some (mkHeader (bsize b) f (hd_addr l2 0) (last_addr 0 l1)).
Proof.
  intros Hl. destruct (links_block _ _ _ _ Hl)
    as (Hh & Hs & Hok & E1 & E2 & Hnd & Hpos & Htop & Hnz).
  assert (forall c, c ∈ l2 -> addr b < addr c) as E3.
  { intros c Hc. pose proof (E2 c Hc). destruct Hok. unfold sizeof_BlockHeader, alignment in *. lia. }
  unfold modify. rewrite Hh. cbn [mbind option_bind]. eexists. split; [done|].
  cbn [put headers]. rewrite lookup_insert_eq. split; [|split; [done|done]].
  eapply (links_replace h _ l1 [b] [_] l2); [exact Hl|done|..];
    cbn [put headers tail head heap_base committed]; try done.
  - by constructor.
  - intros c Hc. pose proof (E1 c Hc). apply lookup_insert_ne. lia.
  - simpl. split; [|done]. by rewrite lookup_insert_eq.
  - apply seg_insert; [|done]. apply not_in_addrs. intros c Hc. pose proof (E3 c Hc). lia.
  - rewrite (lk_tail _ _ Hl), last_addr_app. simpl. by destruct l2.
Qed.

(** *** Free neighbours *)

Lemma coalesced_cons b l : coalesced (b :: l) <->
  match l with c :: _ => ~ (bfree b = true /\ bfree c = true) | [] => True end /\ coalesced l.
Proof. destruct l; simpl; tauto. Qed.

Lemma coalesced_mid l p m : coalesced (l ++ p :: m) <-> coalesced (l ++ [p]) /\ coalesced (p :: m).
Proof.
  induction l as [|x l IH].
  - simpl. tauto.
  - rewrite <- !app_comm_cons, !(coalesced_cons x), IH. destruct l; simpl; tauto.
Qed.

Lemma coalesced_ext l l' : bfree <$> l = bfree <$> l' -> coalesced l -> coalesced l'.
Proof.
  revert l'. induction l as [|x l IH]; intros [|x' l'] E; try done.
  rewrite !fmap_cons in E. injection E as Ex El. rewrite !coalesced_cons. intros [H1 H2].
  split; [|by apply IH]. destruct l as [|y l], l' as [|y' l']; try done.
  rewrite !fmap_cons in El. injection El as Ey _. congruence.
Qed.

Lemma coalesced_allocated l1 b l2 :
  bfree b = false -> coalesced l1 -> coalesced l2 -> coalesced (l1 ++ b :: l2).
Proof.
  intros Hb H1 H2. rewrite coalesced_mid. split.
  - clear H2. induction l1 as [|x l1 IH]; [done|]. rewrite <- app_comm_cons, coalesced_cons.
    rewrite coalesced_cons in H1. destruct H1 as [Hx H1]. split; [|by apply IH].
    destruct l1; simpl; [rewrite Hb; naive_solver|done].
  - rewrite coalesced_cons. split; [|done]. destruct l2; [done|]. rewrite Hb. naive_solver.
Qed.

Lemma coalesced_parts l1 b l2 : coalesced (l1 ++ b :: l2) -> coalesced l1 /\ coalesced l2.
Proof.
  intros [H1 H2]%coalesced_mid. rewrite coalesced_cons in H2. split; [|tauto]. clear H2.
  induction l1 as [|x l1 IH]; [done|]. rewrite <- app_comm_cons, coalesced_cons in H1.
  rewrite coalesced_cons. destruct H1 as [H1 H2]. split; [|by apply IH]. by destruct l1.
Qed.

#[local] Arguments coalesced : simpl never.

Lemma merge_right_free b l2 : bfree b = true -> coalesced l2 ->
  exists b' l, merge_right b l2 = b' :: l /\ bfree b' = true /\ addr b' = addr b /\
    coalesced (b' :: l) /\ used_of l = used_of l2.
Proof.
  intros Hb H2. destruct l2 as [|v l2]; simpl; [by exists b, []|].
  destruct (bfree v) eqn:Hv.
  - exists (join b v), l2. split_and!; try done. eapply coalesced_ext; [|exact H2].
    rewrite !fmap_cons. simpl. by rewrite Hb, Hv.
  - exists b, (v :: l2). split_and!; try done.
    + rewrite coalesced_cons. split; [|done]. rewrite Hv. naive_solver.
    + simpl. by rewrite Hv.
Qed.

Lemma merged_spec l1 b l2 : bfree b = true -> coalesced l1 -> coalesced l2 ->
  coalesced (merged l1 b l2) /\ used_of (merged l1 b l2) = used_of l1 + used_of l2.
Proof.
  intros Hb H1 H2. unfold merged.
  destruct (merge_right_free b l2 Hb H2) as (b' & l & -> & Hb' & _ & Hc & Hu).
  destruct l1 as [|p l1 _] using rev_ind.
  { split; [exact Hc|]. simpl. rewrite Hb', Hu. lia. }
  rewrite merge_left_snoc. destruct (bfree p) eqn:Hp.
  - split.
    + rewrite coalesced_mid. split.
      * eapply coalesced_ext; [|exact H1]. by rewrite !fmap_app.
      * eapply coalesced_ext; [|exact Hc]. rewrite !fmap_cons. simpl. by rewrite Hp, Hb'.
    + rewrite !used_of_app. simpl. rewrite Hp. lia.
  - split.
    + rewrite coalesced_mid. split; [done|]. rewrite coalesced_cons. split; [|done].
      rewrite Hp. naive_solver.
    + rewrite !used_of_app. simpl. rewrite Hp, Hb'. lia.
Qed.

(** *** First fit *)

Definition fits (w : Z) (b : block) : Prop := bfree b = true /\ w <= bsize b.
#[global] Instance fits_dec w b : Decision (fits w b).
Proof. unfold fits. apply _. Defined.

Lemma find_block_spec fuel h p l w :
  seg (headers h) p l 0 -> (forall b, b ∈ l -> addr b <> 0) -> (length l < fuel)%nat ->
  find_block fuel (hd_addr l 0) w h =
  Some (match list_find (fits w) l with Some (_, b) => addr b | None => 0 end).
Proof.
  revert p l. induction fuel as [|fuel IH]; intros p l Hs Hnz Hf; [lia|].
  destruct l as [|b l]; simpl; [done|]. destruct Hs as [Hb Hs].
  destruct (Z.eqb_spec (addr b) 0) as [E|_]; [by apply Hnz in E; [|left]|].
  rewrite Hb. cbn [mbind option_bind free_ size_ next].
  rewrite length_cons in Hf. case_decide as Hd.
  - destruct Hd as [Hfr Hsz]. rewrite Hfr. destruct (Z.ltb_spec (bsize b) w); [lia|done].
  - assert (negb (bfree b) || (bsize b <? w) = true) as ->.
    { unfold fits in Hd. destruct (bfree b); simpl; [|done]. apply Z.ltb_lt.
      destruct (Z.lt_ge_cases (bsize b) w); [done|]. naive_solver lia. }
    rewrite (IH (addr b) l); [|done| |lia].
    + by destruct (list_find (fits w) l) as [[i c]|].
    + intros c Hc. apply Hnz. by right.
Qed.

Lemma seg_dom hs p l n a : seg hs p l n -> a ∈ (addr <$> l) -> a ∈ dom hs.
Proof.
  revert p. induction l as [|b l IH]; intros p Hs Ha; [by apply not_elem_of_nil in Ha|].
  destruct Hs as [Hb Hs]. rewrite fmap_cons in Ha. apply elem_of_cons in Ha as [->|Ha].
  - by apply elem_of_dom_2 in Hb.
  - by eapply IH.
Qed.

Lemma links_nonzero h l b : links h l -> b ∈ l -> addr b <> 0.
Proof.
  intros Hl Hb. apply list_elem_of_split in Hb as (l1 & l2 & ->).
  destruct (links_block _ _ _ _ Hl) as (_ & _ & _ & _ & _ & _ & ? & _). lia.
Qed.

Lemma find_spec h l w : links h l ->
  find w h = Some (match list_find (fits w) l with Some (_, b) => addr b | None => 0 end).
Proof.
  intros Hl. unfold find. rewrite (lk_head _ _ Hl). eapply find_block_spec.
  - apply (lk_seg _ _ Hl).
  - intros b. by apply (links_nonzero h l).
  - pose proof (contig_NoDup _ _ _ (lk_ok _ _ Hl) (lk_contig _ _ Hl)) as Hnd.
    assert (list_to_set (addr <$> l) ⊆ dom (headers h)) as Hsub.
    { intros a Ha%elem_of_list_to_set. eapply seg_dom; [apply (lk_seg _ _ Hl)|done]. }
    apply subseteq_size in Hsub. rewrite size_dom, size_list_to_set, length_fmap in Hsub by done. lia.
Qed.

(** *** Handing out and growing *)

(** The blocks that replace [b] when [w] bytes of it are handed out. *)
Definition hand_out (b : block) (w : Z) : list block :=
  match carve b w with c :: r => mkBlock (addr c) (bsize c) false :: r | [] => [] end.

(** The size of the block handed out. *)
Definition granted (b : block) (w : Z) : Z :=
  if bsize b - w <? sizeof_BlockHeader + alignment then bsize b else w.

Lemma hand_out_used b w : bfree b = true -> used_of (hand_out b w) = granted b w.
Proof. intros Hb. unfold hand_out, carve, granted. destruct (_ <? _); simpl; lia. Qed.

Lemma take_block_links h l1 b l2 w :
  links h (l1 ++ b :: l2) -> fits w b -> alignment <= w -> w mod alignment = 0 ->
  exists h', take_block (addr b) w h = Some (addr b + sizeof_BlockHeader, h') /\
    links h' (l1 ++ hand_out b w ++ l2) /\ heap_base h' = heap_base h /\
    committed h' = committed h /\ used h' = u64 (used h + granted b w).
Proof.
  intros Hl [Hfr Hsz] Hw Hwm. unfold take_block.
  destruct (split_links _ _ _ _ w Hl ltac:(lia) Hwm) as (h1 & -> & Hl1 & K1).
  cbn [mbind option_bind].
  assert (exists c r, carve b w = c :: r /\ addr c = addr b /\ bsize c = granted b w)
    as (c & r & Ec & Ea & Eg).
  { unfold carve, granted. destruct (_ <? _); eauto. }
  unfold hand_out. rewrite Ec in *. rewrite <- app_comm_cons in Hl1. rewrite <- Ea.
  destruct (set_free_links _ _ _ _ false Hl1) as (h2 & -> & Hl2 & K2 & Hc).
  cbn [mbind option_bind]. rewrite Hc. cbn [mbind option_bind size_]. eexists. split; [done|].
  destruct K1 as (B1 & C1 & U1), K2 as (B2 & C2 & U2).
  cbn [set_used heap_base committed used].
  split; [destruct Hl2; by constructor|]. split_and!; [congruence..|by rewrite Eg, U2, U1].
Qed.

Lemma grow_step_spec fuel step wanted :
  0 <= wanted <= 2 ^ 32 -> 0 <= step <= 2 ^ 33 -> step mod heap_growth_step = 0 ->
  wanted + sizeof_BlockHeader <= step + Z.of_nat fuel * heap_growth_step ->
  let r := grow_step fuel step wanted in
  wanted + sizeof_BlockHeader <= r /\ r mod heap_growth_step = 0 /\
  step <= r < Z.max (step + 1) (wanted + sizeof_BlockHeader + heap_growth_step).
Proof.
  change (2 ^ 32) with 4294967296. change (2 ^ 33) with 8589934592.
  unfold heap_growth_step, sizeof_BlockHeader. intros Hw.
  revert step. induction fuel as [|fuel IH]; intros step Hs Hm Hf; cbn [grow_step].
  { split_and!; try done; lia. }
  unfold heap_growth_step, sizeof_BlockHeader. rewrite !u64_small by lia.
  destruct (Z.ltb_spec step (wanted + 32)) as [Hlt|Hge].
  - destruct (IH (step + 2 * 1024 * 1024)) as (R1 & R2 & R3); [lia|dlia|lia|].
    cbv zeta in *. split_and!; try done; lia.
  - split_and!; try done; lia.
Qed.

(** What [grow] adds for a request of [wanted] bytes. *)
Definition grown (wanted : Z) : Z := grow_step (grow_fuel wanted) heap_growth_step wanted.

Lemma grown_spec wanted : 0 <= wanted <= 2 ^ 32 ->
  wanted + sizeof_BlockHeader <= grown wanted /\ grown wanted mod heap_growth_step = 0 /\
  heap_growth_step <= grown wanted <= wanted + sizeof_BlockHeader + heap_growth_step.
Proof.
  intros Hw. unfold grown.
  destruct (grow_step_spec (grow_fuel wanted) heap_growth_step wanted Hw) as (R1 & R2 & R3).
  - by vm_compute.
  - done.
  - unfold grow_fuel. change (2 ^ 32) with 4294967296 in Hw.
    change heap_growth_step with 2097152 in *. unfold sizeof_BlockHeader in *.
    rewrite u64_small by lia. rewrite Z2Nat.id by dlia. dlia.
  - unfold sizeof_BlockHeader in *. split_and!; try done; lia.
Qed.

Lemma append_links h l step :
  links h l -> 0 < step -> step mod page_size = 0 -> committed h + step <= heap_reserved ->
  let where_ := heap_base h + committed h in
  exists h', append where_ step h = Some h' /\
    links h' (l ++ [mkBlock where_ (step - sizeof_BlockHeader) true]) /\
    heap_base h' = heap_base h /\ committed h' = committed h + step /\ used h' = used h.
Proof.
  intros Hl Hs Hsm Hres where_. pose proof Hl as [Ls Lh Lt Lc Lo (Lb1 & Lb2 & Lb3) [Lm1 Lm2]].
  destruct (contig_bounds _ _ _ Lo Lc) as [Hle _].
  assert (forall b, b ∈ l -> addr b < where_) as Hlt.
  { intros b Hb. pose proof (elem_addr_lt _ _ _ _ Lo Lc Hb).
    unfold sizeof_BlockHeader, alignment, where_ in *. lia. }
  unfold append. set (h1 := put where_ _ h). unfold h1 at 1 3. cbn [put tail].
  assert (contig (heap_base h) (l ++ [mkBlock where_ (step - sizeof_BlockHeader) true])
            (heap_base h + (committed h + step))) as Hc'.
  { apply contig_app. exists where_. split; [done|]. simpl. split; [done|]. unfold where_. lia. }
  assert (Forall block_ok (l ++ [mkBlock where_ (step - sizeof_BlockHeader) true])) as Hok'.
  { apply list.Forall_app. split; [done|]. constructor; [|done]. unfold block_ok; simpl.
    unfold sizeof_BlockHeader, alignment, page_size in *. dlia. }
  assert (headers h1 !! where_ = Some (mkHeader (step - sizeof_BlockHeader) true 0 (last_addr 0 l)))
    as Hw. { cbn [h1 put headers]. rewrite lookup_insert_eq. by rewrite <- Lt. }
  assert (forall n, seg (headers h) 0 l n -> seg (headers h1) 0 l n) as Hs1.
  { intros n. apply seg_insert. apply not_in_addrs. intros b Hb. pose proof (Hlt b Hb). lia. }
  rewrite Lt. destruct l as [|p l _] using rev_ind.
  - simpl last_addr. rewrite Z.eqb_refl. cbn [mbind option_bind].
    cbn [set_tail head]. assert (head h1 = 0) as -> by exact Lh. rewrite Z.eqb_refl. eexists. split; [done|].
    cbn [set_committed set_head set_tail heap_base committed used headers head tail].
    split; [|split_and!; try done; lia].
    constructor; cbn [set_committed set_head set_tail heap_base committed used headers head tail];
      try done. change (committed h1) with (committed h). unfold page_size in *. split; [lia|dlia].
  - rewrite last_addr_snoc. pose proof (links_nonzero _ _ p Hl ltac:(set_solver)) as Hnz.
    destruct (Z.eqb_spec (addr p) 0) as [|_]; [done|].
    pose proof Ls as Ls'. apply Hs1 in Ls'. apply seg_snoc in Ls' as [S1 S2].
    unfold modify. rewrite S2. cbn [mbind option_bind].
    assert (addr p < where_) as Hpw by (apply Hlt; set_solver).
    assert (head h1 <> 0) as Hh0.
    { change (head h <> 0). rewrite Lh, hd_addr_app. destruct l as [|x l]; [done|].
      simpl. apply (links_nonzero _ _ x Hl). set_solver. }
    cbn [set_tail put head]. destruct (Z.eqb_spec (head h1) 0) as [|_]; [done|].
    eexists. split; [done|].
    cbn [set_committed set_tail put heap_base committed used headers head tail].
    split; [|split_and!; try done; lia].
    constructor; cbn [set_committed set_tail put heap_base committed used headers head tail]; try done.
    + apply seg_snoc. cbn [addr bsize bfree]. split.
      * apply seg_snoc. rewrite lookup_insert_eq. split; [|by cbn [set_next size_ free_ prev]].
        apply seg_insert; [|done]. apply not_in_addrs. intros b Hb. rewrite <- app_assoc in *.
        destruct (links_block _ _ _ _ Hl) as (_ & _ & _ & E1 & _). pose proof (E1 b Hb). lia.
      * rewrite lookup_insert_ne by lia. by rewrite Hw.
    + change (head h = hd_addr ((l ++ [p]) ++ [mkBlock where_ (step - sizeof_BlockHeader) true]) 0).
      rewrite Lh, !hd_addr_app. by destruct l.
    + by rewrite last_addr_snoc.
    + split; [unfold h1; cbn [put committed]; lia|]. unfold h1. cbn [put committed].
      unfold page_size in *. dlia.
Qed.

(** ** The heap over its pages *)

Section proofs.
Context {M : Type} `{PageMapperSpec M}.

(** Every address of [lo, hi) has a page behind it. *)
Definition backed (m : M) (lo hi : Z) : Prop :=
  forall va, lo <= va < hi -> pm_translate m va <> 0.

(** The mapper is sound with the frames of some set in use. *)
Definition frames_ok (m : M) (D : gset Z) : Prop :=
  pm_wf m D /\ forall f, f ∈ D -> 0 < f < 2 ^ 30 /\ f mod page_size = 0.

(** The frame behind an address. *)
Definition frame_at (m : M) (va : Z) : Z := pm_translate m va / page_size * page_size.

(** Committing pages: their frames are new, and distinct. *)
Lemma commit_frames n where_ m D ok m' :
  frames_ok m D -> 0 <= where_ -> where_ mod page_size = 0 ->
  where_ + Z.of_nat n * page_size <= 2 ^ 48 -> commit n where_ m = (ok, m') ->
  exists D', D ⊆ D' /\ frames_ok m' D' /\ pm_same m m' where_ (Z.of_nat n * page_size) /\
    (ok = true -> let hi := where_ + Z.of_nat n * page_size in
     (forall va, where_ <= va < hi -> frame_at m' va ∈ D' /\ frame_at m' va ∉ D) /\
     (forall va va', where_ <= va < hi -> where_ <= va' < hi -> frame_at m' va = frame_at m' va' -> va / page_size = va' / page_size)).
Proof.
  revert where_ m D. induction n as [|n IH]; intros where_ m D [Hwf HD] Hp Hal Hlim E; cbn [commit] in E.
  { injection E as <- <-. exists D. split_and!; try done. intros _. split; intros; lia. }
  destruct (pm_alloc m) as [f m1] eqn:E1. apply (pm_alloc_spec _ D) in E1 as [Hs1 Hf]; [|done].
  destruct (Z.eqb_spec f 0) as [->|Hf0].
  { injection E as <- <-. exists D. split_and!; try done. intros va Hva _. by apply Hs1; [|lia]. }
  destruct Hf as (Hwf1 & HfD & Hfr & Hfm). destruct (pm_map m1 where_ f page_size _) as [ok1 m2] eqn:E2.
  assert (pm_span page_size = page_size) as Hps by done.
  eapply pm_map_spec in E2 as (Hwf2 & Hs2 & Hmap); [|done| |lia|done|rewrite Hps; unfold page_size; lia].
  2:{ split_and!; [done|done|done|]. rewrite Hps. unfold page_size in *. lia. }
  rewrite Hps in *.
  assert (forall g, g ∈ {[ f ]} ∪ D -> 0 < g < 2 ^ 30 /\ g mod page_size = 0) as HD2.
  { intros g [->%elem_of_singleton|Hg]%elem_of_union; [done|by apply HD]. }
  unfold page_size in Hlim, Hs2. destruct ok1; cbn [negb] in E.
  2:{ injection E as <- <-. destruct (pm_free_spec m2 ({[ f ]} ∪ D) f Hwf2) as [Hwf3 Hs3];
        [set_solver|lia|done|intros g Hg; by apply HD2|].
      exists (({[ f ]} ∪ D) ∖ {[ f ]}). split; [set_solver|]. split; [split; [done|]|].
      { intros g Hg. apply HD2. set_solver. }
      split; [|done]. intros va Hva Hn. unfold page_size in *. rewrite Hs3, Hs2, Hs1 by lia. done. }
  eapply IH in E as (D' & Hsub & Hok' & Hs & Hb); [|by split|unfold page_size; lia|unfold page_size in *; dlia|unfold page_size; lia].
  exists D'. split; [set_solver|]. split; [done|]. unfold page_size in *. split; [intros va Hva Hn; by rewrite Hs, Hs2, Hs1 by lia|].
  intros Hok. destruct (Hb Hok) as [Hin Hinj].
  assert (forall va, where_ <= va < where_ + 4096 -> frame_at m' va = f) as Hfirst.
  { intros va Hva. unfold frame_at, page_size. rewrite Hs, (Hmap eq_refl) by lia. dlia. }
  assert (forall va, where_ + 4096 <= va < where_ + Z.of_nat (S n) * 4096 -> frame_at m' va <> f) as Hrest.
  { intros va Hva E. destruct (Hin va) as [_ Hn]; [lia|]. rewrite E in Hn. set_solver. }
  split; intros va.
  - intros Hva. destruct (Z_lt_dec va (where_ + 4096)); [rewrite Hfirst by lia; set_solver|]. destruct (Hin va) as [H1 H2]; [lia|]. set_solver.
  - intros va' Hva Hva' E. destruct (Z_lt_dec va (where_ + 4096)), (Z_lt_dec va' (where_ + 4096)).
    + dlia.
    + rewrite (Hfirst va) in E by lia. by destruct (Hrest va'); [lia|].
    + rewrite (Hfirst va') in E by lia. by destruct (Hrest va); [lia|].
    + apply Hinj; [lia|lia|done].
Qed.

Lemma commit_spec n where_ m D ok m' :
  frames_ok m D -> 0 <= where_ -> where_ mod page_size = 0 ->
  where_ + Z.of_nat n * page_size <= 2 ^ 48 -> commit n where_ m = (ok, m') ->
  exists D', D ⊆ D' /\ frames_ok m' D' /\ pm_same m m' where_ (Z.of_nat n * page_size) /\
    (ok = true -> backed m' where_ (where_ + Z.of_nat n * page_size)).
Proof.
  intros HD H1 H2 H3 E. destruct (commit_frames n where_ m D ok m' HD H1 H2 H3 E) as (D' & Hsub & HD' & Hs & Hf). exists D'.
  split_and!; try done. intros Hok va Hva Hz. destruct (Hf Hok) as [Hin _]. destruct (Hin va Hva) as [Hd _].
  destruct HD' as [_ HD']. apply HD' in Hd as [Hd _]. unfold frame_at in Hd. rewrite Hz in Hd. change (0 / page_size * page_size) with 0 in Hd. lia.
Qed.

(** The heap invariant: [l] is the list of blocks. *)
Record inv (h : heap) (m : M) (l : list block) : Prop := {
  inv_links : links h l;
  inv_used : used h = used_of l;
  inv_coalesced : coalesced l;
  inv_frames : exists D, frames_ok m D;
  inv_backed : backed m (heap_base h) (heap_base h + committed h)
}.

Lemma used_of_bound lo l hi : Forall block_ok l -> contig lo l hi -> 0 <= used_of l <= hi - lo.
Proof.
  intros Hok. revert lo. induction Hok as [|b l [Hb _] Hok IH]; intros lo Hc; simpl in *; [lia|].
  destruct Hc as [_ Hc]. apply IH in Hc. unfold sizeof_BlockHeader, alignment in *.
  destruct (bfree b); lia.
Qed.

(** [grow] when it is refused or runs out of memory changes no block; otherwise the
    list gains one free block of the new bytes, merged with a free tail. *)
Lemma grow_spec h m l wanted :
  inv h m l -> 0 <= wanted <= 2 ^ 32 ->
  exists ok h' m', grow wanted h m = Some (ok, h', m') /\
    if (ok : bool)
    then let fresh := mkBlock (heap_base h + committed h) (grown wanted - sizeof_BlockHeader) true in
         inv h' m' (merged l fresh []) /\ committed h' = committed h + grown wanted /\
         heap_base h' = heap_base h
    else inv h' m' l /\ h' = h.
Proof.
  intros [Hl Hu Hc [D HD] Hb] Hw. unfold grow. fold (grown wanted).
  destruct (grown_spec wanted Hw) as (G1 & G2 & G3). cbv zeta.
  pose proof (lk_committed _ _ Hl) as [Hcm Hcm2]. pose proof (lk_base _ _ Hl) as (B1 & B2 & B3).
  destruct (contig_bounds _ _ _ (lk_ok _ _ Hl) (lk_contig _ _ Hl)) as [Hle _].
  change heap_growth_step with 2097152 in *. change heap_reserved with 67108864 in *.
  change (2 ^ 32) with 4294967296 in *. unfold sizeof_BlockHeader in G1, G3.
  rewrite u64_small by lia. destruct (Z.ltb_spec 67108864 (committed h + grown wanted)) as [Hx|Hx].
  { exists false, h, m. split; [done|]. split; [|done]. by constructor; [..|exists D|]. }
  destruct (commit _ _ m) as [ok m1] eqn:E.
  assert (Z.of_nat (Z.to_nat (grown wanted / page_size)) * page_size = grown wanted) as Hn.
  { unfold page_size. rewrite Z2Nat.id by dlia. dlia. }
  apply (commit_spec _ _ _ D) in E as (D' & _ & HD' & Hs & Hb'); [|done|lia| |].
  2:{ unfold page_size in *. dlia. }
  2:{ rewrite Hn. change (2 ^ 48) with 281474976710656. change (2 ^ 47) with 140737488355328 in B2. lia. }
  rewrite Hn in *.
  assert (backed m1 (heap_base h) (heap_base h + committed h)) as Hb1.
  { intros va Hva. rewrite Hs; [by apply Hb| |lia].
    change (2 ^ 48) with 281474976710656. change (2 ^ 47) with 140737488355328 in B2. lia. }
  destruct ok; cbn [negb].
  2:{ exists false, h, m1. split; [done|]. split; [|done]. constructor; eauto. }
  destruct (append_links h l (grown wanted) Hl) as (h1 & -> & Hl1 & K1 & K2 & K3);
    [lia|unfold page_size; dlia|done|]. cbn [mbind option_bind].
  set (fresh := mkBlock _ _ _) in *.
  destruct (merge_links h1 l fresh [] Hl1) as (h2 & E2 & Hl2 & K4 & K5 & K6).
  change (addr fresh) with (heap_base h + committed h) in E2. rewrite E2.
  cbn [mbind option_bind]. exists true, h2, m1. split; [done|].
  destruct (merged_spec l fresh []) as [Hco Hus]; [done|done|done|].
  split; [|split; congruence]. constructor; [done| |done|eauto|].
  - rewrite K6, K3, Hu, Hus. simpl. lia.
  - rewrite K4, K5, K1, K2. intros va Hva. destruct (Z_lt_dec va (heap_base h + committed h)).
    + apply Hb1. lia.
    + apply Hb'; [done|lia].
Qed.

Lemma align_up_spec size : 0 < size <= heap_reserved ->
  size <= align_up size /\ alignment <= align_up size <= heap_reserved /\
  align_up size mod alignment = 0.
Proof.
  intros Hs. change heap_reserved with 67108864 in *. unfold align_up, alignment in *.
  rewrite u64_small by lia. change (16 - 1) with (2 ^ 4 - 1). rewrite land_not64_ones
    by (unfold Prelude.fits; lia). change (2 ^ 4) with 16. dlia.
Qed.

(** The blocks in use. *)
Definition allocated (l : list block) (c : block) : Prop := c ∈ l /\ bfree c = false.

Lemma allocated_merged l1 b l2 c : bfree b = true ->
  allocated (merged l1 b l2) c <-> allocated (l1 ++ b :: l2) c.
Proof.
  intros Hb. unfold allocated.
  enough (bfree c = false -> c ∈ merged l1 b l2 <-> c ∈ l1 ++ b :: l2) by tauto.
  intros Hc. unfold merged.
  assert (exists b' l, merge_right b l2 = b' :: l /\ bfree b' = true /\ (c ∈ l <-> c ∈ l2))
    as (b' & l & -> & Hb' & Hl).
  { destruct l2 as [|v l2]; simpl; [by exists b, []|]. destruct (bfree v) eqn:Hv; [|by exists b, (v :: l2)].
    exists (join b v), l2. split_and!; [done|done|]. rewrite elem_of_cons.
    split; [tauto|]. intros [->|?]; [congruence|done]. }
  assert (forall x, bfree x = true -> c <> x) as Hne by (intros x Hx ->; congruence).
  pose proof (Hne b Hb). pose proof (Hne b' Hb').
  destruct l1 as [|p l1 _] using rev_ind.
  - cbn [merge_left list.last app]. rewrite !elem_of_cons, Hl. tauto.
  - rewrite merge_left_snoc. destruct (bfree p) eqn:Hp.
    + pose proof (Hne p Hp). pose proof (Hne (join p b') Hp).
      rewrite !elem_of_app, !elem_of_cons, Hl, elem_of_nil. tauto.
    + rewrite !elem_of_app, !elem_of_cons, Hl, elem_of_nil. tauto.
Qed.

Lemma allocated_hand_out l1 b l2 w c : bfree b = true ->
  allocated (l1 ++ hand_out b w ++ l2) c <->
  allocated (l1 ++ b :: l2) c \/ c = mkBlock (addr b) (granted b w) false.
Proof.
  intros Hb. unfold allocated, hand_out, carve, granted.
  assert (bfree c = false -> c <> b) as Hne by (intros Hx ->; congruence).
  destruct (_ <? _); cbn [app addr bsize]; rewrite !elem_of_app, ?elem_of_cons.
  - split; [naive_solver|]. intros [?| ->]; [naive_solver|]. simpl. tauto.
  - split.
    + intros [[?|[->|[->|?]]] Hf]; [tauto|by right|done|tauto].
    + intros [[[?|[->|?]] Hf]| ->]; [tauto|congruence|tauto|]. simpl. tauto.
Qed.

Lemma hand_out_coalesced l1 b l2 w : bfree b = true ->
  coalesced (l1 ++ b :: l2) -> coalesced (l1 ++ hand_out b w ++ l2).
Proof.
  intros Hb Hc. destruct (coalesced_parts _ _ _ Hc) as [H1 H2].
  unfold hand_out, carve. destruct (_ <? _); cbn [app].
  - by apply coalesced_allocated.
  - apply coalesced_allocated; [done|done|]. apply coalesced_mid in Hc as [_ Hc].
    rewrite coalesced_cons in Hc |- *. cbn [bfree]. by rewrite Hb in Hc.
Qed.

(** Handing out a block keeps the invariant. *)
Lemma take_block_inv h m l1 b l2 w :
  inv h m (l1 ++ b :: l2) -> fits w b -> alignment <= w -> w mod alignment = 0 ->
  exists h', take_block (addr b) w h = Some (addr b + sizeof_BlockHeader, h') /\
    inv h' m (l1 ++ hand_out b w ++ l2) /\ heap_base h' = heap_base h /\
    committed h' = committed h /\ used h' = used h + granted b w.
Proof.
  intros [Hl Hu Hc HD Hb] Hf Hw Hwm. pose proof Hf as [Hfr _].
  destruct (take_block_links _ _ _ _ _ Hl Hf Hw Hwm) as (h' & E & Hl' & B & C & U).
  assert (used_of (l1 ++ hand_out b w ++ l2) = used h + granted b w) as Hus.
  { rewrite Hu, !used_of_app, hand_out_used by done. simpl. rewrite Hfr. lia. }
  destruct (used_of_bound _ _ _ (lk_ok _ _ Hl') (lk_contig _ _ Hl')) as [Hn1 Hn2].
  pose proof (lk_committed _ _ Hl) as [? _]. rewrite u64_small in U.
  2:{ change heap_reserved with 67108864 in *. lia. }
  exists h'. split_and!; try done. constructor; try done.
  - by rewrite Hus.
  - by apply hand_out_coalesced.
  - by rewrite B, C.
Qed.

(** The list [find] is run on, and what it finds. *)
Lemma find_inv h m l w : inv h m l ->
  (find w h = Some 0 /\ Forall (fun b => ~ fits w b) l) \/
  (exists l1 b l2, l = l1 ++ b :: l2 /\ Forall (fun c => ~ fits w c) l1 /\ fits w b /\
     addr b <> 0 /\ find w h = Some (addr b)).
Proof.
  intros Hi. rewrite (find_spec _ _ w (inv_links _ _ _ Hi)).
  destruct (list_find (fits w) l) as [[i b]|] eqn:E.
  - right. apply list_find_Some in E as (Hb & Hf & Hfirst). exists (take i l), b, (drop (S i) l).
    split_and!; [by rewrite take_drop_middle| |done| |done].
    + apply list.Forall_forall. intros c Hc. apply elem_of_take in Hc as (j & Hj & Hlt). eauto.
    + eapply links_nonzero; [apply (inv_links _ _ _ Hi)|by eapply list_elem_of_lookup_2].
  - left. split; [done|]. by apply list_find_None in E.
Qed.

Lemma merged_fresh_fits l fresh w : Forall block_ok l -> fits w fresh ->
  exists b, b ∈ merged l fresh [] /\ fits w b.
Proof.
  intros Hok [Hf Hs]. unfold merged. simpl merge_right. destruct l as [|p l _] using rev_ind.
  - exists fresh. split; [by left|done].
  - apply list.Forall_app in Hok as [_ Hp]. rewrite list.Forall_singleton in Hp. destruct Hp as [Hp _].
    rewrite merge_left_snoc. destruct (bfree p) eqn:Hpf.
    + exists (join p fresh). split; [set_solver|]. split; [done|]. simpl.
      unfold alignment, sizeof_BlockHeader in *. lia.
    + exists fresh. split; [set_solver|done].
Qed.

(** [kmalloc] never faults.  It answers with the lowest free block that is long
    enough, of the list as it is or, when none fits, of the list [grow] extended
    (the growth always makes the second attempt succeed); the block is split, marked
    and accounted for and every other block is as before.  It answers null exactly
    when the size is zero or above the reservation, or when no block fits and the heap
    could not grow, and then no block changes. *)
Lemma kmalloc_spec h m l size :
  inv h m l -> 0 <= size < 2 ^ 64 ->
  exists p h' m', kmalloc size h m = Some (p, h', m') /\
  let w := align_up size in
  if p =? 0
  then inv h' m' l /\ h' = h /\
       (size = 0 \/ heap_reserved < size \/ Forall (fun b => ~ fits w b) l)
  else 0 < size <= heap_reserved /\
       exists l1 b l2, Forall (fun c => ~ fits w c) l1 /\ fits w b /\
       p = addr b + sizeof_BlockHeader /\
       inv h' m' (l1 ++ hand_out b w ++ l2) /\ used h' = used h + granted b w /\
       ((l = l1 ++ b :: l2 /\ committed h' = committed h) \/
        (Forall (fun b => ~ fits w b) l /\ committed h' = committed h + grown w /\
         l1 ++ b :: l2 = merged l (mkBlock (heap_base h + committed h)
                                           (grown w - sizeof_BlockHeader) true) [])).
Proof.
  intros Hi Hsz. unfold kmalloc. destruct (Z.eqb_spec size 0) as [->|Hs0].
  { exists 0, h, m. split; [done|]. split_and!; [done|done|by left]. }
  destruct (Z.ltb_spec heap_reserved size) as [Hbig|Hsmall].
  { exists 0, h, m. split; [done|]. split_and!; [done|done|]. right. by left. }
  cbn [orb]. destruct (align_up_spec size ltac:(lia)) as (A1 & A2 & A3). cbv zeta.
  set (w := align_up size) in *. clearbody w. change heap_reserved with 67108864 in *.
  cbn [attempts]. destruct (find_inv h m l w Hi)
    as [[Ef Hnone]|(l1 & b & l2 & -> & Hfirst & Hfit & Hb0 & Ef)]; rewrite Ef; cbn [mbind option_bind].
  - rewrite Z.eqb_refl. cbn [negb].
    destruct (grow_spec h m l w Hi ltac:(lia)) as (ok & h1 & m1 & -> & Hg). cbn [mbind option_bind].
    destruct ok; cbn [negb].
    2:{ destruct Hg as [Hi1 ->]. exists 0, h, m1. split; [done|]. split_and!; [done|done|auto]. }
    cbv zeta in Hg. set (fresh := mkBlock _ _ true) in *. destruct Hg as (Hi1 & Hcm & Hbase).
    assert (used h1 = used h) as Hus.
    { rewrite (inv_used _ _ _ Hi1), (inv_used _ _ _ Hi).
      destruct (merged_spec l fresh []) as [_ ->]; [done|apply (inv_coalesced _ _ _ Hi)|done|].
      simpl. lia. }
    destruct (merged_fresh_fits l fresh w) as (c & Hc & Hcf).
    { apply (lk_ok _ _ (inv_links _ _ _ Hi)). }
    { split; [done|]. simpl. destruct (grown_spec w) as (? & _ & _); lia. }
    destruct (find_inv h1 m1 _ w Hi1) as [[_ Hno]|(l1 & b & l2 & El & Hfirst & Hfit & Hb0 & Ef1)].
    { rewrite list.Forall_forall in Hno. by apply Hno in Hc. }
    rewrite Ef1. cbn [mbind option_bind]. destruct (Z.eqb_spec (addr b) 0) as [|_]; [done|]. cbn [negb].
    rewrite El in Hi1. destruct (take_block_inv h1 m1 l1 b l2 w Hi1 Hfit ltac:(lia) A3)
      as (h2 & -> & Hi2 & B2 & C2 & U2). cbn [mbind option_bind].
    exists (addr b + sizeof_BlockHeader), h2, m1. split; [done|].
    destruct (links_block _ _ _ _ (inv_links _ _ _ Hi1)) as (_ & _ & _ & _ & _ & _ & Hpos & _).
    destruct (Z.eqb_spec (addr b + sizeof_BlockHeader) 0) as [|_]; [unfold sizeof_BlockHeader in *; lia|].
    split; [change heap_reserved with 67108864; lia|].
    exists l1, b, l2. split_and!; try done; [congruence|]. right. split_and!; [done|congruence|done].
  - destruct (Z.eqb_spec (addr b) 0) as [|_]; [done|]. cbn [negb].
    destruct (take_block_inv h m l1 b l2 w Hi Hfit ltac:(lia) A3)
      as (h2 & -> & Hi2 & B2 & C2 & U2). cbn [mbind option_bind].
    exists (addr b + sizeof_BlockHeader), h2, m. split; [done|].
    destruct (links_block _ _ _ _ (inv_links _ _ _ Hi)) as (_ & _ & _ & _ & _ & _ & Hpos & _).
    destruct (Z.eqb_spec (addr b + sizeof_BlockHeader) 0) as [|_]; [unfold sizeof_BlockHeader in *; lia|].
    split; [change heap_reserved with 67108864; lia|].
    exists l1, b, l2. split_and!; try done. by left.
Qed.

Definition freed (c : block) : block := mkBlock (addr c) (bsize c) true.

Lemma kfree_spec h m l1 c l2 :
  inv h m (l1 ++ c :: l2) -> bfree c = false ->
  exists h', kfree (addr c + sizeof_BlockHeader) h = Some h' /\
    inv h' m (merged l1 (freed c) l2) /\ used h' = used h - bsize c /\
    committed h' = committed h /\ heap_base h' = heap_base h.
Proof.
  intros [Hl Hu Hc HD Hb] Hf. unfold kfree.
  destruct (links_block _ _ _ _ Hl) as (Hh & _ & [Hok _] & _ & _ & _ & Hpos & _ & _).
  destruct (Z.eqb_spec (addr c + sizeof_BlockHeader) 0) as [|_];
    [unfold sizeof_BlockHeader in *; lia|].
  replace (addr c + sizeof_BlockHeader - sizeof_BlockHeader) with (addr c) by lia.
  rewrite Hh. cbn [mbind option_bind free_ size_]. rewrite Hf.
  destruct (set_free_links _ _ _ _ true Hl) as (h1 & -> & Hl1 & (B1 & C1 & U1) & _).
  cbn [mbind option_bind].
  destruct (coalesced_parts _ _ _ Hc) as [Hc1 Hc2].
  destruct (used_of_bound _ _ _ (lk_ok _ _ Hl) (lk_contig _ _ Hl)) as [Hn1 Hn2].
  pose proof (lk_committed _ _ Hl) as [? _].
  assert (used h - bsize c = used_of l1 + used_of l2) as Hus.
  { rewrite Hu, used_of_app. simpl. rewrite Hf. lia. }
  pose proof (lk_ok _ _ Hl) as Ho. apply list.Forall_app in Ho as [Ho1 Ho2].
  apply list.Forall_cons in Ho2 as [_ Ho2].
  pose proof (used_of_nonneg _ Ho1). pose proof (used_of_nonneg _ Ho2).
  rewrite U1, u64_small by (change heap_reserved with 67108864 in *; unfold alignment in *; lia).
  set (h2 := set_used _ h1). fold (freed c) in Hl1.
  assert (links h2 (l1 ++ freed c :: l2)) as Hl2 by (destruct Hl1; by constructor).
  destruct (merge_links _ _ _ _ Hl2) as (h3 & E3 & Hl3 & B3 & C3 & U3).
  change (addr (freed c)) with (addr c) in E3. rewrite E3. exists h3. split; [done|].
  destruct (merged_spec l1 (freed c) l2) as [Hco Hum]; [done..|].
  assert (heap_base h3 = heap_base h /\ committed h3 = committed h) as [B C]
    by (split; [rewrite B3|rewrite C3]; done).
  split_and!; try done. constructor; try done.
  - rewrite U3, Hum. exact Hus.
  - by rewrite B, C.
Qed.

(** ** Callers *)

(** The heap and the allocations not yet freed, by pointer, with the size asked for. *)
Definition world : Type := heap * M * gmap Z Z.

Inductive step : world -> world -> Prop :=
  | step_kmalloc h m live size p h' m' :
      0 <= size < 2 ^ 64 -> kmalloc size h m = Some (p, h', m') -> p <> 0 ->
      step (h, m, live) (h', m', <[p := size]> live)
  | step_kmalloc_null h m live size h' m' :
      0 <= size < 2 ^ 64 -> kmalloc size h m = Some (0, h', m') ->
      step (h, m, live) (h', m', live)
  | step_kfree h m live p size h' :
      live !! p = Some size -> kfree p h = Some h' ->
      step (h, m, live) (h', m, delete p live)
  | step_kfree_null h m live h' :
      kfree 0 h = Some h' -> step (h, m, live) (h', m, live).

(** The allocations are exactly the blocks in use. *)
Definition world_inv (w : world) : Prop :=
  let '(h, m, live) := w in
  exists l, inv h m l /\
    (forall p size, live !! p = Some size ->
       exists c, allocated l c /\ p = addr c + sizeof_BlockHeader /\ 0 < size <= bsize c) /\
    (forall c, allocated l c -> is_Some (live !! (addr c + sizeof_BlockHeader))).

Lemma inv_addr_inj h m l c d : inv h m l -> c ∈ l -> d ∈ l -> addr c = addr d -> c = d.
Proof.
  intros Hi Hc Hd E. pose proof (inv_links _ _ _ Hi) as Hl.
  pose proof (contig_NoDup _ _ _ (lk_ok _ _ Hl) (lk_contig _ _ Hl)) as Hnd.
  apply list_elem_of_lookup in Hc as [i Hi'], Hd as [j Hj].
  assert (i = j) as ->; [|congruence].
  eapply (NoDup_lookup _ i j); [exact Hnd|by apply list_lookup_fmap_Some; eauto|].
  apply list_lookup_fmap_Some. rewrite E. eauto.
Qed.

Lemma world_inv_alloc live l1 b l2 w size h' m' l :
  inv h' m' (l1 ++ hand_out b w ++ l2) -> bfree b = true ->
  (forall c, allocated (l1 ++ b :: l2) c <-> allocated l c) ->
  (forall p size, live !! p = Some size ->
     exists c, allocated l c /\ p = addr c + sizeof_BlockHeader /\ 0 < size <= bsize c) ->
  (forall c, allocated l c -> is_Some (live !! (addr c + sizeof_BlockHeader))) ->
  0 < size <= granted b w ->
  world_inv (h', m', <[addr b + sizeof_BlockHeader := size]> live).
Proof.
  intros Hi Hb Hall Hlive Hblk Hsz. exists (l1 ++ hand_out b w ++ l2). split; [done|]. split.
  - intros p s Hp. rewrite lookup_insert in Hp. case_decide as Hd.
    + injection Hp as <-. exists (mkBlock (addr b) (granted b w) false).
      split; [|done]. apply allocated_hand_out; [done|by right].
    + destruct (Hlive p s Hp) as (c & Hc & Hpc & Hs). exists c. split; [|done].
      apply allocated_hand_out; [done|]. left. by apply Hall.
  - intros c [Hc| ->]%allocated_hand_out; [|by rewrite lookup_insert_eq|done].
    rewrite lookup_insert. case_decide; [done|]. apply Hblk. by apply Hall.
Qed.

Lemma heap_step_inv w w' : world_inv w -> step w w' -> world_inv w'.
Proof.
  intros Hw Hs. destruct Hs as [h m live size p h' m' Hsz E Hp|h m live size h' m' Hsz E|
    h m live p size h' Hp E|h m live h' E]; destruct Hw as (l & Hi & Hlive & Hblk).
  - destruct (kmalloc_spec _ _ _ _ Hi Hsz) as (p1 & h1 & m1 & E1 & Hspec).
    rewrite E in E1. injection E1 as <- <- <-. cbv zeta in Hspec.
    destruct (Z.eqb_spec p 0) as [|_]; [done|].
    destruct Hspec as (Hsize & l1 & b & l2 & _ & [Hfr Hfit] & -> & Hi' & _ & Hcase).
    destruct (align_up_spec _ Hsize) as (A1 & _ & _).
    assert (0 < size <= granted b (align_up size)) as Hg
      by (unfold granted; destruct (_ <? _); lia).
    destruct Hcase as [[-> _]|(_ & _ & El)].
    + by eapply world_inv_alloc.
    + pose proof (allocated_merged l (mkBlock (heap_base h + committed h)
        (grown (align_up size) - sizeof_BlockHeader) true) []) as Ham.
      rewrite <- El in Ham. eapply (world_inv_alloc _ _ _ _ _ _ _ _ l); try done.
      intros c. rewrite Ham by done. unfold allocated. rewrite elem_of_app, elem_of_cons, elem_of_nil.
      split; [|tauto]. intros [[?|[->|[]]] Hf]; done.
  - destruct (kmalloc_spec _ _ _ _ Hi Hsz) as (p1 & h1 & m1 & E1 & Hspec).
    rewrite E in E1. injection E1 as <- <- <-. destruct Hspec as (Hi' & -> & _).
    by exists l.
  - destruct (Hlive p size Hp) as (c & [Hc Hf] & -> & _).
    apply list_elem_of_split in Hc as (l1 & l2 & ->).
    destruct (kfree_spec _ _ _ _ _ Hi Hf) as (h1 & E1 & Hi' & _). rewrite E in E1.
    injection E1 as <-. exists (merged l1 (freed c) l2). split; [done|].
    destruct (links_block _ _ _ _ (inv_links _ _ _ Hi)) as (_ & _ & [Hok _] & L1 & L2 & _).
    assert (~ c ∈ l1) as Hn1 by (intros Hx; apply L1 in Hx; lia).
    assert (~ c ∈ l2) as Hn2.
    { intros Hx. apply L2 in Hx. unfold sizeof_BlockHeader, alignment in *. lia. }
    assert (forall d, allocated (merged l1 (freed c) l2) d <-> allocated (l1 ++ c :: l2) d /\ d <> c)
      as Hall.
    { intros d. rewrite allocated_merged by done. unfold allocated.
      rewrite !elem_of_app, !elem_of_cons. split.
      - intros [[?|[->|?]] Hd]; [|done|]; (split; [tauto|]); intros ->; done.
      - intros [[[?|[->|?]] Hd] Hne]; tauto. }
    split.
    + intros q s Hq. apply lookup_delete_Some in Hq as [Hne Hq].
      destruct (Hlive q s Hq) as (d & Hd & -> & Hs). exists d. split; [|done].
      apply Hall. split; [done|]. intros ->. by apply Hne.
    + intros d [Hd Hne]%Hall. rewrite lookup_delete_ne; [by apply Hblk|].
      intros E2. apply Hne. destruct Hd as [Hd _].
      eapply inv_addr_inj; [exact Hi|done|set_solver|lia].
  - cbn in E. injection E as <-. by exists l.
Qed.

Lemma contig_aligned lo l hi b : Forall block_ok l -> contig lo l hi -> lo mod alignment = 0 ->
  b ∈ l -> addr b mod alignment = 0.
Proof.
  intros Hok. revert lo. induction Hok as [|c l [_ Hc] Hok IH]; intros lo Hcg Hlo Hb;
    [by apply not_elem_of_nil in Hb|].
  destruct Hcg as [<- Hcg]. apply elem_of_cons in Hb as [->|Hb]; [done|].
  eapply IH; [exact Hcg| |done]. unfold alignment, sizeof_BlockHeader in *. dlia.
Qed.

(** Two blocks of a tiling lie one after the other. *)
Lemma contig_apart lo l hi b c : Forall block_ok l -> contig lo l hi -> b ∈ l -> c ∈ l -> addr b <> addr c ->
  addr b + sizeof_BlockHeader + bsize b <= addr c \/ addr c + sizeof_BlockHeader + bsize c <= addr b.
Proof.
  intros Hok. revert lo. induction Hok as [|d l [Hd _] Hok IH]; intros lo Hcg Hb Hc Hne;
    [by apply not_elem_of_nil in Hb|].
  destruct Hcg as [<- Hcg]. apply elem_of_cons in Hb as [->|Hb], Hc as [->|Hc]; [done|..].
  - pose proof (elem_addr_lt _ _ _ _ Hok Hcg Hc). lia.
  - pose proof (elem_addr_lt _ _ _ _ Hok Hcg Hb). lia.
  - by eapply IH.
Qed.

(** The heap with nothing committed, in the range [heap_init] reserved. *)
Lemma reserved_heap_inv hs v m D base v' :
  Vmalloc.inv v -> frames_ok m D -> vmalloc_reserve v heap_reserved = (base, v') -> base <> 0 -> inv (mkHeap hs 0 0 base 0 0) m [].
Proof.
  assert (0 <= heap_reserved <= 2 ^ 63) as Hres by by vm_compute. intros Hv HD Er Hb0.
  destruct (reserve_spec _ _ _ _ Hv Hres Er) as (_ & [(-> & _)|[Hb _]]); [done|].
  destruct Hb as (B1 & B2 & B3 & B4 & B5). cbn [Vmalloc.block r_start r_length] in *.
  change (footprint heap_reserved) with 67112960 in *. change vmalloc_base with 1073741824 in *. change vmalloc_end with 2147483648 in *.
  constructor; try done; [constructor; try done| by exists D|].
  - simpl. lia.
  - change heap_reserved with 67108864. change (2 ^ 47) with 140737488355328. simpl. split_and!; [lia|lia|done].
  - intros va Hva. simpl in Hva. lia.
Qed.

Lemma heap_init_inv h0 v m D h v' m' :
  Vmalloc.inv v -> frames_ok m D -> heap_init h0 v m = Some (h, v', m') ->
  exists l, inv h m' l /\ forall c, ~ allocated l c.
Proof.
  assert (0 <= page_size <= 2 ^ 32) as Hpage by by vm_compute. intros Hv HD E. unfold heap_init in E.
  destruct (vmalloc_reserve v heap_reserved) as [base v1] eqn:Er. destruct (Z.eqb_spec base 0) as [|Hb0]; [done|]. cbv zeta in E.
  pose proof (reserved_heap_inv (headers h0) v m D base v1 Hv HD Er Hb0) as Hi. set (h1 := mkHeap _ 0 0 base 0 0) in *.
  destruct (grow_spec h1 m [] page_size Hi Hpage) as (ok & h2 & m2 & Eg & Hg).
  rewrite Eg in E. cbn [mbind option_bind] in E. clear Eg. destruct ok; [|discriminate E]. injection E as <- <- <-.
  destruct Hg as [Hi2 _]. eexists. split; [exact Hi2|].
  intros c [Hc Hf]%allocated_merged; [|done]. cbn [app] in Hc.
  apply elem_of_cons in Hc as [->|Hc]; [done|by apply not_elem_of_nil in Hc].
Qed.

Lemma heap_reachable_inv h m w : world_inv (h, m, ∅) -> rtc step (h, m, ∅) w -> world_inv w.
Proof. intros H1 Hr. induction Hr; [done|]. eauto using heap_step_inv. Qed.

Lemma all_free_single l : coalesced l -> (forall c, ~ allocated l c) -> (length l <= 1)%nat.
Proof.
  intros Hc Ha. destruct l as [|a [|b l]]; simpl; try lia. exfalso.
  rewrite coalesced_cons in Hc. destruct Hc as [Hc _]. apply Hc.
  pose proof (Ha a) as Na. pose proof (Ha b) as Nb. unfold allocated in *.
  split; [destruct (bfree a)|destruct (bfree b)]; try done; exfalso;
    [apply Na|apply Nb]; set_solver.
Qed.

(** C2: From [heap_init] on, through any sequence of [kmalloc] and [kfree] by callers
    that free only what they hold: no call faults; every allocation held is aligned to
    16 bytes, inside the committed heap, backed by pages, and overlaps neither another
    allocation nor its header; and when everything has been freed, nothing counts as
    used and the heap is one free block again. *)
Theorem heap_allocations_safe h0 v m0 D h1 v1 m1 h m live :
  Vmalloc.inv v -> frames_ok m0 D -> heap_init h0 v m0 = Some (h1, v1, m1) ->
  rtc step (h1, m1, ∅) (h, m, live) ->
  (forall p size, live !! p = Some size ->
     p mod alignment = 0 /\ heap_base h < p /\ p + size <= heap_base h + committed h /\
     backed m p (p + size)) /\
  (forall p q sp sq, live !! p = Some sp -> live !! q = Some sq -> p <> q ->
     p + sp + sizeof_BlockHeader <= q \/ q + sq + sizeof_BlockHeader <= p) /\
  (forall size, 0 <= size < 2 ^ 64 -> is_Some (kmalloc size h m)) /\
  (forall p size, live !! p = Some size -> is_Some (kfree p h)) /\
  (live = ∅ -> used h = 0 /\ exists l, inv h m l /\ (length l <= 1)%nat).
Proof.
  intros Hv HD Einit Hr. destruct (heap_init_inv _ _ _ _ _ _ _ Hv HD Einit) as (l0 & Hi0 & Hn0).
  assert (world_inv (h1, m1, ∅)) as Hw0.
  { exists l0. split; [done|]. split; [done|]. intros c Hc. by apply Hn0 in Hc. }
  destruct (heap_reachable_inv _ _ _ Hw0 Hr) as (l & Hi & Hlive & Hblk).
  pose proof (inv_links _ _ _ Hi) as Hl. pose proof (lk_ok _ _ Hl) as Ho.
  pose proof (lk_contig _ _ Hl) as Hc. destruct (lk_base _ _ Hl) as (_ & _ & Hbm).
  assert (heap_base h mod alignment = 0) as Hba by (unfold alignment, page_size in *; dlia).
  split_and!.
  - intros p size Hp. destruct (Hlive p size Hp) as (c & [Hin _] & -> & Hs).
    pose proof (elem_addr_lt _ _ _ _ Ho Hc Hin). pose proof (contig_aligned _ _ _ _ Ho Hc Hba Hin).
    unfold sizeof_BlockHeader, alignment in *. split_and!; [dlia|lia|lia|].
    intros va Hva. apply (inv_backed _ _ _ Hi). lia.
  - intros p q sp sq Hp Hq Hne. destruct (Hlive p sp Hp) as (c & [Hcl _] & -> & Hs).
    destruct (Hlive q sq Hq) as (d & [Hdl _] & -> & Hs').
    destruct (contig_apart _ _ _ c d Ho Hc Hcl Hdl); [congruence| |]; lia.
  - intros size Hs. destruct (kmalloc_spec _ _ _ _ Hi Hs) as (p & h' & m' & -> & _). eauto.
  - intros p size Hp. destruct (Hlive p size Hp) as (c & [Hin Hf] & -> & _).
    apply list_elem_of_split in Hin as (l1 & l2 & ->).
    destruct (kfree_spec _ _ _ _ _ Hi Hf) as (h' & -> & _). eauto.
  - intros ->. assert (forall c, ~ allocated l c) as Hna.
    { intros c Hx. destruct (Hblk c Hx) as [? Hy]. by rewrite lookup_empty in Hy. }
    split; [|exists l; split; [done|]; by apply all_free_single, Hna; apply (inv_coalesced _ _ _ Hi)].
    rewrite (inv_used _ _ _ Hi). clear -Hna. induction l as [|b l IH]; [done|]. simpl.
    destruct (bfree b) eqn:Hb.
    + apply IH. intros c [Hx ?]. apply (Hna c). split; [by right|done].
    + exfalso. apply (Hna b). split; [by left|done].
Qed.

(** In a coalesced list the neighbours of a free block are in use. *)
Lemma merge_left_noop l1 b l2 : coalesced (l1 ++ b :: l2) -> bfree b = true ->
  merge_left l1 (b :: l2) = l1 ++ b :: l2.
Proof.
  intros Hc Hb. destruct l1 as [|p l1 _] using rev_ind; [done|].
  rewrite merge_left_snoc, <- app_assoc. cbn [app]. destruct (bfree p) eqn:Hp; [|done].
  rewrite <- app_assoc in Hc. cbn [app] in Hc. apply coalesced_mid in Hc as [_ Hc].
  rewrite coalesced_cons in Hc. tauto.
Qed.

Lemma merge_right_noop l1 b l2 : coalesced (l1 ++ b :: l2) -> bfree b = true ->
  merge_right b l2 = b :: l2.
Proof.
  intros Hc Hb. apply coalesced_mid in Hc as [_ Hc]. rewrite coalesced_cons in Hc.
  destruct l2 as [|v l2]; [done|]. simpl. destruct (bfree v) eqn:Hv; [|done]. tauto.
Qed.

(** Freeing an allocation that needed no growth restores the heap: the list of
    blocks, free remainder coalesced, and the used count are what they were before. *)
Theorem kmalloc_kfree_roundtrip h m l size p h' m' :
  inv h m l -> 0 <= size < 2 ^ 64 -> kmalloc size h m = Some (p, h', m') -> p <> 0 ->
  committed h' = committed h ->
  exists h'', kfree p h' = Some h'' /\ inv h'' m' l /\ used h'' = used h.
Proof.
  intros Hi Hsz E Hp Hcm. destruct (kmalloc_spec _ _ _ _ Hi Hsz) as (p1 & h1 & m1 & E1 & Hspec).
  rewrite E in E1. injection E1 as <- <- <-. cbv zeta in Hspec.
  destruct (Z.eqb_spec p 0) as [|_]; [done|]. clear E.
  destruct Hspec as (Hsize & l1 & b & l2 & _ & [Hfr Hfit] & -> & Hi' & Hu & Hcase).
  destruct (align_up_spec _ Hsize) as (_ & A2 & _). set (w := align_up size) in *.
  destruct Hcase as [[-> _]|(_ & Hgrow & _)].
  2:{ exfalso. change heap_reserved with 67108864 in *. change heap_growth_step with 2097152 in *.
      unfold alignment in *. destruct (grown_spec w) as (_ & _ & G); [lia|].
      change heap_growth_step with 2097152 in *. lia. }
  pose proof (inv_coalesced _ _ _ Hi) as Hc.
  assert (exists c r, hand_out b w = c :: r /\ addr c = addr b /\ bfree c = false /\
    bsize c = granted b w /\ merged l1 (freed c) (r ++ l2) = l1 ++ b :: l2)
    as (c & r & Eh & Ea & Ef & Eg & Em).
  { unfold hand_out, carve, granted, merged. destruct b as [a sz fr]; simpl in *. subst fr.
    destruct (_ <? _); eexists _, _; split_and!; try done; cbn [app freed addr bsize].
    - rewrite (merge_right_noop l1) by done. by apply merge_left_noop.
    - simpl merge_right. unfold join, freed, sizeof_BlockHeader. cbn [addr bsize bfree].
      replace (w + 32 + (sz - w - 32)) with sz by lia. by apply merge_left_noop. }
  rewrite Eh in Hi'. rewrite <- app_comm_cons in Hi'.
  destruct (kfree_spec _ _ _ _ _ Hi' Ef) as (h'' & E & Hi'' & Hu'' & _).
  rewrite Em in Hi''. rewrite <- Ea. exists h''. split_and!; [done|done|]. lia.
Qed.
End proofs.

(** ** A concrete heap *)

Definition empty_heap : heap := mkHeap ∅ 0 0 0 0 0.

(** Boot the heap over the real page tables and page allocator, then ask for 100
    bytes: the payload address, and whether that needed growth. *)
Definition demo_run : option (Z * bool) :=
  '(h, v, m) ← heap_init empty_heap Vmalloc.fresh demo_space;
  '(p, h', m') ← kmalloc 100 h m;
  Some (p, committed h' =? committed h).

Lemma demo_run_ok : demo_run = Some (0x40000020, true).
Proof. exact (eq_refl (Some (0x40000020, true))). Qed.

Lemma demo_frames_ok : frames_ok demo_space ∅.
Proof. split; [exact demo_space_wf|]. intros f Hf. by apply not_elem_of_empty in Hf. Qed.

Lemma demo_run_inv : exists h v m h' m',
  heap_init empty_heap Vmalloc.fresh demo_space = Some (h, v, m) /\
  kmalloc 100 h m = Some (0x40000020, h', m') /\ committed h' = committed h.
Proof.
  pose proof demo_run_ok as E. unfold demo_run in E.
  apply bind_Some_inv in E as ([[h v] m] & E1 & E).
  apply bind_Some_inv in E as ([[p h'] m'] & E2 & E).
  injection E as -> Ec. apply Z.eqb_eq in Ec. exists h, v, m, h', m'.
  split; [exact E1|]. split; [exact E2|exact Ec].
Qed.

Lemma heap_allocations_safe_witness : exists h m,
  rtc step (h, m, ∅) (h, m, ∅) /\ exists h' m', kmalloc 100 h m = Some (0x40000020, h', m') /\
    backed m' 0x40000020 (0x40000020 + 100).
Proof.
  destruct demo_run_inv as (h & v & m & h' & m' & E1 & E2 & _).
  exists h, m. split; [apply rtc_refl|]. exists h', m'. split; [exact E2|].
  assert (rtc step (h, m, ∅) (h', m', <[0x40000020 := 100]> ∅)) as Hr.
  { apply rtc_once. apply (step_kmalloc h m ∅ 100); [lia|exact E2|discriminate]. }
  destruct (heap_allocations_safe empty_heap Vmalloc.fresh demo_space ∅ h v m h' m' _
              fresh_inv demo_frames_ok E1 Hr) as (Hlive & _).
  apply (Hlive 0x40000020 100). apply lookup_insert_eq.
Defined.

Lemma kmalloc_kfree_roundtrip_witness : exists h m h' m' h'',
  kmalloc 100 h m = Some (0x40000020, h', m') /\ kfree 0x40000020 h' = Some h'' /\
  used h'' = used h.
Proof.
  destruct demo_run_inv as (h & v & m & h' & m' & E1 & E2 & Ec).
  destruct (heap_init_inv _ _ _ _ _ _ _ fresh_inv demo_frames_ok E1) as (l & Hi & _).
  assert (0 <= 100 < 2 ^ 64) as Hs by lia.
  destruct (kmalloc_kfree_roundtrip h m l 100 0x40000020 h' m' Hi Hs E2 ltac:(discriminate) Ec)
    as (h'' & Ef & _ & Hu). exists h, m, h', m', h''.
  split; [exact E2|]. split; [exact Ef|exact Hu].
Defined.
