(* ===== verification/MemoryInit.v ===== *)
(** * The memory subsystems together (start_kernel of src/kernel/main.cpp)

    [start_kernel] brings up the page allocator, the page tables and the heap, each on
    top of the one before.  The heap's invariant says that its pages are there; here we
    follow which frames they are, from the memory map of the boot loader to the bytes
    [kmalloc] hands out. *)

From S2P Require Import Prelude Interfaces Memory Multiboot PageAlloc Paging Stacks PagingInit Vmalloc Heap.

Section placed.
Context {M : Type} `{PageMapperSpec M}.

(** The frames of the heap: in use, distinct, and none of those in [R]. *)
Definition placed (R : gset Z) (h : heap) (m : M) : Prop :=
  exists D, frames_ok m D /\ R ⊆ D /\
    (forall va, heap_base h <= va < heap_base h + committed h -> frame_at m va ∈ D /\ frame_at m va ∉ R) /\
    (forall va va', heap_base h <= va < heap_base h + committed h -> heap_base h <= va' < heap_base h + committed h ->
       frame_at m va = frame_at m va' -> va / page_size = va' / page_size).

Lemma frame_same m m' lo n va : pm_same m m' lo n -> 0 <= va < 2 ^ 48 -> ~ lo <= va < lo + n -> frame_at m' va = frame_at m va.
Proof. intros Hs Hva Hn. unfold frame_at. by rewrite Hs. Qed.

Lemma grow_placed R h m l wanted ok h' m' : inv h m l -> placed R h m -> 0 <= wanted <= 2 ^ 32 ->
  grow wanted h m = Some (ok, h', m') -> placed R h' m'.
Proof.
  intros Hi (D & HD & HR & Hin & Hinj) Hw E. destruct (grow_spec h m l wanted Hi Hw) as (ok1 & h1 & m1 & E1 & Hg).
  rewrite E in E1. injection E1 as <- <- <-. unfold grow in E. fold (grown wanted) in E. cbv zeta in E.
  destruct (grown_spec wanted Hw) as (G1 & G2 & G3).
  pose proof (inv_links _ _ _ Hi) as Hl. pose proof (lk_committed _ _ Hl) as [Hcm Hcm2]. pose proof (lk_base _ _ Hl) as (B1 & B2 & B3).
  destruct (contig_bounds _ _ _ (lk_ok _ _ Hl) (lk_contig _ _ Hl)) as [Hle _].
  change heap_growth_step with 2097152 in *. change heap_reserved with 67108864 in *.
  change (2 ^ 32) with 4294967296 in *. unfold sizeof_BlockHeader in G1, G3. change (2 ^ 47) with 140737488355328 in B2.
  rewrite u64_small in E by lia. destruct (Z.ltb_spec 67108864 (committed h + grown wanted)) as [Hx|Hx].
  { injection E as <- <- <-. by exists D. }
  destruct (commit _ _ m) as [okc m1] eqn:Ec.
  assert (Z.of_nat (Z.to_nat (grown wanted / page_size)) * page_size = grown wanted) as Hn.
  { unfold page_size. rewrite Z2Nat.id by dlia. dlia. }
  apply (commit_frames _ _ _ D) in Ec as (D' & Hsub & HD' & Hs & Hnew); [|done|lia|unfold page_size in *; dlia|rewrite Hn; lia].
  rewrite Hn in *.
  assert (forall va, heap_base h <= va < heap_base h + committed h -> frame_at m1 va = frame_at m va) as Hold.
  { intros va Hva. eapply frame_same; [exact Hs|lia|lia]. }
  destruct okc; cbn [negb] in E.
  2:{ injection E as <- <- <-. exists D'. split; [done|]. split; [set_solver|]. split.
      - intros va Hva. rewrite Hold by done. destruct (Hin va Hva). set_solver.
      - intros va va' Hva Hva'. rewrite !Hold by done. by apply Hinj. }
  apply bind_Some_inv in E as (h2 & _ & E). apply bind_Some_inv in E as (h3 & _ & E). injection E as <- <- <-.
  destruct Hg as (_ & Hc' & Hb'). destruct (Hnew eq_refl) as [Hin' Hinj']. exists D'. split; [done|]. split; [set_solver|]. rewrite Hc', Hb'. split.
  - intros va Hva. destruct (Z_lt_dec va (heap_base h + committed h)).
    + rewrite Hold by lia. destruct (Hin va ltac:(lia)). set_solver.
    + destruct (Hin' va ltac:(lia)). set_solver.
  - intros va va' Hva Hva' Ef. destruct (Z_lt_dec va (heap_base h + committed h)), (Z_lt_dec va' (heap_base h + committed h)).
    + rewrite !Hold in Ef by lia. apply Hinj; [lia|lia|done].
    + rewrite Hold in Ef by lia. destruct (Hin va ltac:(lia)), (Hin' va' ltac:(lia)). congruence.
    + rewrite (Hold va') in Ef by lia. destruct (Hin va' ltac:(lia)), (Hin' va ltac:(lia)). congruence.
    + apply Hinj'; [lia|lia|done].
Qed.

Lemma same_placed R h h' (m : M) : heap_base h' = heap_base h -> committed h' = committed h -> placed R h m -> placed R h' m.
Proof. intros Hb Hc (D & HD & HR & Hin & Hinj). exists D. by rewrite Hb, Hc. Qed.

Lemma attempts_placed R w n : alignment <= w <= 2 ^ 32 -> w mod alignment = 0 -> forall h (m : M) l p h' m',
  inv h m l -> placed R h m -> attempts n w h m = Some (p, h', m') -> placed R h' m'.
Proof.
  intros Hw Hwm. induction n as [|n IH]; intros h m l p h' m' Hi Hp E; cbn [attempts] in E; [by injection E as <- <- <-|].
  destruct (find_inv h m l w Hi) as [[Ef _]|(l1 & b & l2 & -> & _ & Hfit & Hb0 & Ef)]; rewrite Ef in E; cbn [mbind option_bind] in E.
  - rewrite Z.eqb_refl in E. cbn [negb] in E. assert (0 <= w <= 2 ^ 32) as Hw0 by (unfold alignment in *; lia).
    destruct (grow_spec h m l w Hi Hw0) as (ok & h1 & m1 & E1 & Hg).
    rewrite E1 in E. cbn [mbind option_bind] in E. pose proof (grow_placed R h m l w ok h1 m1 Hi Hp Hw0 E1) as Hp1.
    destruct ok; cbn [negb] in E; [|by injection E as <- <- <-]. destruct Hg as [Hi1 _]. by eapply IH.
  - destruct (Z.eqb_spec (addr b) 0) as [|_]; [done|]. cbn [negb] in E.
    destruct (take_block_inv h m l1 b l2 w Hi Hfit (proj1 Hw) Hwm) as (h2 & E2 & _ & B2 & C2 & _). rewrite E2 in E. cbn [mbind option_bind] in E.
    injection E as <- <- <-. by eapply same_placed.
Qed.

Lemma kmalloc_placed R h (m : M) l size p h' m' : inv h m l -> placed R h m -> 0 <= size < 2 ^ 64 ->
  kmalloc size h m = Some (p, h', m') -> placed R h' m'.
Proof.
  intros Hi Hp Hs E. unfold kmalloc in E. destruct (Z.eqb_spec size 0) as [->|Hs0]; [by injection E as <- <- <-|].
  destruct (Z.ltb_spec heap_reserved size) as [Hbig|Hsmall]; [by injection E as <- <- <-|]. cbn [orb] in E.
  destruct (align_up_spec size ltac:(lia)) as (A1 & A2 & A3). change heap_reserved with 67108864 in *.
  eapply attempts_placed in E; try done. unfold alignment in *. lia.
Qed.

Lemma step_placed R w w' : world_inv w -> Heap.step w w' -> placed R w.1.1 (w.1.2 : M) -> placed R w'.1.1 w'.1.2.
Proof.
  intros Hw Hs Hp. destruct Hs as [h m live size p h' m' Hsz E _|h m live size h' m' Hsz E|h m live p size h' Hl E|h m live h' E]; cbn in *.
  - destruct Hw as (l & Hi & _). by eapply kmalloc_placed.
  - destruct Hw as (l & Hi & _). by eapply kmalloc_placed.
  - destruct Hw as (l & Hi & Hlive & _). destruct (Hlive p size Hl) as (c & [Hc Hf] & -> & _).
    apply list_elem_of_split in Hc as (l1 & l2 & ->). destruct (kfree_spec h m l1 c l2 Hi Hf) as (h1 & E1 & _ & _ & C1 & B1).
    rewrite E in E1. injection E1 as <-. by eapply same_placed.
  - unfold kfree in E. cbn in E. by injection E as <-.
Qed.

Lemma heap_init_placed R h0 v (m : M) D h v' m' : Vmalloc.inv v -> frames_ok m D -> R ⊆ D ->
  heap_init h0 v m = Some (h, v', m') -> placed R h m'.
Proof.
  intros Hv HD HR E. assert (0 <= page_size <= 2 ^ 32) as Hpage by by vm_compute. unfold heap_init in E.
  destruct (vmalloc_reserve v heap_reserved) as [base v1] eqn:Er. destruct (Z.eqb_spec base 0) as [|Hb0]; [done|]. cbv zeta in E.
  pose proof (reserved_heap_inv (headers h0) v m D base v1 Hv HD Er Hb0) as Hi. apply bind_Some_inv in E as ([[ok h2] m2] & Eg & E).
  destruct ok; [|done]. injection E as <- <- <-. eapply grow_placed; [exact Hi| |exact Hpage|exact Eg].
  exists D. split; [done|]. split; [done|]. cbn. split; intros; lia.
Qed.
End placed.

(** ** From the boot loader's map to the heap *)

(** The memory part of [start_kernel]: [tables] and [h0] are what the memory holds
    before; [None] is a panic. *)
Definition memory_init (m : memory) (kernel_end magic info_address : Z) (I : image) (L : layout)
    (tables : gmap (Z * Z) Z) (h0 : heap) : option (heap * Vmalloc.state * space) :=
  pages ← page_alloc_init m kernel_end magic info_address;
  '(root, _, st) ← paging_init I L (Paging.mk tables pages);
  heap_init h0 (Vmalloc.mk [] false) (Space root st).

(** The frames that are not free when the allocator starts. *)
Definition boot_owned (s : PageAlloc.state) : gset Z :=
  list_to_set ((fun k => k * page_size) <$> filter (fun k => test_bit s k = true) (seqZ 1 (managed_pages - 1))).

Lemma boot_owned_spec s f : f ∈ boot_owned s <-> exists k, f = k * page_size /\ 1 <= k < managed_pages /\ test_bit s k = true.
Proof.
  unfold boot_owned. rewrite elem_of_list_to_set, list_elem_of_fmap. split.
  - intros (k & -> & Hk). apply list_elem_of_filter in Hk as [Ht Hk%elem_of_seqZ]. exists k. split; [done|]. split; [lia|done].
  - intros (k & -> & Hk & Ht). exists k. split; [done|]. apply list_elem_of_filter. split; [done|]. apply elem_of_seqZ. lia.
Qed.

Lemma live_inside {M} `{PageMapperSpec M} h (m : M) live p size : world_inv (h, m, live) -> live !! p = Some size ->
  forall va, p <= va < p + size -> heap_base h <= va < heap_base h + committed h.
Proof.
  intros (l & Hi & Hlive & _) Hp va Hva. destruct (Hlive p size Hp) as (c & [Hin _] & -> & Hs).
  pose proof (inv_links _ _ _ Hi) as Hl. pose proof (elem_addr_lt _ _ _ _ (lk_ok _ _ Hl) (lk_contig _ _ Hl) Hin).
  unfold sizeof_BlockHeader in *. lia.
Qed.

(** ** The allocator and the heap side by side *)

(** The frames of a run of pages. *)
Definition run (page count : Z) : gset Z := list_to_set ((fun k => page + k * page_size) <$> seqZ 0 count).

Lemma elem_of_run page count f : f ∈ run page count <-> exists k, 0 <= k < count /\ f = page + k * page_size.
Proof.
  unfold run. rewrite elem_of_list_to_set, list_elem_of_fmap. split.
  - intros (k & -> & Hk%elem_of_seqZ). exists k. split; [lia|done].
  - intros (k & Hk & ->). exists k. split; [done|]. apply elem_of_seqZ. lia.
Qed.

Notation kspace := (space (A := PageAlloc.state)).

Definition allocator (s : kspace) : PageAlloc.state := frames (space_tables s).
Definition with_allocator (s : kspace) (a : PageAlloc.state) : kspace :=
  Space (space_root s) (Paging.mk (tables (space_tables s)) a).

(** The memory after boot: the heap, its address space, its live allocations and the
    frames handed out by [alloc_pages].  Callers use [kmalloc] and [kfree],
    [alloc_pages] and [free_pages], in any order; [free_pages] is called on frames
    that were handed out. *)
Definition memory_state : Type := heap * kspace * gmap Z Z * gset Z.

Inductive memory_step : memory_state -> memory_state -> Prop :=
  | by_heap h s live h' s' live' held :
      Heap.step (h, s, live) (h', s', live') -> memory_step (h, s, live, held) (h', s', live', held)
  | by_alloc h s live held count page a :
      0 < count -> alloc_pages (allocator s) count = (page, a) -> page <> 0 ->
      memory_step (h, s, live, held) (h, with_allocator s a, live, run page count ∪ held)
  | by_free h s live held count page :
      0 < count -> run page count ⊆ held ->
      memory_step (h, s, live, held)
        (h, with_allocator s (free_pages (allocator s) page count), live, held ∖ run page count).

(** Another allocator state under which the tables' frames and [D] are still in use. *)
Lemma with_allocator_inv h (s : kspace) l a :
  inv h s l -> (exists D, frames_ok (with_allocator s a) D) -> inv h (with_allocator s a) l.
Proof. intros [I1 I2 I3 I4 I5] HD. by constructor. Qed.

Lemma with_allocator_world h (s : kspace) live a :
  world_inv (h, s, live) -> (exists D, frames_ok (with_allocator s a) D) ->
  world_inv (h, with_allocator s a, live).
Proof. intros (l & Hi & Hrest) HD. exists l. split; [by apply with_allocator_inv|exact Hrest]. Qed.

Lemma with_allocator_frames (s : kspace) a D D' :
  frames_ok s D ->
  (forall f, f mod page_size = 0 -> fa_owned (allocator s) f -> f ∉ D -> fa_owned a f) ->
  (forall f, f ∈ D' -> fa_owned a f /\ (f ∈ D \/ ~ fa_owned (allocator s) f) /\ 0 < f < 2 ^ 30 /\ f mod page_size = 0) ->
  frames_ok (with_allocator s a) D'.
Proof.
  intros [(T & HT & HD) Hf] Hkeep Hnew. split; [|intros f Hin; by apply Hnew].
  exists T. split.
  - apply (wf_frames (space_tables s) a); [done|]. intros k f Hk. destruct (wf_frame _ _ _ HT k f Hk) as (Ho & _ & Hm).
    apply Hkeep; [done|done|]. intros Hin. by apply (HD f Hin) in Hk.
  - intros f Hin. destruct (Hnew f Hin) as (Ho & Hor & _). split; [done|]. intros k Hk.
    destruct Hor as [Hor|Hor]; [by apply (HD f Hor) in Hk|]. apply Hor. by apply (wf_frame _ _ _ HT) in Hk as [? _].
Qed.

(** A run that was handed out is new, and in use now; everything else is as it was. *)
Lemma alloc_run a count page a' : 0 < count -> alloc_pages a count = (page, a') -> page <> 0 ->
  (forall f, f ∈ run page count -> ~ fa_owned a f /\ fa_owned a' f /\ 0 < f < 2 ^ 30 /\ f mod page_size = 0) /\
  (forall f, fa_owned a f -> fa_owned a' f).
Proof.
  intros Hc E Hp. destruct (alloc_pages_cases a count Hc) as [(first & (H0 & Hend & Hfree) & _ & E')|[_ E']];
    rewrite E' in E; injection E as <- <-; [|done]. pose proof managed_pages_eq as Hmp. split.
  - intros f (k & Hk & ->)%elem_of_run. cbn.
    assert ((first * page_size + k * page_size) / page_size = first + k) as -> by (unfold page_size; dlia).
    rewrite Hfree, test_for_mark_used by lia. split_and!; [done|..].
    + unfold in_range. apply orb_true_iff. right. lia.
    + unfold page_size in *. lia.
    + unfold page_size in *. lia.
    + unfold page_size. dlia.
  - intros f Hf. cbn in *. rewrite test_for_mark_used by lia. by rewrite Hf.
Qed.

Lemma free_run_other a count page f : 0 < count -> (forall g, g ∈ run page count -> 0 < g < 2 ^ 30 /\ g mod page_size = 0) ->
  f mod page_size = 0 -> f ∉ run page count -> fa_owned a f -> fa_owned (free_pages a page count) f.
Proof.
  intros Hc Hr Hf Hn Ho. cbn in *.
  destruct (Hr page) as [Hp Hpm]; [apply elem_of_run; exists 0; unfold page_size; lia|].
  destruct (Hr (page + (count - 1) * page_size)) as [Hl _]; [apply elem_of_run; exists (count - 1); split; [lia|done]|].
  change (2 ^ 30) with 1073741824 in *. rewrite test_free_pages by (unfold page_size in *; dlia). rewrite Ho.
  apply negb_true_iff. unfold in_range. destruct (Z.leb_spec (page / page_size) (f / page_size)) as [H1|]; [|done].
  destruct (Z.ltb_spec (f / page_size) (Z.min (page / page_size + count) managed_pages)) as [H2|]; [|by rewrite ?andb_false_r].
  destruct Hn. apply elem_of_run. exists (f / page_size - page / page_size). unfold page_size in *. split; [lia|dlia].
Qed.

Definition memory_inv (R : gset Z) (x : memory_state) : Prop :=
  let '(h, s, live, held) := x in
  world_inv (h, s, live) /\ placed (R ∪ held) h s /\ R ## held.

Lemma memory_step_inv R x y : memory_inv R x -> memory_step x y -> memory_inv R y.
Proof.
  intros Hx Hs. destruct Hs as [h s live h' s' live' held Hs|h s live held count page a Hc E Hp|h s live held count page Hc Hsub];
    unfold memory_inv in Hx |- *; destruct Hx as (Hw & Hpl & Hdis).
  - split_and!; [by eapply heap_step_inv|exact (step_placed _ _ _ Hw Hs Hpl)|done].
  - destruct (alloc_run _ _ _ _ Hc E Hp) as [Hnew Hold].
    destruct Hpl as (D & HD & HR & Hin & Hinj).
    assert (forall f, f ∈ D -> fa_owned (allocator s) f) as Hown.
    { intros f Hf. destruct HD as [(T & _ & HT) _]. by apply HT. }
    assert (frames_ok (with_allocator s a) (run page count ∪ D)) as HD'.
    { apply (with_allocator_frames s a D); [done|auto|]. intros f [Hf|Hf]%elem_of_union.
      - destruct (Hnew f Hf) as (? & ? & ? & ?). auto.
      - destruct HD as [_ Hfr]. destruct (Hfr f Hf). split; [auto|]. auto. }
    split_and!.
    + eapply with_allocator_world; [done|eauto].
    + exists (run page count ∪ D). split; [done|]. split; [set_solver|]. split; [|done].
      intros va Hva. destruct (Hin va Hva) as [H1 H2].
      split; [apply elem_of_union_r; exact H1|]. intros [?|[Hr|?]%elem_of_union]%elem_of_union; [set_solver| |set_solver].
      destruct (Hnew _ Hr) as [Hno _]. apply Hno, Hown. exact H1.
    + intros f Hf [Hr|Hr]%elem_of_union; [|set_solver]. destruct (Hnew f Hr) as [Hno _]. apply Hno, Hown. set_solver.
  - destruct Hpl as (D & HD & HR & Hin & Hinj).
    assert (frames_ok (with_allocator s (free_pages (allocator s) page count)) (D ∖ run page count)) as HD'.
    { destruct HD as [HD Hfr]. assert (forall g, g ∈ run page count -> 0 < g < 2 ^ 30 /\ g mod page_size = 0) as Hrr by set_solver.
      apply (with_allocator_frames s _ D); [done| |].
      - intros f Hm Ho Hf. apply free_run_other; auto. set_solver.
      - intros f [Hf Hn]%elem_of_difference. destruct (Hfr f Hf). destruct HD as (T & _ & HT). destruct (HT f Hf) as [Ho _].
        split; [by apply free_run_other|]. auto. }
    split_and!.
    + eapply with_allocator_world; [done|eauto].
    + exists (D ∖ run page count). split; [done|]. split; [set_solver|]. split; [|done].
      intros va Hva. destruct (Hin va Hva) as [H1 H2]. split; [apply elem_of_difference; split; [exact H1|set_solver]|set_solver].
    + set_solver.
Qed.

Lemma memory_reach_inv R x y : memory_inv R x -> rtc memory_step x y -> memory_inv R y.
Proof. intros Hx Hr. induction Hr as [|x y z Hs _ IH]; [done|]. apply IH. by eapply memory_step_inv. Qed.

(** A frame that was free when the allocator started. *)
Lemma boot_frame_safe m kernel_end ia info pages f :
  (forall k, 0 <= k < managed_pages -> test_bit pages k = false -> boot_safe m kernel_end ia info k) ->
  0 < f < 2 ^ 30 -> f mod page_size = 0 -> f ∉ boot_owned pages -> boot_safe m kernel_end ia info (f / page_size).
Proof.
  intros Hsafe Hrange Hmod HvR. change (2 ^ 30) with 1073741824 in *.
  assert (f = f / page_size * page_size) as Ef by (unfold page_size in *; dlia).
  assert (1 <= f / page_size < managed_pages) as Hk by (rewrite managed_pages_eq; unfold page_size in *; dlia).
  apply Hsafe; [lia|]. destruct (test_bit pages (f / page_size)) eqn:Et; [|done].
  destruct HvR. apply boot_owned_spec. eauto.
Qed.

(** C5: the memory subsystems, from the boot loader's memory map to the pages and bytes
    callers hold.  After the page allocator, the page tables and the heap have been
    brought up one on top of the other, and through any sequence of [kmalloc], [kfree],
    [alloc_pages] and [free_pages] of runs that were handed out: every frame the allocator
    handed out, and every frame behind a live heap allocation, is one the loader reported
    as available and holds no part of the kernel image or of what the loader handed over
    (its information block, the memory map, the command line, the module array, the modules and their strings); no page
    table lies in it; no frame is both handed out and under the heap; the next run to be handed out
    meets none of those already out; and two pages of the heap never share a frame, be
    they of one allocation or of two. *)
Theorem memory_boot_safe (m : memory) kernel_end magic ia info I L tables h0 h1 v1 s1 h (s : kspace) live held :
  byte_memory m -> 0 <= kernel_end -> kernel_end + page_size <= 2 ^ 64 ->
  0 <= ia -> ia + 8192 <= 2 ^ 64 -> read_info m ia = Some info -> image_ok I -> layout_ok L ->
  memory_init m kernel_end magic ia I L tables h0 = Some (h1, v1, s1) ->
  rtc memory_step (h1, s1, ∅, ∅) (h, s, live, held) ->
  exists T, Paging.wf (space_tables s) (space_root s) T /\
  (forall f, f ∈ held -> boot_safe m kernel_end ia info (f / page_size) /\ forall k, T !! k <> Some f) /\
  (forall count page a, 0 < count -> alloc_pages (allocator s) count = (page, a) -> page <> 0 -> run page count ## held) /\
  forall p size va, live !! p = Some size -> p <= va < p + size ->
    boot_safe m kernel_end ia info (frame_at s va / page_size) /\ (forall k, T !! k <> Some (frame_at s va)) /\
    frame_at s va ∉ held /\
    (forall q size' va', live !! q = Some size' -> q <= va' < q + size' -> frame_at s va' = frame_at s va -> va' / page_size = va / page_size).
Proof.
  intros Hm Hke Hke2 Hia Hia2 Hinfo HI HL E Hr. unfold memory_init in E. apply bind_Some_inv in E as (pages & E1 & E).
  apply bind_Some_inv in E as ([[root u] st] & E2 & E).
  destruct (page_alloc_init_safe m kernel_end magic ia info pages) as (_ & _ & Hsafe); try done.
  set (R := boot_owned pages).
  assert (forall f, f ∈ R -> fa_owned pages f) as Hown.
  { intros f (k & -> & Hk & Ht)%boot_owned_spec. cbn. by rewrite Z.div_mul. }
  assert (frames_ok (Space root st) R) as HD.
  { split; [exact (paging_init_data I L (Paging.mk tables pages) root u st R HI HL Hown E2)|]. intros f (k & -> & Hk & _)%boot_owned_spec.
    rewrite managed_pages_eq in Hk. unfold page_size. split; [lia|]. by apply Z.mod_mul. }
  change (heap_init h0 (Vmalloc.mk [] false) (Space root st)) with (heap_init h0 Vmalloc.fresh (Space root st)) in E.
  destruct (heap_init_inv _ _ _ _ _ _ _ Vmalloc.fresh_inv HD E) as (l & Hi & Hn).
  assert (memory_inv R (h1, s1, ∅, ∅)) as Hx.
  { unfold memory_inv. rewrite (right_id_L ∅ (∪)). split_and!; [|exact (heap_init_placed R h0 Vmalloc.fresh _ R h1 v1 s1 Vmalloc.fresh_inv HD (reflexivity R) E)|set_solver].
    exists l. split; [done|]. split; [done|]. intros c Hc. by apply Hn in Hc. }
  destruct (memory_reach_inv R _ _ Hx Hr) as (Hw' & (D & [HD' Hfr] & HR & Hin & Hinj) & Hdis).
  destruct HD' as (T & HT & Hdata). exists T. split; [done|]. split_and!.
  - intros f Hf. assert (f ∈ D) as HfD by set_solver. destruct (Hfr f HfD). split; [|by apply Hdata].
    eapply boot_frame_safe; [exact Hsafe|done|done|]. fold R. set_solver.
  - intros count page a Hc Ea Hp f Hf1 Hf2. destruct (alloc_run _ _ _ _ Hc Ea Hp) as [Hnew _].
    destruct (Hnew f Hf1) as [Hno _]. apply Hno. apply Hdata. set_solver.
  - intros p size va Hlp Hva. pose proof (live_inside _ _ _ _ _ Hw' Hlp va Hva) as Hva'. destruct (Hin va Hva') as [HvD HvR].
    destruct (Hfr _ HvD). split_and!; [eapply boot_frame_safe; [exact Hsafe|done|done|]; fold R; set_solver|by apply Hdata|set_solver|].
    intros q size' va' Hlq Hq Ef. apply Hinj; [exact (live_inside _ _ _ _ _ Hw' Hlq va' Hq)|exact Hva'|exact Ef].
Qed.

(** A machine with 16 MiB and a kernel of 256 KiB boots and asks for 100 bytes ... *)
Definition small_image : image := {|
  kernel_start := 0x100000; text_start := 0x101000; text_end := 0x102000;
  rodata_start := 0x102000; rodata_end := 0x103000; data_start := 0x103000; data_end := 0x140000 |}.
Definition small_layout : layout := {| stacks_at := 0x104000; boot_stack_guard := 0x13E000 |}.

Lemma small_image_ok : image_ok small_image.
Proof. constructor; [by repeat constructor|cbn; lia|cbn; lia]. Qed.
Lemma small_layout_ok : layout_ok small_layout.
Proof. constructor; vm_compute; [by split..|by left + by right]. Qed.

Definition demo_boot : option (heap * Vmalloc.state * space) :=
  memory_init boot_memory 0x140000 multiboot_bootloader_magic 0x9000 small_image small_layout ∅ empty_heap.
(** ... and three pages. *)
Definition demo_pages : option (Z * bool) :=
  '(h, _, s) ← demo_boot; '(p, _, s) ← kmalloc 100 h s; Some (p, negb ((alloc_pages (allocator s) 3).1 =? 0)).

Lemma demo_pages_ok : demo_pages = Some (0x40000020, true).
Proof. vm_cast_no_check (eq_refl (Some (0x40000020, true))). Qed.

Lemma memory_boot_safe_witness : exists s info page, page <> 0 /\
  boot_safe boot_memory 0x140000 0x9000 info (frame_at s 0x40000020 / page_size) /\
  boot_safe boot_memory 0x140000 0x9000 info (page / page_size).
Proof.
  pose proof demo_pages_ok as E. unfold demo_pages, demo_boot in E. apply bind_Some_inv in E as ([[h1 v1] s1] & E1 & E).
  apply bind_Some_inv in E as ([[p h] s] & E2 & E).
  destruct (alloc_pages (allocator s) 3) as [page a] eqn:E3. injection E as -> Hp%negb_true_iff%Z.eqb_neq.
  destruct (read_info boot_memory 0x9000) as [info|] eqn:Ei; [|vm_compute in Ei; discriminate Ei].
  assert (rtc memory_step (h1, s1, ∅, ∅) (h, with_allocator s a, <[0x40000020 := 100]> ∅, run page 3 ∪ ∅)) as Hr.
  { eapply rtc_l; [apply by_heap, (step_kmalloc h1 s1 ∅ 100); [lia|exact E2|discriminate]|].
    apply rtc_once, by_alloc; [lia|exact E3|exact Hp]. }
  destruct (memory_boot_safe boot_memory 0x140000 multiboot_bootloader_magic 0x9000 info small_image small_layout ∅ empty_heap h1 v1 s1 h
    (with_allocator s a) (<[0x40000020 := 100]> ∅) (run page 3 ∪ ∅)) as (T & _ & Hheld & _ & H).
  - apply boot_memory_bytes.
  - lia.
  - unfold page_size. lia.
  - lia.
  - lia.
  - exact Ei.
  - exact small_image_ok.
  - exact small_layout_ok.
  - exact E1.
  - exact Hr.
  - exists (with_allocator s a), info, page. split; [exact Hp|]. split.
    + destruct (H 0x40000020 100 0x40000020) as [Hs _]; [apply lookup_insert_eq|lia|]. exact Hs.
    + destruct (Hheld page) as [Hs _]; [|exact Hs]. apply elem_of_union_l, elem_of_run. exists 0. unfold page_size. lia.
Defined.
