(* ===== verification/Cmdline.v ===== *)
(** * Kernel command line (src/kernel/cmdline.cpp)

    The buffers [cmdline] and [words] are 512 bytes of memory each, at addresses the
    linker chooses; [word_table] is the list of word addresses, its length is
    [word_count].  [None] is a read or write outside mapped memory; the loops over a
    buffer run with the number of mapped bytes as fuel, since every turn reads
    another byte. *)

From S2P Require Import Prelude Memory Multiboot.

Definition cmdline_capacity : Z := 512.
Definition max_words : nat := 32.

Record state := mk { mem : memory; word_table : list Z }.

Definition space : Z := 32.
Definition equals : Z := 61.

(** [while (p(words[i])) ++i;] *)
Fixpoint skip (fuel : nat) (p : Z -> bool) (m : memory) (i : Z) : option Z :=
  match fuel with
  | O => None
  | S fuel' => c ← m !! i; if p c then skip fuel' p m (i + 1) else Some i
  end.

Fixpoint split_loop (fuel : nat) (m : memory) (i : Z) (table : list Z) : option state :=
  match fuel with
  | O => None
  | S fuel' =>
    c ← m !! i;
    if (c =? 0) || (max_words <=? length table)%nat then Some (mk m table)
    else
      i ← skip (S (size m)) (fun c => c =? space) m i;
      c ← m !! i;
      if c =? 0 then Some (mk m table)
      else
        let table := table ++ [i] in
        i ← skip (S (size m)) (fun c => negb (c =? 0) && negb (c =? space)) m i;
        c ← m !! i;
        if c =? space then m ← wr8 m i 0; split_loop fuel' m (i + 1) table
        else split_loop fuel' m i table
  end.

Definition split (words : Z) (m : memory) : option state := split_loop (S (size m)) m words [].

(** The result is the address behind the key, or null. *)
Fixpoint find_loop (m : memory) (table : list Z) (key length : Z) : option (option Z) :=
  match table with
  | [] => Some None
  | word :: table' =>
    n ← strlen m word;
    same ← (if n <? length then Some false
            else d ← memcmp m word key length; Some (d =? 0));
    if negb same then find_loop m table' key length
    else
      let rest := word + length in
      c ← m !! rest;
      if (c =? 0) || (c =? equals) then Some (Some rest) else find_loop m table' key length
  end.

Definition find (s : state) (key : Z) : option (option Z) :=
  length ← strlen (mem s) key;
  find_loop (mem s) (word_table s) key length.

(** The copy loop: [source] to [dest] until the terminator or the last slot. *)
Fixpoint copy_loop (n : nat) (m : memory) (source dest i : Z) : option (Z * memory) :=
  match n with
  | O => Some (i, m)
  | S n' =>
    c ← m !! (source + i);
    if c =? 0 then Some (i, m)
    else m ← wr8 m (dest + i) c; copy_loop n' m source dest (i + 1)
  end.

Section buffers.
(** Where the linker put [cmdline] and [words]. *)
Context (cmdline words : Z).

Definition cmdline_init (s : state) (multiboot_magic multiboot_info : Z) : option state :=
  m ← wr8 (mem s) cmdline 0;
  m ← wr8 m words 0;
  if negb (multiboot_magic =? multiboot_bootloader_magic) then Some (mk m [])
  else
    info ← read_info m multiboot_info;
    if (Z.land (mbi_flags info) multiboot_flag_cmdline =? 0) || (mbi_cmdline info =? 0)
    then Some (mk m [])
    else
      let source := mbi_cmdline info in
      '(i, m) ← copy_loop (Z.to_nat (cmdline_capacity - 1)) m source cmdline 0;
      m ← wr8 m (cmdline + i) 0;
      m ← memcpy m words cmdline (i + 1);
      split words m.

Definition cmdline_raw : Z := cmdline.
End buffers.

Definition cmdline_has (s : state) (key : Z) : option bool :=
  r ← find s key; Some (match r with Some _ => true | None => false end).

(** Null is [None] inside. *)
Definition cmdline_value (s : state) (key : Z) : option (option Z) :=
  r ← find s key;
  match r with
  | None => Some None
  | Some rest => c ← mem s !! rest; Some (if negb (c =? equals) then None else Some (rest + 1))
  end.

(** ** Words of a line *)

(** The reference: runs of bytes other than the space; [cur] is the word being read,
    reversed. *)
Fixpoint tokens (cur line : list Z) : list (list Z) :=
  match line with
  | [] => match cur with [] => [] | _ => [rev cur] end
  | c :: line' =>
    if c =? space
    then match cur with [] => tokens [] line' | _ => rev cur :: tokens [] line' end
    else tokens (c :: cur) line'
  end.

(** A word is the key alone or the key, an equals sign and the value. *)
Definition is_key (key word : list Z) : Prop :=
  word = key \/ exists v, word = key ++ equals :: v.

Lemma tokens_spaces sp line : Forall (fun c => c = space) sp ->
  tokens [] (sp ++ line) = tokens [] line.
Proof. induction 1 as [|c sp -> _ IH]; [done|]. simpl. done. Qed.

Lemma tokens_word_gen cur w line : Forall (fun c => c <> space) w ->
  tokens cur (w ++ line) = tokens (rev w ++ cur) line.
Proof.
  intros Hw. revert cur. induction Hw as [|c w Hc _ IH]; intros cur; [done|].
  simpl. destruct (Z.eqb_spec c space); [done|]. rewrite IH. by rewrite <- app_assoc.
Qed.

Lemma tokens_word w line : w <> [] -> Forall (fun c => c <> space) w ->
  (line = [] \/ exists r, line = space :: r) ->
  tokens [] (w ++ line) = w :: tokens [] (tail line).
Proof.
  intros Hne Hw Hl. rewrite tokens_word_gen, app_nil_r by done.
  assert (rev w <> []) as Hr by (intros E; apply Hne; by rewrite <- (rev_involutive w), E).
  destruct Hl as [->|[r ->]]; simpl; destruct (rev w) eqn:E; try done.
  - rewrite <- E, rev_involutive. done.
  - rewrite <- E, rev_involutive. done.
Qed.

(** A line is spaces, then a word up to the next space. *)
Lemma line_split line : exists sp w rest, line = sp ++ w ++ rest /\
  Forall (fun c => c = space) sp /\ Forall (fun c => c <> space) w /\
  (rest = [] \/ exists r, rest = space :: r) /\ (w = [] -> rest = []).
Proof.
  assert (forall l : list Z, exists w rest, l = w ++ rest /\ Forall (fun c => c <> space) w /\
    (rest = [] \/ exists r, rest = space :: r)) as Hword.
  { induction l as [|c l (w & rest & -> & Hw & Hr)]; [by exists [], []; auto|].
    destruct (Z.eq_dec c space) as [->|Hc].
    - exists [], (space :: w ++ rest). split_and!; [done|constructor|eauto].
    - exists (c :: w), rest. split_and!; [done|by constructor|done]. }
  induction line as [|c line IH].
  - exists [], [], []. split_and!; try done; auto.
  - destruct (Z.eq_dec c space) as [->|Hc].
    + destruct IH as (sp & w & rest & -> & Hs & Hw & Hr & He). exists (space :: sp), w, rest.
      split_and!; try done. by constructor.
    + destruct (Hword line) as (w & rest & -> & Hw & Hr). exists [], (c :: w), rest.
      split_and!; try done. by constructor.
Qed.

Lemma skip_spec fuel p m i xs c :
  bytes_at m i (xs ++ [c]) -> Forall (fun x => p x = true) xs -> p c = false ->
  (length xs < fuel)%nat -> skip fuel p m i = Some (i + Z.of_nat (length xs)).
Proof.
  revert i xs. induction fuel as [|fuel IH]; intros i xs Hb Hp Hc Hf; [lia|].
  destruct xs as [|x xs]; cbn [skip].
  - cbn [app] in Hb. apply bytes_at_cons in Hb as [-> _]. simpl. rewrite Hc. f_equal. lia.
  - rewrite <- app_comm_cons in Hb. apply bytes_at_cons in Hb as [-> Hb].
    apply list.Forall_cons in Hp as [Hx Hp]. cbn [mbind option_bind]. rewrite Hx.
    rewrite length_cons in *. rewrite (IH _ xs) by (done || lia). f_equal. lia.
Qed.

Lemma cstring_fuel m a xs : cstring m a xs -> (length xs < S (size m))%nat.
Proof. intros Hc. apply cstring_mapped, mapped_size in Hc; lia. Qed.

(** The bytes of a terminated string up to and including the one after a prefix. *)
Lemma cstring_prefix m a xs ys : cstring m a (xs ++ ys) -> bytes_at m a (xs ++ [hd 0 ys]).
Proof.
  intros Hc. pose proof (cstring_head _ _ _ (cstring_drop _ _ _ _ Hc)) as Hh.
  destruct Hc as [Hb _]. rewrite <- app_assoc in Hb. apply bytes_at_app in Hb as [Hb _].
  apply bytes_at_app. split; [done|]. apply bytes_at_cons. split; [done|apply bytes_at_nil].
Qed.

Lemma split_loop_spec fuel m i line table :
  cstring m i line -> (length line < fuel)%nat ->
  exists m' new, split_loop fuel m i table = Some (mk m' (table ++ new)) /\
    Forall2 (cstring m') new (take (max_words - length table) (tokens [] line)) /\
    (forall x, ~ i <= x < i + Z.of_nat (length line) -> m' !! x = m !! x).
Proof.
  revert m i line table. induction fuel as [|fuel IH]; intros m i line table Hc Hf; [lia|].
  cbn [split_loop]. rewrite (cstring_head _ _ _ Hc). cbn [mbind option_bind].
  assert (forall l, exists m' new, Some (mk m table) = Some (mk m' (table ++ new)) /\
    Forall2 (cstring m') new (take 0 (tokens [] l)) /\
    (forall x, ~ i <= x < i + Z.of_nat (length line) -> m' !! x = m !! x)) as Hstop.
  { intros l. exists m, []. rewrite app_nil_r. split_and!; [done|constructor|done]. }
  destruct (Nat.leb_spec max_words (length table)) as [Hfull|Hroom].
  { rewrite orb_true_r. replace (max_words - length table)%nat with 0%nat by lia. apply Hstop. }
  rewrite orb_false_r. destruct (Z.eqb_spec (hd 0 line) 0) as [H0|H0].
  { destruct line as [|c line]; [|destruct Hc as [_ Hn]; by inversion Hn].
    cbn [tokens]. rewrite take_nil. apply (Hstop []). }
  destruct (line_split line) as (sp & w & rest & -> & Hsp & Hw & Hr & He).
  pose proof (cstring_fuel _ _ _ Hc) as Hsz. pose proof (cstring_drop _ _ _ _ Hc) as Hc1.
  rewrite (skip_spec _ _ m i sp (hd 0 (w ++ rest))); [|by apply cstring_prefix| | |].
  2:{ eapply (list.Forall_impl _ _ _ Hsp). intros c ->. done. }
  2:{ destruct w as [|c w]; [by rewrite He|]. apply list.Forall_cons in Hw as [Hc' _].
      simpl. by destruct (Z.eqb_spec c space). }
  2:{ rewrite !length_app in Hsz. lia. }
  cbn [mbind option_bind]. rewrite (cstring_head _ _ _ Hc1). cbn [mbind option_bind].
  rewrite tokens_spaces by done. set (a := i + Z.of_nat (length sp)) in *.
  destruct w as [|c w].
  { pose proof (He eq_refl) as ->. cbn [app hd tokens] in *. rewrite Z.eqb_refl, take_nil.
    apply (Hstop []). }
  assert (c <> 0) as Hc0 by (destruct Hc1 as [_ Hn]; by inversion Hn).
  change (hd 0 ((c :: w) ++ rest)) with c. rewrite (proj2 (Z.eqb_neq c 0)) by done.
  pose proof (cstring_drop m a (c :: w) rest Hc1) as Hc2.
  rewrite (skip_spec _ _ m a (c :: w) (hd 0 rest)); [|by apply cstring_prefix| | |].
  2:{ destruct Hc1 as [_ Hn]. rewrite list.Forall_app in Hn. destruct Hn as [Hn _].
      rewrite list.Forall_forall in *. intros x Hx. pose proof (Hn x Hx). pose proof (Hw x Hx).
      rewrite (proj2 (Z.eqb_neq x 0)), (proj2 (Z.eqb_neq x space)) by done. done. }
  2:{ destruct Hr as [->|[r ->]]; done. }
  2:{ rewrite !length_app in Hsz. lia. }
  cbn [mbind option_bind]. rewrite (cstring_head _ _ _ Hc2). cbn [mbind option_bind].
  rewrite tokens_word by done. set (e := a + Z.of_nat (length (c :: w))) in *.
  assert (Z.of_nat (length (sp ++ (c :: w) ++ rest)) = e - i + Z.of_nat (length rest)) as Hlen.
  { rewrite !length_app. unfold e, a. lia. }
  assert (take (max_words - length table) ((c :: w) :: tokens [] (tail rest))
    = (c :: w) :: take (max_words - length (table ++ [a])) (tokens [] (tail rest))) as Htake.
  { rewrite length_app. cbn [length]. replace (max_words - length table)%nat
      with (S (max_words - (length table + 1))) by lia. done. }
  rewrite Htake. clear Htake.
  (* the word ends at [e]; the rest of the run starts behind it and changes nothing before *)
  assert (forall m1 j l, cstring m1 j l -> (length l < fuel)%nat -> e <= j -> cstring m1 a (c :: w) ->
    (j = e -> l = []) -> j + Z.of_nat (length l) <= i + Z.of_nat (length (sp ++ (c :: w) ++ rest)) ->
    (forall x, x < e \/ i + Z.of_nat (length (sp ++ (c :: w) ++ rest)) <= x -> m1 !! x = m !! x) ->
    exists m' new, split_loop fuel m1 j (table ++ [a]) = Some (mk m' (table ++ new)) /\
      Forall2 (cstring m') new
        ((c :: w) :: take (max_words - length (table ++ [a])) (tokens [] l)) /\
      (forall x, ~ i <= x < i + Z.of_nat (length (sp ++ (c :: w) ++ rest)) -> m' !! x = m !! x))
    as Hgo.
  { intros m1 j l Hj Hl Hej Hword Hend Hbound Hsame.
    destruct (IH m1 j l (table ++ [a]) Hj Hl) as (m' & new & E & HF & Hout).
    exists m', (a :: new). rewrite E, <- app_assoc. change ([a] ++ new) with (a :: new). split_and!; [done| |].
    - constructor; [|done]. eapply cstring_ext; [|exact Hword]. intros x Hx. fold e in Hx.
      apply Hout. intros Hx2. assert (j = e) as Hje by lia. rewrite (Hend Hje) in Hx2. simpl in Hx2. lia.
    - intros x Hx. assert (i <= e) by (unfold e, a; lia). rewrite Hout by lia. apply Hsame. lia. }
  assert (bytes_at m a (c :: w) /\ Forall (fun b => b <> 0) (c :: w)) as [Hbw Hnw].
  { destruct Hc1 as [Hb Hn]. rewrite <- app_assoc in Hb. apply bytes_at_app in Hb as [Hb _].
    rewrite list.Forall_app in Hn. by destruct Hn. }
  destruct Hr as [->|[r ->]]; cbn [hd tail].
  - cbn [Z.eqb space]. apply Hgo; try done; try lia.
    + rewrite !length_app in Hf. cbn [length] in *. lia.
    + split; [|done]. apply bytes_at_app. split; [done|]. by destruct Hc2 as [Hb _].
  - rewrite Z.eqb_refl. rewrite wr8_mapped by (by rewrite (cstring_head _ _ _ Hc2); eauto).
    cbn [mbind option_bind]. apply Hgo; try done; try lia.
    + apply cstring_tail in Hc2. eapply cstring_ext; [|exact Hc2]. intros x Hx.
      apply lookup_insert_ne. lia.
    + rewrite !length_app in Hf. cbn [length] in Hf. lia.
    + split; [|done]. apply bytes_at_app. split.
      * eapply bytes_at_ext; [|done]. intros x Hx. apply lookup_insert_ne. fold e in Hx. lia.
      * apply bytes_at_cons. split; [|apply bytes_at_nil]. apply lookup_insert_eq.
    + rewrite Hlen. cbn [length]. lia.
    + intros x Hx. apply lookup_insert_ne. rewrite Hlen in Hx. cbn [length] in Hx. lia.
Qed.

(** ** Looking up keys *)

Lemma is_key_rest k rest : Forall (fun b => b <> 0) rest ->
  is_key k (k ++ rest) <-> hd 0 rest = 0 \/ hd 0 rest = equals.
Proof.
  intros Hn. unfold is_key. split.
  - intros [E|[v E]].
    + left. assert (rest = []) as -> by (apply (app_inv_head k); by rewrite app_nil_r). done.
    + apply app_inv_head in E as ->. by right.
  - destruct rest as [|c rest]; simpl; [left; by rewrite app_nil_r|].
    apply list.Forall_cons in Hn as [Hc _]. intros [?| ->]; [done|]. right. eauto.
Qed.

Lemma is_key_length k w : is_key k w -> (length k <= length w)%nat.
Proof. intros [->|[v ->]]; [done|]. rewrite length_app. lia. Qed.

(** One turn of the search. *)
Lemma find_loop_cons m word table w key k :
  cstring m word w -> cstring m key k ->
  (is_key k w /\ find_loop m (word :: table) key (Z.of_nat (length k))
     = Some (Some (word + Z.of_nat (length k)))) \/
  (~ is_key k w /\ find_loop m (word :: table) key (Z.of_nat (length k))
     = find_loop m table key (Z.of_nat (length k))).
Proof.
  intros Hw Hk. cbn [find_loop]. rewrite (strlen_complete _ _ _ Hw). cbn [mbind option_bind].
  destruct (Z.ltb_spec (Z.of_nat (length w)) (Z.of_nat (length k))) as [Hlt|Hge].
  { right. split; [intros ?%is_key_length; lia|done]. }
  destruct Hw as [Hb Hn]. destruct Hk as [Hkb _]. apply bytes_at_app in Hkb as [Hkb _].
  assert (w = take (length k) w ++ drop (length k) w) as Ew by by rewrite take_drop.
  assert (length (take (length k) w) = length k) as El by (rewrite length_take; lia).
  set (p := take (length k) w) in *. set (rest := drop (length k) w) in *. clearbody p rest.
  subst w. rewrite list.Forall_app in Hn. destruct Hn as [_ Hn].
  rewrite <- app_assoc in Hb. apply bytes_at_app in Hb as [Hp Hr]. rewrite El in Hr.
  destruct (memcmp_bytes m word key p k Hp Hkb El) as (d & Ed & Hd). rewrite El in Ed. rewrite Ed.
  cbn [mbind option_bind]. destruct (Z.eqb_spec d 0) as [Hd0|Hd0]; cbn [negb].
  - apply Hd in Hd0. subst p.
    assert (m !! (word + Z.of_nat (length k)) = Some (hd 0 rest)) as ->.
    { destruct rest; cbn [app] in Hr; by apply bytes_at_cons in Hr as [? _]. }
    cbn [mbind option_bind]. pose proof (is_key_rest k rest Hn) as Hkey.
    destruct (Z.eqb_spec (hd 0 rest) 0) as [E0|E0]; [left; split; [tauto|done]|].
    destruct (Z.eqb_spec (hd 0 rest) equals) as [E1|E1]; [left; split; [tauto|done]|].
    right. split; [tauto|done].
  - right. split; [|done]. intros Hk. apply Hd0, Hd. destruct Hk as [E|[v E]].
    + symmetry in E. apply (f_equal (take (length p))) in E. rewrite take_app_length in E.
      by rewrite El, firstn_all in E.
    + apply app_inj_1 in E as [-> _]; done.
Qed.

Lemma find_loop_spec m table ws key k :
  Forall2 (cstring m) table ws -> cstring m key k ->
  exists r, find_loop m table key (Z.of_nat (length k)) = Some r /\
  match r with
  | None => Forall (fun w => ~ is_key k w) ws
  | Some rest => exists ws1 w ws2 a, ws = ws1 ++ w :: ws2 /\ Forall (fun w => ~ is_key k w) ws1 /\
      is_key k w /\ cstring m a w /\ rest = a + Z.of_nat (length k)
  end.
Proof.
  intros HF Hk. induction HF as [|a w table ws Hw HF IH]; [by exists None|].
  destruct (find_loop_cons m a table w key k Hw Hk) as [[Hyes ->]|[Hno ->]].
  - eexists. split; [done|]. exists [], w, ws, a. by split_and!.
  - destruct IH as (r & -> & Hr). exists r. split; [done|]. destruct r as [rest|].
    + destruct Hr as (ws1 & w1 & ws2 & b & -> & H1 & H2 & H3 & H4).
      exists (w :: ws1), w1, ws2, b. split_and!; try done. by constructor.
    + by constructor.
Qed.

(** The word table holds the words [ws]. *)
Definition represents (s : state) (ws : list (list Z)) : Prop :=
  Forall2 (cstring (mem s)) (word_table s) ws.

(** A key is present exactly when some word is the key or the key followed by an
    equals sign, and its value is what follows the equals sign in the first such word,
    or null when that word is the bare key. *)
Theorem cmdline_lookup_correct s ws key k :
  represents s ws -> cstring (mem s) key k ->
  (exists b, cmdline_has s key = Some b /\ (b = true <-> Exists (is_key k) ws)) /\
  (exists r, cmdline_value s key = Some r /\
     match r with
     | None => Forall (fun w => ~ is_key k w) ws \/
               exists ws1 ws2, ws = ws1 ++ k :: ws2 /\ Forall (fun w => ~ is_key k w) ws1
     | Some a => exists ws1 v ws2, ws = ws1 ++ (k ++ equals :: v) :: ws2 /\
                 Forall (fun w => ~ is_key k w) ws1 /\ cstring (mem s) a v
     end).
Proof.
  intros HF Hk. unfold cmdline_has, cmdline_value, find. rewrite (strlen_complete _ _ _ Hk).
  cbn [mbind option_bind]. destruct (find_loop_spec _ _ _ _ _ HF Hk) as (r & -> & Hr).
  cbn [mbind option_bind]. destruct r as [rest|].
  - destruct Hr as (ws1 & w & ws2 & a & -> & H1 & H2 & H3 & ->). split.
    + exists true. split; [done|]. split; [|done]. intros _. apply Exists_app. right. by left.
    + destruct H2 as [->|[v ->]].
      * destruct H3 as [Hb _]. apply bytes_at_app in Hb as [_ Hb].
        apply bytes_at_cons in Hb as [-> _]. cbn [mbind option_bind]. exists None.
        split; [done|]. right. eauto.
      * apply cstring_drop in H3. rewrite (cstring_head _ _ _ H3). cbn [mbind option_bind hd].
        rewrite Z.eqb_refl. cbn [negb]. eexists. split; [done|]. exists ws1, v, ws2.
        split_and!; try done. by apply cstring_tail in H3.
  - split.
    + exists false. split; [done|]. split; [done|]. intros HE. exfalso.
      apply list.Exists_exists in HE as (w & Hw & Hkey). rewrite list.Forall_forall in Hr. by apply (Hr w).
    + exists None. split; [done|]. by left.
Qed.

(** ** From the loader's line to the words *)

Lemma copy_loop_spec n m source dest line i :
  0 <= i -> cstring m (source + i) (drop (Z.to_nat i) line) ->
  (Z.to_nat i <= length line)%nat -> Memory.mapped m (dest + i) (Z.of_nat n) ->
  (forall x, source <= x <= source + Z.of_nat (length line) -> ~ dest <= x < dest + i + Z.of_nat n) ->
  exists m', copy_loop n m source dest i
      = Some (i + Z.of_nat (length (take n (drop (Z.to_nat i) line))), m') /\
    bytes_at m' (dest + i) (take n (drop (Z.to_nat i) line)) /\
    (forall x, ~ dest + i <= x < dest + i + Z.of_nat n -> m' !! x = m !! x) /\
    (forall x, is_Some (m !! x) -> is_Some (m' !! x)).
Proof.
  revert m i. induction n as [|n IH]; intros m i Hi Hc Hlen Hmap Hdis; cbn [copy_loop].
  { rewrite take_0. exists m. cbn [length]. rewrite Z.add_0_r. split_and!; [done|apply bytes_at_nil|done|done]. }
  rewrite (cstring_head _ _ _ Hc). cbn [mbind option_bind].
  destruct (drop (Z.to_nat i) line) as [|c rest] eqn:Ed; cbn [hd].
  { exists m. rewrite take_nil. cbn [length]. rewrite Z.add_0_r. split_and!; [done|apply bytes_at_nil|done|done]. }
  assert (c <> 0) as Hc0 by (destruct Hc as [_ Hn]; by inversion Hn).
  rewrite (proj2 (Z.eqb_neq c 0)) by done.
  assert (drop (Z.to_nat (i + 1)) line = rest) as Ed'.
  { rewrite Z2Nat.inj_add by lia. rewrite <- drop_drop, Ed. done. }
  assert (Z.to_nat (i + 1) <= length line)%nat as Hlen'.
  { apply (f_equal length) in Ed. rewrite length_drop in Ed. cbn [length] in Ed. lia. }
  rewrite wr8_mapped by (rewrite <- (Z.add_0_r (dest + i)); apply Hmap; lia). cbn [mbind option_bind].
  destruct (IH (<[dest + i := c]> m) (i + 1)) as (m' & E & Hb & Hout & Hmap').
  - lia.
  - rewrite Ed'. replace (source + (i + 1)) with (source + i + 1) by lia.
    eapply cstring_ext; [|by eapply cstring_tail]. intros x Hx. apply lookup_insert_ne.
    intros <-. apply (Hdis (dest + i)); [|lia].
    apply (f_equal length) in Ed'. rewrite length_drop in Ed'. lia.
  - done.
  - intros j Hj. rewrite lookup_insert. case_decide; [eauto|].
    replace (dest + (i + 1) + j) with (dest + i + (j + 1)) by lia. apply Hmap. lia.
  - intros x Hx. specialize (Hdis x Hx). lia.
  - rewrite Ed' in *. exists m'. cbn [take length]. split_and!.
    + rewrite E. do 2 f_equal. lia.
    + apply bytes_at_cons. split; [|by rewrite <- Z.add_assoc].
      rewrite Hout by lia. by rewrite lookup_insert_eq.
    + intros x Hx. rewrite Hout by lia. apply lookup_insert_ne. lia.
    + intros x Hx. apply Hmap'. rewrite lookup_insert. case_decide; eauto.
Qed.

Lemma rd_le_ext n m m' a : (forall x, a <= x < a + Z.of_nat n -> m' !! x = m !! x) ->
  rd_le n m' a = rd_le n m a.
Proof.
  revert a. induction n as [|n IH]; intros a He; [done|]. cbn [rd_le].
  rewrite He, IH by (lia || (intros; apply He; lia)). done.
Qed.

Lemma read_info_ext m m' a : (forall x, a <= x < a + sizeof_MultibootInfo -> m' !! x = m !! x) ->
  read_info m' a = read_info m a.
Proof.
  intros He. unfold sizeof_MultibootInfo in He. unfold read_info, rd32.
  rewrite !(rd_le_ext 4 m m') by (intros; apply He; lia). done.
Qed.

Definition apart (a n b k : Z) : Prop := a + n <= b \/ b + k <= a.

(** Where the loader's data and the two buffers are. *)
Record boot_line (cmdline words ia : Z) (m : memory) (info : MultibootInfo) (line : list Z) : Prop := {
  bl_info : read_info m ia = Some info;
  bl_flag : Z.land (mbi_flags info) multiboot_flag_cmdline <> 0;
  bl_source : mbi_cmdline info <> 0;
  bl_line : cstring m (mbi_cmdline info) line;
  bl_cmdline : Memory.mapped m cmdline cmdline_capacity;
  bl_words : Memory.mapped m words cmdline_capacity;
  bl_apart : apart cmdline cmdline_capacity words cmdline_capacity;
  bl_info_cmdline : apart ia sizeof_MultibootInfo cmdline cmdline_capacity;
  bl_info_words : apart ia sizeof_MultibootInfo words cmdline_capacity;
  bl_line_cmdline : apart (mbi_cmdline info) (Z.of_nat (length line) + 1) cmdline cmdline_capacity;
  bl_line_words : apart (mbi_cmdline info) (Z.of_nat (length line) + 1) words cmdline_capacity
}.

(** From a loader's command line, [cmdline_init] keeps its first 511 bytes as the
    raw line and cuts them into words at the spaces, at most 32 of them, in order. *)
Theorem cmdline_init_words cmdline words ia m table info line :
  boot_line cmdline words ia m info line ->
  exists s', cmdline_init cmdline words (mk m table) multiboot_bootloader_magic ia = Some s' /\
    cstring (mem s') (cmdline_raw cmdline) (take 511 line) /\
    represents s' (take max_words (tokens [] (take 511 line))).
Proof.
  intros [Hinfo Hflag Hsrc Hline Hmc Hmw Hap Hic Hiw Hlc Hlw]. unfold cmdline_init. cbn [mem].
  unfold apart, cmdline_capacity, sizeof_MultibootInfo in *.
  rewrite wr8_mapped by (rewrite <- (Z.add_0_r cmdline); apply Hmc; lia). cbn [mbind option_bind].
  rewrite wr8_mapped.
  2:{ rewrite lookup_insert. case_decide; [eauto|]. rewrite <- (Z.add_0_r words). apply Hmw. lia. }
  cbn [mbind option_bind]. rewrite Z.eqb_refl. cbn [negb].
  set (m1 := <[words := 0]> (<[cmdline := 0]> m)).
  assert (forall x, x <> words -> x <> cmdline -> m1 !! x = m !! x) as Hm1.
  { intros x ? ?. unfold m1. by rewrite !lookup_insert_ne. }
  assert (forall x, is_Some (m !! x) -> is_Some (m1 !! x)) as Hmap1.
  { intros x Hx. unfold m1. rewrite !lookup_insert. repeat case_decide; eauto. }
  clearbody m1. rewrite (read_info_ext m) by (unfold sizeof_MultibootInfo; intros; apply Hm1; lia).
  rewrite Hinfo. cbn [mbind option_bind].
  rewrite (proj2 (Z.eqb_neq _ 0) Hflag), (proj2 (Z.eqb_neq _ 0) Hsrc). cbn [orb].
  destruct (copy_loop_spec 511 m1 (mbi_cmdline info) cmdline line 0) as (m2 & E2 & Hb2 & Hout2 & Hmap2).
  { lia. }
  { rewrite Z.add_0_r. change (drop (Z.to_nat 0) line) with line.
    eapply cstring_ext; [|exact Hline]. intros x Hx. apply Hm1; lia. }
  { lia. }
  { intros j Hj. apply Hmap1. rewrite Z.add_0_r. apply Hmc. lia. }
  { intros x Hx. lia. }
  change (Z.to_nat (512 - 1)) with 511%nat. rewrite E2. cbn [mbind option_bind].
  change (drop (Z.to_nat 0) line) with line in *. rewrite Z.add_0_l, Z.add_0_r in *.
  set (n := Z.of_nat (length (take 511 line))) in *.
  assert (0 <= n <= 511) as Hn by (unfold n; rewrite length_take; lia).
  rewrite wr8_mapped by (apply Hmap2, Hmap1, Hmc; lia). cbn [mbind option_bind].
  set (m3 := <[cmdline + n := 0]> m2).
  assert (forall x, is_Some (m !! x) -> is_Some (m3 !! x)) as Hmap3.
  { intros x Hx. unfold m3. rewrite lookup_insert. case_decide; eauto. }
  assert (Forall (fun b => b <> 0) (take 511 line)) as Hnz
    by (apply Forall_take; by destruct Hline).
  assert (cstring m3 cmdline (take 511 line)) as Hc3.
  { split; [|done]. apply bytes_at_app. split.
    - eapply bytes_at_ext; [|exact Hb2]. intros x Hx. fold n in Hx. apply lookup_insert_ne. lia.
    - apply bytes_at_cons. fold n. split; [apply lookup_insert_eq|apply bytes_at_nil]. }
  clearbody m3.
  destruct (copy_forward m3 words cmdline (n + 1)) as (m4 & E4 & Hm4).
  { lia. } { intros j Hj. apply Hmap3, Hmw. lia. } { intros j Hj. apply Hmap3, Hmc. lia. } { lia. }
  unfold memcpy. rewrite E4. cbn [mbind option_bind].
  assert (cstring m4 words (take 511 line)) as Hc4.
  { split; [|done]. destruct Hc3 as [Hb3 _]. intros i b Hi. rewrite Hm4.
    pose proof (lookup_lt_Some _ _ _ Hi) as Hlt. rewrite length_app in Hlt. cbn [length] in Hlt. fold n in Hlt.
    rewrite bool_decide_eq_true_2 by (unfold n in *; lia). rewrite <- (Hb3 i b Hi). f_equal. lia. }
  destruct (split_loop_spec (S (size m4)) m4 words (take 511 line) []) as (m5 & new & E5 & HF & Hout5);
    [done|by eapply cstring_fuel|].
  unfold split. rewrite E5. eexists. split; [done|]. cbn [mem app]. split.
  - eapply cstring_ext; [|exact Hc3]. intros x Hx. cbn [cmdline_raw] in Hx. unfold n, cmdline_raw in *.
    rewrite Hout5, Hm4, bool_decide_eq_false_2; [done|lia|lia].
  - exact HF.
Qed.

(** ** Concrete command lines *)

(** Two words, "quiet" and "a=1", and the key "a". *)
Definition demo_words : memory := Eval vm_compute in
  place 0x100 [113; 117; 105; 101; 116; 0; 97; 61; 49; 0] ∪ place 0x200 [97; 0].

Lemma cstring_check (m : memory) a bs :
  forallb (fun '(i, b) => bool_decide (m !! (a + Z.of_nat i) = Some b))
    (imap pair (bs ++ [0])) = true ->
  forallb (fun b => negb (b =? 0)) bs = true -> cstring m a bs.
Proof.
  rewrite !forallb_forall. intros Hb Hn. split.
  - intros i b Hi. assert (In (i, b) (imap pair (bs ++ [0]))) as Hin.
    { apply list_elem_of_In, elem_of_lookup_imap. by exists i, b. }
    apply Hb in Hin. by apply bool_decide_eq_true in Hin.
  - apply list.Forall_forall. intros b Hin%list_elem_of_In. apply Hn in Hin.
    destruct (Z.eqb_spec b 0); [done|lia].
Qed.

Lemma cmdline_lookup_correct_witness :
  exists a, cmdline_value (mk demo_words [0x100; 0x106]) 0x200 = Some (Some a) /\
    cstring demo_words a [49].
Proof.
  assert (represents (mk demo_words [0x100; 0x106]) [[113; 117; 105; 101; 116]; [97; 61; 49]]) as Hr
    by (constructor; [apply cstring_check; reflexivity|]; constructor;
        [apply cstring_check; reflexivity|constructor]).
  assert (cstring demo_words 0x200 [97]) as Hk by (apply cstring_check; reflexivity).
  destruct (cmdline_lookup_correct _ _ _ _ Hr Hk) as [_ (r & E & Hv)].
  assert (r = Some 0x108) as -> by (vm_compute in E; congruence).
  exists 0x108. split; [exact E|]. destruct Hv as (ws1 & v & ws2 & Ew & H1 & Hc).
  assert (v = [49]) as <-; [|exact Hc].
  destruct ws1 as [|w1 [|w2 ws1]]; injection Ew; intros; subst; try discriminate; [congruence|].
  destruct ws1; discriminate.
Defined.

(** The loader's information block at 0x1000, its line "a b" at 0x2000, the buffers at
    0x4000 and 0x5000. *)
Definition demo_boot : memory := Eval vm_compute in
  place 0x1000 (le32 4 ++ replicate 12 0 ++ le32 0x2000 ++ replicate 32 0)
  ∪ place 0x2000 [97; 32; 98; 0] ∪ zero_memory 0x4000 512 ∪ zero_memory 0x5000 512.

Lemma demo_boot_buffer a n : (a = 0x4000 \/ a = 0x5000) -> 0 <= n < 512 -> is_Some (demo_boot !! (a + n)).
Proof.
  intros Ha Hn. apply (mapped_range _ a 512); [|lia]. destruct Ha as [->| ->]; vm_compute; reflexivity.
Qed.

Definition demo_info : MultibootInfo :=
  {| mbi_flags := 4; mbi_cmdline := 0x2000; mbi_mods_count := 0; mbi_mods_addr := 0;
     mbi_mmap_length := 0; mbi_mmap_addr := 0 |}.

Lemma demo_boot_line : boot_line 0x4000 0x5000 0x1000 demo_boot demo_info [97; 32; 98].
Proof.
  constructor.
  - vm_compute. reflexivity.
  - vm_compute. discriminate.
  - vm_compute. discriminate.
  - split; [|repeat constructor; discriminate]. intros i b Hi.
    do 4 (destruct i as [|i]; [injection Hi as <-; vm_compute; reflexivity|]). discriminate.
  - intros n Hn. apply demo_boot_buffer; [by left|done].
  - intros n Hn. apply demo_boot_buffer; [by right|done].
  - left. vm_compute. discriminate.
  - left. vm_compute. discriminate.
  - left. vm_compute. discriminate.
  - left. vm_compute. discriminate.
  - left. vm_compute. discriminate.
Qed.

Lemma cmdline_init_words_witness :
  exists s', cmdline_init 0x4000 0x5000 (mk demo_boot []) multiboot_bootloader_magic 0x1000 = Some s' /\
    represents s' [[97]; [98]].
Proof.
  destruct (cmdline_init_words 0x4000 0x5000 0x1000 demo_boot [] demo_info [97; 32; 98] demo_boot_line)
    as (s' & E & _ & Hr). exists s'. split; [exact E|exact Hr].
Defined.
