(* ===== verification/Initrd.v ===== *)
(** * The boot archive (src/kernel/initrd.cpp)

    A tar in memory, handed over by the loader as its first module.  State: the
    variables [archive], [archive_length] and [file_count] beside the byte memory.
    [None] is a read outside mapped memory.  A walk over the archive advances by at
    least one 512 byte block per turn, so its fuel is the number of blocks
    ([entries_total]). *)

From S2P Require Import Prelude Memory Multiboot.

Definition block_size : Z := 512.

(** Offsets of the [TarHeader] fields the code reads. *)
Definition tar_name : Z := 0.
Definition tar_size : Z := 124.
Definition tar_size_length : Z := 12.
Definition tar_type : Z := 156.

Record state := mk { archive : Z; archive_length : Z; file_count : Z }.

Definition initial : state := mk 0 0 0.

Fixpoint parse_octal_loop (n : nat) (m : memory) (text value : Z) : option Z :=
  match n with
  | O => Some value
  | S n' =>
    c ← m !! text;
    if (48 <=? c) && (c <=? 55) then parse_octal_loop n' m (text + 1) (u64 (value * 8 + (c - 48)))
    else Some value
  end.

Definition parse_octal (m : memory) (text length : Z) : option Z :=
  parse_octal_loop (Z.to_nat length) m text 0.

Definition round_to_block (bytes : Z) : Z :=
  u64 (bytes + block_size - 1) / block_size * block_size.

(** The header and the size of the entry at [offset], if there is one. *)
Definition entry_at (m : memory) (s : state) (offset : Z) : option (option (Z * Z)) :=
  if (archive s =? 0) || (archive_length s <? u64 (offset + block_size)) then Some None
  else
    let header := archive s + offset in
    c ← m !! (header + tar_name);
    if c =? 0 then Some None
    else
      size ← parse_octal m (header + tar_size) tar_size_length;
      Some (if u64 (offset + block_size + size) <=? archive_length s then Some (header, size) else None).

Definition slash : Z := 47.
Definition dot : Z := 46.

(** The scan for the last slash; the result is where the base name starts. *)
Fixpoint base_loop (fuel : nat) (m : memory) (p base : Z) : option Z :=
  match fuel with
  | O => None
  | S fuel' =>
    c ← m !! p;
    if c =? 0 then Some base
    else base_loop fuel' m (p + 1) (if c =? slash then p + 1 else base)
  end.

(** [memcmp(p, literal, n) == 0] against a constant of the code. *)
Fixpoint literal_at (m : memory) (p : Z) (literal : list Z) : option bool :=
  match literal with
  | [] => Some true
  | x :: literal' => c ← m !! p; if c =? x then literal_at m (p + 1) literal' else Some false
  end.

Definition name_matches (m : memory) (stored wanted : Z) : option bool :=
  base ← base_loop (S (size m)) m stored stored;
  length ← strlen m wanted;
  d ← memcmp m base wanted length;
  if negb (d =? 0) then Some false
  else
    rest ← m !! (base + length);
    if rest =? 0 then Some true
    else if rest =? dot then literal_at m (base + length) [46; 107; 111; 0] else Some false.

Definition is_regular (m : memory) (header : Z) : option bool :=
  c ← m !! (header + tar_type); Some ((c =? 48) || (c =? 0)).

(** The loops [while (entry_at(offset, header, size)) ...]: [body] returns a result
    ([inl]) or goes on with its own variables ([inr]). *)
Fixpoint walk {V R} (fuel : nat) (m : memory) (s : state) (offset : Z)
    (body : Z -> Z -> V -> option (R + V)) (v : V) : option (R + V) :=
  match fuel with
  | O => None
  | S fuel' =>
    e ← entry_at m s offset;
    match e with
    | None => Some (inr v)
    | Some (header, size) =>
      r ← body header size v;
      match r with
      | inl x => Some (inl x)
      | inr v => walk fuel' m s (u64 (offset + (block_size + round_to_block size))) body v
      end
    end
  end.

Definition blocks (s : state) : nat := S (Z.to_nat (archive_length s / block_size)).

Definition count_body (m : memory) (header size count : Z) : option (unit + Z) :=
  regular ← is_regular m header;
  Some (inr (if (regular : bool) then u64 (count + 1) else count)).

(** The message at the end is not modelled. *)
Definition initrd_init (m : memory) (s : state) (multiboot_magic multiboot_info : Z) : option state :=
  if negb (multiboot_magic =? multiboot_bootloader_magic) then Some s
  else
    info ← read_info m multiboot_info;
    if (Z.land (mbi_flags info) multiboot_flag_mods =? 0) || (mbi_mods_count info =? 0) then Some s
    else
      mod0 ← read_module m (mbi_mods_addr info) 0;
      let s := mk (mod_start mod0) (u32 (mod_end mod0 - mod_start mod0)) (file_count s) in
      r ← walk (blocks s) m s 0 (count_body m) (file_count s);
      match r with
      | inl _ => None
      | inr count => Some (mk (archive s) (archive_length s) count)
      end.

Definition initrd_available (s : state) : bool :=
  negb (archive s =? 0) && (0 <? file_count s).

Definition initrd_file_count (s : state) : Z := file_count s.

Definition find_body (m : memory) (name header size : Z) (_ : unit) : option (Z * Z + unit) :=
  regular ← is_regular m header;
  matches ← (if (regular : bool) then name_matches m (header + tar_name) name else Some false);
  Some (if (matches : bool) then inl (header + block_size, size) else inr tt).

(** The data pointer (null is 0) and the length. *)
Definition initrd_find (m : memory) (s : state) (name : Z) : option (Z * Z) :=
  r ← walk (blocks s) m s 0 (find_body m name) tt;
  Some (match r with inl found => found | inr _ => (0, 0) end).

Definition index_body (m : memory) (index header size seen : Z) : option (Z * Z + Z) :=
  regular ← is_regular m header;
  Some (if (regular : bool)
        then if seen =? index then inl (header, size) else inr (u64 (seen + 1))
        else inr seen).

(** The data pointer, the name and the length. *)
Definition initrd_data_at (m : memory) (s : state) (index : Z) : option (Z * Z * Z) :=
  r ← walk (blocks s) m s 0 (index_body m index) 0;
  Some (match r with
        | inl (header, size) => (header + block_size, header + tar_name, size)
        | inr _ => (0, 0, 0)
        end).

(** The name and the length. *)
Definition initrd_name_at (m : memory) (s : state) (index : Z) : option (Z * Z) :=
  r ← walk (blocks s) m s 0 (index_body m index) 0;
  Some (match r with inl (header, size) => (header + tar_name, size) | inr _ => (0, 0) end).

(** ** The archive as a list of entries *)

Fixpoint entries (fuel : nat) (m : memory) (s : state) (offset : Z) : option (list (Z * Z)) :=
  match fuel with
  | O => None
  | S fuel' =>
    e ← entry_at m s offset;
    match e with
    | None => Some []
    | Some (header, size) =>
      l ← entries fuel' m s (u64 (offset + (block_size + round_to_block size)));
      Some ((header, size) :: l)
    end
  end.

(** A loop body over a list of entries. *)
Fixpoint run {V R} (body : Z -> Z -> V -> option (R + V)) (l : list (Z * Z)) (v : V) : option (R + V) :=
  match l with
  | [] => Some (inr v)
  | (header, size) :: l' =>
    r ← body header size v;
    match r with inl x => Some (inl x) | inr v => run body l' v end
  end.

Lemma walk_run {V R} fuel m s offset (body : Z -> Z -> V -> option (R + V)) v l :
  entries fuel m s offset = Some l -> walk fuel m s offset body v = run body l v.
Proof.
  revert offset v l. induction fuel as [|fuel IH]; intros offset v l E; [done|].
  cbn [entries walk] in *. destruct (entry_at m s offset) as [[[header size]|]|]; cbn [mbind option_bind] in *;
    [|injection E as <-; done|done].
  apply bind_Some_inv in E as (l' & El & E). injection E as <-. cbn [run].
  destruct (body header size v) as [[x|v']|]; cbn [mbind option_bind]; [done| |done]. by apply IH.
Qed.

(** The archive is memory, and its length came from two 32-bit addresses. *)
Record readable (m : memory) (s : state) : Prop := {
  rd_mapped : Memory.mapped m (archive s) (archive_length s);
  rd_archive : 0 < archive s;
  rd_length : 0 <= archive_length s < 2 ^ 32
}.

(** An entry and its data lie in the archive. *)
Definition inside (s : state) (e : Z * Z) : Prop :=
  archive s <= e.1 /\ 0 <= e.2 /\ e.1 + block_size + e.2 <= archive s + archive_length s.

Lemma parse_octal_loop_spec n m text value :
  Memory.mapped m text (Z.of_nat n) -> 0 <= value < 8 ^ (12 - Z.of_nat n) -> (n <= 12)%nat ->
  exists v, parse_octal_loop n m text value = Some v /\ 0 <= v < 8 ^ 12.
Proof.
  revert text value. induction n as [|n IH]; intros text value Hm Hv Hn; cbn [parse_octal_loop].
  { exists value. done. }
  destruct (Hm 0) as [c Hc]; [lia|]. rewrite Z.add_0_r in Hc. rewrite Hc. cbn [mbind option_bind].
  assert (8 ^ (12 - Z.of_nat n) = 8 * 8 ^ (12 - Z.of_nat (S n))) as H8.
  { rewrite <- Z.pow_succ_r by lia. f_equal. lia. }
  assert (8 ^ (12 - Z.of_nat n) <= 8 ^ 12) as H12 by (apply Z.pow_le_mono_r; lia).
  change (8 ^ 12) with 68719476736 in *.
  destruct (Z.leb_spec 48 c), (Z.leb_spec c 55); cbn [andb]; try (exists value; split; [done|lia]).
  rewrite u64_small by lia. apply IH; [|lia|lia].
  intros i Hi. destruct (Hm (i + 1)) as [x Hx]; [lia|]. exists x. rewrite <- Hx. f_equal. lia.
Qed.

Lemma round_to_block_spec b : 0 <= b < 2 ^ 40 ->
  b <= round_to_block b < b + block_size /\ round_to_block b mod block_size = 0.
Proof. intros. unfold round_to_block, block_size in *. rewrite u64_small by lia. dlia. Qed.

Lemma entry_at_spec m s offset : readable m s -> 0 <= offset < 2 ^ 40 ->
  exists e, entry_at m s offset = Some e /\
    match e with
    | None => True
    | Some (header, size) => header = archive s + offset /\ inside s (header, size) /\ size < 8 ^ 12
    end.
Proof.
  intros [Hm Ha Hl] Ho. change (2 ^ 40) with 1099511627776 in Ho. change (2 ^ 32) with 4294967296 in Hl.
  unfold entry_at, block_size, tar_name, tar_size, tar_size_length.
  destruct (Z.eqb_spec (archive s) 0) as [|_]; [lia|]. rewrite u64_small by lia.
  destruct (Z.ltb_spec (archive_length s) (offset + 512)) as [|Hb]; [by exists None|]. cbn [orb].
  destruct (Hm (offset + 0)) as [c Hc]; [lia|]. rewrite Z.add_assoc in Hc. rewrite Hc.
  cbn [mbind option_bind]. destruct (c =? 0); [by exists None|].
  destruct (parse_octal_loop_spec 12 m (archive s + offset + 124) 0) as (size & E & Hs);
    [|done|lia|].
  { intros i Hi. destruct (Hm (offset + 124 + i)) as [x Hx]; [lia|]. exists x. rewrite <- Hx. f_equal. lia. }
  unfold parse_octal. change (Z.to_nat 12) with 12%nat. rewrite E. cbn [mbind option_bind]. change (8 ^ 12) with 68719476736 in *.
  rewrite u64_small by lia. eexists. split; [done|].
  destruct (Z.leb_spec (offset + 512 + size) (archive_length s)); [|done].
  split; [done|]. unfold inside, block_size. cbn [fst snd]. lia.
Qed.

(** A walk with one turn per block reaches the end. *)
Lemma entries_total m s fuel offset : readable m s -> 0 <= offset < 2 ^ 34 -> (0 < fuel)%nat ->
  archive_length s < offset + block_size * Z.of_nat fuel ->
  exists l, entries fuel m s offset = Some l /\ Forall (inside s) l.
Proof.
  intros Hr. revert offset. induction fuel as [|fuel IH]; intros offset Ho Hpos Hf; [lia|].
  cbn [entries]. destruct (entry_at_spec m s offset Hr) as (e & -> & He); [lia|].
  cbn [mbind option_bind]. destruct e as [[header size]|]; [|by exists []].
  destruct He as (-> & Hin & Hs). pose proof Hin as (I1 & I2 & I3). cbn [fst snd] in *.
  destruct Hr as [Hm Ha Hl]. change (2 ^ 32) with 4294967296 in Hl.
  change (8 ^ 12) with 68719476736 in Hs.
  destruct (round_to_block_spec size) as [R1 R2]; [lia|]. unfold block_size in *.
  rewrite u64_small by lia.
  destruct (IH (offset + (512 + round_to_block size))) as (l & -> & HF); [lia|lia|lia|].
  cbn [mbind option_bind]. eexists. split; [done|]. by constructor.
Qed.

Lemma archive_entries m s : readable m s ->
  exists l, entries (blocks s) m s 0 = Some l /\ Forall (inside s) l.
Proof.
  intros Hr. apply entries_total; [done|lia|unfold blocks; lia|].
  destruct Hr as [_ _ Hl]. unfold blocks, block_size. rewrite Nat2Z.inj_succ, Z2Nat.id; dlia.
Qed.

(** The headers of entries are readable. *)
Lemma is_regular_total m s e : readable m s -> inside s e -> exists b, is_regular m e.1 = Some b.
Proof.
  intros [Hm _ _] (I1 & I2 & I3). unfold is_regular, tar_type, block_size in *.
  destruct (Hm (e.1 - archive s + 156)) as [c Hc]; [lia|].
  replace (archive s + (e.1 - archive s + 156)) with (e.1 + 156) in Hc by lia. rewrite Hc.
  cbn [mbind option_bind]. eauto.
Qed.

(** The regular files, in archive order. *)
Definition regular (m : memory) (e : Z * Z) : bool :=
  match is_regular m e.1 with Some b => b | None => false end.

Definition files (m : memory) (l : list (Z * Z)) : list (Z * Z) := List.filter (regular m) l.

Lemma is_regular_eq m s e : readable m s -> inside s e -> is_regular m e.1 = Some (regular m e).
Proof. intros Hr Hi. unfold regular. destruct (is_regular_total _ _ _ Hr Hi) as [b ->]. done. Qed.

Lemma run_count m s l n : readable m s -> Forall (inside s) l -> 0 <= n ->
  n + Z.of_nat (length l) < 2 ^ 64 ->
  run (count_body m) l n = Some (inr (n + Z.of_nat (length (files m l)))).
Proof.
  intros Hr Hl. revert n. induction Hl as [|[h sz] l Hi Hl IH]; intros n Hn Hlim; cbn [run files List.filter].
  { cbn [length]. by rewrite Z.add_0_r. }
  rewrite length_cons in Hlim. pose proof (is_regular_eq m s (h, sz) Hr Hi) as E. cbn [fst] in E.
  assert (count_body m h sz n = Some (inr (if regular m (h, sz) then u64 (n + 1) else n))) as ->
    by (unfold count_body; by rewrite E).
  cbn [mbind option_bind]. destruct (regular m (h, sz)).
  - rewrite u64_small by lia. rewrite IH by lia. unfold files. cbn [length]. do 2 f_equal. lia.
  - apply IH; lia.
Qed.

Lemma run_index m s l index seen : readable m s -> Forall (inside s) l -> 0 <= seen <= index ->
  index + Z.of_nat (length l) < 2 ^ 64 ->
  run (index_body m index) l seen =
  match files m l !! Z.to_nat (index - seen) with
  | Some e => Some (inl e)
  | None => Some (inr (seen + Z.of_nat (length (files m l))))
  end.
Proof.
  intros Hr Hl. revert seen. induction Hl as [|[h sz] l Hi Hl IH]; intros seen Hs Hlim; cbn [run files List.filter].
  { cbn [length]. by rewrite lookup_nil, Z.add_0_r. }
  rewrite length_cons in Hlim. pose proof (is_regular_eq m s (h, sz) Hr Hi) as E. cbn [fst] in E.
  assert (index_body m index h sz seen = Some (if regular m (h, sz)
    then if seen =? index then inl (h, sz) else inr (u64 (seen + 1)) else inr seen)) as ->
    by (unfold index_body; by rewrite E).
  cbn [mbind option_bind]. destruct (regular m (h, sz)).
  - destruct (Z.eqb_spec seen index) as [->|Hne].
    + by rewrite Z.sub_diag.
    + rewrite u64_small by lia. rewrite IH by lia. fold (files m l).
      replace (Z.to_nat (index - seen)) with (S (Z.to_nat (index - (seen + 1)))) by lia.
      assert (forall k, ((h, sz) :: files m l) !! S k = files m l !! k) as -> by done.
      destruct (files m l !! _) as [e|]; [done|]. cbn [length]. do 2 f_equal. lia.
  - apply IH; lia.
Qed.

(** ** Names *)

(** [b] is the part of [n] behind its last slash. *)
Definition is_basename (n b : list Z) : Prop :=
  ~ slash ∈ b /\ exists d, n = d ++ b /\ (d = [] \/ exists d', d = d' ++ [slash]).

Lemma base_loop_spec fuel m base b0 n :
  cstring m base (b0 ++ n) -> ~ slash ∈ b0 -> (length n < fuel)%nat ->
  exists d b, b0 ++ n = d ++ b /\ ~ slash ∈ b /\ (d = [] \/ exists d', d = d' ++ [slash]) /\
    base_loop fuel m (base + Z.of_nat (length b0)) base = Some (base + Z.of_nat (length d)).
Proof.
  revert base b0 n. induction fuel as [|fuel IH]; intros base b0 n Hc Hb0 Hf; [lia|].
  cbn [base_loop]. rewrite (cstring_head _ _ _ (cstring_drop _ _ _ _ Hc)). cbn [mbind option_bind].
  destruct n as [|c n]; cbn [hd].
  { exists [], b0. rewrite app_nil_r. split_and!; auto. cbn. f_equal. lia. }
  rewrite length_cons in Hf.
  assert (c <> 0) as Hc0.
  { destruct Hc as [_ Hn]. rewrite list.Forall_app in Hn. destruct Hn as [_ Hn]. by inversion Hn. }
  rewrite (proj2 (Z.eqb_neq c 0)) by done. destruct (Z.eqb_spec c slash) as [->|Hs].
  - assert (b0 ++ slash :: n = (b0 ++ [slash]) ++ n) as E by by rewrite <- app_assoc.
    rewrite E in Hc. pose proof (cstring_drop _ _ _ _ Hc) as Hd. rewrite length_app in Hd. cbn [length] in Hd.
    destruct (IH (base + Z.of_nat (length b0) + 1) [] n) as (d & b & En & Hb & Hd' & El).
    { cbn [app]. replace (base + Z.of_nat (length b0) + 1)
        with (base + Z.of_nat (length b0 + 1)) by lia. done. }
    { apply not_elem_of_nil. } { lia. }
    cbn [app length Z.of_nat] in En, El. rewrite Z.add_0_r in El. subst n.
    exists (b0 ++ [slash] ++ d), b. split_and!; [by rewrite <- !app_assoc|done| |].
    + right. destruct Hd' as [->|[d' ->]]; [exists b0; by rewrite app_nil_r|].
      exists (b0 ++ [slash] ++ d'). by rewrite <- !app_assoc.
    + rewrite El, !length_app. cbn [length]. f_equal. lia.
  - destruct (IH base (b0 ++ [c]) n) as (d & b & En & Hb & Hd' & El).
    { by rewrite <- app_assoc. } { set_solver. } { lia. }
    exists d, b. rewrite <- app_assoc in En. split_and!; [done|done|done|].
    rewrite <- El, length_app. cbn [length]. f_equal. lia.
Qed.

Lemma memcmp_prefix m a p b w : cstring m a b -> cstring m p w ->
  exists d, memcmp m a p (Z.of_nat (length w)) = Some d /\ (d = 0 <-> exists r, b = w ++ r).
Proof.
  unfold memcmp. rewrite Nat2Z.id. revert a p b.
  induction w as [|y w IH]; intros a p b Hb Hw; cbn [length memcmp_loop].
  { exists 0. split; [done|]. split; [by eexists|done]. }
  rewrite (cstring_head _ _ _ Hb), (cstring_head _ _ _ Hw). cbn [mbind option_bind hd].
  destruct (Z.eqb_spec (hd 0 b) y) as [E|Hne].
  - assert (y <> 0) as Hy by (destruct Hw as [_ Hn]; by inversion Hn).
    destruct b as [|x b]; cbn [hd] in E; [congruence|]. subst x.
    destruct (IH (a + 1) (p + 1) b) as (d & -> & Hd); [by eapply cstring_tail..|].
    exists d. split; [done|]. rewrite Hd. split; intros [r Er]; exists r; cbn [app] in *; congruence.
  - eexists. split; [done|]. split; [destruct (_ <? _); lia|]. intros [r ->]. done.
Qed.

Lemma literal_at_spec m a r lit : cstring m a r -> Forall (fun b => b <> 0) lit ->
  exists b, literal_at m a (lit ++ [0]) = Some b /\ (b = true <-> r = lit).
Proof.
  intros Hr Hl. revert a r Hr. induction Hl as [|x lit Hx Hl IH]; intros a r Hr; cbn [app literal_at];
    rewrite (cstring_head _ _ _ Hr); cbn [mbind option_bind].
  - destruct (Z.eqb_spec (hd 0 r) 0) as [E|E].
    + exists true. split; [done|]. split; [|done]. intros _. destruct r as [|y r]; [done|].
      destruct Hr as [_ Hn]. by inversion Hn.
    + exists false. split; [done|]. split; [done|]. intros ->. done.
  - destruct (Z.eqb_spec (hd 0 r) x) as [E|E].
    + destruct r as [|y r]; cbn [hd] in E; [congruence|]. subst y.
      destruct (IH (a + 1) r) as (b & -> & Hb); [by eapply cstring_tail|].
      exists b. split; [done|]. rewrite Hb. split; congruence.
    + exists false. split; [done|]. split; [done|]. intros ->. done.
Qed.

Definition ko : list Z := [46; 107; 111].

Lemma is_basename_unique n b b' : is_basename n b -> is_basename n b' -> b = b'.
Proof.
  intros (Hb & d & E & Hd) (Hb' & d' & E' & Hd'). rewrite E in E'. clear E.
  apply app_eq_app in E' as (k & [[-> ->]|[-> ->]]).
  - destruct Hd as [Hk|[e He]]; [apply app_nil in Hk as [_ ->]; done|].
    destruct k as [|x k _] using rev_ind; [done|]. exfalso. apply Hb'.
    rewrite app_assoc in He. apply app_inj_2 in He as [_ He]; [|done]. injection He as ->. set_solver.
  - destruct Hd' as [Hk|[e He]]; [apply app_nil in Hk as [_ ->]; done|].
    destruct k as [|x k _] using rev_ind; [done|]. exfalso. apply Hb.
    rewrite app_assoc in He. apply app_inj_2 in He as [_ He]; [|done]. injection He as ->. set_solver.
Qed.

Lemma name_matches_spec m stored wanted n w :
  cstring m stored n -> cstring m wanted w ->
  exists b, name_matches m stored wanted = Some b /\
    (b = true <-> is_basename n w \/ is_basename n (w ++ ko)).
Proof.
  intros Hn Hw. unfold name_matches.
  destruct (base_loop_spec (S (size m)) m stored [] n) as (d & b & En & Hb & Hd & El).
  { done. } { apply not_elem_of_nil. }
  { apply cstring_mapped, mapped_size in Hn; lia. }
  cbn [app length Z.of_nat] in En, El. rewrite Z.add_0_r in El. rewrite El. cbn [mbind option_bind].
  assert (is_basename n b) as Hbase by (split; [done|]; by exists d).
  assert (forall x, is_basename n x <-> x = b) as Hiff.
  { intros x. split; [intros Hx; by eapply is_basename_unique|by intros ->]. }
  setoid_rewrite Hiff. subst n. apply cstring_drop in Hn.
  rewrite (strlen_complete _ _ _ Hw). cbn [mbind option_bind].
  destruct (memcmp_prefix m _ wanted b w Hn Hw) as (c & -> & Hc). cbn [mbind option_bind].
  destruct (Z.eqb_spec c 0) as [Hc0|Hc0]; cbn [negb].
  2:{ exists false. split; [done|]. split; [done|]. intros Hx. exfalso. apply Hc0, Hc.
      destruct Hx as [<-|<-]; [exists []; by rewrite app_nil_r|by eexists]. }
  apply Hc in Hc0 as [r ->]. apply cstring_drop in Hn. rewrite (cstring_head _ _ _ Hn).
  cbn [mbind option_bind].
  assert ((w = w ++ r) <-> r = []) as E1.
  { split; [|intros ->; by rewrite app_nil_r]. intros E. apply (app_inv_head w). by rewrite app_nil_r. }
  assert ((w ++ ko = w ++ r) <-> r = ko) as E2.
  { split; [|congruence]. intros E. by apply app_inv_head in E. }
  setoid_rewrite E1. setoid_rewrite E2. destruct (Z.eqb_spec (hd 0 r) 0) as [Hz|Hz].
  { exists true. split; [done|]. split; [|done]. intros _. left. destruct r as [|y r]; [done|].
    destruct Hn as [_ Hn]. by inversion Hn. }
  assert (r <> []) as Hr by (intros ->; done).
  destruct (Z.eqb_spec (hd 0 r) dot) as [Hdot|Hdot].
  - change [46; 107; 111; 0] with (ko ++ [0]).
    destruct (literal_at_spec m _ r ko Hn) as (x & -> & Hx); [by repeat constructor|].
    exists x. split; [done|]. rewrite Hx. tauto.
  - exists false. split; [done|]. split; [done|]. intros [?| ->]; [done|]. by exfalso.
Qed.

(** The file [w] is looked up by: its base name, with or without the module suffix. *)
Definition answers (n w : list Z) : Prop := is_basename n w \/ is_basename n (w ++ ko).

Lemma run_find m s l name w (names : Z * Z -> list Z) :
  readable m s -> Forall (inside s) l -> cstring m name w ->
  Forall (fun e => regular m e = true -> cstring m (e.1 + tar_name) (names e)) l ->
  exists r, run (find_body m name) l tt = Some r /\
  match r with
  | inr _ => Forall (fun e => ~ answers (names e) w) (files m l)
  | inl (data, size) => exists l1 header l2, files m l = l1 ++ (header, size) :: l2 /\
      data = header + block_size /\ Forall (fun e => ~ answers (names e) w) l1 /\
      answers (names (header, size)) w
  end.
Proof.
  intros Hr Hl Hw. induction Hl as [|[h sz] l Hi Hl IH]; intros Hn; cbn [run files List.filter].
  { exists (inr tt). split; [done|]. constructor. }
  apply list.Forall_cons in Hn as [Hn0 Hn]. destruct (IH Hn) as (r & Er & Hspec).
  pose proof (is_regular_eq m s (h, sz) Hr Hi) as E. cbn [fst] in *.
  destruct (regular m (h, sz)) eqn:Ereg.
  - destruct (name_matches_spec m _ _ _ _ (Hn0 eq_refl) Hw) as (b & Eb & Hb).
    assert (find_body m name h sz tt = Some (if b then inl (h + block_size, sz) else inr tt)) as ->
      by (unfold find_body; rewrite E; cbn [mbind option_bind]; rewrite Eb; done).
    cbn [mbind option_bind]. destruct b.
    + eexists. split; [done|]. exists [], h, (files m l). split_and!; try done. by apply Hb.
    + exists r. split; [done|].
      assert (~ answers (names (h, sz)) w) as Hno by (intros Hx; by apply Hb in Hx).
      destruct r as [[data size]|[]]; [|by constructor].
      destruct Hspec as (l1 & header & l2 & El & -> & H1 & H2).
      exists ((h, sz) :: l1), header, l2. fold (files m l). rewrite El. split_and!; try done. by constructor.
  - assert (find_body m name h sz tt = Some (inr tt)) as ->
      by (unfold find_body; rewrite E; done).
    cbn [mbind option_bind]. by exists r.
Qed.

(** The archive is read to its end and never past it: on an archive the loader
    passed, [initrd_init] counts the regular files, [initrd_data_at] and
    [initrd_name_at] return the file of that index exactly for the indices below the
    count, and every data range they return lies inside the archive. *)
Theorem initrd_index_correct m ia info mod0 s :
  read_info m ia = Some info -> Z.land (mbi_flags info) multiboot_flag_mods <> 0 ->
  mbi_mods_count info <> 0 -> read_module m (mbi_mods_addr info) 0 = Some mod0 ->
  s = mk (mod_start mod0) (u32 (mod_end mod0 - mod_start mod0)) 0 -> readable m s ->
  exists s' fs, initrd_init m initial multiboot_bootloader_magic ia = Some s' /\
    archive s' = archive s /\ archive_length s' = archive_length s /\
    initrd_file_count s' = Z.of_nat (length fs) /\ Forall (inside s) fs /\
    forall index, 0 <= index < 2 ^ 32 ->
      initrd_data_at m s' index = Some (match fs !! Z.to_nat index with
        | Some (header, size) => (header + block_size, header + tar_name, size)
        | None => (0, 0, 0) end) /\
      initrd_name_at m s' index = Some (match fs !! Z.to_nat index with
        | Some (header, size) => (header + tar_name, size)
        | None => (0, 0) end).
Proof.
  intros Hinfo Hflag Hcount Hmod Hs Hr. unfold initrd_init. rewrite Z.eqb_refl, Hinfo. cbn [negb mbind option_bind].
  rewrite (proj2 (Z.eqb_neq _ 0) Hflag), (proj2 (Z.eqb_neq _ 0) Hcount). cbn [orb].
  rewrite Hmod. cbn [mbind option_bind initial file_count]. rewrite <- Hs.
  destruct (archive_entries m s Hr) as (l & El & Hl).
  assert (Z.of_nat (length l) < 2 ^ 33) as Hlen.
  { assert (forall fuel o l, entries fuel m s o = Some l -> (length l < fuel)%nat) as Hb.
    { induction fuel as [|fuel IH]; intros o l0 E; [done|]. cbn [entries] in E.
      destruct (entry_at m s o) as [[[? ?]|]|]; cbn [mbind option_bind] in E; [|injection E as <-; simpl; lia|done].
      apply bind_Some_inv in E as (l1 & E1 & E). injection E as <-. apply IH in E1. simpl. lia. }
    apply Hb in El. unfold blocks, block_size in El. destruct Hr as [_ _ Hlen].
    change (2 ^ 33) with 8589934592. change (2 ^ 32) with 4294967296 in Hlen.
    assert (archive_length s / 512 <= 4294967296) by dlia.
    assert (0 <= archive_length s / 512) by dlia. lia. }
  rewrite (walk_run _ _ _ _ _ _ l El), (run_count m s) by (done || lia). cbn [mbind option_bind].
  eexists _, (files m l). split; [done|]. cbn [archive archive_length file_count initrd_file_count].
  split_and!; try done.
  { apply list.Forall_forall. intros e He. apply list_elem_of_In, filter_In in He as [He _].
    rewrite list.Forall_forall in Hl. apply Hl. by apply list_elem_of_In. }
  intros index Hi. unfold initrd_data_at, initrd_name_at.
  set (s' := mk _ _ _). assert (forall fuel o, entries fuel m s' o = entries fuel m s o) as He.
  { induction fuel as [|fuel IH]; intros o; [done|]. cbn [entries].
    change (entry_at m s' o) with (entry_at m s o).
    destruct (entry_at m s o) as [[[? ?]|]|]; cbn [mbind option_bind]; [|done|done]. by rewrite IH. }
  change (blocks s') with (blocks s). rewrite !(walk_run _ _ _ _ _ _ l) by (by rewrite He).
  rewrite !(run_index m s) by (done || lia). rewrite Z.sub_0_r.
  destruct (files m l !! Z.to_nat index) as [[h sz]|]; done.
Qed.

(** [initrd_find] returns the first regular file whose base name is the wanted name
    or the wanted name with the module suffix, with data inside the archive, and null
    exactly when there is none. *)
Theorem initrd_find_correct m s name w (names : Z * Z -> list Z) l :
  readable m s -> cstring m name w -> entries (blocks s) m s 0 = Some l ->
  Forall (fun e => regular m e = true -> cstring m (e.1 + tar_name) (names e)) l ->
  exists fs data size, fs = files m l /\ initrd_find m s name = Some (data, size) /\
  if data =? 0
  then Forall (fun e => ~ answers (names e) w) fs
  else exists l1 header l2, fs = l1 ++ (header, size) :: l2 /\ data = header + block_size /\
       Forall (fun e => ~ answers (names e) w) l1 /\ answers (names (header, size)) w /\
       archive s <= data /\ data + size <= archive s + archive_length s.
Proof.
  intros Hr Hw El Hn. destruct (archive_entries m s Hr) as (l' & El' & Hl).
  rewrite El in El'. injection El' as <-. assert (Forall (inside s) (files m l)) as Hfs.
  { apply list.Forall_forall. intros e He. apply list_elem_of_In, filter_In in He as [He _].
    rewrite list.Forall_forall in Hl. apply Hl. by apply list_elem_of_In. }
  destruct (run_find m s l name w names Hr Hl Hw Hn) as (r & Er & Hspec).
  unfold initrd_find. rewrite (walk_run _ _ _ _ _ _ l El), Er. cbn [mbind option_bind].
  exists (files m l). destruct r as [[data size]|[]].
  - destruct Hspec as (l1 & header & l2 & El2 & -> & H1 & H2).
    exists (header + block_size), size. split; [done|]. split; [done|].
    assert (inside s (header, size)) as (I1 & I2 & I3).
    { rewrite list.Forall_forall in Hfs. apply Hfs. rewrite El2. set_solver. }
    cbn [fst snd] in *. destruct Hr as [_ Ha _]. unfold block_size in *.
    destruct (Z.eqb_spec (header + 512) 0) as [|_]; [lia|].
    exists l1, header, l2. split_and!; try done; lia.
  - exists 0, 0. by split_and!.
Qed.

(** ** A concrete archive *)

(** One file "d/a.ko" of five bytes at 0x8000, the loader's tables at 0x1000 and
    0x1100, the name "a" at 0x2000. *)
Definition demo_archive : memory := Eval vm_compute in
  place 0x1000 (le32 8 ++ replicate 16 0 ++ le32 1 ++ le32 0x1100 ++ replicate 24 0)
  ∪ place 0x1100 (le32 0x8000 ++ le32 0x8600 ++ le32 0 ++ le32 0) ∪ place 0x2000 [97; 0]
  ∪ place 0x8000 [100; 47; 97; 46; 107; 111; 0]
  ∪ place 0x807C [48; 48; 48; 48; 48; 48; 48; 48; 48; 48; 53; 0] ∪ place 0x809C [48]
  ∪ zero_memory 0x8000 0x600.

Definition demo_state : state := mk 0x8000 0x600 0.

Lemma demo_readable : readable demo_archive demo_state.
Proof.
  constructor; [|vm_compute; reflexivity|vm_compute; split; [discriminate|reflexivity]].
  intros i Hi. apply (mapped_range _ 0x8000 0x600); [vm_compute; reflexivity|].
  cbn [demo_state archive archive_length] in *. lia.
Qed.

Definition demo_info : MultibootInfo :=
  {| mbi_flags := 8; mbi_cmdline := 0; mbi_mods_count := 1; mbi_mods_addr := 0x1100;
     mbi_mmap_length := 0; mbi_mmap_addr := 0 |}.

Definition demo_module : MultibootModule :=
  {| mod_start := 0x8000; mod_end := 0x8600; mod_string := 0 |}.

Lemma initrd_index_correct_witness :
  exists s', initrd_init demo_archive initial multiboot_bootloader_magic 0x1000 = Some s' /\
    exists fs, Forall (inside demo_state) fs /\ initrd_file_count s' = Z.of_nat (length fs).
Proof.
  destruct (initrd_index_correct demo_archive 0x1000 demo_info demo_module demo_state)
    as (s' & fs & E & _ & _ & Hc & Hin & _).
  - vm_compute. reflexivity.
  - vm_compute. discriminate.
  - vm_compute. discriminate.
  - vm_compute. reflexivity.
  - reflexivity.
  - exact demo_readable.
  - exists s'. split; [exact E|]. exists fs. split; [exact Hin|exact Hc].
Defined.

Lemma demo_wanted : cstring demo_archive 0x2000 [97].
Proof.
  split; [|repeat constructor; discriminate]. intros i b Hi.
  do 2 (destruct i as [|i]; [injection Hi as <-; vm_compute; reflexivity|]). discriminate.
Qed.

Lemma demo_stored : cstring demo_archive 0x8000 [100; 47; 97; 46; 107; 111].
Proof.
  split; [|repeat constructor; discriminate]. intros i b Hi.
  do 7 (destruct i as [|i]; [injection Hi as <-; vm_compute; reflexivity|]). discriminate.
Qed.

Lemma demo_files : entries (blocks demo_state) demo_archive demo_state 0 = Some [(0x8000, 5)].
Proof. vm_compute. reflexivity. Qed.

Lemma demo_find : initrd_find demo_archive demo_state 0x2000 = Some (0x8200, 5).
Proof. vm_compute. reflexivity. Qed.

Lemma initrd_find_correct_witness :
  initrd_find demo_archive demo_state 0x2000 = Some (0x8200, 5) /\
    archive demo_state <= 0x8200 /\ 0x8200 + 5 <= archive demo_state + archive_length demo_state.
Proof.
  destruct (initrd_find_correct demo_archive demo_state 0x2000 [97]
              (fun _ => [100; 47; 97; 46; 107; 111]) [(0x8000, 5)] demo_readable demo_wanted demo_files)
    as (fs & data & size & _ & E & Hd).
  - constructor; [intros _; exact demo_stored|constructor].
  - rewrite demo_find in E. injection E as <- <-. split; [exact demo_find|].
    destruct Hd as (l1 & header & l2 & _ & _ & _ & _ & H1 & H2). split; [exact H1|exact H2].
Defined.
