(* ===== verification/Console.v ===== *)
(** * Consoles (src/kernel/lib/console.cpp)

    State: the registered consoles in order (the first [console_count] slots) and the
    characters each was given, oldest first, as pairs of console and character.  A
    console is its address; what its [put] does is the driver's business.  The
    recursive lock makes each operation atomic. *)

From S2P Require Import Prelude Memory.

Definition max_consoles : nat := 4.

Record state := mk { consoles : list Z; output : list (Z * Z) }.

Definition console_register (s : state) (console : Z) : state :=
  if (console =? 0) || (max_consoles <=? length (consoles s))%nat then s
  else if existsb (fun c => c =? console) (consoles s) then s
  else mk (consoles s ++ [console]) (output s).

(** Closing the gap keeps the order. *)
Fixpoint remove_first (l : list Z) (console : Z) : list Z :=
  match l with
  | [] => []
  | c :: l' => if negb (c =? console) then c :: remove_first l' console else l'
  end.

Definition console_unregister (s : state) (console : Z) : state :=
  mk (remove_first (consoles s) console) (output s).

(** [consoles[i]->put(c)] for every [i]. *)
Definition console_put (s : state) (c : Z) : state :=
  mk (consoles s) (output s ++ ((fun d => (d, c)) <$> consoles s)).

(** The loop of [console_write] over the text in memory. *)
Fixpoint write_loop (fuel : nat) (m : memory) (p : Z) (s : state) : option state :=
  match fuel with
  | O => None
  | S fuel' =>
    c ← m !! p;
    if c =? 0 then Some s else write_loop fuel' m (p + 1) (console_put s c)
  end.

Definition console_write (m : memory) (text : Z) (s : state) : option state :=
  write_loop (S (size m)) m text s.

(** ** Properties *)

(** What one console has been given. *)
Definition seen (s : state) (console : Z) : list Z :=
  snd <$> List.filter (fun e => e.1 =? console) (output s).

Record inv (s : state) : Prop := {
  inv_nodup : NoDup (consoles s);
  inv_bound : (length (consoles s) <= max_consoles)%nat;
  inv_nonnull : ~ 0 ∈ consoles s
}.

Lemma existsb_elem l c : existsb (fun d => d =? c) l = true <-> c ∈ l.
Proof.
  rewrite existsb_exists. split.
  - intros (d & Hd & E). apply Z.eqb_eq in E. subst. by apply list_elem_of_In.
  - intros Hc. exists c. split; [by apply list_elem_of_In|]. apply Z.eqb_refl.
Qed.

Lemma remove_first_elem l c d : NoDup l -> d ∈ remove_first l c <-> d ∈ l /\ d <> c.
Proof.
  induction 1 as [|x l Hx Hl IH]; cbn [remove_first].
  { rewrite elem_of_nil. tauto. }
  destruct (Z.eqb_spec x c) as [->|Hne]; cbn [negb]; rewrite !elem_of_cons.
  - split; [intros Hd; split; [by right|intros ->; done]|]. intros [[->|?] ?]; [congruence|done].
  - rewrite IH. split; [intros [->|[? ?]]; tauto|tauto].
Qed.

Lemma remove_first_nodup l c : NoDup l -> NoDup (remove_first l c).
Proof.
  induction 1 as [|x l Hx Hl IH]; cbn [remove_first]; [constructor|].
  destruct (x =? c); cbn [negb]; [done|]. constructor; [|done].
  intros Hin. apply (remove_first_elem l c x Hl) in Hin as [? _]. done.
Qed.

Lemma remove_first_length l c : (length (remove_first l c) <= length l)%nat.
Proof. induction l as [|x l IH]; simpl; [lia|]. destruct (x =? c); simpl; lia. Qed.

(** Registering and unregistering keep the table without duplicates and in bounds. *)
Lemma register_inv s c : inv s -> inv (console_register s c).
Proof.
  intros Hi. unfold console_register. destruct (Z.eqb_spec c 0) as [|Hc]; [done|]. cbn [orb].
  destruct (Nat.leb_spec max_consoles (length (consoles s))) as [|Hl]; [done|].
  destruct (existsb _ _) eqn:E; [done|]. destruct Hi as [H1 H2 H3].
  constructor; cbn [consoles].
  - apply NoDup_app. split_and!; [done| |apply NoDup_singleton].
    intros d Hd ->%list_elem_of_singleton. apply existsb_elem in Hd. congruence.
  - rewrite length_app. cbn [length]. lia.
  - rewrite elem_of_app, list_elem_of_singleton. intros [?| ?]; [done|congruence].
Qed.

Lemma unregister_inv s c : inv s -> inv (console_unregister s c).
Proof.
  intros [H1 H2 H3]. constructor; cbn [console_unregister consoles].
  - by apply remove_first_nodup.
  - pose proof (remove_first_length (consoles s) c). lia.
  - rewrite remove_first_elem by done. tauto.
Qed.

Lemma seen_put s c d : NoDup (consoles s) ->
  seen (console_put s c) d = seen s d ++ (if decide (d ∈ consoles s) then [c] else []).
Proof.
  intros Hn. unfold seen, console_put. cbn [output consoles]. rewrite List.filter_app, fmap_app. f_equal.
  induction Hn as [|x l Hx Hl IH]; cbn [fmap list_fmap List.filter fst].
  { by rewrite decide_False by apply not_elem_of_nil. }
  destruct (Z.eqb_spec x d) as [->|Hne].
  - rewrite decide_True by (by left). rewrite fmap_cons, IH, decide_False by done. done.
  - rewrite IH. destruct (decide (d ∈ l)) as [Hd|Hd].
    + by rewrite decide_True by (by right).
    + rewrite decide_False; [done|]. rewrite elem_of_cons. intros [?|?]; congruence.
Qed.

Lemma write_loop_spec fuel m p bs s :
  cstring m p bs -> (length bs < fuel)%nat -> NoDup (consoles s) ->
  exists s', write_loop fuel m p s = Some s' /\ consoles s' = consoles s /\
    forall d, seen s' d = seen s d ++ (if decide (d ∈ consoles s) then bs else []).
Proof.
  revert p bs s. induction fuel as [|fuel IH]; intros p bs s Hc Hf Hn; [lia|].
  cbn [write_loop]. rewrite (cstring_head _ _ _ Hc). cbn [mbind option_bind].
  destruct bs as [|b bs]; cbn [hd].
  { exists s. split_and!; [done|done|]. intros d. case_decide; by rewrite app_nil_r. }
  assert (b <> 0) as Hb by (destruct Hc as [_ Hz]; by inversion Hz).
  rewrite (proj2 (Z.eqb_neq b 0)) by done. apply cstring_tail in Hc. rewrite length_cons in Hf.
  destruct (IH (p + 1) bs (console_put s b) Hc) as (s' & E & E1 & E2); [lia|done|].
  exists s'. split_and!; [done|done|]. intros d. rewrite E2, seen_put by done.
  cbn [console_put consoles]. rewrite <- app_assoc. case_decide; done.
Qed.

(** [console_write] on a terminated text returns, and appends exactly the text to
    what every registered console has been given and nothing to any other. *)
Theorem console_write_broadcast m text bs s :
  inv s -> cstring m text bs ->
  exists s', console_write m text s = Some s' /\ consoles s' = consoles s /\ inv s' /\
    forall d, seen s' d = seen s d ++ (if decide (d ∈ consoles s) then bs else []).
Proof.
  intros Hi Hc. destruct (write_loop_spec (S (size m)) m text bs s Hc) as (s' & E & E1 & E2).
  - apply cstring_mapped, mapped_size in Hc; lia.
  - apply (inv_nodup _ Hi).
  - exists s'. split_and!; [done|done| |done]. destruct Hi as [H1 H2 H3].
    constructor; by rewrite E1.
Qed.

(** *** Registration *)

Inductive step : state -> state -> Prop :=
  | step_register s c : step s (console_register s c)
  | step_unregister s c : step s (console_unregister s c)
  | step_put s c : step s (console_put s c).

(** However consoles come, go and print, no console is registered twice, the null
    pointer never is, and there are at most four; unregistering removes the console
    and keeps the others, registering adds it unless the table is full. *)
Theorem console_table_sound s c :
  rtc step (mk [] []) s ->
  inv s /\
  (forall d, d ∈ consoles (console_unregister s c) <-> d ∈ consoles s /\ d <> c) /\
  (c <> 0 -> (length (consoles s) < max_consoles)%nat ->
   forall d, d ∈ consoles (console_register s c) <-> d ∈ consoles s \/ d = c).
Proof.
  intros Hr. assert (inv s) as Hi.
  { assert (inv (mk [] [])) as H0 by (constructor; [constructor|simpl; lia|apply not_elem_of_nil]).
    induction Hr as [|x y z Hs _ IH]; [done|]. apply IH. destruct Hs.
    - by apply register_inv.
    - by apply unregister_inv.
    - destruct H0. by constructor. }
  split_and!; [done| |].
  - intros d. apply remove_first_elem. apply (inv_nodup _ Hi).
  - intros Hc Hl d. unfold console_register. rewrite (proj2 (Z.eqb_neq c 0)) by done. cbn [orb].
    destruct (Nat.leb_spec max_consoles (length (consoles s))); [lia|].
    destruct (existsb _ _) eqn:E; cbn [consoles].
    + apply existsb_elem in E. split; [tauto|]. intros [?| ->]; done.
    + by rewrite elem_of_app, list_elem_of_singleton.
Qed.

Lemma console_write_broadcast_witness :
  exists s', console_write two_strings 16 (mk [7; 9] []) = Some s' /\ seen s' 9 = [97; 98].
Proof.
  assert (inv (mk [7; 9] [])) as Hi.
  { constructor; cbn [consoles]; [|vm_compute; lia|].
    - apply NoDup_cons. split; [|apply NoDup_singleton]. intros ?%list_elem_of_singleton. discriminate.
    - intros H. apply elem_of_cons in H as [H|H]; [discriminate|].
      apply list_elem_of_singleton in H. discriminate. }
  destruct (console_write_broadcast two_strings 16 [97; 98] (mk [7; 9] []) Hi two_strings_first)
    as (s' & E & _ & _ & Hs). exists s'. split; [exact E|]. rewrite Hs. reflexivity.
Defined.

Lemma console_table_sound_witness :
  rtc step (mk [] []) (mk [7] []) /\ inv (mk [7] []).
Proof.
  assert (rtc step (mk [] []) (mk [7] [])) as Hr by (apply rtc_once; exact (step_register (mk [] []) 7)).
  split; [exact Hr|]. destruct (console_table_sound (mk [7] []) 7 Hr) as [Hi _]. exact Hi.
Defined.
