(* ===== verification/Vga.v ===== *)
(** * The text console (src/modules/vga/vga.cpp)

    State: the 80 by 25 cells of the frame buffer, the cursor, the colour, and whether
    the console is registered.  The window the cells are reached through comes from
    [map_device]; a write outside the cells is [None]. *)

From S2P Require Import Prelude Memory Console.

Definition width : Z := 80.
Definition height : Z := 25.
Definition framebuffer_addr : Z := 0xB8000.
Definition buffer_bytes : Z := width * height * 2.

Record VgaConsole := mkVga { buffer_ : list Z; column_ : Z; row_ : Z; color_ : Z }.

Definition make_cell (c color : Z) : Z := Z.lor (u8 c) (u16 (Z.shiftl color 8)).

Definition set_buffer (b : list Z) (v : VgaConsole) : VgaConsole := mkVga b (column_ v) (row_ v) (color_ v).
Definition set_cursor (column row : Z) (v : VgaConsole) : VgaConsole := mkVga (buffer_ v) column row (color_ v).
Definition set_color (color : Z) (v : VgaConsole) : VgaConsole := mkVga (buffer_ v) (column_ v) (row_ v) color.

(** [buffer_[i]]. *)
Definition load_cell (i : Z) (v : VgaConsole) : option Z := if i <? 0 then None else buffer_ v !! Z.to_nat i.
Definition store_cell (i cell : Z) (v : VgaConsole) : option VgaConsole :=
  if (0 <=? i) && (i <? Z.of_nat (length (buffer_ v))) then Some (set_buffer (<[Z.to_nat i := cell]> (buffer_ v)) v) else None.

Definition clear (v : VgaConsole) : option VgaConsole :=
  v ← for_o 0 (width * height) (fun i v => store_cell i (make_cell 32 (color_ v)) v) v;
  Some (set_cursor 0 0 v).

Definition put_cell (x y c color : Z) (v : VgaConsole) : option VgaConsole :=
  if (x <? width) && (y <? height) then store_cell (y * width + x) (make_cell c color) v else Some v.

Definition scroll (v : VgaConsole) : option VgaConsole :=
  v ← for_o 1 height (fun y v =>
        for_o 0 width (fun x v => cell ← load_cell (y * width + x) v; store_cell ((y - 1) * width + x) cell v) v) v;
  for_o 0 width (fun x v => store_cell ((height - 1) * width + x) (make_cell 32 (color_ v)) v) v.

(** The [switch] of [put]. *)
Definition put_char (c : Z) (v : VgaConsole) : option VgaConsole :=
  if c =? 10 then Some (set_cursor 0 (u64 (row_ v + 1)) v)
  else if c =? 13 then Some (set_cursor 0 (row_ v) v)
  else if c =? 9 then Some (set_cursor (Z.land (u64 (column_ v + 8)) (not64 7)) (row_ v) v)
  else if c =? 8 then
    let v := if 0 <? column_ v then set_cursor (column_ v - 1) (row_ v) v else v in
    put_cell (column_ v) (row_ v) 32 (color_ v) v
  else
    v ← put_cell (column_ v) (row_ v) c (color_ v) v;
    Some (set_cursor (u64 (column_ v + 1)) (row_ v) v).

Definition put (c : Z) (v : VgaConsole) : option VgaConsole :=
  v ← put_char c v;
  let v := if width <=? column_ v then set_cursor 0 (u64 (row_ v + 1)) v else v in
  if height <=? row_ v then v ← scroll v; Some (set_cursor (column_ v) (height - 1) v) else Some v.

(** The exported functions; a text is its bytes. *)
Definition vga_clear : VgaConsole -> option VgaConsole := clear.
Definition vga_put_cell : Z -> Z -> Z -> Z -> VgaConsole -> option VgaConsole := put_cell.
Fixpoint vga_write (cursor y : Z) (text : list Z) (color : Z) (v : VgaConsole) : option VgaConsole :=
  match text with
  | [] => Some v
  | c :: text => v ← put_cell cursor y c color v; vga_write (u64 (cursor + 1)) y text color v
  end.
Definition vga_fill_row (y c color : Z) (v : VgaConsole) : option VgaConsole :=
  for_o 0 width (fun x v => put_cell x y c color v) v.
Definition vga_set_color : Z -> VgaConsole -> VgaConsole := set_color.

(** [instance] is the console's address in the table of consoles. *)
Definition vga_console_enable (instance : Z) (enabled was : bool) (s : Console.state) : bool * Console.state :=
  if Bool.eqb enabled was then (was, s)
  else (enabled, if enabled then console_register s instance else console_unregister s instance).

(** The writes to the display controller's ports. *)
Definition hide_cursor : list (Z * Z) := [(0x3D4, 0x0A); (0x3D5, 0x20)].

(** The module's state; a null [buffer_] has no cells.  The window of cells is what
    [map_device] gave; detaching gives it back. *)
Record module_state := mkModule { instance_ : VgaConsole; console_enabled : bool; registry : Console.state; ports : list (Z * Z) }.

Definition set_instance (v : VgaConsole) (m : module_state) : module_state :=
  mkModule v (console_enabled m) (registry m) (ports m).

Definition attach (window : option (list Z)) (m : module_state) : bool * module_state :=
  match window with
  | None => (false, set_instance (set_buffer [] (instance_ m)) m)
  | Some cells => (true, set_instance (set_buffer cells (instance_ m)) m)
  end.

Definition detach (m : module_state) : module_state := set_instance (set_buffer [] (instance_ m)) m.

Definition vga_module_init (instance : Z) (window : option (list Z)) (m : module_state) : option (Z * module_state) :=
  let '(ok, m) := attach window m in
  if ok then
    v ← clear (instance_ m);
    let '(on, r) := vga_console_enable instance true (console_enabled m) (registry m) in
    Some (0, mkModule v on r (ports m ++ hide_cursor))
  else Some (-1, m).

Definition vga_module_exit (instance : Z) (m : module_state) : option module_state :=
  let '(on, r) := vga_console_enable instance false (console_enabled m) (registry m) in
  v ← clear (instance_ m);
  Some (detach (mkModule v on r (ports m))).

(** ** Properties *)

(** The cursor is on the screen and the buffer is the whole screen. *)
Definition screen (v : VgaConsole) : Prop :=
  length (buffer_ v) = Z.to_nat (width * height) /\ 0 <= column_ v < width /\ 0 <= row_ v < height.

Definition cell (v : VgaConsole) (x y : Z) : option Z := load_cell (y * width + x) v.

Lemma store_spec i c v : 0 <= i < Z.of_nat (length (buffer_ v)) ->
  exists v', store_cell i c v = Some v' /\ length (buffer_ v') = length (buffer_ v) /\
    column_ v' = column_ v /\ row_ v' = row_ v /\ color_ v' = color_ v /\
    forall j, load_cell j v' = if j =? i then Some c else load_cell j v.
Proof.
  intros Hi. unfold store_cell. rewrite (proj2 (Z.leb_le _ _)), (proj2 (Z.ltb_lt _ _)) by lia. cbn [andb].
  eexists. split; [done|]. cbn. split_and!; [by rewrite length_insert|done..|]. intros j. unfold load_cell. cbn.
  destruct (Z.eqb_spec j i) as [->|Hne].
  - rewrite (proj2 (Z.ltb_ge _ _)) by lia. apply list_lookup_insert_eq. lia.
  - destruct (Z.ltb_spec j 0); [done|]. apply list_lookup_insert_ne. lia.
Qed.

(** What a loop of stores leaves of the rest. *)
Definition same_rest (v v' : VgaConsole) : Prop :=
  length (buffer_ v') = length (buffer_ v) /\ column_ v' = column_ v /\ row_ v' = row_ v /\ color_ v' = color_ v.

Lemma row_copied y v : length (buffer_ v) = Z.to_nat (width * height) -> 1 <= y < height ->
  exists v', for_o 0 width (fun x v => cell ← load_cell (y * width + x) v; store_cell ((y - 1) * width + x) cell v) v = Some v' /\
    same_rest v v' /\
    forall j, load_cell j v' = if (j / width =? y - 1) && (0 <=? j) then load_cell (j + width) v else load_cell j v.
Proof.
  intros Hl Hy. assert (width = 80 /\ height = 25) as [Hw Hh] by done.
  destruct (for_o_ind (fun k v' => same_rest v v' /\ forall j, load_cell j v' =
      if ((y - 1) * width <=? j) && (j <? (y - 1) * width + k) then load_cell (j + width) v else load_cell j v)
      0 width (fun x v => cell ← load_cell (y * width + x) v; store_cell ((y - 1) * width + x) cell v) v) as (v' & E & Hr & Hj).
  - rewrite Hw. lia.
  - split; [done|]. intros j. destruct (Z.leb_spec ((y - 1) * width) j), (Z.ltb_spec j ((y - 1) * width + 0)); cbn; (done || lia).
  - intros x v1 Hx [(L & C & R & K) Hc]. rewrite Hw, Hh in *.
    assert (is_Some (load_cell (y * 80 + x) v)) as [c Ec].
    { unfold load_cell. rewrite (proj2 (Z.ltb_ge _ _)) by lia. apply lookup_lt_is_Some_2. lia. }
    rewrite Hc, (proj2 (Z.ltb_ge (y * 80 + x) _)), andb_false_r, Ec by lia. cbn [mbind option_bind].
    destruct (store_spec ((y - 1) * 80 + x) c v1) as (v2 & E2 & L2 & C2 & R2 & K2 & H2); [rewrite L, Hl; lia|].
    exists v2. split; [done|]. split; [by split_and!; congruence|]. intros j. rewrite H2, Hc.
    destruct (Z.eqb_spec j ((y - 1) * 80 + x)) as [->|Hne].
    + rewrite (proj2 (Z.leb_le _ _)), (proj2 (Z.ltb_lt _ _)) by lia. cbn. rewrite <- Ec. f_equal. lia.
    + destruct (Z.leb_spec ((y - 1) * 80) j), (Z.ltb_spec j ((y - 1) * 80 + x)), (Z.ltb_spec j ((y - 1) * 80 + (x + 1))); cbn; (done || lia).
  - exists v'. split; [done|]. split; [done|]. intros j. rewrite Hj, Hw.
    destruct (Z.leb_spec ((y - 1) * 80) j), (Z.ltb_spec j ((y - 1) * 80 + 80)), (Z.eqb_spec (j / 80) (y - 1)), (Z.leb_spec 0 j); cbn; (done || dlia).
Qed.

(** The last loop of [scroll]. *)
Lemma row_blanked v : length (buffer_ v) = Z.to_nat (width * height) ->
  exists v', for_o 0 width (fun x v => store_cell ((height - 1) * width + x) (make_cell 32 (color_ v)) v) v = Some v' /\
    same_rest v v' /\
    forall j, load_cell j v' = if ((height - 1) * width <=? j) && (j <? height * width) then Some (make_cell 32 (color_ v)) else load_cell j v.
Proof.
  intros Hl. unfold width, height in *.
  destruct (for_o_ind (fun k v' => same_rest v v' /\ forall j, load_cell j v' =
      if ((25 - 1) * 80 <=? j) && (j <? (25 - 1) * 80 + k) then Some (make_cell 32 (color_ v)) else load_cell j v)
      0 80 (fun x v => store_cell ((25 - 1) * 80 + x) (make_cell 32 (color_ v)) v) v) as (v' & E & Hr & Hj).
  - lia.
  - split; [done|]. intros j. destruct (Z.leb_spec ((25 - 1) * 80) j), (Z.ltb_spec j ((25 - 1) * 80 + 0)); cbn; (done || lia).
  - intros x v1 Hx [(L & C & R & K) Hc].
    destruct (store_spec ((25 - 1) * 80 + x) (make_cell 32 (color_ v1)) v1) as (v2 & E2 & L2 & C2 & R2 & K2 & H2); [rewrite L, Hl; lia|].
    exists v2. split; [done|]. split; [by split_and!; congruence|]. intros j. rewrite H2, Hc, K.
    destruct (Z.eqb_spec j ((25 - 1) * 80 + x)), (Z.leb_spec ((25 - 1) * 80) j), (Z.ltb_spec j ((25 - 1) * 80 + x)),
      (Z.ltb_spec j ((25 - 1) * 80 + (x + 1))); cbn [andb]; (done || lia).
  - exists v'. split; [done|]. split; [done|]. intros j. by rewrite Hj.
Qed.

Lemma same_frame_trans a b c : same_rest a b -> same_rest b c -> same_rest a c.
Proof. unfold same_rest. intuition congruence. Qed.

(** [scroll] moves every row up by one and blanks the last. *)
Lemma scroll_spec v : length (buffer_ v) = Z.to_nat (width * height) ->
  exists v', scroll v = Some v' /\ same_rest v v' /\
    forall x y, 0 <= x < width -> 0 <= y < height ->
      cell v' x y = if y =? height - 1 then Some (make_cell 32 (color_ v)) else cell v x (y + 1).
Proof.
  intros Hl. unfold scroll.
  destruct (for_o_ind (fun k v' => same_rest v v' /\ forall j, load_cell j v' =
      if (0 <=? j) && (j <? (k - 1) * width) then load_cell (j + width) v else load_cell j v)
      1 height (fun y v => for_o 0 width (fun x v => cell ← load_cell (y * width + x) v; store_cell ((y - 1) * width + x) cell v) v) v)
    as (v1 & E1 & Hr1 & Hj1).
  - done.
  - split; [done|]. intros j. destruct (Z.leb_spec 0 j), (Z.ltb_spec j ((1 - 1) * width)); cbn [andb]; (done || lia).
  - intros y v1 Hy [Hr Hj]. destruct (row_copied y v1) as (v2 & E2 & Hr2 & Hj2); [destruct Hr as [-> _]; done|done|].
    exists v2. split; [done|]. split; [by eapply same_frame_trans|]. intros j. rewrite Hj2, !Hj. unfold width in *.
    destruct (Z.eqb_spec (j / 80) (y - 1)), (Z.leb_spec 0 j), (Z.ltb_spec j ((y - 1) * 80)), (Z.ltb_spec j ((y + 1 - 1) * 80)),
      (Z.leb_spec 0 (j + 80)), (Z.ltb_spec (j + 80) ((y - 1) * 80)); cbn [andb]; (done || dlia).
  - rewrite E1. cbn [mbind option_bind]. destruct (row_blanked v1) as (v2 & E2 & Hr2 & Hj2); [destruct Hr1 as [-> _]; done|].
    exists v2. split; [done|]. split; [by eapply same_frame_trans|]. intros x y Hx Hy. unfold cell. rewrite Hj2, Hj1.
    destruct Hr1 as (_ & _ & _ & ->). unfold width, height in *.
    destruct (Z.leb_spec ((25 - 1) * 80) (y * 80 + x)), (Z.ltb_spec (y * 80 + x) (25 * 80)), (Z.eqb_spec y (25 - 1)),
      (Z.leb_spec 0 (y * 80 + x)), (Z.ltb_spec (y * 80 + x) ((25 - 1) * 80)); cbn [andb]; try done; try lia. f_equal; lia.
Qed.

(** What a character means on a terminal: the cell it overwrites, and where it leaves
    the cursor before the screen's edges are taken into account. *)
Definition overwrites (c col row : Z) : option (Z * Z * Z) :=
  if (c =? 10) || (c =? 13) || (c =? 9) then None
  else if c =? 8 then Some (Z.max 0 (col - 1), row, 32) else Some (col, row, c).

Definition advance (c col row : Z) : Z * Z :=
  if c =? 10 then (0, row + 1) else if c =? 13 then (0, row) else if c =? 9 then (8 * (col / 8 + 1), row)
  else if c =? 8 then (Z.max 0 (col - 1), row) else (col + 1, row).

(** At the right edge the line breaks. *)
Definition line_break (p : Z * Z) : Z * Z := if width <=? p.1 then (0, p.2 + 1) else p.

Definition written (c : Z) (v : VgaConsole) (x y : Z) : option Z :=
  match overwrites c (column_ v) (row_ v) with
  | Some (wx, wy, w) => if (x =? wx) && (y =? wy) then Some (make_cell w (color_ v)) else cell v x y
  | None => cell v x y
  end.

Lemma put_cell_spec x y c color v : length (buffer_ v) = Z.to_nat (width * height) -> 0 <= x < width -> 0 <= y < height ->
  exists v', put_cell x y c color v = Some v' /\ same_rest v v' /\
    forall x' y', 0 <= x' < width -> cell v' x' y' = if (x' =? x) && (y' =? y) then Some (make_cell c color) else cell v x' y'.
Proof.
  intros Hl Hx Hy. unfold put_cell. rewrite !(proj2 (Z.ltb_lt _ _)) by lia. cbn [andb].
  destruct (store_spec (y * width + x) (make_cell c color) v) as (v' & E & L & C & R & K & Hj); [rewrite Hl; unfold width, height in *; lia|].
  exists v'. split; [done|]. split; [by split_and!|]. intros x' y' Hx'. unfold cell. rewrite Hj. unfold width in *.
  destruct (Z.eqb_spec (y' * 80 + x') (y * 80 + x)), (Z.eqb_spec x' x), (Z.eqb_spec y' y); cbn [andb]; (done || lia).
Qed.

Lemma tab_stop col : 0 <= col < width -> Z.land (u64 (col + 8)) (not64 7) = 8 * (col / 8 + 1).
Proof.
  intros H. unfold width in H. unwrap. change 7 with (2 ^ 3 - 1). rewrite land_not64_ones by (unfold fits; lia). dlia.
Qed.

Lemma put_char_spec c v : screen v ->
  exists v', put_char c v = Some v' /\ length (buffer_ v') = length (buffer_ v) /\ color_ v' = color_ v /\
    (column_ v', row_ v') = advance c (column_ v) (row_ v) /\
    forall x y, 0 <= x < width -> 0 <= y < height -> cell v' x y = written c v x y.
Proof.
  intros (Hl & Hc & Hr). unfold put_char, advance, written, overwrites. assert (height = 25) as Hh by done. assert (width = 80) as Hw by done.
  destruct (c =? 10) eqn:?; cbn [orb]. { eexists. split; [done|]. cbn. split_and!; try done. by unwrap. }
  destruct (c =? 13) eqn:?; cbn [orb]. { eexists. split; [done|]. cbn. by split_and!. }
  destruct (c =? 9) eqn:?; cbn [orb]. { eexists. split; [done|]. cbn. split_and!; try done. by rewrite tab_stop. }
  destruct (c =? 8) eqn:?.
  - destruct (Z.ltb_spec 0 (column_ v)).
    + destruct (put_cell_spec (column_ v - 1) (row_ v) 32 (color_ v) (set_cursor (column_ v - 1) (row_ v) v)) as (v' & E & (L & C & R & K) & Hj); [done|cbn; lia|done|].
      exists v'. split; [done|]. cbn in *. rewrite L, C, R, K, Z.max_r by lia. split_and!; try done. intros. by apply Hj.
    + destruct (put_cell_spec (column_ v) (row_ v) 32 (color_ v) v) as (v' & E & (L & C & R & K) & Hj); [done|lia|done|].
      exists v'. split; [done|]. rewrite L, C, R, K, Z.max_l by lia. assert (column_ v = 0) as E0 by lia. rewrite E0 in *.
      split_and!; try done. intros. by apply Hj.
  - destruct (put_cell_spec (column_ v) (row_ v) c (color_ v) v) as (v' & E & (L & C & R & K) & Hj); [done|lia|done|].
    rewrite E. cbn [mbind option_bind]. eexists. split; [done|]. cbn. rewrite L, C, R, K. unwrap. split_and!; try done. intros. by apply Hj.
Qed.

(** on a screen whose cursor is inside it, [put] writes the one cell the character
    overwrites, breaks the line at the right edge, and below the last row moves every
    row up by one and blanks the last; the cursor stays on the screen, no store leaves
    the frame buffer. *)
Theorem vga_put_correct c v : screen v ->
  let p := line_break (advance c (column_ v) (row_ v)) in
  let scrolled := height <=? p.2 in
  exists v', put c v = Some v' /\ screen v' /\ color_ v' = color_ v /\
    column_ v' = p.1 /\ row_ v' = (if scrolled then height - 1 else p.2) /\
    forall x y, 0 <= x < width -> 0 <= y < height ->
      cell v' x y = if negb scrolled then written c v x y
                    else if y =? height - 1 then Some (make_cell 32 (color_ v)) else written c v x (y + 1).
Proof.
  intros Hs. destruct (put_char_spec c v Hs) as (v1 & E1 & L1 & K1 & A1 & J1). destruct Hs as (Hl & Hc & Hr).
  unfold put. rewrite E1. cbn [mbind option_bind]. assert (height = 25) as Hh by done. assert (width = 80) as Hw by done.
  assert (0 <= (advance c (column_ v) (row_ v)).1 /\ 0 <= (advance c (column_ v) (row_ v)).2 <= row_ v + 1) as [Ha Hb].
  { unfold advance. repeat case_match; cbn; (lia || dlia). }
  rewrite <- A1 in *. cbn [fst snd] in Ha, Hb. unfold line_break. cbn [fst snd].
  set (v2 := if width <=? column_ v1 then set_cursor 0 (u64 (row_ v1 + 1)) v1 else v1).
  assert (length (buffer_ v2) = Z.to_nat (width * height) /\ color_ v2 = color_ v /\ (column_ v2, row_ v2) = (if width <=? column_ v1 then (0, row_ v1 + 1) else (column_ v1, row_ v1)) /\
          forall x y, cell v2 x y = cell v1 x y) as (L2 & K2 & A2 & J2).
  { subst v2. destruct (width <=? column_ v1); cbn; unwrap; split_and!; try done; congruence. }
  rewrite <- A2. cbn [fst snd].
  assert (0 <= column_ v2 < width /\ 0 <= row_ v2) as [B1 B2].
  { destruct (Z.leb_spec width (column_ v1)); pose proof (f_equal fst A2); pose proof (f_equal snd A2); cbn [fst snd] in *; lia. }
  destruct (Z.leb_spec height (row_ v2)) as [Hsc|Hsc]; cbn [negb].
  - destruct (scroll_spec v2 L2) as (v3 & E3 & (L3 & C3 & R3 & K3) & J3). rewrite E3. cbn [mbind option_bind].
    eexists. split; [done|]. unfold screen. cbn [buffer_ column_ row_ color_ set_cursor].
    split_and!; try (done || congruence || lia).
    intros x y Hx Hy. etrans; [exact (J3 x y Hx Hy)|]. rewrite K2.
    destruct (Z.eqb_spec y (height - 1)); [done|]. rewrite J2. apply J1; lia.
  - eexists. split; [done|]. split_and!; try (done || congruence || lia). intros x y Hx Hy. rewrite J2. by apply J1.
Qed.

Definition demo : VgaConsole := mkVga (replicate 2000 (make_cell 46 7)) 79 24 7.

(** The last cell of the screen is filled: the letter ends up one row higher. *)
Lemma vga_put_correct_witness :
  screen demo /\ exists v', put 65 demo = Some v' /\ screen v' /\ column_ v' = 0 /\ row_ v' = 24 /\ cell v' 79 23 = Some 1857.
Proof.
  assert (screen demo) as Hs by (split; [vm_compute; reflexivity|]; cbn; unfold width, height; lia).
  split; [exact Hs|]. destruct (vga_put_correct 65 demo Hs) as (v' & E & S & K & C & R & J).
  exists v'. split; [exact E|]. split; [exact S|]. split; [exact C|]. split; [exact R|].
  rewrite (J 79 23) by (unfold width, height; lia). vm_compute. reflexivity.
Defined.
