(* ===== verification/Rtc.v ===== *)
(** * The real-time clock (src/modules/rtc/rtc.cpp)

    The chip is the function that gives its answer to the [n]-th register read, so its
    registers may change between any two reads; the state of the driver is how many
    reads it has made.  A delay is a gap the chip function is free to use. *)

From S2P Require Import Prelude.

Definition register_seconds : Z := 0x00.
Definition register_minutes : Z := 0x02.
Definition register_hours : Z := 0x04.
Definition register_day : Z := 0x07.
Definition register_month : Z := 0x08.
Definition register_year : Z := 0x09.
Definition register_status_a : Z := 0x0A.
Definition register_status_b : Z := 0x0B.

Record RtcTime := mkTime { year : Z; month : Z; day : Z; hour : Z; minute : Z; second : Z }.

Definition decode (value : Z) (binary : bool) : Z :=
  if binary then value else u8 (Z.land value 0x0F + Z.shiftr value 4 * 10).

Definition same (a b : RtcTime) : bool :=
  (second a =? second b) && (minute a =? minute b) && (hour a =? hour b) &&
  (day a =? day b) && (month a =? month b) && (year a =? year b).

Section Chip.
Variable chip : nat -> Z -> Z.

Definition read_register (n : nat) (index : Z) : Z := u8 (chip n (Z.land index 0x7F)).

Definition update_in_progress (n : nat) : bool := negb (Z.land (read_register n register_status_a) 0x80 =? 0).

(** Six reads, the hour first. *)
Definition read_once (n : nat) (status_b : Z) : RtcTime :=
  let binary := negb (Z.land status_b 0x04 =? 0) in
  let twenty_four_hour := negb (Z.land status_b 0x02 =? 0) in
  let raw_hour := read_register n register_hours in
  let second := decode (read_register (n + 1) register_seconds) binary in
  let minute := decode (read_register (n + 2) register_minutes) binary in
  let hour := decode (Z.land raw_hour 0x7F) binary in
  let day := decode (read_register (n + 3) register_day) binary in
  let month := decode (read_register (n + 4) register_month) binary in
  let year := u16 (2000 + decode (read_register (n + 5) register_year) binary) in
  let hour := if negb twenty_four_hour && negb (Z.land raw_hour 0x80 =? 0) then u8 (hour mod 12 + 12) else hour in
  mkTime year month day hour minute second.

(** [while (update_in_progress()) eris_udelay(100)]; the result is the number of
    reads made so far. *)
Fixpoint wait_update (fuel : nat) (n : nat) : option nat :=
  match fuel with
  | O => None
  | S fuel => if update_in_progress n then wait_update fuel (n + 1) else Some (n + 1)%nat
  end.

Fixpoint attempts (tries fuel n : nat) (status_b : Z) : option (option RtcTime * nat) :=
  match tries with
  | O => Some (None, n)
  | S tries =>
    n ← wait_update fuel n;
    let first := read_once n status_b in
    let second := read_once (n + 6) status_b in
    if same first second then Some (Some first, n + 12)%nat else attempts tries fuel (n + 12) status_b
  end.

Definition rtc_read (fuel n : nat) : option (option RtcTime * nat) :=
  attempts 8 fuel (n + 1) (read_register n register_status_b).
End Chip.

Definition month_days : list Z := [0; 31; 59; 90; 120; 151; 181; 212; 243; 273; 304; 334].

(** The arithmetic of [rtc_unix_time]. *)
Definition unix_time (now : RtcTime) : Z :=
  let years := u64 (year now - 1970) in
  let days := u64 (u64 (years * 365) + u64 (years + 1) / 4) in
  let days := if (1 <=? month now) && (month now <=? 12)
              then u64 (days + nth (Z.to_nat (month now - 1)) month_days 0) else days in
  let leap := ((year now mod 4 =? 0) && negb (year now mod 100 =? 0)) || (year now mod 400 =? 0) in
  let days := if leap && (2 <? month now) then u64 (days + 1) else days in
  let days := u64 (days + (day now - 1)) in
  u64 (u64 (u64 (u64 (u64 (u64 (days * 24) + hour now) * 60) + minute now) * 60) + second now).

Definition rtc_unix_time (chip : nat -> Z -> Z) (fuel n : nat) : option (Z * nat) :=
  '(now, n) ← rtc_read chip fuel n;
  Some (match now with Some now => unix_time now | None => 0 end, n).

(** [rtc_init]: the result and the new value of [attached]. *)
Definition rtc_init (chip : nat -> Z -> Z) (fuel n : nat) (attached : bool) : option (Z * bool) :=
  '(now, _) ← rtc_read chip fuel n;
  Some (match now with Some _ => (0, true) | None => (-1, attached) end).
Definition rtc_exit : bool := false.

(** ** Properties *)

(** What the six registers say when they do not change: [regs] is their contents. *)
Definition snapshot (regs : Z -> Z) (status_b : Z) : RtcTime := read_once (fun _ => regs) 0 status_b.

(** The registers hold [before] up to the [k]-th read and [after] from then on. *)
Definition ticks_once (chip : nat -> Z -> Z) (lo hi : nat) (before after : Z -> Z) : Prop :=
  exists k, forall n i, (lo <= n < hi)%nat -> 0 <= i < 0x0A -> chip n i = if (n <? k)%nat then before i else after i.

Lemma same_eq a b : same a b = true -> a = b.
Proof. unfold same. intros. breflect. destruct a, b; cbn in *. congruence. Qed.

Lemma same_refl a : same a a = true.
Proof. unfold same. by rewrite !Z.eqb_refl. Qed.

Lemma read_once_stable chip regs n s : (forall m i, (n <= m < n + 6)%nat -> 0 <= i < 0x0A -> chip m i = regs i) ->
  read_once chip n s = snapshot regs s.
Proof.
  intros H. unfold read_once, snapshot, read_once, read_register.
  rewrite !H by first [lia | split; vm_compute; congruence]. done.
Qed.

(** Two equal readings around at most one change are a reading of one side of it. *)
Lemma untorn chip before after n s : ticks_once chip n (n + 12) before after ->
  read_once chip n s = read_once chip (n + 6) s ->
  read_once chip n s = snapshot before s \/ read_once chip n s = snapshot after s.
Proof.
  intros [k Hk] E. destruct (Nat.le_gt_cases k n); [|destruct (Nat.le_gt_cases k (n + 6))].
  - right. apply read_once_stable. intros m i Hm Hi. rewrite Hk by lia. by rewrite (proj2 (Nat.ltb_ge _ _)) by lia.
  - right. rewrite E. apply read_once_stable. intros m i Hm Hi. rewrite Hk by lia. by rewrite (proj2 (Nat.ltb_ge _ _)) by lia.
  - left. apply read_once_stable. intros m i Hm Hi. rewrite Hk by lia. by rewrite (proj2 (Nat.ltb_lt _ _)) by lia.
Qed.

(** What [attempts] returns was read twice in a row. *)
Lemma attempts_pair chip tries : forall fuel n s t n', attempts chip tries fuel n s = Some (Some t, n') ->
  exists m, n' = (m + 12)%nat /\ (n < m)%nat /\ update_in_progress chip (m - 1) = false /\ t = read_once chip m s /\ t = read_once chip (m + 6) s.
Proof.
  assert (forall fuel n m, wait_update chip fuel n = Some m -> (n < m)%nat /\ update_in_progress chip (m - 1) = false) as Hw.
  { induction fuel as [|fuel IH]; intros n m; cbn [wait_update]; [done|].
    destruct (update_in_progress chip n) eqn:E; [intros [? ?]%IH; split; [lia|done]|]. intros [= <-]. split; [lia|]. by rewrite Nat.add_sub. }
  induction tries as [|tries IH]; intros fuel n s t n'; cbn [attempts]; [done|].
  intros (m & Em & E)%bind_Some_inv. destruct (Hw _ _ _ Em) as [Hm Hu]. destruct (same _ _) eqn:Es.
  - injection E as <- <-. exists m. split_and!; try done. by apply same_eq in Es.
  - apply IH in E as (m' & ? & ? & ?). exists m'. split_and!; try tauto. lia.
Qed.

(** whatever the chip does between attempts, a time [rtc_read] returns, and that
    the registers changed at most once while the two readings it compares were made,
    is exactly what the registers held before that change or after it, never a mix;
    and a chip that holds still with no update in progress is read at the first
    attempt. *)
Theorem rtc_read_untorn chip fuel n :
  (forall t n' before after, rtc_read chip fuel n = Some (Some t, n') ->
     ticks_once chip (n' - 12) n' before after ->
     t = snapshot before (read_register chip n register_status_b) \/
     t = snapshot after (read_register chip n register_status_b)) /\
  (forall regs, (0 < fuel)%nat -> (forall m i, chip m i = regs i) -> Z.testbit (regs register_status_a) 7 = false ->
     rtc_read chip fuel n = Some (Some (snapshot regs (u8 (regs register_status_b))), n + 14)%nat).
Proof.
  split.
  - intros t n' before after E Ht. unfold rtc_read in E. apply attempts_pair in E as (m & -> & Hm & _ & E1 & E2).
    rewrite E1. apply untorn with (after := after) (before := before); [|congruence]. by rewrite Nat.add_sub in Ht.
  - intros regs Hf Hs Hb. unfold rtc_read. destruct fuel as [|fuel]; [lia|]. cbn [attempts wait_update].
    assert (update_in_progress chip (n + 1) = false) as ->.
    { unfold update_in_progress, read_register. rewrite Hs. change 0x80 with (Z.shiftl 1 7). rewrite land_bit_testbit by lia.
      change (Z.land register_status_a 0x7F) with register_status_a. unfold u8. rewrite testbit_wrap by lia. rewrite Hb. apply andb_false_r. }
    cbn [mbind option_bind]. rewrite !(read_once_stable chip regs) by auto. rewrite same_refl.
    unfold read_register. rewrite Hs. change (Z.land register_status_b 0x7F) with register_status_b. by replace (n + 1 + 1 + 12)%nat with (n + 14)%nat by lia.
Qed.

(** A binary 24-hour clock that reads 12:59:59 and turns to 13:00:00 in the middle of
    the first reading: the second attempt gives the new time. *)
Definition at_125959 (i : Z) : Z :=
  if i =? 0 then 59 else if i =? 2 then 59 else if i =? 4 then 12 else if i =? 7 then 5 else if i =? 8 then 7
  else if i =? 9 then 26 else if i =? 0x0B then 6 else 0.
Definition at_130000 (i : Z) : Z := if i =? 4 then 13 else if (i =? 0) || (i =? 2) then 0 else at_125959 i.
Definition demo_chip (n : nat) (i : Z) : Z := if (n <? 4)%nat then at_125959 i else at_130000 i.

Lemma rtc_read_untorn_witness :
  rtc_read demo_chip 1 0 = Some (Some (mkTime 2026 7 5 13 0 0), 27%nat) /\
  mkTime 2026 7 5 13 0 0 = snapshot at_130000 6.
Proof.
  assert (rtc_read demo_chip 1 0 = Some (Some (mkTime 2026 7 5 13 0 0), 27%nat)) as E by (vm_compute; reflexivity).
  split; [exact E|]. destruct (proj1 (rtc_read_untorn demo_chip 1 0) _ _ at_130000 at_130000 E) as [H|H]; [|exact H|exact H].
  exists 0%nat. intros n i Hn Hi. cbn [Nat.ltb Nat.leb]. unfold demo_chip. rewrite (proj2 (Nat.ltb_ge n 4)) by lia. reflexivity.
Defined.

(** The Gregorian calendar, counted day by day. *)
Definition is_leap (y : Z) : bool := ((y mod 4 =? 0) && negb (y mod 100 =? 0)) || (y mod 400 =? 0).
Definition month_length (y m : Z) : Z :=
  if m =? 2 then (if is_leap y then 29 else 28)
  else if (m =? 4) || (m =? 6) || (m =? 9) || (m =? 11) then 30 else 31.

(** Days before the first of month [m] in year [y], and before the first of January. *)
Definition days_before_month (y m : Z) : Z := for_z 1 m (fun k days => days + month_length y k) 0.
Definition days_before_year (y : Z) : Z := for_z 1970 y (fun k days => days + if is_leap k then 366 else 365) 0.

Definition seconds_since_epoch (t : RtcTime) : Z :=
  (days_before_year (year t) + days_before_month (year t) (month t) + (day t - 1)) * 86400 + hour t * 3600 + minute t * 60 + second t.

(** A date of the calendar. *)
Definition valid_time (t : RtcTime) : Prop :=
  1 <= month t <= 12 /\ 1 <= day t <= month_length (year t) (month t) /\ 0 <= hour t < 24 /\ 0 <= minute t < 60 /\ 0 <= second t < 60.

Definition day_number (y m : Z) : Z :=
  (y - 1970) * 365 + (y - 1970 + 1) / 4 + nth (Z.to_nat (m - 1)) month_days 0 + if is_leap y && (2 <? m) then 1 else 0.

(** Up to 2100 every fourth year is a leap year. *)
Lemma is_leap_fourth y : 1970 <= y < 2100 -> is_leap y = (y mod 4 =? 0).
Proof.
  intros Hy. unfold is_leap. destruct (Z.eqb_spec (y mod 4) 0), (Z.eqb_spec (y mod 100) 0), (Z.eqb_spec (y mod 400) 0); cbn; (done || exfalso; dlia).
Qed.

Lemma days_before_year_closed y : 1970 <= y <= 2100 -> days_before_year y = (y - 1970) * 365 + (y - 1970 + 1) / 4.
Proof.
  intros Hy. apply (for_z_ind (fun k days => days = (k - 1970) * 365 + (k - 1970 + 1) / 4)); [lia|done|].
  intros k days Hk ->. rewrite is_leap_fourth by lia. destruct (Z.eqb_spec (k mod 4) 0); dlia.
Qed.

Lemma days_before_month_closed y m : 1 <= m <= 12 ->
  days_before_month y m = nth (Z.to_nat (m - 1)) month_days 0 + if is_leap y && (2 <? m) then 1 else 0.
Proof.
  intros Hm. unfold days_before_month, month_length.
  assert (m = 1 \/ m = 2 \/ m = 3 \/ m = 4 \/ m = 5 \/ m = 6 \/ m = 7 \/ m = 8 \/ m = 9 \/ m = 10 \/ m = 11 \/ m = 12) as H by lia.
  destruct (is_leap y); repeat destruct H as [->|H]; try subst m; reflexivity.
Qed.

Lemma day_number_correct y m : 1970 <= y <= 2100 -> 1 <= m <= 12 ->
  day_number y m = days_before_year y + days_before_month y m.
Proof. intros Hy Hm. rewrite days_before_year_closed, days_before_month_closed by lia. unfold day_number. lia. Qed.

Lemma month_days_range m : 0 <= nth (Z.to_nat (m - 1)) month_days 0 <= 334.
Proof.
  generalize (Z.to_nat (m - 1)). intros n. do 12 (destruct n as [|n]; [cbn; lia|]). destruct n; cbn; lia.
Qed.

(** C40: for a date of the calendar from 2000 to 2100, the time [rtc_unix_time] returns
    is the number of seconds since 1970, counted day by day with the Gregorian leap
    years, and it did not wrap. *)
Theorem rtc_unix_time_correct chip fuel n n' now :
  rtc_read chip fuel n = Some (Some now, n') -> valid_time now -> 2000 <= year now <= 2100 ->
  rtc_unix_time chip fuel n = Some (seconds_since_epoch now, n').
Proof.
  intros E (Hm & Hd & Hh & Hmi & Hs) Hy. unfold rtc_unix_time. rewrite E. cbn [mbind option_bind]. do 2 f_equal.
  assert (0 <= day now <= 31) as Hd' by (unfold month_length in Hd; repeat case_match; lia).
  unfold seconds_since_epoch. rewrite <- day_number_correct by lia. unfold day_number, unix_time.
  pose proof (month_days_range (month now)) as Hmd. set (md := nth _ _ _) in *. fold (is_leap (year now)).
  rewrite !(proj2 (Z.leb_le _ _)) by lia. cbn [andb].
  assert (0 <= (year now - 1970 + 1) / 4 <= 33) as Hq by dlia.
  destruct (is_leap (year now) && (2 <? month now)); unwrap_inner; lia.
Qed.

Lemma rtc_unix_time_correct_witness :
  rtc_unix_time demo_chip 1 0 = Some (seconds_since_epoch (mkTime 2026 7 5 13 0 0), 27%nat) /\
  seconds_since_epoch (mkTime 2026 7 5 13 0 0) = 1783256400.
Proof.
  split; [|vm_compute; reflexivity]. apply rtc_unix_time_correct.
  - vm_compute. reflexivity.
  - unfold valid_time, month_length. cbn. lia.
  - cbn. lia.
Defined.

(** In 12-hour mode the clock shows midnight as 12 without the PM bit; the driver
    leaves it at 12, so midnight and noon read the same. *)
Lemma midnight_reads_as_noon regs : u8 (regs register_hours) = 0x12 -> hour (snapshot regs 0) = 12.
Proof.
  intros H. unfold snapshot, read_once, read_register. change (Z.land register_hours 127) with register_hours. rewrite H. reflexivity.
Qed.
