(* ===== verification/Keyboard.v ===== *)
(** * The keyboard (src/modules/keyboard/keyboard.cpp)

    State: the handlers that subscribed, by address, in order (the first
    [subscriber_count] places).  An interrupt is what it makes happen: a character for
    the consoles, or calls of the handlers. *)

From S2P Require Import Prelude.

Definition max_subscribers : nat := 8.

Definition scancode_map : list Z :=
  [0; 27; 49; 50; 51; 52; 53; 54; 55; 56; 57; 48; 45; 61; 8;
   9; 113; 119; 101; 114; 116; 121; 117; 105; 111; 112; 91; 93; 10;
   0; 97; 115; 100; 102; 103; 104; 106; 107; 108; 59; 39; 96;
   0; 92; 122; 120; 99; 118; 98; 110; 109; 44; 46; 47; 0;
   42; 0; 32] ++ replicate 70 0.

Inductive effect := ConsolePut (c : Z) | Deliver (handler c : Z).

Definition keyboard_irq (scancode : Z) (subscribers : list Z) : list effect :=
  if negb (Z.land scancode 0x80 =? 0) then []
  else
    let c := if scancode <? 128 then nth (Z.to_nat scancode) scancode_map 0 else 0 in
    if c =? 0 then []
    else if (length subscribers =? 0)%nat then [ConsolePut c]
    else (fun h => Deliver h c) <$> subscribers.

Definition keyboard_subscribe (handler : Z) (subscribers : list Z) : bool * list Z :=
  if (handler =? 0) || (max_subscribers <=? length subscribers)%nat then (false, subscribers)
  else (true, subscribers ++ [handler]).

(** The first of its places goes, the rest move up. *)
Fixpoint keyboard_unsubscribe (handler : Z) (subscribers : list Z) : list Z :=
  match subscribers with
  | [] => []
  | h :: rest => if negb (h =? handler) then h :: keyboard_unsubscribe handler rest else rest
  end.

(** What the module asks of the interrupt layer. *)
Inductive request := Register (irq : Z) (handler : bool) | Unmask (irq : Z) | Mask (irq : Z).
Definition keyboard_module_init : Z * list request := (0, [Register 1 true; Unmask 1]).
Definition keyboard_module_exit (subscribers : list Z) : list Z * list request := ([], [Mask 1; Register 1 false]).

(** ** Properties *)

(** A subscriber that leaves again is out, and the others keep their order. *)
Lemma subscribe_unsubscribe handler subs : handler <> 0 -> (length subs < max_subscribers)%nat -> ~ handler ∈ subs ->
  keyboard_subscribe handler subs = (true, subs ++ [handler]) /\ keyboard_unsubscribe handler (subs ++ [handler]) = subs.
Proof.
  intros Hh Hl Hn. split.
  - unfold keyboard_subscribe. rewrite (proj2 (Z.eqb_neq _ _)), (proj2 (Nat.leb_gt _ _)) by done. done.
  - induction subs as [|h subs IH]; cbn [app keyboard_unsubscribe]; [by rewrite Z.eqb_refl|].
    rewrite elem_of_cons in Hn. rewrite (proj2 (Z.eqb_neq h handler)) by (intros ->; tauto). cbn [negb]. f_equal.
    apply IH; [cbn in Hl; lia|tauto].
Qed.

(** A key that is released, or that has no character, does nothing. *)
Lemma no_character scancode subs c h : Deliver h c ∈ keyboard_irq scancode subs -> c <> 0 /\ h ∈ subs /\ 0 <= Z.land scancode 0x80 <= 0.
Proof.
  unfold keyboard_irq. destruct (Z.eqb_spec (Z.land scancode 128) 0) as [E|]; cbn [negb]; [|intros Hin; by apply elem_of_nil in Hin].
  set (k := if scancode <? 128 then _ else _). destruct (Z.eqb_spec k 0); [intros Hin; by apply elem_of_nil in Hin|].
  destruct (length subs =? 0)%nat; [intros Hin; apply list_elem_of_singleton in Hin; discriminate|].
  intros (x & Hx & Hin)%list_elem_of_fmap. injection Hx as -> ->. split_and!; (done || lia).
Qed.
