(* ===== verification/Desktop.v ===== *)
(** * The desktop (src/modules/desktop/desktop.cpp)

    A window on the text screen with lines of output and an input line.  State: the
    input buffer with its terminator, its length, the next output line and the screen
    the module draws on through the exported functions of the text console; a store
    outside the buffer is [None]. *)

From S2P Require Import Prelude Console Vga Keyboard.

Definition color_bar : Z := 0x1F.
Definition color_desktop : Z := 0x10.
Definition color_window : Z := 0x70.
Definition color_text : Z := 0x7F.
Definition window_x : Z := 8.
Definition window_y : Z := 4.
Definition window_w : Z := 60.
Definition window_h : Z := 14.
Definition input_capacity : Z := window_w - 4.

Record state := mk { input : list Z; input_length : Z; line_cursor : Z; vga : VgaConsole }.

Definition set_vga (v : VgaConsole) (s : state) : state := mk (input s) (input_length s) (line_cursor s) v.

(** [input[i] = c]. *)
Definition set_input (i c : Z) (s : state) : option state :=
  if (0 <=? i) && (i <? Z.of_nat (length (input s)))
  then Some (mk (<[Z.to_nat i := c]> (input s)) (input_length s) (line_cursor s) (vga s)) else None.
Definition set_length (n : Z) (s : state) : state := mk (input s) n (line_cursor s) (vga s).

(** The characters before the terminator, as [vga_write] walks them. *)
Fixpoint text_of (l : list Z) : list Z :=
  match l with [] => [] | c :: l => if c =? 0 then [] else c :: text_of l end.

Definition text_title : list Z := [101; 114; 105; 115; 32; 100; 101; 115; 107; 116; 111; 112].
Definition text_module : list Z := [109; 111; 100; 117; 108; 101; 58; 32; 111; 110].
Definition text_console : list Z := [91; 32; 99; 111; 110; 115; 111; 108; 101; 32; 93].
Definition text_running : list Z :=
  [101; 114; 105; 115; 32; 100; 101; 115; 107; 116; 111; 112; 32; 109; 111; 100; 117; 108; 101; 32; 114; 117; 110; 110; 105; 110; 103].
Definition text_type : list Z :=
  [116; 121; 112; 101; 32; 98; 101; 108; 111; 119; 44; 32; 101; 110; 116; 101; 114; 32; 101; 99; 104; 111; 101; 115; 32; 116; 104; 101; 32; 108; 105; 110; 101].

Definition draw_background (v : VgaConsole) : option VgaConsole :=
  v ← for_o 0 height (fun y v => vga_fill_row y 32 color_desktop v) v;
  v ← vga_fill_row 0 32 color_bar v;
  v ← vga_write 1 0 text_title color_bar v;
  vga_write (width - 12) 0 text_module color_bar v.

Definition draw_window_frame (v : VgaConsole) : option VgaConsole :=
  v ← for_o window_y (window_y + window_h) (fun y v =>
        for_o window_x (window_x + window_w) (fun x v => vga_put_cell x y 32 color_window v) v) v;
  vga_write (window_x + 2) window_y text_console color_window v.

Definition draw_input (s : state) : option state :=
  v ← for_o 0 input_capacity (fun x v => vga_put_cell (window_x + 2 + x) (window_y + window_h - 2) 32 color_text v) (vga s);
  v ← vga_write (window_x + 2) (window_y + window_h - 2) (text_of (input s)) color_text v;
  v ← vga_put_cell (window_x + 2 + input_length s) (window_y + window_h - 2) 95 color_text v;
  Some (set_vga v s).

Definition blank_line (y : Z) (v : VgaConsole) : option VgaConsole :=
  for_o (window_x + 2) (window_x + window_w - 2) (fun x v => vga_put_cell x y 32 color_window v) v.

Definition push_line (text : list Z) (s : state) : option state :=
  let first_line := window_y + 2 in
  let end_line := window_y + window_h - 3 in
  s ← (if first_line + line_cursor s =? end_line then
         v ← for_o first_line end_line blank_line (vga s);
         Some (mk (input s) (input_length s) 0 v)
       else Some s);
  v ← blank_line (first_line + line_cursor s) (vga s);
  v ← vga_write (window_x + 2) (first_line + line_cursor s) text color_window v;
  Some (mk (input s) (input_length s) (u64 (line_cursor s + 1)) v).

Definition submit (s : state) : option state :=
  s ← set_input (input_length s) 0 s;
  s ← (if 0 <? input_length s then push_line (text_of (input s)) s else Some s);
  s ← set_input 0 0 (set_length 0 s);
  draw_input s.

(** The other cases of the [switch] of [on_key]. *)
Definition edit_input (c : Z) (s : state) : option state :=
  if c =? 8 then
    if 0 <? input_length s then let s := set_length (input_length s - 1) s in set_input (input_length s) 0 s else Some s
  else if input_length s <? input_capacity then
    s ← set_input (input_length s) c s;
    let s := set_length (u64 (input_length s + 1)) s in
    set_input (input_length s) 0 s
  else Some s.

Definition on_key (c : Z) (s : state) : option state :=
  if c =? 10 then submit s else s ← edit_input c s; draw_input s.

(** [instance] is the text console's place in the registry, [handler] the address of
    [on_key]. *)
Definition desktop_module_init (instance handler : Z) (enabled : bool) (r : Console.state) (subscribers : list Z) (s : state) :
    option (Z * bool * Console.state * list Z * state) :=
  let '(enabled, r) := vga_console_enable instance false enabled r in
  v ← draw_background (vga s);
  v ← draw_window_frame v;
  s ← push_line text_running (set_vga v s);
  s ← push_line text_type s;
  s ← draw_input s;
  let '(ok, subscribers) := keyboard_subscribe handler subscribers in
  if ok then Some (0, enabled, r, subscribers, s)
  else let '(enabled, r) := vga_console_enable instance true enabled r in Some (-1, enabled, r, subscribers, s).

Definition desktop_module_exit (instance handler : Z) (enabled : bool) (r : Console.state) (subscribers : list Z) (s : state) :
    option (bool * Console.state * list Z * state) :=
  v ← vga_clear (vga s);
  let '(enabled, r) := vga_console_enable instance true enabled r in
  Some (enabled, r, keyboard_unsubscribe handler subscribers, set_vga v s).

(** ** Properties *)

(** What a loop of stores to cells of one row does. *)
Lemma row_filled x0 x1 y c color v : length (buffer_ v) = Z.to_nat (width * height) -> 0 <= x0 <= x1 -> x1 <= width -> 0 <= y < height ->
  exists v', for_o x0 x1 (fun x v => put_cell x y c color v) v = Some v' /\ same_rest v v' /\
    forall x' y', 0 <= x' < width -> cell v' x' y' = if (x0 <=? x') && (x' <? x1) && (y' =? y) then Some (make_cell c color) else cell v x' y'.
Proof.
  intros Hl Hx Hw Hy.
  destruct (for_o_ind (fun k v' => same_rest v v' /\ forall x' y', 0 <= x' < width -> cell v' x' y' =
    if (x0 <=? x') && (x' <? k) && (y' =? y) then Some (make_cell c color) else cell v x' y') x0 x1 (fun x v => put_cell x y c color v) v)
    as (v' & E & Hr & Hc); [lia| | |exists v'; by split_and!].
  - split; [done|]. intros x' y' _. destruct (Z.leb_spec x0 x'), (Z.ltb_spec x' x0); cbn [andb]; (done || lia).
  - intros x v1 Hx1 [Hr Hc]. destruct (put_cell_spec x y c color v1) as (v2 & E & Hr2 & Hc2); [destruct Hr as [-> _]; done|lia|done|].
    exists v2. split; [done|]. split; [by eapply same_frame_trans|]. intros x' y' Hx'. rewrite Hc2, Hc by done.
    destruct (Z.eqb_spec x' x), (Z.eqb_spec y' y), (Z.leb_spec x0 x'), (Z.ltb_spec x' x), (Z.ltb_spec x' (x + 1)); cbn [andb]; (done || lia).
Qed.

(** Text on one row. *)
Lemma text_written text : forall x y color v, length (buffer_ v) = Z.to_nat (width * height) -> 0 <= x -> x + Z.of_nat (length text) <= width -> 0 <= y < height ->
  exists v', vga_write x y text color v = Some v' /\ same_rest v v' /\
    forall x' y', 0 <= x' < width -> cell v' x' y' =
      if (x <=? x') && (x' <? x + Z.of_nat (length text)) && (y' =? y) then (fun c => make_cell c color) <$> text !! Z.to_nat (x' - x) else cell v x' y'.
Proof.
  induction text as [|c text IH]; intros x y color v Hl Hx Hw Hy; cbn [vga_write length] in *.
  - exists v. split; [done|]. split; [done|]. intros x' y' _. destruct (Z.leb_spec x x'), (Z.ltb_spec x' (x + Z.of_nat 0)); cbn [andb]; (done || lia).
  - destruct (put_cell_spec x y c color v) as (v1 & -> & Hr1 & Hc1); [done|lia|done|]. cbn [mbind option_bind].
    assert (width = 80) as Ew by done. rewrite (u64_small (x + 1)) by lia.
    destruct (IH (x + 1) y color v1) as (v2 & -> & Hr2 & Hc2); [destruct Hr1 as [-> _]; done|lia|lia|done|].
    exists v2. split; [done|]. split; [by eapply same_frame_trans|]. intros x' y' Hx'. rewrite Hc2, Hc1 by done.
    destruct (Z.eqb_spec y' y); rewrite ?andb_false_r, ?andb_true_r; [|done].
    destruct (Z.eqb_spec x' x) as [->|Hne].
    + rewrite (proj2 (Z.leb_gt (x + 1) x)), Z.leb_refl, (proj2 (Z.ltb_lt x (x + Z.of_nat (S (length text))))), Z.sub_diag by lia. done.
    + destruct (Z.leb_spec (x + 1) x'), (Z.ltb_spec x' (x + 1 + Z.of_nat (length text))), (Z.leb_spec x x'), (Z.ltb_spec x' (x + Z.of_nat (S (length text))));
        cbn [andb]; try done; try lia. replace (Z.to_nat (x' - x)) with (S (Z.to_nat (x' - (x + 1)))) by lia. done.
Qed.

(** The buffer holds a line of [input_length] characters and its terminator; the
    output lines fit the window. *)
Definition holds (s : state) (line : list Z) : Prop :=
  length (buffer_ (vga s)) = Z.to_nat (width * height) /\ length (input s) = 57%nat /\
  input_length s = Z.of_nat (length line) /\ (length line <= 56)%nat /\
  take (length line) (input s) = line /\ input s !! length line = Some 0 /\ Forall (fun c => c <> 0) line /\
  0 <= line_cursor s <= 9.

Lemma holds_redrawn s line v : holds s line -> length (buffer_ v) = length (buffer_ (vga s)) -> holds (set_vga v s) line.
Proof. unfold holds. cbn. intros H E. by rewrite E. Qed.

Lemma text_of_line l line : take (length line) l = line -> l !! length line = Some 0 -> Forall (fun c => c <> 0) line -> text_of l = line.
Proof.
  revert l. induction line as [|c line IH]; intros l Ht Hz Hf.
  - destruct l as [|z l]; [done|]. cbn in Hz. injection Hz as ->. done.
  - destruct l as [|z l]; [done|]. cbn in Ht, Hz. injection Ht as -> Ht. apply Forall_cons in Hf as [Hc Hf].
    cbn. rewrite (proj2 (Z.eqb_neq c 0)) by done. by rewrite IH.
Qed.

(** The input row: the line, the cursor, then blanks. *)
Definition input_row (v : VgaConsole) (line : list Z) : Prop :=
  forall i, (i < 56)%nat ->
    cell v (10 + Z.of_nat i) 16 =
    Some (make_cell (if (i =? length line)%nat then 95 else match line !! i with Some c => c | None => 32 end) color_text).

Lemma draw_input_spec s line : holds s line ->
  exists v, draw_input s = Some (set_vga v s) /\ same_rest (vga s) v /\ input_row v line /\
    forall x y, 0 <= x < width -> y <> 16 -> cell v x y = cell (vga s) x y.
Proof.
  intros (Hl & Hi & Hn & Hc & Ht & Hz & Hf & _). unfold draw_input, vga_put_cell, input_capacity, window_w, window_x, window_y, window_h, color_text in *.
  assert (width = 80) as Ew by done. assert (height = 25) as Eh by done.
  destruct (for_o_ind (fun k v' => same_rest (vga s) v' /\ forall x' y', 0 <= x' < width -> cell v' x' y' =
    if (10 <=? x') && (x' <? 10 + k) && (y' =? 16) then Some (make_cell 32 0x7F) else cell (vga s) x' y') 0 56
    (fun x v => put_cell (10 + x) 16 32 0x7F v) (vga s)) as (v1 & E1 & R1 & C1).
  { lia. }
  { split; [done|]. intros x' y' _. destruct (Z.leb_spec 10 x'), (Z.ltb_spec x' (10 + 0)); cbn [andb]; (done || lia). }
  { intros x v1 Hx [Hr Hcl]. destruct (put_cell_spec (10 + x) 16 32 0x7F v1) as (v2 & E & Hr2 & Hc2); [destruct Hr as [-> _]; done|lia|lia|].
    exists v2. split; [done|]. split; [by eapply same_frame_trans|]. intros x' y' Hx'. rewrite Hc2, Hcl by done.
    destruct (Z.eqb_spec x' (10 + x)), (Z.eqb_spec y' 16), (Z.leb_spec 10 x'), (Z.ltb_spec x' (10 + x)), (Z.ltb_spec x' (10 + (x + 1))); cbn [andb]; (done || lia). }
  change (8 + 2) with 10. change (4 + 14 - 2) with 16. change (60 - 4) with 56. rewrite E1. cbn [mbind option_bind].
  rewrite (text_of_line _ line) by done.
  destruct (text_written line 10 16 0x7F v1) as (v2 & -> & R2 & C2); [destruct R1 as [-> _]; done|lia|lia|lia|]. cbn [mbind option_bind].
  destruct (put_cell_spec (10 + input_length s) 16 95 0x7F v2) as (v3 & -> & R3 & C3); [destruct R2 as [-> _], R1 as [-> _]; done|lia|lia|]. cbn [mbind option_bind].
  exists v3. split; [done|]. split; [by eapply same_frame_trans; [|eapply same_frame_trans]|]. split.
  - intros i Hi56. rewrite C3, C2, C1 by lia. rewrite Hn, Z.eqb_refl, !andb_true_r.
    destruct (Nat.eqb_spec i (length line)) as [->|Hne].
    + by rewrite Z.eqb_refl.
    + rewrite (proj2 (Z.eqb_neq _ _)) by lia. rewrite !(proj2 (Z.leb_le 10 _)) by lia. cbn [andb].
      rewrite (proj2 (Z.ltb_lt (10 + Z.of_nat i) (10 + 56))) by lia.
      replace (Z.to_nat (10 + Z.of_nat i - 10)) with i by lia. destruct (Z.ltb_spec (10 + Z.of_nat i) (10 + Z.of_nat (length line))).
      * destruct (lookup_lt_is_Some_2 line i) as [c Hci]; [lia|]. by rewrite Hci.
      * by rewrite lookup_ge_None_2 by lia.
  - intros x y Hx Hy. rewrite C3, C2, C1 by done. by rewrite (proj2 (Z.eqb_neq y 16)), !andb_false_r by done.
Qed.

Lemma blank_line_spec y v : length (buffer_ v) = Z.to_nat (width * height) -> 0 <= y < height ->
  exists v', blank_line y v = Some v' /\ same_rest v v'.
Proof.
  intros Hl Hy. destruct (row_filled (window_x + 2) (window_x + window_w - 2) y 32 color_window v) as (v' & E & Hr & _);
    [done|cbv; intuition congruence|cbv; congruence|done|]. by exists v'.
Qed.

(** A line of output goes to the next row of the window, or to the first one after the
    window was cleared. *)
Lemma push_line_spec text s : length (buffer_ (vga s)) = Z.to_nat (width * height) -> (length text <= 56)%nat -> 0 <= line_cursor s <= 9 ->
  exists s', push_line text s = Some s' /\ input s' = input s /\ input_length s' = input_length s /\
    length (buffer_ (vga s')) = Z.to_nat (width * height) /\ 1 <= line_cursor s' <= 9 /\
    forall i c, text !! i = Some c -> cell (vga s') (10 + Z.of_nat i) (5 + line_cursor s') = Some (make_cell c color_window).
Proof.
  intros Hl Ht Hc. assert (width = 80) as Ew by done. assert (height = 25) as Eh by done.
  unfold push_line, window_x, window_y, window_h in *. change (4 + 2) with 6. change (4 + 14 - 3) with 15. change (8 + 2) with 10.
  assert (exists s1, (if 6 + line_cursor s =? 15 then v ← for_o 6 15 blank_line (vga s); Some (mk (input s) (input_length s) 0 v) else Some s) = Some s1 /\
    input s1 = input s /\ input_length s1 = input_length s /\ length (buffer_ (vga s1)) = Z.to_nat (width * height) /\ 0 <= line_cursor s1 <= 8) as (s1 & -> & I1 & N1 & L1 & C1).
  { destruct (Z.eqb_spec (6 + line_cursor s) 15).
    - destruct (for_o_ind (fun _ v => length (buffer_ v) = Z.to_nat (width * height)) 6 15 blank_line (vga s)) as (v & -> & Hv); [lia|done| |].
      { intros y v Hy Hv. destruct (blank_line_spec y v Hv) as (v' & E & L & _); [lia|]. exists v'. split; [done|congruence]. }
      cbn [mbind option_bind]. eexists. split; [done|]. cbn. split_and!; (done || lia).
    - exists s. split_and!; (done || lia). }
  cbn [mbind option_bind]. destruct (blank_line_spec (6 + line_cursor s1) (vga s1) L1) as (v1 & -> & R1); [lia|]. cbn [mbind option_bind].
  destruct (text_written text 10 (6 + line_cursor s1) color_window v1) as (v2 & -> & R2 & T2); [destruct R1 as [-> _]; done|lia|lia|lia|]. cbn [mbind option_bind].
  eexists. split; [done|]. cbn [input input_length vga line_cursor]. rewrite (u64_small (line_cursor s1 + 1)) by lia.
  split_and!; try done; try lia.
  - destruct R2 as [-> _], R1 as [-> _]. done.
  - intros i c Hi. pose proof (lookup_lt_Some _ _ _ Hi). rewrite T2 by lia. replace (5 + (line_cursor s1 + 1)) with (6 + line_cursor s1) by lia.
    rewrite Z.eqb_refl, (proj2 (Z.leb_le 10 _)), (proj2 (Z.ltb_lt _ _)) by lia. cbn [andb].
    replace (Z.to_nat (10 + Z.of_nat i - 10)) with i by lia. by rewrite Hi.
Qed.

(** The line editor: what a key makes of the line. *)
Definition edit (line : list Z) (c : Z) : list Z :=
  if c =? 10 then [] else if c =? 8 then take (length line - 1) line else if (length line <? 56)%nat then line ++ [c] else line.

Lemma set_input_spec i c s : 0 <= i < Z.of_nat (length (input s)) ->
  set_input i c s = Some (mk (<[Z.to_nat i := c]> (input s)) (input_length s) (line_cursor s) (vga s)).
Proof. intros Hi. unfold set_input. by rewrite (proj2 (Z.leb_le _ _)), (proj2 (Z.ltb_lt _ _)) by lia. Qed.

(** Putting a terminator after a prefix of the buffer. *)
Lemma terminated (l line : list Z) : length l = 57%nat -> (length line <= 56)%nat -> take (length line) l = line ->
  take (length line) (<[length line := 0]> l) = line /\ <[length line := 0]> l !! length line = Some 0.
Proof. intros Hl Hn Ht. split; [by rewrite take_insert_ge|]. apply list_lookup_insert_eq. lia. Qed.

Lemma submit_spec s line : holds s line ->
  exists s', submit s = Some s' /\ holds s' [] /\ input_row (vga s') [] /\
    (line <> [] -> forall i c, line !! i = Some c -> cell (vga s') (10 + Z.of_nat i) (5 + line_cursor s') = Some (make_cell c color_window)).
Proof.
  intros (Hl & Hi & Hn & Hc & Ht & Hz & Hf & Hcur). unfold submit. rewrite set_input_spec by lia. cbn [mbind option_bind].
  destruct (terminated (input s) line Hi Hc Ht) as [Ht' Hz']. rewrite Hn, Nat2Z.id.
  set (s1 := mk (<[length line := 0]> (input s)) (Z.of_nat (length line)) (line_cursor s) (vga s)).
  assert (length (input s1) = 57%nat) as Hi1 by (cbn; by rewrite length_insert).
  assert (exists s2, (if 0 <? input_length s1 then push_line (text_of (input s1)) s1 else Some s1) = Some s2 /\ input s2 = input s1 /\
    length (buffer_ (vga s2)) = Z.to_nat (width * height) /\ 0 <= line_cursor s2 <= 9 /\
    (line <> [] -> forall i c, line !! i = Some c -> cell (vga s2) (10 + Z.of_nat i) (5 + line_cursor s2) = Some (make_cell c color_window)) /\
    (line <> [] -> 1 <= line_cursor s2 <= 9)) as (s2 & -> & I2 & L2 & C2 & T2 & T3).
  { cbn [input_length s1]. rewrite (text_of_line (input s1) line Ht' Hz' Hf). destruct (Z.ltb_spec 0 (Z.of_nat (length line))).
    - destruct (push_line_spec line s1) as (s2 & E & I & _ & L & C & T); [done|done|done|]. exists s2. split_and!; try done; try lia.
    - exists s1. split_and!; try done; try (cbn; lia); intros Hne; destruct line; try done; cbn in *; lia. }
  cbn [mbind option_bind]. rewrite set_input_spec by (cbn; rewrite I2, Hi1; lia). cbn [mbind option_bind].
  set (s3 := mk _ _ _ _). assert (holds s3 []) as H3.
  { split_and!; cbn; try done; try lia; [by rewrite length_insert, I2, Hi1|]. apply list_lookup_insert_eq. rewrite I2, Hi1. lia. }
  destruct (draw_input_spec s3 [] H3) as (v & -> & Hr & Hrow & Hrest). exists (set_vga v s3). split; [done|].
  split; [apply holds_redrawn; [done|apply Hr]|].
  split; [done|]. intros Hne i c Hci. cbn. rewrite Hrest; [by apply T2| |specialize (T3 Hne); cbn; lia].
  pose proof (lookup_lt_Some _ _ _ Hci). unfold width. lia.
Qed.

(** on a window in order, with a line of text in its input buffer, any character the
    keyboard can deliver keeps every store inside the buffer and the screen, leaves the
    line a line editor would leave (56 characters at most, more are dropped), and shows
    it with the cursor on the input row; a submitted line appears on a row of output. *)
Theorem desktop_key_correct s line c : holds s line -> c <> 0 ->
  exists s', on_key c s = Some s' /\ holds s' (edit line c) /\ input_row (vga s') (edit line c) /\
    (c = 10 -> line <> [] -> forall i x, line !! i = Some x -> cell (vga s') (10 + Z.of_nat i) (5 + line_cursor s') = Some (make_cell x color_window)).
Proof.
  intros Hh Hc0. unfold on_key, edit. destruct (Z.eqb_spec c 10) as [->|Hc10].
  { destruct (submit_spec s line Hh) as (s' & E & H1 & H2 & H3). by exists s'. }
  cut (exists s1, edit_input c s = Some s1 /\ holds s1 (if c =? 8 then take (length line - 1) line else if (length line <? 56)%nat then line ++ [c] else line)).
  { intros (s1 & -> & H1). cbn [mbind option_bind]. destruct (draw_input_spec s1 _ H1) as (v & -> & Hr & Hrow & _). exists (set_vga v s1).
    split; [done|]. split; [apply holds_redrawn; [done|apply Hr]|by split]. }
  pose proof Hh as (Hl & Hi & Hn & Hc & Ht & Hz & Hf & Hcur). unfold edit_input, input_capacity, window_w. destruct (Z.eqb_spec c 8) as [->|Hc8].
  - destruct (Z.ltb_spec 0 (input_length s)) as [Hpos|]; [|exists s; split; [done|]; assert (length line = 0%nat) as E0 by lia; by destruct line].
    cbn [set_length input_length]. rewrite set_input_spec by (cbn; lia). eexists. split; [done|].
    assert (length (take (length line - 1) line) = (length line - 1)%nat) as El by (rewrite length_take; lia).
    replace (Z.to_nat (input_length s - 1)) with (length line - 1)%nat by lia.
    destruct (terminated (input s) (take (length line - 1) line)) as [Ht' Hz']; [done|rewrite El; lia|rewrite El; trans (take (length line - 1) (take (length line) (input s))); [by rewrite take_take, Nat.min_l by lia|by rewrite Ht]|].
    rewrite El in Ht', Hz'. unfold holds. rewrite El. cbn. split_and!; try done; try lia; [by rewrite length_insert|by apply Forall_take].
  - destruct (Nat.ltb_spec (length line) 56) as [Hlt|].
    2:{ rewrite (proj2 (Z.ltb_ge _ _)) by lia. by exists s. }
    rewrite (proj2 (Z.ltb_lt _ _)), set_input_spec by lia. cbn [mbind option_bind set_length input_length]. rewrite (u64_small (input_length s + 1)) by lia.
    rewrite set_input_spec by (cbn; rewrite length_insert; lia). eexists. split; [done|]. cbn.
    rewrite Hn. replace (Z.to_nat (Z.of_nat (length line))) with (length line) by lia. replace (Z.to_nat (Z.of_nat (length line) + 1)) with (length (line ++ [c])) by (rewrite length_app; cbn; lia).
    assert (take (length (line ++ [c])) (<[length line := c]> (input s)) = line ++ [c]) as Ht1.
    { rewrite length_app. cbn [length]. rewrite Nat.add_1_r, (take_S_r _ _ c) by (apply list_lookup_insert_eq; lia). by rewrite take_insert_ge, Ht. }
    destruct (terminated (<[length line := c]> (input s)) (line ++ [c])) as [Ht' Hz']; [by rewrite length_insert|rewrite length_app; cbn; lia|done|].
    split_and!; cbn; try done; rewrite ?length_insert, ?length_app; cbn; try done; try lia. apply Forall_app. split; [done|by constructor].
Qed.

(** A screen with the line "hi". *)
Definition demo : state := mk ([104; 105] ++ replicate 55 0) 2 3 (mkVga (replicate 2000 0) 0 0 7).

Lemma desktop_key_correct_witness :
  holds demo [104; 105] /\ exists s', on_key 33 demo = Some s' /\ holds s' [104; 105; 33] /\ input_row (vga s') [104; 105; 33].
Proof.
  assert (holds demo [104; 105]) as Hh.
  { split; [vm_compute; reflexivity|]. cbn. split_and!; try reflexivity; try lia. repeat constructor; lia. }
  split; [exact Hh|]. destruct (desktop_key_correct demo [104; 105] 33 Hh) as (s' & E & H1 & H2 & _); [lia|].
  exists s'. split; [exact E|]. split; [exact H1|exact H2].
Defined.

(** The cursor of a full line stands one cell past the cells [draw_input] blanks: it
    stays there after the line was submitted. *)
Definition full : state := mk (replicate 56 97 ++ [0]) 56 0 (mkVga (replicate 2000 0) 0 0 7).

Lemma stale_cursor :
  (s ← draw_input full; s ← on_key 10 s; cell (vga s) 66 16) = Some (make_cell 95 color_text).
Proof. vm_compute. reflexivity. Qed.
