(* ===== verification/Serial.v ===== *)
(** * The serial console (src/kernel/lib/serial.cpp)

    The chip is a parameter: reads and writes of its ports.  What the driver relies on,
    that the transmitter empties in time and sends what it is given, is the class
    [UartSpec]. *)

From S2P Require Import Prelude Console.

Definition port : Z := 0x3F8.

Class Uart (U : Type) := {
  u_in : Z -> U -> Z * U;
  u_out : Z -> Z -> U -> U
}.

Section driver.
Context {U : Type} `{Uart U}.

(** [while ((inb(port + 5) & 0x20) == 0) ;] *)
Fixpoint wait_ready (fuel : nat) (u : U) : option U :=
  match fuel with
  | O => None
  | S fuel =>
    let '(status, u) := u_in (port + 5) u in
    if Z.land status 0x20 =? 0 then wait_ready fuel u else Some u
  end.

Definition send (fuel : nat) (c : Z) (u : U) : option U :=
  u ← wait_ready fuel u; Some (u_out port (u8 c) u).

(** [SerialConsole::put]: a newline is preceded by a carriage return. *)
Definition put (fuel : nat) (c : Z) (u : U) : option U :=
  u ← (if c =? 10 then send fuel 13 u else Some u); send fuel c u.

Fixpoint put_all (fuel : nat) (text : list Z) (u : U) : option U :=
  match text with [] => Some u | c :: text => u ← put fuel c u; put_all fuel text u end.

(** [instance] is the console object. *)
Definition serial_init (instance : Z) (u : U) (c : Console.state) : bool * U * Console.state :=
  let u := fold_left (fun u w => u_out (port + w.1) w.2 u)
    [(1, 0x00); (3, 0x80); (0, 0x01); (1, 0x00); (3, 0x03); (2, 0xC7); (4, 0x1E); (0, 0xAE)] u in
  let '(echo, u) := u_in (port + 0) u in
  if negb (echo =? 0xAE) then (false, u, c)
  else (true, u_out (port + 4) 0x0F u, console_register c instance).
End driver.

(** The line: what the chip has sent.  Its status register is read without effect on
    it and shows an empty transmitter after some number of reads. *)
Class UartSpec (U : Type) `{Uart U} := {
  sent : U -> list Z;
  in_keeps p u : sent (u_in p u).2 = sent u;
  ready_in_time u : exists n u', wait_ready n u = Some u';
  out_sends c u : sent (u_out port c u) = sent u ++ [c]
}.

(** What the terminal should get. *)
Definition on_line (text : list Z) : list Z := concat ((fun c => if c =? 10 then [13; 10] else [c]) <$> text).

Section correctness.
Context {U : Type} `{UartSpec U}.

Lemma wait_more n : forall u u' k, wait_ready n u = Some u' -> wait_ready (n + k) u = Some u'.
Proof.
  induction n as [|n IH]; intros u u' k E; [done|]. cbn [wait_ready Nat.add] in *. destruct (u_in _ u) as [v u1].
  destruct (_ =? 0); [by apply IH|done].
Qed.

Lemma wait_keeps n : forall u u', wait_ready n u = Some u' -> sent u' = sent u.
Proof.
  induction n as [|n IH]; intros u u' E; [done|]. cbn [wait_ready] in E. pose proof (in_keeps (port + 5) u) as Hk.
  destruct (u_in _ u) as [v u1]. cbn in Hk. destruct (_ =? 0); [rewrite <- Hk; by apply IH|congruence].
Qed.

Lemma send_spec c u : exists n u', send n c u = Some u' /\ sent u' = sent u ++ [u8 c] /\ forall k, send (n + k) c u = Some u'.
Proof.
  destruct (ready_in_time u) as (n & u1 & E). exists n, (u_out port (u8 c) u1). unfold send. rewrite E. cbn [mbind option_bind].
  split_and!; [done|by rewrite out_sends, (wait_keeps _ _ _ E)|]. intros k. by rewrite (wait_more _ _ _ _ E).
Qed.

Lemma put_spec c u : 0 <= c < 256 ->
  exists n u', sent u' = sent u ++ on_line [c] /\ forall k, put (n + k) c u = Some u'.
Proof.
  intros Hc. unfold put, on_line. cbn [fmap list_fmap concat]. rewrite app_nil_r. destruct (Z.eqb_spec c 10) as [->|_].
  - destruct (send_spec 13 u) as (n1 & u1 & _ & S1 & E1), (send_spec 10 u1) as (n2 & u2 & _ & S2 & E2).
    exists (n1 + n2)%nat, u2. split; [by rewrite S2, S1, <- app_assoc|]. intros k.
    rewrite <- Nat.add_assoc, E1. cbn [mbind option_bind]. rewrite (Nat.add_assoc n1), (Nat.add_comm n1), <- Nat.add_assoc. apply E2.
  - destruct (send_spec c u) as (n & u1 & _ & S1 & E1). exists n, u1. rewrite S1, u8_small by lia. split; [done|]. intros k. apply E1.
Qed.

(** Text reaches the line whole: on a chip whose transmitter always empties in time,
    writing a text of bytes returns, and the line carries it in order with a carriage
    return in front of every newline. *)
Theorem serial_text_sent text u : Forall (fun c => 0 <= c < 256) text ->
  exists n u', put_all n text u = Some u' /\ sent u' = sent u ++ on_line text.
Proof.
  intros Ht.
  enough (exists n u', sent u' = sent u ++ on_line text /\ forall k, put_all (n + k) text u = Some u') as (n & u' & Hs & Hk).
  { exists n, u'. split; [|done]. rewrite <- (Hk 0%nat). f_equal. lia. }
  revert u. induction Ht as [|c text Hc Ht IH]; intros u.
  { exists 0%nat, u. split; [by rewrite app_nil_r|done]. }
  destruct (put_spec c u Hc) as (n1 & u1 & S1 & E1), (IH u1) as (n2 & u2 & S2 & E2).
  exists (n1 + n2)%nat, u2. split.
  - rewrite S2, S1, <- app_assoc. f_equal. unfold on_line. cbn [fmap list_fmap concat]. by rewrite app_nil_r.
  - intros k. cbn [put_all]. rewrite <- Nat.add_assoc, E1. cbn [mbind option_bind].
    rewrite (Nat.add_assoc n1), (Nat.add_comm n1), <- Nat.add_assoc. apply E2.
Qed.

(** A chip that does not answer the loopback test adds no console. *)
Lemma serial_absent instance u c u' c' : serial_init instance u c = (false, u', c') -> c' = c.
Proof. unfold serial_init. cbv zeta. destruct (u_in _ _) as [e u1]. destruct (negb _); congruence. Qed.
End correctness.

(** ** A chip that is busy for three reads after every byte *)

#[local] Instance slow_chip : Uart (list Z * nat) := {|
  u_in p u := match u.2 with O => (0x20, u) | S n => (0, (u.1, n)) end;
  u_out p c u := if p =? port then (u.1 ++ [c], 3%nat) else u |}.

#[local] Instance slow_chip_spec : UartSpec (list Z * nat).
Proof.
  refine {| sent := fst |}.
  - intros p [l [|n]]; done.
  - intros [l n]. revert l. induction n as [|n IH]; intros l; [by exists 1%nat, (l, 0%nat)|].
    destruct (IH l) as (k & u' & E). by exists (S k), u'.
  - intros c [l n]. done.
Defined.

Lemma serial_text_sent_witness : exists n u', put_all n [104; 105; 10] ([], 0%nat) = Some u' /\ sent u' = [104; 105; 13; 10].
Proof.
  destruct (serial_text_sent [104; 105; 10] ([], 0%nat)) as (n & u' & E & S); [repeat constructor; lia|].
  exists n, u'. split; [exact E|exact S].
Defined.
