(* ===== verification/Printk.v ===== *)
(** * Formatted kernel messages (src/kernel/lib/printk.cpp)

    Messages go to the consoles character by character.  The variable arguments are
    the list of 64-bit slots [va_arg] consumes in order; taking one that is not there
    is undefined ([None]), as is reading outside mapped memory. *)

From S2P Require Import Prelude Memory Console.

Inductive LogLevel := Debug | Info | Warn | Error.

(** "[dbg] " and so on. *)
Definition level_prefix (level : LogLevel) : list Z :=
  match level with
  | Debug => [91; 100; 98; 103; 93; 32]
  | Info => [91; 105; 110; 102; 93; 32]
  | Warn => [91; 119; 114; 110; 93; 32]
  | Error => [91; 101; 114; 114; 93; 32]
  end.

(** [digits[d]]: the ten digits, then letters in either case. *)
Definition digit (uppercase : bool) (d : Z) : Z :=
  if d <? 10 then 48 + d else (if uppercase then 65 else 97) + (d - 10).

Definition buffer_size : Z := 24.

(** The [do ... while] loop fills the buffer from its end; [index] is where it starts,
    and storing below index 0 is a fault. *)
Fixpoint digits_loop (fuel : nat) (value base : Z) (uppercase : bool) (index : Z) (buffer : list Z) :
    option (list Z) :=
  match fuel with
  | O => None
  | S fuel' =>
    if index <=? 0 then None
    else
      let buffer := digit uppercase (value mod base) :: buffer in
      let value := value / base in
      if negb (value =? 0) then digits_loop fuel' value base uppercase (index - 1) buffer
      else Some buffer
  end.

(** A character from a list, to every console. *)
Definition put_all (text : list Z) (s : state) : state := fold_left console_put text s.

Definition print_unsigned (value base : Z) (uppercase : bool) (s : state) : option state :=
  buffer ← digits_loop (S (Z.to_nat buffer_size)) value base uppercase buffer_size [];
  Some (put_all buffer s).

(** A 64-bit signed value is in [-2^63, 2^63). *)
Definition print_signed (value : Z) (s : state) : option state :=
  if value <? 0
  then print_unsigned (u64 (0 - u64 value)) 10 false (console_put s 45)
  else print_unsigned (u64 value) 10 false s.

(** Reinterpreting a slot as a signed integer of [w] bits. *)
Definition signed (w x : Z) : Z := let v := wrap w x in if v <? 2 ^ (w - 1) then v else v - 2 ^ w.

Definition va_arg (args : list Z) : option (Z * list Z) :=
  match args with [] => None | a :: args' => Some (a, args') end.

(** "(null)" and "0x". *)
Definition null_text : list Z := [40; 110; 117; 108; 108; 41].
Definition hex_text : list Z := [48; 120].

(** Skip the [l] modifiers from [p] on. *)
Fixpoint long_loop (fuel : nat) (m : memory) (p : Z) (is_long : bool) : option (Z * bool) :=
  match fuel with
  | O => None
  | S fuel' =>
    c ← m !! p; if c =? 108 then long_loop fuel' m (p + 1) true else Some (p, is_long)
  end.

(** One conversion, character [c]; [None] inside ends the message. *)
Definition convert (m : memory) (c : Z) (is_long : bool) (args : list Z) (s : state) :
    option (option (list Z * state)) :=
  let unsigned := fun base upper =>
    '(a, args) ← va_arg args;
    s ← print_unsigned (if is_long then u64 a else u32 a) base upper s;
    Some (Some (args, s)) in
  if c =? 99 then '(a, args) ← va_arg args; Some (Some (args, console_put s (u8 a)))
  else if c =? 115 then
    '(a, args) ← va_arg args;
    s ← (if negb (a =? 0) then console_write m a s else Some (put_all null_text s));
    Some (Some (args, s))
  else if (c =? 100) || (c =? 105) then
    '(a, args) ← va_arg args;
    s ← print_signed (if is_long then signed 64 a else signed 32 a) s;
    Some (Some (args, s))
  else if c =? 117 then unsigned 10 false
  else if c =? 120 then unsigned 16 false
  else if c =? 88 then unsigned 16 true
  else if c =? 112 then
    '(a, args) ← va_arg args;
    s ← print_unsigned (u64 a) 16 false (put_all hex_text s);
    Some (Some (args, s))
  else if c =? 37 then Some (Some (args, console_put s 37))
  else if c =? 0 then Some None
  else Some (Some (args, console_put (console_put s 37) c)).

(** Every turn moves on in the format, so the mapped bytes bound the turns. *)
Fixpoint vprintk_loop (fuel : nat) (m : memory) (p : Z) (args : list Z) (s : state) : option state :=
  match fuel with
  | O => None
  | S fuel' =>
    c ← m !! p;
    if c =? 0 then Some s
    else if negb (c =? 37) then vprintk_loop fuel' m (p + 1) args (console_put s c)
    else
      '(p, is_long) ← long_loop (S (size m)) m (p + 1) false;
      c ← m !! p;
      r ← convert m c is_long args s;
      match r with
      | None => Some s
      | Some (args, s) => vprintk_loop fuel' m (p + 1) args s
      end
  end.

Definition vprintk (m : memory) (fmt : Z) (args : list Z) (s : state) : option state :=
  vprintk_loop (S (size m)) m fmt args s.

Definition printk (m : memory) (level : LogLevel) (fmt : Z) (args : list Z) (s : state) :
    option state :=
  vprintk m fmt args (put_all (level_prefix level) s).

(** Putting out a text appends it to what every console has been given. *)
Lemma put_all_seen text s : NoDup (consoles s) ->
  consoles (put_all text s) = consoles s /\
  forall d, seen (put_all text s) d = seen s d ++ (if decide (d ∈ consoles s) then text else []).
Proof.
  revert s. induction text as [|c text IH]; intros s Hn; cbn [put_all fold_left].
  - split; [done|]. intros d. case_decide; by rewrite app_nil_r.
  - change (fold_left console_put text (console_put s c)) with (put_all text (console_put s c)).
    destruct (IH (console_put s c) Hn) as [H1 H2]. split; [done|]. intros d.
    rewrite H2, seen_put by done. cbn [console_put consoles]. rewrite <- app_assoc. by case_decide.
Qed.

(** ** Numbers *)

(** Reading digits back. *)
Definition digit_value (c : Z) : Z :=
  if c <? 58 then c - 48 else if c <? 97 then c - 55 else c - 87.

Definition value_of (base : Z) (text : list Z) : Z :=
  fold_left (fun v c => v * base + digit_value c) text 0.

Lemma digit_value_digit up d : 0 <= d < 16 -> digit_value (digit up d) = d.
Proof.
  intros Hd. unfold digit, digit_value. destruct (Z.ltb_spec d 10).
  - destruct (Z.ltb_spec (48 + d) 58); lia.
  - destruct up.
    + destruct (Z.ltb_spec (65 + (d - 10)) 58); [lia|].
      destruct (Z.ltb_spec (65 + (d - 10)) 97); lia.
    + destruct (Z.ltb_spec (97 + (d - 10)) 58); [lia|].
      destruct (Z.ltb_spec (97 + (d - 10)) 97); lia.
Qed.

Lemma value_of_app base a b : value_of base (a ++ b)
  = value_of base a * base ^ Z.of_nat (length b) + value_of base b.
Proof.
  unfold value_of. rewrite fold_left_app. generalize (fold_left (fun v c => v * base + digit_value c) a 0).
  intros v. revert v. induction b as [|x b IH] using rev_ind; intros v; [simpl; lia|].
  rewrite !fold_left_app, IH, length_app. cbn [fold_left length].
  rewrite Nat.add_1_r, Nat2Z.inj_succ, Z.pow_succ_r by lia. lia.
Qed.

(** A text that could have been typed: no leading zero. *)
Definition canonical (text : list Z) : Prop := text <> [] /\ (hd 0 text = 48 -> length text = 1%nat).

Lemma digits_loop_spec fuel value base up index buffer :
  2 <= base <= 16 -> 0 <= value < base ^ index -> 1 <= index <= Z.of_nat fuel ->
  exists text, digits_loop fuel value base up index buffer = Some (text ++ buffer) /\
    value_of base text = value /\ canonical text /\ Z.of_nat (length text) <= index /\
    Forall (fun c => exists d, 0 <= d < base /\ c = digit up d) text.
Proof.
  intros Hb. revert value index buffer. induction fuel as [|fuel IH]; intros value index buffer Hv Hi; [lia|].
  cbn [digits_loop]. destruct (Z.leb_spec index 0) as [|_]; [lia|].
  pose proof (Z.mod_pos_bound value base ltac:(lia)) as Hm.
  pose proof (Z.div_mod value base ltac:(lia)) as Hdm.
  destruct (Z.eqb_spec (value / base) 0) as [E|E]; cbn [negb].
  - exists [digit up (value mod base)]. split_and!; [done| |done|simpl; lia|].
    + unfold value_of. cbn [fold_left]. rewrite digit_value_digit by lia. lia.
    + constructor; [|constructor]. by exists (value mod base).
  - assert (1 < index) as Hi2.
    { destruct (Z.eq_dec index 1) as [->|]; [|lia]. exfalso. apply E. rewrite Z.pow_1_r in Hv.
      apply Z.div_small. lia. }
    assert (0 <= value / base < base ^ (index - 1)) as Hq.
    { split; [apply Z.div_pos; lia|]. apply Z.div_lt_upper_bound; [lia|].
      rewrite <- Z.pow_succ_r by lia. replace (Z.succ (index - 1)) with index by lia. lia. }
    destruct (IH (value / base) (index - 1) (digit up (value mod base) :: buffer) Hq ltac:(lia))
      as (text & -> & Hval & [Hne Hlead] & Hlen & HF).
    exists (text ++ [digit up (value mod base)]). split_and!.
    + by rewrite <- app_assoc.
    + rewrite value_of_app, Hval. cbn [length]. unfold value_of at 1. cbn [fold_left].
      rewrite digit_value_digit by lia. change (Z.of_nat 1) with 1. lia.
    + split; [by destruct text|]. destruct text as [|c text]; [done|]. cbn [app hd] in *. intros Hz.
      exfalso. apply E. apply Hlead in Hz as Hl. destruct text; [|done].
      rewrite <- Hval. unfold value_of. cbn [fold_left]. rewrite Hz. reflexivity.
    + rewrite length_app. cbn [length]. lia.
    + apply Forall_app. split; [done|]. constructor; [|constructor]. by exists (value mod base).
Qed.

(** Numbers survive printing: for every 64-bit value in base ten or sixteen
    [print_unsigned] stays inside its 24 byte buffer and puts out digits without a
    leading zero that read back as the value. *)
Theorem print_unsigned_roundtrip value base up s :
  0 <= value < 2 ^ 64 -> base = 10 \/ base = 16 ->
  exists text, print_unsigned value base up s = Some (put_all text s) /\
    value_of base text = value /\ canonical text /\
    Forall (fun c => exists d, 0 <= d < base /\ c = digit up d) text.
Proof.
  intros Hv Hb. unfold print_unsigned, buffer_size.
  destruct (digits_loop_spec (S (Z.to_nat 24)) value base up 24 []) as (text & -> & H1 & H2 & _ & H3).
  - lia.
  - destruct Hb as [->| ->]; [change (10 ^ 24) with 1000000000000000000000000|
      change (16 ^ 24) with 79228162514264337593543950336]; change (2 ^ 64) with 18446744073709551616 in Hv; lia.
  - lia.
  - exists text. rewrite app_nil_r. by split_and!.
Qed.

Lemma print_unsigned_roundtrip_witness :
  exists text, print_unsigned 255 16 true (mk [7] []) = Some (put_all text (mk [7] [])) /\
    value_of 16 text = 255 /\ canonical text /\
    Forall (fun c => exists d, 0 <= d < 16 /\ c = digit true d) text.
Proof. apply (print_unsigned_roundtrip 255 16 true (mk [7] [])); [lia|by right]. Defined.

(** A text without [%] is put out as it is, whatever the arguments. *)
Lemma vprintk_loop_text fuel m p bs args s :
  cstring m p bs -> Forall (fun c => c <> 37) bs -> (length bs < fuel)%nat ->
  vprintk_loop fuel m p args s = Some (put_all bs s).
Proof.
  revert fuel p s. induction bs as [|b bs IH]; intros [|fuel] p s Hc Hn Hf; try (simpl in Hf; lia).
  - cbn [vprintk_loop]. rewrite (cstring_head _ _ _ Hc). reflexivity.
  - cbn [vprintk_loop]. rewrite (cstring_head _ _ _ Hc). cbn [mbind option_bind hd].
    assert (b <> 0) as Hb by (destruct Hc as [_ Hz]; by inversion Hz).
    apply Forall_cons in Hn as [Hb37 Hn].
    rewrite (proj2 (Z.eqb_neq b 0)), (proj2 (Z.eqb_neq b 37)) by done. cbn [negb].
    rewrite (IH fuel (p + 1)); [done|by eapply cstring_tail|done|]. rewrite length_cons in Hf. lia.
Qed.

(** Negative numbers: for every 64-bit signed value, the most negative included,
    [print_signed] puts out the sign and then the digits of the magnitude. *)
Theorem print_signed_correct value s :
  - 2 ^ 63 <= value < 2 ^ 63 ->
  exists text, print_signed value s = Some (put_all (if value <? 0 then 45 :: text else text) s) /\
    value_of 10 text = Z.abs value /\ canonical text.
Proof.
  intros Hv. unfold print_signed.
  assert (forall v s, 0 <= v < 2 ^ 64 -> exists text,
    print_unsigned v 10 false s = Some (put_all text s) /\ value_of 10 text = v /\ canonical text) as Hu.
  { intros v s0 H. unfold print_unsigned, buffer_size.
    destruct (digits_loop_spec (S (Z.to_nat 24)) v 10 false 24 []) as (text & -> & H1 & H2 & _); [lia| |lia|].
    - change (10 ^ 24) with 1000000000000000000000000. lia.
    - exists text. rewrite app_nil_r. by split_and!. }
  destruct (Z.ltb_spec value 0) as [Hlt|Hge].
  - assert (u64 (0 - u64 value) = - value) as ->.
    { unfold u64, wrap. change (2 ^ 63) with 9223372036854775808 in Hv.
      change (2 ^ 64) with 18446744073709551616. dlia. }
    destruct (Hu (- value) (console_put s 45) ltac:(lia)) as (text & -> & H1 & H2).
    exists text. split_and!; [done|lia|done].
  - rewrite u64_small by lia. destruct (Hu value s ltac:(lia)) as (text & -> & H1 & H2).
    exists text. split_and!; [done|lia|done].
Qed.

Lemma print_signed_correct_witness :
  exists text, print_signed (- 2 ^ 63) (mk [7] []) = Some (put_all (45 :: text) (mk [7] [])) /\
    value_of 10 text = 2 ^ 63 /\ canonical text.
Proof. apply (print_signed_correct (- 2 ^ 63) (mk [7] [])). lia. Defined.
