(* ===== verification/User.v ===== *)
(** * User programs (src/user)

    The arithmetic of the programs: the number printing of the library every program
    gets, and the sum spin.c checks itself with. *)

From S2P Require Import Prelude Printk.

(** ** [print_number] (eris.h) *)

Definition digits_size : nat := 24.

(** [while (value > 0 && index > 0)]: [index] places are left in front of [out].  A
    64-bit value has at most 20 digits; the fuel is the number of places. *)
Fixpoint number_loop (index : nat) (value : Z) (out : list Z) : list Z :=
  match index with
  | O => out
  | S index => if 0 <? value then number_loop index (value / 10) (48 + value mod 10 :: out) else out
  end.

(** The text handed to [print], without its terminator, which takes the last place. *)
Definition print_number (value : Z) : list Z :=
  if value =? 0 then [48] else number_loop (digits_size - 1) value [].

Lemma number_loop_spec n : forall value out, 0 <= value < 10 ^ Z.of_nat n ->
  exists text, number_loop n value out = text ++ out /\ value_of 10 text = value /\
    Forall (fun c => 48 <= c <= 57) text /\ (value = 0 -> text = []) /\ (value <> 0 -> hd 48 text <> 48).
Proof.
  induction n as [|n IH]; intros value out Hv; cbn [number_loop].
  { exists []. cbn in Hv. split_and!; [done|cbn; lia|constructor|done|lia]. }
  destruct (Z.ltb_spec 0 value) as [Hp|Hz]; [|exists []; split_and!; [done|cbn; lia|constructor|done|lia]].
  rewrite Nat2Z.inj_succ, Z.pow_succ_r in Hv by lia.
  destruct (IH (value / 10) (48 + value mod 10 :: out)) as (text & -> & Hval & Hd & Hz & Hh); [dlia|].
  exists (text ++ [48 + value mod 10]). split_and!; [by rewrite <- app_assoc| | |lia|].
  - rewrite value_of_app, Hval. cbn [length]. change (Z.of_nat 1) with 1. unfold value_of. cbn [fold_left].
    assert (digit_value (48 + value mod 10) = value mod 10) as ->; [|dlia].
    unfold digit_value. assert (0 <= value mod 10 < 10) by dlia. destruct (Z.ltb_spec (48 + value mod 10) 58); lia.
  - apply Forall_app. split; [done|]. constructor; [dlia|constructor].
  - intros _. destruct (decide (value / 10 = 0)) as [E|E].
    + rewrite (Hz E). cbn. dlia.
    + specialize (Hh E). destruct text; [done|exact Hh].
Qed.

(** Every 64-bit number fits the 24 byte buffer and is printed as its decimal digits
    without a leading zero, so the digits read back as the number. *)
Theorem print_number_roundtrip value : 0 <= value < 2 ^ 64 ->
  value_of 10 (print_number value) = value /\ Forall (fun c => 48 <= c <= 57) (print_number value) /\
  (value <> 0 -> hd 48 (print_number value) <> 48) /\ (length (print_number value) <= 20)%nat.
Proof.
  intros Hv. unfold print_number. destruct (Z.eqb_spec value 0) as [->|Hne].
  { split_and!; [done|by repeat constructor|done|cbn; lia]. }
  assert (number_loop (digits_size - 1) value [] = number_loop 20 value []) as ->.
  { change (digits_size - 1)%nat with (3 + 20)%nat. generalize (@nil Z). cut (0 <= value < 10 ^ Z.of_nat 20); [|cbn; lia].
    generalize 20%nat. clear. intros n. revert value. induction n as [|n IH]; intros value Hv l.
    - cbn in Hv. assert (value = 0) as -> by lia. done.
    - replace (3 + S n)%nat with (S (3 + n)) by lia. cbn [number_loop]. destruct (0 <? value); [|done].
      apply IH. rewrite Nat2Z.inj_succ, Z.pow_succ_r in Hv by lia. dlia. }
  destruct (number_loop_spec 20 value []) as (text & E & H1 & H2 & _ & H3); [cbn; lia|]. rewrite E, app_nil_r. split_and!; [done|done|by apply H3|].
  assert (forall n v l, (length (number_loop n v l) <= n + length l)%nat) as Hlen.
  { clear. induction n as [|n IH]; intros v l; cbn [number_loop]; [lia|]. destruct (0 <? v); [|lia].
    etransitivity; [apply IH|]. cbn. lia. }
  specialize (Hlen 20%nat value []). rewrite E, app_nil_r in Hlen. cbn in Hlen. lia.
Qed.

Lemma print_number_roundtrip_witness : value_of 10 (print_number (2 ^ 64 - 1)) = 2 ^ 64 - 1.
Proof. apply (print_number_roundtrip (2 ^ 64 - 1)). lia. Defined.

(** ** spin.c *)

Definition rounds : Z := 40000000.
Definition expected : Z := 120000000.

(** [for (u64 i = 1; i <= n; ++i) sum += i % 7;] *)
Definition spin_sum (n : Z) : Z := for_z 1 (n + 1) (fun i sum => u64 (sum + i mod 7)) 0.

Definition spin_main : Z := if negb (spin_sum rounds =? expected) then 1 else 0.

Lemma spin_sum_closed n : 0 <= n < 2 ^ 59 -> spin_sum n = 21 * (n / 7) + (n mod 7) * (n mod 7 + 1) / 2.
Proof.
  intros Hn. unfold spin_sum. replace n with (n + 1 - 1) at 2 3 4 by lia.
  apply (for_z_ind (fun i s => s = 21 * ((i - 1) / 7) + ((i - 1) mod 7) * ((i - 1) mod 7 + 1) / 2)); [lia|done|].
  intros i s Hi ->. replace (i + 1 - 1) with i by lia.
  assert (0 <= (i - 1) mod 7 < 7) as Hr by dlia. pose proof (Z.div_mod (i - 1) 7 ltac:(lia)) as Hd.
  assert (i mod 7 = ((i - 1) mod 7 + 1) mod 7 /\ i / 7 = (i - 1) / 7 + ((i - 1) mod 7 + 1) / 7) as [-> ->].
  { generalize dependent ((i - 1) mod 7). generalize ((i - 1) / 7). intros q r Hr Hd. dlia. }
  assert (0 <= (i - 1) / 7 < 2 ^ 57) as Hq by dlia.
  generalize dependent ((i - 1) mod 7). generalize dependent ((i - 1) / 7). intros q Hq r Hr _.
  assert (r = 0 \/ r = 1 \/ r = 2 \/ r = 3 \/ r = 4 \/ r = 5 \/ r = 6) as Hc by lia.
  repeat destruct Hc as [->|Hc]; subst;
    repeat (match goal with |- context [?a mod 7] => let v := eval compute in (a mod 7) in change (a mod 7) with v end);
    rewrite u64_small; dlia.
Qed.

(** The sum spin.c computes is the constant it compares with, so a run that no
    interrupt disturbed exits with 0. *)
Theorem spin_exits_zero : spin_main = 0.
Proof. unfold spin_main. rewrite spin_sum_closed by (unfold rounds; lia). reflexivity. Qed.
