(* ===== verification/WorkQueue.v ===== *)
(** * Deferred work (src/kernel/lib/work.cpp)

    A ring of 64 slots filled by interrupt handlers and emptied by a thread.  Both
    critical sections run under [queue_lock], so each is one atomic step; [W] is the
    rest of the kernel, which [WaitQueue::wake_all] and the work functions change. *)

From S2P Require Import Prelude.

Definition queue_size : Z := 64.

(** [struct Item]: a function and its context, as addresses. *)
Record Item := mkItem { function : Z; context : Z }.

Record state := mk { queue : list Item; head : Z; tail : Z; dropped : Z }.

Definition initial : state := mk (replicate 64 (mkItem 0 0)) 0 0 0.

Section work.
  Context {W : Type} (wake_all : W -> W) (call : Item -> state * W -> state * W).

Definition schedule_work (function context : Z) (sw : state * W) : bool * (state * W) :=
  let '(s, w) := sw in
  if function =? 0 then (false, (s, w))
  else
    let next := (tail s + 1) mod queue_size in
    if next =? head s
    then (false, (mk (queue s) (head s) (tail s) (u64 (dropped s + 1)), w))
    else
      let queue := <[Z.to_nat (tail s) := mkItem function context]> (queue s) in
      (true, (mk queue (head s) next (dropped s), wake_all w)).

(** The locked part of one turn of [work_run_pending]: the item taken, if any.
    [None] outside is a read past the ring. *)
Definition take_item (s : state) : option (option Item * state) :=
  if head s =? tail s then Some (None, s)
  else
    item ← queue s !! Z.to_nat (head s);
    Some (Some item, mk (queue s) ((head s + 1) mod queue_size) (tail s) (dropped s)).

(** The loop has no bound of its own: work may schedule more work. *)
Fixpoint work_run_pending (fuel : nat) (sw : state * W) : option (state * W) :=
  match fuel with
  | O => None
  | S fuel' =>
    '(r, s) ← take_item (sw.1);
    match r with
    | None => Some (s, sw.2)
    | Some item => work_run_pending fuel' (call item (s, sw.2))
    end
  end.

End work.

Definition work_pending (s : state) : Z :=
  if head s <=? tail s then tail s - head s else queue_size - head s + tail s.

Definition work_dropped (s : state) : Z := dropped s.

(** ** Refinement to a bounded queue *)

Record wf (s : state) : Prop := {
  wf_length : length (queue s) = 64%nat;
  wf_head : 0 <= head s < 64;
  wf_tail : 0 <= tail s < 64
}.

Definition slot (s : state) (i : Z) : Item := nth (Z.to_nat (i mod queue_size)) (queue s) (mkItem 0 0).

(** The items waiting, oldest first. *)
Definition contents (s : state) : list Item :=
  (fun k => slot s (head s + k)) <$> seqZ 0 (work_pending s).

Lemma initial_wf : wf initial.
Proof. constructor; [reflexivity|simpl; lia..]. Qed.

Lemma work_pending_mod s : wf s -> work_pending s = (tail s - head s) mod 64.
Proof.
  intros [_ Hh Ht]. unfold work_pending, queue_size.
  destruct (Z.leb_spec (head s) (tail s)); dlia.
Qed.

Lemma work_pending_bound s : wf s -> 0 <= work_pending s < 64.
Proof. intros Hw. rewrite work_pending_mod by done. dlia. Qed.

Lemma contents_length s : wf s -> Z.of_nat (length (contents s)) = work_pending s.
Proof.
  intros Hw. unfold contents. rewrite length_fmap, length_seqZ.
  pose proof (work_pending_bound s Hw). lia.
Qed.

(** The ring is full exactly when 63 items wait. *)
Lemma full_pending s : wf s ->
  ((tail s + 1) mod queue_size =? head s) = (work_pending s =? 63).
Proof.
  intros Hw. rewrite work_pending_mod by done. destruct Hw as [_ Hh Ht]. unfold queue_size.
  apply eq_true_iff_eq. rewrite !Z.eqb_eq. dlia.
Qed.

Lemma push_spec s item : wf s -> work_pending s < 63 ->
  let s' := mk (<[Z.to_nat (tail s) := item]> (queue s)) (head s) ((tail s + 1) mod queue_size) (dropped s) in
  wf s' /\ contents s' = contents s ++ [item].
Proof.
  intros Hw Hp s'. pose proof (work_pending_mod s Hw) as E. pose proof (work_pending_bound s Hw) as Hb.
  assert (wf s') as Hw'.
  { destruct Hw as [Hl Hh Ht]. constructor; cbn [queue head tail s'].
    - by rewrite length_insert.
    - done.
    - unfold queue_size. dlia. }
  split; [done|].
  assert (work_pending s' = work_pending s + 1) as E'.
  { rewrite (work_pending_mod s' Hw'), E. rewrite E in Hp. destruct Hw as [_ Hh Ht].
    cbn [head tail s']. unfold queue_size. dlia. }
  unfold contents. rewrite E', seqZ_app by lia. rewrite fmap_app. cbn [seqZ fmap list_fmap].
  rewrite (seqZ_cons (0 + work_pending s) 1), (seqZ_nil _ (Z.pred 1)) by lia. cbn [fmap list_fmap].
  destruct Hw as [Hl Hh Ht]. f_equal.
  - apply list_fmap_ext. intros k i Hk. apply lookup_seqZ in Hk as [-> Hk].
    unfold slot. cbn [head queue s']. rewrite !nth_lookup, list_lookup_insert_ne; [done|].
    unfold queue_size. intros Heq. apply (f_equal Z.of_nat) in Heq.
    rewrite !Z2Nat.id in Heq by dlia. dlia.
  - f_equal. unfold slot. cbn [head queue s'].
    assert ((head s + (0 + work_pending s)) mod queue_size = tail s) as -> by (unfold queue_size; dlia).
    rewrite nth_lookup, list_lookup_insert_eq by lia. done.
Qed.

Lemma take_spec s : wf s ->
  match contents s with
  | [] => take_item s = Some (None, s)
  | item :: rest =>
    exists s', take_item s = Some (Some item, s') /\ wf s' /\ contents s' = rest /\ dropped s' = dropped s
  end.
Proof.
  intros Hw. pose proof (work_pending_mod s Hw) as E. pose proof (work_pending_bound s Hw) as Hb.
  destruct Hw as [Hl Hh Ht]. unfold take_item, contents.
  destruct (Z.eqb_spec (head s) (tail s)) as [Heq|Hne].
  { assert (work_pending s = 0) as -> by (rewrite E, Heq, Z.sub_diag; done). reflexivity. }
  assert (0 < work_pending s) as Hpos by dlia.
  rewrite seqZ_cons by lia. cbn [fmap list_fmap].
  destruct (lookup_lt_is_Some_2 (queue s) (Z.to_nat (head s))) as [item Hi]; [lia|].
  rewrite Hi. cbn [mbind option_bind].
  assert (slot s (head s + 0) = item) as ->.
  { unfold slot, queue_size. rewrite Z.add_0_r, Z.mod_small, nth_lookup, Hi by lia. done. }
  eexists. split; [reflexivity|].
  set (s' := mk _ _ _ _). assert (wf s') as Hw'.
  { constructor; cbn; [done| |done]. unfold queue_size. dlia. }
  split_and!; [done| |done].
  assert (work_pending s' = work_pending s - 1) as E'.
  { rewrite (work_pending_mod s' Hw'), E. cbn [head tail s']. unfold queue_size. dlia. }
  rewrite E'. replace (Z.pred (work_pending s)) with (work_pending s - 1) by lia.
  apply list_eq. intros k. rewrite !list_lookup_fmap.
  destruct (decide (Z.of_nat k < work_pending s - 1)) as [Hk|Hk].
  - rewrite (proj2 (lookup_seqZ 0 _ k (0 + Z.of_nat k))), (proj2 (lookup_seqZ (Z.succ 0) _ k (Z.succ 0 + Z.of_nat k))) by lia.
    cbn [fmap option_fmap option_map]. f_equal. unfold slot. cbn [queue head s']. do 2 f_equal.
    unfold queue_size. rewrite Zplus_mod_idemp_l. f_equal. lia.
  - rewrite !lookup_seqZ_ge by lia. done.
Qed.

(** ** The queue under any interleaving of producers and the worker *)

Inductive event := Accepted (i : Item) | Refused | Executed (i : Item).

Inductive step : state -> event -> state -> Prop :=
  | step_accept s f c s' :
      schedule_work (W:=unit) id f c (s, tt) = (true, (s', tt)) -> step s (Accepted (mkItem f c)) s'
  | step_refuse s f c s' :
      f <> 0 -> schedule_work (W:=unit) id f c (s, tt) = (false, (s', tt)) -> step s Refused s'
  | step_execute s i s' : take_item s = Some (Some i, s') -> step s (Executed i) s'.

Inductive run : state -> list event -> state -> Prop :=
  | run_nil s : run s [] s
  | run_snoc s es s' e s'' : run s es s' -> step s' e s'' -> run s (es ++ [e]) s''.

Definition accepted (es : list event) : list Item :=
  omap (fun e => match e with Accepted i => Some i | _ => None end) es.
Definition executed (es : list event) : list Item :=
  omap (fun e => match e with Executed i => Some i | _ => None end) es.
Definition refusals (es : list event) : Z :=
  Z.of_nat (length (List.filter (fun e => match e with Refused => true | _ => false end) es)).

Lemma schedule_inv s f c b s' : wf s -> schedule_work (W:=unit) id f c (s, tt) = (b, (s', tt)) ->
  wf s' /\
  if b then f <> 0 /\ work_pending s < 63 /\ contents s' = contents s ++ [mkItem f c] /\ dropped s' = dropped s
  else (f = 0 /\ s' = s) \/
       (f <> 0 /\ work_pending s = 63 /\ contents s' = contents s /\ dropped s' = u64 (dropped s + 1)).
Proof.
  intros Hw. pose proof (work_pending_bound s Hw) as Hb. unfold schedule_work.
  destruct (Z.eqb_spec f 0) as [->|Hf].
  { intros [= <- <-]. split; [done|]. by left. }
  rewrite full_pending by done. destruct (Z.eqb_spec (work_pending s) 63) as [E|E]; intros [= <- <-].
  - split; [by destruct Hw|]. right. done.
  - destruct (push_spec s (mkItem f c) Hw ltac:(lia)) as [H1 H2]. split; [done|].
    split_and!; [done|lia|done|done].
Qed.

(** C25: Work is neither lost, duplicated nor reordered: under any interleaving of
    producers and the worker, the accepted items are exactly the executed ones, in
    order, followed by those still queued; no more than 63 wait, [work_pending]
    counts them, and [work_dropped] counts the refusals. *)
Theorem work_fifo es s :
  run initial es s ->
  accepted es = executed es ++ contents s /\
  work_pending s = Z.of_nat (length (contents s)) /\ (length (contents s) <= 63)%nat /\
  work_dropped s = u64 (refusals es).
Proof.
  intros Hr. enough (wf s /\ accepted es = executed es ++ contents s /\ dropped s = u64 (refusals es)) as (Hw & H1 & H2).
  { pose proof (contents_length s Hw). pose proof (work_pending_bound s Hw). split_and!; [done|lia|lia|done]. }
  remember initial as s0 eqn:E0. induction Hr as [s|s es s1 e s2 Hr IH Hs]; subst.
  { split_and!; [apply initial_wf|done|done]. }
  destruct (IH eq_refl) as (Hw & H1 & H2). clear IH Hr.
  unfold accepted, executed, refusals in *. rewrite !omap_app, List.filter_app, length_app.
  destruct Hs as [s f c s' E|s f c s' Hf E|s i s' E].
  - apply schedule_inv in E as (Hw' & _ & _ & E1 & E2); [|done]. split; [done|].
    cbn [omap list_omap List.filter length]. rewrite app_nil_r, H1, E1, app_assoc, Nat.add_0_r. by rewrite E2.
  - apply schedule_inv in E as (Hw' & [[? _]|(_ & _ & E1 & E2)]); [done| |done]. split; [done|].
    cbn [omap list_omap List.filter length]. rewrite !app_nil_r, H1, E1. split; [done|].
    rewrite E2, H2, Nat2Z.inj_add. unfold u64, wrap. change (Z.of_nat 1) with 1.
    by rewrite Zplus_mod_idemp_l.
  - pose proof (take_spec s Hw) as Ht. destruct (contents s) as [|i' rest] eqn:Ec; [congruence|].
    destruct Ht as (s1 & E1 & Hw1 & E2 & E3). rewrite E in E1. injection E1 as -> <-.
    split; [done|]. cbn [omap list_omap List.filter length].
    rewrite app_nil_r, H1, E2, Nat.add_0_r, E3. split; [|done]. by rewrite <- app_assoc.
Qed.

Lemma work_fifo_witness :
  exists s, run initial [Accepted (mkItem 1 2); Accepted (mkItem 3 4); Executed (mkItem 1 2)] s /\
    contents s = [mkItem 3 4].
Proof.
  assert (exists s, run initial [Accepted (mkItem 1 2); Accepted (mkItem 3 4); Executed (mkItem 1 2)] s) as [s Hs].
  { eexists. eapply (run_snoc _ [_; _]).
    - eapply (run_snoc _ [_]).
      + eapply (run_snoc _ []); [constructor|constructor; reflexivity].
      + constructor; reflexivity.
    - constructor; reflexivity. }
  exists s. split; [done|]. destruct (work_fifo _ _ Hs) as [H _]. simpl in H. congruence.
Defined.

(** ** Draining *)

Lemma run_pending_drain {W : Type} (f : Item -> W -> W) fuel s w :
  wf s -> (length (contents s) < fuel)%nat ->
  exists s', work_run_pending (fun i sw => (sw.1, f i sw.2)) fuel (s, w)
      = Some (s', fold_left (fun w i => f i w) (contents s) w) /\
    wf s' /\ contents s' = [].
Proof.
  revert s w. induction fuel as [|fuel IH]; intros s w Hw Hf; [lia|].
  cbn [work_run_pending fst snd]. pose proof (take_spec s Hw) as Ht.
  destruct (contents s) as [|i rest] eqn:Ec.
  - rewrite Ht. exists s. done.
  - destruct Ht as (s1 & -> & Hw1 & E1 & _). cbn [mbind option_bind fst snd].
    rewrite length_cons in Hf. destruct (IH s1 (f i w) Hw1) as (s' & E & H1 & H2); [rewrite E1; lia|].
    exists s'. rewrite E, E1. done.
Qed.

(** The worker drains the queue: when the work functions schedule nothing themselves,
    [work_run_pending] returns after at most 64 turns, has called every waiting item
    once in the order they were scheduled, and leaves nothing pending. *)
Theorem work_run_pending_drains {W : Type} (f : Item -> W -> W) s w :
  wf s ->
  exists s', work_run_pending (fun i sw => (sw.1, f i sw.2)) 64 (s, w)
      = Some (s', fold_left (fun w i => f i w) (contents s) w) /\ work_pending s' = 0.
Proof.
  intros Hw. pose proof (contents_length s Hw). pose proof (work_pending_bound s Hw).
  destruct (run_pending_drain f 64 s w Hw) as (s' & E & Hw' & E'); [lia|].
  exists s'. split; [done|]. by rewrite <- contents_length, E'.
Qed.

Lemma work_run_pending_drains_witness :
  exists s', work_run_pending (fun i sw => (sw.1, sw.2 ++ [context i])) 64
      (mk (mkItem 1 7 :: mkItem 2 8 :: replicate 62 (mkItem 0 0)) 0 2 0, [])
    = Some (s', [7; 8]) /\ work_pending s' = 0.
Proof.
  apply (work_run_pending_drains (fun i w => w ++ [context i])
    (mk (mkItem 1 7 :: mkItem 2 8 :: replicate 62 (mkItem 0 0)) 0 2 0) []).
  constructor; [reflexivity|simpl; lia..].
Defined.
