(* ===== verification/Acpi.v ===== *)
(** * The firmware tables (src/kernel/acpi/tables.cpp, src/include/eris/acpi.hpp)

    The tables are read out of physical memory, which is mapped one to one; a read of
    an address that is not mapped is [None].  The list [cpu_apic_ids] is the used part
    of the array, its length is [cpus]. *)

From S2P Require Import Prelude Memory Multiboot.

Definition sizeof_Rsdp : Z := 36.
Definition sizeof_TableHeader : Z := 36.
Definition sizeof_Madt : Z := 44.
Definition sizeof_MadtEntry : Z := 2.
Definition max_irqs : Z := 16.
Definition max_cpus : nat := 64.

(** [TableHeader::length], the fields of [Rsdp], [Madt] and [HpetTable]. *)
Definition header_length (m : memory) (table : Z) : option Z := rd32 m (table + 4).
Definition rsdp_revision (m : memory) (rsdp : Z) : option Z := m !! (rsdp + 15).
Definition rsdp_rsdt_address (m : memory) (rsdp : Z) : option Z := rd32 m (rsdp + 16).
Definition rsdp_xsdt_address (m : memory) (rsdp : Z) : option Z := rd64 m (rsdp + 24).
Definition madt_local_apic_address (m : memory) (madt : Z) : option Z := rd32 m (madt + 36).
Definition hpet_table_address (m : memory) (hpet : Z) : option Z := rd64 m (hpet + 44).

Record state := mk {
  present : bool; root : Z; root_is_xsdt : bool; root_entries : Z;
  lapic_address : Z; ioapic_address : Z; ioapic_gsi_base : Z; hpet_base : Z;
  cpu_apic_ids : list Z; irq_to_gsi : list Z; irq_low : list bool; irq_level : list bool }.

Definition initial : state := mk false 0 false 0 0 0 0 0 [] (replicate 16 0) (replicate 16 false) (replicate 16 false).

Definition set_irqs (gsis : list Z) (low level : list bool) (s : state) : state :=
  mk (present s) (root s) (root_is_xsdt s) (root_entries s) (lapic_address s) (ioapic_address s) (ioapic_gsi_base s) (hpet_base s)
     (cpu_apic_ids s) gsis low level.
Definition set_cpus (ids : list Z) (s : state) : state :=
  mk (present s) (root s) (root_is_xsdt s) (root_entries s) (lapic_address s) (ioapic_address s) (ioapic_gsi_base s) (hpet_base s)
     ids (irq_to_gsi s) (irq_low s) (irq_level s).
Definition set_ioapic (address gsi_base : Z) (s : state) : state :=
  mk (present s) (root s) (root_is_xsdt s) (root_entries s) (lapic_address s) address gsi_base (hpet_base s)
     (cpu_apic_ids s) (irq_to_gsi s) (irq_low s) (irq_level s).
Definition set_lapic (address : Z) (s : state) : state :=
  mk (present s) (root s) (root_is_xsdt s) (root_entries s) address (ioapic_address s) (ioapic_gsi_base s) (hpet_base s)
     (cpu_apic_ids s) (irq_to_gsi s) (irq_low s) (irq_level s).
Definition set_root (r : Z) (xsdt : bool) (entries : Z) (s : state) : state :=
  mk (present s) r xsdt entries (lapic_address s) (ioapic_address s) (ioapic_gsi_base s) (hpet_base s)
     (cpu_apic_ids s) (irq_to_gsi s) (irq_low s) (irq_level s).
Definition set_hpet (base : Z) (s : state) : state :=
  mk (present s) (root s) (root_is_xsdt s) (root_entries s) (lapic_address s) (ioapic_address s) (ioapic_gsi_base s) base
     (cpu_apic_ids s) (irq_to_gsi s) (irq_low s) (irq_level s).
Definition set_present (s : state) : state :=
  mk true (root s) (root_is_xsdt s) (root_entries s) (lapic_address s) (ioapic_address s) (ioapic_gsi_base s) (hpet_base s)
     (cpu_apic_ids s) (irq_to_gsi s) (irq_low s) (irq_level s).

(** The loop of [checksum_ok]. *)
Fixpoint byte_sum (n : nat) (m : memory) (a sum : Z) : option Z :=
  match n with
  | O => Some sum
  | S n => b ← m !! a; byte_sum n m (a + 1) (u8 (sum + b))
  end.

Definition checksum_ok (m : memory) (table length : Z) : option bool :=
  sum ← byte_sum (Z.to_nat length) m table 0; Some (sum =? 0).

(** [memcmp(a, "...", n) == 0] against a literal; it stops at the first difference. *)
Fixpoint matches (m : memory) (a : Z) (text : list Z) : option bool :=
  match text with
  | [] => Some true
  | t :: text => b ← m !! a; if b =? t then matches m (a + 1) text else Some false
  end.

Definition rsdp_signature : list Z := [82; 83; 68; 32; 80; 84; 82; 32].
Definition madt_signature : list Z := [65; 80; 73; 67].
Definition hpet_signature : list Z := [72; 80; 69; 84].

(** The loop of [scan_for_rsdp]; 0 is a null pointer. *)
Fixpoint scan_loop (fuel : nat) (m : memory) (address end_ : Z) : option Z :=
  match fuel with
  | O => Some 0
  | S fuel =>
    if address + sizeof_Rsdp <? end_ then
      same ← matches m address rsdp_signature;
      if (same : bool) then
        ok ← checksum_ok m address 20;
        if (ok : bool) then Some address else scan_loop fuel m (address + 16) end_
      else scan_loop fuel m (address + 16) end_
    else Some 0
  end.

(** One turn per 16 bytes of the range. *)
Definition scan_for_rsdp (m : memory) (start end_ : Z) : option Z :=
  scan_loop (Z.to_nat ((end_ - start) / 16 + 1)) m start end_.

Definition find_rsdp (m : memory) : option Z :=
  ebda_segment ← rd16 m 0x40E;
  let ebda := Z.shiftl ebda_segment 4 in
  rsdp ← (if (0x400 <=? ebda) && (ebda <? 0xA0000) then scan_for_rsdp m ebda (ebda + 1024) else Some 0);
  if negb (rsdp =? 0) then Some rsdp else scan_for_rsdp m 0xE0000 0x100000.

Definition entry_at (m : memory) (s : state) (index : Z) : option Z :=
  let base := root s + sizeof_TableHeader in
  if root_is_xsdt s then rd64 m (base + index * 8) else rd32 m (base + index * 4).

Fixpoint find_loop (n : nat) (i : Z) (m : memory) (s : state) (signature : list Z) : option Z :=
  match n with
  | O => Some 0
  | S n =>
    table ← entry_at m s i;
    same ← matches m table signature;
    if (same : bool) then
      length ← header_length m table;
      ok ← checksum_ok m table length;
      if (ok : bool) then Some table else find_loop n (i + 1) m s signature
    else find_loop n (i + 1) m s signature
  end.

Definition find_table (m : memory) (s : state) (signature : list Z) : option Z :=
  if root s =? 0 then Some 0 else find_loop (Z.to_nat (root_entries s)) 0 m s signature.

(** The [switch] of [parse_madt] on one entry. *)
Definition madt_entry (m : memory) (entry type : Z) (s : state) : option state :=
  if type =? 0 then
    flags ← rd32 m (entry + 4);
    if negb (Z.land flags 1 =? 0) && (length (cpu_apic_ids s) <? max_cpus)%nat then
      apic_id ← m !! (entry + 3); Some (set_cpus (cpu_apic_ids s ++ [apic_id]) s)
    else Some s
  else if type =? 1 then
    if ioapic_address s =? 0 then
      address ← rd32 m (entry + 4); gsi_base ← rd32 m (entry + 8); Some (set_ioapic address gsi_base s)
    else Some s
  else if type =? 2 then
    source ← m !! (entry + 3);
    if source <? max_irqs then
      gsi ← rd32 m (entry + 4); flags ← rd16 m (entry + 8);
      let i := Z.to_nat source in
      Some (set_irqs (<[i := gsi]> (irq_to_gsi s)) (<[i := Z.land flags 0x3 =? 0x3]> (irq_low s))
                     (<[i := Z.land flags 0xC =? 0xC]> (irq_level s)) s)
    else Some s
  else Some s.

(** Every turn moves the cursor by two bytes or more. *)
Fixpoint madt_loop (fuel : nat) (m : memory) (cursor end_ : Z) (s : state) : option state :=
  match fuel with
  | O => None
  | S fuel =>
    if cursor + sizeof_MadtEntry <=? end_ then
      type ← m !! cursor; length ← m !! (cursor + 1);
      if length <? sizeof_MadtEntry then Some s
      else s ← madt_entry m cursor type s; madt_loop fuel m (cursor + length) end_ s
    else Some s
  end.

Definition parse_madt (m : memory) (madt : Z) (s : state) : option state :=
  address ← madt_local_apic_address m madt;
  length ← header_length m madt;
  madt_loop (S (Z.to_nat length)) m (madt + sizeof_Madt) (madt + length) (set_lapic address s).

Definition init (m : memory) (s : state) : option (bool * state) :=
  let s := set_irqs (seqZ 0 16) (irq_low s) (irq_level s) s in
  rsdp ← find_rsdp m;
  if rsdp =? 0 then Some (false, s)
  else
    revision ← rsdp_revision m rsdp;
    xsdt ← (if 2 <=? revision then rsdp_xsdt_address m rsdp else Some 0);
    s ← (if (2 <=? revision) && negb (xsdt =? 0) then Some (set_root xsdt true (root_entries s) s)
         else rsdt ← rsdp_rsdt_address m rsdp; Some (set_root rsdt false (root_entries s) s));
    length ← header_length m (root s);
    ok ← checksum_ok m (root s) length;
    if negb ok then Some (false, set_root 0 (root_is_xsdt s) (root_entries s) s)
    else
      let entry_size := if root_is_xsdt s then 8 else 4 in
      let s := set_root (root s) (root_is_xsdt s) (u64 (length - sizeof_TableHeader) / entry_size) s in
      madt ← find_table m s madt_signature;
      s ← (if negb (madt =? 0) then parse_madt m madt s else Some s);
      hpet ← find_table m s hpet_signature;
      s ← (if negb (hpet =? 0) then base ← hpet_table_address m hpet; Some (set_hpet base s) else Some s);
      Some (true, set_present s).

Definition available (s : state) : bool := present s.
Definition local_apic_address (s : state) : Z := lapic_address s.
Definition io_apic_address (s : state) : Z := ioapic_address s.
Definition io_apic_gsi_base (s : state) : Z := ioapic_gsi_base s.
Definition hpet_address (s : state) : Z := hpet_base s.
Definition gsi_for_irq (s : state) (irq : Z) : Z := if irq <? max_irqs then nth (Z.to_nat irq) (irq_to_gsi s) 0 else irq.
Definition irq_active_low (s : state) (irq : Z) : bool := (irq <? max_irqs) && nth (Z.to_nat irq) (irq_low s) false.
Definition irq_level_triggered (s : state) (irq : Z) : bool := (irq <? max_irqs) && nth (Z.to_nat irq) (irq_level s) false.
Definition cpu_apic_id (s : state) (index : nat) : Z := nth index (cpu_apic_ids s) 0.
Definition cpu_count (s : state) : Z := if (length (cpu_apic_ids s) =? 0)%nat then 1 else Z.of_nat (length (cpu_apic_ids s)).

(** ** Properties *)

(** *** Encoded tables *)

(** The [n] little-endian bytes of [v]. *)
Fixpoint le_bytes (n : nat) (v : Z) : list Z :=
  match n with O => [] | S n => v mod 256 :: le_bytes n (v / 256) end.

Lemma le_bytes_length n v : length (le_bytes n v) = n.
Proof. revert v. induction n as [|n IH]; intros v; cbn; [done|]. by rewrite IH. Qed.

Lemma rd_le_bytes n : forall m a v, 0 <= v < 256 ^ Z.of_nat n -> bytes_at m a (le_bytes n v) -> rd_le n m a = Some v.
Proof.
  induction n as [|n IH]; intros m a v Hv Hb; cbn [le_bytes rd_le].
  - f_equal. change (256 ^ Z.of_nat 0) with 1 in Hv. lia.
  - cbn [le_bytes] in Hb. apply bytes_at_cons in Hb as [-> Hb]. cbn [mbind option_bind].
    assert (0 <= v / 256 < 256 ^ Z.of_nat n) as Hd.
    { rewrite Nat2Z.inj_succ, Z.pow_succ_r in Hv by lia. split; [dlia|]. apply Z.div_lt_upper_bound; lia. }
    rewrite (IH m (a + 1) (v / 256) Hd Hb). cbn. f_equal. dlia.
Qed.

Lemma rd32_bytes m a v : 0 <= v < 2 ^ 32 -> bytes_at m a (le_bytes 4 v) -> rd32 m a = Some v.
Proof. intros. apply rd_le_bytes; [|done]. by change (256 ^ Z.of_nat 4) with (2 ^ 32). Qed.
Lemma rd16_bytes m a v : 0 <= v < 2 ^ 16 -> bytes_at m a (le_bytes 2 v) -> rd16 m a = Some v.
Proof. intros. apply rd_le_bytes; [|done]. by change (256 ^ Z.of_nat 2) with (2 ^ 16). Qed.

(** The entries the specification gives a MADT. *)
Inductive item :=
  | LocalApic (processor_id apic_id flags : Z)
  | IoApic (id address gsi_base : Z)
  | Override (bus source gsi flags : Z)
  | Other (type : Z) (body : list Z).

Definition item_bytes (i : item) : list Z :=
  match i with
  | LocalApic p a f => [0; 8; p; a] ++ le_bytes 4 f
  | IoApic d a g => [1; 12; d; 0] ++ le_bytes 4 a ++ le_bytes 4 g
  | Override b s g f => [2; 10; b; s] ++ le_bytes 4 g ++ le_bytes 2 f
  | Other t body => [t; 2 + Z.of_nat (length body)] ++ body
  end.

Definition item_ok (i : item) : Prop :=
  match i with
  | LocalApic p a f => 0 <= f < 2 ^ 32
  | IoApic d a g => 0 <= a < 2 ^ 32 /\ 0 <= g < 2 ^ 32
  | Override b s g f => 0 <= s < 256 /\ 0 <= g < 2 ^ 32 /\ 0 <= f < 2 ^ 16
  | Other t body => 2 < t \/ t < 0
  end.

(** What an entry tells the kernel: enabled processors in order as far as there is
    room, the first I/O APIC, and where a legacy interrupt was moved to. *)
Definition apply_item (s : state) (i : item) : state :=
  match i with
  | LocalApic _ a f => if Z.testbit f 0 && (length (cpu_apic_ids s) <? max_cpus)%nat then set_cpus (cpu_apic_ids s ++ [a]) s else s
  | IoApic _ a g => if ioapic_address s =? 0 then set_ioapic a g s else s
  | Override _ source g f =>
    if source <? max_irqs then
      set_irqs (<[Z.to_nat source := g]> (irq_to_gsi s)) (<[Z.to_nat source := Z.land f 0x3 =? 0x3]> (irq_low s))
               (<[Z.to_nat source := Z.land f 0xC =? 0xC]> (irq_level s)) s
    else s
  | Other _ _ => s
  end.

Lemma item_bytes_head i : exists type rest, item_bytes i = type :: Z.of_nat (length (item_bytes i)) :: rest.
Proof. destruct i; cbn; do 2 eexists; repeat f_equal; lia. Qed.

Lemma madt_entry_correct m entry i s : item_ok i -> bytes_at m entry (item_bytes i) ->
  exists type, m !! entry = Some type /\ m !! (entry + 1) = Some (Z.of_nat (length (item_bytes i))) /\
    madt_entry m entry type s = Some (apply_item s i).
Proof.
  intros Hok Hb. pose proof (item_bytes_head i) as (type & rest & Eh). pose proof Hb as Hb'.
  rewrite Eh in Hb'. apply bytes_at_cons in Hb' as [H0 Hb']. apply bytes_at_cons in Hb' as [H1 _].
  exists type. split; [done|]. split; [done|]. apply (f_equal (hd 0)) in Eh. unfold madt_entry.
  destruct i as [p a f|d a g|b sr g f|t body]; cbn [item_bytes app hd] in *; subst type.
  - assert (bytes_at m (entry + 4) (le_bytes 4 f)) as Hf.
    { do 4 apply bytes_at_cons in Hb as [_ Hb]. by replace (entry + 4) with (entry + 1 + 1 + 1 + 1) by lia. }
    cbn [Z.eqb]. rewrite (rd32_bytes m _ f) by done. cbn [mbind option_bind].
    replace (negb (Z.land f 1 =? 0)) with (Z.testbit f 0) by (rewrite <- (land_bit_testbit f 0) by lia; done).
    cbn [apply_item]. destruct (Z.testbit f 0 && _); [|done].
    assert (m !! (entry + 3) = Some a) as ->; [|done].
    do 3 apply bytes_at_cons in Hb as [_ Hb]. apply bytes_at_cons in Hb as [Ha _]. rewrite <- Ha. f_equal. lia.
  - cbn [Z.eqb]. destruct Hok as [Ha Hg].
    do 4 apply bytes_at_cons in Hb as [_ Hb]. apply bytes_at_app in Hb as [Hba Hbg]. rewrite le_bytes_length in Hbg.
    replace (entry + 1 + 1 + 1 + 1 + Z.of_nat 4) with (entry + 8) in Hbg by lia. replace (entry + 1 + 1 + 1 + 1) with (entry + 4) in Hba by lia.
    rewrite (rd32_bytes m _ a Ha Hba), (rd32_bytes m _ g Hg Hbg). cbn [mbind option_bind apply_item]. by destruct (ioapic_address s =? 0).
  - cbn [Z.eqb]. destruct Hok as (Hs & Hg & Hf).
    do 3 apply bytes_at_cons in Hb as [_ Hb]. apply bytes_at_cons in Hb as [Hbs Hb]. apply bytes_at_app in Hb as [Hbg Hbf]. rewrite le_bytes_length in Hbf.
    replace (entry + 3) with (entry + 1 + 1 + 1) by lia. rewrite Hbs. cbn [mbind option_bind].
    replace (entry + 1 + 1 + 1 + 1 + Z.of_nat 4) with (entry + 8) in Hbf by lia. replace (entry + 1 + 1 + 1 + 1) with (entry + 4) in Hbg by lia.
    rewrite (rd32_bytes m _ g Hg Hbg), (rd16_bytes m _ f Hf Hbf). cbn [mbind option_bind apply_item]. by destruct (sr <? max_irqs).
  - cbn in Hok. rewrite !(proj2 (Z.eqb_neq _ _)) by lia. done.
Qed.

Lemma item_length_ge2 i : (2 <= length (item_bytes i))%nat.
Proof. destruct i; cbn; lia. Qed.

Lemma madt_loop_correct m items : forall fuel cursor s, Forall item_ok items ->
  bytes_at m cursor (concat (item_bytes <$> items)) ->
  Z.of_nat (length (concat (item_bytes <$> items))) < Z.of_nat fuel ->
  madt_loop fuel m cursor (cursor + Z.of_nat (length (concat (item_bytes <$> items)))) s = Some (foldl apply_item s items).
Proof.
  induction items as [|i items IH]; intros fuel cursor s Hok Hb Hf; cbn [fmap list_fmap concat foldl] in *.
  - destruct fuel as [|fuel]; cbn in Hf; [lia|]. cbn [madt_loop length]. by rewrite (proj2 (Z.leb_gt _ _)) by (unfold sizeof_MadtEntry; lia).
  - apply Forall_cons in Hok as [Hi Hok]. apply bytes_at_app in Hb as [Hbi Hb]. pose proof (item_length_ge2 i) as H2.
    rewrite length_app in *. destruct fuel as [|fuel]; [lia|]. cbn [madt_loop].
    rewrite (proj2 (Z.leb_le _ _)) by (unfold sizeof_MadtEntry; lia).
    destruct (madt_entry_correct m cursor i s Hi Hbi) as (type & -> & -> & E). cbn [mbind option_bind].
    rewrite (proj2 (Z.ltb_ge _ _)) by (unfold sizeof_MadtEntry; lia). rewrite E. cbn [mbind option_bind].
    rewrite <- (IH fuel (cursor + Z.of_nat (length (item_bytes i)))); [f_equal; lia|done|done|lia].
Qed.

(** C38: a MADT that encodes a list of entries, of the kinds the kernel knows or of
    others, is parsed to exactly what those entries say: every enabled processor in
    order up to the room there is, the first I/O APIC, and every interrupt override
    with its polarity and trigger mode; the parser returns and reads nothing past the
    table. *)
Theorem madt_roundtrip m madt lapic items s :
  Forall item_ok items -> 0 <= lapic < 2 ^ 32 ->
  let size := sizeof_Madt + Z.of_nat (length (concat (item_bytes <$> items))) in
  size < 2 ^ 32 ->
  bytes_at m (madt + 4) (le_bytes 4 size) -> bytes_at m (madt + 36) (le_bytes 4 lapic) ->
  bytes_at m (madt + sizeof_Madt) (concat (item_bytes <$> items)) ->
  parse_madt m madt s = Some (foldl apply_item (set_lapic lapic s) items).
Proof.
  intros Hok Hl size Hs Hlen Ha Hb. unfold parse_madt, madt_local_apic_address, header_length.
  assert (0 <= size) by (subst size; unfold sizeof_Madt; lia).
  rewrite (rd32_bytes m _ lapic Hl Ha), (rd32_bytes m _ size (conj H Hs) Hlen). cbn [mbind option_bind].
  rewrite <- (madt_loop_correct m items (S (Z.to_nat size)) (madt + sizeof_Madt)); [|done|done|subst size; unfold sizeof_Madt; lia].
  f_equal. subst size. lia.
Qed.

(** Two processors, one of them disabled, an I/O APIC, the timer moved to input 2 and
    an entry of another kind. *)
Definition demo_items : list item :=
  [LocalApic 0 0 1; LocalApic 1 5 0; LocalApic 2 7 3; IoApic 2 0xFEC00000 0; Override 0 0 2 0; Override 0 9 9 0xF; Other 4 [255; 5; 0; 1]].
Definition demo_madt : list Z :=
  [65; 80; 73; 67] ++ le_bytes 4 (44 + 62) ++ [1; 0] ++ replicate 26 0 ++ le_bytes 4 0xFEE00000 ++ le_bytes 4 1 ++ concat (item_bytes <$> demo_items).
Definition demo : memory := Eval vm_compute in place 0x1000 demo_madt.

Definition holds_bytes (m : memory) (a : Z) (bs : list Z) : bool :=
  forallb (fun p => match m !! p.1 with Some b => b =? p.2 | None => false end) (zip (seqZ a (Z.of_nat (length bs))) bs).

Lemma holds_bytes_at m a bs : holds_bytes m a bs = true -> bytes_at m a bs.
Proof.
  unfold holds_bytes. rewrite forallb_forall. intros H i b Hi. pose proof (lookup_lt_Some _ _ _ Hi) as Hl.
  specialize (H (a + Z.of_nat i, b)). cbn in H.
  assert (In (a + Z.of_nat i, b) (zip (seqZ a (Z.of_nat (length bs))) bs)) as Hin.
  { apply list_elem_of_In, list_elem_of_lookup. exists i. rewrite lookup_zip_with, Hi, lookup_seqZ_lt by lia. done. }
  specialize (H Hin). destruct (m !! (a + Z.of_nat i)); [|done]. by apply Z.eqb_eq in H as ->.
Qed.

Lemma madt_roundtrip_witness :
  parse_madt demo 0x1000 initial = Some (foldl apply_item (set_lapic 0xFEE00000 initial) demo_items) /\
  cpu_apic_ids (foldl apply_item (set_lapic 0xFEE00000 initial) demo_items) = [0; 7].
Proof.
  split; [|vm_compute; reflexivity].
  apply (madt_roundtrip demo 0x1000 0xFEE00000 demo_items initial).
  - unfold demo_items. repeat apply Forall_cons_2; try apply Forall_nil_2; cbn; lia.
  - lia.
  - vm_compute. reflexivity.
  - apply holds_bytes_at. vm_compute. reflexivity.
  - apply holds_bytes_at. vm_compute. reflexivity.
  - apply holds_bytes_at. vm_compute. reflexivity.
Defined.

(** *** Finding a table *)

Fixpoint total (bs : list Z) : Z := match bs with [] => 0 | b :: bs => b + total bs end.

Lemma byte_sum_correct m bs : forall a sum, 0 <= sum < 256 -> bytes_at m a bs ->
  byte_sum (length bs) m a sum = Some ((sum + total bs) mod 256).
Proof.
  induction bs as [|b bs IH]; intros a sum Hs Hb; cbn [byte_sum length total].
  - f_equal. rewrite Z.add_0_r. symmetry. by apply Z.mod_small.
  - apply bytes_at_cons in Hb as [-> Hb]. cbn [mbind option_bind]. rewrite IH by (done || auto with eris).
    f_equal. unfold u8, wrap. change (2 ^ 8) with 256. rewrite Zplus_mod_idemp_l. f_equal. lia.
Qed.

Lemma matches_correct m text : forall a bs, bytes_at m a bs -> (length text <= length bs)%nat ->
  matches m a text = Some (bool_decide (take (length text) bs = text)).
Proof.
  induction text as [|t text IH]; intros a bs Hb Hl; [done|]. destruct bs as [|b bs]; cbn [length] in Hl; [lia|].
  apply bytes_at_cons in Hb as [H0 Hb]. cbn [matches length take]. rewrite H0. cbn [mbind option_bind].
  destruct (Z.eqb_spec b t) as [->|Hne].
  - rewrite (IH (a + 1) bs) by (done || lia). f_equal. apply bool_decide_ext. split; [intros E; by f_equal|intros E; by injection E].
  - f_equal. symmetry. apply bool_decide_eq_false. intros E. by injection E.
Qed.

(** A table in memory: its address and its bytes, the header's length field being their
    number. *)
Definition table_at (m : memory) (t : Z * list Z) : Prop :=
  bytes_at m t.1 t.2 /\ (4 <= length t.2)%nat /\ 0 <= Z.of_nat (length t.2) < 2 ^ 32 /\
  bytes_at m (t.1 + 4) (le_bytes 4 (Z.of_nat (length t.2))).

Definition wanted (signature : list Z) (t : Z * list Z) : bool :=
  bool_decide (take (length signature) t.2 = signature) && (total t.2 mod 256 =? 0).

Lemma find_loop_correct m s signature tables : length signature = 4%nat -> forall i,
  Forall (table_at m) tables ->
  (forall k t, tables !! k = Some t -> entry_at m s (i + Z.of_nat k) = Some t.1) ->
  find_loop (length tables) i m s signature = Some (match List.find (wanted signature) tables with Some t => t.1 | None => 0 end).
Proof.
  intros Hsig. induction tables as [|t tables IH]; intros i Ht He; [done|]. cbn [length find_loop List.find].
  apply Forall_cons in Ht as [(Hb & H4 & Hr & Hlen) Ht]. pose proof (He 0%nat t eq_refl) as E0. rewrite Z.add_0_r in E0. rewrite E0. cbn [mbind option_bind].
  rewrite (matches_correct m signature t.1 t.2) by (done || lia). cbn [mbind option_bind]. unfold wanted at 1.
  assert (find_loop (length tables) (i + 1) m s signature = Some (match List.find (wanted signature) tables with Some t => t.1 | None => 0 end)) as IH'.
  { apply IH; [done|]. intros k t' Hk. rewrite <- (He (S k) t' Hk). f_equal. lia. }
  destruct (bool_decide (take (length signature) t.2 = signature)); cbn [andb]; [|exact IH']. unfold header_length. rewrite (rd32_bytes m _ _ Hr Hlen). cbn [mbind option_bind].
  unfold checksum_ok. rewrite Nat2Z.id, (byte_sum_correct m t.2) by (done || lia). cbn [mbind option_bind]. rewrite Z.add_0_l.
  by destruct (total t.2 mod 256 =? 0).
Qed.

(** [find_table] returns the first table the root lists whose signature is the one
    asked for and whose bytes, all of the length its header gives, sum to zero modulo
    256; tables that fail the checksum are skipped, and null is returned when none is
    left. *)
Theorem find_table_correct m s signature tables :
  root s <> 0 -> length signature = 4%nat -> root_entries s = Z.of_nat (length tables) ->
  Forall (table_at m) tables ->
  (forall k t, tables !! k = Some t -> entry_at m s (Z.of_nat k) = Some t.1) ->
  find_table m s signature = Some (match List.find (wanted signature) tables with Some t => t.1 | None => 0 end).
Proof.
  intros Hr Hs Hn Ht He. unfold find_table. rewrite (proj2 (Z.eqb_neq _ _)) by done. rewrite Hn, Nat2Z.id.
  by apply find_loop_correct.
Qed.

(** A root with two tables of the same signature, the first one with a bad checksum. *)
Definition demo_bad : list Z := [65; 80; 73; 67; 9; 0; 0; 0; 1].
Definition demo_good : list Z := [65; 80; 73; 67; 9; 0; 0; 0; 218].
Definition demo_root : memory := Eval vm_compute in
  place 0x2024 (le_bytes 4 0x3000 ++ le_bytes 4 0x3100) ∪ place 0x3000 demo_bad ∪ place 0x3100 demo_good.

Lemma find_table_correct_witness :
  find_table demo_root (set_root 0x2000 false 2 initial) madt_signature = Some 0x3100.
Proof.
  refine (find_table_correct demo_root (set_root 0x2000 false 2 initial) madt_signature [(0x3000, demo_bad); (0x3100, demo_good)] _ _ _ _ _).
  - cbn. lia.
  - reflexivity.
  - reflexivity.
  - repeat apply Forall_cons_2; try apply Forall_nil_2; (split; [apply holds_bytes_at; vm_compute; reflexivity|]); cbn;
      (split; [lia|split; [lia|]]); apply holds_bytes_at; vm_compute; reflexivity.
  - intros [|[|k]] t Hk; [injection Hk as <-; vm_compute; reflexivity|injection Hk as <-; vm_compute; reflexivity|discriminate Hk].
Defined.

(** A short last entry is read past the end of the table: an entry needs only its two
    header bytes to be looked at as a whole structure. *)
Lemma madt_reads_past_table :
  parse_madt (place 0x1004 (le_bytes 4 46 ++ replicate 28 0 ++ replicate 8 0 ++ [0; 2])) 0x1000 initial = None.
Proof. vm_compute. reflexivity. Qed.
