(* ===== verification/Interrupts.v ===== *)
(** * Interrupts (src/kernel/cpu/irq.cpp, pic.cpp, ioapic.cpp, lapic.cpp, idt.cpp,
      and the handlers of loadable modules in src/kernel/module/api.cpp)

    The I/O APIC is a type of chip states with the two accesses of its register window
    ([IoApicChip]); the legacy controller is its two mask registers and the writes made
    to its ports; the local APIC is the writes made to its registers.  A dispatched
    interrupt is the list of things [isr_dispatch] does, in order. *)

From S2P Require Import Prelude Memory Acpi.

(** One access to a controller. *)
Inductive access := Outb (port value : Z) | LapicWrite (offset value : Z) | WriteMsr (msr value : Z).

(** ** The legacy controller (pic.cpp) *)

Definition pic1_command : Z := 0x20.
Definition pic1_data : Z := 0x21.
Definition pic2_command : Z := 0xA0.
Definition pic2_data : Z := 0xA1.
Definition eoi : Z := 0x20.

(** The data ports read back what was last written to them outside the initialisation
    sequence. *)
Record pic := mkPic { mask1 : Z; mask2 : Z }.

Definition pic_disable (p : pic) : pic * list access := (mkPic 0xFF 0xFF, [Outb pic1_data 0xFF; Outb pic2_data 0xFF]).

(** The delays write port 0x80. *)
Definition io_wait : access := Outb 0x80 0.

Definition pic_init (p : pic) : pic * list access :=
  (p, [Outb pic1_command 0x11; io_wait; Outb pic2_command 0x11; io_wait; Outb pic1_data 0x20; io_wait; Outb pic2_data 0x28; io_wait;
       Outb pic1_data 0x04; io_wait; Outb pic2_data 0x02; io_wait; Outb pic1_data 0x01; io_wait; Outb pic2_data 0x01; io_wait;
       Outb pic1_data (mask1 p); Outb pic2_data (mask2 p)]).

Definition pic_eoi (irq : Z) : list access :=
  (if 8 <=? irq then [Outb pic2_command eoi] else []) ++ [Outb pic1_command eoi].

Definition pic_bit (irq : Z) : Z := u8 (if irq <? 8 then irq else irq - 8).
Definition pic_port (irq : Z) : Z := if irq <? 8 then pic1_data else pic2_data.

Definition pic_write (irq value : Z) (p : pic) : pic * list access :=
  (if irq <? 8 then mkPic value (mask2 p) else mkPic (mask1 p) value, [Outb (pic_port irq) value]).
Definition pic_read (irq : Z) (p : pic) : Z := if irq <? 8 then mask1 p else mask2 p.

Definition pic_unmask (irq : Z) (p : pic) : pic * list access :=
  pic_write irq (u8 (Z.land (pic_read irq p) (not32 (u32 (Z.shiftl 1 (pic_bit irq)))))) p.
Definition pic_mask (irq : Z) (p : pic) : pic * list access :=
  pic_write irq (u8 (Z.lor (pic_read irq p) (u32 (Z.shiftl 1 (pic_bit irq))))) p.

(** ** The local APIC (lapic.cpp) *)

Definition reg_eoi : Z := 0x0B0.
Definition reg_spurious : Z := 0x0F0.
Definition reg_lvt_timer : Z := 0x320.
Definition reg_timer_initial : Z := 0x380.
Definition reg_timer_divide : Z := 0x3E0.
Definition reg_icr_low : Z := 0x300.
Definition reg_icr_high : Z := 0x310.
Definition icr_init : Z := 0x500.
Definition icr_startup : Z := 0x600.
Definition icr_nmi : Z := 0x400.
Definition icr_level_assert : Z := Z.shiftl 1 14.
Definition icr_all_excluding_self : Z := Z.shiftl 3 18.
Definition lvt_masked : Z := Z.shiftl 1 16.
Definition spurious_enable : Z := Z.shiftl 1 8.
Definition divide_by_16 : Z := 0x3.
Definition apic_base_msr : Z := 0x1B.
Definition apic_global_enable : Z := Z.shiftl 1 11.
Definition vector_lapic_timer : Z := 0x40.
Definition vector_tlb_shootdown : Z := 0x41.
Definition vector_spurious : Z := 0xFF.

(** Whether the register window is mapped, the measured frequency, the id register. *)
Record lapic := mkLapic { lapic_present : bool; timer_hz : Z; id_register : Z }.

(** [calibrate] with the count the timer is left at after the interval. *)
Definition calibrate (remaining : Z) (l : lapic) : lapic * list access :=
  let ticks := u64 (0xFFFFFFFF - remaining) in
  (mkLapic (lapic_present l) (u64 (ticks * 100)) (id_register l),
   [LapicWrite reg_timer_divide divide_by_16; LapicWrite reg_lvt_timer lvt_masked; LapicWrite reg_timer_initial 0xFFFFFFFF;
    LapicWrite reg_timer_initial 0]).

Definition lapic_enable (msr : Z) : list access :=
  [WriteMsr apic_base_msr (Z.lor msr apic_global_enable); LapicWrite reg_spurious (Z.lor spurious_enable vector_spurious)].

(** [mapped] is whether [map_device] found a window. *)
Definition lapic_init (acpi : Acpi.state) (mapped : bool) (msr remaining : Z) (l : lapic) : bool * lapic * list access :=
  if negb (available acpi) || (local_apic_address acpi =? 0) then (false, l, [])
  else if negb mapped then (false, mkLapic false (timer_hz l) (id_register l), [])
  else
    let '(l, accesses) := calibrate remaining (mkLapic true (timer_hz l) (id_register l)) in
    (true, l, lapic_enable msr ++ accesses).

Definition lapic_init_cpu (msr : Z) (l : lapic) : list access := if lapic_present l then lapic_enable msr else [].

(** The writes of an interprocessor interrupt; the wait for delivery only reads. *)
Definition send_ipi (apic_id command : Z) : list access :=
  [LapicWrite reg_icr_high (u32 (Z.shiftl apic_id 24)); LapicWrite reg_icr_low command].
Definition lapic_send_init (apic_id : Z) : list access := send_ipi apic_id (Z.lor icr_init icr_level_assert).
Definition lapic_send_startup (apic_id page : Z) : list access := send_ipi apic_id (Z.lor icr_startup page).
Definition lapic_broadcast_ipi (vector : Z) (l : lapic) : list access :=
  if lapic_present l
  then [LapicWrite reg_icr_high 0; LapicWrite reg_icr_low (Z.lor (Z.lor icr_all_excluding_self icr_level_assert) vector)] else [].
Definition lapic_broadcast_nmi (l : lapic) : list access :=
  if lapic_present l
  then [LapicWrite reg_icr_high 0; LapicWrite reg_icr_low (Z.lor (Z.lor icr_nmi icr_level_assert) icr_all_excluding_self)] else [].
Definition lapic_id (l : lapic) : Z := if lapic_present l then Z.shiftr (id_register l) 24 else 0.
Definition lapic_eoi (l : lapic) : list access := if lapic_present l then [LapicWrite reg_eoi 0] else [].

(** The count programmed for a delay. *)
Definition oneshot_count (hz nanoseconds : Z) : Z :=
  let count := u64 (hz * nanoseconds) / 1000000000 in
  let count := if count =? 0 then 1 else count in
  if 0xFFFFFFFF <? count then 0xFFFFFFFF else count.

Definition lapic_timer_oneshot (nanoseconds : Z) (l : lapic) : list access :=
  if negb (lapic_present l) || (timer_hz l =? 0) then []
  else [LapicWrite reg_lvt_timer vector_lapic_timer; LapicWrite reg_timer_initial (u32 (oneshot_count (timer_hz l) nanoseconds))].
Definition lapic_timer_stop (l : lapic) : list access :=
  if lapic_present l then [LapicWrite reg_timer_initial 0; LapicWrite reg_lvt_timer lvt_masked] else [].
Definition lapic_timer_hz (l : lapic) : Z := timer_hz l.

(** ** The I/O APIC (ioapic.cpp) *)

(** Reading and writing the register an index selects.  A redirection register keeps
    what is written to it except for the delivery status and the remote interrupt
    request (bits 12 and 14 of the low half), which belong to the hardware. *)
Class IoApicChip (C : Type) := { chip_read : C -> Z -> Z; chip_write : C -> Z -> Z -> C }.

Definition index_version : Z := 0x01.
Definition index_redirection : Z := 0x10.

Class IoApicSpec (C : Type) `{IoApicChip C} := {
  chip_range : forall c i, 0 <= chip_read c i < 2 ^ 32;
  chip_kept : forall c i v k, index_redirection <= i -> 0 <= v < 2 ^ 32 -> 0 <= k < 32 -> k <> 12 -> k <> 14 ->
    Z.testbit (chip_read (chip_write c i v) i) k = Z.testbit v k;
  chip_frame : forall c i j v, i <> j -> chip_read (chip_write c i v) j = chip_read c j }.

Definition entry_masked : Z := Z.shiftl 1 16.
Definition entry_level_triggered : Z := Z.shiftl 1 15.
Definition entry_active_low : Z := Z.shiftl 1 13.

Record ioapic (C : Type) := mkIoapic { ioapic_mapped : bool; gsi_base : Z; entry_count : Z; chip : C }.
Arguments mkIoapic {C} _ _ _ _.
Arguments ioapic_mapped {C} _.
Arguments gsi_base {C} _.
Arguments entry_count {C} _.
Arguments chip {C} _.

Section ioapic.
Context {C : Type} `{IoApicChip C}.

Definition entry_index (io : ioapic C) (gsi : Z) : Z := u32 (index_redirection + u32 (2 * u32 (gsi - gsi_base io))).

Definition read_entry (io : ioapic C) (gsi : Z) : Z :=
  let index := entry_index io gsi in
  Z.lor (Z.shiftl (chip_read (chip io) (u32 (index + 1))) 32) (chip_read (chip io) index).

Definition write_entry (gsi value : Z) (io : ioapic C) : ioapic C :=
  let index := entry_index io gsi in
  mkIoapic (ioapic_mapped io) (gsi_base io) (entry_count io)
    (chip_write (chip_write (chip io) index (u32 value)) (u32 (index + 1)) (u32 (Z.shiftr value 32))).

Definition owns (io : ioapic C) (gsi : Z) : bool :=
  ioapic_mapped io && (gsi_base io <=? gsi) && (gsi <? u32 (gsi_base io + entry_count io)).

Definition ioapic_init (acpi : Acpi.state) (mapped : bool) (io : ioapic C) : bool * ioapic C :=
  if negb (available acpi) || (io_apic_address acpi =? 0) then (false, io)
  else if negb mapped then (false, mkIoapic false (gsi_base io) (entry_count io) (chip io))
  else
    let count := Z.land (Z.shiftr (chip_read (chip io) index_version) 16) 0xFF + 1 in
    let io := mkIoapic true (io_apic_gsi_base acpi) count (chip io) in
    (true, for_z 0 count (fun i io => write_entry (u32 (gsi_base io + i)) entry_masked io) io).

Definition route_entry (acpi : Acpi.state) (l : lapic) (irq vector : Z) : Z :=
  let entry := Z.lor vector (u64 (Z.shiftl (lapic_id l) 56)) in
  let entry := if irq_active_low acpi irq then Z.lor entry entry_active_low else entry in
  if irq_level_triggered acpi irq then Z.lor entry entry_level_triggered else entry.

Definition ioapic_route (acpi : Acpi.state) (l : lapic) (irq vector : Z) (io : ioapic C) : ioapic C :=
  let gsi := gsi_for_irq acpi irq in
  if owns io gsi then write_entry gsi (Z.lor (route_entry acpi l irq vector) entry_masked) io else io.

Definition ioapic_mask (acpi : Acpi.state) (irq : Z) (io : ioapic C) : ioapic C :=
  let gsi := gsi_for_irq acpi irq in
  if owns io gsi then write_entry gsi (Z.lor (read_entry io gsi) entry_masked) io else io.

Definition ioapic_unmask (acpi : Acpi.state) (irq : Z) (io : ioapic C) : ioapic C :=
  let gsi := gsi_for_irq acpi irq in
  if owns io gsi then write_entry gsi (Z.land (read_entry io gsi) (not64 entry_masked)) io else io.
End ioapic.

(** ** Routing and dispatch (irq.cpp, idt.cpp, api.cpp) *)

(** [irq_handlers] and [module_handlers] hold the addresses of handlers, 0 for none. *)
Record machine (C : Type) := mkMachine { apic_active : bool; pic_ : pic; lapic_ : lapic; io : ioapic C;
  irq_handlers : list Z; module_handlers : list Z }.
Arguments mkMachine {C} _ _ _ _ _ _.
Arguments apic_active {C} _.
Arguments pic_ {C} _.
Arguments lapic_ {C} _.
Arguments io {C} _.
Arguments irq_handlers {C} _.
Arguments module_handlers {C} _.

(** What [isr_dispatch] does. *)
Inductive action :=
  | Stop                      (* the endless [hlt] *)
  | Kill (status : Z)         (* the process exits, the CPU leaves user mode *)
  | ReportDoubleFault | ReportPageFault
  | Panic (vector : Z)
  | FlushTlb | TimersRun | SchedTick
  | Call (handler irq : Z)
  | Access (a : access)
  | Warn (vector : Z).

Section machine.
Context {C : Type} `{IoApicChip C}.

Definition set_io (i : ioapic C) (m : machine C) : machine C :=
  mkMachine (apic_active m) (pic_ m) (lapic_ m) i (irq_handlers m) (module_handlers m).
Definition set_pic (p : pic) (m : machine C) : machine C :=
  mkMachine (apic_active m) p (lapic_ m) (io m) (irq_handlers m) (module_handlers m).
Definition set_handlers (h mh : list Z) (m : machine C) : machine C :=
  mkMachine (apic_active m) (pic_ m) (lapic_ m) (io m) h mh.

Definition irq_init (acpi : Acpi.state) (lapic_mapped io_mapped : bool) (msr remaining : Z) (m : machine C) : machine C * list access :=
  let '(p, a1) := pic_init (pic_ m) in
  let '(ok, l, a2) := lapic_init acpi lapic_mapped msr remaining (lapic_ m) in
  let '(ok', i) := if ok then ioapic_init acpi io_mapped (io m) else (false, io m) in
  if ok && ok' then
    let '(p, a3) := pic_disable p in
    (mkMachine true p l i (irq_handlers m) (module_handlers m), a1 ++ a2 ++ a3)
  else (mkMachine (apic_active m) p l i (irq_handlers m) (module_handlers m), a1 ++ a2).

Definition irq_mask (acpi : Acpi.state) (irq : Z) (m : machine C) : machine C * list access :=
  if apic_active m then (set_io (ioapic_mask acpi irq (io m)) m, [])
  else let '(p, a) := pic_mask irq (pic_ m) in (set_pic p m, a).

Definition irq_unmask (acpi : Acpi.state) (irq : Z) (m : machine C) : machine C * list access :=
  if apic_active m then
    (set_io (ioapic_unmask acpi irq (ioapic_route acpi (lapic_ m) irq (u8 (32 + irq)) (io m))) m, [])
  else let '(p, a) := pic_unmask irq (pic_ m) in (set_pic p m, a).

Definition irq_eoi (irq : Z) (m : machine C) : list access := if apic_active m then lapic_eoi (lapic_ m) else pic_eoi irq.

Definition irq_register (irq handler : Z) (m : machine C) : machine C :=
  if irq <? 16 then set_handlers (<[Z.to_nat irq := handler]> (irq_handlers m)) (module_handlers m) m else m.

(** The address of [module_irq_trampoline]. *)
Context (trampoline : Z).

Definition eris_irq_register (irq handler : Z) (m : machine C) : machine C :=
  if 16 <=? irq then m
  else
    let m := set_handlers (irq_handlers m) (<[Z.to_nat irq := handler]> (module_handlers m)) m in
    irq_register irq (if negb (handler =? 0) then trampoline else 0) m.
Definition eris_irq_unmask (acpi : Acpi.state) (irq : Z) (m : machine C) : machine C * list access := irq_unmask acpi irq m.
Definition eris_irq_mask (acpi : Acpi.state) (irq : Z) (m : machine C) : machine C * list access := irq_mask acpi irq m.

Definition module_irq_trampoline (vector : Z) (m : machine C) : list action :=
  let irq := u8 (vector - 32) in
  if irq <? 16 then
    match module_handlers m !! Z.to_nat irq with
    | Some h => if negb (h =? 0) then [Call h irq] else []
    | None => []
    end
  else [].

(** [irq_handlers[irq](regs)]. *)
Definition call_handler (h vector irq : Z) (m : machine C) : list action :=
  if h =? trampoline then module_irq_trampoline vector m else [Call h irq].

(** [halting]: another CPU panicked; [process]: a process runs on this CPU. *)
Definition isr_dispatch (vector cs : Z) (halting process : bool) (m : machine C) : list action :=
  if (vector =? 2) && halting then [Stop]
  else if (vector <? 32) && (Z.land cs 3 =? 3) && process then [Kill (- vector)]
  else if vector <? 32 then
    (if vector =? 8 then [ReportDoubleFault] else []) ++ (if vector =? 14 then [ReportPageFault] else []) ++ [Panic vector]
  else if vector =? vector_spurious then []
  else if vector =? vector_tlb_shootdown then FlushTlb :: (Access <$> lapic_eoi (lapic_ m))
  else if vector =? vector_lapic_timer then (Access <$> lapic_eoi (lapic_ m)) ++ [TimersRun; SchedTick]
  else if (32 <=? vector) && (vector <? 48) then
    let irq := u8 (vector - 32) in
    match irq_handlers m !! Z.to_nat irq with
    | Some h => (if negb (h =? 0) then call_handler h vector irq m else []) ++ (Access <$> irq_eoi irq m)
    | None => Access <$> irq_eoi irq m
    end
  else [Warn vector].
End machine.

(** ** Properties *)

Section properties.
Context {C : Type} `{HC : IoApicChip C, HS : !IoApicSpec C}.

(** The line is one of the chip's inputs, which fit its index register. *)
Definition wired (i : ioapic C) (gsi : Z) : Prop :=
  owns i gsi = true /\ 0 <= gsi_base i /\ 0 < entry_count i <= 256 /\ gsi_base i + entry_count i < 2 ^ 32.

Lemma wired_index i gsi : wired i gsi -> entry_index i gsi = index_redirection + 2 * (gsi - gsi_base i) /\ gsi_base i <= gsi < gsi_base i + entry_count i.
Proof.
  intros (Ho & Hb & Hc & Hs). unfold owns in Ho. breflect. rewrite u32_small in * by lia.
  split; [|done]. unfold entry_index, index_redirection.
  by rewrite (u32_small (gsi - gsi_base i)), (u32_small (2 * _)), (u32_small (16 + _)) by lia.
Qed.

(** Reading an entry bit by bit. *)
Lemma read_entry_bit i gsi k : wired i gsi -> 0 <= k < 64 ->
  Z.testbit (read_entry i gsi) k =
  if k <? 32 then Z.testbit (chip_read (chip i) (entry_index i gsi)) k else Z.testbit (chip_read (chip i) (entry_index i gsi + 1)) (k - 32).
Proof.
  intros Hw Hk. destruct (wired_index i gsi Hw) as [Ei Hr]. destruct Hw as (_ & Hb & Hc & Hs).
  unfold read_entry. rewrite (u32_small (entry_index i gsi + 1)) by (rewrite Ei; unfold index_redirection; lia).
  rewrite Z.lor_spec, Z.shiftl_spec by lia. destruct (Z.ltb_spec k 32).
  - by rewrite Z.testbit_neg_r by lia.
  - rewrite (bit_beyond 32 (chip_read (chip i) (entry_index i gsi)) k) by (apply chip_range || lia). apply orb_false_r.
Qed.

(** An entry keeps what is written except for the two bits of the hardware; other
    entries stay. *)
Lemma write_entry_bit i gsi v k : wired i gsi -> 0 <= v < 2 ^ 64 -> 0 <= k < 64 -> k <> 12 -> k <> 14 -> k <> 44 -> k <> 46 ->
  Z.testbit (read_entry (write_entry gsi v i) gsi) k = Z.testbit v k.
Proof.
  intros Hw Hv Hk H12 H14 H44 H46. assert (wired (write_entry gsi v i) gsi) as Hw' by exact Hw.
  rewrite (read_entry_bit _ _ _ Hw' Hk). destruct (wired_index i gsi Hw) as [Ei Hr]. destruct Hw as (_ & Hb & Hc & Hs).
  change (entry_index (write_entry gsi v i) gsi) with (entry_index i gsi). unfold write_entry. cbn [chip].
  rewrite (u32_small (entry_index i gsi + 1)) by (rewrite Ei; unfold index_redirection; lia).
  assert (forall x n, 0 <= n < 32 -> Z.testbit (u32 x) n = Z.testbit x n) as Hu.
  { intros x n Hn. unfold u32. rewrite testbit_wrap by lia. by rewrite bool_decide_eq_true_2 by lia. }
  destruct (Z.ltb_spec k 32).
  - rewrite chip_frame by lia. rewrite chip_kept by (try apply u32_range; rewrite ?Ei; unfold index_redirection; lia). apply Hu. lia.
  - rewrite chip_kept by (try apply u32_range; rewrite ?Ei; unfold index_redirection; lia). rewrite Hu by lia.
    rewrite Z.shiftr_spec by lia. f_equal. lia.
Qed.

Lemma write_entry_other i gsi gsi' v : wired i gsi -> wired i gsi' -> gsi <> gsi' ->
  read_entry (write_entry gsi v i) gsi' = read_entry i gsi'.
Proof.
  intros Hw Hw' Hne. apply Z.bits_inj'. intros k Hk.
  destruct (wired_index i gsi Hw) as [Ei Hr]. destruct (wired_index i gsi' Hw') as [Ei' Hr'].
  unfold read_entry, write_entry. cbn [chip]. destruct Hw as (_ & Hb & Hc & Hs).
  change (entry_index (mkIoapic _ _ _ _) gsi') with (entry_index i gsi').
  rewrite !(u32_small (entry_index i _ + 1)) by (rewrite ?Ei, ?Ei'; unfold index_redirection; lia).
  rewrite !chip_frame by (rewrite ?Ei, ?Ei'; lia). done.
Qed.

(** The bits of a routed entry. *)
Lemma route_entry_bit acpi l irq vector k : 0 <= vector < 256 -> 0 <= lapic_id l < 256 -> 0 <= k < 64 ->
  Z.testbit (route_entry acpi l irq vector) k =
    ((k <? 8) && Z.testbit vector k) || ((56 <=? k) && Z.testbit (lapic_id l) (k - 56)) ||
    ((k =? 13) && irq_active_low acpi irq) || ((k =? 15) && irq_level_triggered acpi irq).
Proof.
  intros Hv Hl Hk. unfold route_entry.
  assert (Z.testbit (Z.lor vector (u64 (Z.shiftl (lapic_id l) 56))) k =
    ((k <? 8) && Z.testbit vector k) || ((56 <=? k) && Z.testbit (lapic_id l) (k - 56))) as Hbase.
  { rewrite Z.lor_spec. f_equal.
    - destruct (Z.ltb_spec k 8); [done|]. apply (bit_beyond 8); lia.
    - unfold u64. rewrite testbit_wrap, bool_decide_eq_true_2, Z.shiftl_spec by lia. cbn [andb].
      destruct (Z.leb_spec 56 k); [done|]. apply Z.testbit_neg_r. lia. }
  destruct (irq_active_low acpi irq), (irq_level_triggered acpi irq); rewrite ?Z.lor_spec, ?bit_of_shift in * by lia;
    unfold entry_active_low, entry_level_triggered; rewrite ?bit_of_shift by lia; rewrite Hbase, ?andb_true_r, ?andb_false_r, ?orb_false_r; done.
Qed.

Lemma route_entry_range acpi l irq vector : 0 <= vector < 256 -> 0 <= route_entry acpi l irq vector < 2 ^ 64.
Proof.
  intros Hv. pose proof (u64_range (Z.shiftl (lapic_id l) 56)) as Hu.
  unfold route_entry. destruct (irq_active_low acpi irq), (irq_level_triggered acpi irq); repeat apply lor_fits; try done; lia.
Qed.

(** Where an entry sends its interrupt. *)
Definition entry_vector (e : Z) : Z := Z.land e 0xFF.
Definition is_masked (e : Z) : bool := Z.testbit e 16.

Definition of_hardware (k : Z) : bool := (k =? 12) || (k =? 14) || (k =? 44) || (k =? 46).

(** Every software bit of an entry after [ioapic_route] and [ioapic_unmask]. *)
Lemma routed_bit acpi l irq vector i k :
  let gsi := gsi_for_irq acpi irq in
  wired i gsi -> 0 <= vector < 256 -> 0 <= lapic_id l < 256 -> 0 <= k < 64 -> of_hardware k = false ->
  Z.testbit (read_entry (ioapic_unmask acpi irq (ioapic_route acpi l irq vector i)) gsi) k = Z.testbit (route_entry acpi l irq vector) k.
Proof.
  intros gsi Hw Hv Hl Hk Hh. unfold of_hardware in Hh. breflect. unfold ioapic_unmask, ioapic_route. fold gsi.
  destruct Hw as [Ho Hrest] eqn:Ew. rewrite Ho. change (owns (write_entry gsi _ i) gsi) with (owns i gsi). rewrite Ho.
  pose proof (route_entry_range acpi l irq vector Hv) as Hrange.
  assert (0 <= Z.lor (route_entry acpi l irq vector) entry_masked < 2 ^ 64) as Hrange'.
  { by apply lor_fits. }
  set (i1 := write_entry gsi (Z.lor (route_entry acpi l irq vector) entry_masked) i).
  assert (wired i1 gsi) as Hw1 by exact Hw.
  assert (0 <= Z.land (read_entry i1 gsi) (not64 entry_masked) < 2 ^ 64) as Hr1.
  { apply land_fits; [done|apply u64_range]. }
  rewrite (write_entry_bit i1) by done. rewrite Z.land_spec. subst i1. rewrite (write_entry_bit i) by done.
  unfold not64, u64, entry_masked. rewrite testbit_wrap, bool_decide_eq_true_2, Z.lnot_spec, Z.lor_spec, bit_of_shift by lia. cbn [andb].
  destruct (Z.eqb_spec k 16) as [->|]; cbn [negb]; [|by rewrite orb_false_r, andb_true_r].
  rewrite andb_false_r. symmetry. rewrite route_entry_bit by done. done.
Qed.

Lemma routed_other acpi l irq vector i gsi' :
  let gsi := gsi_for_irq acpi irq in
  wired i gsi -> wired i gsi' -> gsi <> gsi' ->
  read_entry (ioapic_unmask acpi irq (ioapic_route acpi l irq vector i)) gsi' = read_entry i gsi'.
Proof.
  intros gsi Hw Hw' Hne. unfold ioapic_unmask, ioapic_route. fold gsi. pose proof Hw as [Ho _]. rewrite Ho.
  change (owns (write_entry gsi _ i) gsi) with (owns i gsi). rewrite Ho.
  rewrite (write_entry_other (write_entry gsi _ i)); [by apply write_entry_other|exact Hw|exact Hw'|done].
Qed.
End properties.

(** Both handler tables have their sixteen places. *)
Definition tables_ok {C} (m : machine C) : Prop := length (irq_handlers m) = 16%nat /\ length (module_handlers m) = 16%nat.

(** C33: with the APIC in use, once a module has registered a handler for a line and
    unmasked it, the line's redirection entry is unmasked, carries the vector
    [32 + irq], goes to this CPU and has the polarity and trigger mode the firmware
    gave; dispatching that vector calls exactly this handler and acknowledges the
    interrupt once, after the handler; no other input of the chip is touched; and after
    the handler is taken back the same vector only acknowledges. *)
Theorem interrupt_delivered {C} `{HC : IoApicChip C, HS : !IoApicSpec C} trampoline acpi irq h (m : machine C) :
  let gsi := gsi_for_irq acpi irq in
  let m' := (eris_irq_unmask acpi irq (eris_irq_register trampoline irq h m)).1 in
  let e := read_entry (io m') gsi in
  apic_active m = true -> lapic_present (lapic_ m) = true -> 0 <= id_register (lapic_ m) < 2 ^ 32 -> tables_ok m ->
  0 <= irq < 16 -> wired (io m) gsi -> h <> 0 -> trampoline <> 0 ->
  entry_vector e = 32 + irq /\ is_masked e = false /\
  Z.testbit e 13 = irq_active_low acpi irq /\ Z.testbit e 15 = irq_level_triggered acpi irq /\
  (forall k, 0 <= k < 8 -> Z.testbit e (56 + k) = Z.testbit (lapic_id (lapic_ m)) k) /\
  (forall gsi', wired (io m) gsi' -> gsi' <> gsi -> read_entry (io m') gsi' = read_entry (io m) gsi') /\
  (forall cs p, isr_dispatch trampoline (entry_vector e) cs false p m' = [Call h irq; Access (LapicWrite reg_eoi 0)]) /\
  (forall cs p, isr_dispatch trampoline (entry_vector e) cs false p (eris_irq_register trampoline irq 0 m') = [Access (LapicWrite reg_eoi 0)]).
Proof.
  intros gsi m' e Ha Hl Hid [Ht1 Ht2] Hirq Hw Hh Htr.
  assert (eris_irq_register trampoline irq h m = set_handlers (<[Z.to_nat irq := trampoline]> (irq_handlers m)) (<[Z.to_nat irq := h]> (module_handlers m)) m) as Er.
  { unfold eris_irq_register, irq_register. rewrite (proj2 (Z.leb_gt _ _)), (proj2 (Z.ltb_lt _ _)), (proj2 (Z.eqb_neq h 0)) by lia. done. }
  assert (0 <= lapic_id (lapic_ m) < 256) as Hli.
  { unfold lapic_id. rewrite Hl, Z.shiftr_div_pow2 by lia. change (2 ^ 24) with 16777216. dlia. }
  assert (u8 (32 + irq) = 32 + irq) as Eu by (apply u8_small; lia).
  assert (m' = set_io (ioapic_unmask acpi irq (ioapic_route acpi (lapic_ m) irq (32 + irq) (io m)))
    (set_handlers (<[Z.to_nat irq := trampoline]> (irq_handlers m)) (<[Z.to_nat irq := h]> (module_handlers m)) m)) as Em.
  { subst m'. unfold eris_irq_unmask, irq_unmask. rewrite Er. cbn [apic_active set_handlers]. rewrite Ha, Eu. done. }
  assert (forall k, 0 <= k < 64 -> of_hardware k = false -> Z.testbit e k = Z.testbit (route_entry acpi (lapic_ m) irq (32 + irq)) k) as He.
  { intros k Hk Hk'. subst e. rewrite Em. apply routed_bit; try done; lia. }
  assert (entry_vector e = 32 + irq) as Hvec.
  { unfold entry_vector. apply Z.bits_inj'. intros k Hk. rewrite Z.land_spec. change 0xFF with (Z.ones 8). rewrite Z.testbit_ones_nonneg by lia.
    destruct (Z.ltb_spec k 8).
    - rewrite andb_true_r, He by (unfold of_hardware; repeat (rewrite (proj2 (Z.eqb_neq _ _)) by lia); (done || lia)).
      rewrite route_entry_bit by lia. rewrite (proj2 (Z.ltb_lt k 8)), (proj2 (Z.leb_gt 56 k)), !(proj2 (Z.eqb_neq k _)) by lia. cbn. by rewrite !orb_false_r.
    - rewrite andb_false_r. symmetry. apply (bit_beyond 8); lia. }
  assert (forall cs p, forall mm : machine C, apic_active mm = true -> lapic_ mm = lapic_ m -> irq_handlers mm !! Z.to_nat irq = Some (if module_handlers mm !! Z.to_nat irq is Some 0 then 0 else trampoline) ->
    forall hh, module_handlers mm !! Z.to_nat irq = Some hh ->
    isr_dispatch trampoline (32 + irq) cs false p mm = (if hh =? 0 then [] else [Call hh irq]) ++ [Access (LapicWrite reg_eoi 0)]) as Hd.
  { intros cs p mm Ham Hlm Hih hh Hmh. unfold isr_dispatch, irq_eoi, lapic_eoi, call_handler, module_irq_trampoline, vector_spurious, vector_tlb_shootdown, vector_lapic_timer.
    rewrite !(proj2 (Z.eqb_neq (32 + irq) _)) by lia. rewrite !(proj2 (Z.ltb_ge (32 + irq) 32)) by lia. cbn [andb].
    rewrite (proj2 (Z.leb_le 32 (32 + irq))), (proj2 (Z.ltb_lt (32 + irq) 48)) by lia. cbn [andb].
    replace (32 + irq - 32) with irq by lia. rewrite (u8_small irq) by lia. rewrite Hih, Hmh, Ham, Hlm, Hl.
    rewrite (proj2 (Z.ltb_lt irq 16)) by lia. destruct hh; [done|..]; by rewrite (proj2 (Z.eqb_neq trampoline 0)), Z.eqb_refl by done. }
  split_and!; [done| | | | | | |].
  - unfold is_masked. rewrite He, route_entry_bit by (done || lia). done.
  - rewrite He, route_entry_bit by (done || lia). cbn. by rewrite orb_false_r.
  - rewrite He, route_entry_bit by (done || lia). done.
  - intros k Hk. rewrite He, route_entry_bit by (try lia; unfold of_hardware; repeat (rewrite (proj2 (Z.eqb_neq _ _)) by lia); done).
    rewrite (proj2 (Z.ltb_ge _ 8)), (proj2 (Z.leb_le 56 _)), !(proj2 (Z.eqb_neq (56 + k) _)) by lia. cbn. rewrite !orb_false_r. f_equal. lia.
  - intros gsi' Hw' Hne. rewrite Em. by apply routed_other.
  - intros cs p. rewrite Hvec, Em.
    rewrite (Hd cs p (set_io _ _)) with (hh := h); [by rewrite (proj2 (Z.eqb_neq h 0))|done|done| |]; cbn.
    + rewrite !list_lookup_insert_eq by lia. by destruct h.
    + by rewrite list_lookup_insert_eq by lia.
  - intros cs p. rewrite Hvec, Em. unfold eris_irq_register, irq_register. rewrite (proj2 (Z.leb_gt _ _)), (proj2 (Z.ltb_lt _ _)) by lia.
    rewrite (Hd cs p (set_handlers _ _ _)) with (hh := 0); [done|done|done| |]; cbn.
    + rewrite !list_lookup_insert_eq by (rewrite ?length_insert; lia). done.
    + by rewrite list_lookup_insert_eq by (rewrite ?length_insert; lia).
Qed.

(** A register file as a chip. *)
#[export] Instance register_file : IoApicChip (Z -> Z) := {|
  chip_read c i := u32 (c i);
  chip_write c i v := fun j => if j =? i then v else c j |}.

#[export] Instance register_file_spec : IoApicSpec (Z -> Z).
Proof.
  split; cbn.
  - auto with eris.
  - intros c i v k _ Hv Hk _ _. by rewrite Z.eqb_refl, u32_small.
  - intros c i j v Hne. by rewrite (proj2 (Z.eqb_neq j i)) by done.
Qed.

(** The firmware of the example moved the timer to input 2. *)
Definition demo_acpi : Acpi.state := Eval vm_compute in
  foldl Acpi.apply_item (Acpi.set_irqs (seqZ 0 16) (replicate 16 false) (replicate 16 false) Acpi.initial) Acpi.demo_items.
Definition demo_machine : machine (Z -> Z) :=
  mkMachine true (mkPic 255 255) (mkLapic true 62500000 0x3000000) (mkIoapic true 0 24 (fun _ => 0)) (replicate 16 0) (replicate 16 0).

Lemma interrupt_delivered_witness :
  entry_vector (read_entry (io (eris_irq_unmask demo_acpi 0 (eris_irq_register 0x5000 0 0x7000 demo_machine)).1) 2) = 32 /\
  isr_dispatch 0x5000 32 8 false false (eris_irq_unmask demo_acpi 0 (eris_irq_register 0x5000 0 0x7000 demo_machine)).1 =
    [Call 0x7000 0; Access (LapicWrite reg_eoi 0)].
Proof.
  destruct (interrupt_delivered 0x5000 demo_acpi 0 0x7000 demo_machine) as (H1 & _ & _ & _ & _ & _ & H2 & _).
  - reflexivity.
  - reflexivity.
  - cbn. lia.
  - split; reflexivity.
  - lia.
  - split; [vm_compute; reflexivity|]. cbn. lia.
  - lia.
  - lia.
  - split; [exact H1|]. specialize (H2 8 false). rewrite H1 in H2. exact H2.
Defined.

(** The masks of the legacy controllers as one word, line by line. *)
Definition pic_masked (p : pic) (irq : Z) : bool := Z.testbit (if irq <? 8 then mask1 p else mask2 p) (irq mod 8).

Lemma testbit_not32 x k : 0 <= k < 32 -> Z.testbit (not32 x) k = negb (Z.testbit x k).
Proof. intros Hk. unfold not32, u32. rewrite testbit_wrap, bool_decide_eq_true_2 by lia. by rewrite Z.lnot_spec by lia. Qed.

(** On the legacy controller, masking or unmasking a line changes that line only. *)
Lemma pic_mask_exact p irq irq' : 0 <= irq < 16 -> 0 <= irq' < 16 ->
  pic_masked (pic_mask irq p).1 irq' = (irq' =? irq) || pic_masked p irq' /\
  pic_masked (pic_unmask irq p).1 irq' = negb (irq' =? irq) && pic_masked p irq'.
Proof.
  intros Hi Hi'.
  assert (0 <= pic_bit irq < 8 /\ pic_bit irq = irq mod 8) as [Hb Eb].
  { unfold pic_bit. destruct (Z.ltb_spec irq 8); rewrite u8_small by lia; split; (lia || dlia). }
  assert (0 <= irq' mod 8 < 8) as Hb' by dlia.
  assert (forall x, Z.testbit (u8 x) (irq' mod 8) = Z.testbit x (irq' mod 8)) as Hu8.
  { intros x. unfold u8. rewrite testbit_wrap by lia. by rewrite bool_decide_eq_true_2 by lia. }
  assert (Z.testbit (u32 (Z.shiftl 1 (pic_bit irq))) (irq' mod 8) = (irq' mod 8 =? pic_bit irq)) as Hs.
  { unfold u32. rewrite testbit_wrap, bool_decide_eq_true_2 by lia. cbn [andb]. apply bit_of_shift; lia. }
  unfold pic_masked, pic_mask, pic_unmask, pic_write, pic_read.
  destruct (Z.ltb_spec irq 8), (Z.ltb_spec irq' 8); cbn; rewrite ?Hu8, ?Z.lor_spec, ?Z.land_spec, ?testbit_not32, ?Hs, ?Eb by lia;
    destruct (Z.eqb_spec (irq' mod 8) (irq mod 8)), (Z.eqb_spec irq' irq); try (exfalso; dlia); cbn;
    rewrite ?orb_true_r, ?orb_false_r, ?andb_true_r, ?andb_false_r; done.
Qed.

(** The timer's count is the delay in ticks while the product fits 64 bits. *)
Lemma oneshot_exact hz ns : 0 < hz -> 0 <= ns -> hz * ns < 2 ^ 64 -> 1000000000 <= hz * ns -> hz * ns / 1000000000 < 2 ^ 32 ->
  oneshot_count hz ns = hz * ns / 1000000000.
Proof.
  intros. unfold oneshot_count. rewrite u64_small by lia. rewrite (proj2 (Z.eqb_neq _ 0)) by dlia. by rewrite (proj2 (Z.ltb_ge _ _)) by lia.
Qed.

(** At 62.5 MHz a delay of 300 seconds is programmed as less than five. *)
Lemma oneshot_wraps : oneshot_count 62500000 300000000000 = 303255926.
Proof. reflexivity. Qed.
