(* ===== verification/Clock.v ===== *)
(** * The monotonic clock (src/kernel/time/clock.cpp)

    The HPET registers are a function from register offset to value and the time stamp
    counter a reading passed in; the wait on the legacy timer in [tsc_calibrate] is
    represented by the two readings around it. *)

From S2P Require Import Prelude.

Definition hpet_capabilities : Z := 0x000.
Definition hpet_configuration : Z := 0x010.
Definition hpet_counter : Z := 0x0F0.

(** [hpet] is the mapped address, 0 when there is none. *)
Record clock := mk { hpet : Z; hpet_period_fs : Z; tsc_hz : Z; tsc_origin : Z }.

Definition initial : clock := mk 0 0 0 0.

Definition registers := Z -> Z.

Definition hpet_write (offset value : Z) (r : registers) : registers :=
  fun o => if o =? offset then value else r o.

(** What [hpet_init] sees of ACPI and of the mapper: whether tables exist, the
    physical address they give, and the result of [map_device]. *)
Record platform := mkPlatform { acpi_available : bool; hpet_address : Z; mapped_at : Z }.

Definition hpet_init (p : platform) (c : clock) (r : registers) : bool * clock * registers :=
  if negb (acpi_available p) || (hpet_address p =? 0) then (false, c, r)
  else
    let c := mk (mapped_at p) (hpet_period_fs c) (tsc_hz c) (tsc_origin c) in
    if hpet c =? 0 then (false, c, r)
    else
      let period := Z.shiftr (r hpet_capabilities) 32 in
      let c := mk (hpet c) period (tsc_hz c) (tsc_origin c) in
      if (period =? 0) || (0x05F5E100 <? period)
      then (false, mk 0 period (tsc_hz c) (tsc_origin c), r)
      else (true, c, hpet_write hpet_configuration (Z.lor (r hpet_configuration) 1) r).

Definition interval_hz : Z := 100.

Definition tsc_calibrate (start stop : Z) (c : clock) : clock :=
  mk (hpet c) (hpet_period_fs c) (u64 (u64 (stop - start) * interval_hz)) stop.

Definition clock_init (p : platform) (start stop : Z) (c : clock) (r : registers) : clock * registers :=
  let '(ok, c, r) := hpet_init p c r in
  if ok then (c, r) else (tsc_calibrate start stop c, r).

Inductive source := Hpet | Tsc | NoClock.

Definition clock_source (c : clock) : source :=
  if negb (hpet c =? 0) then Hpet else if negb (tsc_hz c =? 0) then Tsc else NoClock.

(** [monotonic_ns] with the value of the HPET's counter and of the time stamp
    counter at the moment it is called. *)
Definition monotonic_ns (c : clock) (counter tsc : Z) : Z :=
  if negb (hpet c =? 0) then u64 (counter * hpet_period_fs c) / 1000000
  else if tsc_hz c =? 0 then 0
  else
    let elapsed := u64 (tsc - tsc_origin c) in
    u64 (u64 ((elapsed / tsc_hz c) * 1000000000) + u64 ((elapsed mod tsc_hz c) * 1000000000) / tsc_hz c).

Definition monotonic_ms (c : clock) (counter tsc : Z) : Z := monotonic_ns c counter tsc / 1000000.

(** [while (monotonic_ns() < deadline)]: [now k] is the [k]th reading of the clock;
    the result is the number of readings made. *)
Fixpoint wait_loop (fuel k : nat) (now : nat -> Z) (deadline : Z) : option nat :=
  match fuel with
  | O => None
  | S fuel' => if now k <? deadline then wait_loop fuel' (S k) now deadline else Some (S k)
  end.

Definition udelay (fuel : nat) (now : nat -> Z) (microseconds : Z) : option nat :=
  let deadline := u64 (now 0%nat + u64 (microseconds * 1000)) in
  wait_loop fuel 1 now deadline.

Definition mdelay (fuel : nat) (now : nat -> Z) (milliseconds : Z) : option nat :=
  udelay fuel now (u64 (milliseconds * 1000)).

(** ** Properties *)

(** The split of the division avoids overflow without losing precision: with a
    frequency below 2^34 Hz and an uptime that fits, the time stamp clock is the exact
    number of elapsed nanoseconds rounded down, even where [elapsed * 10^9] itself
    would not fit in 64 bits. *)
Theorem tsc_clock_exact c counter tsc :
  hpet c = 0 -> 0 < tsc_hz c <= 2 ^ 34 -> tsc_origin c <= tsc < 2 ^ 64 -> 0 <= tsc_origin c ->
  (tsc - tsc_origin c) * 1000000000 / tsc_hz c < 2 ^ 64 ->
  monotonic_ns c counter tsc = (tsc - tsc_origin c) * 1000000000 / tsc_hz c.
Proof.
  intros Hh Hz Ht Ho Hfit. unfold monotonic_ns. rewrite Hh. cbn [Z.eqb negb].
  rewrite (proj2 (Z.eqb_neq (tsc_hz c) 0)) by lia.
  rewrite (u64_small (tsc - tsc_origin c)) by lia. set (e := tsc - tsc_origin c) in *.
  assert (0 <= e) as He by (unfold e; lia). clearbody e.
  set (hz := tsc_hz c) in *. clearbody hz. change (2 ^ 34) with 17179869184 in Hz.
  pose proof (Z.mod_pos_bound e hz ltac:(lia)) as Hm.
  pose proof (Z.div_mod e hz ltac:(lia)) as Hd.
  assert (e * 1000000000 / hz = e / hz * 1000000000 + (e mod hz) * 1000000000 / hz) as E.
  { rewrite Hd at 1. rewrite Z.mul_add_distr_r.
    replace (hz * (e / hz) * 1000000000) with (e / hz * 1000000000 * hz) by lia.
    rewrite Z.div_add_l by lia. reflexivity. }
  rewrite E in *. pose proof (Z.div_pos e hz ltac:(lia) ltac:(lia)) as Hq.
  pose proof (Z.div_pos (e mod hz * 1000000000) hz ltac:(lia) ltac:(lia)) as Hr.
  rewrite (u64_small (e mod hz * 1000000000)) by lia.
  rewrite (u64_small (e / hz * 1000000000)) by lia. rewrite u64_small by lia. reflexivity.
Qed.

Lemma tsc_clock_exact_witness :
  monotonic_ns (mk 0 0 3000000000 5) 0 (5 + 3000000000 * 1000000) = 1000000 * 1000000000.
Proof.
  change (1000000 * 1000000000) with ((5 + 3000000000 * 1000000 - 5) * 1000000000 / 3000000000).
  apply (tsc_clock_exact (mk 0 0 3000000000 5) 0 (5 + 3000000000 * 1000000));
    cbn [hpet tsc_hz tsc_origin]; [reflexivity|lia|lia|lia|reflexivity].
Defined.

(** The HPET clock is exact only for 2^64 femtoseconds, about five hours: from then
    on the product wraps and the reading falls behind by 2^64 femtoseconds, so the
    clock is not monotonic. *)
Theorem hpet_clock_wraps c counter tsc :
  hpet c <> 0 -> 0 <= counter -> 0 < hpet_period_fs c ->
  (counter * hpet_period_fs c < 2 ^ 64 ->
     monotonic_ns c counter tsc = counter * hpet_period_fs c / 1000000) /\
  (2 ^ 64 <= counter * hpet_period_fs c < 2 * 2 ^ 64 ->
     monotonic_ns c counter tsc = (counter * hpet_period_fs c - 2 ^ 64) / 1000000).
Proof.
  intros Hh Hc Hp. unfold monotonic_ns. rewrite (proj2 (Z.eqb_neq _ _) Hh). cbn [negb].
  split; intros H.
  - rewrite u64_small by nia. reflexivity.
  - f_equal. unfold u64, wrap. set (x := counter * hpet_period_fs c) in *. clearbody x.
    change (2 ^ 64) with 18446744073709551616 in *. dlia.
Qed.

(** A 10 MHz counter, 5 hours and 5 hours 8 minutes after it started. *)
Lemma hpet_clock_wraps_witness :
  monotonic_ns (mk 1 100000000 0 0) 180000000000 0 = 18000000000000 /\
  monotonic_ns (mk 1 100000000 0 0) 184800000000 0 = (184800000000 * 100000000 - 2 ^ 64) / 1000000.
Proof.
  split.
  - apply (proj1 (hpet_clock_wraps (mk 1 100000000 0 0) 180000000000 0 ltac:(discriminate) ltac:(lia) ltac:(simpl; lia))).
    reflexivity.
  - apply (proj2 (hpet_clock_wraps (mk 1 100000000 0 0) 184800000000 0 ltac:(discriminate) ltac:(lia) ltac:(simpl; lia))).
    split; [discriminate|reflexivity].
Defined.

Lemma wait_loop_spec fuel k n now deadline :
  (k <= n)%nat -> (n - k < fuel)%nat -> deadline <= now n ->
  exists m, wait_loop fuel k now deadline = Some (S m) /\ (k <= m <= n)%nat /\ deadline <= now m /\
    forall i, (k <= i < m)%nat -> now i < deadline.
Proof.
  revert k. induction fuel as [|fuel IH]; intros k Hk Hf Hn; [lia|]. cbn [wait_loop].
  destruct (Z.ltb_spec (now k) deadline) as [Hlt|Hge].
  - assert (k <> n) by (intros ->; lia). destruct (IH (S k)) as (m & E & Hm & Hd & Hb); [lia..|].
    exists m. split_and!; [done|lia..|]. intros i Hi. destruct (decide (i = k)) as [->|]; [done|]. apply Hb. lia.
  - exists k. split_and!; [done|lia..|]. lia.
Qed.

(** [udelay] returns as soon as, and no sooner than, a reading shows the requested
    number of microseconds gone by. *)
Theorem udelay_waits now microseconds n :
  0 <= microseconds < 2 ^ 50 -> 0 <= now 0%nat < 2 ^ 63 ->
  (0 < n)%nat -> now 0%nat + microseconds * 1000 <= now n ->
  exists m, udelay (S n) now microseconds = Some (S m) /\ (1 <= m <= n)%nat /\
    now 0%nat + microseconds * 1000 <= now m /\
    forall i, (1 <= i < m)%nat -> now i < now 0%nat + microseconds * 1000.
Proof.
  intros Hu H0 Hn Hd. unfold udelay. rewrite (u64_small (microseconds * 1000)) by lia.
  rewrite u64_small by lia. apply wait_loop_spec; [lia..|done].
Qed.

Lemma udelay_waits_witness :
  exists m, udelay 11 (fun k => Z.of_nat k * 500) 3 = Some (S m) /\ (1 <= m <= 10)%nat /\
    0 + 3 * 1000 <= Z.of_nat m * 500.
Proof.
  destruct (udelay_waits (fun k => Z.of_nat k * 500) 3 10) as (m & H1 & H2 & H3 & _); [lia..|].
  exists m. done.
Defined.
