(* ===== verification/Pit.v ===== *)
(** * Waiting for the legacy timer ([pit_wait] of src/kernel/time/clock.cpp and
      src/kernel/cpu/lapic.cpp) and what is calibrated by it

    The timer's second channel is a parameter: a type of chip states with the two port
    accesses and its documented behaviour.  Time is in any unit, [grain] of which are one of
    the chip's 1193182 ticks a second.  Both files have the same function. *)

From S2P Require Import Prelude Clock.

Class Pit (C : Type) := {
  outb : Z -> Z -> C -> C;
  inb : Z -> C -> Z * C;
  time : C -> Z;
  grain : Z
}.

Definition control_port : Z := 0x61.
Definition pit_hz : Z := 1193182.

Section code.
Context {C : Type} `{Pit C}.

(** [while ((inb(control_port) & 0x20) == 0) ;] *)
Fixpoint wait_output (fuel : nat) (c : C) : option C :=
  match fuel with
  | O => None
  | S fuel => let '(v, c) := inb control_port c in if Z.land v 0x20 =? 0 then wait_output fuel c else Some c
  end.

(** Up to the loop: the channel is set to a one-shot and its gate raised. *)
Definition pit_start (divisor : Z) (c : C) : C :=
  let '(v, c) := inb control_port c in
  let c := outb control_port (u8 (Z.lor (Z.land v 0xFD) 0x01)) c in
  let c := outb 0x43 0xB2 c in
  let c := outb 0x42 (u8 (Z.land divisor 0xFF)) c in
  let c := outb 0x42 (u8 (Z.shiftr divisor 8)) c in
  let '(v, c) := inb control_port c in
  let gate := u8 (Z.land v 0xFE) in
  let c := outb control_port gate c in
  outb control_port (u8 (Z.lor gate 1)) c.

Definition pit_wait (fuel : nat) (divisor : Z) (c : C) : option C := wait_output fuel (pit_start divisor c).

(** The copy of it in lapic.cpp. *)
Definition lapic_pit_wait (fuel : nat) (divisor : Z) (c : C) : option C := pit_wait fuel divisor c.

(** [tsc_calibrate], whole: [read_tsc c] is the counter at that moment. *)
Definition tsc_calibrate (fuel : nat) (read_tsc : C -> Z) (k : clock) (c : C) : option (clock * C) :=
  let start := read_tsc c in
  c ← pit_wait fuel (pit_hz / interval_hz) c;
  Some (Clock.tsc_calibrate start (read_tsc c) k, c).
End code.

(** What the code relies on of the chip.  [one_shot c = Some n]: the channel is in the mode
    that counts [n] ticks from the next rising edge of its gate; [fires c = Some t]: its
    output is low and goes high at [t].  An access takes at most [slow] units of time, and
    a read at least one. *)
Class PitSpec (C : Type) `{Pit C} := {
  one_shot : C -> option Z; fires : C -> option Z; gate_of : C -> bool; slow : Z;
  grain_pos : 0 < grain;
  inb_time port c : time c < time (inb port c).2 <= time c + slow;
  outb_time port v c : time c <= time (outb port v c) <= time c + slow;
  inb_keeps port c : one_shot (inb port c).2 = one_shot c /\ fires (inb port c).2 = fires c /\ gate_of (inb port c).2 = gate_of c;
  inb_output c t : fires c = Some t -> (Z.land (inb control_port c).1 0x20 =? 0) = (time c <? t);
  inb_byte port c : 0 <= (inb port c).1 < 2 ^ 8;
  program lo hi c : one_shot (outb 0x42 hi (outb 0x42 lo (outb 0x43 0xB2 c))) = Some (lo + 256 * hi);
  control_keeps v c : one_shot (outb control_port v c) = one_shot c;
  control_gate v c : gate_of (outb control_port v c) = Z.testbit v 0;
  gate_rises v c n : gate_of c = false -> Z.testbit v 0 = true -> one_shot c = Some n ->
    fires (outb control_port v c) = Some (time (outb control_port v c) + n * grain)
}.

Section correctness.
Context {C : Type} `{PitSpec C}.

Lemma wait_output_spec fuel c t : fires c = Some t -> (Z.to_nat (t - time c) < fuel)%nat ->
  exists c', wait_output fuel c = Some c' /\ t < time c' <= Z.max (t + 2 * slow) (time c + slow).
Proof.
  revert c. induction fuel as [|fuel IH]; intros c Hf Hn; [lia|]. cbn [wait_output].
  pose proof (inb_output c t Hf) as Ho. pose proof (inb_time control_port c) as Ht. pose proof (inb_keeps control_port c) as (_ & Hk & _).
  destruct (inb control_port c) as [v c1] eqn:E. cbn [fst snd] in *. rewrite Ho. destruct (Z.ltb_spec (time c) t) as [Hlt|Hge].
  - destruct (IH c1) as (c' & Ec & Hc); [congruence|lia|]. exists c'. split; [done|]. lia.
  - exists c1. split; [done|]. lia.
Qed.

Lemma gate_bits v : 0 <= v < 2 ^ 8 -> Z.testbit (u8 (Z.land v 0xFE)) 0 = false /\ Z.testbit (u8 (Z.lor (u8 (Z.land v 0xFE)) 1)) 0 = true.
Proof.
  intros Hv. unfold u8, wrap. rewrite !(Z.mod_pow2_bits_low _ 8 0) by lia. rewrite Z.lor_spec, Z.land_spec, !(Z.mod_pow2_bits_low _ 8 0) by lia.
  rewrite Z.land_spec. cbn. by rewrite andb_false_r.
Qed.

(** The channel is armed with the divisor when the gate goes up. *)
Lemma pit_start_fires divisor c : 0 <= divisor < 2 ^ 16 ->
  fires (pit_start divisor c) = Some (time (pit_start divisor c) + divisor * grain) /\ time c < time (pit_start divisor c) <= time c + 8 * slow.
Proof.
  intros Hd. unfold pit_start. destruct (inb control_port c) as [v1 c1] eqn:E1. pose proof (inb_time control_port c) as T1. rewrite E1 in T1. cbn [snd] in T1.
  set (c2 := outb control_port _ c1). set (c3 := outb 0x43 _ c2). set (lo := u8 (Z.land divisor 0xFF)). set (hi := u8 (Z.shiftr divisor 8)).
  set (c4 := outb 0x42 lo c3). set (c5 := outb 0x42 hi c4).
  assert (one_shot c5 = Some divisor) as Hs.
  { unfold c5, c4, c3. rewrite program. f_equal. unfold lo, hi, u8, wrap. change 0xFF with (Z.ones 8). rewrite Z.land_ones, Z.shiftr_div_pow2 by lia. dlia. }
  destruct (inb control_port c5) as [v2 c6] eqn:E6. pose proof (inb_keeps control_port c5) as (K1 & _ & _). pose proof (inb_time control_port c5) as T6.
  pose proof (inb_byte control_port c5) as B6. rewrite E6 in K1, T6, B6. cbn [fst snd] in *.
  set (gate := u8 (Z.land v2 0xFE)). set (c7 := outb control_port gate c6). set (v8 := u8 (Z.lor gate 1)). destruct (gate_bits v2 B6) as [G0 G1].
  set (c8 := outb control_port v8 c7).
  assert (time c1 <= time c2 <= time c1 + slow) by apply outb_time. assert (time c2 <= time c3 <= time c2 + slow) by apply outb_time.
  assert (time c3 <= time c4 <= time c3 + slow) by apply outb_time. assert (time c4 <= time c5 <= time c4 + slow) by apply outb_time.
  assert (time c6 <= time c7 <= time c6 + slow) by apply outb_time. assert (time c7 <= time c8 <= time c7 + slow) by apply outb_time.
  split; [|lia].
  apply gate_rises; [unfold c7; by rewrite control_gate|done|]. unfold c7. rewrite control_keeps. congruence.
Qed.

(** [pit_wait] returns, no sooner than [divisor] ticks of the timer after it was called and
    no later than ten slow accesses after that. *)
Lemma pit_wait_bounded divisor fuel c : 0 <= divisor < 2 ^ 16 -> divisor * grain < Z.of_nat fuel -> 0 <= slow ->
  exists c', pit_wait fuel divisor c = Some c' /\ divisor * grain < time c' - time c <= divisor * grain + 10 * slow.
Proof.
  intros Hd Hf Hsl. pose proof grain_pos. destruct (pit_start_fires divisor c Hd) as [Hfi Ht]. unfold pit_wait.
  destruct (wait_output_spec fuel (pit_start divisor c) _ Hfi) as (c' & E & Hc); [lia|]. exists c'. split; [done|]. lia.
Qed.

(** C34: Calibration ends and finds the rate of the time stamp counter: when the counter moves
    [f] times in a unit of time, and so [f * grain * 1193182] times a second, the frequency
    [tsc_calibrate] stores is lower than that by less than 69 parts in a million, which
    is the rounding of the divisor, and higher by no more than ten slow accesses make up. *)
Theorem tsc_calibrate_accurate fuel read_tsc k c f :
  (forall c c', time c <= time c' -> read_tsc c' - read_tsc c = f * (time c' - time c)) ->
  0 < f -> 11931 * grain < Z.of_nat fuel -> 0 <= slow -> f * (11931 * grain + 10 * slow) * 100 < 2 ^ 64 ->
  exists k' c', tsc_calibrate fuel read_tsc k c = Some (k', c') /\ tsc_origin k' = read_tsc c' /\
    f * grain * pit_hz * (1000000 - 69) <= tsc_hz k' * 1000000 /\ tsc_hz k' <= f * grain * pit_hz + f * 100 * (10 * slow).
Proof.
  intros Hrate Hf Hfuel Hslow Hb. pose proof grain_pos as Hg. unfold tsc_calibrate. change (pit_hz / interval_hz) with 11931.
  destruct (pit_wait_bounded 11931 fuel c) as (c' & E & Ht); [lia..|]. rewrite E. cbn [mbind option_bind].
  eexists _, c'. split; [reflexivity|]. unfold Clock.tsc_calibrate. cbn [tsc_hz tsc_origin]. split; [done|].
  rewrite Hrate by lia. set (d := time c' - time c) in *. clearbody d. unfold interval_hz, pit_hz.
  assert (0 <= f * d) as Hlo by nia. assert (f * d <= f * (11931 * grain + 10 * slow)) as Hhi by nia.
  rewrite (u64_small (f * d)) by lia. rewrite u64_small by lia. split; nia.
Qed.

End correctness.

(** ** A chip *)

(** Every access takes one unit, which is a tick.  The first of two writes of the count is
    in [half]. *)
Record chip := mkChip { at_ : Z; ctrl : Z; mode : Z; half : option Z; loaded : option Z; ends : option Z }.

Definition chip_out (port v : Z) (c : chip) : chip :=
  if port =? 0x43 then mkChip (at_ c + 1) (ctrl c) v None None (ends c)
  else if port =? 0x42 then
    match half c with
    | None => mkChip (at_ c + 1) (ctrl c) (mode c) (Some v) (loaded c) (ends c)
    | Some lo => mkChip (at_ c + 1) (ctrl c) (mode c) None (if mode c =? 0xB2 then Some (lo + 256 * v) else None) (ends c)
    end
  else if port =? control_port then
    mkChip (at_ c + 1) v (mode c) (half c) (loaded c)
      (match loaded c with Some n => if negb (Z.testbit (ctrl c) 0) && Z.testbit v 0 then Some (at_ c + 1 + n) else ends c | None => ends c end)
  else mkChip (at_ c + 1) (ctrl c) (mode c) (half c) (loaded c) (ends c).

#[local] Instance chip_pit : Pit chip := {|
  outb := chip_out;
  inb port c := (Z.lor (u8 (Z.land (ctrl c) 0xDF)) (match ends c with Some t => if at_ c <? t then 0 else 0x20 | None => 0 end),
    mkChip (at_ c + 1) (ctrl c) (mode c) (half c) (loaded c) (ends c));
  time := at_; grain := 1 |}.

#[local] Instance chip_spec : PitSpec chip.
Proof.
  unshelve refine {| one_shot := loaded; fires := ends; gate_of c := Z.testbit (ctrl c) 0; slow := 1 |}.
  - cbn. lia.
  - intros port c. cbn. lia.
  - intros port v c. cbn. unfold chip_out. repeat case_match; cbn; lia.
  - done.
  - intros c t Ht. cbn. rewrite Ht. assert (Z.land (u8 (Z.land (ctrl c) 223)) 32 = 0) as E.
    { apply Z.bits_inj'. intros i Hi. rewrite Z.land_spec, Z.bits_0. unfold u8, wrap. destruct (decide (i = 5)) as [->|Hne].
      - rewrite Z.mod_pow2_bits_low, Z.land_spec by lia. cbn. by rewrite andb_false_r.
      - change 32 with (2 ^ 5). rewrite (Z.pow2_bits_false 5 i) by lia. apply andb_false_r. }
    rewrite Z.land_lor_distr_l, E, Z.lor_0_l. by destruct (at_ c <? t).
  - intros port c. cbn. assert (0 <= u8 (Z.land (ctrl c) 223) < 2 ^ 8) as Hu by (unfold u8, wrap; apply Z.mod_pos_bound; lia).
    assert (forall x, x = 0 \/ x = 32 -> 0 <= Z.lor (u8 (Z.land (ctrl c) 223)) x < 2 ^ 8) as Hx.
    { intros x Hx. assert (0 <= x < 2 ^ 8) as Hx' by (destruct Hx as [->| ->]; lia). split; [apply Z.lor_nonneg; lia|].
      destruct (Z.lor_nonneg (u8 (Z.land (ctrl c) 223)) x) as [_ Hn]. specialize (Hn ltac:(lia)).
      destruct (Z.eq_dec (Z.lor (u8 (Z.land (ctrl c) 223)) x) 0) as [->|Hz]; [lia|]. apply Z.log2_lt_pow2; [lia|]. rewrite Z.log2_lor by lia.
      apply Z.max_lub_lt; [destruct (Z.eq_dec (u8 (Z.land (ctrl c) 223)) 0) as [->|]; [cbn; lia|apply Z.log2_lt_pow2; lia]|destruct Hx as [->| ->]; cbn; lia]. }
    apply Hx. destruct (ends c); [destruct (at_ c <? z)|]; auto.
  - done.
  - done.
  - done.
  - intros v c n Hg Hv Hn. cbn in *. unfold chip_out. cbn. rewrite Hn, Hg, Hv. cbn. f_equal. lia.
Defined.

Definition power_on : chip := mkChip 0 0 0 None None None.

Lemma tsc_calibrate_accurate_witness : exists k c,
  tsc_calibrate 12000 (fun c => 3000 * at_ c) Clock.initial power_on = Some (k, c) /\ 3000 * 1193182 * (1000000 - 69) <= tsc_hz k * 1000000 /\ tsc_hz k <= 3000 * 1193182 + 3000000.
Proof.
  destruct (tsc_calibrate_accurate (C := chip) 12000 (fun c => 3000 * at_ c) Clock.initial power_on 3000) as (k & c & E & _ & Hlo & Hhi).
  - intros c c' Hc. cbn. lia.
  - lia.
  - cbn. lia.
  - cbn. lia.
  - cbn. lia.
  - exists k, c. split; [exact E|]. change (@grain chip chip_pit) with 1 in *. change (@slow chip chip_pit chip_spec) with 1 in *.
    unfold pit_hz in *. split; lia.
Defined.
