(* ===== verification/Timers.v ===== *)
(** * Timers (src/kernel/time/timers.cpp)

    A table of 64 timers multiplexed over one hardware timer.  Readings of the clock
    are arguments, commands to the hardware are appended to the log [hw], and [W] is
    the rest of the kernel, which callbacks change; a callback may also arm and cancel
    timers. *)

From S2P Require Import Prelude.

Definition max_timers : nat := 64.
Definition minimum_delay_ns : Z := 100000.
Definition fallback_tick_ns : Z := 10000000.
Definition invalid_timer : Z := 0.

Record Timer := mkTimer {
  deadline : Z; period : Z; callback : Z; context : Z; handle : Z; active : bool
}.

(** Commands to the hardware and to the interrupt code. *)
Inductive command :=
  | LapicStop
  | LapicOneshot (ns : Z)
  | Outb (port value : Z)
  | IrqRegister (line : Z)
  | IrqUnmask (line : Z).

Record state := mk {
  timers : list Timer; next_handle : Z; tick_count : Z; lapic_driven : bool; hw : list command
}.

Definition initial : state := mk (replicate 64 (mkTimer 0 0 0 0 0 false)) 1 0 false [].

Definition set_timers (s : state) (ts : list Timer) : state :=
  mk ts (next_handle s) (tick_count s) (lapic_driven s) (hw s).
Definition emit (s : state) (c : command) : state :=
  mk (timers s) (next_handle s) (tick_count s) (lapic_driven s) (hw s ++ [c]).

(** The index of the first inactive slot. *)
Fixpoint find_free (ts : list Timer) : option nat :=
  match ts with
  | [] => None
  | t :: ts' => if negb (active t) then Some O else S <$> find_free ts'
  end.

(** The loop of [program_next]: [None] is [!found]. *)
Definition earliest_step (found : option Z) (t : Timer) : option Z :=
  if negb (active t) then found
  else match found with
       | None => Some (deadline t)
       | Some e => if deadline t <? e then Some (deadline t) else found
       end.

Definition program_next (now : Z) (s : state) : state :=
  if negb (lapic_driven s) then s
  else
    match fold_left earliest_step (timers s) None with
    | None => emit s LapicStop
    | Some earliest =>
      let delay := if now <? earliest then earliest - now else minimum_delay_ns in
      emit s (LapicOneshot (if delay <? minimum_delay_ns then minimum_delay_ns else delay))
    end.

(** [now] is the reading for the deadline, [now'] the later one in [program_next]. *)
Definition arm (now now' delay_ns period_ns callback context : Z) (s : state) : Z * state :=
  if callback =? 0 then (invalid_timer, s)
  else
    match find_free (timers s) with
    | None => (invalid_timer, s)
    | Some i =>
      let t := mkTimer (u64 (now + delay_ns)) period_ns callback context (next_handle s) true in
      let s := mk (<[i := t]> (timers s)) (u32 (next_handle s + 1)) (tick_count s) (lapic_driven s) (hw s) in
      (handle t, program_next now' s)
    end.

Definition timer_after (now now' delay_ns callback context : Z) (s : state) : Z * state :=
  arm now now' delay_ns 0 callback context s.

Definition timer_every (now now' period_ns callback context : Z) (s : state) : Z * state :=
  arm now now' period_ns period_ns callback context s.

Definition jiffy_tick (s : state) : state :=
  mk (timers s) (next_handle s) (u64 (tick_count s + 1)) (lapic_driven s) (hw s).

Definition deactivate (t : Timer) : Timer :=
  mkTimer (deadline t) (period t) (callback t) (context t) (handle t) false.

(** The index of the first active timer with the handle. *)
Fixpoint find_handle (h : Z) (ts : list Timer) : option nat :=
  match ts with
  | [] => None
  | t :: ts' => if active t && (handle t =? h) then Some O else S <$> find_handle h ts'
  end.

Definition timer_cancel (now h : Z) (s : state) : state :=
  match find_handle h (timers s) with
  | None => s
  | Some i => program_next now (set_timers s (alter deactivate i (timers s)))
  end.

(** What [timers_run] does to a due timer before calling it. *)
Definition rearm (now : Z) (t : Timer) : Timer :=
  if negb (period t =? 0)
  then mkTimer (u64 (now + period t)) (period t) (callback t) (context t) (handle t) (active t)
  else deactivate t.

Definition due (now : Z) (t : Timer) : bool := active t && (deadline t <=? now).

Section run.
  Context {W : Type} (call : Z -> Z -> state * W -> state * W).

(** One slot; [None] is an index past the table. *)
Definition run_slot (now : Z) (i : Z) (sw : state * W) : option (state * W) :=
  t ← timers sw.1 !! Z.to_nat i;
  if negb (active t) || (now <? deadline t) then Some sw
  else
    let s := set_timers sw.1 (alter (rearm now) (Z.to_nat i) (timers sw.1)) in
    Some (call (callback t) (context t) (s, sw.2)).

Definition timers_run (now now' : Z) (sw : state * W) : option (state * W) :=
  '(s, w) ← for_o 0 (Z.of_nat max_timers) (run_slot now) sw;
  Some (program_next now' s, w).

End run.

Definition jiffy_callback : Z := 1.

(** The legacy timer is programmed to 100 Hz and its line 0 unmasked when there is no
    local APIC; then the 10 ms jiffy timer is armed. *)
Definition timers_init (lapic_present : bool) (now now' : Z) (s : state) : state :=
  let s := mk (timers s) (next_handle s) (tick_count s) lapic_present (hw s) in
  let s :=
    if negb lapic_present then
      let divisor := 1193182 / 100 in
      let s := emit s (Outb 0x43 0x36) in
      let s := emit s (Outb 0x40 (u8 (Z.land divisor 0xFF))) in
      let s := emit s (Outb 0x40 (u8 (Z.land (Z.shiftr divisor 8) 0xFF))) in
      emit (emit s (IrqRegister 0)) (IrqUnmask 0)
    else s in
  (timer_every now now' fallback_tick_ns jiffy_callback 0 s).2.

Definition ticks (s : state) : Z := tick_count s.

(** ** The table *)

Lemma find_free_spec ts : match find_free ts with
  | None => Forall (fun t => active t = true) ts
  | Some i => exists t, ts !! i = Some t /\ active t = false
  end.
Proof.
  induction ts as [|t ts IH]; cbn [find_free]; [constructor|].
  destruct (active t) eqn:Ea; cbn [negb]; [|by exists t].
  destruct (find_free ts) as [i|]; cbn [fmap option_fmap option_map].
  - destruct IH as (t' & H1 & H2). by exists t'.
  - by constructor.
Qed.

Lemma find_handle_spec h ts : match find_handle h ts with
  | None => Forall (fun t => active t = true -> handle t <> h) ts
  | Some i => exists t, ts !! i = Some t /\ active t = true /\ handle t = h
  end.
Proof.
  induction ts as [|t ts IH]; cbn [find_handle]; [constructor|].
  destruct (active t) eqn:Ea; cbn [andb].
  - destruct (Z.eqb_spec (handle t) h) as [Eh|Eh]; [by exists t|].
    destruct (find_handle h ts) as [i|]; cbn [fmap option_fmap option_map]; [by destruct IH as (t' & ?); exists t'|].
    by constructor.
  - destruct (find_handle h ts) as [i|]; cbn [fmap option_fmap option_map]; [by destruct IH as (t' & ?); exists t'|].
    constructor; [congruence|done].
Qed.

(** The minimum of the active deadlines. *)
Definition nearest (ts : list Timer) (e : Z) : Prop :=
  (exists t, t ∈ ts /\ active t = true /\ deadline t = e) /\
  forall t, t ∈ ts -> active t = true -> e <= deadline t.

Lemma earliest_spec ts acc : match fold_left earliest_step ts acc with
  | None => acc = None /\ Forall (fun t => active t = false) ts
  | Some e => (acc = Some e \/ exists t, t ∈ ts /\ active t = true /\ deadline t = e) /\
      (forall a, acc = Some a -> e <= a) /\ forall t, t ∈ ts -> active t = true -> e <= deadline t
  end.
Proof.
  revert acc. induction ts as [|t ts IH]; intros acc; cbn [fold_left].
  { destruct acc as [a|]; [|by split]. split_and!; [by left|intros ? [= <-]; lia|].
    intros t Ht. by apply elem_of_nil in Ht. }
  specialize (IH (earliest_step acc t)). destruct (fold_left _ _ _) as [e|].
  - destruct IH as (H1 & H2 & H3). unfold earliest_step in *.
    destruct (active t) eqn:Ea; cbn [negb] in *.
    + destruct acc as [a|].
      * destruct (Z.ltb_spec (deadline t) a) as [Hl|Hl].
        -- specialize (H2 _ eq_refl). split_and!.
           ++ right. destruct H1 as [[= H1]|(t' & ? & ?)]; [exists t|exists t'];
                (split; [set_solver|first [done|by split]]).
           ++ intros ? [= <-]. lia.
           ++ intros t' [->|Ht']%elem_of_cons; [lia|by apply H3].
        -- specialize (H2 _ eq_refl). split_and!.
           ++ destruct H1 as [H1|(t' & ? & ?)]; [by left|right; exists t'; split; [set_solver|done]].
           ++ intros ? [= <-]. lia.
           ++ intros t' [->|Ht']%elem_of_cons; [lia|by apply H3].
      * specialize (H2 _ eq_refl). split_and!.
        -- right. destruct H1 as [[= H1]|(t' & ? & ?)]; [exists t|exists t'];
             (split; [set_solver|first [done|by split]]).
        -- done.
        -- intros t' [->|Ht']%elem_of_cons; [lia|by apply H3].
    + split_and!; [|done|].
      * destruct H1 as [H1|(t' & ? & ?)]; [by left|right; exists t'; split; [set_solver|done]].
      * intros t' [->|Ht']%elem_of_cons; [congruence|by apply H3].
  - destruct IH as [H1 H2]. unfold earliest_step in H1. destruct (active t) eqn:Ea; cbn [negb] in H1.
    + destruct acc as [a|]; [|done]. destruct (_ <? _); done.
    + by split; [|constructor].
Qed.

(** The hardware timer is programmed for the nearest deadline only: with the local
    APIC, [program_next] sends exactly one command, a stop when no timer is active,
    and otherwise a one-shot whose delay reaches the earliest active deadline but is
    never below the minimum, so it never fires late by more than that minimum. *)
Theorem program_next_nearest now s :
  lapic_driven s = true ->
  timers (program_next now s) = timers s /\
  ((Forall (fun t => active t = false) (timers s) /\ hw (program_next now s) = hw s ++ [LapicStop]) \/
   exists e, nearest (timers s) e /\
     hw (program_next now s) = hw s ++ [LapicOneshot (Z.max minimum_delay_ns (e - now))]).
Proof.
  intros Hl. unfold program_next. rewrite Hl. cbn [negb].
  pose proof (earliest_spec (timers s) None) as H. destruct (fold_left _ _ _) as [e|].
  - destruct H as ([?|H1] & _ & H3); [done|]. split; [done|]. right. exists e. split; [by split|].
    cbn [emit hw]. do 3 f_equal. unfold minimum_delay_ns.
    destruct (Z.ltb_spec now e).
    + destruct (Z.ltb_spec (e - now) 100000); lia.
    + destruct (Z.ltb_spec 100000 100000); lia.
  - destruct H as [_ H]. split; [done|]. by left.
Qed.

Definition demo : state :=
  mk ([mkTimer 500000 0 7 1 1 true; mkTimer 90000 100000 8 2 2 true; mkTimer 9 0 9 3 3 false] ++
      replicate 61 (mkTimer 0 0 0 0 0 false)) 4 0 true [].

Lemma program_next_nearest_witness :
  exists e, nearest (timers demo) e /\
    hw (program_next 20000 demo) = [LapicOneshot (Z.max minimum_delay_ns (e - 20000))].
Proof.
  destruct (program_next_nearest 20000 demo eq_refl) as [_ [[H _]|(e & H1 & H2)]].
  - exfalso. cbn [timers demo app] in H. by inversion H.
  - exists e. split; [done|]. exact H2.
Defined.

(** ** Running the due timers *)

Lemma program_next_timers now s : timers (program_next now s) = timers s.
Proof. unfold program_next. destruct (lapic_driven s); [|done]. cbn [negb]. by destruct (fold_left _ _ _). Qed.
Lemma program_next_next_handle now s : next_handle (program_next now s) = next_handle s.
Proof. unfold program_next. destruct (lapic_driven s); [|done]. cbn [negb]. by destruct (fold_left _ _ _). Qed.







(** Of two timers that are due in the same run the one in the earlier slot is called first,
    whatever their deadlines. *)
Example slots_before_deadlines :
  snd <$> timers_run (fun c x sw => (sw.1, sw.2 ++ [c])) 1000 1000
    (mk ([mkTimer 900 0 7 0 1 true; mkTimer 100 0 8 0 2 true] ++ replicate 62 (mkTimer 0 0 0 0 0 false)) 3 0 true [], [])
  = Some [7; 8].
Proof. vm_compute. reflexivity. Qed.


(** ** Handles *)

(** One critical section of the timer code: arming, cancelling, or the part of
    [timers_run] that takes a due timer before its callback is called. *)
Inductive step : state -> state -> Prop :=
  | step_arm now now' d p c x s : step s (arm now now' d p c x s).2
  | step_cancel now h s : step s (timer_cancel now h s)
  | step_fire now i t s : timers s !! i = Some t -> due now t = true ->
      step s (set_timers s (alter (rearm now) i (timers s)))
  | step_program now s : step s (program_next now s)
  | step_tick s : step s (jiffy_tick s).

(** Reachable in [n] steps. *)
Inductive reachable : nat -> state -> Prop :=
  | reach_init lapic : reachable 0 (mk (timers initial) 1 0 lapic [])
  | reach_step n s s' : reachable n s -> step s s' -> reachable (S n) s'.

Definition handles_ok (ts : list Timer) (next : Z) : Prop :=
  (forall i t, ts !! i = Some t -> active t = true -> 0 < handle t < next) /\
  (forall i j t u, ts !! i = Some t -> ts !! j = Some u -> active t = true -> active u = true ->
     handle t = handle u -> i = j).

Lemma handles_alter ts next g i :
  (forall t, active (g t) = true -> active t = true) -> (forall t, handle (g t) = handle t) ->
  handles_ok ts next -> handles_ok (alter g i ts) next.
Proof.
  intros Ha Hh [H1 H2].
  assert (forall j t, alter g i ts !! j = Some t -> active t = true ->
    exists t0, ts !! j = Some t0 /\ active t0 = true /\ handle t0 = handle t) as Hback.
  { intros j t Ht Hact. destruct (decide (i = j)) as [->|Hne].
    - rewrite list_lookup_alter_eq in Ht. destruct (ts !! j) as [t0|] eqn:E; [|done].
      simpl in Ht. injection Ht as <-. exists t0. split_and!; [done|by apply Ha|by rewrite Hh].
    - rewrite list_lookup_alter_ne in Ht by done. by exists t. }
  split.
  - intros j t Ht Hact. destruct (Hback _ _ Ht Hact) as (t0 & ? & ? & <-). by eapply H1.
  - intros j k t u Ht Hu Hat Hau E.
    destruct (Hback _ _ Ht Hat) as (t0 & ? & ? & E1). destruct (Hback _ _ Hu Hau) as (u0 & ? & ? & E2).
    eapply (H2 j k t0 u0); [done..|congruence].
Qed.

Lemma handles_insert ts next i t0 :
  handle t0 = next -> 0 < next -> (forall t, ts !! i = Some t -> active t = false) ->
  handles_ok ts next -> handles_ok (<[i := t0]> ts) (next + 1).
Proof.
  intros Hh Hn Hi [H1 H2]. split.
  - intros j t Ht Hact. apply list_lookup_insert_Some in Ht as [(-> & -> & _)|[_ Ht]]; [lia|].
    specialize (H1 _ _ Ht Hact). lia.
  - intros j k t u Ht Hu Hat Hau E.
    apply list_lookup_insert_Some in Ht as [(<- & <- & _)|[Hj Ht]];
    apply list_lookup_insert_Some in Hu as [(<- & <- & _)|[Hk Hu]]; [done| | |by eapply H2].
    + specialize (H1 _ _ Hu Hau). lia.
    + specialize (H1 _ _ Ht Hat). lia.
Qed.

Record inv (n : nat) (s : state) : Prop := {
  inv_length : length (timers s) = max_timers;
  inv_next : 1 <= next_handle s <= Z.of_nat n + 1;
  inv_handles : handles_ok (timers s) (next_handle s)
}.

Lemma inv_weaken n s : inv n s -> inv (S n) s.
Proof. intros [? ? ?]. constructor; [done|lia|done]. Qed.

Lemma inv_program n now s : inv n s -> inv n (program_next now s).
Proof.
  intros [? ? ?]. constructor; rewrite ?program_next_timers, ?program_next_next_handle; done.
Qed.

Lemma inv_alter n s g i :
  (forall t, active (g t) = true -> active t = true) -> (forall t, handle (g t) = handle t) ->
  inv n s -> inv n (set_timers s (alter g i (timers s))).
Proof.
  intros Ha Hh [H1 H2 H3]. constructor; cbn [set_timers timers next_handle]; [|done|by apply handles_alter].
  by rewrite length_alter.
Qed.

Lemma timers_step_inv n s s' : Z.of_nat n + 2 < 2 ^ 32 -> inv n s -> step s s' -> inv (S n) s'.
Proof.
  intros Hn Hi Hs. destruct Hs as [now now' d p c x s|now h s|now i t s Ht Hd|now s|s].
  - unfold arm. destruct (c =? 0); [by apply inv_weaken|].
    pose proof (find_free_spec (timers s)) as Hf. destruct (find_free (timers s)) as [i|]; [|by apply inv_weaken].
    cbn [snd]. apply inv_program. destruct Hf as (t & Ht & Ha). destruct Hi as [H1 H2 H3].
    assert (u32 (next_handle s + 1) = next_handle s + 1) as E by (apply u32_small; lia).
    constructor; cbn [timers next_handle]; rewrite ?E; [by rewrite length_insert|lia|].
    apply handles_insert; [done|lia|congruence|done].
  - unfold timer_cancel. destruct (find_handle _ _); [|by apply inv_weaken].
    apply inv_program, inv_weaken, inv_alter; done.
  - apply inv_weaken, inv_alter; [| |done]; intros t0; unfold rearm; by destruct (negb _).
  - by apply inv_weaken, inv_program.
  - apply inv_weaken. by destruct Hi.
Qed.

Lemma timers_reachable_inv n s : reachable n s -> Z.of_nat n + 1 < 2 ^ 32 -> inv n s.
Proof.
  induction 1 as [lapic|n s s' Hr IH Hs]; intros Hn.
  - constructor; [reflexivity|simpl; lia|]. split; cbn [timers initial].
    + intros i t Ht Ha. apply lookup_replicate in Ht as [-> _]. done.
    + intros i j t u Ht _ Ha. apply lookup_replicate in Ht as [-> _]. done.
  - eapply timers_step_inv; [lia|apply IH; lia|done].
Qed.

(** A handle names one timer: for the first 2^32 - 2 operations, whatever callbacks
    arm and cancel in between, the handle [arm] returns is 0 exactly when nothing was
    armed, no active timer had it before, and cancelling a handle stops the timer
    that has it and no other. *)
Theorem timer_handles_unique n s :
  reachable n s -> Z.of_nat n + 2 < 2 ^ 32 ->
  (forall now now' d p c x h s', arm now now' d p c x s = (h, s') ->
     (h = invalid_timer <-> timers s' = timers s) /\
     (forall t, t ∈ timers s -> active t = true -> handle t <> h)) /\
  (forall now h t, t ∈ timers (timer_cancel now h s) -> active t = true ->
     handle t <> h /\ t ∈ timers s) /\
  (forall now h t, t ∈ timers s -> active t = true -> handle t <> h -> t ∈ timers (timer_cancel now h s)).
Proof.
  intros Hr Hn. pose proof (timers_reachable_inv _ _ Hr ltac:(lia)) as [H1 H2 [H3 H4]]. split_and!.
  - intros now now' d p c x h s'. unfold arm.
    assert (forall t, t ∈ timers s -> active t = true -> handle t <> 0) as H0.
    { intros t [i Ht]%list_elem_of_lookup Ha. specialize (H3 _ _ Ht Ha). lia. }
    destruct (c =? 0); [intros [= <- <-]; by split|].
    pose proof (find_free_spec (timers s)) as Hf. destruct (find_free (timers s)) as [i|];
      [|intros [= <- <-]; by split].
    intros [= <- <-]. rewrite program_next_timers. cbn [timers]. destruct Hf as (t & Ht & Ha). split.
    + unfold invalid_timer. split; [lia|]. intros E. exfalso.
      assert (timers s !! i = Some (mkTimer (u64 (now + d)) p c x (next_handle s) true)) as Hc.
      { rewrite <- E. apply list_lookup_insert_eq. by eapply lookup_lt_Some. }
      rewrite Ht in Hc. injection Hc as ->. done.
    + intros u [j Hu]%list_elem_of_lookup Hau. specialize (H3 _ _ Hu Hau). lia.
  - intros now h t. unfold timer_cancel. pose proof (find_handle_spec h (timers s)) as Hf.
    destruct (find_handle h (timers s)) as [i|].
    + rewrite program_next_timers. cbn [set_timers timers]. intros [j Hj]%list_elem_of_lookup Ha.
      destruct Hf as (u & Hu & Hau & Hh). destruct (decide (i = j)) as [->|Hne].
      * rewrite list_lookup_alter_eq, Hu in Hj. simpl in Hj. injection Hj as <-. done.
      * rewrite list_lookup_alter_ne in Hj by done. split; [|by eapply list_elem_of_lookup_2].
        intros Eh. apply Hne. eapply (H4 i j u t); [done..|congruence].
    + intros Ht Ha. split; [|done]. rewrite list.Forall_forall in Hf. by apply Hf.
  - intros now h t Ht Ha Hne. unfold timer_cancel. pose proof (find_handle_spec h (timers s)) as Hf.
    destruct (find_handle h (timers s)) as [i|]; [|done]. rewrite program_next_timers. cbn [set_timers timers].
    apply list_elem_of_lookup in Ht as [j Ht]. destruct Hf as (u & Hu & Hau & Hh).
    apply (list_elem_of_lookup_2 _ j). rewrite list_lookup_alter_ne; [done|]. congruence.
Qed.

Lemma timer_handles_unique_witness :
  exists s, reachable 1 s /\ (forall t, t ∈ timers (timer_cancel 5 1 s) -> active t = true -> handle t <> 1 /\ t ∈ timers s).
Proof.
  exists (arm 0 0 10 0 7 7 (mk (timers initial) 1 0 true [])).2.
  assert (reachable 1 (arm 0 0 10 0 7 7 (mk (timers initial) 1 0 true [])).2) as Hr.
  { eapply reach_step; [apply (reach_init true)|constructor]. }
  split; [exact Hr|]. apply (timer_handles_unique 1 _ Hr). lia.
Defined.

(** After 2^32 - 1 timers the counter comes back to 0: the timer is armed but its
    handle is [invalid_timer]. *)
Lemma arm_handle_wraps now now' d p c x s :
  c <> 0 -> next_handle s = 0 -> (exists t, t ∈ timers s /\ active t = false) ->
  (arm now now' d p c x s).1 = invalid_timer /\
  exists t, t ∈ timers (arm now now' d p c x s).2 /\ active t = true /\ callback t = c.
Proof.
  intros Hc Hn (t & Ht & Ha). unfold arm. rewrite (proj2 (Z.eqb_neq c 0) Hc).
  pose proof (find_free_spec (timers s)) as Hf. destruct (find_free (timers s)) as [i|].
  - cbn [fst snd handle]. split; [done|]. rewrite program_next_timers. cbn [timers].
    destruct Hf as (u & Hu & _). exists (mkTimer (u64 (now + d)) p c x (next_handle s) true).
    split; [|done]. apply (list_elem_of_lookup_2 _ i). apply list_lookup_insert_eq.
    by eapply lookup_lt_Some.
  - rewrite list.Forall_forall in Hf. specialize (Hf _ Ht). congruence.
Qed.
