(* ===== verification/Segments.v ===== *)
(** * Descriptors and per-CPU data (src/kernel/cpu/gdt.cpp, tss.cpp, percpu.cpp, and the
      gates of src/kernel/cpu/idt.cpp)

    The tables as the CPU reads them.  A [PerCpu] block has the fields these files use;
    loading the tables into the CPU is the hardware's part. *)

From S2P Require Import Prelude Memory Stacks.

Definition max_cpus : nat := 8.
Definition ist_double_fault : Z := 1.
Definition ist_nmi : Z := 2.
Definition ist_machine_check : Z := 3.
Definition sizeof_Tss : Z := 104.

Record Tss := mkTss { rsp : list Z; ist : list Z; iomap_base : Z }.
Definition zero_tss : Tss := mkTss (replicate 3 0) (replicate 7 0) 0.

Record PerCpu := mkCpu { self : Z; index : Z; apic_id : Z; online : bool; kernel_stack_top : Z; gdt : list Z; tss : Tss }.
Definition zero_cpu : PerCpu := mkCpu 0 0 0 false 0 (replicate 9 0) zero_tss.

(** ** The descriptor table (gdt.cpp) *)

Definition descriptor (access flags : Z) : Z := Z.lor (Z.shiftl access 40) (Z.shiftl flags 52).

(** [base]: the address of the block's [tss]. *)
Definition tss_low (base limit : Z) : Z :=
  Z.lor (Z.lor (Z.lor (Z.lor (Z.land limit 0xFFFF) (u64 (Z.shiftl (Z.land base 0xFFFFFF) 16))) (Z.shiftl 0x89 40))
    (u64 (Z.shiftl (Z.land (Z.shiftr limit 16) 0xF) 48))) (u64 (Z.shiftl (Z.land (Z.shiftr base 24) 0xFF) 56)).
Definition tss_high (base : Z) : Z := Z.shiftr base 32.

Definition gdt_init_cpu (tss_address : Z) (cpu : PerCpu) : PerCpu :=
  mkCpu (self cpu) (index cpu) (apic_id cpu) (online cpu) (kernel_stack_top cpu)
    [0; descriptor 0x9A 0xA; descriptor 0x92 0xA; descriptor 0xFA 0xC; descriptor 0xF2 0xA; descriptor 0xFA 0xA;
     tss_low tss_address (sizeof_Tss - 1); tss_high tss_address; 0] (tss cpu).

(** ** Gates (idt.cpp) *)

Record IdtEntry := mkGate { offset_low : Z; selector : Z; gate_ist : Z; type_attr : Z; offset_mid : Z; offset_high : Z }.

Definition ist_for_vector (vector : Z) : Z :=
  if vector =? 2 then ist_nmi else if vector =? 8 then ist_double_fault else if vector =? 18 then ist_machine_check else 0.

Definition set_gate (vector address : Z) : IdtEntry :=
  mkGate (u16 (Z.land address 0xFFFF)) 0x08 (ist_for_vector vector) 0x8E (u16 (Z.land (Z.shiftr address 16) 0xFFFF)) (u32 (Z.shiftr address 32)).

(** [stubs]: the table of entry points. *)
Definition idt_init (stubs : Z -> Z) : list IdtEntry := (fun v => set_gate v (stubs v)) <$> seqZ 0 256.

(** ** Task state (tss.cpp) *)

Definition tss_init_cpu (L : layout) (cpu : PerCpu) : PerCpu :=
  let ist := <[Z.to_nat (ist_machine_check - 1) := exception_stack_top L ist_machine_check]>
    (<[Z.to_nat (ist_nmi - 1) := exception_stack_top L ist_nmi]> (<[Z.to_nat (ist_double_fault - 1) := exception_stack_top L ist_double_fault]> (replicate 7 0))) in
  let rsp := if negb (kernel_stack_top cpu =? 0) then <[0%nat := kernel_stack_top cpu]> (replicate 3 0) else replicate 3 0 in
  mkCpu (self cpu) (index cpu) (apic_id cpu) (online cpu) (kernel_stack_top cpu) (gdt cpu) (mkTss rsp ist sizeof_Tss).

Definition tss_set_kernel_stack (stack_top : Z) (cpu : PerCpu) : PerCpu :=
  mkCpu (self cpu) (index cpu) (apic_id cpu) (online cpu) stack_top (gdt cpu) (mkTss (<[0%nat := stack_top]> (rsp (tss cpu))) (ist (tss cpu)) (iomap_base (tss cpu))).

(** ** Per-CPU blocks (percpu.cpp) *)

(** [gs] is where each CPU's [gs] base points; the CPU that runs is [me]. *)
Record percpu := mkPercpu { cpus : list PerCpu; online_count : Z; gs_ready : bool; gs : nat -> Z }.

(** [address i]: where block [i] of the array is.  [None] is the panic. *)
Definition percpu_setup (address : nat -> Z) (me : nat) (i apic : Z) (p : percpu) : option percpu :=
  if Z.of_nat max_cpus <=? i then None
  else
    let k := Z.to_nat i in
    let cpu := mkCpu (address k) i apic true 0 (gdt zero_cpu) (tss zero_cpu) in
    Some (mkPercpu (<[k := cpu]> (cpus p)) (online_count p + 1) true (fun c => if (c =? me)%nat then address k else gs p c)).

(** The block whose [self] the CPU reads through [gs]; block 0 before the first setup. *)
Definition this_cpu (address : nat -> Z) (me : nat) (p : percpu) : option nat :=
  if negb (gs_ready p) then Some 0%nat
  else List.find (fun k => address k =? gs p me) (seq 0 max_cpus).

Definition cpu_at (i : nat) (p : percpu) : option PerCpu := c ← cpus p !! i; if online c then Some c else None.
Definition cpu_online_count (p : percpu) : Z := if online_count p =? 0 then 1 else online_count p.

(** ** Properties *)

(** How the CPU puts the address of a gate and of a task segment together. *)
Definition gate_address (g : IdtEntry) : Z := offset_low g + 2 ^ 16 * offset_mid g + 2 ^ 32 * offset_high g.
Definition segment_base (low high : Z) : Z := low / 2 ^ 16 mod 2 ^ 24 + 2 ^ 24 * (low / 2 ^ 56) + 2 ^ 32 * high.
Definition segment_limit (low : Z) : Z := low mod 2 ^ 16 + 2 ^ 16 * (low / 2 ^ 48 mod 2 ^ 4).
Definition segment_type (low : Z) : Z := low / 2 ^ 40 mod 2 ^ 8.

Lemma land_mask x n : 0 <= n -> Z.land x (2 ^ n - 1) = x mod 2 ^ n.
Proof. intros Hn. rewrite <- Z.land_ones by lia. f_equal. rewrite Z.ones_equiv. lia. Qed.

Lemma gate_roundtrip vector a : 0 <= a < 2 ^ 64 -> gate_address (set_gate vector a) = a.
Proof.
  intros Ha. unfold gate_address, set_gate, u16, u32, wrap. cbn [offset_low offset_mid offset_high].
  change 0xFFFF with (2 ^ 16 - 1). rewrite !land_mask by lia. rewrite !Z.shiftr_div_pow2 by lia.
  change (2 ^ 16) with 65536. change (2 ^ 32) with 4294967296. change (2 ^ 64) with 18446744073709551616 in Ha. dlia.
Qed.

(** Disjoint fields add up. *)
Lemma lor_add_shift x y n : 0 <= n -> 0 <= x < 2 ^ n -> Z.lor x (Z.shiftl y n) = x + 2 ^ n * y.
Proof.
  intros Hn Hx. pose proof (Z.add_lor_land x (Z.shiftl y n)) as E. rewrite Z.shiftl_mul_pow2 in * by lia.
  assert (Z.land x (y * 2 ^ n) = 0) as E0; [|lia].
  rewrite <- Z.shiftl_mul_pow2 by lia. apply Z.bits_inj'. intros k Hk. rewrite Z.land_spec, Z.testbit_0_l, Z.shiftl_spec by lia.
  destruct (Z.lt_ge_cases k n); [rewrite (Z.testbit_neg_r y) by lia; apply andb_false_r|]. by rewrite (bit_beyond n x) by lia.
Qed.

Lemma tss_low_value base limit : 0 <= base < 2 ^ 64 -> 0 <= limit < 2 ^ 20 ->
  tss_low base limit = limit mod 2 ^ 16 + 2 ^ 16 * (base mod 2 ^ 24) + 2 ^ 40 * 0x89 + 2 ^ 48 * (limit / 2 ^ 16) + 2 ^ 56 * (base / 2 ^ 24 mod 2 ^ 8).
Proof.
  intros Hb Hl. unfold tss_low. change 0xFFFF with (2 ^ 16 - 1). change 0xFFFFFF with (2 ^ 24 - 1). change 0xFF with (2 ^ 8 - 1).
  change (Z.land (Z.shiftr limit 16) 0xF) with (Z.land (Z.shiftr limit 16) (2 ^ 4 - 1)). rewrite !land_mask by lia. rewrite !Z.shiftr_div_pow2 by lia.
  set (b0 := base mod 2 ^ 24). set (b1 := (base / 2 ^ 24) mod 2 ^ 8). set (l0 := limit mod 2 ^ 16). set (l1 := (limit / 2 ^ 16) mod 2 ^ 4).
  assert (0 <= b0 < 2 ^ 24 /\ 0 <= b1 < 2 ^ 8 /\ 0 <= l0 < 2 ^ 16 /\ 0 <= l1 < 2 ^ 4) as (B0 & B1 & L0 & L1) by (split_and!; apply Z.mod_pos_bound; lia).
  assert (limit / 2 ^ 16 = l1) as -> by (symmetry; apply Z.mod_small; change (2 ^ 16) with 65536; change (2 ^ 20) with 1048576 in Hl; change (2 ^ 4) with 16; dlia).
  rewrite !(u64_small (Z.shiftl _ _)) by (rewrite Z.shiftl_mul_pow2 by lia; lia).
  rewrite (lor_add_shift l0 b0 16) by lia. rewrite (lor_add_shift _ 0x89 40) by lia. rewrite (lor_add_shift _ l1 48) by lia. rewrite (lor_add_shift _ b1 56) by lia. lia.
Qed.

(** the CPU reads back what was encoded: every gate holds its handler's address and
    the interrupt stack of its vector, and the task segment's descriptor holds the
    segment's 64-bit base, its limit and the type of an available task state. *)
Theorem descriptors_roundtrip tss_address cpu stubs v :
  0 <= tss_address < 2 ^ 64 -> 0 <= v < 256 -> 0 <= stubs v < 2 ^ 64 ->
  (exists g, idt_init stubs !! Z.to_nat v = Some g /\ gate_address g = stubs v /\ gate_ist g = ist_for_vector v) /\
  exists low high, gdt (gdt_init_cpu tss_address cpu) !! 6%nat = Some low /\ gdt (gdt_init_cpu tss_address cpu) !! 7%nat = Some high /\
    segment_base low high = tss_address /\ segment_limit low = sizeof_Tss - 1 /\ segment_type low = 0x89.
Proof.
  intros Ha Hv Hs. split.
  - exists (set_gate v (stubs v)). split; [|split; [by apply gate_roundtrip|done]]. unfold idt_init. rewrite list_lookup_fmap, lookup_seqZ_lt by lia.
    cbn [fmap option_fmap option_map]. by replace (0 + Z.of_nat (Z.to_nat v)) with v by lia.
  - exists (tss_low tss_address (sizeof_Tss - 1)), (tss_high tss_address). split; [done|]. split; [done|].
    rewrite tss_low_value by (unfold sizeof_Tss; lia). unfold tss_high. rewrite Z.shiftr_div_pow2 by lia. unfold segment_base, segment_limit, segment_type, sizeof_Tss.
    change ((104 - 1) mod 2 ^ 16) with 103. change ((104 - 1) / 2 ^ 16) with 0. rewrite Z.mul_0_r.
    pose proof (Z.mod_pos_bound tss_address (2 ^ 24) ltac:(lia)) as B0. pose proof (Z.mod_pos_bound (tss_address / 2 ^ 24) (2 ^ 8) ltac:(lia)) as B1.
    assert (tss_address = tss_address mod 2 ^ 24 + 2 ^ 24 * ((tss_address / 2 ^ 24) mod 2 ^ 8) + 2 ^ 32 * (tss_address / 2 ^ 32)) as E.
    { change (2 ^ 24) with 16777216. change (2 ^ 8) with 256. change (2 ^ 32) with 4294967296. change (2 ^ 64) with 18446744073709551616 in Ha. clear B0 B1. dlia. }
    set (b0 := tss_address mod 2 ^ 24) in *. set (b1 := (tss_address / 2 ^ 24) mod 2 ^ 8) in *. set (x := 103 + 2 ^ 16 * b0 + 2 ^ 40 * 137 + 0 + 2 ^ 56 * b1).
    assert (x / 2 ^ 16 mod 2 ^ 24 = b0 /\ x / 2 ^ 56 = b1 /\ x mod 2 ^ 16 = 103 /\ x / 2 ^ 48 mod 2 ^ 4 = 0 /\ x / 2 ^ 40 mod 2 ^ 8 = 137) as (X1 & X2 & X3 & X4 & X5).
    { subst x. clearbody b0 b1. clear E. change (2 ^ 24) with 16777216 in *. change (2 ^ 8) with 256 in *. change (2 ^ 16) with 65536. change (2 ^ 40) with 1099511627776.
      change (2 ^ 48) with 281474976710656. change (2 ^ 56) with 72057594037927936. change (2 ^ 4) with 16. split_and!; dlia. }
    rewrite X1, X2, X3, X4, X5. split_and!; [lia|done|done].
Qed.

Lemma descriptors_roundtrip_witness :
  exists low high, gdt (gdt_init_cpu 0xFFFFFFFF80123456 zero_cpu) !! 6%nat = Some low /\ gdt (gdt_init_cpu 0xFFFFFFFF80123456 zero_cpu) !! 7%nat = Some high /\
    segment_base low high = 0xFFFFFFFF80123456.
Proof.
  destruct (descriptors_roundtrip 0xFFFFFFFF80123456 zero_cpu (fun v => 0x100000 + 16 * v) 14) as [_ (low & high & H1 & H2 & H3 & _)]; [lia..|].
  exists low, high. split; [exact H1|]. split; [exact H2|exact H3].
Defined.

(** All CPUs get the same interrupt stacks. *)
Lemma interrupt_stacks_shared L cpu cpu' : ist (tss (tss_init_cpu L cpu)) = ist (tss (tss_init_cpu L cpu')).
Proof. reflexivity. Qed.

(** A CPU that was set up finds its own block. *)
Lemma percpu_found address me i apic p p' : (forall j k, (j < max_cpus)%nat -> (k < max_cpus)%nat -> address j = address k -> j = k) ->
  length (cpus p) = max_cpus -> 0 <= i -> percpu_setup address me i apic p = Some p' ->
  this_cpu address me p' = Some (Z.to_nat i) /\ exists c, cpu_at (Z.to_nat i) p' = Some c /\ index c = i /\ apic_id c = apic /\ self c = address (Z.to_nat i).
Proof.
  intros Hinj Hl Hi E. unfold percpu_setup in E. destruct (Z.leb_spec (Z.of_nat max_cpus) i) as [|Hlt]; [done|]. injection E as <-. split.
  - unfold this_cpu. cbn [gs_ready negb gs]. rewrite Nat.eqb_refl. assert (Z.to_nat i ∈ seq 0 max_cpus) as Hin by (apply elem_of_seq; unfold max_cpus in *; lia).
    assert (Forall (fun k => (k < max_cpus)%nat) (seq 0 max_cpus)) as Hall by (apply Forall_forall; intros k Hk; apply elem_of_seq in Hk; lia).
    induction (seq 0 max_cpus) as [|k l IH]; [by apply elem_of_nil in Hin|]. cbn [List.find]. apply Forall_cons in Hall as [Hk Hall].
    destruct (Z.eqb_spec (address k) (address (Z.to_nat i))) as [Ek|Nk]; [f_equal; apply Hinj; [done|unfold max_cpus in *; lia|done]|].
    apply IH; [|done]. apply elem_of_cons in Hin as [Hin|Hin]; [by rewrite Hin in Nk|done].
  - eexists. unfold cpu_at. cbn [cpus]. rewrite list_lookup_insert_eq by (unfold max_cpus in *; lia). cbn. by split_and!.
Qed.
