(* ===== verification/Tlb.v ===== *)
(** * Translation caches and their shootdown (src/kernel/mm/paging.cpp)

    Every CPU caches translations; [map], [unmap] and [protect] rewrite the tables that
    all CPUs share.  The machine below interleaves, one memory access at a time, what
    the CPUs do in those operations, the hardware filling and dropping cached
    translations at any moment, and the interrupt that [unmap] broadcasts.  A page is
    named by its address and [table] gives its last level entry ([Paging.pte], whose
    changes [Paging.map_correct] and [Paging.unmap_correct] describe); a cached 2 MiB
    translation counts as one for each of its pages.  No CPU sets CR4.PGE, so a reload
    of CR3 drops everything.  The accessed and dirty bits are left out. *)

From stdpp Require Import functions.
From S2P Require Import Prelude Interfaces Paging Interrupts.

(** The accesses an operation is made of. *)
Inductive instr :=
  | ReadOnline                    (* [shared = cpu_online_count() > 1] *)
  | Cli                           (* [IrqGuard]: the flags saved, interrupts off *)
  | Lock                          (* [IrqGuard]: the table lock *)
  | Store (page entry : Z)        (* [table[index] = entry] *)
  | Reprotect (page bits : Z)     (* the test and the store of [protect] *)
  | Invlpg (page : Z)             (* [invalidate] *)
  | FlushLocal                    (* [tlb_flush_local] *)
  | Broadcast                     (* [lapic_broadcast_ipi], if [shared] *)
  | Unlock.                       (* the end of [IrqGuard] *)
#[global] Instance instr_eq : EqDecision instr.
Proof. solve_decision. Defined.

(** The loops over the pages: [found] tells where [table_for] gives a table; where it
    does not the function returns at once. *)
Fixpoint over (body : Z -> list instr) (found : Z -> bool) (finish : list instr) (offsets : list Z) : list instr :=
  match offsets with
  | [] => finish
  | offset :: offsets => if found offset then body offset ++ over body found finish offsets else [Unlock]
  end.

Definition offsets (length : Z) : list Z := (fun k => Z.of_nat k * page_size) <$> seq 0 (pages_of length).

Definition map (address frame length flags : Z) (found : Z -> bool) : list instr :=
  Cli :: Lock :: over (fun offset =>
    [Store (address + offset) (Z.lor (Z.land (frame + offset) pte_address_mask) (encode flags)); Invlpg (address + offset)])
    found [Unlock] (offsets length).

Definition unmap (address length : Z) (found : Z -> bool) : list instr :=
  ReadOnline :: Cli :: Lock :: over (fun offset => [Store (address + offset) 0; Invlpg (address + offset)])
    found [Broadcast; Unlock] (offsets length).

Definition protect (address length flags : Z) (found : Z -> bool) : list instr :=
  Cli :: Lock :: over (fun offset => [Reprotect (address + offset) (encode flags); Invlpg (address + offset)])
    found [Unlock] (offsets length).

Definition tlb_shootdown : list instr := [FlushLocal; ReadOnline; Broadcast].

Inductive operation :=
  | Map (address frame length flags : Z) | Unmap (address length : Z) | Protect (address length flags : Z) | Shootdown.

Definition code_of (o : operation) (found : Z -> bool) : list instr :=
  match o with
  | Map address frame length flags => map address frame length flags found
  | Unmap address length => unmap address length found
  | Protect address length flags => protect address length flags found
  | Shootdown => tlb_shootdown
  end.

(** A CPU: what is left of its operation, its [shared], its interrupt flag and the one
    [IrqGuard] saved. *)
Record cpu := mkCpu { code : list instr; shared : bool; irq : bool; saved : bool }.

Record state := mk {
  table : Z -> Z; holder : option nat; online : nat;
  cpus : nat -> cpu; tlb : nat -> Z -> option Z; pending : nat -> bool }.

Definition set_cpu (i : nat) (c : cpu) (s : state) : state :=
  mk (table s) (holder s) (online s) (<[i := c]> (cpus s)) (tlb s) (pending s).
Definition set_table (p e : Z) (s : state) : state :=
  mk (<[p := e]> (table s)) (holder s) (online s) (cpus s) (tlb s) (pending s).
Definition set_tlb (i : nat) (t : Z -> option Z) (s : state) : state :=
  mk (table s) (holder s) (online s) (cpus s) (<[i := t]> (tlb s)) (pending s).
Definition set_holder (h : option nat) (s : state) : state :=
  mk (table s) h (online s) (cpus s) (tlb s) (pending s).
Definition set_pending (f : nat -> bool) (s : state) : state :=
  mk (table s) (holder s) (online s) (cpus s) (tlb s) f.

(** The vector a fixed interrupt to every other CPU carries, from the write to the
    command register. *)
Definition ipi_to_others (a : access) : option Z :=
  match a with
  | LapicWrite r v =>
    if (r =? reg_icr_low) && (Z.land (Z.shiftr v 18) 3 =? 3) && (Z.land (Z.shiftr v 8) 7 =? 0) then Some (Z.land v 0xFF) else None
  | _ => None
  end.

(** The interrupt reaches the other CPUs. *)
Definition broadcast (i : nat) (l : lapic) (s : state) : state :=
  if bool_decide (Some vector_tlb_shootdown ∈ ipi_to_others <$> lapic_broadcast_ipi vector_tlb_shootdown l)
  then set_pending (fun j => (negb (j =? i)%nat) || pending s j) s else s.

(** What the handler of the interrupt does to the CPU's cache. *)
Definition answer (i : nat) (a : Interrupts.action) (s : state) : state :=
  match a with FlushTlb => set_tlb i (fun _ => None) s | _ => s end.

Inductive event :=
  | Call (i : nat) (o : operation) (found : Z -> bool)   (* the CPU starts an operation *)
  | Run (i : nat)                                          (* its next access *)
  | Fill (i : nat) (page : Z) | Evict (i : nat) (page : Z) (* the hardware *)
  | Interrupt (i : nat)                                    (* the CPU takes the interrupt *)
  | Flags (i : nat) (on : bool)                            (* between operations *)
  | Online.                                                (* one more CPU counts itself *)

Section machine.
(** The number of CPUs that run on the tables, and the interrupt controllers of each. *)
Context {C : Type} `{IoApicChip C} (n : nat) (trampoline : Z) (m : machine C).

Definition exec (i : nat) (s : state) : option state :=
  let c := cpus s i in
  match code c with
  | [] => None
  | x :: rest =>
    let next := mkCpu rest (shared c) (irq c) (saved c) in
    match x with
    | ReadOnline => Some (set_cpu i (mkCpu rest (1 <? online s)%nat (irq c) (saved c)) s)
    | Cli => Some (set_cpu i (mkCpu rest (shared c) false (irq c)) s)
    | Lock => match holder s with None => Some (set_holder (Some i) (set_cpu i next s)) | Some _ => None end
    | Store p e => Some (set_table p e (set_cpu i next s))
    | Reprotect p bits =>
      if is_present (table s p) then Some (set_table p (Z.lor (Z.land (table s p) pte_address_mask) bits) (set_cpu i next s))
      else Some (set_cpu i (mkCpu [Unlock] (shared c) (irq c) (saved c)) s)
    | Invlpg p => Some (set_tlb i (<[p := None]> (tlb s i)) (set_cpu i next s))
    | FlushLocal => Some (set_tlb i (fun _ => None) (set_cpu i next s))
    | Broadcast => Some ((if shared c then broadcast i (lapic_ m) else id) (set_cpu i next s))
    | Unlock => Some (set_holder None (set_cpu i (mkCpu rest (shared c) (saved c) (saved c)) s))
    end
  end.

Definition step (e : event) (s : state) : option state :=
  match e with
  | Call i o found =>
    let c := cpus s i in
    if (i <? n)%nat && bool_decide (code c = []) then Some (set_cpu i (mkCpu (code_of o found) (shared c) (irq c) (saved c)) s) else None
  | Run i => exec i s
  | Fill i p =>
    if (i <? n)%nat && is_present (table s p) then Some (set_tlb i (<[p := Some (table s p)]> (tlb s i)) s) else None
  | Evict i p => Some (set_tlb i (<[p := None]> (tlb s i)) s)
  | Interrupt i =>
    if pending s i && irq (cpus s i) then
      Some (set_pending (<[i := false]> (pending s))
        (foldl (fun s a => answer i a s) s (isr_dispatch trampoline vector_tlb_shootdown 8 false false m)))
    else None
  | Flags i on =>
    let c := cpus s i in
    if (i <? n)%nat && bool_decide (code c = []) then Some (set_cpu i (mkCpu [] (shared c) on (saved c)) s) else None
  | Online => if (online s <? n)%nat then Some (mk (table s) (holder s) (S (online s)) (cpus s) (tlb s) (pending s)) else None
  end.

Fixpoint run (es : list event) (s : state) : option state :=
  match es with [] => Some s | e :: es => s ← step e s; run es s end.

Definition init (t : Z -> Z) (counted : nat) : state :=
  mk t None counted (fun _ => mkCpu [] false true true) (fun _ _ => None) (fun _ => false).
End machine.

(** ** Coherence *)

(** [e] may be used for an entry [t]: the same entry, or, where permissions may have
    been changed behind the CPU's back, one that leads to the same frame. *)
Definition fresh (strict : bool) (e t : Z) : Prop :=
  if strict then e = t else is_present t = true /\ Z.land e pte_address_mask = Z.land t pte_address_mask.

(** The pages of a range. *)
Definition pages (address length : Z) : list Z := (fun offset => address + offset) <$> offsets length.

(** What a history may do to the page [pg]: an [unmap] of it finds its tables, [map] does
    not replace a mapping of it and, in a [strict] history, [protect] leaves it alone.
    The other pages are free of this: these are the calls the code announces to no
    other CPU ([failed_unmap_not_announced], [replacing_map_not_announced],
    [protect_not_announced] below). *)
Definition allowed (strict : bool) (pg : Z) (e : event) (s : state) : Prop :=
  match e with
  | Call _ (Unmap address length) found =>
    pg ∈ pages address length -> Forall (fun offset => found offset = true) (offsets length)
  | Call _ (Protect address length _) _ => pg ∈ pages address length -> strict = false
  | Run i => match code (cpus s i) with Store p e :: _ => p = pg -> e = 0 \/ is_present (table s p) = false | _ => True end
  | _ => True
  end.

(** The shape of what is left of an operation. *)
Fixpoint shaped (strict : bool) (pg : Z) (c : list instr) : Prop :=
  match c with
  | [] => True
  | x :: c => shaped strict pg c /\
    match x with
    | ReadOnline | Cli => True
    | Lock => Lock ∉ c /\ Unlock ∈ c
    | Store p e => Lock ∉ c /\ Unlock ∈ c /\ (exists r, c = Invlpg p :: r) /\ (p = pg -> e = 0 -> Broadcast ∈ c /\ ReadOnline ∉ c)
    | Reprotect p bits => (p = pg -> strict = false) /\ Lock ∉ c /\ Unlock ∈ c /\ Broadcast ∉ c /\
        is_present bits = true /\ Z.land bits pte_address_mask = 0
    | Invlpg _ => Lock ∉ c /\ Unlock ∈ c
    | FlushLocal => Unlock ∉ c
    | Broadcast => ReadOnline ∉ c
    | Unlock => c = []
    end
  end.

(** Inside the table lock. *)
Definition critical (c : list instr) : Prop := Unlock ∈ c /\ Lock ∉ c.

Section invariant.
Context {C : Type} `{IoApicChip C} (n : nat) (trampoline : Z) (m : machine C) (strict : bool) (pg : Z).

Inductive reachable : state -> Prop :=
  | reach_init t : reachable (init t n)
  | reach_step e s s' : reachable s -> allowed strict pg e s -> step n trampoline m e s = Some s' -> reachable s'.

(** Why the CPU may still hold an outdated translation of the page: the operation that
    outdated it is under way. *)
Definition owed (s : state) (i : nat) : Prop :=
  exists j, holder s = Some j /\ ((j <> i /\ Broadcast ∈ code (cpus s j)) \/ (j = i /\ exists r, code (cpus s i) = Invlpg pg :: r)).

Record inv (s : state) : Prop := {
  inv_code : forall i, shaped strict pg (code (cpus s i));
  inv_lock : forall i, critical (code (cpus s i)) <-> holder s = Some i;
  inv_idle : forall i, (n <= i)%nat -> code (cpus s i) = [];
  inv_shared : forall i, Broadcast ∈ code (cpus s i) -> ReadOnline ∉ code (cpus s i) -> shared (cpus s i) = (1 <? n)%nat;
  inv_online : online s = n;
  inv_present : forall i p e, tlb s i p = Some e -> is_present e = true;
  inv_tlb : forall i e, (i < n)%nat -> tlb s i pg = Some e -> fresh strict e (table s pg) \/ pending s i = true \/ owed s i }.

Hypothesis lapic_there : lapic_present (lapic_ m) = true.

Lemma broadcast_sent i s : broadcast i (lapic_ m) s = set_pending (fun j => (negb (j =? i)%nat) || pending s j) s.
Proof. unfold broadcast, lapic_broadcast_ipi. rewrite lapic_there. by rewrite bool_decide_true by (vm_compute; set_solver). Qed.

Lemma fresh_refl t : is_present t = true -> fresh strict t t.
Proof. intros Hp. by destruct strict. Qed.

Lemma fresh_absent e t : is_present e = true -> is_present t = false -> ~ fresh strict e t.
Proof. intros He Ht. destruct strict; cbn; [intros ->; congruence|intros [? _]; congruence]. Qed.

(** *** The shape of the operations *)

(** The rounds of the loops take no lock and send nothing. *)
Definition round (c : list instr) : Prop := forall x, x ∈ c -> x <> Lock /\ x <> Unlock /\ x <> ReadOnline /\ x <> Broadcast.

Lemma over_unlock body found finish os : Unlock ∈ finish -> Unlock ∈ over body found finish os.
Proof. intros Hf. induction os as [|o os IH]; cbn; [done|]. destruct (found o); set_solver. Qed.
Lemma over_without x body found finish os : (forall o, round (body o)) -> x = Lock \/ x = ReadOnline \/ x = Broadcast ->
  x ∉ finish -> x ∉ over body found finish os.
Proof.
  intros Hb Hx Hf. induction os as [|o os IH]; cbn; [done|]. destruct (found o); [|set_solver].
  rewrite elem_of_app. intros [Hi|Hi]; [|done]. apply Hb in Hi. naive_solver.
Qed.
Lemma over_finish x body found finish os : Forall (fun o => found o = true) os -> x ∈ finish -> x ∈ over body found finish os.
Proof. intros Hf Hx. induction Hf as [|o os Ho Hf IH]; cbn; [done|]. rewrite Ho. set_solver. Qed.

(** A locked loop is well shaped when each round is, in front of the rest of the loop. *)
Lemma over_shaped body found finish os :
  shaped strict pg finish -> Lock ∉ finish -> Unlock ∈ finish -> (forall o, round (body o)) ->
  (forall o os', suffix (o :: os') os -> let rest := over body found finish os' in
     shaped strict pg rest -> Lock ∉ rest -> Unlock ∈ rest -> shaped strict pg (body o ++ rest)) ->
  shaped strict pg (Lock :: over body found finish os).
Proof.
  intros Hf Hl Hu Hr Hb. split; [|split; [apply over_without; tauto|by apply over_unlock]].
  induction os as [|o os IH]; cbn; [done|]. destruct (found o); [|done]. apply Hb.
  - done.
  - apply IH. intros o' os' Hs. apply Hb. by apply suffix_cons_r.
  - apply over_without; tauto.
  - by apply over_unlock.
Qed.

Lemma code_shaped i o found s : allowed strict pg (Call i o found) s -> shaped strict pg (code_of o found).
Proof.
  intros Ha. destruct o as [a f l fl|a l|a l fl|]; cbn [code_of allowed] in *; [split; [|done]|do 2 (split; [|done])|split; [|done]|cbn; set_solver].
  - apply over_shaped; [done|set_solver|set_solver|unfold round; set_solver|]. intros o os' _ rest Hs H1 H2.
    cbn [app shaped]. split_and!; try set_solver; try done; try by eexists.
    all: intros _ He. exfalso. pose proof (encode_present fl) as Hp. apply Z.lor_eq_0_iff in He as [_ He]. by rewrite He in Hp.
  - apply over_shaped; [cbn; set_solver|set_solver|set_solver|unfold round; set_solver|]. intros o os' Hk rest Hs H1 H2.
    assert (a + o = pg -> Broadcast ∈ rest).
    { intros Hpg. apply over_finish; [|set_solver].
      assert (o ∈ offsets l) as Ho by (eapply elem_of_suffix; [|exact Hk]; set_solver).
      destruct Hk as [k Hk]. assert (pg ∈ pages a l) as Hin by (apply list_elem_of_fmap; eauto).
      apply Ha in Hin. rewrite Hk in Hin. apply Forall_app in Hin as [_ Hin]. by inv Hin. }
    assert (ReadOnline ∉ rest). { apply over_without; [unfold round; set_solver|tauto|set_solver]. }
    cbn [app shaped]. split_and!; try done; try set_solver; by eexists.
  - apply over_shaped; [done|set_solver|set_solver|unfold round; set_solver|]. intros o os' Hk rest Hs H1 H2.
    assert (Broadcast ∉ rest). { apply over_without; [unfold round; set_solver|tauto|set_solver]. }
    assert (a + o = pg -> strict = false).
    { intros Hpg. apply Ha, list_elem_of_fmap. exists o. split; [done|]. eapply elem_of_suffix; [|exact Hk]. set_solver. }
    cbn [app shaped]. split_and!; auto using encode_present, encode_mask; set_solver.
Qed.

Lemma code_not_critical o found : ~ critical (code_of o found).
Proof. intros [Hu Hl]. destruct o; cbn in *; unfold map, unmap, protect in *; set_solver. Qed.

Lemma code_reads_online o found : Broadcast ∈ code_of o found -> ReadOnline ∈ code_of o found.
Proof.
  assert (forall body os, (forall o, round (body o)) -> Broadcast ∈ Cli :: Lock :: over body found [Unlock] os -> False) as Hn.
  { intros body os Hr Hb. rewrite !elem_of_cons in Hb. destruct Hb as [?|[?|Hb]]; [done|done|]. revert Hb.
    apply over_without; [done|tauto|set_solver]. }
  destruct o; cbn; unfold unmap; [intros Hb; exfalso; revert Hb; apply Hn; unfold round; set_solver|set_solver| |set_solver].
  intros Hb; exfalso; revert Hb; apply Hn; unfold round; set_solver.
Qed.

(** *** The accesses *)

(** A step of CPU [i] that moves it on in its operation keeps what the others rely on. *)
Lemma cpu_facts s i x c : inv s -> code (cpus s i) = x :: c -> (i < n)%nat /\ shaped strict pg (x :: c).
Proof.
  intros Hi E. split; [|rewrite <- E; by apply inv_code]. destruct (decide (n <= i)%nat) as [Hn|]; [|lia].
  by rewrite (inv_idle _ Hi _ Hn) in E.
Qed.

(** The parts of the invariant about code, flags and lock, for a CPU whose code becomes
    [c'] while the holder becomes [h]. *)
Lemma tlb_move_inv s s' i c' h : inv s -> (i < n)%nat ->
  (forall j, j <> i -> cpus s' j = cpus s j) -> code (cpus s' i) = c' -> holder s' = h -> online s' = n ->
  shaped strict pg c' ->
  (critical c' <-> h = Some i) -> (forall j, j <> i -> h = Some j <-> holder s = Some j) ->
  (Broadcast ∈ c' -> ReadOnline ∉ c' -> shared (cpus s' i) = (1 <? n)%nat) ->
  (forall j p e, tlb s' j p = Some e -> is_present e = true) ->
  (forall j e, (j < n)%nat -> tlb s' j pg = Some e -> fresh strict e (table s' pg) \/ pending s' j = true \/ owed s' j) -> inv s'.
Proof.
  intros Hi Hn Hj Hc Hh Ho Hs Hcr Hother Hsh Hp Ht. split; try done.
  - intros k. destruct (decide (k = i)) as [->|Hne]; [by rewrite Hc|]. rewrite Hj by done. by apply inv_code.
  - intros k. rewrite Hh. destruct (decide (k = i)) as [->|Hne]; [by rewrite Hc|]. rewrite Hj, Hother by done. by apply inv_lock.
  - intros k Hk. rewrite Hj by lia. by apply inv_idle.
  - intros k. destruct (decide (k = i)) as [->|Hne]; [by rewrite Hc|]. rewrite Hj by done. by apply inv_shared.
Qed.

(** What the other CPUs are owed stays owed. *)
Lemma owed_kept s s' i j : (forall k, k <> i -> cpus s' k = cpus s k) -> holder s' = holder s ->
  (Broadcast ∈ code (cpus s i) -> Broadcast ∈ code (cpus s' i)) -> j <> i -> owed s j -> owed s' j.
Proof.
  intros Hk Hh Hb Hj (k & Ek & Hw). exists k. rewrite Hh. split; [done|]. destruct Hw as [[Hne Hw]|[-> Hw]].
  - left. split; [done|]. destruct (decide (k = i)) as [->|]; [by apply Hb|by rewrite Hk].
  - right. by rewrite Hk.
Qed.

(** What the CPU itself is owed by another one stays owed, unless it is at the
    [invlpg]. *)
Lemma owed_self s s' i : (forall k, k <> i -> cpus s' k = cpus s k) -> holder s' = holder s ->
  (forall r, code (cpus s i) <> Invlpg pg :: r) -> owed s i -> owed s' i.
Proof.
  intros Hk Hh Hb (k & Ek & [[Hne Hw]|[-> [r Hw]]]); [|by destruct (Hb r)]. exists k. rewrite Hh. split; [done|]. left. by rewrite Hk.
Qed.

(** Accesses that touch neither the tables, the lock nor the interrupts. *)
Lemma quiet_step s s' i x c : inv s -> code (cpus s i) = x :: c -> x <> Lock -> x <> Unlock -> x <> Broadcast ->
  (forall k, k <> i -> cpus s' k = cpus s k) -> code (cpus s' i) = c -> holder s' = holder s -> online s' = online s ->
  table s' = table s -> pending s' = pending s ->
  shared (cpus s' i) = (if bool_decide (x = ReadOnline) then (1 <? n)%nat else shared (cpus s i)) ->
  (forall j p e, tlb s' j p = Some e -> tlb s j p = Some e) -> (forall p, x = Invlpg p -> tlb s' i p = None) -> inv s'.
Proof.
  intros Hi E Hl Hu Hb Hk Hc Hh Ho Ht Hp Hs Hsub Hinv. destruct (cpu_facts _ _ _ _ Hi E) as [Hn [Hsh _]].
  eapply (tlb_move_inv s s' i c (holder s) Hi Hn Hk Hc Hh); try done.
  - rewrite Ho. apply Hi.
  - rewrite <- (inv_lock _ Hi i), E. unfold critical. set_solver.
  - intros H1 H2. rewrite Hs. case_bool_decide; [done|]. apply (inv_shared _ Hi); rewrite E; set_solver.
  - intros j p e He. by eapply inv_present, Hsub.
  - intros j e Hj He. rewrite Ht, Hp. destruct (inv_tlb _ Hi j e Hj (Hsub _ _ _ He)) as [?|[?|Hw]]; [tauto|tauto|]. right; right.
    destruct (decide (j = i)) as [->|Hne].
    + eapply owed_self; try done. intros r Er. rewrite E in Er. injection Er as -> _. by rewrite (Hinv pg) in He.
    + eapply owed_kept; try done. rewrite E, Hc. set_solver.
Qed.

Lemma lock_step s i c : inv s -> code (cpus s i) = Lock :: c -> holder s = None ->
  inv (set_holder (Some i) (set_cpu i (mkCpu c (shared (cpus s i)) (irq (cpus s i)) (saved (cpus s i))) s)).
Proof.
  intros Hi E Hh. destruct (cpu_facts _ _ _ _ Hi E) as [Hn (Hsh & Hl & Hu)]. eapply (tlb_move_inv s _ i c (Some i) Hi Hn); cbn; try done.
  - intros j Hj. by rewrite fn_lookup_insert_ne.
  - by rewrite fn_lookup_insert.
  - apply Hi.
  - intros j Hj. rewrite Hh. split; [intros [= ->]; done|done].
  - intros H1 H2. rewrite fn_lookup_insert. cbn. apply (inv_shared _ Hi); rewrite E; set_solver.
  - apply Hi.
  - intros j e Hj He. destruct (inv_tlb _ Hi j e Hj He) as [?|[?|(k & Hk & _)]]; [tauto|tauto|congruence].
Qed.

Lemma unlock_step s i c : inv s -> code (cpus s i) = Unlock :: c ->
  inv (set_holder None (set_cpu i (mkCpu c (shared (cpus s i)) (saved (cpus s i)) (saved (cpus s i))) s)).
Proof.
  intros Hi E. destruct (cpu_facts _ _ _ _ Hi E) as [Hn (Hsh & ->)].
  assert (holder s = Some i) as Hh. { apply (inv_lock _ Hi). rewrite E. split; set_solver. }
  eapply (tlb_move_inv s _ i [] None Hi Hn); cbn; try done.
  - intros j Hj. by rewrite fn_lookup_insert_ne.
  - by rewrite fn_lookup_insert.
  - apply Hi.
  - unfold critical. set_solver.
  - intros j Hj. rewrite Hh. split; [done|congruence].
  - set_solver.
  - apply Hi.
  - intros j e Hj He. destruct (inv_tlb _ Hi j e Hj He) as [?|[?|(k & Hk & Hw)]]; [tauto|tauto|]. rewrite Hh in Hk. injection Hk as <-.
    destruct Hw as [[_ Hw]|[-> [r Hw]]]; rewrite E in Hw; [set_solver|done].
Qed.

Lemma broadcast_step s i c : inv s -> code (cpus s i) = Broadcast :: c ->
  inv ((if shared (cpus s i) then broadcast i (lapic_ m) else id)
    (set_cpu i (mkCpu c (shared (cpus s i)) (irq (cpus s i)) (saved (cpus s i))) s)).
Proof.
  intros Hi E. destruct (cpu_facts _ _ _ _ Hi E) as [Hn (Hsh & Hr)].
  assert (shared (cpus s i) = (1 <? n)%nat) as Hs by (apply (inv_shared _ Hi); rewrite E; set_solver).
  set (s1 := set_cpu _ _ _). set (s2 := (if shared _ then _ else _) _).
  assert (table s2 = table s /\ holder s2 = holder s /\ online s2 = online s /\ cpus s2 = cpus s1 /\ tlb s2 = tlb s /\
    forall j, pending s2 j = (shared (cpus s i) && negb (j =? i)%nat) || pending s j) as (Ht & Hh & Ho & Hc & Hb & Hp).
  { subst s2. destruct (shared (cpus s i)); [rewrite broadcast_sent|]; done. }
  eapply (tlb_move_inv s _ i c (holder s) Hi Hn); rewrite ?Hc, ?Ho, ?Hb; subst s1; cbn; rewrite ?fn_lookup_insert; try done.
  - intros j Hj. by rewrite fn_lookup_insert_ne.
  - apply Hi.
  - rewrite <- (inv_lock _ Hi i), E. unfold critical. set_solver.
  - apply Hi.
  - intros j e Hj He. rewrite Ht, Hp, Hs. destruct (inv_tlb _ Hi j e Hj He) as [?|[->|Hw]]; [tauto|rewrite orb_true_r; tauto|].
    destruct (decide (j = i)) as [->|Hne].
    + right; right. eapply (owed_self s); rewrite ?Hc; try done; [intros k Hk; cbn; by rewrite fn_lookup_insert_ne|]. intros r. by rewrite E.
    + right; left. destruct (Nat.ltb_spec 1 n) as [_|?]; [|lia]. by rewrite (proj2 (Nat.eqb_neq j i)).
Qed.

Lemma store_step s i p e c : inv s -> code (cpus s i) = Store p e :: c -> (p = pg -> e = 0 \/ is_present (table s p) = false) ->
  inv (set_table p e (set_cpu i (mkCpu c (shared (cpus s i)) (irq (cpus s i)) (saved (cpus s i))) s)).
Proof.
  intros Hi E Ha. destruct (cpu_facts _ _ _ _ Hi E) as [Hn (Hsh & Hl & Hu & (r & ->) & Hz)].
  assert (holder s = Some i) as Hh. { apply (inv_lock _ Hi). rewrite E. split; set_solver. }
  eapply (tlb_move_inv s _ i (Invlpg p :: r) (holder s) Hi Hn); cbn; rewrite ?fn_lookup_insert; try done.
  - intros j Hj. by rewrite fn_lookup_insert_ne.
  - apply Hi.
  - intros H1 H2. apply (inv_shared _ Hi); rewrite E; set_solver.
  - apply Hi.
  - intros j e' Hj He. set (s' := set_table _ _ _).
    assert (forall k, k <> i -> cpus s' k = cpus s k) as Hk by (intros k Hk; cbn; by rewrite fn_lookup_insert_ne).
    assert (code (cpus s' i) = Invlpg p :: r) as Hc by (cbn; by rewrite fn_lookup_insert).
    assert (owed s j -> owed s' j) as Hkeep.
    { destruct (decide (j = i)) as [->|Hne]; [apply owed_self; try done; intros r'; by rewrite E|]. apply (owed_kept s s' i); try done.
      rewrite E, Hc. set_solver. }
    destruct (decide (p = pg)) as [->|Hq].
    2:{ rewrite fn_lookup_insert_ne by done. destruct (inv_tlb _ Hi j e' Hj He) as [?|[?|Hw]]; tauto. }
    destruct (decide (j = i)) as [->|Hne]; [right; right; exists i; rewrite Hc; cbn; split; [done|right]; split; [done|by eexists]|].
    destruct (Ha eq_refl) as [->|Hab]; [right; right; exists i; rewrite Hc; cbn; split; [done|left]; split; [done|]; by apply Hz|].
    destruct (inv_tlb _ Hi j e' Hj He) as [Hf|[?|Hw]]; [|tauto|tauto].
    exfalso. eapply fresh_absent; [by eapply inv_present|exact Hab|exact Hf].
Qed.

(** The new entry leads where the old one did. *)
Lemma fresh_reprotected e t bits : is_present bits = true -> Z.land bits pte_address_mask = 0 -> strict = false ->
  fresh strict e t -> fresh strict e (Z.lor (Z.land t pte_address_mask) bits).
Proof.
  intros Hp Hm Hs. rewrite Hs. cbn. intros [_ He]. split.
  - unfold is_present in *. rewrite Z.land_lor_distr_l. apply negb_true_iff, Z.eqb_neq. intros Hz%Z.lor_eq_0_iff.
    destruct Hz as [_ Hz]. by rewrite Hz in Hp.
  - rewrite Z.land_lor_distr_l, <- Z.land_assoc, Z.land_diag, Hm, Z.lor_0_r. done.
Qed.

Lemma reprotect_step s i p bits c : inv s -> code (cpus s i) = Reprotect p bits :: c -> is_present (table s p) = true ->
  inv (set_table p (Z.lor (Z.land (table s p) pte_address_mask) bits)
    (set_cpu i (mkCpu c (shared (cpus s i)) (irq (cpus s i)) (saved (cpus s i))) s)).
Proof.
  intros Hi E Ha. destruct (cpu_facts _ _ _ _ Hi E) as [Hn (Hsh & Hst & Hl & Hu & Hb & Hp & Hm)].
  assert (holder s = Some i) as Hh. { apply (inv_lock _ Hi). rewrite E. split; set_solver. }
  eapply (tlb_move_inv s _ i c (holder s) Hi Hn); cbn; rewrite ?fn_lookup_insert; try done.
  - intros j Hj. by rewrite fn_lookup_insert_ne.
  - apply Hi.
  - apply Hi.
  - intros j e' Hj He. set (s' := set_table _ _ _).
    assert (forall k, k <> i -> cpus s' k = cpus s k) as Hk by (intros k Hk; cbn; by rewrite fn_lookup_insert_ne).
    destruct (inv_tlb _ Hi j e' Hj He) as [Hf|[?|Hw]]; [left|tauto|right; right].
    + destruct (decide (p = pg)) as [->|Hq]; [rewrite fn_lookup_insert; apply fresh_reprotected; auto|by rewrite fn_lookup_insert_ne].
    + destruct (decide (j = i)) as [->|Hne]; [eapply owed_self; try done; intros r; by rewrite E|]. eapply owed_kept; try done.
      rewrite E. set_solver.
Qed.

(** [protect] gives up where nothing is mapped. *)
Lemma reprotect_fails s i p bits c : inv s -> code (cpus s i) = Reprotect p bits :: c ->
  inv (set_cpu i (mkCpu [Unlock] (shared (cpus s i)) (irq (cpus s i)) (saved (cpus s i))) s).
Proof.
  intros Hi E. destruct (cpu_facts _ _ _ _ Hi E) as [Hn (Hsh & Hst & Hl & Hu & Hb & Hp & Hm)].
  assert (holder s = Some i) as Hh. { apply (inv_lock _ Hi). rewrite E. split; set_solver. }
  eapply (tlb_move_inv s _ i [Unlock] (holder s) Hi Hn); cbn; rewrite ?fn_lookup_insert; try done.
  - intros j Hj. by rewrite fn_lookup_insert_ne.
  - apply Hi.
  - rewrite Hh. unfold critical. set_solver.
  - set_solver.
  - apply Hi.
  - intros j e' Hj He. destruct (inv_tlb _ Hi j e' Hj He) as [?|[?|(k & Hk & Hw)]]; [tauto|tauto|].
    rewrite Hh in Hk. injection Hk as <-. destruct Hw as [[_ Hw]|[-> [r Hw]]]; rewrite E in Hw; [set_solver|done].
Qed.

Lemma tlb_exec_inv i s s' : inv s -> allowed strict pg (Run i) s -> exec m i s = Some s' -> inv s'.
Proof.
  intros Hi Ha E. unfold exec in E. cbn in Ha. destruct (code (cpus s i)) as [|x c] eqn:Ec; [done|].
  assert (forall k c', k <> i -> <[i := c']> (cpus s) k = cpus s k) as Hk by (intros k c' Hk; by rewrite fn_lookup_insert_ne).
  destruct x as [| | |p e|p bits|p| | |]; [..|by injection E as <-; apply unlock_step].
  - injection E as <-. eapply quiet_step; cbn; rewrite ?fn_lookup_insert; try done; [auto|]. by rewrite (inv_online _ Hi).
  - injection E as <-. eapply quiet_step; cbn; rewrite ?fn_lookup_insert; try done; auto.
  - destruct (holder s) eqn:Hh; [done|]. injection E as <-. by apply lock_step.
  - injection E as <-. by apply store_step.
  - destruct (is_present (table s p)) eqn:Hp; injection E as <-; [by apply reprotect_step|by eapply reprotect_fails].
  - injection E as <-. eapply quiet_step; cbn; rewrite ?fn_lookup_insert; try done; [auto| |].
    + intros j q e He. destruct (decide (j = i)) as [->|]; [|by rewrite fn_lookup_insert_ne in He]. rewrite fn_lookup_insert in He.
      destruct (decide (q = p)) as [->|]; [by rewrite fn_lookup_insert in He|by rewrite fn_lookup_insert_ne in He].
    + intros q [= ->]. by rewrite fn_lookup_insert.
  - injection E as <-. eapply quiet_step; cbn; rewrite ?fn_lookup_insert; try done; [auto|].
    intros j q e He. destruct (decide (j = i)) as [->|]; [by rewrite fn_lookup_insert in He|by rewrite fn_lookup_insert_ne in He].
  - injection E as <-. by apply broadcast_step.
Qed.

(** Changes of the caches and of the interrupt lines alone. *)
Lemma cache_step s t f : inv s -> (forall j p e, t j p = Some e -> is_present e = true) ->
  (forall j e, (j < n)%nat -> t j pg = Some e -> fresh strict e (table s pg) \/ f j = true \/ (tlb s j pg = Some e /\ f j = pending s j)) ->
  inv (mk (table s) (holder s) (online s) (cpus s) t f).
Proof.
  intros Hi Hp Ht. split; cbn; try apply Hi; [done|]. intros j e Hj He. destruct (Ht j e Hj He) as [?|[?|[Hs ->]]]; [tauto|tauto|].
  by apply (inv_tlb _ Hi).
Qed.

Lemma answered i s : foldl (fun s a => answer i a s) s (isr_dispatch trampoline vector_tlb_shootdown 8 false false m)
  = set_tlb i (fun _ => None) s.
Proof. unfold isr_dispatch, lapic_eoi. cbn. by destruct (lapic_present (lapic_ m)). Qed.

(** A CPU outside the operations takes up one, or changes its interrupt flag. *)
Lemma tlb_start_step s i c' on : inv s -> (i < n)%nat -> code (cpus s i) = [] ->
  shaped strict pg c' -> ~ critical c' -> (Broadcast ∈ c' -> ReadOnline ∈ c') ->
  inv (set_cpu i (mkCpu c' (shared (cpus s i)) on (saved (cpus s i))) s).
Proof.
  intros Hi Hn Hc Hs Hcr Hb.
  assert (holder s <> Some i) as Hh. { rewrite <- (inv_lock _ Hi i), Hc. unfold critical. set_solver. }
  assert (forall k c', k <> i -> <[i := c']> (cpus s) k = cpus s k) as Hk by (intros k c Hk; by rewrite fn_lookup_insert_ne).
  eapply (tlb_move_inv s _ i c' (holder s) Hi Hn); cbn; rewrite ?fn_lookup_insert; try done; auto; try apply Hi.
  - intros H1 []. by apply Hb.
  - intros j e Hj He. destruct (inv_tlb _ Hi j e Hj He) as [?|[?|Hw]]; [tauto|tauto|]. right; right.
    destruct (decide (j = i)) as [->|Hne]; [eapply owed_self; [| | |done]|eapply (owed_kept s _ i); [| | | |done]]; cbn; auto; rewrite Hc; set_solver.
Qed.

Lemma tlb_step_inv e s s' : inv s -> allowed strict pg e s -> step n trampoline m e s = Some s' -> inv s'.
Proof.
  intros Hi Ha E. destruct e as [i o found|i|i p|i p|i|i on|]; cbn [step] in E; [|by eapply tlb_exec_inv|..].
  - destruct (Nat.ltb_spec i n) as [Hn|]; [|done]. case_bool_decide as Hc; [|done]. injection E as <-.
    apply tlb_start_step; try done; [by eapply code_shaped|apply code_not_critical|apply code_reads_online].
  - destruct (Nat.ltb_spec i n) as [Hn|]; [|done]. destruct (is_present (table s p)) eqn:Hp; [|done]. injection E as <-.
    apply (cache_step s); [done|intros j q e|intros j e]; cbn; destruct (decide (j = i)) as [->|Hne]; rewrite ?fn_lookup_insert, ?fn_lookup_insert_ne by done.
    + destruct (decide (q = p)) as [->|Hq]; rewrite ?fn_lookup_insert, ?fn_lookup_insert_ne by done; [by intros [= <-]|apply Hi].
    + apply Hi.
    + intros _. destruct (decide (pg = p)) as [->|Hq]; rewrite ?fn_lookup_insert, ?fn_lookup_insert_ne by done; [|tauto].
      intros [= <-]. left. by apply fresh_refl.
    + tauto.
  - injection E as <-. apply (cache_step s); [done|intros j q e|intros j e]; cbn; destruct (decide (j = i)) as [->|Hne]; rewrite ?fn_lookup_insert, ?fn_lookup_insert_ne by done.
    + destruct (decide (q = p)) as [->|Hq]; rewrite ?fn_lookup_insert, ?fn_lookup_insert_ne by done; [done|apply Hi].
    + apply Hi.
    + intros _. destruct (decide (pg = p)) as [->|Hq]; rewrite ?fn_lookup_insert, ?fn_lookup_insert_ne by done; [done|tauto].
    + tauto.
  - destruct (pending s i && irq (cpus s i)); [|done]. rewrite answered in E. injection E as <-.
    apply (cache_step s); [done|intros j q e|intros j e]; cbn; destruct (decide (j = i)) as [->|Hne]; rewrite ?fn_lookup_insert, ?fn_lookup_insert_ne by done; try done.
    + apply Hi.
    + tauto.
  - destruct (Nat.ltb_spec i n) as [Hn|]; [|done]. case_bool_decide as Hc; [|done]. injection E as <-. apply tlb_start_step; try done; unfold critical; set_solver.
  - rewrite (inv_online _ Hi), Nat.ltb_irrefl in E. done.
Qed.

Lemma tlb_reachable_inv s : reachable s -> inv s.
Proof.
  induction 1 as [t|e s s' _ IH Ha E]; [|by eapply tlb_step_inv]. split; cbn; try done.
  - intros i. unfold critical. set_solver.
  - intros i. set_solver.
Qed.

(** *** Progress *)

(** What the CPUs have left to do. *)
Definition left (s : state) : nat := sum_list ((fun i => length (code (cpus s i))) <$> seq 0 n).

Lemma left_insert s s' i c : (i < n)%nat -> code (cpus s' i) = c -> (length c < length (code (cpus s i)))%nat ->
  (forall k, k <> i -> cpus s' k = cpus s k) -> (left s' < left s)%nat.
Proof.
  intros Hi Hc Hl Hk. unfold left.
  assert (forall l, NoDup l -> let f s := sum_list ((fun j => length (code (cpus s j))) <$> l) in
    (i ∈ l -> f s' < f s)%nat /\ (i ∉ l -> f s' = f s)) as Hsum.
  { induction 1 as [|j l Hj Hnd [IH1 IH2]]; cbn; [set_solver|]. destruct (decide (j = i)) as [->|Hne].
    - split; [|set_solver]. intros _. rewrite Hc, IH2 by done. lia.
    - rewrite Hk by done. split; intros Hi'; [|rewrite IH2; set_solver]. apply Nat.add_lt_mono_l, IH1. set_solver. }
  apply Hsum; [apply NoDup_seq|]. apply elem_of_seq. lia.
Qed.

Lemma exec_shrinks i s s' : inv s -> exec m i s = Some s' -> (left s' < left s)%nat.
Proof.
  intros Hi E. unfold exec in E. destruct (code (cpus s i)) as [|x c] eqn:Ec; [done|]. destruct (cpu_facts _ _ _ _ Hi Ec) as [Hn Hs].
  assert (forall k c', k <> i -> <[i := c']> (cpus s) k = cpus s k) as Hk by (intros k c' Hk; by rewrite fn_lookup_insert_ne).
  assert (forall s0 c', cpus s0 = <[i := c']> (cpus s) -> (length (code c') < length (x :: c))%nat -> (left s0 < left s)%nat) as Hdone.
  { intros s0 c' E0 Hl. eapply (left_insert _ _ i (code c')); rewrite ?E0, ?Ec, ?fn_lookup_insert; auto. }
  destruct x; match type of E with context [holder s] => destruct (holder s); [done|] | context [is_present ?t] => destruct (is_present t) | _ => idtac end;
    injection E as <-;
    try (eapply Hdone; [reflexivity|]; cbn; lia).
  - eapply Hdone; [reflexivity|]. destruct Hs as (_ & _ & _ & Hu & _). destruct c; [set_solver|]. cbn. lia.
  - eapply (Hdone _ (mkCpu c (shared (cpus s i)) (irq (cpus s i)) (saved (cpus s i)))); [|cbn; lia]. by destruct (shared (cpus s i)); [rewrite broadcast_sent|].
Qed.

(** A CPU at an access other than the lock can make it. *)
Lemma exec_enabled i s x c : code (cpus s i) = x :: c -> x <> Lock \/ holder s = None -> exists s', exec m i s = Some s'.
Proof.
  intros Ec Hx. unfold exec. rewrite Ec. destruct x; eauto; [destruct Hx as [Hx| ->]; [done|eauto]|]. destruct (is_present _); eauto.
Qed.

Lemma some_cpu_runs s j : inv s -> code (cpus s j) <> [] -> exists i s', exec m i s = Some s'.
Proof.
  intros Hi Hj. destruct (holder s) as [k|] eqn:Hh.
  - exists k. pose proof (proj2 (inv_lock _ Hi k) Hh) as [Hu Hl]. destruct (code (cpus s k)) as [|x c] eqn:Ec; [set_solver|].
    eapply exec_enabled; [done|]. left. intros ->. set_solver.
  - exists j. destruct (code (cpus s j)) as [|x c] eqn:Ec; [done|]. eapply exec_enabled; [done|]. by right.
Qed.
End invariant.

(** C4: a page and any interleaving of the page table operations and the hardware on
    any number of counted CPUs, in which no [map] replaces a mapping of this page and
    every [unmap] of it finds its tables.  A CPU then uses a cached translation of the page that
    is no longer the one in the tables only in three windows: while a shootdown interrupt
    is outstanding for it, while an [unmap] on another CPU holds the table lock and
    has its broadcast still before it, or while the CPU itself is between a store to the
    page and the [invlpg] behind it.  Where [protect] was called on the page (not
    [strict]), this holds of the frame alone: the permissions a CPU cached may be the old ones.  The
    histories left out, and the time the windows last, are findings:
    [replacing_map_not_announced], [failed_unmap_not_announced], [protect_not_announced],
    [uncounted_cpu_not_told], [unmap_returns_early]. *)
Theorem tlb_coherent {C} `{IoApicChip C} n trampoline (m : machine C) strict p s i e :
  lapic_present (lapic_ m) = true -> reachable n trampoline m strict p s ->
  (i < n)%nat -> tlb s i p = Some e -> pending s i = false ->
  (forall j, j <> i -> holder s = Some j -> Broadcast ∉ code (cpus s j)) ->
  (forall r, holder s = Some i -> code (cpus s i) <> Invlpg p :: r) ->
  fresh strict e (table s p).
Proof.
  intros Hl Hr Hi He Hp Hb Hv. destruct (inv_tlb _ _ _ _ (tlb_reachable_inv _ _ _ _ _ Hl _ Hr) i e Hi He) as [?|[?|(j & Hj & Hw)]]; [done|congruence|].
  destruct Hw as [[Hne Hw]|[-> [r Hw]]]; [by destruct (Hb j Hne Hj)|by destruct (Hv r Hj)].
Qed.

(** the operations on the tables cannot deadlock and end: while a CPU is inside one,
    some CPU can make its next access, and every access leaves less to do. *)
Theorem tlb_operations_end {C} `{IoApicChip C} n trampoline (m : machine C) strict p s :
  lapic_present (lapic_ m) = true -> reachable n trampoline m strict p s ->
  (forall j, code (cpus s j) <> [] -> exists i s', step n trampoline m (Run i) s = Some s') /\
  (forall i s', step n trampoline m (Run i) s = Some s' -> (left n s' < left n s)%nat).
Proof.
  intros Hl Hr. pose proof (tlb_reachable_inv _ _ _ _ _ Hl _ Hr) as Hi. split.
  - intros j Hj. by eapply some_cpu_runs.
  - intros i s' E. by eapply exec_shrinks.
Qed.

(** ** Runs on two CPUs *)

Definition allowedb (strict : bool) (pg : Z) (e : event) (s : state) : bool :=
  match e with
  | Call _ (Unmap address length) found => negb (bool_decide (pg ∈ pages address length)) || forallb found (offsets length)
  | Call _ (Protect address length _) _ => negb (bool_decide (pg ∈ pages address length)) || negb strict
  | Run i => match code (cpus s i) with Store p e :: _ => negb (p =? pg) || (e =? 0) || negb (is_present (table s p)) | _ => true end
  | _ => true
  end.

Lemma allowedb_sound strict pg e s : allowedb strict pg e s = true -> allowed strict pg e s.
Proof.
  destruct e as [i o found|i| | | | |]; try done.
  - destruct o; cbn; try done; rewrite orb_true_iff, negb_true_iff, bool_decide_eq_false; intros [Hn|Hf] Hin; try done.
    + rewrite forallb_forall in Hf. apply Forall_forall. intros o Ho. apply Hf. by apply list_elem_of_In.
    + by apply negb_true_iff.
  - cbn. destruct (code (cpus s i)) as [|[] ?]; try done. intros [[Hz%negb_true_iff%Z.eqb_neq|Hz%Z.eqb_eq]%orb_true_iff|Hz%negb_true_iff]%orb_true_iff; tauto.
Qed.

Section runs.
Context {C : Type} `{IoApicChip C} (n : nat) (trampoline : Z) (m : machine C) (strict : bool) (pg : Z).

(** The history, if it is one of those the theorems speak of. *)
Fixpoint history (es : list event) (s : state) : option state :=
  match es with
  | [] => Some s
  | e :: es => if allowedb strict pg e s then s ← step n trampoline m e s; history es s else None
  end.

Lemma history_reachable es : forall s s', reachable n trampoline m strict pg s -> history es s = Some s' -> reachable n trampoline m strict pg s'.
Proof.
  induction es as [|e es IH]; intros s s' Hr E; cbn in E; [by injection E as <-|]. destruct (allowedb strict pg e s) eqn:Ha; [|done].
  apply bind_Some_inv in E as (s1 & E1 & E). eapply IH; [|exact E]. eapply reach_step; [done|by apply allowedb_sound|done].
Qed.
End runs.

Definition demo_page : Z := 0x40000000.
Definition all (_ : Z) : bool := true.
Definition runs (k : nat) (i : nat) : list event := replicate k (Run i).

(** CPU 0 maps a page, CPU 1 uses it, CPU 0 unmaps it, CPU 1 takes the interrupt and
    CPU 0 maps another frame there, which CPU 1 uses again. *)
Definition remap : list event :=
  Call 0 (Map demo_page 0x5000 4096 PageFlags_Write) all :: runs 5 0 ++ [Fill 1 demo_page] ++
  Call 0 (Unmap demo_page 4096) all :: runs 7 0 ++ [Interrupt 1] ++
  Call 0 (Map demo_page 0x9000 4096 PageFlags_Write) all :: runs 5 0 ++ [Fill 1 demo_page].

Definition seen (s : state) := (tlb s 1%nat demo_page, table s demo_page, code (cpus s 0%nat), code (cpus s 1%nat), pending s 1%nat, holder s).

Definition demo_remapped : state := default (init (fun _ => 0) 2) (history 2 0 demo_machine true demo_page remap (init (fun _ => 0) 2)).

Lemma demo_remapped_tlb : tlb demo_remapped 1%nat demo_page = Some 0x9003.
Proof. vm_compute. reflexivity. Qed.
Lemma demo_remapped_pending : pending demo_remapped 1%nat = false.
Proof. vm_compute. reflexivity. Qed.
Lemma demo_remapped_free : holder demo_remapped = None.
Proof. vm_compute. reflexivity. Qed.
Lemma demo_remapped_idle : code (cpus demo_remapped 1%nat) = [].
Proof. vm_compute. reflexivity. Qed.
Lemma demo_remapped_reachable : reachable 2 0 demo_machine true demo_page demo_remapped.
Proof.
  eapply history_reachable; [apply (reach_init 2 0 demo_machine true demo_page (fun _ => 0))|]. unfold demo_remapped.
  destruct (history 2 0 demo_machine true demo_page remap _) as [s|] eqn:E; [exact E|]. exfalso. revert E. vm_compute. discriminate.
Qed.

Lemma tlb_coherent_witness : fresh true 0x9003 (table demo_remapped demo_page).
Proof.
  apply (tlb_coherent 2 0 demo_machine true demo_page demo_remapped 1 0x9003).
  - reflexivity.
  - exact demo_remapped_reachable.
  - lia.
  - exact demo_remapped_tlb.
  - exact demo_remapped_pending.
  - intros j _ Hj. rewrite demo_remapped_free in Hj. discriminate Hj.
  - intros r _ Hr. rewrite demo_remapped_idle in Hr. discriminate Hr.
Defined.

Lemma tlb_operations_end_witness : (left 2 demo_remapped = 0)%nat /\
  forall j, code (cpus demo_remapped j) <> [] -> exists i s', step 2 0 demo_machine (Run i) demo_remapped = Some s'.
Proof.
  split; [vm_compute; reflexivity|]. apply (tlb_operations_end 2 0 demo_machine true demo_page demo_remapped); [reflexivity|exact demo_remapped_reachable].
Defined.

(** [unmap] does not wait for the interrupt to be taken: CPU 1, with its interrupts off,
    still uses the frame after [unmap] has returned to CPU 0. *)
Example unmap_returns_early :
  seen <$> run 2 0 demo_machine (Flags 1 false :: Call 0 (Map demo_page 0x5000 4096 PageFlags_Write) all :: runs 5 0 ++
    Fill 1 demo_page :: Call 0 (Unmap demo_page 4096) all :: runs 7 0) (init (fun _ => 0) 2)
  = Some (Some 0x5003, 0, [], [], true, None).
Proof. vm_compute. reflexivity. Qed.

(** [protect] announces nothing: a CPU that cached the writable translation keeps it,
    with no interrupt on its way. *)
Example protect_not_announced :
  seen <$> run 2 0 demo_machine (Call 0 (Map demo_page 0x5000 4096 PageFlags_Write) all :: runs 5 0 ++
    Fill 1 demo_page :: Call 0 (Protect demo_page 4096 PageFlags_None) all :: runs 5 0) (init (fun _ => 0) 2)
  = Some (Some 0x5003, 0x5001, [], [], false, None).
Proof. vm_compute. reflexivity. Qed.

(** Neither does a [map] over a page that is mapped: a CPU keeps using the frame it
    had. *)
Example replacing_map_not_announced :
  seen <$> run 2 0 demo_machine (Call 0 (Map demo_page 0x5000 4096 PageFlags_Write) all :: runs 5 0 ++
    Fill 1 demo_page :: Call 0 (Map demo_page 0x6000 4096 PageFlags_Write) all :: runs 5 0) (init (fun _ => 0) 2)
  = Some (Some 0x5003, 0x6003, [], [], false, None).
Proof. vm_compute. reflexivity. Qed.

(** An [unmap] that runs out of table frames on its second page returns without
    announcing the first one. *)
Example failed_unmap_not_announced :
  seen <$> run 2 0 demo_machine (Call 0 (Map demo_page 0x5000 4096 PageFlags_Write) all :: runs 5 0 ++
    Fill 1 demo_page :: Call 0 (Unmap demo_page 8192) (fun offset => offset =? 0) :: runs 6 0) (init (fun _ => 0) 2)
  = Some (Some 0x5003, 0, [], [], false, None).
Proof. vm_compute. reflexivity. Qed.

(** A CPU that runs on the tables but has not counted itself yet is not told. *)
Example uncounted_cpu_not_told :
  seen <$> run 2 0 demo_machine (Call 0 (Map demo_page 0x5000 4096 PageFlags_Write) all :: runs 5 0 ++
    Fill 1 demo_page :: Call 0 (Unmap demo_page 4096) all :: runs 7 0 ++ [Online]) (init (fun _ => 0) 1)
  = Some (Some 0x5003, 0, [], [], false, None).
Proof. vm_compute. reflexivity. Qed.
