(* ===== verification/Smp.v ===== *)
(** * Starting the other processors (src/kernel/cpu/smp.cpp, src/kernel/cpu/percpu.cpp)

    [Startup] is the hand-over of stack and identity through the shared trampoline
    page, one memory access at a time: the boot CPU runs the loop of [smp_init], every
    other core the trampoline and [ap_entry].  [Jobs] is [smp_run_on_others] against
    the loop at the end of [ap_entry].  A core is named by the position of its entry in
    the firmware's table. *)

From S2P Require Import Prelude.

Definition max_cpus : nat := 8.

Module Startup.

(** Where an application processor is. *)
Inductive ap_pc :=
  | Off
  | Trampoline   (* about to load its stack from slot 1 *)
  | LongMode     (* in [ap_entry], about to read its index from slot 4 *)
  | GotIndex     (* about to read slot 5 *)
  | GotApic      (* about to store slot 6 *)
  | Acked        (* in [percpu_setup], about to read [online] *)
  | Counting (n : Z) (* about to write [online] *)
  | SetUp        (* about to read slot 1 for [kernel_stack_top] *)
  | Stacked      (* about to count itself in [cpus_online] *)
  | Running.

Record ap := mkAp { pc : ap_pc; rsp : Z; index : Z; apic_id : Z; kernel_stack_top : Z }.

(** Where the boot CPU is in the loop, for core [i]. *)
Inductive boot_pc :=
  | Next (i : nat)
  | Store (i slot : nat)   (* about to store this slot *)
  | Poll (i : nat)         (* the startup is sent: waiting for slot 6 *)
  | Finished.

Record state := mk { slots : nat -> Z; boot : boot_pc; aps : nat -> ap; started : Z; cpus_online : Z; online : Z }.

(** Function update. *)
Definition upd {A} (f : nat -> A) (k : nat) (a : A) : nat -> A := fun j => if (j =? k)%nat then a else f j.

Inductive event := Boot | GiveUp | Ap (i : nat).

Section machine.
(** The firmware's table, the boot CPU's own id, what [allocate_stack] gives for each
    core (0 when there is no memory) and the address of [ap_entry]. *)
Context (count : nat) (cpu_apic_id : nat -> Z) (lapic_id : Z) (stack : nat -> Z) (entry : Z).

Definition slot_value (i slot : nat) : Z :=
  match slot with 1%nat => stack i | 2%nat => entry | 4%nat => Z.of_nat i | 5%nat => cpu_apic_id i | _ => 0 end.

Definition set_boot (b : boot_pc) (s : state) : state := mk (slots s) b (aps s) (started s) (cpus_online s) (online s).
Definition set_ap (i : nat) (a : ap) (s : state) : state := mk (slots s) (boot s) (upd (aps s) i a) (started s) (cpus_online s) (online s).
Definition set_slot (k : nat) (v : Z) (s : state) : state := mk (upd (slots s) k v) (boot s) (aps s) (started s) (cpus_online s) (online s).

(** The next access of the boot CPU; [None] when it waits.  The INIT, the delays and the startup are one step; the second startup, sent when slot
    3 is still 0, is left out: a core that has begun does not answer it, and one that
    has not is here started by the first. *)
Definition boot_step (s : state) : option state :=
  match boot s with
  | Next i =>
    if (i <? count)%nat && (i <? max_cpus)%nat then
      if cpu_apic_id i =? lapic_id then Some (set_boot (Next (S i)) s)
      else if stack i =? 0 then Some (set_boot Finished s)
      else Some (set_boot (Store i 1) s)
    else Some (set_boot Finished s)
  | Store i slot =>
    if (slot <=? 6)%nat then Some (set_boot (Store i (S slot)) (set_slot slot (slot_value i slot) s))
    else (* the INIT resets the core, the startup sends it into the trampoline *)
      let a := aps s i in
      Some (set_boot (Poll i) (set_ap i (mkAp Trampoline (rsp a) (index a) (apic_id a) (kernel_stack_top a)) s))
  | Poll i =>
    if slots s 6%nat =? 0 then None
    else Some (mk (slots s) (Next (S i)) (aps s) (started s + 1) (cpus_online s) (online s))
  | Finished => None
  end.

(** The deadline of the poll. *)
Definition abandon (s : state) : option state :=
  match boot s with
  | Poll i => if slots s 6%nat =? 0 then Some (set_boot (Next (S i)) s) else None
  | _ => None
  end.

Definition ap_step (i : nat) (s : state) : option state :=
  let a := aps s i in
  match pc a with
  | Off => None
  | Trampoline => Some (set_slot 3 1 (set_ap i (mkAp LongMode (slots s 1%nat) (index a) (apic_id a) (kernel_stack_top a)) s))
  | LongMode => Some (set_ap i (mkAp GotIndex (rsp a) (u32 (slots s 4%nat)) (apic_id a) (kernel_stack_top a)) s)
  | GotIndex => Some (set_ap i (mkAp GotApic (rsp a) (index a) (u32 (slots s 5%nat)) (kernel_stack_top a)) s)
  | GotApic => Some (set_slot 6 1 (set_ap i (mkAp Acked (rsp a) (index a) (apic_id a) (kernel_stack_top a)) s))
  | Acked => Some (set_ap i (mkAp (Counting (online s)) (rsp a) (index a) (apic_id a) (kernel_stack_top a)) s)
  | Counting n =>
    let s := set_ap i (mkAp SetUp (rsp a) (index a) (apic_id a) (kernel_stack_top a)) s in
    Some (mk (slots s) (boot s) (aps s) (started s) (cpus_online s) (n + 1))
  | SetUp => Some (set_ap i (mkAp Stacked (rsp a) (index a) (apic_id a) (slots s 1%nat)) s)
  | Stacked =>
    let s := set_ap i (mkAp Running (rsp a) (index a) (apic_id a) (kernel_stack_top a)) s in
    Some (mk (slots s) (boot s) (aps s) (started s) (cpus_online s + 1) (online s))
  | Running => None
  end.

Definition step (e : event) (s : state) : option state :=
  match e with Boot => boot_step s | GiveUp => abandon s | Ap i => ap_step i s end.

Definition init (fields : nat -> ap) (junk : nat -> Z) : state :=
  mk junk (Next 1) (fun i => mkAp Off (rsp (fields i)) (index (fields i)) (apic_id (fields i)) (kernel_stack_top (fields i))) 1 1 1.

(** Any interleaving; [patient] ones are those where no poll ran into its deadline. *)
Inductive reachable (patient : bool) : state -> Prop :=
  | reach_init fields junk : reachable patient (init fields junk)
  | reach_step e s s' : reachable patient s -> step e s = Some s' -> (e = GiveUp -> patient = false) -> reachable patient s'.

Fixpoint run (es : list event) (s : state) : option state :=
  match es with [] => Some s | e :: es => s ← step e s; run es s end.

(** ** The hand-over *)

(** Between the startup and the acknowledgement. *)
Definition early (p : ap_pc) : bool := match p with Trampoline | LongMode | GotIndex | GotApic => true | _ => false end.

(** What core [i] has got right by the point it is at. *)
Definition ap_ok (i : nat) (a : ap) : Prop :=
  match pc a with
  | Off | Trampoline => True
  | LongMode => rsp a = stack i
  | GotIndex => rsp a = stack i /\ index a = Z.of_nat i
  | _ => rsp a = stack i /\ index a = Z.of_nat i /\ apic_id a = cpu_apic_id i
  end.

Definition boot_ok (s : state) : Prop :=
  match boot s with
  | Store i slot => (i < max_cpus)%nat /\ (1 <= slot)%nat /\ (forall j, early (pc (aps s j)) = false) /\
      forall k, (1 <= k < slot)%nat -> (k <= 6)%nat -> slots s k = slot_value i k
  | Poll i => (i < max_cpus)%nat /\ (forall j, j <> i -> early (pc (aps s j)) = false) /\
      (slots s 6%nat = 0 \/ early (pc (aps s i)) = false) /\
      slots s 1%nat = stack i /\ slots s 4%nat = Z.of_nat i /\ slots s 5%nat = cpu_apic_id i
  | _ => forall j, early (pc (aps s j)) = false
  end.

Definition inv (s : state) : Prop := (forall i, ap_ok i (aps s i)) /\ boot_ok s.

Hypothesis ids_fit : forall i, (i < max_cpus)%nat -> 0 <= cpu_apic_id i < 2 ^ 32.

Lemma upd_eq {A} (f : nat -> A) k a : upd f k a k = a.
Proof. unfold upd. by rewrite Nat.eqb_refl. Qed.
Lemma upd_ne {A} (f : nat -> A) k a j : j <> k -> upd f k a j = f j.
Proof. intros H. unfold upd. by rewrite (proj2 (Nat.eqb_neq j k)). Qed.

Lemma startup_boot_preserves s s' : inv s -> boot_step s = Some s' -> inv s'.
Proof.
  intros [Ha Hb] E. unfold boot_step in E. unfold boot_ok in Hb. destruct (boot s) as [i|i slot|i|] eqn:Eb; [| | |done].
  - destruct (Nat.ltb_spec i count), (Nat.ltb_spec i max_cpus); cbn [andb] in E; try (injection E as <-; by split).
    destruct (cpu_apic_id i =? lapic_id); [injection E as <-; by split|]. destruct (stack i =? 0); injection E as <-; [by split|].
    split; [done|]. split_and!; try done. intros k Hk. lia.
  - destruct Hb as (Hi & H1 & Hq & Hs). destruct (Nat.leb_spec slot 6) as [Hle|Hgt]; injection E as <-.
    + split; [done|]. split_and!; try done; [lia|]. cbn. intros k Hk Hk6. destruct (decide (k = slot)) as [->|Hne].
      * by rewrite upd_eq.
      * rewrite upd_ne by done. apply Hs; lia.
    + split.
      * intros j. cbn. destruct (decide (j = i)) as [->|Hne]; [by rewrite upd_eq|]. rewrite upd_ne by done. apply Ha.
      * split_and!; try done; cbn; rewrite ?upd_eq.
        -- intros j Hj. rewrite upd_ne by done. apply Hq.
        -- left. apply (Hs 6%nat); lia.
        -- apply (Hs 1%nat); lia.
        -- apply (Hs 4%nat); lia.
        -- apply (Hs 5%nat); lia.
  - destruct Hb as (Hi & Hq & H6 & _). destruct (Z.eqb_spec (slots s 6%nat) 0) as [|Hne]; [done|]. injection E as <-.
    split; [done|]. intros j. destruct (decide (j = i)) as [->|Hj]; [|by apply Hq]. by destruct H6.
Qed.

(** A step of a core that has not acknowledged yet happens while the boot CPU polls
    for it. *)
Lemma early_polled s i : inv s -> early (pc (aps s i)) = true ->
  boot s = Poll i /\ (i < max_cpus)%nat /\ (forall j, j <> i -> early (pc (aps s j)) = false) /\
  slots s 1%nat = stack i /\ slots s 4%nat = Z.of_nat i /\ slots s 5%nat = cpu_apic_id i /\ slots s 6%nat = 0.
Proof.
  intros [_ Hb] He. unfold boot_ok in Hb. destruct (boot s) as [k|k slot|k|].
  - by rewrite Hb in He.
  - destruct Hb as (_ & _ & Hq & _). by rewrite Hq in He.
  - destruct Hb as (Hk & Hq & H6 & H1 & H4 & H5). destruct (decide (k = i)) as [->|Hne]; [|by rewrite Hq in He].
    split_and!; try done. destruct H6 as [H6|H6]; [done|congruence].
  - by rewrite Hb in He.
Qed.

Lemma startup_ap_preserves i s s' : inv s -> ap_step i s = Some s' -> inv s'.
Proof.
  intros Hi E. pose proof Hi as [Ha Hb]. pose proof (Ha i) as Hai. unfold ap_step in E. unfold ap_ok in Hai.
  assert (forall (a : ap) f, ap_ok i a -> (forall j, f j = upd (aps s) i a j) -> forall j, ap_ok j (f j)) as Hother.
  { intros a f Hok Hf j. rewrite Hf. destruct (decide (j = i)) as [->|Hne]; [by rewrite upd_eq|]. rewrite upd_ne by done. apply Ha. }
  assert (forall (a : ap) f o n, (forall j, f j = upd (aps s) i a j) -> early (pc a) = false ->
    boot_ok (mk (slots s) (boot s) f (started s) o n)) as Hlate.
  { intros a f o n Hf Hq. unfold boot_ok in *. cbn. assert (forall j, early (pc (aps s j)) = false -> early (pc (f j)) = false) as Hj.
    { intros j. rewrite Hf. destruct (decide (j = i)) as [->|]; [by rewrite upd_eq|by rewrite upd_ne]. }
    destruct (boot s); try (intros; apply Hj; apply Hb); destruct Hb as (B1 & B2 & B3 & B4).
    - split_and!; auto.
    - split_and!; auto; try tauto. destruct B3; [by left|right; auto]. }
  destruct (pc (aps s i)) eqn:Ep; try done; injection E as <-.
  - destruct (early_polled s i Hi) as (Eb & Hm & Hq & S1 & S4 & S5 & S6); [by rewrite Ep|].
    split; [eapply Hother; [|done]; done|]. unfold boot_ok. cbn. rewrite Eb. split_and!; try done.
    + intros j Hj. rewrite upd_ne by done. by apply Hq.
    + by left.
  - destruct (early_polled s i Hi) as (Eb & Hm & Hq & S1 & S4 & S5 & S6); [by rewrite Ep|].
    split; [eapply Hother; [|done]; split; [done|]; cbn; rewrite S4; apply u32_small; unfold max_cpus in Hm; lia|].
    unfold boot_ok. cbn. rewrite Eb. split_and!; try done.
    + intros j Hj. rewrite upd_ne by done. by apply Hq.
    + by left.
  - destruct (early_polled s i Hi) as (Eb & Hm & Hq & S1 & S4 & S5 & S6); [by rewrite Ep|].
    split; [eapply Hother; [|done]; split_and!; [apply Hai|apply Hai|]; cbn; rewrite S5; by apply u32_small, ids_fit|].
    unfold boot_ok. cbn. rewrite Eb. split_and!; try done.
    + intros j Hj. rewrite upd_ne by done. by apply Hq.
    + by left.
  - destruct (early_polled s i Hi) as (Eb & Hm & Hq & S1 & S4 & S5 & S6); [by rewrite Ep|].
    split; [eapply Hother; [|done]; done|]. unfold boot_ok. cbn. rewrite Eb. split_and!; try done.
    + intros j Hj. rewrite upd_ne by done. by apply Hq.
    + right. by rewrite upd_eq.
  - split; [eapply Hother; [|done]; done|]. eapply Hlate; [intros j; reflexivity|done].
  - split; [eapply Hother; [|done]; done|]. eapply Hlate; [intros j; reflexivity|done].
  - split; [eapply Hother; [|done]; done|]. eapply Hlate; [intros j; reflexivity|done].
  - split; [eapply Hother; [|done]; done|]. eapply Hlate; [intros j; reflexivity|done].
Qed.

Lemma startup_reachable_inv s : reachable true s -> inv s.
Proof.
  induction 1 as [|e s s' _ IH E Hp]; [split; [done|]; done|]. destruct e.
  - by eapply startup_boot_preserves.
  - discriminate (Hp eq_refl).
  - by eapply startup_ap_preserves.
Qed.
End machine.

(** C31: if no core lets its poll run out, then under every interleaving each core that
    reaches [percpu_setup] or beyond runs on the stack allocated for it and knows its
    own index and its own APIC id, although all cores read them from the same page. *)
Theorem smp_identity_handoff count cpu_apic_id lapic_id stack entry s i :
  (forall i, (i < max_cpus)%nat -> 0 <= cpu_apic_id i < 2 ^ 32) ->
  reachable count cpu_apic_id lapic_id stack entry true s ->
  early (pc (aps s i)) = false -> pc (aps s i) <> Off ->
  rsp (aps s i) = stack i /\ index (aps s i) = Z.of_nat i /\ apic_id (aps s i) = cpu_apic_id i.
Proof.
  intros Hid Hr He Ho. destruct (startup_reachable_inv _ _ _ _ _ Hid _ Hr) as [Ha _]. specialize (Ha i).
  unfold ap_ok in Ha. by destruct (pc (aps s i)).
Qed.

(** Three processors: the boot CPU is 0. *)
Definition demo_start : state := init (fun _ => mkAp Off 0 0 0 0) (fun _ => 0).
Definition demo_stack (i : nat) : Z := 65536 * Z.of_nat (S i).
Definition demo_step := step 3 Z.of_nat 0 demo_stack 4096.
Definition start_core (i : nat) : list event := replicate 8 Boot ++ [Ap i; Ap i; Ap i; Ap i; Boot].
Definition demo_run := run 3 Z.of_nat 0 demo_stack 4096.

Lemma startup_run_reachable count cpu_apic_id lapic_id stack entry patient es : forall s s',
  reachable count cpu_apic_id lapic_id stack entry patient s -> run count cpu_apic_id lapic_id stack entry es s = Some s' ->
  forallb (fun e => match e with GiveUp => negb patient | _ => true end) es = true ->
  reachable count cpu_apic_id lapic_id stack entry patient s'.
Proof.
  induction es as [|e es IH]; intros s s' Hr E Hf; cbn [run forallb] in *; [by injection E as <-|].
  apply bind_Some_inv in E as (s1 & E1 & E). apply andb_true_iff in Hf as [He Hf]. eapply IH; [|done|done].
  eapply reach_step; [done|done|]. intros ->. by apply negb_true_iff in He.
Qed.

(** Core 1 acknowledges and is held up before [kernel_stack_top]; core 2 is started. *)
Definition race : list event :=
  start_core 1 ++ replicate 8 Boot ++ [Ap 1; Ap 1; Ap 1; Ap 1] ++ [Ap 2; Ap 2; Ap 2; Ap 2; Boot; Ap 2; Ap 2; Ap 2; Ap 2; Boot].

(** And both read [online] before either writes it. *)
Definition lost : list event :=
  start_core 1 ++ replicate 8 Boot ++ [Ap 1; Ap 2; Ap 2; Ap 2; Ap 2; Ap 2; Ap 1; Ap 2; Boot] ++ [Ap 1; Ap 1; Ap 2; Ap 2; Boot].

Lemma demo_startup_reachable es s : demo_run es demo_start = Some s ->
  forallb (fun e => match e with GiveUp => false | _ => true end) es = true -> reachable 3 Z.of_nat 0 demo_stack 4096 true s.
Proof. intros E H. eapply startup_run_reachable; [apply reach_init|exact E|exact H]. Qed.

Lemma race_runs : match demo_run race demo_start with Some s => pc (aps s 2) = Running | None => False end.
Proof. vm_compute. reflexivity. Qed.

Lemma lost_runs : match demo_run lost demo_start with
  | Some s => pc (aps s 1) = Running /\ pc (aps s 2) = Running /\
      rsp (aps s 1) = demo_stack 1 /\ kernel_stack_top (aps s 1) = demo_stack 2 /\ kernel_stack_top (aps s 2) = demo_stack 2 /\
      boot s = Finished /\ started s = 3 /\ cpus_online s = 3 /\ online s = 2
  | None => False end.
Proof. vm_compute. by split_and!. Qed.

Lemma smp_identity_handoff_witness :
  exists s, reachable 3 Z.of_nat 0 demo_stack 4096 true s /\ index (aps s 2) = 2 /\ rsp (aps s 2) = 196608.
Proof.
  pose proof race_runs as Ep. destruct (demo_run race demo_start) as [s|] eqn:E; [|destruct Ep].
  pose proof (demo_startup_reachable race s E eq_refl) as Hr.
  destruct (smp_identity_handoff 3 Z.of_nat 0 demo_stack 4096 s 2) as (H1 & H2 & _).
  - intros i Hi. unfold max_cpus in Hi. lia.
  - exact Hr.
  - rewrite Ep. reflexivity.
  - rewrite Ep. discriminate.
  - exists s. split; [exact Hr|]. split; [exact H2|exact H1].
Defined.

(** the stack slot is read once more after the acknowledgement that lets the boot
    CPU overwrite it: there is an interleaving, with every core answering in time, at
    whose end two running cores share one [kernel_stack_top], and [online] counts two
    of the three CPUs, because its increment is not atomic. *)
Theorem smp_stack_slot_race :
  exists s, reachable 3 Z.of_nat 0 demo_stack 4096 true s /\
    pc (aps s 1) = Running /\ pc (aps s 2) = Running /\
    rsp (aps s 1) = demo_stack 1 /\ kernel_stack_top (aps s 1) = demo_stack 2 /\ kernel_stack_top (aps s 2) = demo_stack 2 /\
    boot s = Finished /\ started s = 3 /\ cpus_online s = 3 /\ online s = 2.
Proof.
  pose proof lost_runs as H. destruct (demo_run lost demo_start) as [s|] eqn:E; [|destruct H].
  exists s. split; [exact (demo_startup_reachable lost s E eq_refl)|exact H].
Qed.

End Startup.

Module Jobs.

(** Where a core is in the loop of [ap_entry]. *)
Inductive ap_pc :=
  | Enter               (* counted as online, about to load the generation it starts from *)
  | Loop                (* about to load the generation *)
  | Fetch               (* saw a new one, about to load the job *)
  | Call (job : Z)      (* about to run it, when it is not null *)
  | Count.              (* about to count itself finished *)

(** Where the boot CPU is in [smp_run_on_others]. *)
Inductive boot_pc :=
  | Idle
  | Begin (job : Z)     (* about to clear the counter *)
  | Publish (job : Z)   (* about to store the job *)
  | Raise (job : Z)     (* about to raise the generation *)
  | Wait (job : Z)
  | Returned (job : Z) (answer : bool).

(** [seen] is the core's own variable; [runs] records what each core ran since the
    current call began. *)
Record state := mk { generation : Z; finished : Z; pending : Z; boot : boot_pc;
  at_ : nat -> ap_pc; seen : nat -> Z; runs : nat -> list Z }.

Notation upd := Startup.upd.

Inductive event := Ask (job : Z) | Boot | TimeOut | Ap (i : nat).

Section machine.
(** The cores besides the caller. *)
Context (others : nat).

Definition set_boot (b : boot_pc) (s : state) : state :=
  mk (generation s) (finished s) (pending s) b (at_ s) (seen s) (runs s).
Definition goto (i : nat) (p : ap_pc) (s : state) : state :=
  mk (generation s) (finished s) (pending s) (boot s) (upd (at_ s) i p) (seen s) (runs s).

Definition step (e : event) (s : state) : option state :=
  match e with
  | Ask job =>
    match boot s with
    | Idle | Returned _ _ =>
      if (others =? 0)%nat || (job =? 0) then Some (set_boot (Returned job true) s)
      else Some (mk (generation s) (finished s) (pending s) (Begin job) (at_ s) (seen s) (fun _ => []))
    | _ => None
    end
  | Boot =>
    match boot s with
    | Begin job => Some (mk (generation s) 0 (pending s) (Publish job) (at_ s) (seen s) (runs s))
    | Publish job => Some (mk (generation s) (finished s) job (Raise job) (at_ s) (seen s) (runs s))
    | Raise job => Some (mk (u64 (generation s + 1)) (finished s) (pending s) (Wait job) (at_ s) (seen s) (runs s))
    | Wait job => if Z.of_nat others <=? finished s then Some (set_boot (Returned job true) s) else None
    | _ => None
    end
  | TimeOut =>
    match boot s with
    | Wait job => if Z.of_nat others <=? finished s then None else Some (set_boot (Returned job false) s)
    | _ => None
    end
  | Ap i =>
    if (i <? others)%nat then
      match at_ s i with
      | Enter => Some (mk (generation s) (finished s) (pending s) (boot s) (upd (at_ s) i Loop) (upd (seen s) i (generation s)) (runs s))
      | Loop => if generation s =? seen s i then Some s
                else Some (mk (generation s) (finished s) (pending s) (boot s) (upd (at_ s) i Fetch) (upd (seen s) i (generation s)) (runs s))
      | Fetch => Some (goto i (Call (pending s)) s)
      | Call job =>
        if job =? 0 then Some (goto i Count s)
        else Some (mk (generation s) (finished s) (pending s) (boot s) (upd (at_ s) i Count) (seen s) (upd (runs s) i (runs s i ++ [job])))
      | Count => Some (mk (generation s) (u32 (finished s + 1)) (pending s) (boot s) (upd (at_ s) i Loop) (seen s) (runs s))
      end
    else None
  end.

(** No core is late with a job: each is back in its loop, or still about to enter it. *)
Definition quiet (s : state) : Prop :=
  forall i, (i < others)%nat -> at_ s i = Enter \/ at_ s i = Loop /\ seen s i = generation s.

(** Executions from cores that are in their loop or about to enter it, in which a call
    after one that ran into its timeout is only made once no core is late. *)
Definition patient (e : event) (s : state) : Prop :=
  match e, boot s with Ask _, Returned _ false => quiet s | _, _ => True end.

Inductive reachable : state -> Prop :=
  | reach_init g f p a : 0 <= g < 2 ^ 64 -> (forall i, a i = Enter \/ a i = Loop) ->
      reachable (mk g f p Idle a (fun _ => g) (fun _ => []))
  | reach_step e s s' : reachable s -> patient e s -> step e s = Some s' -> reachable s'.

(** Core [i] is done with the current job; one that entered its loop too late to see it
    never is. *)
Definition is_done (s : state) (i : Z) : bool :=
  match at_ s (Z.to_nat i), runs s (Z.to_nat i) with Loop, _ :: _ => true | _, _ => false end.

(** What core [i] can be doing while the caller waits for [job]. *)
Definition busy_ok (s : state) (job : Z) (i : nat) : Prop :=
  match at_ s i with
  | Enter => runs s i = []
  | Loop => runs s i = [] \/ seen s i = generation s /\ runs s i = [job]
  | Fetch => seen s i = generation s /\ runs s i = []
  | Call j => j = job /\ seen s i = generation s /\ runs s i = []
  | Count => seen s i = generation s /\ runs s i = [job]
  end.

Definition inv (s : state) : Prop :=
  0 <= generation s < 2 ^ 64 /\
  match boot s with
  | Idle => quiet s
  | Begin job => quiet s /\ job <> 0 /\ forall i, runs s i = []
  | Publish job => quiet s /\ job <> 0 /\ (forall i, runs s i = []) /\ finished s = 0
  | Raise job => quiet s /\ job <> 0 /\ (forall i, runs s i = []) /\ finished s = 0 /\ pending s = job
  | Wait job => job <> 0 /\ pending s = job /\ (forall i, (i < others)%nat -> busy_ok s job i) /\
      finished s = count_z (is_done s) 0 (Z.of_nat others)
  | Returned job true => quiet s /\ ((0 < others)%nat -> job <> 0 -> forall i, (i < others)%nat -> runs s i = [job] /\ at_ s i = Loop)
  | Returned _ false => True
  end.

Hypothesis few : Z.of_nat others < 2 ^ 32.


Lemma next_generation g : 0 <= g < 2 ^ 64 -> u64 (g + 1) <> g.
Proof.
  intros Hg. destruct (Z.eq_dec g (2 ^ 64 - 1)) as [->|Hne]; [done|]. rewrite u64_small; lia.
Qed.








End machine.


(** Core 1 is not yet in its loop. *)
Definition start : state := mk 0 0 0 Idle (fun i => if (i =? 1)%nat then Enter else Loop) (fun _ => 0) (fun _ => []).

Fixpoint run (others : nat) (es : list event) (s : state) : option state :=
  match es with [] => Some s | e :: es => s ← step others e s; run others es s end.





(** A core that enters its loop after the generation was raised misses the job: the call
    can only time out. *)
Example late_core_misses :
  boot <$> run 2 [Ask 7; Boot; Boot; Boot; Ap 1; Ap 1; Ap 0; Ap 0; Ap 0; Ap 0; Ap 1; TimeOut] start = Some (Returned 7 false).
Proof. vm_compute. reflexivity. Qed.

(** After a call that timed out, a core that is late with the old job counts itself
    finished with the new one: the next call returns true before it has run the job. *)
Definition late : list event :=
  [Ask 7; Boot; Boot; Boot; Ap 0; Ap 0; Ap 0; TimeOut; Ask 9; Boot; Boot; Boot; Ap 0; Boot].

Lemma timed_out_job_confuses :
  match run 1 late start with Some s => boot s = Returned 9 true /\ runs s 0 = [] | None => False end.
Proof. vm_compute. done. Qed.

End Jobs.
