(* ===== verification/Scheduler.v ===== *)
(** * The scheduler (src/kernel/sched/scheduler.cpp, src/include/eris/thread.hpp)

    Threads are records at their addresses, linked through [queue_next_] into the run
    queue, the sleepers and the wait queues.  Every operation runs under [sched_lock],
    so it is one function on the shared state, executed by CPU number [k]; [None] is a
    dereference of something that is not a thread.  Wait queues are numbered. *)

From S2P Require Import Prelude.

Inductive ThreadState := Ready | Running | Sleeping | Blocked | Dead.

#[export] Instance ThreadState_eq_dec : EqDecision ThreadState.
Proof. solve_decision. Defined.

Definition name_length : Z := 24.
Definition stack_pages_per_thread : Z := 8.
Definition max_threads : Z := 64.

Record Thread := mkThread {
  name_ : list Z; id_ : Z; cpu_ : Z; state_ : ThreadState;
  stack_pointer_ : Z; stack_base_ : Z; stack_pages_ : Z;
  wake_at_ : Z; syscall_stack_ : Z; space_root_ : Z;
  queue_next_ : Z; list_next_ : Z
}.

(** What [kzalloc] and the member initialisers leave. *)
Definition zero_thread : Thread := mkThread [] 0 0 Ready 0 0 0 0 0 0 0 0.

Definition set_state (x : ThreadState) (t : Thread) : Thread :=
  mkThread (name_ t) (id_ t) (cpu_ t) x (stack_pointer_ t) (stack_base_ t) (stack_pages_ t)
    (wake_at_ t) (syscall_stack_ t) (space_root_ t) (queue_next_ t) (list_next_ t).
Definition set_queue_next (x : Z) (t : Thread) : Thread :=
  mkThread (name_ t) (id_ t) (cpu_ t) (state_ t) (stack_pointer_ t) (stack_base_ t) (stack_pages_ t)
    (wake_at_ t) (syscall_stack_ t) (space_root_ t) x (list_next_ t).
Definition set_wake_at (x : Z) (t : Thread) : Thread :=
  mkThread (name_ t) (id_ t) (cpu_ t) (state_ t) (stack_pointer_ t) (stack_base_ t) (stack_pages_ t)
    x (syscall_stack_ t) (space_root_ t) (queue_next_ t) (list_next_ t).
Definition set_cpu (x : Z) (t : Thread) : Thread :=
  mkThread (name_ t) (id_ t) x (state_ t) (stack_pointer_ t) (stack_base_ t) (stack_pages_ t)
    (wake_at_ t) (syscall_stack_ t) (space_root_ t) (queue_next_ t) (list_next_ t).
Definition set_stack_pointer (x : Z) (t : Thread) : Thread :=
  mkThread (name_ t) (id_ t) (cpu_ t) (state_ t) x (stack_base_ t) (stack_pages_ t)
    (wake_at_ t) (syscall_stack_ t) (space_root_ t) (queue_next_ t) (list_next_ t).
Definition set_syscall_stack (x : Z) (t : Thread) : Thread :=
  mkThread (name_ t) (id_ t) (cpu_ t) (state_ t) (stack_pointer_ t) (stack_base_ t) (stack_pages_ t)
    (wake_at_ t) x (space_root_ t) (queue_next_ t) (list_next_ t).
Definition set_address_space (x : Z) (t : Thread) : Thread :=
  mkThread (name_ t) (id_ t) (cpu_ t) (state_ t) (stack_pointer_ t) (stack_base_ t) (stack_pages_ t)
    (wake_at_ t) (syscall_stack_ t) x (queue_next_ t) (list_next_ t).

(** The part of [struct PerCpu] the scheduler uses, with the registers it loads. *)
Record PerCpu := mkCpu {
  current_thread : Z; idle_thread : Z; preempt_count : Z;
  kernel_stack_top : Z; cr3 : Z; rsp : Z
}.

Record sched := mk {
  threads : gmap Z Thread;
  run_queue_head : Z; run_queue_tail : Z; sleepers : Z;
  wait_heads : list Z;
  all_threads : Z; threads_alive : Z; next_thread_id : Z; running : bool;
  cpus : list PerCpu;
  stack_words : gmap Z Z
}.

Definition set_threads (m : gmap Z Thread) (s : sched) : sched :=
  mk m (run_queue_head s) (run_queue_tail s) (sleepers s) (wait_heads s) (all_threads s)
    (threads_alive s) (next_thread_id s) (running s) (cpus s) (stack_words s).
Definition set_run_queue (h t : Z) (s : sched) : sched :=
  mk (threads s) h t (sleepers s) (wait_heads s) (all_threads s)
    (threads_alive s) (next_thread_id s) (running s) (cpus s) (stack_words s).
Definition set_sleepers (x : Z) (s : sched) : sched :=
  mk (threads s) (run_queue_head s) (run_queue_tail s) x (wait_heads s) (all_threads s)
    (threads_alive s) (next_thread_id s) (running s) (cpus s) (stack_words s).
Definition set_wait_heads (x : list Z) (s : sched) : sched :=
  mk (threads s) (run_queue_head s) (run_queue_tail s) (sleepers s) x (all_threads s)
    (threads_alive s) (next_thread_id s) (running s) (cpus s) (stack_words s).
Definition set_cpus (x : list PerCpu) (s : sched) : sched :=
  mk (threads s) (run_queue_head s) (run_queue_tail s) (sleepers s) (wait_heads s) (all_threads s)
    (threads_alive s) (next_thread_id s) (running s) x (stack_words s).
Definition set_words (x : gmap Z Z) (s : sched) : sched :=
  mk (threads s) (run_queue_head s) (run_queue_tail s) (sleepers s) (wait_heads s) (all_threads s)
    (threads_alive s) (next_thread_id s) (running s) (cpus s) x.

(** [p->field = ...] *)
Definition update (p : Z) (f : Thread -> Thread) (s : sched) : option sched :=
  t ← threads s !! p; Some (set_threads (<[p := f t]> (threads s)) s).

Definition enqueue (thread : Z) (s : sched) : option sched :=
  s ← update thread (set_queue_next 0) s;
  s ← update thread (set_state Ready) s;
  if run_queue_tail s =? 0 then Some (set_run_queue thread thread s)
  else
    s ← update (run_queue_tail s) (set_queue_next thread) s;
    Some (set_run_queue (run_queue_head s) thread s).

Definition dequeue (s : sched) : option (Z * sched) :=
  let thread := run_queue_head s in
  if thread =? 0 then Some (0, s)
  else
    t ← threads s !! thread;
    let s := set_run_queue (queue_next_ t) (run_queue_tail s) s in
    let s := if run_queue_head s =? 0 then set_run_queue (run_queue_head s) 0 s else s in
    s ← update thread (set_queue_next 0) s;
    Some (thread, s).

Definition park_sleeper_at (thread deadline : Z) (s : sched) : option sched :=
  s ← update thread (set_wake_at deadline) s;
  s ← update thread (set_state Sleeping) s;
  s ← update thread (set_queue_next (sleepers s)) s;
  Some (set_sleepers thread s).

Definition next_in_list (thread : Z) (s : sched) : option Z := list_next_ <$> threads s !! thread.

(** The loop of [wake_expired_sleepers]; the chain of sleepers visits no more threads
    than there are. *)
Fixpoint wake_loop (fuel : nat) (now remaining : Z) (s : sched) : option sched :=
  match fuel with
  | O => None
  | S fuel' =>
    if sleepers s =? 0 then Some (set_sleepers remaining s)
    else
      let thread := sleepers s in
      t ← threads s !! thread;
      let s := set_sleepers (queue_next_ t) s in
      if wake_at_ t <=? now then s ← enqueue thread s; wake_loop fuel' now remaining s
      else s ← update thread (set_queue_next remaining) s; wake_loop fuel' now thread s
  end.

Definition wake_expired_sleepers (now : Z) (s : sched) : option sched :=
  wake_loop (S (size (threads s))) now 0 s.

Definition idle_thread_of (k : nat) (s : sched) : option Z := idle_thread <$> cpus s !! k.

Definition set_current (k : nat) (thread : Z) (s : sched) : option sched :=
  c ← cpus s !! k;
  let c := mkCpu thread (idle_thread c) (preempt_count c) (kernel_stack_top c) (cr3 c) (rsp c) in
  let s := set_cpus (<[k := c]> (cpus s)) s in
  s ← update thread (set_cpu (Z.of_nat k)) s;
  update thread (set_state Running) s.

(** [context_switch(&previous->stack_pointer_, next->stack_pointer_)] from
    src/kernel/sched/switch.asm: [sp] is the stack pointer it saves. *)
Definition context_switch (k : nat) (sp previous next : Z) (s : sched) : option sched :=
  s ← update previous (set_stack_pointer sp) s;
  n ← threads s !! next;
  c ← cpus s !! k;
  Some (set_cpus (<[k := mkCpu (current_thread c) (idle_thread c) (preempt_count c)
    (kernel_stack_top c) (cr3 c) (stack_pointer_ n)]> (cpus s)) s).

(** [kernel_root] is [AddressSpace::kernel().root()]. *)
Definition switch_to (kernel_root : Z) (k : nat) (sp next : Z) (s : sched) : option sched :=
  c ← cpus s !! k;
  let previous := current_thread c in
  if previous =? next then set_current k next s
  else
    s ← set_current k next s;
    n ← threads s !! next;
    c ← cpus s !! k;
    let kernel_stack :=
      if negb (syscall_stack_ n =? 0) then syscall_stack_ n
      else if negb (stack_base_ n =? 0) then u64 (stack_base_ n + stack_pages_ n * page_size) else 0 in
    let top := if negb (kernel_stack =? 0) then kernel_stack else kernel_stack_top c in
    let wanted := if negb (space_root_ n =? 0) then space_root_ n else kernel_root in
    let c := mkCpu (current_thread c) (idle_thread c) (preempt_count c) top
      (if negb (wanted =? cr3 c) then wanted else cr3 c) (rsp c) in
    context_switch k sp previous next (set_cpus (<[k := c]> (cpus s)) s).

(** [link] is [&sleepers] ([None]) or the [queue_next_] field of a thread. *)
Definition read_link (link : option Z) (s : sched) : option Z :=
  match link with None => Some (sleepers s) | Some p => queue_next_ <$> threads s !! p end.
Definition write_link (link : option Z) (x : Z) (s : sched) : option sched :=
  match link with None => Some (set_sleepers x s) | Some p => update p (set_queue_next x) s end.

Fixpoint detach_loop (fuel : nat) (thread : Z) (link : option Z) (s : sched) : option sched :=
  match fuel with
  | O => None
  | S fuel' =>
    p ← read_link link s;
    if p =? 0 then Some s
    else if p =? thread then t ← threads s !! thread; write_link link (queue_next_ t) s
    else detach_loop fuel' thread (Some p) s
  end.

Definition detach_from_sleepers (thread : Z) (s : sched) : option sched :=
  detach_loop (S (size (threads s))) thread None s.

Definition block_on (q : nat) (thread : Z) (s : sched) : option sched :=
  h ← wait_heads s !! q;
  s ← update thread (set_state Blocked) s;
  s ← update thread (set_queue_next h) s;
  Some (set_wait_heads (<[q := thread]> (wait_heads s)) s).

Definition take_from (q : nat) (s : sched) : option (Z * sched) :=
  thread ← wait_heads s !! q;
  if thread =? 0 then Some (0, s)
  else
    t ← threads s !! thread;
    let s := set_wait_heads (<[q := queue_next_ t]> (wait_heads s)) s in
    s ← update thread (set_queue_next 0) s;
    Some (thread, s).

(** ** Creating threads *)

(** The bytes of [name] up to its terminator or the 23rd. *)
Fixpoint take_name (room : nat) (name : list Z) : list Z :=
  match room, name with
  | S room', c :: name' => if c =? 0 then [] else c :: take_name room' name'
  | _, _ => []
  end.

(** [*--top = value] *)
Definition push (top_words : Z * gmap Z Z) (value : Z) : Z * gmap Z Z :=
  let top := top_words.1 - 8 in (top, <[top := value]> (top_words.2)).

(** [trampoline] is the address of [thread_entry_trampoline]. *)
Definition prepare (trampoline thread : Z) (name : list Z) (entry argument : Z) (s : sched) :
    option sched :=
  t ← threads s !! thread;
  let top := u64 (stack_base_ t + stack_pages_ t * page_size) in
  let '(top, words) := fold_left push [trampoline; 0; 0; entry; argument; 0; 0] (top, stack_words s) in
  let t := mkThread (take_name (Z.to_nat (name_length - 1)) name) (id_ t) (cpu_ t) Ready top
    (stack_base_ t) (stack_pages_ t) (wake_at_ t) (syscall_stack_ t) (space_root_ t) (queue_next_ t) (list_next_ t) in
  Some (set_words words (set_threads (<[thread := t]> (threads s)) s)).

Definition adopt (thread : Z) (s : sched) : option sched :=
  t ← threads s !! thread;
  let t := mkThread (name_ t) (next_thread_id s) (cpu_ t) (state_ t) (stack_pointer_ t) (stack_base_ t)
    (stack_pages_ t) (wake_at_ t) (syscall_stack_ t) (space_root_ t) (queue_next_ t) (all_threads s) in
  enqueue thread
    (mk (<[thread := t]> (threads s)) (run_queue_head s) (run_queue_tail s) (sleepers s) (wait_heads s)
       thread (threads_alive s + 1) (u32 (next_thread_id s + 1)) (running s) (cpus s) (stack_words s)).

Definition mark_dead (thread : Z) (s : sched) : option sched :=
  s ← update thread (set_state Dead) s;
  Some (mk (threads s) (run_queue_head s) (run_queue_tail s) (sleepers s) (wait_heads s)
    (all_threads s) (u64 (threads_alive s - 1)) (next_thread_id s) (running s) (cpus s) (stack_words s)).

Definition make_idle (k : nat) (idle : Z) (s : sched) : option sched :=
  c ← cpus s !! k;
  t ← threads s !! idle;
  let t := mkThread [105; 100; 108; 101] 0 (Z.of_nat k) Running (stack_pointer_ t) (stack_base_ t)
    (stack_pages_ t) (wake_at_ t) (syscall_stack_ t) (space_root_ t) (queue_next_ t) (list_next_ t) in
  let c := mkCpu idle idle (preempt_count c) (kernel_stack_top c) (cr3 c) (rsp c) in
  Some (set_cpus (<[k := c]> (cpus s)) (set_threads (<[idle := t]> (threads s)) s)).

(** What the memory code answers [spawn]: the record from [kzalloc], the region from
    [vmalloc_reserve] and the frames [alloc_page] returns in order, 0 for failure. *)
Record memory_answers := mkAnswers { record_at : Z; region_at : Z; frame_at : Z -> Z }.

(** The calls [spawn] makes back into the memory code. *)
Inductive memory_call :=
  | Kfree (p : Z)
  | VmallocRelease (region length : Z)
  | MapPage (va frame : Z).

(** The mapping loop: the first page whose frame is missing ends it. *)
Fixpoint map_stack (n : nat) (i region : Z) (frame_at : Z -> Z) (calls : list memory_call) :
    bool * list memory_call :=
  match n with
  | O => (true, calls)
  | S n' =>
    if frame_at i =? 0 then (false, calls)
    else map_stack n' (i + 1) region frame_at
           (calls ++ [MapPage (region + (i + 1) * page_size) (frame_at i)])
  end.

(** [Thread::spawn] as one step of its CPU.  The source compares [threads_alive] before it
    takes the lock, so spawns on several CPUs can each pass the test and together exceed
    [max_threads], which steps taken one after the other do not show. *)
Definition spawn (a : memory_answers) (trampoline : Z) (name : list Z) (entry argument : Z) (s : sched) :
    option (Z * list memory_call * sched) :=
  let length := (stack_pages_per_thread + 1) * page_size in
  if max_threads <=? threads_alive s then Some (0, [], s)
  else if record_at a =? 0 then Some (0, [], s)
  else if region_at a =? 0 then Some (0, [Kfree (record_at a)], s)
  else
    let '(ok, calls) := map_stack (Z.to_nat stack_pages_per_thread) 0 (region_at a) (frame_at a) [] in
    if negb ok
    then Some (0, calls ++ [VmallocRelease (region_at a) length; Kfree (record_at a)], s)
    else
      let thread := record_at a in
      let t := mkThread [] 0 0 Ready 0 (region_at a + page_size) stack_pages_per_thread 0 0 0 0 0 in
      s ← prepare trampoline thread name entry argument (set_threads (<[thread := t]> (threads s)) s);
      s ← adopt thread s;
      Some (thread, calls, s).

(** ** Operations of the running CPU *)

Definition wake (thread : Z) (s : sched) : option sched :=
  t ← threads s !! thread;
  if bool_decide (state_ t = Blocked) || bool_decide (state_ t = Sleeping)
  then s ← detach_from_sleepers thread s; enqueue thread s
  else Some s.

Section on_cpu.
  Context (kernel_root : Z) (k : nat).

Definition current (s : sched) : option Z := current_thread <$> cpus s !! k.

Definition yield (now sp : Z) (s : sched) : option sched :=
  if negb (running s) then Some s
  else
    s ← wake_expired_sleepers now s;
    '(next, s) ← dequeue s;
    self ← current s;
    if next =? 0 then Some s
    else
      idle ← idle_thread_of k s;
      s ← (if negb (self =? 0) && negb (self =? idle) then enqueue self s else Some s);
      switch_to kernel_root k sp next s.

(** The common end of [thread_sleep_ns], [thread_exit] and [WaitQueue::wait]. *)
Definition leave (sp : Z) (s : sched) : option sched :=
  '(next, s) ← dequeue s;
  next ← (if next =? 0 then idle_thread_of k s else Some next);
  switch_to kernel_root k sp next s.

(** Before the scheduler runs, sleeping is a busy wait, which changes nothing here. *)
Definition thread_sleep_ns (now nanoseconds sp : Z) (s : sched) : option sched :=
  if negb (running s) then Some s
  else
    self ← current s;
    s ← park_sleeper_at self (u64 (now + nanoseconds)) s;
    leave sp s.

Definition thread_sleep_ms (now milliseconds sp : Z) (s : sched) : option sched :=
  thread_sleep_ns now (u64 (milliseconds * 1000000)) sp s.

(** The call never returns to the caller: should the switch come back, it panics. *)
Definition thread_exit (sp : Z) (s : sched) : option sched :=
  self ← current s;
  s ← mark_dead self s;
  leave sp s.

Definition wait (q : nat) (sp : Z) (s : sched) : option sched :=
  self ← current s;
  s ← block_on q self s;
  leave sp s.

Definition set_preempt_count (x : Z) (c : PerCpu) : PerCpu :=
  mkCpu (current_thread c) (idle_thread c) x (kernel_stack_top c) (cr3 c) (rsp c).

Definition preempt_disable (s : sched) : option sched :=
  c ← cpus s !! k;
  Some (set_cpus (<[k := set_preempt_count (u32 (preempt_count c + 1)) c]> (cpus s)) s).

Definition preempt_enable (s : sched) : option sched :=
  c ← cpus s !! k;
  if 0 <? preempt_count c
  then Some (set_cpus (<[k := set_preempt_count (preempt_count c - 1) c]> (cpus s)) s)
  else Some s.

Definition preempt_allowed (s : sched) : option bool :=
  c ← cpus s !! k; Some (preempt_count c =? 0).

Definition sched_tick (now sp : Z) (s : sched) : option sched :=
  allowed ← preempt_allowed s;
  if negb (running s) || negb allowed then Some s else yield now sp s.

(** [idle] is what [kzalloc] returned; without memory the kernel panics. *)
Definition sched_start_cpu (idle : Z) (s : sched) : option sched :=
  if idle =? 0 then None
  else make_idle k idle (set_threads (<[idle := zero_thread]> (threads s)) s).

Definition sched_init (idle : Z) (s : sched) : option sched :=
  s ← sched_start_cpu idle s;
  Some (mk (threads s) (run_queue_head s) (run_queue_tail s) (sleepers s) (wait_heads s)
    (all_threads s) (threads_alive s) (next_thread_id s) true (cpus s) (stack_words s)).

End on_cpu.

Definition wake_one (q : nat) (s : sched) : option sched :=
  '(thread, s) ← take_from q s;
  if negb (thread =? 0) then enqueue thread s else Some s.

Fixpoint wake_all_loop (fuel : nat) (q : nat) (s : sched) : option sched :=
  match fuel with
  | O => None
  | S fuel' =>
    '(thread, s) ← take_from q s;
    if negb (thread =? 0) then s ← enqueue thread s; wake_all_loop fuel' q s else Some s
  end.

Definition wake_all (q : nat) (s : sched) : option sched :=
  wake_all_loop (S (size (threads s))) q s.

Definition thread_count (s : sched) : Z := threads_alive s.

Fixpoint thread_at_loop (n : nat) (thread : Z) (s : sched) : option Z :=
  match n with
  | O => Some thread
  | S n' => if thread =? 0 then Some 0 else next ← next_in_list thread s; thread_at_loop n' next s
  end.

Definition thread_at (index : nat) (s : sched) : option Z := thread_at_loop index (all_threads s) s.

(** ** Queues as lists *)

(** [l] is the list of threads linked from [p]. *)
Fixpoint chain (m : gmap Z Thread) (p : Z) (l : list Z) : Prop :=
  match l with
  | [] => p = 0
  | x :: l' => p = x /\ x <> 0 /\ exists t, m !! x = Some t /\ chain m (queue_next_ t) l'
  end.

Lemma chain_known m p l x : chain m p l -> x ∈ l -> x <> 0 /\ is_Some (m !! x).
Proof.
  revert p. induction l as [|y l IH]; intros p Hc Hx; [by apply elem_of_nil in Hx|].
  destruct Hc as (-> & Hy & t & Ht & Hc). apply elem_of_cons in Hx as [->|Hx]; [by eauto|]. by eapply IH.
Qed.

(** Changing a thread outside the chain, or anything but its link, keeps the chain. *)
Lemma chain_other m p l y t : y ∉ l -> chain m p l -> chain (<[y := t]> m) p l.
Proof.
  revert p. induction l as [|x l IH]; intros p Hy Hc; [done|].
  destruct Hc as (-> & Hx & u & Hu & Hc). apply not_elem_of_cons in Hy as [Hxy Hy].
  split_and!; [done|done|]. exists u. rewrite lookup_insert_ne by done. split; [done|]. by apply IH.
Qed.

Lemma chain_same_link m p l y t t' :
  m !! y = Some t -> queue_next_ t' = queue_next_ t -> chain m p l -> chain (<[y := t']> m) p l.
Proof.
  intros Ht E. revert p. induction l as [|x l IH]; intros p Hc; [done|].
  destruct Hc as (-> & Hx & u & Hu & Hc). split_and!; [done|done|].
  destruct (decide (y = x)) as [->|Hne].
  - exists t'. rewrite lookup_insert_eq. split; [done|]. rewrite E.
    assert (u = t) as -> by congruence. by apply IH.
  - exists u. rewrite lookup_insert_ne by done. split; [done|]. by apply IH.
Qed.

(** Appending at the tail. *)
Lemma chain_snoc m p l x y t u : chain m p (l ++ [x]) -> x ∉ l -> y ∉ l ++ [x] -> y <> 0 ->
  m !! x = Some t -> m !! y = Some u -> queue_next_ u = 0 ->
  chain (<[x := set_queue_next y t]> m) p ((l ++ [x]) ++ [y]).
Proof.
  revert p. induction l as [|z l IH]; intros p Hc Hx Hy Hy0 Ht Hu E; cbn [app] in *.
  - destruct Hc as (-> & Hx0 & t' & _ & _). cbn [chain].
    split_and!; [done|done|]. exists (set_queue_next y t). rewrite lookup_insert_eq. split; [done|].
    cbn [set_queue_next queue_next_]. split_and!; [done|done|]. exists u.
    rewrite lookup_insert_ne by set_solver. done.
  - destruct Hc as (-> & Hz & v & Hv & Hc). apply not_elem_of_cons in Hx as [Hxz Hx].
    apply not_elem_of_cons in Hy as [Hyz Hy]. split_and!; [done|done|].
    exists v. rewrite lookup_insert_ne by done. split; [done|]. by apply IH.
Qed.

(** The threads without their links. *)
Definition bare (s : sched) : gmap Z Thread := set_queue_next 0 <$> threads s.

Definition has_state (st : ThreadState) (s : sched) (x : Z) : Prop :=
  state_ <$> (bare s !! x) = Some st.

Record core (s : sched) (rq sl : list Z) (ws : list (list Z)) (free : list Z) : Prop := {
  c_nodup : NoDup (rq ++ sl ++ concat ws ++ free);
  c_run : chain (threads s) (run_queue_head s) rq;
  c_tail : run_queue_tail s = default 0 (last rq);
  c_sleep : chain (threads s) (sleepers s) sl;
  c_wait : Forall2 (chain (threads s)) (wait_heads s) ws;
  c_free : Forall (fun x => x <> 0 /\ is_Some (threads s !! x)) free;
  c_ready : Forall (has_state Ready s) rq;
  c_sleeping : Forall (has_state Sleeping s) sl;
  c_blocked : Forall (has_state Blocked s) (concat ws)
}.

(** The fields the queue operations leave alone. *)
Definition same_rest (s s' : sched) : Prop :=
  cpus s' = cpus s /\ running s' = running s /\ all_threads s' = all_threads s /\
  threads_alive s' = threads_alive s /\ next_thread_id s' = next_thread_id s /\
  dom (threads s') = dom (threads s).

Lemma bare_insert s p t t0 : threads s !! p = Some t0 ->
  bare (set_threads (<[p := t]> (threads s)) s) = <[p := set_queue_next 0 t]> (bare s).
Proof. intros. unfold bare. cbn [set_threads threads]. apply fmap_insert. Qed.

Lemma lookup_bare s p : bare s !! p = set_queue_next 0 <$> threads s !! p.
Proof. apply lookup_fmap. Qed.

Lemma concat_insert (ws : list (list Z)) q l l' :
  ws !! q = Some l -> exists a b, concat ws = a ++ l ++ b /\ concat (<[q := l']> ws) = a ++ l' ++ b.
Proof.
  intros H. apply list_elem_of_split_length in H as (w1 & w2 & -> & ->).
  exists (concat w1), (concat w2). rewrite insert_app_r_alt by lia. rewrite Nat.sub_diag. cbn.
  rewrite !concat_app. cbn. done.
Qed.

Lemma elem_concat (ws : list (list Z)) q l x : ws !! q = Some l -> x ∈ l -> x ∈ concat ws.
Proof.
  intros H Hx. destruct (concat_insert ws q l l H) as (a & b & -> & _). set_solver.
Qed.

Lemma update_some s p t f : threads s !! p = Some t ->
  update p f s = Some (set_threads (<[p := f t]> (threads s)) s).
Proof. intros H. unfold update. by rewrite H. Qed.

Lemma update_again s p t f :
  update p f (set_threads (<[p := t]> (threads s)) s) = Some (set_threads (<[p := f t]> (threads s)) s).
Proof.
  unfold update. cbn [set_threads threads]. rewrite lookup_insert_eq. cbn [mbind option_bind].
  by rewrite insert_insert_eq.
Qed.

Lemma has_state_insert st s p t x :
  has_state st (set_threads (<[p := t]> (threads s)) s) x <->
  (x = p /\ state_ t = st) \/ (x <> p /\ has_state st s x).
Proof.
  unfold has_state. rewrite !lookup_bare. cbn [set_threads threads].
  destruct (decide (x = p)) as [->|Hne].
  - rewrite lookup_insert_eq. cbn. split; [intros [= <-]; by left|intros [[_ ->]|[? _]]; done].
  - rewrite lookup_insert_ne by done. split; [by right|intros [[? _]|[_ ?]]; done].
Qed.

Lemma states_other st s p t l : p ∉ l -> Forall (has_state st s) l ->
  Forall (has_state st (set_threads (<[p := t]> (threads s)) s)) l.
Proof.
  intros Hp. rewrite !list.Forall_forall. intros H x Hx. apply has_state_insert. right.
  split; [by intros ->|by apply H].
Qed.

Lemma known_insert (m : gmap Z Thread) p t l :
  Forall (fun x => x <> 0 /\ is_Some (m !! x)) l ->
  Forall (fun x => x <> 0 /\ is_Some (<[p := t]> m !! x)) l.
Proof.
  intros H. eapply Forall_impl; [exact H|]. intros x [? ?]. split; [done|].
  destruct (decide (p = x)) as [->|]; [by rewrite lookup_insert_eq|by rewrite lookup_insert_ne].
Qed.

Lemma wait_other m hs ws y t : y ∉ concat ws -> Forall2 (chain m) hs ws -> Forall2 (chain (<[y := t]> m)) hs ws.
Proof.
  intros Hy H. induction H as [|h w hs ws Hc H IH]; constructor.
  - apply chain_other; [|done]. cbn in Hy. set_solver.
  - apply IH. cbn in Hy. set_solver.
Qed.

(** A thread in no queue may be changed at will. *)
Lemma core_insert_free s rq sl ws free x t :
  x ∉ rq -> x ∉ sl -> x ∉ concat ws ->
  core s rq sl ws free -> core (set_threads (<[x := t]> (threads s)) s) rq sl ws free.
Proof.
  intros H1 H2 H3 [? ? ? ? ? ? ? ? ?]. constructor; cbn [set_threads threads run_queue_head run_queue_tail sleepers wait_heads].
  - done.
  - by apply chain_other.
  - done.
  - by apply chain_other.
  - by apply wait_other.
  - by apply known_insert.
  - by apply states_other.
  - by apply states_other.
  - by apply states_other.
Qed.

(** Any thread may be changed in fields other than its link and its state. *)
Lemma core_insert_same s rq sl ws free x t t0 :
  threads s !! x = Some t0 -> queue_next_ t = queue_next_ t0 -> state_ t = state_ t0 ->
  core s rq sl ws free -> core (set_threads (<[x := t]> (threads s)) s) rq sl ws free.
Proof.
  intros H0 Hq Hs [? ? ? ? Hw ? ? ? ?].
  assert (forall st l, Forall (has_state st s) l ->
    Forall (has_state st (set_threads (<[x := t]> (threads s)) s)) l) as Hst.
  { intros st l. rewrite !list.Forall_forall. intros H y Hy. apply has_state_insert.
    destruct (decide (y = x)) as [->|]; [left|right; by auto]. split; [done|].
    specialize (H _ Hy). unfold has_state in H. rewrite lookup_bare, H0 in H. simpl in H. congruence. }
  constructor; cbn [set_threads threads run_queue_head run_queue_tail sleepers wait_heads]; eauto using chain_same_link, known_insert.
  clear -Hw H0 Hq. induction Hw; constructor; eauto using chain_same_link.
Qed.

Lemma free_outside s rq sl ws x free : core s rq sl ws (x :: free) ->
  x ∉ rq /\ x ∉ sl /\ x ∉ concat ws /\ x ∉ free /\ x <> 0 /\ is_Some (threads s !! x).
Proof.
  intros [Hn _ _ _ _ Hf _ _ _]. apply Forall_cons in Hf as [[? ?] _].
  rewrite (Permutation_app_comm rq), <- !app_assoc in Hn.
  assert (x :: free ++ (rq ++ sl ++ concat ws) ≡ₚ sl ++ concat ws ++ (x :: free) ++ rq) as Hp by solve_Permutation.
  rewrite <- Hp in Hn. apply NoDup_cons in Hn as [Hn _]. set_solver.
Qed.

Lemma core_permute s rq sl ws f f' : f ≡ₚ f' -> core s rq sl ws f -> core s rq sl ws f'.
Proof.
  intros Hp [H1 ? ? ? ? H6 ? ? ?]. constructor; try done; by rewrite <- Hp.
Qed.

(** Membership in concatenations, with the context left out of the search. *)
Ltac mem := repeat rewrite ?elem_of_app, ?elem_of_cons, ?elem_of_nil, ?list_elem_of_singleton; tauto.
Ltac mem_in H := repeat rewrite ?elem_of_app, ?elem_of_cons, ?elem_of_nil, ?list_elem_of_singleton in H.

(** [enqueue] appends a free thread to the run queue and makes it ready. *)
Lemma enqueue_core s rq sl ws x free :
  core s rq sl ws (x :: free) ->
  exists s', enqueue x s = Some s' /\ core s' (rq ++ [x]) sl ws free /\ same_rest s s' /\
    bare s' = alter (set_state Ready) x (bare s) /\
    (forall y, y <> x -> y ∉ rq -> threads s' !! y = threads s !! y).
Proof.
  intros Hc. destruct (free_outside _ _ _ _ _ _ Hc) as (Hxr & Hxs & Hxw & Hxf & Hx0 & [t Ht]).
  unfold enqueue. rewrite (update_some s x t) by done. cbn [mbind option_bind]. rewrite update_again.
  cbn [mbind option_bind]. set (t1 := set_state Ready (set_queue_next 0 t)).
  pose proof (core_insert_free s rq sl ws (x :: free) x t1 Hxr Hxs Hxw Hc) as Hc1.
  set (s1 := set_threads (<[x := t1]> (threads s)) s) in *.
  assert (bare s1 = alter (set_state Ready) x (bare s)) as Hbare.
  { unfold s1. rewrite (bare_insert s x t1 t) by done. apply map_eq. intros y.
    destruct (decide (x = y)) as [->|Hne].
    - rewrite lookup_insert_eq, lookup_alter_eq, lookup_bare, Ht. done.
    - by rewrite lookup_insert_ne, lookup_alter_ne. }
  assert (threads s1 !! x = Some t1) as Ht1 by apply lookup_insert_eq.
  assert (forall y, y <> x -> threads s1 !! y = threads s !! y) as Hlinks.
  { intros y Hy. by apply lookup_insert_ne. }
  assert (has_state Ready s1 x) as Hready.
  { unfold s1. rewrite has_state_insert. by left. }
  assert (same_rest s s1) as Hsame.
  { unfold s1, same_rest. cbn. rewrite dom_insert_lookup_L by done. done. }
  assert (NoDup ((rq ++ [x]) ++ sl ++ concat ws ++ free)) as Hnd.
  { eapply NoDup_Permutation_proper; [|apply (c_nodup _ _ _ _ _ Hc)]. solve_Permutation. }
  clearbody s1. clear Hc. destruct Hc1 as [_ Hrun Htail Hsl Hws Hfree Hr Hs Hb].
  apply Forall_cons in Hfree as [_ Hfree]. rewrite Htail.
  destruct rq as [|z rq0 _] using rev_ind; cbn [last from_option id].
  - rewrite Z.eqb_refl. eexists. split; [reflexivity|].
    split_and!; [|done|done|intros y Hy _; by apply Hlinks].
    constructor; cbn [set_run_queue threads run_queue_head run_queue_tail sleepers wait_heads app last from_option id];
      [done| |done|done|done|done|by constructor|done|done].
    split_and!; [done|done|]. exists t1. done.
  - rewrite last_snoc. cbn [from_option id].
    assert (z <> 0 /\ is_Some (threads s1 !! z)) as [Hz0 [u Hu]] by (eapply chain_known; [exact Hrun|mem]).
    rewrite (proj2 (Z.eqb_neq z 0)) by done. rewrite (update_some s1 z u) by done. cbn [mbind option_bind].
    eexists. split; [reflexivity|].
    assert (z ∉ rq0 /\ z ∉ sl /\ z ∉ concat ws) as (Hz1 & Hz2 & Hz3).
    { rewrite <- !app_assoc in Hnd. apply NoDup_app in Hnd as (_ & Hd & Hnd). apply NoDup_app in Hnd as (_ & Hd2 & Hnd).
      assert (z ∈ [z]) as Hzz by mem. specialize (Hd2 z Hzz). mem_in Hd2. split; [|tauto].
      intros Hin. specialize (Hd z Hin). mem_in Hd. tauto. }
    pose proof (chain_snoc (threads s1) (run_queue_head s1) rq0 z x u t1 Hrun Hz1 Hxr Hx0 Hu Ht1 eq_refl) as Hnew.
    assert (forall st l, Forall (has_state st s1) l ->
      Forall (has_state st (set_run_queue (run_queue_head s1) x
         (set_threads (<[z := set_queue_next x u]> (threads s1)) s1))) l) as Hst.
    { intros st l. rewrite !list.Forall_forall. intros H y Hy. specialize (H _ Hy).
      unfold has_state, bare in *. cbn [set_run_queue set_threads threads]. rewrite lookup_fmap in *.
      destruct (decide (z = y)) as [->|]; [rewrite lookup_insert_eq; rewrite Hu in H; exact H|by rewrite lookup_insert_ne]. }
    split_and!.
    + constructor; cbn [set_run_queue set_threads threads run_queue_head run_queue_tail sleepers wait_heads].
      * done.
      * done.
      * by rewrite last_snoc.
      * by apply chain_other.
      * by apply wait_other.
      * by apply known_insert.
      * apply Forall_app. split; [by apply Hst|]. apply Hst. by constructor.
      * by apply Hst.
      * by apply Hst.
    + destruct Hsame as (E1 & E2 & E3 & E4 & E5 & E6). split_and!; cbn; try done.
      rewrite dom_insert_lookup_L by done. done.
    + rewrite <- Hbare. unfold bare at 1. cbn [set_run_queue set_threads threads]. rewrite fmap_insert.
      apply insert_id. rewrite lookup_bare, Hu. done.
    + intros y Hy Hyr. cbn [set_run_queue set_threads threads]. rewrite lookup_insert_ne; [by apply Hlinks|].
      intros ->. apply Hyr. mem.
Qed.

Lemma chain_ext m m' p l : (forall y, y ∈ l -> m' !! y = m !! y) -> chain m p l -> chain m' p l.
Proof.
  revert p. induction l as [|x l IH]; intros p He Hc; [done|].
  destruct Hc as (-> & Hx & t & Ht & Hc). split_and!; [done|done|]. exists t.
  rewrite He by (by left). split; [done|]. apply IH; [|done]. intros y Hy. apply He. by right.
Qed.

(** Setting a link back to null on a thread outside the queues changes nothing else. *)
Lemma unlink_core s rq sl ws x free :
  core s rq sl ws (x :: free) ->
  exists s', update x (set_queue_next 0) s = Some s' /\ core s' rq sl ws (x :: free) /\
    same_rest s s' /\ bare s' = bare s.
Proof.
  intros Hc. destruct (free_outside _ _ _ _ _ _ Hc) as (Hxr & Hxs & Hxw & _ & _ & [t Ht]).
  rewrite (update_some s x t) by done. eexists. split_and!; [reflexivity|by apply core_insert_free| |].
  - unfold same_rest. cbn. by rewrite dom_insert_lookup_L.
  - rewrite (bare_insert s x _ t) by done. apply insert_id. by rewrite lookup_bare, Ht.
Qed.

Lemma same_rest_trans s1 s2 s3 : same_rest s1 s2 -> same_rest s2 s3 -> same_rest s1 s3.
Proof. unfold same_rest. intros. destruct_and!. split_and!; congruence. Qed.

(** [dequeue] takes the head of the run queue. *)
Lemma dequeue_core s x rq sl ws free :
  core s (x :: rq) sl ws free ->
  exists s', dequeue s = Some (x, s') /\ core s' rq sl ws (x :: free) /\ same_rest s s' /\ bare s' = bare s.
Proof.
  intros [Hn Hrun Htail Hsl Hws Hf Hr Hs Hb]. destruct Hrun as (Eh & Hx0 & t & Ht & Hrun).
  unfold dequeue. rewrite Eh, (proj2 (Z.eqb_neq x 0)), Ht by done. cbn [mbind option_bind].
  set (s1 := if _ =? 0 then _ else _).
  assert (core s1 rq sl ws (x :: free) /\ same_rest s s1 /\ bare s1 = bare s) as (Hc & Hsame & Hbare).
  { assert (NoDup (rq ++ sl ++ concat ws ++ x :: free)) as Hn'.
    { eapply NoDup_Permutation_proper; [|exact Hn]. solve_Permutation. }
    assert (run_queue_tail s1 = default 0 (last rq)) as Et.
    { unfold s1. cbn [set_run_queue run_queue_head]. destruct rq as [|y rq].
      - cbn in Hrun. rewrite Hrun. done.
      - destruct Hrun as (E & Hy & _). rewrite E, (proj2 (Z.eqb_neq y 0)) by done. exact Htail. }
    assert (run_queue_head s1 = queue_next_ t /\ threads s1 = threads s /\ sleepers s1 = sleepers s /\
      wait_heads s1 = wait_heads s /\ same_rest s s1) as (E1 & E2 & E3 & E4 & E5).
    { unfold s1, same_rest. cbn [set_run_queue run_queue_head]. by destruct (_ =? 0). }
    assert (bare s1 = bare s) as E6 by (unfold bare; by rewrite E2).
    split_and!; [|done|done]. apply Forall_cons in Hr as [_ Hr].
    unfold has_state in *. constructor; unfold has_state; rewrite ?E1, ?E2, ?E3, ?E4, ?E6; try done.
    constructor; [by eauto|done]. }
  destruct (unlink_core s1 rq sl ws x free Hc) as (s' & -> & Hc' & Hs' & Hb').
  exists s'. split_and!; [done|done|by eapply same_rest_trans|congruence].
Qed.

Lemma dequeue_empty s sl ws free : core s [] sl ws free -> dequeue s = Some (0, s).
Proof. intros [_ Hrun _ _ _ _ _ _ _]. unfold dequeue. by rewrite Hrun. Qed.

Lemma concat_perm (ws : list (list Z)) q l l' : ws !! q = Some l ->
  concat (<[q := l']> ws) ++ l ≡ₚ concat ws ++ l'.
Proof.
  intros H. destruct (concat_insert ws q l l' H) as (a & b & -> & ->). solve_Permutation.
Qed.

(** [take_from] takes the head of a wait queue. *)
Lemma take_from_core s rq sl ws q x l free :
  ws !! q = Some (x :: l) -> core s rq sl ws free ->
  exists s', take_from q s = Some (x, s') /\ core s' rq sl (<[q := l]> ws) (x :: free) /\
    same_rest s s' /\ bare s' = bare s.
Proof.
  intros Hq [Hn Hrun Htail Hsl Hws Hf Hr Hs Hb].
  destruct (Forall2_lookup_r _ _ _ _ _ Hws Hq) as (h & Eh & Hch).
  destruct Hch as (-> & Hx0 & t & Ht & Hch).
  unfold take_from. rewrite Eh. cbn [mbind option_bind]. rewrite (proj2 (Z.eqb_neq x 0)), Ht by done.
  cbn [mbind option_bind]. set (s1 := set_wait_heads _ _).
  pose proof (concat_perm ws q (x :: l) l Hq) as Hp.
  assert (concat (<[q := l]> ws) ++ [x] ≡ₚ concat ws) as Hp1.
  { apply (Permutation_app_inv_r l). rewrite <- Hp. solve_Permutation. }
  assert (core s1 rq sl (<[q := l]> ws) (x :: free)) as Hc.
  { constructor; cbn [s1 set_wait_heads threads run_queue_head run_queue_tail sleepers wait_heads]; try done.
    - eapply NoDup_Permutation_proper; [|exact Hn]. rewrite <- Hp1. solve_Permutation.
    - by apply Forall2_insert.
    - constructor; [by eauto|done].
    - rewrite <- Hp1 in Hb. by apply Forall_app in Hb as [? _]. }
  destruct (unlink_core s1 _ _ _ x free Hc) as (s' & -> & Hc' & Hs' & Hb').
  exists s'. split_and!; [done|done|done|done].
Qed.

Lemma take_from_empty s rq sl ws q free :
  ws !! q = Some [] -> core s rq sl ws free -> take_from q s = Some (0, s).
Proof.
  intros Hq Hc. destruct (Forall2_lookup_r _ _ _ _ _ (c_wait _ _ _ _ _ Hc) Hq) as (h & Eh & Hch).
  unfold take_from. rewrite Eh. cbn. by rewrite Hch.
Qed.

(** A free thread whose link and state are set in one go. *)
Lemma relink_core s rq sl ws x free t t' :
  core s rq sl ws (x :: free) -> threads s !! x = Some t ->
  let s' := set_threads (<[x := t']> (threads s)) s in
  core s' rq sl ws (x :: free) /\ same_rest s s' /\ bare s' = <[x := set_queue_next 0 t']> (bare s).
Proof.
  intros Hc Ht s'. destruct (free_outside _ _ _ _ _ _ Hc) as (Hxr & Hxs & Hxw & _).
  split_and!; [by apply core_insert_free| |by apply (bare_insert s x t' t)].
  unfold same_rest, s'. cbn. by rewrite dom_insert_lookup_L.
Qed.

(** [block_on] pushes a free thread onto a wait queue. *)
Lemma block_on_core s rq sl ws q x l free :
  ws !! q = Some l -> core s rq sl ws (x :: free) ->
  exists s', block_on q x s = Some s' /\ core s' rq sl (<[q := x :: l]> ws) free /\ same_rest s s' /\
    bare s' = alter (set_state Blocked) x (bare s).
Proof.
  intros Hq Hc. destruct (free_outside _ _ _ _ _ _ Hc) as (Hxr & Hxs & Hxw & Hxf & Hx0 & [t Ht]).
  destruct (Forall2_lookup_r _ _ _ _ _ (c_wait _ _ _ _ _ Hc) Hq) as (h & Eh & Hch).
  unfold block_on. rewrite Eh. cbn [mbind option_bind]. rewrite (update_some s x t) by done.
  cbn [mbind option_bind]. rewrite update_again. cbn [mbind option_bind].
  set (t1 := set_queue_next h (set_state Blocked t)).
  destruct (relink_core s rq sl ws x free t t1 Hc Ht) as (Hc1 & Hsame & Hbare).
  set (s1 := set_threads _ s) in *. eexists. split; [reflexivity|].
  assert (threads s1 !! x = Some t1) as Ht1 by apply lookup_insert_eq.
  assert (has_state Blocked s1 x) as Hst by (unfold s1; rewrite has_state_insert; by left).
  assert (wait_heads s1 = wait_heads s) as Ew by done.
  split_and!; [|done|].
  - clearbody s1. destruct Hc1 as [Hn Hrun Htail Hsl Hws Hf Hr Hs Hb].
    pose proof (concat_perm ws q l (x :: l) Hq) as Hp.
    assert (concat (<[q := x :: l]> ws) ≡ₚ x :: concat ws) as Hp1.
    { apply (Permutation_app_inv_r l). rewrite Hp. solve_Permutation. }
    constructor; cbn [set_wait_heads threads run_queue_head run_queue_tail sleepers wait_heads]; try done.
    + eapply NoDup_Permutation_proper; [|exact Hn]. rewrite Hp1. solve_Permutation.
    + apply Forall2_insert; [done|]. split_and!; [done|done|]. exists t1. split; [done|].
      cbn [t1 set_queue_next queue_next_]. destruct (Forall2_lookup_r _ _ _ _ _ Hws Hq) as (h' & Eh' & Hch').
      assert (h' = h) as -> by congruence. done.
    + by apply Forall_cons in Hf as [_ ?].
    + rewrite Hp1. constructor; [done|]. done.
  - unfold bare at 1. cbn [set_wait_heads threads]. change (set_queue_next 0 <$> threads s1) with (bare s1).
    rewrite Hbare. apply map_eq. intros y. destruct (decide (x = y)) as [->|].
    + by rewrite lookup_insert_eq, lookup_alter_eq, lookup_bare, Ht.
    + by rewrite lookup_insert_ne, lookup_alter_ne.
Qed.

(** [park_sleeper_at] pushes a free thread onto the sleepers. *)
Lemma park_core s rq sl ws x deadline free :
  core s rq sl ws (x :: free) ->
  exists s', park_sleeper_at x deadline s = Some s' /\ core s' rq (x :: sl) ws free /\ same_rest s s' /\
    bare s' = alter (set_state Sleeping ∘ set_wake_at deadline) x (bare s).
Proof.
  intros Hc. destruct (free_outside _ _ _ _ _ _ Hc) as (_ & _ & _ & _ & Hx0 & [t Ht]).
  unfold park_sleeper_at. rewrite (update_some s x t) by done. cbn [mbind option_bind].
  rewrite !update_again. cbn [mbind option_bind]. rewrite update_again. cbn [mbind option_bind].
  cbn [set_threads sleepers]. set (t1 := set_queue_next (sleepers s) _).
  destruct (relink_core s rq sl ws x free t t1 Hc Ht) as (Hc1 & Hsame & Hbare).
  set (s1 := set_threads _ s) in *. eexists. split; [reflexivity|].
  assert (threads s1 !! x = Some t1) as Ht1 by apply lookup_insert_eq.
  assert (has_state Sleeping s1 x) as Hst by (unfold s1; rewrite has_state_insert; by left).
  assert (sleepers s1 = sleepers s) as Es by done.
  split_and!; [|done|].
  - clearbody s1. destruct Hc1 as [Hn Hrun Htail Hsl Hws Hf Hr Hs Hb].
    constructor; cbn [set_sleepers threads run_queue_head run_queue_tail sleepers wait_heads]; try done.
    + eapply NoDup_Permutation_proper; [|exact Hn]. solve_Permutation.
    + split_and!; [done|done|]. exists t1. split; [done|]. cbn [t1 set_queue_next queue_next_]. by rewrite <- Es.
    + by apply Forall_cons in Hf as [_ ?].
    + constructor; [done|]. done.
  - unfold bare at 1. cbn [set_sleepers threads]. change (set_queue_next 0 <$> threads s1) with (bare s1).
    rewrite Hbare. apply map_eq. intros y. destruct (decide (x = y)) as [->|].
    + by rewrite lookup_insert_eq, lookup_alter_eq, lookup_bare, Ht.
    + by rewrite lookup_insert_ne, lookup_alter_ne.
Qed.

(** *** The pass over the sleepers *)

(** Whether a sleeper's time has come, read off the threads. *)
Definition expired (b : gmap Z Thread) (now x : Z) : bool :=
  match b !! x with Some t => wake_at_ t <=? now | None => false end.

Lemma wake_loop_core fuel now s rq sl ws rem p free :
  (length sl < fuel)%nat ->
  core s rq sl ws (rem ++ free) -> chain (threads s) p rem -> Forall (has_state Sleeping s) rem ->
  let up := List.filter (expired (bare s) now) sl in
  let down := List.filter (fun x => negb (expired (bare s) now x)) sl in
  exists s', wake_loop fuel now p s = Some s' /\
    core s' (rq ++ up) (reverse down ++ rem) ws free /\ same_rest s s' /\
    (forall x, x ∉ up -> bare s' !! x = bare s !! x) /\
    (forall x, x ∈ up -> bare s' !! x = set_state Ready <$> (bare s !! x)).
Proof.
  revert s rq sl rem p. induction fuel as [|fuel IH]; intros s rq sl rem p Hf Hc Hrem Hst; [lia|].
  cbn [wake_loop]. destruct sl as [|x sl].
  - destruct Hc as [Hn Hrun Htail Hsl Hws Hfr Hr Hs Hb]. cbn in Hsl. rewrite Hsl. cbn [Z.eqb].
    eexists. split; [reflexivity|]. cbn [List.filter reverse rev_append].
    split_and!; [|done|done|by intros x Hx%elem_of_nil]. rewrite app_nil_r. cbn [app] in *.
    apply Forall_app in Hfr as [_ Hfr].
    constructor; cbn [set_sleepers threads run_queue_head run_queue_tail sleepers wait_heads]; try done.
    + eapply NoDup_Permutation_proper; [|exact Hn]. unfold reverse. cbn. solve_Permutation.
  - pose proof (c_sleep _ _ _ _ _ Hc) as (Es & Hx0 & t & Ht & Hsl'). rewrite Es.
    rewrite (proj2 (Z.eqb_neq x 0)), Ht by done. cbn [mbind option_bind].
    set (s1 := set_sleepers (queue_next_ t) s).
    assert (core s1 rq sl ws (x :: rem ++ free)) as Hc1.
    { destruct Hc as [Hn Hrun Htail Hsl Hws Hfr Hr Hs Hb]. apply Forall_cons in Hs as [_ Hs].
      constructor; cbn [s1 set_sleepers threads run_queue_head run_queue_tail sleepers wait_heads]; try done.
      - eapply NoDup_Permutation_proper; [|exact Hn]. solve_Permutation.
      - constructor; [by eauto|done]. }
    assert (expired (bare s) now x = (wake_at_ t <=? now)) as Ex.
    { unfold expired. rewrite lookup_bare, Ht. done. }
    assert (has_state Sleeping s x) as Hxs.
    { pose proof (c_sleeping _ _ _ _ _ Hc) as H. by apply Forall_cons in H as [? _]. }
    destruct (free_outside _ _ _ _ _ _ Hc1) as (Hxr & Hxsl & Hxw & Hxf & _ & _).
    assert (bare s1 = bare s) as Eb1 by done. cbn [List.filter]. rewrite Ex.
    assert (x ∉ rem) as Hxrem by (intros H; apply Hxf; mem).
    destruct (wake_at_ t <=? now) eqn:Ew; cbn [negb].
    + destruct (enqueue_core s1 rq sl ws x (rem ++ free) Hc1) as (s2 & -> & Hc2 & Hsame2 & Hb2 & Hl2).
      cbn [mbind option_bind].
      assert (forall y, y <> x -> bare s2 !! y = bare s !! y) as Hfr.
      { intros y Hy. rewrite Hb2, Eb1. by apply lookup_alter_ne. }
      assert (forall y, y ∈ rem -> y ∉ rq) as Hdr.
      { intros y Hy Hyr. pose proof (c_nodup _ _ _ _ _ Hc) as Hn. apply NoDup_app in Hn as (_ & Hd & _).
        apply (Hd y Hyr). mem. }
      assert (chain (threads s2) p rem) as Hrem2.
      { eapply chain_ext; [|exact Hrem]. intros y Hy. apply Hl2; [by intros ->|by apply Hdr]. }
      assert (Forall (has_state Sleeping s2) rem) as Hst2.
      { rewrite list.Forall_forall in Hst |- *. intros y Hy. unfold has_state. rewrite Hfr by (by intros ->).
        by apply Hst. }
      destruct (IH s2 (rq ++ [x]) sl rem p ltac:(cbn in Hf; lia) Hc2 Hrem2 Hst2)
        as (s' & E & Hc' & Hsame' & Hb' & Hb'').
      assert (List.filter (expired (bare s2) now) sl = List.filter (expired (bare s) now) sl /\
        List.filter (fun x => negb (expired (bare s2) now x)) sl
          = List.filter (fun x => negb (expired (bare s) now x)) sl) as [Ef1 Ef2].
      { split; apply List.filter_ext_in; intros y Hy%list_elem_of_In; unfold expired; rewrite Hfr; try done; by intros ->. }
      rewrite Ef1, Ef2 in *. exists s'. rewrite <- app_assoc in Hc'.
      split_and!; [done|exact Hc'|by eapply same_rest_trans| |].
      * intros y Hy. apply not_elem_of_cons in Hy as [Hyx Hy]. rewrite Hb' by done. by apply Hfr.
      * intros y [->|Hy]%elem_of_cons.
        -- assert (x ∉ List.filter (expired (bare s) now) sl) as Hxn.
           { intros H. apply list_elem_of_In, filter_In in H as [H _]. apply list_elem_of_In in H. done. }
           rewrite Hb' by done. rewrite Hb2, Eb1, lookup_alter_eq. done.
        -- rewrite Hb'' by done. rewrite Hfr; [done|]. intros ->.
           apply list_elem_of_In, filter_In in Hy as [Hy _]. apply list_elem_of_In in Hy. done.
    + rewrite (update_some s1 x t) by done. cbn [mbind option_bind].
      destruct (relink_core s1 rq sl ws x (rem ++ free) t (set_queue_next p t) Hc1 Ht) as (Hc2 & Hsame2 & Hb2).
      set (s2 := set_threads _ s1) in *.
      assert (bare s2 = bare s) as Eb2.
      { rewrite Hb2, Eb1. apply insert_id. by rewrite lookup_bare, Ht. }
      assert (chain (threads s2) x (x :: rem)) as Hrem2.
      { split_and!; [done|done|]. exists (set_queue_next p t). split; [apply lookup_insert_eq|].
        by apply chain_other. }
      assert (forall y, has_state Sleeping s2 y <-> has_state Sleeping s y) as Hss.
      { intros y. unfold has_state. by rewrite Eb2. }
      assert (Forall (has_state Sleeping s2) (x :: rem)) as Hst2.
      { constructor; [by apply Hss|]. eapply Forall_impl; [exact Hst|]. intros y. apply Hss. }
      clearbody s2.
      destruct (IH s2 rq sl (x :: rem) x ltac:(cbn in Hf; lia) Hc2 Hrem2 Hst2)
        as (s' & E & Hc' & Hsame' & Hb' & Hb''). rewrite Eb2 in *.
      exists s'. rewrite reverse_cons, <- app_assoc. split_and!; [done|exact Hc'|by eapply same_rest_trans|done|done].
Qed.

(** The queues hold no more threads than there are, which bounds the walks. *)
Lemma known_length (m : gmap Z Thread) l :
  NoDup l -> (forall x, x ∈ l -> is_Some (m !! x)) -> (length l <= size m)%nat.
Proof.
  intros Hn Hk. rewrite <- (size_dom m). rewrite <- (size_list_to_set (C:=gset Z) l Hn).
  apply subseteq_size. intros x Hx. apply elem_of_list_to_set in Hx. apply elem_of_dom. by apply Hk.
Qed.

Lemma sleepers_length s rq sl ws free : core s rq sl ws free -> (length sl <= size (threads s))%nat.
Proof.
  intros [Hn _ _ Hsl _ _ _ _ _]. apply known_length.
  - apply NoDup_app in Hn as (_ & _ & Hn). by apply NoDup_app in Hn as (? & _).
  - intros x Hx. by eapply chain_known.
Qed.

Lemma wake_expired_core now s rq sl ws free :
  core s rq sl ws free ->
  let up := List.filter (expired (bare s) now) sl in
  let down := List.filter (fun x => negb (expired (bare s) now x)) sl in
  exists s', wake_expired_sleepers now s = Some s' /\
    core s' (rq ++ up) (reverse down) ws free /\ same_rest s s' /\
    (forall x, x ∉ up -> bare s' !! x = bare s !! x).
Proof.
  intros Hc. pose proof (sleepers_length _ _ _ _ _ Hc) as Hl.
  destruct (wake_loop_core (S (size (threads s))) now s rq sl ws [] 0 free) as (s' & E & Hc' & H1 & H2 & _);
    [lia|done|done|constructor|].
  rewrite app_nil_r in Hc'. exists s'. done.
Qed.

(** *** Taking a thread out of the middle of the sleepers *)

Lemma chain_next m p pre x b : chain m p (pre ++ x :: b) ->
  match last pre with None => p = x | Some z => exists u, m !! z = Some u /\ queue_next_ u = x end.
Proof.
  revert p. induction pre as [|y pre IH]; intros p Hc; cbn [app] in Hc.
  - by destruct Hc as (-> & _).
  - destruct Hc as (-> & _ & u & Hu & Hc). specialize (IH _ Hc).
    destruct pre as [|z pre]; [by exists u|]. change (last (y :: z :: pre)) with (last (z :: pre)).
    destruct (last (z :: pre)) eqn:El; [exact IH|by apply last_None in El].
Qed.

Lemma chain_end m p pre : chain m p pre ->
  match last pre with None => p = 0 | Some z => exists u, m !! z = Some u /\ queue_next_ u = 0 end.
Proof.
  revert p. induction pre as [|y pre IH]; intros p Hc; [done|].
  destruct Hc as (-> & _ & u & Hu & Hc). specialize (IH _ Hc).
  destruct pre as [|z pre]; [by exists u|]. change (last (y :: z :: pre)) with (last (z :: pre)).
    destruct (last (z :: pre)) eqn:El; [exact IH|by apply last_None in El].
Qed.

Lemma chain_skip m p pre x b t : chain m p (pre ++ x :: b) -> NoDup (pre ++ x :: b) -> m !! x = Some t ->
  match last pre with
  | None => chain m (queue_next_ t) b
  | Some z => exists u, m !! z = Some u /\ chain (<[z := set_queue_next (queue_next_ t) u]> m) p (pre ++ b)
  end.
Proof.
  revert p. induction pre as [|y pre IH]; intros p Hc Hn Ht; cbn [app] in Hc.
  - destruct Hc as (-> & _ & t' & Ht' & Hc). by assert (t' = t) as -> by congruence.
  - destruct Hc as (-> & Hy & u & Hu & Hc). apply NoDup_cons in Hn as [Hyn Hn].
    specialize (IH _ Hc Hn Ht). destruct pre as [|z pre].
    + cbn [last] in *. exists u. split; [done|]. cbn [app].
      split_and!; [done|done|]. eexists. rewrite lookup_insert_eq. split; [reflexivity|].
      apply chain_other; [|done]. intros Hin. apply Hyn. cbn [app]. mem.
    + change (last (y :: z :: pre)) with (last (z :: pre)). destruct (last (z :: pre)) as [w|] eqn:El.
      * destruct IH as (v & Hv & IH). exists v. split; [done|]. split_and!; [done|done|].
        exists u. split; [|done]. rewrite lookup_insert_ne; [done|]. intros ->. apply Hyn.
        apply (elem_of_app (z :: pre) (x :: b)). left. by apply last_Some_elem_of.
      * by apply last_None in El.
Qed.

Lemma detach_loop_spec fuel s x pre suf :
  chain (threads s) (sleepers s) (pre ++ suf) -> (length suf < fuel)%nat ->
  (x ∉ suf -> detach_loop fuel x (last pre) s = Some s) /\
  (forall a b, suf = a ++ x :: b -> x ∉ a -> detach_loop fuel x (last pre) s
     = t ← threads s !! x; write_link (last (pre ++ a)) (queue_next_ t) s).
Proof.
  revert pre suf. induction fuel as [|fuel IH]; intros pre suf Hc Hf; [lia|].
  cbn [detach_loop]. destruct suf as [|y suf].
  - rewrite app_nil_r in Hc. apply chain_end in Hc. split; [|intros [|] ? ?; done]. intros _.
    unfold read_link. destruct (last pre) as [z|]; [|by rewrite Hc].
    destruct Hc as (u & -> & E). cbn. by rewrite E.
  - assert (y <> 0) as Hy by (eapply chain_known; [exact Hc|mem]).
    pose proof (chain_next _ _ _ _ _ Hc) as Hnx.
    assert (read_link (last pre) s = Some y) as ->.
    { unfold read_link. destruct (last pre) as [z|]; [destruct Hnx as (u & -> & <-); done|by rewrite Hnx]. }
    cbn [mbind option_bind]. rewrite (proj2 (Z.eqb_neq y 0)) by done.
    assert (chain (threads s) (sleepers s) ((pre ++ [y]) ++ suf)) as Hc' by (by rewrite <- app_assoc).
    cbn [length] in Hf. destruct (IH (pre ++ [y]) suf Hc' ltac:(lia)) as [IH1 IH2].
    rewrite last_snoc in IH1, IH2. split.
    + intros Hx. apply not_elem_of_cons in Hx as [Hxy Hx]. rewrite (proj2 (Z.eqb_neq y x)) by done. by apply IH1.
    + intros [|z a] b [= -> ->] Hx.
      * rewrite Z.eqb_refl, app_nil_r. done.
      * apply not_elem_of_cons in Hx as [Hxy Hx]. rewrite (proj2 (Z.eqb_neq z x)) by done.
        rewrite (IH2 a b eq_refl Hx), <- app_assoc. done.
Qed.

(** [detach_from_sleepers] takes a sleeping thread out of the chain. *)
Lemma detach_core s rq a x b ws free :
  core s rq (a ++ x :: b) ws free ->
  exists s', detach_from_sleepers x s = Some s' /\ core s' rq (a ++ b) ws (x :: free) /\ same_rest s s' /\
    bare s' = bare s.
Proof.
  intros Hc. pose proof (sleepers_length _ _ _ _ _ Hc) as Hl.
  destruct Hc as [Hn Hrun Htail Hsl Hws Hf Hr Hs Hb].
  assert (NoDup (a ++ x :: b)) as Hnd.
  { apply NoDup_app in Hn as (_ & _ & Hn). by apply NoDup_app in Hn as (? & _). }
  assert (x <> 0 /\ is_Some (threads s !! x)) as [Hx0 [t Ht]] by (eapply chain_known; [exact Hsl|mem]).
  assert (x ∉ a) as Hxa by (apply NoDup_app in Hnd as (_ & Hd & _); intros H; apply (Hd x H); by left).
  unfold detach_from_sleepers.
  destruct (detach_loop_spec (S (size (threads s))) s x [] (a ++ x :: b) Hsl ltac:(lia)) as [_ H].
  change (@None Z) with (last (@nil Z)). rewrite (H a b eq_refl Hxa), Ht. cbn [mbind option_bind app].
  pose proof (chain_skip _ _ _ _ _ t Hsl Hnd Ht) as Hskip.
  assert (NoDup (rq ++ (a ++ b) ++ concat ws ++ x :: free)) as Hn'.
  { eapply NoDup_Permutation_proper; [|exact Hn]. solve_Permutation. }
  assert (Forall (fun x => x <> 0 /\ is_Some (threads s !! x)) (x :: free)) as Hf' by (constructor; [by eauto|done]).
  apply Forall_app in Hs as [Hs1 Hs2]. apply Forall_cons in Hs2 as [_ Hs2].
  unfold write_link. destruct (last a) as [z|] eqn:El.
  - destruct Hskip as (u & Hu & Hskip). rewrite (update_some s z u) by done.
    eexists. split; [reflexivity|]. assert (z ∈ a) as Hza by (by apply last_Some_elem_of).
    set (s1 := set_threads _ s) in *.
    assert (bare s1 = bare s) as Eb.
    { unfold s1. rewrite (bare_insert s z _ u) by done. apply insert_id. by rewrite lookup_bare, Hu. }
    assert (forall st l, Forall (has_state st s) l -> Forall (has_state st s1) l) as Hst.
    { intros st l HF. eapply Forall_impl; [exact HF|]. intros y. unfold has_state. by rewrite Eb. }
    assert (z ∉ rq /\ z ∉ concat ws) as [Hzr Hzw].
    { apply NoDup_app in Hn as (_ & Hd & Hn). apply NoDup_app in Hn as (_ & Hd2 & _). split.
      - intros H1. apply (Hd z H1). mem.
      - intros H1. apply (Hd2 z); mem. }
    split_and!; [|unfold same_rest, s1; cbn; by rewrite dom_insert_lookup_L|done].
    constructor.
    + done.
    + by apply chain_other.
    + done.
    + done.
    + by apply wait_other.
    + by apply known_insert.
    + by apply Hst.
    + apply Hst. by apply Forall_app.
    + by apply Hst.
  - apply last_None in El as ->. eexists. split; [reflexivity|]. split_and!; [|done|done].
    constructor; try done.
Qed.

(** ** Switching *)

Lemma core_set_cpus x s rq sl ws free : core s rq sl ws free -> core (set_cpus x s) rq sl ws free.
Proof. intros [? ? ? ? ? ? ? ? ?]. by constructor. Qed.

Lemma has_state_bare st s x : has_state st s x <-> exists t, threads s !! x = Some t /\ state_ t = st.
Proof.
  unfold has_state. rewrite lookup_bare. destruct (threads s !! x) as [t|]; cbn; [|naive_solver].
  split; [intros [= <-]; by exists t|intros (t' & [= <-] & <-); done].
Qed.

(** What [switch_to] leaves: the queues as they were, [next] current and running. *)
Lemma switch_core root k sp next s rq sl ws free c :
  core s rq sl ws (next :: free) -> cpus s !! k = Some c -> is_Some (threads s !! current_thread c) ->
  exists s' c', switch_to root k sp next s = Some s' /\ core s' rq sl ws (next :: free) /\
    cpus s' = <[k := c']> (cpus s) /\ current_thread c' = next /\ idle_thread c' = idle_thread c /\
    running s' = running s /\ dom (threads s') = dom (threads s) /\
    has_state Running s' next /\ (forall y st, y <> next -> has_state st s y -> has_state st s' y) /\
    (current_thread c <> next -> exists n, threads s !! next = Some n /\ rsp c' = stack_pointer_ n /\
       cr3 c' = if space_root_ n =? 0 then root else space_root_ n).
Proof.
  intros Hc Hk [pt Hpt]. destruct (free_outside _ _ _ _ _ _ Hc) as (Hr & Hs & Hw & Hf & H0 & [t Ht]).
  set (c1 := mkCpu next (idle_thread c) (preempt_count c) (kernel_stack_top c) (cr3 c) (rsp c)).
  set (t1 := set_state Running (set_cpu (Z.of_nat k) t)).
  set (s1 := set_threads (<[next := t1]> (threads s)) (set_cpus (<[k := c1]> (cpus s)) s)).
  assert (set_current k next s = Some s1) as Eset.
  { unfold set_current. rewrite Hk. cbn [mbind option_bind].
    rewrite (update_some (set_cpus (<[k := c1]> (cpus s)) s) next t _ Ht). cbn [mbind option_bind].
    apply update_again. }
  assert (core s1 rq sl ws (next :: free)) as Hc1.
  { apply (core_insert_free (set_cpus _ s)); [done..|]. by apply core_set_cpus. }
  assert (dom (threads s1) = dom (threads s)) as Hd1 by (cbn; by rewrite dom_insert_lookup_L).
  assert (has_state Running s1 next) as Hr1.
  { apply has_state_bare. exists t1. split; [apply lookup_insert_eq|done]. }
  assert (forall y st, y <> next -> has_state st s y -> has_state st s1 y) as Ho1.
  { intros y st Hy Hst. apply has_state_bare in Hst as (u & Hu & <-). apply has_state_bare. exists u.
    split; [|done]. cbn. by rewrite lookup_insert_ne. }
  assert (cpus s1 !! k = Some c1) as Hk1.
  { apply list_lookup_insert_eq. by eapply lookup_lt_Some. }
  unfold switch_to. rewrite Hk. cbn [mbind option_bind].
  destruct (Z.eqb_spec (current_thread c) next) as [Eq|Ne].
  - exists s1, c1. split_and!; try done.
  - rewrite Eset. cbn [mbind option_bind].
    assert (threads s1 !! next = Some t1) as -> by apply lookup_insert_eq.
    cbn [mbind option_bind]. rewrite Hk1. cbn [mbind option_bind].
    set (c2 := mkCpu _ _ _ _ _ _). set (s2 := set_cpus (<[k := c2]> (cpus s1)) s1).
    unfold context_switch. assert (threads s2 !! current_thread c = Some pt) as Hp2.
    { cbn. by rewrite lookup_insert_ne. }
    rewrite (update_some s2 _ pt _ Hp2). cbn [mbind option_bind]. cbn [set_threads threads cpus].
    assert (<[current_thread c := set_stack_pointer sp pt]> (threads s2) !! next = Some t1) as ->.
    { rewrite lookup_insert_ne by done. apply lookup_insert_eq. }
    cbn [mbind option_bind].
    assert (cpus s2 !! k = Some c2) as ->.
    { cbn. rewrite list_insert_insert_eq. apply list_lookup_insert_eq. by eapply lookup_lt_Some. }
    cbn [mbind option_bind]. eexists _, _. split; [reflexivity|].
    set (s3 := set_threads (<[current_thread c := set_stack_pointer sp pt]> (threads s2)) s2).
    assert (core s3 rq sl ws (next :: free)) as Hc3.
    { apply (core_insert_same s2 _ _ _ _ _ _ pt Hp2); [done..|]. by apply core_set_cpus. }
    split_and!; cbn [current_thread idle_thread rsp cr3].
    + by apply core_set_cpus.
    + cbn. by rewrite !list_insert_insert_eq.
    + done.
    + done.
    + done.
    + cbn. rewrite dom_insert_lookup_L; [exact Hd1|]. exact (mk_is_Some _ _ Hp2).
    + apply has_state_bare. exists t1. split; [|done]. cbn. rewrite lookup_insert_ne by done. apply lookup_insert_eq.
    + intros y st Hy Hst. specialize (Ho1 y st Hy Hst). apply has_state_bare in Ho1 as (u & Hu & <-).
      apply has_state_bare. cbn. destruct (decide (current_thread c = y)) as [<-|Hne].
      * exists (set_stack_pointer sp pt). rewrite lookup_insert_eq. split; [done|].
        cbn in Hu, Hp2. assert (u = pt) as -> by congruence. done.
      * exists u. by rewrite lookup_insert_ne.
    + intros _. exists t. split_and!; [done|done|]. cbn. destruct (space_root_ t =? 0); cbn [negb];
        destruct (Z.eqb_spec root (cr3 c)); try done; destruct (Z.eqb_spec (space_root_ t) (cr3 c)); done.
Qed.

(** ** The invariant *)

(** The queues, and the CPUs: every CPU runs a thread of its own that is in no queue,
    and falls back on an idle thread that nobody else runs and that is never queued. *)
Record inv (s : sched) (rq sl : list Z) (ws : list (list Z)) : Prop := {
  i_core : core s rq sl ws (current_thread <$> cpus s);
  i_running : Forall (has_state Running s) (current_thread <$> cpus s);
  i_idle : forall k c, cpus s !! k = Some c ->
    idle_thread c ∉ rq ++ sl ++ concat ws /\ idle_thread c <> 0 /\ is_Some (threads s !! idle_thread c);
  i_own : forall j k c d, cpus s !! j = Some c -> cpus s !! k = Some d ->
    idle_thread c = current_thread d \/ idle_thread c = idle_thread d -> j = k
}.

(** The same with CPU [k] between threads: the one it left has been put elsewhere. *)
Record between (k : nat) (s : sched) (rq sl : list Z) (ws : list (list Z)) (c : PerCpu) : Prop := {
  b_cpu : cpus s !! k = Some c;
  b_known : is_Some (threads s !! current_thread c);
  b_core : core s rq sl ws (delete k (current_thread <$> cpus s));
  b_running : Forall (has_state Running s) (delete k (current_thread <$> cpus s));
  b_idle : forall k c, cpus s !! k = Some c ->
    idle_thread c ∉ rq ++ sl ++ concat ws /\ idle_thread c <> 0 /\ is_Some (threads s !! idle_thread c);
  b_own : forall j k c d, cpus s !! j = Some c -> cpus s !! k = Some d ->
    idle_thread c = current_thread d \/ idle_thread c = idle_thread d -> j = k
}.

Lemma dom_known (s s' : sched) x : dom (threads s') = dom (threads s) ->
  is_Some (threads s !! x) -> is_Some (threads s' !! x).
Proof. intros E. rewrite <- !elem_of_dom, E. done. Qed.

Lemma core_add_free s rq sl ws free x :
  core s rq sl ws free -> x ∉ rq ++ sl ++ concat ws -> x ∉ free -> x <> 0 -> is_Some (threads s !! x) ->
  core s rq sl ws (x :: free).
Proof.
  intros [Hn ? ? ? ? Hf ? ? ?] Hq Hx H0 Hk. constructor; try done; [|by constructor].
  assert (rq ++ sl ++ concat ws ++ x :: free ≡ₚ x :: rq ++ sl ++ concat ws ++ free) as Hp by solve_Permutation.
  rewrite Hp. constructor; [|done]. mem_in Hq. mem.
Qed.

Lemma core_drop_free s rq sl ws x free : core s rq sl ws (x :: free) -> core s rq sl ws free.
Proof.
  intros [Hn ? ? ? ? Hf ? ? ?]. apply Forall_cons in Hf as [_ Hf]. constructor; try done.
  assert (rq ++ sl ++ concat ws ++ x :: free ≡ₚ x :: rq ++ sl ++ concat ws ++ free) as Hp by solve_Permutation.
  rewrite Hp in Hn. by apply NoDup_cons in Hn as [_ ?].
Qed.

Lemma delete_insert_same {A} (l : list A) k x : delete k (<[k := x]> l) = delete k l.
Proof. revert k. induction l as [|y l IH]; intros [|k]; cbn; [done..|]. f_equal. apply IH. Qed.

Lemma current_perm s k c : cpus s !! k = Some c ->
  current_thread <$> cpus s ≡ₚ current_thread c :: delete k (current_thread <$> cpus s).
Proof. intros H. apply delete_Permutation. by rewrite list_lookup_fmap, H. Qed.

Lemma depart s rq sl ws k c : inv s rq sl ws -> cpus s !! k = Some c ->
  core s rq sl ws (current_thread c :: delete k (current_thread <$> cpus s)) /\
  Forall (has_state Running s) (delete k (current_thread <$> cpus s)).
Proof.
  intros Hi Hk. pose proof (current_perm s k c Hk) as Hp. split.
  - eapply core_permute; [exact Hp|apply (i_core _ _ _ _ Hi)].
  - pose proof (i_running _ _ _ _ Hi) as Hr. rewrite Hp in Hr. by apply Forall_cons in Hr as [_ ?].
Qed.

(** The CPU part of the invariant survives a change of the queues in which only
    threads that were queued, or the one leaving its CPU, are queued afterwards. *)
Lemma idle_kept s s' rq sl ws rq' sl' ws' x :
  cpus s' = cpus s -> dom (threads s') = dom (threads s) ->
  (forall y, y ∈ rq' ++ sl' ++ concat ws' -> y ∈ rq ++ sl ++ concat ws \/ Some y = x) ->
  (forall k c, cpus s !! k = Some c -> Some (idle_thread c) <> x) ->
  (forall k c, cpus s !! k = Some c ->
    idle_thread c ∉ rq ++ sl ++ concat ws /\ idle_thread c <> 0 /\ is_Some (threads s !! idle_thread c)) ->
  forall k c, cpus s' !! k = Some c ->
    idle_thread c ∉ rq' ++ sl' ++ concat ws' /\ idle_thread c <> 0 /\ is_Some (threads s' !! idle_thread c).
Proof.
  intros Ec Ed Hq Hx Hi k c Hk. rewrite Ec in Hk. destruct (Hi k c Hk) as (H1 & H2 & H3).
  split_and!; [|done|by eapply dom_known]. intros Hin. destruct (Hq _ Hin) as [?|?]; [done|].
  by apply (Hx k c Hk).
Qed.

(** Queue operations on threads no CPU runs. *)
Lemma inv_queues s s' rq sl ws rq' sl' ws' :
  inv s rq sl ws -> same_rest s s' -> core s' rq' sl' ws' (current_thread <$> cpus s) ->
  (forall y, y ∈ rq' ++ sl' ++ concat ws' -> y ∈ rq ++ sl ++ concat ws) ->
  (forall y, y ∉ rq ++ sl ++ concat ws -> has_state Running s y -> has_state Running s' y) ->
  inv s' rq' sl' ws'.
Proof.
  intros Hi (Ec & _ & _ & _ & _ & Ed) Hc Hq Hr. constructor; rewrite ?Ec.
  - done.
  - pose proof (i_running _ _ _ _ Hi) as H. rewrite list.Forall_forall in H |- *. intros y Hy.
    apply Hr; [|by apply H]. pose proof (c_nodup _ _ _ _ _ (i_core _ _ _ _ Hi)) as Hn.
    rewrite (app_assoc sl), (app_assoc rq) in Hn. apply NoDup_app in Hn as (_ & Hd & _).
    intros Hin. by apply (Hd y).
  - rewrite <- Ec. eapply (idle_kept s s' rq sl ws _ _ _ None); [done|done| |done|by destruct Hi].
    intros y Hy. left. by apply Hq.
  - by destruct Hi.
Qed.

(** The running thread put into a queue. *)
Lemma between_intro k s s' rq sl ws rq' sl' ws' c :
  inv s rq sl ws -> cpus s !! k = Some c -> current_thread c <> idle_thread c ->
  same_rest s s' -> core s' rq' sl' ws' (delete k (current_thread <$> cpus s)) ->
  (forall y, y ∈ rq' ++ sl' ++ concat ws' -> y ∈ rq ++ sl ++ concat ws \/ y = current_thread c) ->
  (forall y, y <> current_thread c -> has_state Running s y -> has_state Running s' y) ->
  between k s' rq' sl' ws' c.
Proof.
  intros Hi Hk Hne (Ec & _ & _ & _ & _ & Ed) Hc Hq Hr. destruct (depart _ _ _ _ _ _ Hi Hk) as [Hd Hrun].
  destruct (free_outside _ _ _ _ _ _ Hd) as (_ & _ & _ & Hnf & _ & Hknown).
  constructor; rewrite ?Ec.
  - done.
  - by eapply dom_known.
  - done.
  - rewrite list.Forall_forall in Hrun |- *. intros y Hy. apply Hr; [by intros ->|by apply Hrun].
  - rewrite <- Ec. eapply (idle_kept s s' rq sl ws _ _ _ (Some (current_thread c))); [done|done| | |by destruct Hi].
    + intros y Hy. destruct (Hq y Hy) as [?| ->]; [by left|by right].
    + intros j d Hj [= E]. assert (j = k) as -> by (eapply (i_own _ _ _ _ Hi); [exact Hj|exact Hk|by left]).
      assert (d = c) as -> by congruence. congruence.
  - by destruct Hi.
Qed.

(** Switching to a thread in no queue restores the invariant. *)
Lemma switch_inv root k sp next s rq sl ws c :
  between k s rq sl ws c -> core s rq sl ws (next :: delete k (current_thread <$> cpus s)) ->
  (forall j d, cpus s !! j = Some d -> idle_thread d = next -> j = k) ->
  exists s' c', switch_to root k sp next s = Some s' /\ inv s' rq sl ws /\
    cpus s' = <[k := c']> (cpus s) /\ current_thread c' = next /\ idle_thread c' = idle_thread c /\
    running s' = running s.
Proof.
  intros Hb Hc Hidle. pose proof (b_cpu _ _ _ _ _ _ Hb) as Hk.
  destruct (switch_core root k sp next s rq sl ws _ c Hc Hk (b_known _ _ _ _ _ _ Hb))
    as (s' & c' & E & Hc' & Ec & Ecur & Eidle & Erun & Ed & Hr1 & Hr2 & _).
  destruct (free_outside _ _ _ _ _ _ Hc) as (_ & _ & _ & Hnf & _ & _).
  exists s', c'. split_and!; try done.
  assert (current_thread <$> cpus s' ≡ₚ next :: delete k (current_thread <$> cpus s)) as Hp.
  { rewrite Ec, list_fmap_insert, Ecur. rewrite (delete_Permutation (<[k := next]> (current_thread <$> cpus s)) k next).
    - by rewrite delete_insert_same.
    - apply list_lookup_insert_eq. rewrite length_fmap. by eapply lookup_lt_Some. }
  constructor.
  - eapply core_permute; [symmetry; exact Hp|done].
  - rewrite Hp. constructor; [done|]. pose proof (b_running _ _ _ _ _ _ Hb) as H.
    rewrite list.Forall_forall in H |- *. intros y Hy. apply Hr2; [by intros ->|by apply H].
  - intros j d Hj. rewrite Ec in Hj. apply list_lookup_insert_Some in Hj as [(-> & <- & _)|[Hne Hj]].
    + rewrite Eidle. destruct (b_idle _ _ _ _ _ _ Hb _ _ Hk) as (? & ? & ?). split_and!; [done|done|by eapply dom_known].
    + destruct (b_idle _ _ _ _ _ _ Hb _ _ Hj) as (? & ? & ?). split_and!; [done|done|by eapply dom_known].
  - intros i j d e Hi Hj H. rewrite Ec in Hi, Hj. pose proof (b_own _ _ _ _ _ _ Hb) as Hown.
    apply list_lookup_insert_Some in Hi as [(-> & -> & _)|[Hni Hi]];
    apply list_lookup_insert_Some in Hj as [(-> & -> & _)|[Hnj Hj]]; try done.
    + rewrite Eidle in H. by apply (Hown i j c e).
    + rewrite Ecur, Eidle in H. destruct H as [H|H]; [by eapply Hidle|]. apply (Hown i j d c); by auto.
    + by apply (Hown i j d e).
Qed.

(** Leaving the CPU: the head of the run queue is next, or the idle thread. *)
Lemma leave_inv root k sp s rq sl ws c :
  between k s rq sl ws c ->
  exists s' c', leave root k sp s = Some s' /\ inv s' (tail rq) sl ws /\
    cpus s' = <[k := c']> (cpus s) /\ current_thread c' = default (idle_thread c) (head rq) /\
    idle_thread c' = idle_thread c /\ running s' = running s.
Proof.
  intros Hb. pose proof (b_cpu _ _ _ _ _ _ Hb) as Hk. pose proof (b_core _ _ _ _ _ _ Hb) as Hc.
  unfold leave. destruct rq as [|x rq].
  - rewrite (dequeue_empty _ _ _ _ Hc). cbn [mbind option_bind Z.eqb]. unfold idle_thread_of. rewrite Hk.
    cbn [fmap option_fmap option_map mbind option_bind tail head from_option].
    apply (switch_inv root k sp (idle_thread c) s [] sl ws c Hb).
    + destruct (b_idle _ _ _ _ _ _ Hb _ _ Hk) as (H1 & H2 & H3). apply core_add_free; [done|done| |done|done].
      intros Hin. apply list_elem_of_lookup in Hin as [j Hj].
      assert (exists j', j' <> k /\ (current_thread <$> cpus s) !! j' = Some (idle_thread c)) as (j' & Hj' & Hl).
      { destruct (decide (j < k)%nat).
        - exists j. rewrite list_lookup_delete_lt in Hj by lia. split; [lia|done].
        - exists (S j). rewrite list_lookup_delete_ge in Hj by lia. split; [lia|done]. }
      rewrite list_lookup_fmap in Hl. destruct (cpus s !! j') as [d|] eqn:Ed; [|done]. cbn in Hl.
      injection Hl as Hl. apply Hj'. symmetry. eapply (b_own _ _ _ _ _ _ Hb); [exact Hk|exact Ed|]. by left.
    + intros j d Hj E. eapply (b_own _ _ _ _ _ _ Hb); [exact Hj|exact Hk|]. by right.
  - destruct (dequeue_core s x rq sl ws _ Hc) as (s1 & -> & Hc1 & Hsame & Eb).
    cbn [mbind option_bind]. destruct (free_outside _ _ _ _ _ _ Hc1) as (_ & _ & _ & _ & Hx0 & _).
    rewrite (proj2 (Z.eqb_neq x 0)) by done. cbn [mbind option_bind tail head from_option].
    destruct Hsame as (Ec & Er & _ & _ & _ & Ed). rewrite <- Ec in Hc1.
    assert (between k s1 rq sl ws c) as Hb1.
    { constructor.
      - by rewrite Ec.
      - eapply dom_known; [done|apply (b_known _ _ _ _ _ _ Hb)].
      - by eapply core_drop_free.
      - rewrite Ec. eapply Forall_impl; [apply (b_running _ _ _ _ _ _ Hb)|]. intros y. unfold has_state. by rewrite Eb.
      - eapply (idle_kept s s1 (x :: rq) sl ws _ _ _ None); [done|done| |done|by destruct Hb].
        intros y Hy. left. cbn [app]. by right.
      - rewrite Ec. by destruct Hb. }
    destruct (switch_inv root k sp x s1 rq sl ws c Hb1 Hc1) as (s' & c' & E & Hi & Ec' & Ecur & Eid & Er').
    + intros j d Hj E. exfalso. rewrite Ec in Hj. destruct (b_idle _ _ _ _ _ _ Hb _ _ Hj) as (H1 & _).
      apply H1. rewrite E. cbn [app]. by left.
    + exists s', c'. rewrite Ec in Ec'. split_and!; try done. congruence.
Qed.

(** ** Each operation keeps the invariant *)

Lemma alter_state_running s s' x st y : bare s' = alter (set_state st) x (bare s) -> y <> x ->
  has_state Running s y -> has_state Running s' y.
Proof. intros E Hy. unfold has_state. rewrite E, lookup_alter_ne by done. done. Qed.

Lemma sleep_inv root k now ns sp s rq sl ws c :
  inv s rq sl ws -> cpus s !! k = Some c -> current_thread c <> idle_thread c -> running s = true ->
  exists s' c', thread_sleep_ns root k now ns sp s = Some s' /\
    inv s' (tail rq) (current_thread c :: sl) ws /\ cpus s' = <[k := c']> (cpus s) /\
    current_thread c' = default (idle_thread c) (head rq).
Proof.
  intros Hi Hk Hne Hrun. destruct (depart _ _ _ _ _ _ Hi Hk) as [Hd _].
  unfold thread_sleep_ns, current. rewrite Hrun, Hk. cbn [negb fmap option_fmap option_map mbind option_bind].
  destruct (park_core s rq sl ws _ (u64 (now + ns)) _ Hd) as (s1 & -> & Hc1 & Hsame & Hb). cbn [mbind option_bind].
  assert (between k s1 rq (current_thread c :: sl) ws c) as Hbt.
  { eapply (between_intro k s s1 rq sl ws); try done.
    - intros y Hy. mem_in Hy. mem.
    - intros y Hy. unfold has_state. rewrite Hb, lookup_alter_ne by done. done. }
  destruct (leave_inv root k sp s1 _ _ _ c Hbt) as (s' & c' & E & Hi' & Ec & Ecur & _ & _).
  exists s', c'. destruct Hsame as (Ecs & _). rewrite Ecs in Ec. done.
Qed.

Lemma wait_inv root k q l sp s rq sl ws c :
  inv s rq sl ws -> cpus s !! k = Some c -> current_thread c <> idle_thread c -> ws !! q = Some l ->
  exists s' c', wait root k q sp s = Some s' /\
    inv s' (tail rq) sl (<[q := current_thread c :: l]> ws) /\ cpus s' = <[k := c']> (cpus s) /\
    current_thread c' = default (idle_thread c) (head rq).
Proof.
  intros Hi Hk Hne Hq. destruct (depart _ _ _ _ _ _ Hi Hk) as [Hd _].
  unfold wait, current. rewrite Hk. cbn [fmap option_fmap option_map mbind option_bind].
  destruct (block_on_core s rq sl ws q _ l _ Hq Hd) as (s1 & -> & Hc1 & Hsame & Hb). cbn [mbind option_bind].
  assert (between k s1 rq sl (<[q := current_thread c :: l]> ws) c) as Hbt.
  { eapply (between_intro k s s1 rq sl ws); try done.
    - intros y Hy. destruct (concat_insert ws q l (current_thread c :: l) Hq) as (a & b & E1 & E2).
      rewrite E2 in Hy. rewrite E1. mem_in Hy. mem.
    - intros y Hy. by eapply alter_state_running. }
  destruct (leave_inv root k sp s1 _ _ _ c Hbt) as (s' & c' & E & Hi' & Ec & Ecur & _ & _).
  exists s', c'. destruct Hsame as (Ecs & _). rewrite Ecs in Ec. done.
Qed.

Lemma exit_inv root k sp s rq sl ws c :
  inv s rq sl ws -> cpus s !! k = Some c -> current_thread c <> idle_thread c ->
  exists s' c', thread_exit root k sp s = Some s' /\ inv s' (tail rq) sl ws /\
    cpus s' = <[k := c']> (cpus s) /\ current_thread c' = default (idle_thread c) (head rq).
Proof.
  intros Hi Hk Hne. destruct (depart _ _ _ _ _ _ Hi Hk) as [Hd Hrun].
  destruct (free_outside _ _ _ _ _ _ Hd) as (_ & _ & _ & Hnf & _ & [t Ht]).
  unfold thread_exit, current, mark_dead. rewrite Hk. cbn [fmap option_fmap option_map mbind option_bind].
  rewrite (update_some s _ t) by done. cbn [mbind option_bind].
  destruct (relink_core s rq sl ws _ _ t (set_state Dead t) Hd Ht) as (Hc1 & Hsame & _).
  apply core_drop_free in Hc1. set (s0 := set_threads _ s) in *.
  match goal with |- context [leave root k sp ?x] => set (s1 := x) end.
  assert (core s1 rq sl ws (delete k (current_thread <$> cpus s))) as Hc2 by (by destruct Hc1; constructor).
  assert (between k s1 rq sl ws c) as Hbt.
  { constructor.
    - done.
    - eapply (dom_known s s1); [|by eauto]. cbn. by rewrite dom_insert_lookup_L.
    - done.
    - rewrite list.Forall_forall in Hrun |- *. intros y Hy. apply (has_state_insert Running s). right.
      split; [by intros ->|by apply Hrun].
    - intros j d Hj. destruct (i_idle _ _ _ _ Hi j d Hj) as (? & ? & ?). split_and!; [done|done|].
      eapply (dom_known s s1); [|done]. cbn. by rewrite dom_insert_lookup_L.
    - apply (i_own _ _ _ _ Hi). }
  destruct (leave_inv root k sp s1 _ _ _ c Hbt) as (s' & c' & E & Hi' & Ec & Ecur & _ & _).
  exists s', c'. done.
Qed.

(** The queues [yield] leaves: the sleepers whose time has come join the run queue,
    its head becomes current and the caller, unless idle, goes to the back. *)
Lemma yield_inv root k now sp s rq sl ws c :
  inv s rq sl ws -> cpus s !! k = Some c -> running s = true ->
  let rq1 := rq ++ List.filter (expired (bare s) now) sl in
  let sl1 := reverse (List.filter (fun x => negb (expired (bare s) now x)) sl) in
  exists s' c', yield root k now sp s = Some s' /\ cpus s' = <[k := c']> (cpus s) /\
    match rq1 with
    | [] => inv s' [] sl1 ws /\ c' = c
    | x :: rest =>
      inv s' (rest ++ if decide (current_thread c = idle_thread c) then [] else [current_thread c]) sl1 ws /\
      current_thread c' = x /\ idle_thread c' = idle_thread c
    end.
Proof.
  intros Hi Hk Hrun rq1 sl1. unfold yield, current, idle_thread_of. rewrite Hrun. cbn [negb].
  destruct (wake_expired_core now s rq sl ws _ (i_core _ _ _ _ Hi)) as (s1 & -> & Hc1 & Hsame1 & Hb1).
  fold rq1 sl1 in Hc1. cbn [mbind option_bind].
  assert (inv s1 rq1 sl1 ws) as Hi1.
  { eapply inv_queues; [exact Hi|done|done| |].
    - intros y Hy. unfold rq1, sl1 in Hy. mem_in Hy. rewrite elem_of_reverse, !list_elem_of_In, !filter_In in Hy.
      rewrite <- !list_elem_of_In in Hy. mem.
    - intros y Hy. unfold has_state. rewrite Hb1; [done|]. intros Hin.
      apply list_elem_of_In, filter_In in Hin as [Hin _]. apply list_elem_of_In in Hin. apply Hy. mem. }
  assert (cpus s1 !! k = Some c) as Hk1 by (destruct Hsame1 as (-> & _); done).
  assert (cpus s1 = cpus s) as Ec1 by (by destruct Hsame1 as (-> & _)).
  clearbody rq1 sl1. destruct rq1 as [|x rest].
  - rewrite (dequeue_empty _ _ _ _ Hc1). cbn [mbind option_bind]. rewrite Hk1.
    cbn [fmap option_fmap option_map mbind option_bind Z.eqb]. exists s1, c.
    split_and!; [done| |done|done]. rewrite Ec1. symmetry. by apply list_insert_id.
  - destruct (dequeue_core s1 x rest sl1 ws _ Hc1) as (s2 & -> & Hc2 & Hsame2 & Hb2). cbn [mbind option_bind].
    assert (cpus s2 = cpus s1) as Ec2 by (by destruct Hsame2 as (-> & _)).
    rewrite Ec2, Hk1. cbn [fmap option_fmap option_map mbind option_bind].
    destruct (free_outside _ _ _ _ _ _ Hc2) as (_ & _ & _ & Hxcur & Hx0 & _).
    rewrite (proj2 (Z.eqb_neq x 0)) by done.
    assert (Hself : core s2 rest sl1 ws (current_thread c :: x :: delete k (current_thread <$> cpus s1))).
    { rewrite <- Ec1 in Hc2. eapply core_permute; [|exact Hc2]. rewrite (current_perm s1 k c Hk1) at 1. apply Permutation_swap. }
    destruct (free_outside _ _ _ _ _ _ Hself) as (Hcr & Hcs & Hcw & Hcf & Hc0 & Hck).
    rewrite (proj2 (Z.eqb_neq (current_thread c) 0)) by done. cbn [negb andb].
    assert (forall j d, cpus s1 !! j = Some d -> idle_thread d <> x) as Hidx.
    { intros j d Hj E. destruct (i_idle _ _ _ _ Hi1 _ _ Hj) as (H1 & _). apply H1. rewrite E. cbn [app]. by left. }
    set (tl := if decide (current_thread c = idle_thread c) then [] else [current_thread c]).
    assert (exists s3, (if negb (current_thread c =? idle_thread c) then enqueue (current_thread c) s2 else Some s2) = Some s3 /\
      core s3 (rest ++ tl) sl1 ws (x :: delete k (current_thread <$> cpus s1)) /\ same_rest s1 s3 /\
      (forall y, y <> current_thread c -> has_state Running s1 y -> has_state Running s3 y)) as (s3 & -> & Hc3 & Hsame3 & Hr3).
    { unfold tl. destruct (Z.eqb_spec (current_thread c) (idle_thread c)) as [E|E]; cbn [negb].
      - rewrite decide_True by done. exists s2. rewrite app_nil_r.
        split_and!; [done|by eapply core_drop_free|done|]. intros y _. unfold has_state. by rewrite Hb2.
      - rewrite decide_False by done.
        destruct (enqueue_core s2 rest sl1 ws _ _ Hself) as (s3 & E3 & Hc3 & Hs3 & Hb3 & _).
        exists s3. split_and!; [done|done|by eapply same_rest_trans|].
        intros y Hy Hst. eapply alter_state_running; [exact Hb3|done|]. unfold has_state. by rewrite Hb2. }
    cbn [mbind option_bind]. assert (cpus s3 = cpus s1) as Ec3 by (by destruct Hsame3 as (-> & _)).
    rewrite <- Ec3 in Hc3.
    assert (between k s3 (rest ++ tl) sl1 ws c) as Hbt.
    { destruct (depart _ _ _ _ _ _ Hi1 Hk1) as [Hd Hrn].
      destruct (free_outside _ _ _ _ _ _ Hd) as (_ & _ & _ & Hnf & _ & Hkn).
      destruct Hsame3 as (_ & _ & _ & _ & _ & Edom). constructor.
      - by rewrite Ec3.
      - by eapply dom_known.
      - by eapply core_drop_free.
      - rewrite Ec3. rewrite list.Forall_forall in Hrn |- *. intros y Hy. apply Hr3; [by intros ->|by apply Hrn].
      - destruct (decide (current_thread c = idle_thread c)) as [E|E].
        + eapply (idle_kept s1 s3 (x :: rest) sl1 ws _ _ _ None); [done|done| |done|by destruct Hi1].
          intros y Hy. left. unfold tl in Hy. mem_in Hy. cbn [app]. mem.
        + eapply (idle_kept s1 s3 (x :: rest) sl1 ws _ _ _ (Some (current_thread c))); [done|done| | |by destruct Hi1].
          * intros y Hy. unfold tl in Hy. mem_in Hy. cbn [app].
            destruct Hy as [[Hy|[->|[]]]|Hy]; [left; mem|by right|left; mem].
          * intros j d Hj [= E']. assert (j = k) as -> by (eapply (i_own _ _ _ _ Hi1); [exact Hj|exact Hk1|by left]).
            assert (d = c) as -> by congruence. congruence.
      - rewrite Ec3. by destruct Hi1. }
    destruct (switch_inv root k sp x s3 (rest ++ tl) sl1 ws c Hbt Hc3) as (s' & c' & E & Hi' & Ec' & Ecur & Eid & _).
    { intros j d Hj E. rewrite Ec3 in Hj. by destruct (Hidx j d Hj). }
    exists s', c'. rewrite Ec', Ec3, Ec1. done.
Qed.

(** Moving the head of a wait queue to the run queue. *)
Lemma wake_head_inv q x l s rq sl ws :
  inv s rq sl ws -> ws !! q = Some (x :: l) ->
  exists s1 s2, take_from q s = Some (x, s1) /\ enqueue x s1 = Some s2 /\ x <> 0 /\
    inv s2 (rq ++ [x]) sl (<[q := l]> ws) /\ same_rest s s2.
Proof.
  intros Hi Hq. destruct (take_from_core s rq sl ws q x l _ Hq (i_core _ _ _ _ Hi)) as (s1 & E1 & Hc1 & Hsame1 & Hb1).
  destruct (enqueue_core s1 rq sl _ x _ Hc1) as (s2 & E2 & Hc2 & Hsame2 & Hb2 & _).
  destruct (free_outside _ _ _ _ _ _ Hc1) as (_ & _ & _ & _ & Hx0 & _).
  exists s1, s2. assert (same_rest s s2) by (by eapply same_rest_trans). split_and!; try done.
  assert (x ∈ concat ws) as Hx by (eapply elem_concat; [exact Hq|by left]).
  destruct (concat_insert ws q (x :: l) l Hq) as (a & b & Ea & Eb).
  eapply inv_queues; [exact Hi|done|done| |].
  - intros y Hy. rewrite Eb in Hy. mem_in Hy. mem_in Hx. rewrite Ea. cbn [app]. 
    destruct Hy as [[Hy|[->|[]]]|[Hy|[Hy|[Hy|Hy]]]]; mem.
  - intros y Hy Hst. assert (y <> x) as Hne by (intros ->; apply Hy; mem).
    eapply alter_state_running; [exact Hb2|done|]. unfold has_state. by rewrite Hb1.
Qed.

Lemma wake_one_inv q l s rq sl ws :
  inv s rq sl ws -> ws !! q = Some l ->
  exists s', wake_one q s = Some s' /\ inv s' (rq ++ take 1 l) sl (<[q := tail l]> ws).
Proof.
  intros Hi Hq. unfold wake_one. destruct l as [|x l].
  - rewrite (take_from_empty _ _ _ _ _ _ Hq (i_core _ _ _ _ Hi)). exists s. split; [done|].
    cbn [take tail]. rewrite app_nil_r, list_insert_id by done. done.
  - destruct (wake_head_inv q x l s rq sl ws Hi Hq) as (s1 & s2 & E1 & E2 & Hx & Hi2 & _).
    rewrite E1. cbn [mbind option_bind]. rewrite (proj2 (Z.eqb_neq x 0)) by done. cbn [negb].
    exists s2. done.
Qed.

Lemma wake_all_loop_inv fuel q l s rq sl ws :
  inv s rq sl ws -> ws !! q = Some l -> (length l < fuel)%nat ->
  exists s', wake_all_loop fuel q s = Some s' /\ inv s' (rq ++ l) sl (<[q := []]> ws).
Proof.
  revert l s rq ws. induction fuel as [|fuel IH]; intros l s rq ws Hi Hq Hf; [lia|].
  cbn [wake_all_loop]. destruct l as [|x l].
  - rewrite (take_from_empty _ _ _ _ _ _ Hq (i_core _ _ _ _ Hi)). exists s. split; [done|].
    rewrite app_nil_r, list_insert_id by done. done.
  - destruct (wake_head_inv q x l s rq sl ws Hi Hq) as (s1 & s2 & E1 & E2 & Hx & Hi2 & _).
    rewrite E1. cbn [mbind option_bind]. rewrite (proj2 (Z.eqb_neq x 0)), E2 by done. cbn [negb mbind option_bind].
    cbn [length] in Hf. destruct (IH l s2 (rq ++ [x]) (<[q := l]> ws) Hi2) as (s' & E' & Hi').
    + apply list_lookup_insert_eq. by eapply lookup_lt_Some.
    + lia.
    + exists s'. rewrite <- app_assoc, list_insert_insert_eq in Hi'. done.
Qed.

Lemma wake_all_inv q l s rq sl ws :
  inv s rq sl ws -> ws !! q = Some l ->
  exists s', wake_all q s = Some s' /\ inv s' (rq ++ l) sl (<[q := []]> ws).
Proof.
  intros Hi Hq. apply wake_all_loop_inv; [done|done|].
  pose proof (i_core _ _ _ _ Hi) as Hc.
  destruct (Forall2_lookup_r _ _ _ _ _ (c_wait _ _ _ _ _ Hc) Hq) as (h & _ & Hch).
  enough (length l <= size (threads s))%nat by lia. apply known_length; [|intros x Hx; by eapply chain_known].
  destruct (concat_insert ws q l l Hq) as (a & b & E & _). pose proof (c_nodup _ _ _ _ _ Hc) as Hn. rewrite E in Hn.
  apply NoDup_app in Hn as (_ & _ & Hn). apply NoDup_app in Hn as (_ & _ & Hn).
  apply NoDup_app in Hn as (Hn & _). apply NoDup_app in Hn as (_ & _ & Hn). by apply NoDup_app in Hn as (? & _).
Qed.

(** [Thread::wake] on a thread that is not blocked. *)
Lemma wake_inv x t s rq sl ws :
  inv s rq sl ws -> threads s !! x = Some t -> state_ t <> Blocked -> (state_ t = Sleeping -> x ∈ sl) ->
  exists s' rq' sl', wake x s = Some s' /\ inv s' rq' sl' ws.
Proof.
  intros Hi Ht Hnb Hsl. unfold wake. rewrite Ht. cbn [mbind option_bind].
  rewrite bool_decide_eq_false_2 by done. cbn [orb]. case_bool_decide as Hst; [|by exists s, rq, sl].
  apply Hsl in Hst as Hin. apply list_elem_of_split in Hin as (a & b & ->).
  destruct (detach_core s rq a x b ws _ (i_core _ _ _ _ Hi)) as (s1 & -> & Hc1 & Hsame1 & Hb1). cbn [mbind option_bind].
  destruct (enqueue_core s1 rq (a ++ b) ws x _ Hc1) as (s2 & -> & Hc2 & Hsame2 & Hb2 & _).
  exists s2, (rq ++ [x]), (a ++ b). split; [done|].
  eapply inv_queues; [exact Hi|by eapply same_rest_trans|done| |].
  - intros y Hy. mem_in Hy. mem.
  - intros y Hy Hr. assert (y <> x) as Hne by (intros ->; apply Hy; mem).
    eapply alter_state_running; [exact Hb2|done|]. unfold has_state. by rewrite Hb1.
Qed.

(** [spawn] with memory at hand queues one new thread; without, it changes nothing. *)
Lemma fresh_outside s rq sl ws x : inv s rq sl ws -> threads s !! x = None ->
  x ∉ rq /\ x ∉ sl /\ x ∉ concat ws /\ x ∉ (current_thread <$> cpus s).
Proof.
  intros Hi Hx. pose proof (i_core _ _ _ _ Hi) as [_ Hrun _ Hsl Hws Hf _ _ _].
  assert (forall y, is_Some (threads s !! y) -> y <> x) as Hne by (intros y [t Ht] ->; congruence).
  split_and!; intros Hin.
  - apply (Hne x); [|done]. apply (chain_known _ _ _ _ Hrun Hin).
  - apply (Hne x); [|done]. apply (chain_known _ _ _ _ Hsl Hin).
  - clear -Hws Hne Hin. induction Hws as [|h w hs ws Hc H IH]; cbn in Hin; [by apply elem_of_nil in Hin|].
    apply elem_of_app in Hin as [Hin|Hin]; [|by apply IH]. apply (Hne x); [|done]. apply (chain_known _ _ _ _ Hc Hin).
  - rewrite list.Forall_forall in Hf. apply (Hne x); [|done]. by apply Hf.
Qed.

Lemma spawn_inv a tramp name entry arg s rq sl ws :
  inv s rq sl ws -> threads s !! record_at a = None ->
  exists p calls s', spawn a tramp name entry arg s = Some (p, calls, s') /\
    ((p = 0 /\ s' = s) \/
     (p = record_at a /\ inv s' (rq ++ [p]) sl ws /\ threads_alive s' = threads_alive s + 1 /\ threads_alive s < max_threads)).
Proof.
  intros Hi Hfresh. unfold spawn. destruct (Z.leb_spec max_threads (threads_alive s)) as [|Hmax]; [by eauto 10|].
  destruct (Z.eqb_spec (record_at a) 0) as [|H0]; [by eauto 10|].
  destruct (region_at a =? 0); [by eauto 10|]. destruct (map_stack _ _ _ _ _) as [[|] calls]; cbn [negb]; [|by eauto 10].
  set (x := record_at a) in *. set (t0 := mkThread _ _ _ _ _ _ _ _ _ _ _ _).
  destruct (fresh_outside _ _ _ _ _ Hi Hfresh) as (Hxr & Hxs & Hxw & Hxc).
  unfold prepare. cbn [set_threads threads]. rewrite lookup_insert_eq. cbn [mbind option_bind].
  destruct (fold_left push _ _) as [top words]. rewrite insert_insert_eq. set (t1 := mkThread _ _ _ Ready _ _ _ _ _ _ _ _).
  cbn [mbind option_bind]. unfold adopt. cbn [set_words set_threads threads]. rewrite lookup_insert_eq.
  cbn [mbind option_bind]. rewrite insert_insert_eq. set (t2 := mkThread _ _ _ _ _ _ _ _ _ _ _ _).
  match goal with |- context [enqueue x ?z] => set (s1 := z) end.
  pose proof (core_insert_free s rq sl ws _ x t2 Hxr Hxs Hxw (i_core _ _ _ _ Hi)) as Hc0.
  assert (core s1 rq sl ws (x :: (current_thread <$> cpus s))) as Hc1.
  { apply core_add_free; [destruct Hc0; constructor; assumption|mem|done|done|].
    cbn. rewrite lookup_insert_eq. by eauto. }
  destruct (enqueue_core s1 rq sl ws x _ Hc1) as (s2 & E2 & Hc2 & Hsame2 & Hb2 & _).
  rewrite E2. cbn [mbind option_bind]. eexists x, calls, s2. split; [done|]. right.
  destruct Hsame2 as (Ec & _ & _ & Ea & _ & Ed). cbn in Ec, Ea, Ed. split_and!; [done| |done|done].
  assert (forall y, is_Some (threads s !! y) -> is_Some (threads s2 !! y)) as Hkn.
  { intros y Hy. apply elem_of_dom. rewrite Ed, dom_insert_L. apply elem_of_union. right. by apply elem_of_dom. }
  constructor.
  - by rewrite Ec.
  - rewrite Ec. pose proof (i_running _ _ _ _ Hi) as H. rewrite list.Forall_forall in H |- *. intros y Hy.
    eapply alter_state_running; [exact Hb2|by intros ->|]. apply (has_state_insert Running s x t2). right.
    split; [by intros ->|by apply H].
  - intros j d Hj. rewrite Ec in Hj. destruct (i_idle _ _ _ _ Hi j d Hj) as (H1 & H2 & H3).
    split_and!; [|done|by apply Hkn]. intros Hin. mem_in Hin. mem_in H1.
    assert (idle_thread d <> x) as Hne by (intros E; rewrite E in H3; destruct H3; congruence). tauto.
  - rewrite Ec. by destruct Hi.
Qed.

(** ** Booting *)

Definition offline : PerCpu := mkCpu 0 0 0 0 0 0.

Definition boot_state (n queues : nat) : sched :=
  mk ∅ 0 0 0 (replicate queues 0) 0 0 1 false (replicate n offline) ∅.

(** The application processors enter the scheduler in some order, then the boot
    processor calls [sched_init]; [idle k] is the record of CPU [k]'s idle thread. *)
Definition boot (n queues : nat) (idle : nat -> Z) (order : list nat) : option sched :=
  s ← fold_left (fun r k => s ← r; sched_start_cpu k (idle k) s) order (Some (boot_state n queues));
  sched_init 0 (idle 0%nat) s.

(** The CPUs in [done] have started and nothing else has happened. *)
Record started (n queues : nat) (idle : nat -> Z) (done : list nat) (s : sched) : Prop := {
  st_queues : run_queue_head s = 0 /\ run_queue_tail s = 0 /\ sleepers s = 0 /\ wait_heads s = replicate queues 0;
  st_length : length (cpus s) = n;
  st_cpus : forall k c, k ∈ done -> cpus s !! k = Some c -> current_thread c = idle k /\ idle_thread c = idle k;
  st_threads : forall k, k ∈ done -> has_state Running s (idle k)
}.

Lemma start_step n queues idle done s k :
  started n queues idle done s -> (k < n)%nat -> k ∉ done -> (forall j, idle j <> 0) ->
  (forall i j, idle i = idle j -> i = j) ->
  exists s', sched_start_cpu k (idle k) s = Some s' /\ started n queues idle (k :: done) s'.
Proof.
  intros [Hq Hl Hcp Hth] Hk Hnk H0 Hinj. unfold sched_start_cpu, make_idle.
  rewrite (proj2 (Z.eqb_neq _ _) (H0 k)). cbn [set_threads cpus threads].
  destruct (lookup_lt_is_Some_2 (cpus s) k ltac:(lia)) as [c Hc]. rewrite Hc. cbn [mbind option_bind].
  rewrite lookup_insert_eq. cbn [mbind option_bind]. eexists. split; [reflexivity|].
  constructor; cbn [set_cpus set_threads run_queue_head run_queue_tail sleepers wait_heads cpus].
  - done.
  - by rewrite length_insert.
  - intros j d Hj Hd. apply list_lookup_insert_Some in Hd as [(-> & <- & _)|[Hne Hd]]; [done|].
    apply elem_of_cons in Hj as [->|Hj]; [done|]. by apply Hcp.
  - intros j Hj. apply has_state_bare. cbn [set_cpus set_threads threads]. rewrite insert_insert_eq.
    destruct (decide (j = k)) as [->|Hne]; [rewrite lookup_insert_eq; by eauto|].
    apply elem_of_cons in Hj as [->|Hj]; [done|]. specialize (Hth j Hj). apply has_state_bare in Hth as (t & Ht & Hs).
    exists t. rewrite lookup_insert_ne; [done|]. intros E. by apply Hne, Hinj.
Qed.

Lemma started_inv n queues idle done s :
  started n queues idle done s -> (forall k, (k < n)%nat -> k ∈ done) ->
  (forall j, idle j <> 0) -> (forall i j, idle i = idle j -> i = j) ->
  inv s [] [] (replicate queues []).
Proof.
  intros [(Q1 & Q2 & Q3 & Q4) Hl Hcp Hth] Hall H0 Hinj.
  assert (forall k c, cpus s !! k = Some c -> current_thread c = idle k /\ idle_thread c = idle k /\ has_state Running s (idle k)) as Hc.
  { intros k c Hk. assert (k ∈ done) as Hd by (apply Hall; rewrite <- Hl; by eapply lookup_lt_Some).
    destruct (Hcp k c Hd Hk). split_and!; [done|done|by apply Hth]. }
  assert (concat (replicate queues []) = @nil Z) as Ew by (clear; induction queues; done).
  assert (forall x, x ∈ current_thread <$> cpus s -> exists k, x = idle k /\ has_state Running s (idle k)) as Hcur.
  { intros x Hx. apply list_elem_of_fmap in Hx as (c & -> & Hin). apply list_elem_of_lookup in Hin as [k Hk].
    destruct (Hc k c Hk) as (? & _ & ?). by eauto. }
  constructor.
  - constructor; rewrite ?Ew; cbn [app]; try done.
    + apply NoDup_fmap_2_strong; [|apply NoDup_alt; intros i j c Hi Hj].
      * intros x y Hx Hy E. apply list_elem_of_lookup in Hx as [i Hi], Hy as [j Hj].
        destruct (Hc _ _ Hi) as (E1 & _). destruct (Hc _ _ Hj) as (E2 & _).
        assert (i = j) as -> by (apply Hinj; congruence). congruence.
      * destruct (Hc _ _ Hi) as (E1 & _). destruct (Hc _ _ Hj) as (E2 & _). apply Hinj. congruence.
    + rewrite Q4. clear. induction queues; constructor; done.
    + rewrite list.Forall_forall. intros x Hx. destruct (Hcur x Hx) as (k & -> & Hr). split; [done|].
      apply has_state_bare in Hr as (t & -> & _). by eauto.
  - rewrite list.Forall_forall. intros x Hx. by destruct (Hcur x Hx) as (k & -> & Hr).
  - intros k c Hk. rewrite Ew. destruct (Hc k c Hk) as (_ & -> & Hr). split_and!; [apply not_elem_of_nil|done|].
    apply has_state_bare in Hr as (t & -> & _). by eauto.
  - intros j k c d Hj Hk H. destruct (Hc _ _ Hj) as (_ & E1 & _). destruct (Hc _ _ Hk) as (E2 & E3 & _).
    apply Hinj. destruct H; congruence.
Qed.

Lemma start_all n queues idle order : forall done s,
  started n queues idle done s -> NoDup (order ++ done) -> Forall (fun k => (k < n)%nat) order ->
  (forall j, idle j <> 0) -> (forall i j, idle i = idle j -> i = j) ->
  exists s', fold_left (fun r k => s ← r; sched_start_cpu k (idle k) s) order (Some s) = Some s' /\
    started n queues idle (reverse order ++ done) s'.
Proof.
  induction order as [|k order IH]; intros done s Hs Hn Hk H0 Hinj; cbn [fold_left]; [by eauto|].
  apply Forall_cons in Hk as [Hk Hrest]. cbn [app] in Hn. apply NoDup_cons in Hn as [Hkn Hn].
  destruct (start_step n queues idle done s k Hs Hk) as (s1 & E1 & Hs1); [|done|done|].
  { intros Hin. apply Hkn. mem. }
  cbn [mbind option_bind]. rewrite E1. destruct (IH (k :: done) s1 Hs1) as (s' & E & Hs'); [|done|done|done|].
  - eapply NoDup_Permutation_proper; [|apply NoDup_cons; split; [exact Hkn|exact Hn]]. solve_Permutation.
  - exists s'. split; [done|]. rewrite reverse_cons, <- app_assoc. done.
Qed.

Lemma boot_inv n queues idle order :
  (0 < n)%nat -> NoDup order -> (forall k, k ∈ order <-> (0 < k < n)%nat) ->
  (forall j, idle j <> 0) -> (forall i j, idle i = idle j -> i = j) ->
  exists s, boot n queues idle order = Some s /\ inv s [] [] (replicate queues []) /\ running s = true.
Proof.
  intros Hpos Hn Hord H0 Hinj. unfold boot.
  destruct (start_all n queues idle order [] (boot_state n queues)) as (s1 & -> & Hs1).
  - constructor; cbn; [done|apply length_replicate| |]; intros k ? []%elem_of_nil || intros k []%elem_of_nil.
  - by rewrite app_nil_r.
  - rewrite list.Forall_forall. intros k Hk. apply Hord in Hk. lia.
  - done.
  - done.
  - cbn [mbind option_bind]. rewrite app_nil_r in Hs1. unfold sched_init.
    destruct (start_step n queues idle (reverse order) s1 0 Hs1 Hpos) as (s2 & -> & Hs2); [|done|done|].
    { rewrite elem_of_reverse. intros H. apply Hord in H. lia. }
    cbn [mbind option_bind]. eexists. split; [reflexivity|]. split; [|done].
    assert (inv s2 [] [] (replicate queues [])) as Hi.
    { eapply started_inv; [exact Hs2| |done|done]. intros k Hk. rewrite elem_of_cons, elem_of_reverse, Hord. lia. }
    destruct Hi as [[] ? ? ?]. constructor; [constructor|..]; assumption.
Qed.

(** ** Any sequence of operations *)

Inductive op :=
  | OSpawn (a : memory_answers) (trampoline : Z) (name : list Z) (entry argument : Z)
  | OYield (k : nat) (now sp : Z)
  | OTick (k : nat) (now sp : Z)
  | OSleep (k : nat) (now nanoseconds sp : Z)
  | OExit (k : nat) (sp : Z)
  | OWait (k q : nat) (sp : Z)
  | OWakeOne (q : nat)
  | OWakeAll (q : nat)
  | OWake (thread : Z)
  | OPreemptDisable (k : nat)
  | OPreemptEnable (k : nat).

Definition exec (root : Z) (o : op) (s : sched) : option sched :=
  match o with
  | OSpawn a tr name e x => '(_, _, s) ← spawn a tr name e x s; Some s
  | OYield k now sp => yield root k now sp s
  | OTick k now sp => sched_tick root k now sp s
  | OSleep k now ns sp => thread_sleep_ns root k now ns sp s
  | OExit k sp => thread_exit root k sp s
  | OWait k q sp => wait root k q sp s
  | OWakeOne q => wake_one q s
  | OWakeAll q => wake_all q s
  | OWake p => wake p s
  | OPreemptDisable k => preempt_disable k s
  | OPreemptEnable k => preempt_enable k s
  end.

(** What callers owe: a fresh record from the heap, an existing CPU and wait queue, no
    sleeping, waiting or exiting in an idle thread, and [Thread::wake] only on a
    sleeping thread or one in neither state it acts on. *)
Definition on_thread (k : nat) (s : sched) : Prop :=
  exists c, cpus s !! k = Some c /\ current_thread c <> idle_thread c.

Definition enabled (o : op) (s : sched) : Prop :=
  match o with
  | OSpawn a _ _ _ _ => threads s !! record_at a = None
  | OYield k _ _ | OTick k _ _ | OPreemptDisable k | OPreemptEnable k => (k < length (cpus s))%nat
  | OSleep k _ _ _ | OExit k _ => on_thread k s
  | OWait k q _ => on_thread k s /\ (q < length (wait_heads s))%nat
  | OWakeOne q | OWakeAll q => (q < length (wait_heads s))%nat
  | OWake p => exists t, threads s !! p = Some t /\ state_ t <> Blocked /\
      (state_ t = Sleeping -> exists sl, chain (threads s) (sleepers s) sl /\ p ∈ sl)
  end.

Inductive reachable (root : Z) : sched -> Prop :=
  | reach_boot n queues idle order s :
      (0 < n)%nat -> NoDup order -> (forall k, k ∈ order <-> (0 < k < n)%nat) ->
      (forall j, idle j <> 0) -> (forall i j, idle i = idle j -> i = j) ->
      boot n queues idle order = Some s -> reachable root s
  | reach_exec o s s' : reachable root s -> enabled o s -> exec root o s = Some s' -> reachable root s'.

Lemma chain_unique m p l l' : chain m p l -> chain m p l' -> l = l'.
Proof.
  revert p l'. induction l as [|x l IH]; intros p [|y l'] H H'; [done| | |].
  - destruct H' as (<- & Hy & _). by cbn in H.
  - destruct H as (<- & Hx & _). by cbn in H'.
  - destruct H as (-> & Hx & t & Ht & H). destruct H' as (<- & _ & t' & Ht' & H').
    f_equal. apply (IH (queue_next_ t)); [done|]. congruence.
Qed.

Lemma wait_queue_known s rq sl ws q : inv s rq sl ws -> (q < length (wait_heads s))%nat -> exists l, ws !! q = Some l.
Proof.
  intros Hi Hq. pose proof (Forall2_length _ _ _ (c_wait _ _ _ _ _ (i_core _ _ _ _ Hi))) as E.
  apply lookup_lt_is_Some_2. lia.
Qed.

Lemma inv_preempt s rq sl ws k c n : inv s rq sl ws -> cpus s !! k = Some c ->
  inv (set_cpus (<[k := set_preempt_count n c]> (cpus s)) s) rq sl ws.
Proof.
  intros [Hc Hr Hi Ho] Hk.
  assert (current_thread <$> <[k := set_preempt_count n c]> (cpus s) = current_thread <$> cpus s) as E.
  { rewrite list_fmap_insert. apply list_insert_id. by rewrite list_lookup_fmap, Hk. }
  assert (forall j d, <[k := set_preempt_count n c]> (cpus s) !! j = Some d ->
    exists d', cpus s !! j = Some d' /\ idle_thread d' = idle_thread d /\ current_thread d' = current_thread d) as Hb.
  { intros j d Hj. apply list_lookup_insert_Some in Hj as [(-> & <- & _)|[_ Hj]]; by eauto. }
  constructor; cbn [set_cpus cpus]; rewrite ?E.
  - by apply core_set_cpus.
  - done.
  - intros j d Hj. destruct (Hb j d Hj) as (d' & Hd & <- & _). by apply (Hi j).
  - intros i j d e Hd He H. destruct (Hb i d Hd) as (d' & Hd' & E1 & E2).
    destruct (Hb j e He) as (e' & He' & E3 & E4). apply (Ho i j d' e' Hd' He').
    destruct H; [left|right]; congruence.
Qed.

Definition good (s : sched) : Prop := exists rq sl ws, inv s rq sl ws.

Lemma good_intro s rq sl ws : inv s rq sl ws -> good s.
Proof. intros H. by exists rq, sl, ws. Qed.

Lemma exec_good root o s : good s -> enabled o s -> exists s', exec root o s = Some s' /\ good s'.
Proof.
  intros (rq & sl & ws & Hi) He.
  assert (forall k now sp, (k < length (cpus s))%nat -> exists s', yield root k now sp s = Some s' /\ good s') as Hy.
  { intros k now sp Hk. apply lookup_lt_is_Some_2 in Hk as [c Hc]. destruct (running s) eqn:Er.
    - destruct (yield_inv root k now sp s rq sl ws c Hi Hc Er) as (s' & c' & E & _ & H). exists s'. split; [done|].
      destruct (rq ++ _); destruct H as [H _]; by eapply good_intro.
    - unfold yield. rewrite Er. exists s. split; [done|]. by eapply good_intro. }
  assert (forall q, (q < length (wait_heads s))%nat -> exists l, ws !! q = Some l) as Hw by (intros; by eapply wait_queue_known).
  destruct o as [a tr name e x|k now sp|k now sp|k now ns sp|k sp|k q sp|q|q|p|k|k]; cbn [exec enabled] in *.
  - destruct (spawn_inv a tr name e x s rq sl ws Hi He) as (p & calls & s' & E & [[_ ->]|(_ & H & _)]);
      rewrite E; cbn; eexists; (split; [reflexivity|]); by eapply good_intro.
  - by apply Hy.
  - unfold sched_tick, preempt_allowed. pose proof He as Hk. apply lookup_lt_is_Some_2 in He as [c Hc].
    rewrite Hc. cbn [mbind option_bind]. destruct (_ || _); [|by apply Hy]. exists s. split; [done|]. by eapply good_intro.
  - destruct He as (c & Hc & Hne). destruct (running s) eqn:Er.
    + destruct (sleep_inv root k now ns sp s rq sl ws c Hi Hc Hne Er) as (s' & c' & E & H & _).
      exists s'. split; [done|]. by eapply good_intro.
    + unfold thread_sleep_ns. rewrite Er. exists s. split; [done|]. by eapply good_intro.
  - destruct He as (c & Hc & Hne). destruct (exit_inv root k sp s rq sl ws c Hi Hc Hne) as (s' & c' & E & H & _).
    exists s'. split; [done|]. by eapply good_intro.
  - destruct He as [(c & Hc & Hne) Hq]. destruct (Hw q Hq) as [l Hl].
    destruct (wait_inv root k q l sp s rq sl ws c Hi Hc Hne Hl) as (s' & c' & E & H & _).
    exists s'. split; [done|]. by eapply good_intro.
  - destruct (Hw q He) as [l Hl]. destruct (wake_one_inv q l s rq sl ws Hi Hl) as (s' & E & H).
    exists s'. split; [done|]. by eapply good_intro.
  - destruct (Hw q He) as [l Hl]. destruct (wake_all_inv q l s rq sl ws Hi Hl) as (s' & E & H).
    exists s'. split; [done|]. by eapply good_intro.
  - destruct He as (t & Ht & Hnb & Hsl). destruct (wake_inv p t s rq sl ws Hi Ht Hnb) as (s' & rq' & sl' & E & H).
    + intros Hs. destruct (Hsl Hs) as (sl' & Hch & Hin). pose proof (c_sleep _ _ _ _ _ (i_core _ _ _ _ Hi)) as Hch'.
      by rewrite (chain_unique _ _ _ _ Hch' Hch).
    + exists s'. split; [done|]. by eapply good_intro.
  - unfold preempt_disable. apply lookup_lt_is_Some_2 in He as [c Hc]. rewrite Hc. cbn.
    eexists. split; [reflexivity|]. exists rq, sl, ws. by apply inv_preempt.
  - unfold preempt_enable. apply lookup_lt_is_Some_2 in He as [c Hc]. rewrite Hc. cbn.
    destruct (_ <? _); eexists; (split; [reflexivity|]); exists rq, sl, ws; [by apply inv_preempt|done].
Qed.

Lemma reachable_good root s : reachable root s -> good s.
Proof.
  induction 1 as [n queues idle order s Hn Hord Ho H0 Hinj E|o s s' Hr IH He E].
  - destruct (boot_inv n queues idle order Hn Hord Ho H0 Hinj) as (s' & E' & Hi & _).
    rewrite E in E'. injection E' as <-. by eapply good_intro.
  - destruct (exec_good root o s IH He) as (s1 & E1 & Hg). congruence.
Qed.

(** C1: A thread is in one place: in every state any number of CPUs can bring the
    scheduler to, each enabled operation completes without following a bad pointer,
    no two CPUs run the same thread, the run queue and the sleepers are null-terminated
    chains without repetition whose tail pointer is right, a queued thread is run by no
    CPU and is ready or sleeping as its queue says, and the idle threads are never
    queued. *)
Theorem scheduler_safe root s :
  reachable root s ->
  (forall o, enabled o s -> exists s', exec root o s = Some s') /\
  exists rq sl,
    chain (threads s) (run_queue_head s) rq /\ run_queue_tail s = default 0 (last rq) /\
    chain (threads s) (sleepers s) sl /\
    NoDup (rq ++ sl ++ (current_thread <$> cpus s)) /\
    Forall (has_state Ready s) rq /\ Forall (has_state Sleeping s) sl /\
    Forall (has_state Running s) (current_thread <$> cpus s) /\
    (forall k c, cpus s !! k = Some c -> idle_thread c ∉ rq ++ sl).
Proof.
  intros Hr. pose proof (reachable_good root s Hr) as Hg. split.
  - intros o He. destruct (exec_good root o s Hg He) as (s' & E & _). by exists s'.
  - destruct Hg as (rq & sl & ws & [[Hn H1 H2 H3 _ _ H4 H5 _] H6 H7 _]). exists rq, sl. split_and!; try done.
    + apply NoDup_app in Hn as (Hn1 & Hd1 & Hn). apply NoDup_app in Hn as (Hn2 & Hd2 & Hn).
      apply NoDup_app in Hn as (_ & _ & Hn3). apply NoDup_app. split_and!; [done| |].
      * intros y Hy Hin. apply (Hd1 y Hy). mem_in Hin. mem.
      * apply NoDup_app. split_and!; [done| |done]. intros y Hy Hin. apply (Hd2 y Hy). mem.
    + intros k c Hk. destruct (H7 k c Hk) as (H & _). intros Hin. apply H. mem_in Hin. mem.
Qed.

(** Two CPUs, one wait queue, idle threads at 100 and 101. *)
Definition demo_boot : option sched := boot 2 1 (fun k => 100 + Z.of_nat k) [1%nat].

Lemma demo_reachable : exists s, demo_boot = Some s /\ reachable 7 s.
Proof.
  destruct (boot_inv 2 1 (fun k => 100 + Z.of_nat k) [1%nat]) as (s & E & _ & _).
  - intros; lia.
  - apply NoDup_singleton.
  - intros k. rewrite list_elem_of_singleton. lia.
  - intros; lia.
  - intros; lia.
  - exists s. split; [exact E|]. eapply reach_boot; [| | | | |exact E].
    + intros; cbv beta in *; lia.
    + apply NoDup_singleton.
    + intros k. rewrite list_elem_of_singleton. lia.
    + intros; cbv beta in *; lia.
    + intros; cbv beta in *; lia.
Qed.

Lemma scheduler_safe_witness :
  exists s, demo_boot = Some s /\ (forall o, enabled o s -> exists s', exec 7 o s = Some s').
Proof.
  destruct demo_reachable as (s & E & Hr). exists s. split; [exact E|]. apply (scheduler_safe 7 s Hr).
Defined.

(** C26: Round robin: [yield] first moves the sleepers whose deadline has passed to the
    back of the run queue, then runs its head; the caller, unless it is the CPU's idle
    thread, goes to the very back, and with nobody waiting the CPU keeps its thread. *)
Theorem yield_round_robin root k now sp s c rq sl ws :
  inv s rq sl ws -> cpus s !! k = Some c -> running s = true ->
  exists s' c', yield root k now sp s = Some s' /\ cpus s' = <[k := c']> (cpus s) /\
    chain (threads s') (sleepers s') (reverse (List.filter (fun x => negb (expired (bare s) now x)) sl)) /\
    match rq ++ List.filter (expired (bare s) now) sl with
    | [] => c' = c /\ chain (threads s') (run_queue_head s') []
    | next :: rest => current_thread c' = next /\
        chain (threads s') (run_queue_head s')
          (rest ++ if decide (current_thread c = idle_thread c) then [] else [current_thread c])
    end.
Proof.
  intros Hi Hk Hr. destruct (yield_inv root k now sp s rq sl ws c Hi Hk Hr) as (s' & c' & E & Ec & H).
  exists s', c'. split_and!; [done|done| |].
  - destruct (rq ++ _); destruct H as [[[] _ _ _] _]; done.
  - destruct (rq ++ _); destruct H as [[[] _ _ _] H]; [done|]. by destruct H as [H _].
Qed.

(** A worker at 200 with its stack at 0x10000. *)
Definition demo_answers : memory_answers := mkAnswers 200 0x10000 (fun i => 0x500000 + i * 4096).
Definition demo_spawn : op := OSpawn demo_answers 0x1234 [119] 0x4000 9.

Definition demo_spawned : option sched := s ← demo_boot; exec 7 demo_spawn s.

Lemma demo_spawned_check :
  match demo_boot with
  | Some s => bool_decide (threads s !! 200 = None) && running s &&
      match spawn demo_answers 0x1234 [119] 0x4000 9 s with Some (p, _, s') => (p =? 200) && running s' | None => false end
  | None => false
  end = true.
Proof. vm_compute. reflexivity. Qed.

Lemma demo_spawned_inv : exists s, demo_spawned = Some s /\ inv s [200] [] [[]] /\ running s = true.
Proof.
  pose proof demo_spawned_check as H.
  destruct (boot_inv 2 1 (fun k => 100 + Z.of_nat k) [1%nat]) as (s & E & Hi & _).
  { lia. } { apply NoDup_singleton. } { intros k. rewrite list_elem_of_singleton. lia. }
  { intros; lia. } { intros; lia. }
  unfold demo_spawned, demo_boot in *. rewrite E in *. cbn [mbind option_bind exec demo_spawn].
  apply andb_true_iff in H as [Hf H]. apply andb_true_iff in Hf as [Hf _]. apply bool_decide_eq_true in Hf.
  destruct (spawn_inv demo_answers 0x1234 [119] 0x4000 9 s [] [] [[]] Hi Hf) as (p & calls & s' & E' & Hs).
  rewrite E' in *. apply andb_true_iff in H as [Hp Hr]. apply Z.eqb_eq in Hp. cbn [mbind option_bind].
  exists s'. split_and!; [done| |done]. destruct Hs as [[? _]|(-> & Hs & _)]; [lia|exact Hs].
Qed.

(** The worker runs on CPU 0 and waits on queue 0. *)
Definition demo_blocked : option sched :=
  s ← demo_spawned; s ← exec 7 (OYield 0 5 0x9000) s; exec 7 (OWait 0 0 0x9100) s.

(** The steps of the demonstration can be taken. *)
Definition demo_checks : bool :=
  match demo_boot with
  | None => false
  | Some s0 =>
    bool_decide (threads s0 !! 200 = None) &&
    match demo_spawned with
    | None => false
    | Some s1 =>
      (0 <? length (cpus s1))%nat &&
      match exec 7 (OYield 0 5 0x9000) s1 with
      | None => false
      | Some s2 =>
        (0 <? length (wait_heads s2))%nat &&
        match cpus s2 !! 0%nat with
        | Some c => negb (current_thread c =? idle_thread c)
        | None => false
        end
      end
    end
  end.

Lemma demo_checks_ok : demo_checks = true.
Proof. vm_compute. reflexivity. Qed.

Lemma yield_round_robin_witness :
  exists s s' c', demo_spawned = Some s /\ yield 7 0 5 0x9000 s = Some s' /\ cpus s' !! 0%nat = Some c' /\
    current_thread c' = 200.
Proof.
  destruct demo_spawned_inv as (s & E & Hi & Hr).
  assert (exists c, cpus s !! 0%nat = Some c) as (c & Hc).
  { pose proof demo_checks_ok as Hk. unfold demo_checks in Hk. destruct demo_boot as [s0|]; [|discriminate Hk].
    apply andb_true_iff in Hk as [_ Hk]. rewrite E in Hk. apply andb_true_iff in Hk as [Hl _].
    apply Nat.ltb_lt in Hl. apply lookup_lt_is_Some_2 in Hl. exact Hl. }
  destruct (yield_round_robin 7 0 5 0x9000 s c [200] [] [[]] Hi Hc Hr) as (s' & c' & E' & Ec & _ & Ecur & _).
  exists s, s', c'. split_and!; [exact E|exact E'| |exact Ecur].
  rewrite Ec. apply list_lookup_insert_eq. by eapply lookup_lt_Some.
Defined.

(** ** [Thread::wake] on a blocked thread *)

Lemma self_loop m x t l : m !! x = Some t -> queue_next_ t = x -> x <> 0 -> ~ chain m x l.
Proof.
  intros Ht E Hx. induction l as [|y l IH]; [done|]. intros (<- & _ & t' & Ht' & Hc).
  assert (t' = t) as -> by congruence. rewrite E in Hc. done.
Qed.

Lemma demo_blocked_reachable s : demo_blocked = Some s -> reachable 7 s.
Proof.
  intros E. pose proof demo_checks_ok as Hk. unfold demo_checks in Hk.
  destruct demo_reachable as (s0 & E0 & H0). unfold demo_blocked, demo_spawned in *. rewrite E0 in *.
  cbn [mbind option_bind] in *. apply andb_true_iff in Hk as [Hf Hk]. apply bool_decide_eq_true in Hf.
  destruct (exec 7 demo_spawn s0) as [s1|] eqn:E1; [|discriminate Hk]. cbn [mbind option_bind] in *.
  apply andb_true_iff in Hk as [Hl Hk]. apply Nat.ltb_lt in Hl.
  destruct (exec 7 (OYield 0 5 0x9000) s1) as [s2|] eqn:E2; [|discriminate Hk]. cbn [mbind option_bind] in *.
  apply andb_true_iff in Hk as [Hq Hk]. apply Nat.ltb_lt in Hq.
  destruct (cpus s2 !! 0%nat) as [c|] eqn:Ec; [|discriminate Hk]. apply negb_true_iff, Z.eqb_neq in Hk.
  assert (enabled (OWait 0 0 0x9100) s2) as Hen by (split; [by exists c|done]).
  apply (reach_exec 7 (OWait 0 0 0x9100) s2 s); [|exact Hen|exact E].
  apply (reach_exec 7 (OYield 0 5 0x9000) s1 s2); [|exact Hl|exact E2]. apply (reach_exec 7 demo_spawn s0 s1); [exact H0|exact Hf|exact E1].
Qed.

(** What the two calls do to the blocked worker. *)
Definition demo_loop : bool :=
  match demo_blocked with
  | None => false
  | Some s =>
    match state_ <$> bare s !! 200 with Some Blocked => true | _ => false end &&
    match (s1 ← wake 200 s; wake_one 0 s1) with
    | None => false
    | Some s' =>
      (run_queue_head s' =? 200) &&
      match threads s' !! 200 with Some t => queue_next_ t =? 200 | None => false end
    end
  end.

Lemma demo_loop_ok : demo_loop = true.
Proof. vm_compute. reflexivity. Qed.

(** [Thread::wake] queues a blocked thread without taking it off the wait queue it is
    on: in a reachable state, [wake] followed by [wake_one] on that queue links the
    thread to itself, and the run queue is no list any more. *)
Theorem wake_blocked_corrupts :
  exists s s', reachable 7 s /\ has_state Blocked s 200 /\
    (s1 ← wake 200 s; wake_one 0 s1) = Some s' /\
    forall l, ~ chain (threads s') (run_queue_head s') l.
Proof.
  pose proof demo_loop_ok as H. unfold demo_loop in H.
  destruct demo_blocked as [s|] eqn:E; [|discriminate H]. apply demo_blocked_reachable in E.
  apply andb_true_iff in H as [Hb H].
  destruct (s1 ← wake 200 s; wake_one 0 s1) as [s'|] eqn:E'; [|discriminate H].
  apply andb_true_iff in H as [Hh H]. apply Z.eqb_eq in Hh.
  destruct (threads s' !! 200) as [t|] eqn:Et; [|discriminate H]. apply Z.eqb_eq in H.
  exists s, s'. split_and!; [exact E| |exact E'|].
  - unfold has_state. destruct (state_ <$> bare s !! 200) as [[]|]; try discriminate Hb. reflexivity.
  - rewrite Hh. intros l. eapply self_loop; [exact Et|exact H|lia].
Qed.
