(* ===== verification/ThreadList.v ===== *)
(** * The list of all threads (src/kernel/sched/scheduler.cpp)

    Beside the queues the scheduler keeps every thread it ever created on one list,
    linked by [list_next_] from [all_threads], which the panic report and the process
    listing walk with [thread_at].  The operations on the queues leave it alone. *)

From S2P Require Import Prelude Scheduler.

Definition links (s : sched) : gmap Z Z := list_next_ <$> threads s.

(** The list from [p] on. *)
Fixpoint roster (m : gmap Z Z) (p : Z) (l : list Z) : Prop :=
  match l with
  | [] => p = 0
  | x :: l => p = x /\ x <> 0 /\ exists q, m !! x = Some q /\ roster m q l
  end.

(** Nothing happened to the list. *)
Definition keeps (s s' : sched) : Prop := links s' = links s /\ all_threads s' = all_threads s.

#[local] Instance keeps_preorder : PreOrder keeps.
Proof. split; [by intros s|]. intros s1 s2 s3 [H1 H2] [H3 H4]. split; congruence. Qed.

Lemma keeps_update p f s s' : (forall t, list_next_ (f t) = list_next_ t) -> update p f s = Some s' -> keeps s s'.
Proof.
  intros Hf E. unfold update in E. apply bind_Some_inv in E as (t & Ht & E). injection E as <-. split; [|done]. unfold links. cbn.
  rewrite fmap_insert, Hf. apply insert_id. by rewrite lookup_fmap, Ht.
Qed.

(** Takes an operation apart into updates that each keep the list. *)
Ltac kept :=
  repeat match goal with
  | E : Some _ = Some _ |- _ => injection E as <-
  | E : Some _ = Some _ |- _ => injection E as <- <-
  | E : None = Some _ |- _ => discriminate E
  | E : update _ _ _ = Some _ |- _ => apply keeps_update in E; [|done]
  | E : (_ ≫= _) = Some _ |- _ => apply bind_Some_inv in E as (? & ? & E)
  | x : _ * _ |- _ => destruct x
  | E : context [if ?b then _ else _] |- _ => destruct b eqn:?
  | E : context [match ?b with None => _ | Some _ => _ end] |- _ => destruct b eqn:?
  end;
  repeat match goal with E : keeps _ _ |- _ => destruct E as [? ?] end;
  unfold links in *; cbn in *; try (split; unfold links in *; cbn in *; congruence).

Lemma keeps_enqueue p s s' : enqueue p s = Some s' -> keeps s s'.
Proof. intros E. unfold enqueue in E. kept. Qed.
Lemma keeps_dequeue s r : dequeue s = Some r -> keeps s r.2.
Proof. intros E. unfold dequeue in E. kept. Qed.
Lemma keeps_park p d s s' : park_sleeper_at p d s = Some s' -> keeps s s'.
Proof. intros E. unfold park_sleeper_at in E. kept. Qed.
Lemma keeps_block q p s s' : block_on q p s = Some s' -> keeps s s'.
Proof. intros E. unfold block_on in E. kept. Qed.
Lemma keeps_take q s r : take_from q s = Some r -> keeps s r.2.
Proof. intros E. unfold take_from in E. kept. Qed.
Lemma keeps_mark_dead p s s' : mark_dead p s = Some s' -> keeps s s'.
Proof. intros E. unfold mark_dead in E. kept. Qed.
Lemma keeps_set_current k p s s' : set_current k p s = Some s' -> keeps s s'.
Proof. intros E. unfold set_current in E. kept. Qed.
Lemma keeps_switch root k sp p s s' : switch_to root k sp p s = Some s' -> keeps s s'.
Proof.
  intros E. unfold switch_to in E. apply bind_Some_inv in E as (c & _ & E). destruct (current_thread c =? p); [by eapply keeps_set_current|].
  apply bind_Some_inv in E as (s1 & E1 & E). apply keeps_set_current in E1. unfold context_switch in E. kept.
Qed.

(** The same with the steps above. *)
Ltac kept_steps :=
  repeat match goal with
  | E : Some _ = Some _ |- _ => injection E as <-
  | E : None = Some _ |- _ => discriminate E
  | E : enqueue _ _ = Some _ |- _ => apply keeps_enqueue in E
  | E : dequeue _ = Some _ |- _ => apply keeps_dequeue in E
  | E : park_sleeper_at _ _ _ = Some _ |- _ => apply keeps_park in E
  | E : block_on _ _ _ = Some _ |- _ => apply keeps_block in E
  | E : take_from _ _ = Some _ |- _ => apply keeps_take in E
  | E : mark_dead _ _ = Some _ |- _ => apply keeps_mark_dead in E
  | E : switch_to _ _ _ _ _ = Some _ |- _ => apply keeps_switch in E
  | E : update _ _ _ = Some _ |- _ => apply keeps_update in E; [|done]
  | E : (_ ≫= _) = Some _ |- _ => apply bind_Some_inv in E as (? & ? & E)
  | x : _ * _ |- _ => destruct x
  | E : (if ?b then _ else _) = Some _ |- _ => destruct b
  end; kept.

Lemma keeps_leave root k sp s s' : leave root k sp s = Some s' -> keeps s s'.
Proof. intros E. unfold leave in E. kept_steps. Qed.

Lemma keeps_wake_loop fuel now : forall r s s', wake_loop fuel now r s = Some s' -> keeps s s'.
Proof.
  induction fuel as [|fuel IH]; intros r s s' E; [done|]. cbn [wake_loop] in E. destruct (sleepers s =? 0); [by injection E as <-|].
  apply bind_Some_inv in E as (t & _ & E). destruct (wake_at_ t <=? now); apply bind_Some_inv in E as (s1 & E1 & E); apply IH in E; kept_steps.
Qed.

Lemma keeps_detach fuel p : forall l s s', detach_loop fuel p l s = Some s' -> keeps s s'.
Proof.
  induction fuel as [|fuel IH]; intros l s s' E; [done|]. cbn [detach_loop] in E. apply bind_Some_inv in E as (x & _ & E).
  destruct (x =? 0); [by injection E as <-|]. destruct (x =? p); [|by eapply IH]. apply bind_Some_inv in E as (t & _ & E).
  destruct l; cbn in E; kept_steps.
Qed.

Lemma keeps_wake_all fuel q : forall s s', wake_all_loop fuel q s = Some s' -> keeps s s'.
Proof.
  induction fuel as [|fuel IH]; intros s s' E; [done|]. cbn [wake_all_loop] in E. apply bind_Some_inv in E as ([p s1] & E1 & E).
  apply keeps_take in E1. destruct (negb (p =? 0)); [|kept_steps]. apply bind_Some_inv in E as (s2 & E2 & E). apply IH in E. kept_steps.
Qed.

Lemma keeps_yield root k now sp s s' : yield root k now sp s = Some s' -> keeps s s'.
Proof.
  intros E. unfold yield in E. destruct (negb (running s)); [by injection E as <-|]. apply bind_Some_inv in E as (s1 & E1 & E).
  apply keeps_wake_loop in E1. kept_steps.
Qed.

(** *** Creating a thread *)

Lemma roster_known m p l x : roster m p l -> x ∈ l -> is_Some (m !! x).
Proof.
  revert p. induction l as [|y l IH]; intros p Hr Hx; [set_solver|]. destruct Hr as (_ & _ & q & Hq & Hr).
  apply elem_of_cons in Hx as [->|Hx]; [by rewrite Hq|by eapply IH].
Qed.

Lemma roster_insert m p l x q : x ∉ l -> roster m p l -> roster (<[x := q]> m) p l.
Proof.
  revert p. induction l as [|y l IH]; intros p Hx Hr; [done|]. destruct Hr as (-> & Hy & z & Hz & Hr). apply not_elem_of_cons in Hx as [Hne Hx].
  split; [done|]. split; [done|]. exists z. rewrite lookup_insert_ne by done. auto.
Qed.

(** The list as a whole: every thread is on it once. *)
Definition listed (s : sched) (l : list Z) : Prop := roster (links s) (all_threads s) l /\ NoDup l.

Lemma keeps_listed s s' l : keeps s s' -> listed s l -> listed s' l.
Proof. intros [H1 H2] [H3 H4]. split; [|done]. by rewrite H1, H2. Qed.

Lemma spawn_listed a tr name e x s r l : threads s !! record_at a = None -> listed s l -> spawn a tr name e x s = Some r ->
  listed r.2 (if r.1.1 =? 0 then l else r.1.1 :: l).
Proof.
  intros Hn [Hl Hd] E. unfold spawn in E. destruct (max_threads <=? threads_alive s); [by injection E as <-|].
  destruct (Z.eqb_spec (record_at a) 0) as [|Ha]; [by injection E as <-|]. destruct (region_at a =? 0); [by injection E as <-|].
  destruct (map_stack _ _ _ _ _) as [ok calls]. destruct (negb ok); [by injection E as <-|].
  apply bind_Some_inv in E as (s1 & E1 & E). apply bind_Some_inv in E as (s2 & E2 & E). injection E as <-. cbn [fst snd].
  destruct (Z.eqb_spec (record_at a) 0) as [|_]; [done|]. unfold prepare in E1. apply bind_Some_inv in E1 as (t & Ht & E1).
  cbn in Ht. rewrite lookup_insert_eq in Ht. injection Ht as <-. destruct (fold_left _ _ _) as [top words]. injection E1 as <-.
  unfold adopt in E2. apply bind_Some_inv in E2 as (t & Ht & E2). cbn in Ht. rewrite lookup_insert_eq in Ht. injection Ht as <-. apply keeps_enqueue in E2.
  assert (record_at a ∉ l) as Hnew. { intros Hin. destruct (roster_known _ _ _ _ Hl Hin) as [y Hy]. unfold links in Hy. by rewrite lookup_fmap, Hn in Hy. }
  eapply keeps_listed; [exact E2|]. split; [|by constructor]. unfold links. cbn. split; [done|]. split; [done|]. exists (all_threads s).
  rewrite !fmap_insert, !insert_insert_eq. cbn. rewrite lookup_insert_eq. split; [done|]. by apply roster_insert.
Qed.

(** What an operation puts in front of the list. *)
Definition created (o : op) (s : sched) : list Z :=
  match o with
  | OSpawn a tr name e x => match spawn a tr name e x s with Some (p, _, _) => if p =? 0 then [] else [p] | None => [] end
  | _ => []
  end.

Lemma exec_listed root o s s' l : enabled o s -> listed s l -> exec root o s = Some s' -> listed s' (created o s ++ l).
Proof.
  intros He Hl E. destruct o as [a tr name e x|k now sp|k now sp|k now ns sp|k sp|k q sp|q|q|p|k|k]; cbn [created app exec] in *.
  1: { destruct (spawn a tr name e x s) as [[[p calls] s1]|] eqn:Es; [|done]. cbn in E. injection E as <-.
    apply (spawn_listed _ _ _ _ _ _ _ l He Hl) in Es. cbn in Es. by destruct (p =? 0). }
  all: eapply keeps_listed; [|exact Hl].
  - by eapply keeps_yield.
  - unfold sched_tick in E. apply bind_Some_inv in E as (b & _ & E). destruct (_ || _); [by injection E as <-|]. by eapply keeps_yield.
  - unfold thread_sleep_ns in E. destruct (negb _); [by injection E as <-|]. apply bind_Some_inv in E as (p & _ & E).
    apply bind_Some_inv in E as (s1 & E1 & E). apply keeps_leave in E. kept_steps.
  - unfold thread_exit in E. apply bind_Some_inv in E as (p & _ & E). apply bind_Some_inv in E as (s1 & E1 & E). apply keeps_leave in E. kept_steps.
  - unfold wait in E. apply bind_Some_inv in E as (p & _ & E). apply bind_Some_inv in E as (s1 & E1 & E). apply keeps_leave in E. kept_steps.
  - unfold wake_one in E. kept_steps.
  - by eapply keeps_wake_all.
  - unfold wake in E. apply bind_Some_inv in E as (t & _ & E). destruct (_ || _); [|by injection E as <-].
    apply bind_Some_inv in E as (s1 & E1 & E). apply keeps_detach in E1. kept_steps.
  - unfold preempt_disable in E. kept_steps.
  - unfold preempt_enable in E. kept_steps.
Qed.

Lemma thread_at_loop_listed s : forall l p i, roster (links s) p l -> thread_at_loop i p s = Some (default 0 (l !! i)).
Proof.
  induction l as [|x l IH]; intros p i Hr.
  - cbn in Hr. subst p. by destruct i.
  - destruct Hr as (-> & Hx & q & Hq & Hr). destruct i as [|i]; [done|]. cbn. rewrite (proj2 (Z.eqb_neq x 0) Hx). unfold next_in_list.
    unfold links in Hq. rewrite lookup_fmap in Hq. rewrite Hq. cbn. by apply IH.
Qed.

Lemma start_no_threads k idle s s' : sched_start_cpu k idle s = Some s' -> all_threads s' = all_threads s.
Proof. intros E. unfold sched_start_cpu, make_idle in E. kept_steps. Qed.

Lemma boot_no_threads n queues idle order s : boot n queues idle order = Some s -> all_threads s = 0.
Proof.
  intros E. unfold boot in E. apply bind_Some_inv in E as (s1 & E1 & E).
  assert (forall r, (forall s, r = Some s -> all_threads s = 0) ->
    fold_left (fun r k => s ← r; sched_start_cpu k (idle k) s) order r = Some s1 -> all_threads s1 = 0) as Hfold.
  { clear E E1 s. induction order as [|k order IH]; intros r Hr E1; cbn in E1; [by apply Hr|]. eapply IH; [|exact E1].
    intros s E. apply bind_Some_inv in E as (s0 & -> & E). rewrite (start_no_threads _ _ _ _ E). by apply Hr. }
  unfold sched_init in E. apply bind_Some_inv in E as (s2 & E2 & E). injection E as <-. cbn. rewrite (start_no_threads _ _ _ _ E2).
  eapply Hfold; [|exact E1]. by intros s [= <-].
Qed.

Lemma roster_nonzero m p l x : roster m p l -> x ∈ l -> x <> 0.
Proof.
  revert p. induction l as [|y l IH]; intros p Hr Hx; [set_solver|]. destruct Hr as (_ & Hy & q & _ & Hr).
  apply elem_of_cons in Hx as [->|Hx]; [done|by eapply IH].
Qed.

Lemma reachable_listed root s : reachable root s -> exists l, listed s l.
Proof.
  induction 1 as [n queues idle order s Hn _ _ _ _ E|o s s' _ [l Hl] He E].
  - exists []. split; [|constructor]. cbn. by eapply boot_no_threads.
  - eexists. by eapply exec_listed.
Qed.

Lemma listed_known s l x : listed s l -> x ∈ l -> x <> 0 /\ is_Some (threads s !! x).
Proof.
  intros [Hr _] Hx. split; [by eapply roster_nonzero|]. destruct (roster_known _ _ _ _ Hr Hx) as [y Hy]. unfold links in Hy.
  rewrite lookup_fmap in Hy. by destruct (threads s !! x).
Qed.

Lemma thread_at_listed s l i : listed s l -> thread_at i s = Some (default 0 (l !! i)).
Proof. intros [Hr _]. by apply thread_at_loop_listed. Qed.

(** C27: the list of all threads is sound in every state the scheduler can reach: it ends,
    no thread is on it twice, every thread on it exists, [thread_at] gives its elements
    in order and 0 past the end, and an operation changes it only by putting the thread
    it created in front. *)
Theorem thread_list_sound root s : reachable root s ->
  exists l, NoDup l /\ (forall x, x ∈ l -> x <> 0 /\ is_Some (threads s !! x)) /\
    (forall i, thread_at i s = Some (default 0 (l !! i))) /\
    (forall o s', enabled o s -> exec root o s = Some s' -> forall i, thread_at i s' = Some (default 0 ((created o s ++ l) !! i))).
Proof.
  intros Hr. destruct (reachable_listed _ _ Hr) as [l Hl]. exists l. split_and!.
  - apply Hl.
  - intros x. by apply listed_known.
  - intros i. by apply thread_at_listed.
  - intros o s' He E i. apply thread_at_listed. by apply (exec_listed _ _ _ _ _ He Hl E).
Qed.

Lemma thread_list_sound_witness : exists s, demo_boot = Some s /\ forall s', exec 7 demo_spawn s = Some s' ->
  exists l, thread_at 0 s' = Some (default 0 ((created demo_spawn s ++ l) !! 0%nat)).
Proof.
  destruct demo_reachable as (s & E & Hr). exists s. split; [exact E|]. intros s' E'.
  destruct (thread_list_sound 7 s Hr) as (l & _ & _ & _ & H). exists l. apply H; [|exact E'].
  pose proof demo_spawned_check as Hc. rewrite E in Hc. apply andb_true_iff in Hc as [Hc _]. apply andb_true_iff in Hc as [Hc _].
  apply bool_decide_eq_true in Hc. exact Hc.
Defined.
