(* ===== verification/Trace.v ===== *)
(** * Symbols and back traces (src/kernel/lib/ksyms.cpp, src/kernel/lib/backtrace.cpp)

    The table of the kernel's symbols is generated; here it is a list of addresses and
    names.  A back trace is the list of addresses printed.  Memory is read where a
    frame is found plausible, [None] is a fault. *)

From S2P Require Import Prelude Memory.

Record KsymEntry := mkEntry { ksym_address : Z; ksym_name : Z }.

(** The loop of [ksyms_lookup]: the last entry not above the address, before the first
    one above it. *)
Fixpoint lookup_loop (table : list KsymEntry) (address : Z) (best : option KsymEntry) : option KsymEntry :=
  match table with
  | [] => best
  | e :: table => if address <? ksym_address e then best else lookup_loop table address (Some e)
  end.

(** The name and the offset from it. *)
Definition ksyms_lookup (table : list KsymEntry) (address : Z) : option (Z * Z) :=
  best ← lookup_loop table address None; Some (ksym_name best, u64 (address - ksym_address best)).
Definition ksyms_count (table : list KsymEntry) : Z := Z.of_nat (length table).

Definition image_start : Z := Z.shiftl 1 20.
Definition mapped_limit : Z := Z.shiftl 1 30.
Definition max_frames : nat := 24.
Definition sizeof_Frame : Z := 16.

Definition plausible_text (kernel_end address : Z) : bool := (image_start <=? address) && (address <? kernel_end).
Definition plausible_frame (frame : Z) : bool :=
  (image_start <=? frame) && (u64 (frame + sizeof_Frame) <? mapped_limit) && (Z.land frame 0x7 =? 0).

Fixpoint frame_loop (depth : nat) (m : memory) (kernel_end frame : Z) : option (list Z) :=
  match depth with
  | O => Some []
  | S depth =>
    if negb (plausible_frame frame) then Some []
    else
      return_address ← rd64 m (frame + 8);
      if negb (plausible_text kernel_end return_address) then Some []
      else
        previous ← rd64 m frame;
        if previous <=? frame then Some [return_address]
        else rest ← frame_loop depth m kernel_end previous; Some (return_address :: rest)
  end.

(** The addresses [print_symbol] is called with. *)
Definition backtrace_from (m : memory) (kernel_end rip rbp : Z) : option (list Z) :=
  rest ← frame_loop max_frames m kernel_end rbp;
  Some ((if plausible_text kernel_end rip then [rip] else []) ++ rest).

(** ** Properties *)

(** The table is sorted by address. *)
Fixpoint sorted (table : list KsymEntry) : Prop :=
  match table with
  | e :: ((f :: _) as rest) => ksym_address e <= ksym_address f /\ sorted rest
  | _ => True
  end.

Lemma sorted_ge e table : sorted (e :: table) -> forall f, f ∈ table -> ksym_address e <= ksym_address f.
Proof.
  revert e. induction table as [|g table IH]; intros e Hs f Hf; [by apply elem_of_nil in Hf|].
  destruct Hs as [Hle Hs]. apply elem_of_cons in Hf as [->|Hf]; [done|]. specialize (IH g Hs f Hf). lia.
Qed.

Lemma lookup_loop_spec table address : forall best, sorted table ->
  match lookup_loop table address best with
  | Some e => (Some e = best /\ forall f, f ∈ table -> address < ksym_address f) \/
      (e ∈ table /\ ksym_address e <= address /\ forall f, f ∈ table -> ksym_address f <= address -> ksym_address f <= ksym_address e)
  | None => best = None /\ forall f, f ∈ table -> address < ksym_address f
  end.
Proof.
  induction table as [|e table IH]; intros best Hs; cbn [lookup_loop].
  - destruct best; [left|]; (split; [done|]); intros f Hf; by apply elem_of_nil in Hf.
  - destruct (Z.ltb_spec address (ksym_address e)) as [Hlt|Hle].
    + assert (forall f, f ∈ e :: table -> address < ksym_address f) as Hall.
      { intros f Hf. apply elem_of_cons in Hf as [->|Hf]; [done|]. pose proof (sorted_ge e table Hs f Hf). lia. }
      destruct best; [by left|by split].
    + assert (sorted table) as Hs' by (destruct table; [done|apply Hs]). specialize (IH (Some e) Hs').
      destruct (lookup_loop table address (Some e)) as [r|]; [|by destruct IH]. right. destruct IH as [[E Hab]|(Hr & Hra & Hm)].
      * injection E as ->. split; [by left|]. split; [lia|]. intros f Hf Hfa. apply elem_of_cons in Hf as [->|Hf]; [done|]. specialize (Hab f Hf). lia.
      * split; [by right|]. split; [done|]. intros f Hf Hfa. apply elem_of_cons in Hf as [->|Hf]; [by apply (sorted_ge e table Hs r)|]. by apply Hm.
Qed.

(** in a sorted table [ksyms_lookup] names an address by the closest symbol at or
    below it, with the distance to it, and finds none exactly when every symbol lies
    above. *)
Theorem ksyms_lookup_closest table address : sorted table -> Forall (fun e => 0 <= ksym_address e < 2 ^ 64) table -> 0 <= address < 2 ^ 64 ->
  match ksyms_lookup table address with
  | Some (name, offset) => exists e, e ∈ table /\ ksym_name e = name /\ ksym_address e + offset = address /\ 0 <= offset /\
      forall f, f ∈ table -> ksym_address f <= address -> ksym_address f <= ksym_address e
  | None => forall f, f ∈ table -> address < ksym_address f
  end.
Proof.
  intros Hs Hr Ha. unfold ksyms_lookup. pose proof (lookup_loop_spec table address None Hs) as H.
  destruct (lookup_loop table address None) as [e|]; cbn [mbind option_bind]; [|apply H].
  destruct H as [[H _]|(He & Hea & Hm)]; [done|]. pose proof (proj1 (Forall_forall _ _) Hr e He) as Hre. cbn in Hre.
  exists e. rewrite u64_small by lia. split_and!; (done || lia).
Qed.

Definition demo_table : list KsymEntry := [mkEntry 0x100000 1; mkEntry 0x100040 2; mkEntry 0x100400 3].

Lemma ksyms_lookup_closest_witness :
  ksyms_lookup demo_table 0x100050 = Some (2, 16) /\ exists e, e ∈ demo_table /\ ksym_name e = 2 /\ ksym_address e + 16 = 0x100050.
Proof.
  assert (ksyms_lookup demo_table 0x100050 = Some (2, 16)) as E by reflexivity. split; [exact E|].
  pose proof (ksyms_lookup_closest demo_table 0x100050) as H. rewrite E in H.
  destruct H as (e & H1 & H2 & H3 & _); [cbn; lia|repeat constructor; cbn; lia|lia|]. exists e. split; [exact H1|]. split; [exact H2|exact H3].
Defined.

Lemma plausible_frame_spec frame : 0 <= frame < 2 ^ 64 - 16 -> plausible_frame frame = true -> image_start <= frame /\ frame + 16 < mapped_limit /\ frame mod 8 = 0.
Proof.
  unfold plausible_frame, sizeof_Frame. intros Hf H. breflect. rewrite u64_small in * by lia. split; [done|]. split; [done|].
  change 0x7 with (Z.ones 3) in *. rewrite Z.land_ones in * by lia. done.
Qed.

(** From a frame to the one its first word names, if that is above it. *)
Definition follows (m : memory) (frame previous : Z) : Prop := rd64 m frame = Some previous /\ frame < previous.

(** The frame can be read, if the loop would. *)
Definition frame_readable (m : memory) (frame : Z) : Prop :=
  plausible_frame frame = true -> is_Some (rd64 m (frame + 8)) /\ is_Some (rd64 m frame).

(** The frames the loop follows, each above the one before. *)
Lemma frame_loop_safe m kernel_end : forall depth frame,
  (forall g, rtc (follows m) frame g -> frame_readable m g) ->
  exists l, frame_loop depth m kernel_end frame = Some l /\ (length l <= depth)%nat /\ Forall (fun a => plausible_text kernel_end a = true) l.
Proof.
  intros depth. revert kernel_end. induction depth as [|depth IH]; intros kernel_end frame Hm; cbn [frame_loop].
  - exists []. split_and!; (done || constructor).
  - destruct (plausible_frame frame) eqn:Ep; cbn [negb]; [|exists []; split_and!; [done|cbn; lia|constructor]].
    destruct (Hm frame (rtc_refl _ _) Ep) as [[r Er] [p Epr]]. rewrite Er. cbn [mbind option_bind].
    destruct (plausible_text kernel_end r) eqn:Et; cbn [negb]; [|exists []; split_and!; [done|cbn; lia|constructor]].
    rewrite Epr. cbn [mbind option_bind].
    destruct (Z.leb_spec p frame); [exists [r]; split_and!; [done|cbn; lia|by repeat constructor]|].
    destruct (IH kernel_end p) as (l & -> & Hl & Ht); [|exists (r :: l); split_and!; [done|cbn; lia|by constructor]].
    intros g Hg. apply Hm. by eapply rtc_l; [split|].
Qed.

(** A back trace returns when the frames it follows can be read: it follows at most 24
    of them, and every address it prints lies in the kernel's text. *)
Theorem backtrace_safe m kernel_end rip rbp :
  (forall g, rtc (follows m) rbp g -> frame_readable m g) ->
  exists l, backtrace_from m kernel_end rip rbp = Some l /\ (length l <= 25)%nat /\ Forall (fun a => plausible_text kernel_end a = true) l.
Proof.
  intros Hm. unfold backtrace_from. destruct (frame_loop_safe m kernel_end max_frames rbp Hm) as (l & -> & Hl & Ht). cbn [mbind option_bind].
  eexists. split; [done|]. unfold max_frames in Hl. rewrite length_app. destruct (plausible_text kernel_end rip) eqn:E; cbn [app length].
  - split; [lia|]. by constructor.
  - split; [lia|done].
Qed.

(** A frame on a page that is not there is not noticed: the report faults itself. *)
Lemma guard_frame_faults m kernel_end rip rbp :
  plausible_frame rbp = true -> m !! (rbp + 8) = None -> backtrace_from m kernel_end rip rbp = None.
Proof.
  intros Hp Hm. unfold backtrace_from, max_frames. cbn [frame_loop]. rewrite Hp. cbn [negb].
  replace (rd64 m (rbp + 8)) with (@None Z); [done|]. unfold rd64. cbn [rd_le]. by rewrite Hm.
Qed.

(** A gigabyte of zeroes from the image on. *)
Definition zero_image : memory := zero_memory image_start mapped_limit.

Lemma rd_le_zero n : forall (m : memory) a, (forall k, 0 <= k < Z.of_nat n -> m !! (a + k) = Some 0) -> rd_le n m a = Some 0.
Proof.
  induction n as [|n IH]; intros m a H; cbn [rd_le]; [done|]. pose proof (H 0 ltac:(lia)) as H0. rewrite Z.add_0_r in H0.
  rewrite H0. cbn [mbind option_bind]. rewrite IH; [done|]. intros k Hk. rewrite <- (H (k + 1)) by lia. f_equal. lia.
Qed.

Lemma rd_le_some n : forall (m : memory) a, (forall k, 0 <= k < Z.of_nat n -> is_Some (m !! (a + k))) -> is_Some (rd_le n m a).
Proof.
  induction n as [|n IH]; intros m a H; cbn [rd_le]; [done|]. destruct (H 0 ltac:(lia)) as [b Hb]. rewrite Z.add_0_r in Hb.
  rewrite Hb. cbn [mbind option_bind]. destruct (IH m (a + 1)) as [r ->]; [|done].
  intros k Hk. replace (a + 1 + k) with (a + (k + 1)) by lia. apply H. lia.
Qed.

Lemma zero_image_lookup a : image_start <= a < mapped_limit -> zero_image !! a = Some 0.
Proof.
  intros H. assert (0 < image_start) as Hs by done. destruct (zero_memory_mapped image_start mapped_limit a) as [v Hv]; [lia|].
  pose proof (zero_memory_lookup _ _ _ _ Hv) as ->. exact Hv.
Qed.

(** The chain of a memory of zeroes ends at once. *)
Lemma zero_chain (m : memory) a g : (forall k, 0 <= k < 8 -> m !! (a + k) = Some 0) -> 0 <= a -> rtc (follows m) a g -> g = a.
Proof.
  intros Hm Ha Hr. inversion Hr as [|x y z [E Hlt] _]; [done|]. subst. exfalso.
  unfold rd64 in E. rewrite rd_le_zero in E by done. injection E as <-. lia.
Qed.

Lemma zero_image_chain a g : image_start <= a -> a + 16 <= mapped_limit -> rtc (follows zero_image) a g -> g = a.
Proof. intros H1 H2. assert (0 < image_start) as Hs by done. apply zero_chain; [intros k Hk; apply zero_image_lookup; lia|lia]. Qed.

Lemma zero_image_readable a : image_start <= a -> a + 16 <= mapped_limit -> frame_readable zero_image a.
Proof.
  intros H1 H2 _. assert (0 < image_start) as Hs by done.
  split; apply rd_le_some; intros k Hk; change (Z.of_nat 8) with 8 in Hk; rewrite zero_image_lookup by lia; by eexists.
Qed.

Lemma backtrace_safe_witness :
  exists l, backtrace_from zero_image 0x400000 0x100010 0x200000 = Some l /\ (length l <= 25)%nat.
Proof.
  destruct (backtrace_safe zero_image 0x400000 0x100010 0x200000) as (l & E & Hl & _).
  - intros g Hg. assert (g = 0x200000) as -> by (apply (zero_image_chain _ _) in Hg; [exact Hg|discriminate|discriminate]).
    apply zero_image_readable; discriminate.
  - exists l. split; [exact E|exact Hl].
Defined.

(** The test of a frame's end wraps: the last words of the address space pass. *)
Lemma top_frame_plausible : plausible_frame (2 ^ 64 - 8) = true.
Proof. reflexivity. Qed.

(** ** The instruction bytes of a panic (panic.cpp) *)

(** [digits[d]] *)
Definition hex_digit (d : Z) : Z := if d <? 10 then 48 + d else 87 + d.

(** The text printed, "code:" and sixteen bytes, or nothing. *)
Definition dump_instruction_bytes (m : memory) (rip : Z) : option (list Z) :=
  if (rip <? image_start) || (mapped_limit <=? u64 (rip + 16)) then Some []
  else
    code ← mapM (fun i => m !! (rip + i)) (seqZ 0 16);
    Some ([99; 111; 100; 101; 58] ++ concat ((fun b => [32; hex_digit (Z.shiftr b 4); hex_digit (Z.land b 0x0F)]) <$> code) ++ [10]).

(** Below the last sixteen bytes of the address space the dump touches only the mapped
    range; where it can be read there, it returns and the text is complete. *)
Lemma dump_returns m rip :
  (image_start <= rip -> rip + 16 < mapped_limit -> forall i, 0 <= i < 16 -> is_Some (m !! (rip + i))) -> 0 <= rip < 2 ^ 64 - 16 ->
  exists text, dump_instruction_bytes m rip = Some text /\ (text = [] \/ length text = 54%nat).
Proof.
  intros Hm Hr. unfold dump_instruction_bytes. rewrite u64_small by lia.
  destruct (Z.ltb_spec rip image_start), (Z.leb_spec mapped_limit (rip + 16)); cbn [orb]; try (exists []; by auto).
  assert (is_Some (mapM (fun i => m !! (rip + i)) (seqZ 0 16))) as [code E].
  { apply mapM_is_Some_2, Forall_forall. intros i Hi%elem_of_seqZ. apply Hm; lia. }
  rewrite E. cbn [mbind option_bind]. eexists. split; [done|]. right. apply mapM_Some, Forall2_length in E. rewrite length_seqZ in E.
  do 16 (destruct code as [|? code]; [discriminate E|]). destruct code; [done|discriminate E].
Qed.

(** At the top of the address space the test wraps and the report faults itself. *)
Lemma dump_wraps (m : memory) : m !! (2 ^ 64 - 16) = None -> dump_instruction_bytes m (2 ^ 64 - 16) = None.
Proof.
  intros Hm. unfold dump_instruction_bytes. change (u64 (2 ^ 64 - 16 + 16)) with 0.
  change ((2 ^ 64 - 16 <? image_start) || (mapped_limit <=? 0)) with false. cbn iota.
  change (seqZ 0 16) with (0 :: seqZ 1 15). cbn [mapM]. rewrite Z.add_0_r, Hm. done.
Qed.
