(* ===== verification/Symbols.v ===== *)
(** * Exported symbols (src/kernel/module/symbols.cpp, src/include/eris/export.hpp)

    A symbol is a name, null or a string of bytes, and an address; the kernel's own
    table is fixed by the linker and passed in, the tables of loaded images are
    registered in an array of 16. *)

From S2P Require Import Prelude.

Record ExportedSymbol := mkSymbol { name : option (list Z); address : Z }.

(** [table] is the array at address [base], [count] entries long. *)
Record RegisteredTable := mkTable { base : Z; table : list ExportedSymbol; owner : Z }.

Definition max_tables : nat := 16.

(** The first [table_count] entries of [tables]. *)
Notation registry := (list RegisteredTable).

Definition symbol_register_table (t : RegisteredTable) (r : registry) : bool * registry :=
  if (base t =? 0) || (length (table t) =? 0)%nat then (false, r)
  else if (max_tables <=? length r)%nat then (false, r)
  else (true, r ++ [t]).

Fixpoint unregister_loop (fuel i : nat) (o : Z) (r : registry) : registry :=
  match fuel with
  | O => r
  | S fuel' =>
    match r !! i with
    | None => r
    | Some t =>
      if owner t =? o then unregister_loop fuel' i o (remove_at i r)
      else unregister_loop fuel' (S i) o r
    end
  end.

(** Every turn either shortens the rest of the array or moves past an entry. *)
Definition symbol_unregister_owner (o : Z) (r : registry) : registry :=
  unregister_loop (length r) 0 o r.

(** The first symbol of a table with the name. *)
Fixpoint find_symbol (wanted : list Z) (t : list ExportedSymbol) : option Z :=
  match t with
  | [] => None
  | s :: t' =>
    match name s with
    | Some n => if bool_decide (n = wanted) then Some (address s) else find_symbol wanted t'
    | None => find_symbol wanted t'
    end
  end.

Fixpoint find_in_tables (wanted : list Z) (r : registry) : option Z :=
  match r with
  | [] => None
  | t :: r' =>
    match find_symbol wanted (table t) with Some a => Some a | None => find_in_tables wanted r' end
  end.

(** The kernel's table first; 0 when nobody has the name. *)
Definition symbol_lookup (kernel : list ExportedSymbol) (wanted : list Z) (r : registry) : Z :=
  match find_symbol wanted kernel with
  | Some a => a
  | None => default 0 (find_in_tables wanted r)
  end.

Definition symbol_count (kernel : list ExportedSymbol) : Z := Z.of_nat (length kernel).

Definition symbol_at (kernel : list ExportedSymbol) (index : nat) : option ExportedSymbol := kernel !! index.

(** ** Properties *)

Lemma unregister_spec fuel i o r :
  (length r - i <= fuel)%nat -> Forall (fun t => negb (owner t =? o) = true) (take i r) ->
  unregister_loop fuel i o r ≡ₚ List.filter (fun t => negb (owner t =? o)) r.
Proof.
  revert i r. induction fuel as [|fuel IH]; intros i r Hf Ht; cbn [unregister_loop].
  - rewrite take_ge in Ht by lia. by rewrite filter_all.
  - destruct (r !! i) as [t|] eqn:Hi.
    + destruct (Z.eqb_spec (owner t) o) as [E|E].
      * pose proof (remove_at_length i r t Hi).
        etrans; [apply IH; [lia|by rewrite (remove_at_take _ _ _ Hi)]|].
        etrans; [|exact (filter_perm _ _ _ (remove_at_perm i r t Hi))]. cbn [List.filter].
        by rewrite (proj2 (Z.eqb_eq _ _) E).
      * apply IH; [lia|]. rewrite (take_S_r _ _ _ Hi). apply Forall_app. split; [done|].
        constructor; [|done]. by apply negb_true_iff, Z.eqb_neq.
    + apply lookup_ge_None in Hi. rewrite take_ge in Ht by lia. by rewrite filter_all.
Qed.

(** Unloading an image takes exactly its tables: [symbol_unregister_owner] leaves the
    tables of every other owner and none of that owner, whatever their order. *)
Theorem unregister_owner_exact o r :
  symbol_unregister_owner o r ≡ₚ List.filter (fun t => negb (owner t =? o)) r.
Proof. apply unregister_spec; [lia|constructor]. Qed.

Lemma find_symbol_spec wanted t : match find_symbol wanted t with
  | Some a => exists i s, t !! i = Some s /\ name s = Some wanted /\ address s = a /\
      forall j u, (j < i)%nat -> t !! j = Some u -> name u <> Some wanted
  | None => forall s, s ∈ t -> name s <> Some wanted
  end.
Proof.
  induction t as [|s t IH]; cbn [find_symbol]; [intros s Hs; by apply elem_of_nil in Hs|].
  assert (name s <> Some wanted -> match find_symbol wanted t with
    | Some a => exists i s0, (s :: t) !! i = Some s0 /\ name s0 = Some wanted /\ address s0 = a /\
        forall j u, (j < i)%nat -> (s :: t) !! j = Some u -> name u <> Some wanted
    | None => forall s0, s0 ∈ s :: t -> name s0 <> Some wanted
    end) as Hskip.
  { intros Hs. destruct (find_symbol wanted t) as [a|].
    - destruct IH as (i & u & H1 & H2 & H3 & H4). exists (S i), u. split_and!; try done.
      intros [|j] v Hj Hv; [by injection Hv as <-|]. apply (H4 j); [lia|done].
    - intros u [->|Hu]%elem_of_cons; [done|]. by apply IH. }
  destruct (name s) as [n|] eqn:En; [|by apply Hskip].
  case_bool_decide as Hn; [|by apply Hskip; congruence].
  subst n. exists 0%nat, s. split_and!; try done. lia.
Qed.

(** The kernel wins: a name the kernel exports resolves to its first entry there
    whatever images export, any other to some registered symbol of that name, and the
    lookup is 0 only when nobody exports the name (or exports it at address 0). *)
Theorem symbol_lookup_correct kernel wanted r :
  (exists s, s ∈ kernel /\ name s = Some wanted /\ symbol_lookup kernel wanted r = address s) \/
  ((forall s, s ∈ kernel -> name s <> Some wanted) /\
   ((exists t s, t ∈ r /\ s ∈ table t /\ name s = Some wanted /\ symbol_lookup kernel wanted r = address s) \/
    ((forall t s, t ∈ r -> s ∈ table t -> name s <> Some wanted) /\ symbol_lookup kernel wanted r = 0))).
Proof.
  unfold symbol_lookup. pose proof (find_symbol_spec wanted kernel) as Hk.
  destruct (find_symbol wanted kernel) as [a|].
  - left. destruct Hk as (i & s & H1 & H2 & H3 & _). exists s. split_and!; [by eapply list_elem_of_lookup_2|done|done].
  - right. split; [done|]. clear Hk. induction r as [|t r IH]; cbn [find_in_tables].
    { right. split; [|done]. intros t s Ht. by apply elem_of_nil in Ht. }
    pose proof (find_symbol_spec wanted (table t)) as Ht. destruct (find_symbol wanted (table t)) as [a|].
    + left. destruct Ht as (i & s & H1 & H2 & H3 & _). exists t, s.
      split_and!; [by left|by eapply list_elem_of_lookup_2|done|done].
    + destruct IH as [(t' & s & H1 & H2 & H3 & H4)|[H1 H2]].
      * left. exists t', s. split_and!; [by right|done|done|done].
      * right. split; [|done]. intros u s [->|Hu]%elem_of_cons Hs; [by apply Ht|by eapply H1].
Qed.
