(* ===== verification/Modules.v ===== *)
(** * The module table (src/kernel/module/module.cpp, src/include/eris/module.hpp)

    State: the array of 64 slots with everything earlier users left in them, the number
    of registered modules (the first slots), the taint flag, the export tables and the
    images given back.  What an [init] or [exit] function of a module does is its own
    business: [run_init] and [run_exit] act on a world [W] the table does not look at
    and do not call back into the table. *)

From S2P Require Import Prelude Symbols.

Inductive ModuleState := Registered | Loading | Ready | Failed.

#[export] Instance ModuleState_eq_dec : EqDecision ModuleState.
Proof. solve_decision. Defined.

Definition module_abi_version : Z := 1.
Definition max_modules : nat := 64.

(** [init] and [exit_] say whether the pointers are set; names are strings of bytes. *)
Record ModuleInfo := mkInfo {
  abi : Z; name : list Z; license : option (list Z); init : bool; exit_ : bool; deps : list (list Z)
}.

Record Module_ := mkModule {
  info : ModuleInfo; state_ : ModuleState; dependents : Z; users : Z; error : Z; image_base : Z; image_pages : Z
}.

Definition set_state (x : ModuleState) (m : Module_) : Module_ :=
  mkModule (info m) x (dependents m) (users m) (error m) (image_base m) (image_pages m).
Definition set_error (x : Z) (m : Module_) : Module_ :=
  mkModule (info m) (state_ m) (dependents m) (users m) x (image_base m) (image_pages m).
Definition set_image (base pages : Z) (m : Module_) : Module_ :=
  mkModule (info m) (state_ m) (dependents m) (users m) (error m) base pages.

(** [RefCount::take] and [RefCount::release] of the two counters. *)
Definition take_dependent (m : Module_) : Module_ :=
  mkModule (info m) (state_ m) (u32 (dependents m + 1)) (users m) (error m) (image_base m) (image_pages m).
Definition release_dependent (m : Module_) : Module_ :=
  mkModule (info m) (state_ m) (u32 (dependents m - 1)) (users m) (error m) (image_base m) (image_pages m).
Definition take_user (m : Module_) : Module_ :=
  mkModule (info m) (state_ m) (dependents m) (u32 (users m + 1)) (error m) (image_base m) (image_pages m).
Definition release_user (m : Module_) : Module_ :=
  mkModule (info m) (state_ m) (dependents m) (u32 (users m - 1)) (error m) (image_base m) (image_pages m).

(** A slot nobody used yet: everything zero, [info] null and never read. *)
Definition zero_slot : Module_ := mkModule (mkInfo 0 [] None false false []) Registered 0 0 0 0 0.

Record table W := mkTable {
  slots : list Module_; registered : nat; tainted : bool; exports : list RegisteredTable;
  released : list (Z * Z); world : W
}.
Arguments mkTable {W}. Arguments slots {W}. Arguments registered {W}. Arguments tainted {W}.
Arguments exports {W}. Arguments released {W}. Arguments world {W}.

Definition free_licenses : list (list Z) :=
  (fun s => (fun a => Z.of_nat (Ascii.nat_of_ascii a)) <$> String.list_ascii_of_string s) <$>
  ["GPL-2.0-only"; "GPL-2.0-or-later"; "GPL-3.0-only"; "GPL-3.0-or-later"; "LGPL-2.1-or-later"; "MIT";
   "BSD-2-Clause"; "BSD-3-Clause"; "Apache-2.0"]%string.

Definition module_license_is_free (l : option (list Z)) : bool :=
  match l with
  | None => false
  | Some l => existsb (fun c => bool_decide (c = l)) free_licenses
  end.

Section operations.
Context {W : Type} (run_init : ModuleInfo -> W -> Z * W) (run_exit : ModuleInfo -> W -> W).
Implicit Types (t : table W).

Definition set_slots (l : list Module_) t : table W :=
  mkTable l (registered t) (tainted t) (exports t) (released t) (world t).
Definition on_slot (i : nat) (f : Module_ -> Module_) t : table W := set_slots (alter f i (slots t)) t.
Definition set_world (w : W) t : table W :=
  mkTable (slots t) (registered t) (tainted t) (exports t) (released t) w.
Definition set_tainted t : table W :=
  mkTable (slots t) (registered t) true (exports t) (released t) (world t).

(** The modules the table has. *)
Definition active t : list Module_ := take (registered t) (slots t).

Fixpoint find_in (wanted : list Z) (l : list Module_) : option nat :=
  match l with
  | [] => None
  | m :: l => if bool_decide (name (info m) = wanted) then Some 0%nat else S <$> find_in wanted l
  end.

Definition find (wanted : list Z) t : option nat := find_in wanted (active t).

Fixpoint load_dependencies (load : nat -> table W -> option (Z * table W)) (ds : list (list Z)) t :
    option (Z * table W) :=
  match ds with
  | [] => Some (0, t)
  | d :: ds =>
    match find d t with
    | None => Some (-1, t)
    | Some j =>
      '(r, t) ← load j t;
      if negb (r =? 0) then Some (r, t) else load_dependencies load ds t
    end
  end.

(** [None] would be a dependency that is not in the table. *)
Fixpoint acquire_dependencies (ds : list (list Z)) t : option (table W) :=
  match ds with
  | [] => Some t
  | d :: ds => j ← find d t; acquire_dependencies ds (on_slot j take_dependent t)
  end.

(** The part of [load_locked] after the dependencies. *)
Definition start_module (i : nat) (m : Module_) t : option (Z * table W) :=
  let t := if module_license_is_free (license (info m)) then t else set_tainted t in
  let '(result, w) := if init (info m) then run_init (info m) (world t) else (0, world t) in
  let t := set_world w t in
  if negb (result =? 0) then Some (result, on_slot i (fun m => set_error result (set_state Failed m)) t)
  else
    t ← acquire_dependencies (deps (info m)) t;
    Some (0, on_slot i (fun m => set_error 0 (set_state Ready m)) t).

(** [None] only when the fuel is used up or a slot or dependency is missing. *)
Fixpoint load_locked (fuel depth i : nat) t : option (Z * table W) :=
  match fuel with
  | O => None
  | S fuel =>
    if (max_modules <? depth)%nat then Some (-1, t)
    else
      m ← slots t !! i;
      match state_ m with
      | Ready => Some (0, t)
      | Loading => Some (-1, t)
      | Failed => Some (error m, t)
      | Registered =>
        let t := on_slot i (set_state Loading) t in
        '(r, t) ← load_dependencies (load_locked fuel (S depth)) (deps (info m)) t;
        if negb (r =? 0) then Some (-1, on_slot i (fun m => set_error (-1) (set_state Failed m)) t)
        else start_module i m t
      end
  end.

(** The deepest call is at depth 65 and returns at once. *)
Definition load_fuel : nat := 66.

(** [None] is the panic. *)
Fixpoint release_dependencies (ds : list (list Z)) t : option (table W) :=
  match ds with
  | [] => Some t
  | d :: ds =>
    match find d t with
    | None => release_dependencies ds t
    | Some j =>
      m ← slots t !! j;
      if dependents m =? 0 then None else release_dependencies ds (on_slot j release_dependent t)
    end
  end.

(** A slot keeps the counters of whoever used it before. *)
Definition fill_slot (i : ModuleInfo) (base pages : Z) (m : Module_) : Module_ :=
  mkModule i Registered (dependents m) (users m) 0 base pages.

Definition add_slot (i : ModuleInfo) (base pages : Z) t : table W :=
  mkTable (alter (fill_slot i base pages) (registered t) (slots t)) (S (registered t)) (tainted t)
    (exports t) (released t) (world t).

Definition module_register_loaded (i : option ModuleInfo) (base pages : Z) t : Z * table W :=
  match i with
  | None => (-1, t)
  | Some i =>
    if negb (abi i =? module_abi_version) then (-1, t)
    else match find (name i) t with
    | Some _ => (-1, t)
    | None => if (max_modules <=? registered t)%nat then (-1, t) else (0, add_slot i base pages t)
    end
  end.

Fixpoint register_builtin (l : list ModuleInfo) t : table W :=
  match l with
  | [] => t
  | i :: l =>
    if (max_modules <=? registered t)%nat then register_builtin l t
    else if negb (abi i =? module_abi_version) then register_builtin l t
    else register_builtin l (add_slot i 0 0 t)
  end.

Fixpoint load_all (n i : nat) t : option (table W) :=
  match n with
  | O => Some t
  | S n => '(_, t) ← load_locked load_fuel 0 i t; load_all n (S i) t
  end.

Definition module_init_builtin (l : list ModuleInfo) t : option (table W) :=
  let t := register_builtin l t in load_all (registered t) 0 t.

Definition module_load (wanted : list Z) t : option (Z * table W) :=
  match find wanted t with None => Some (-1, t) | Some i => load_locked load_fuel 0 i t end.

(** [modules[i] = modules[--registered]]: the last slot keeps its copy. *)
Definition drop_slot (i : nat) t : option (table W) :=
  last ← slots t !! (registered t - 1)%nat;
  Some (mkTable (<[i := last]> (slots t)) (registered t - 1) (tainted t) (exports t) (released t) (world t)).

Definition module_unload (wanted : list Z) t : option (Z * table W) :=
  match find wanted t with
  | None => Some (-1, t)
  | Some i =>
    m ← slots t !! i;
    if negb (bool_decide (state_ m = Ready)) then Some (0, t)
    else if negb (dependents m =? 0) || negb (users m =? 0) then Some (-1, t)
    else
      let t := if exit_ (info m) then set_world (run_exit (info m) (world t)) t else t in
      t ← release_dependencies (deps (info m)) t;
      let t := on_slot i (set_state Registered) t in
      if image_base m =? 0 then Some (0, t)
      else
        t ← drop_slot i (on_slot i (set_image 0 0) t);
        Some (0, mkTable (slots t) (registered t) (tainted t) (symbol_unregister_owner (image_base m) (exports t))
                   (released t ++ [(image_base m, image_pages m)]) (world t))
  end.

Definition module_find (wanted : list Z) t : option nat := find wanted t.
Definition module_at (index : nat) t : option Module_ :=
  if (index <? registered t)%nat then slots t !! index else None.
Definition module_count t : nat := registered t.

Definition module_get (wanted : list Z) t : bool * table W :=
  match find wanted t with
  | None => (false, t)
  | Some i =>
    match slots t !! i with
    | Some m => if bool_decide (state_ m = Ready) then (true, on_slot i take_user t) else (false, t)
    | None => (false, t)
    end
  end.

(** [None] is the panic. *)
Definition module_put (wanted : list Z) t : option (table W) :=
  i ← find wanted t;
  m ← slots t !! i;
  if users m =? 0 then None else Some (on_slot i release_user t).

Definition kernel_tainted t : bool := tainted t.

End operations.

(** ** Who depends on whom *)

Fixpoint occurrences (d : list Z) (ds : list (list Z)) : nat :=
  match ds with [] => 0 | x :: ds => ((if bool_decide (x = d) then 1 else 0) + occurrences d ds)%nat end.

Definition is_ready (m : Module_) : bool := bool_decide (state_ m = Ready).

(** The references a module holds on the module named [d]. *)
Definition contribution (d : list Z) (m : Module_) : nat :=
  if is_ready m then occurrences d (deps (info m)) else 0%nat.

(** All references the Ready modules hold on the module named [d]. *)
Fixpoint uses (d : list Z) (l : list Module_) : nat :=
  match l with [] => 0 | m :: l => (contribution d m + uses d l)%nat end.

(** The references there would be if every module were Ready. *)
Fixpoint total (l : list Module_) : nat :=
  match l with [] => 0 | m :: l => (length (deps (info m)) + total l)%nat end.

(** What a counter has beyond the references held. *)
Definition slack (l : list Module_) (m : Module_) : Z := dependents m - Z.of_nat (uses (name (info m)) l).

Record inv {W} (t : table W) : Prop := {
  inv_length : length (slots t) = max_modules;
  inv_registered : (registered t <= max_modules)%nat;
  inv_names : NoDup ((fun m => name (info m)) <$> active t);
  inv_deps m d : m ∈ active t -> state_ m = Ready -> d ∈ deps (info m) ->
    exists k, k ∈ active t /\ name (info k) = d /\ state_ k = Ready;
  inv_failed m : m ∈ active t -> state_ m = Failed -> error m <> 0;
  inv_count m : m ∈ active t -> 0 <= slack (active t) m;
  inv_room m : m ∈ active t -> slack (active t) m + Z.of_nat (total (active t)) < 2 ^ 32;
  inv_stale m : m ∈ drop (registered t) (slots t) -> 0 <= dependents m
}.

Lemma occurrences_length d ds : (occurrences d ds <= length ds)%nat.
Proof. induction ds as [|x ds IH]; cbn; [lia|]. case_bool_decide; lia. Qed.

Lemma occurrences_elem d ds : d ∈ ds <-> (0 < occurrences d ds)%nat.
Proof.
  induction ds as [|x ds IH]; cbn; [rewrite elem_of_nil; lia|]. rewrite elem_of_cons, IH.
  case_bool_decide as E; [subst; split; [lia|by left]|]. split; [intros [->|?]; [done|lia]|right; lia].
Qed.

Lemma uses_alter d f i (l : list Module_) m : l !! i = Some m ->
  (uses d (alter f i l) + contribution d m = uses d l + contribution d (f m))%nat.
Proof.
  revert i. induction l as [|x l IH]; intros [|i] Hi; [done..| |].
  - injection Hi as ->. cbn [uses alter list_alter]. lia.
  - specialize (IH i Hi). change (alter f (S i) (x :: l)) with (x :: alter f i l).
    cbn [uses]. lia.
Qed.

Lemma uses_perm d l l' : l ≡ₚ l' -> uses d l = uses d l'.
Proof. induction 1; cbn in *; lia. Qed.

Lemma total_perm l l' : l ≡ₚ l' -> total l = total l'.
Proof. induction 1; cbn in *; lia. Qed.

Lemma total_ext (l l' : list Module_) : Forall2 (fun m m' => info m' = info m) l l' -> total l' = total l.
Proof. induction 1 as [|m m' l l' H]; cbn; [done|]. rewrite H. lia. Qed.

(** References of the Ready ones and of one that is not yet. *)
Lemma uses_total d (l : list Module_) i m : l !! i = Some m -> state_ m <> Ready ->
  (uses d l + occurrences d (deps (info m)) <= total l)%nat.
Proof.
  assert (forall l : list Module_, (uses d l <= total l)%nat) as Hle.
  { induction l0 as [|x l0 IH]; cbn in *; [lia|]. unfold contribution at 1.
    pose proof (occurrences_length d (deps (info x))). destruct (is_ready x); lia. }
  revert i. induction l as [|x l IH]; intros [|i] Hi Hr; [done..| |]; cbn in *.
  - injection Hi as ->. unfold contribution at 1, is_ready. rewrite bool_decide_eq_false_2 by done.
    pose proof (occurrences_length d (deps (info m))). specialize (Hle l). lia.
  - specialize (IH i Hi Hr). unfold contribution at 1. pose proof (occurrences_length d (deps (info x))).
    destruct (is_ready x); lia.
Qed.

Lemma uses_ready d (l : list Module_) m : m ∈ l -> state_ m = Ready -> d ∈ deps (info m) -> (0 < uses d l)%nat.
Proof.
  intros Hm Hr Hd. induction l as [|x l IH]; [by apply elem_of_nil in Hm|]. cbn.
  apply elem_of_cons in Hm as [->|Hm]; [|specialize (IH Hm); lia].
  unfold contribution at 1, is_ready. rewrite bool_decide_eq_true_2 by done. apply occurrences_elem in Hd. lia.
Qed.

Lemma uses_none d (l : list Module_) :
  (forall m, m ∈ l -> state_ m = Ready -> d ∉ deps (info m)) -> uses d l = 0%nat.
Proof.
  intros Hn. destruct (decide (uses d l = 0%nat)) as [|Hne]; [done|exfalso].
  induction l as [|x l IH]; cbn in *; [done|].
  destruct (decide (contribution d x = 0%nat)) as [E|E].
  - apply IH; [|lia]. intros m Hm. apply Hn. by right.
  - unfold contribution, is_ready in E. case_bool_decide as Hr; [|done].
    apply (Hn x); [left|done|]. apply occurrences_elem. lia.
Qed.

Section correctness.
Context {W : Type} (run_init : ModuleInfo -> W -> Z * W) (run_exit : ModuleInfo -> W -> W).
Implicit Types (t : table W).

Lemma active_length t : inv t -> length (active t) = registered t.
Proof. intros Hi. unfold active. rewrite length_take, (inv_length _ Hi). pose proof (inv_registered _ Hi). lia. Qed.

Lemma active_slot t i m : active t !! i = Some m -> slots t !! i = Some m /\ (i < registered t)%nat.
Proof. unfold active. intros Hi. by apply lookup_take_Some in Hi. Qed.

Lemma active_on_slot i f t : active (on_slot i f t) = alter f i (active t).
Proof.
  unfold active. cbn [on_slot set_slots slots registered]. apply list_eq. intros k.
  destruct (decide (k < registered t)%nat).
  - rewrite lookup_take_lt by done. destruct (decide (k = i)) as [->|Hne].
    + by rewrite !list_lookup_alter_eq, lookup_take_lt by done.
    + by rewrite !list_lookup_alter_ne, lookup_take_lt by done.
  - rewrite lookup_take_ge by lia. destruct (decide (k = i)) as [->|Hne].
    + by rewrite list_lookup_alter_eq, lookup_take_ge by lia.
    + by rewrite list_lookup_alter_ne, lookup_take_ge by (done || lia).
Qed.

Lemma find_in_spec wanted l : match find_in wanted l with
  | Some i => exists m, l !! i = Some m /\ name (info m) = wanted
  | None => forall m, m ∈ l -> name (info m) <> wanted
  end.
Proof.
  induction l as [|x l IH]; cbn; [intros m Hm; by apply elem_of_nil in Hm|].
  case_bool_decide as E; [by exists x|]. destruct (find_in wanted l) as [i|]; cbn; [exact IH|].
  intros m [->|Hm]%elem_of_cons; auto.
Qed.

Lemma find_some wanted t i : find wanted t = Some i ->
  exists m, active t !! i = Some m /\ slots t !! i = Some m /\ name (info m) = wanted.
Proof.
  unfold find. intros E. pose proof (find_in_spec wanted (active t)) as Hf. rewrite E in Hf.
  destruct Hf as (m & Hm & Hn). exists m. split; [done|]. split; [by apply active_slot|done].
Qed.

Lemma find_complete wanted t m : m ∈ active t -> name (info m) = wanted -> is_Some (find wanted t).
Proof.
  unfold find. intros Hm Hn. pose proof (find_in_spec wanted (active t)) as Hf.
  destruct (find_in wanted (active t)); [done|]. by apply Hf in Hm.
Qed.

Lemma names_inj t i j m n : inv t -> active t !! i = Some m -> active t !! j = Some n ->
  name (info m) = name (info n) -> i = j.
Proof.
  intros Hi Hm Hn E. apply (NoDup_lookup _ _ _ (name (info m)) (inv_names _ Hi)); rewrite list_lookup_fmap.
  - by rewrite Hm.
  - by rewrite Hn, E.
Qed.

(** Everything but the counters of the modules in the table. *)
Record framed t t' : Prop := {
  fr_length : length (slots t') = length (slots t);
  fr_registered : registered t' = registered t;
  fr_stale : drop (registered t) (slots t') = drop (registered t) (slots t);
  fr_exports : exports t' = exports t;
  fr_released : released t' = released t
}.

Lemma framed_refl t : framed t t.
Proof. by constructor. Qed.

Lemma framed_trans t1 t2 t3 : framed t1 t2 -> framed t2 t3 -> framed t1 t3.
Proof. intros [A1 B1 C1 D1 E1] [A2 B2 C2 D2 E2]. constructor; congruence. Qed.

Lemma framed_on_slot i f t : (i < registered t)%nat -> framed t (on_slot i f t).
Proof.
  intros Hi. constructor; cbn; [by rewrite length_alter|done| |done|done].
  apply list_eq. intros k. rewrite !lookup_drop. apply list_lookup_alter_ne. lia.
Qed.

(** Two tables that differ in what the invariant does not look at. *)
Definition alike (m m' : Module_) : Prop :=
  info m' = info m /\ dependents m' = dependents m /\ (state_ m' = Ready <-> state_ m = Ready) /\
  (state_ m' = Failed -> error m' <> 0 \/ (state_ m = Failed /\ error m' = error m)).

Lemma alike_refl m : alike m m.
Proof. repeat split; auto. Qed.

Lemma alike_uses d l l' : Forall2 alike l l' -> uses d l' = uses d l.
Proof.
  induction 1 as [|m m' l l' (Hi & _ & Hr & _) _ IH]; cbn; [done|]. rewrite IH. f_equal.
  unfold contribution, is_ready. rewrite Hi. by rewrite (bool_decide_ext _ _ Hr).
Qed.

Lemma inv_alike t t' :
  inv t -> framed t t' -> Forall2 alike (active t) (active t') -> inv t'.
Proof.
  intros Hi Hfr HF. destruct Hfr as [Hl Hr Hst _ _].
  assert (total (active t') = total (active t)) as Htot
    by (apply total_ext; eapply Forall2_impl; [exact HF|by intros m m' []]).
  assert (forall m', m' ∈ active t' -> exists m, m ∈ active t /\ alike m m') as Hback.
  { intros m' [k Hk]%list_elem_of_lookup. destruct (Forall2_lookup_r _ _ _ _ _ HF Hk) as (m & Hm & Ha).
    exists m. split; [by eapply list_elem_of_lookup_2|done]. }
  constructor.
  - by rewrite Hl, (inv_length _ Hi).
  - rewrite Hr. apply (inv_registered _ Hi).
  - replace ((fun m => name (info m)) <$> active t') with ((fun m => name (info m)) <$> active t); [apply (inv_names _ Hi)|].
    clear -HF. induction HF as [|m m' l l' (E & _) _ IH]; [done|]. rewrite !fmap_cons, E. by f_equal.
  - intros m' d Hm' Hs Hd. destruct (Hback _ Hm') as (m & Hm & (Ei & _ & Er & _)). rewrite Ei in Hd. apply Er in Hs.
    destruct (inv_deps _ Hi m d Hm Hs Hd) as (k & Hk & Hn & Hkr). apply list_elem_of_lookup in Hk as [j Hj].
    destruct (Forall2_lookup_l _ _ _ _ _ HF Hj) as (k' & Hk' & (Ei' & _ & Er' & _)). exists k'.
    split; [by eapply list_elem_of_lookup_2|]. rewrite Ei'. split; [done|]. by apply Er'.
  - intros m' Hm' Hf. destruct (Hback _ Hm') as (m & Hm & (_ & _ & _ & He)). destruct (He Hf) as [|[Hm1 ->]]; [done|].
    by apply (inv_failed _ Hi).
  - intros m' Hm'. destruct (Hback _ Hm') as (m & Hm & (Ei & Ed & _)). pose proof (inv_count _ Hi m Hm) as Hc.
    unfold slack in *. by rewrite Ei, Ed, (alike_uses _ _ _ HF).
  - intros m' Hm'. destruct (Hback _ Hm') as (m & Hm & (Ei & Ed & _)). pose proof (inv_room _ Hi m Hm) as Hc.
    unfold slack in *. by rewrite Ei, Ed, (alike_uses _ _ _ HF), Htot.
  - rewrite Hr, Hst. apply (inv_stale _ Hi).
Qed.

Lemma alter_forall2 {A} (R : A -> A -> Prop) f i (l : list A) :
  (forall x, R x x) -> (forall x, l !! i = Some x -> R x (f x)) -> Forall2 R l (alter f i l).
Proof.
  intros Hrefl Hf. apply Forall2_same_length_lookup_2; [by rewrite length_alter|]. intros k x y Hx Hy.
  destruct (decide (k = i)) as [->|Hne].
  - rewrite list_lookup_alter_eq, Hx in Hy. injection Hy as <-. by apply Hf.
  - rewrite list_lookup_alter_ne, Hx in Hy by done. by injection Hy as <-.
Qed.

Lemma inv_on_slot i f t : inv t -> (i < registered t)%nat ->
  (forall m, active t !! i = Some m -> alike m (f m)) -> inv (on_slot i f t).
Proof.
  intros Hi Hlt Hf. eapply inv_alike; [done|by apply framed_on_slot|]. rewrite active_on_slot.
  apply alter_forall2; [apply alike_refl|done].
Qed.

(** ** Counting references *)

(** [k] references per mention in [ds] more. *)
Definition shift (k : Z) (ds : list (list Z)) (m : Module_) : Module_ :=
  mkModule (info m) (state_ m) (dependents m + k * Z.of_nat (occurrences (name (info m)) ds)) (users m) (error m)
    (image_base m) (image_pages m).

Lemma shift_cons k d ds m : shift k ds (shift k [d] m) = shift k (d :: ds) m.
Proof. unfold shift. cbn. f_equal. lia. Qed.

Lemma shift_none k ds m : occurrences (name (info m)) ds = 0%nat -> shift k ds m = m.
Proof. intros E. unfold shift. rewrite E, Z.mul_0_r, Z.add_0_r. by destruct m. Qed.

Lemma alter_shift k d t j f :
  NoDup ((fun m => name (info m)) <$> active t) -> find d t = Some j ->
  (forall m, active t !! j = Some m -> f m = shift k [d] m) ->
  alter f j (active t) = shift k [d] <$> active t.
Proof.
  intros Hnd Hf Hj. destruct (find_some _ _ _ Hf) as (m & Hm & _ & Hn). apply list_eq. intros i.
  rewrite list_lookup_fmap. destruct (decide (i = j)) as [->|Hne].
  - by rewrite list_lookup_alter_eq, Hm; cbn; rewrite Hj.
  - rewrite list_lookup_alter_ne by done. destruct (active t !! i) as [x|] eqn:Hx; [|done]. cbn.
    rewrite shift_none; [done|]. cbn. rewrite bool_decide_eq_false_2; [done|]. intros E. apply Hne.
    apply (NoDup_lookup _ _ _ d Hnd); rewrite list_lookup_fmap; [by rewrite Hx; cbn; rewrite E|by rewrite Hm; cbn; rewrite Hn].
Qed.

Lemma shift_names k ds (l : list Module_) : (fun m => name (info m)) <$> (shift k ds <$> l) = (fun m => name (info m)) <$> l.
Proof. rewrite <- list_fmap_compose. by apply list_fmap_ext. Qed.

Lemma find_in_shift k d ds (l : list Module_) : find_in d (shift k ds <$> l) = find_in d l.
Proof. induction l as [|m l IH]; cbn; [done|]. by rewrite IH. Qed.

Lemma acquire_spec ds : forall t,
  NoDup ((fun m => name (info m)) <$> active t) -> (forall d, d ∈ ds -> is_Some (find d t)) ->
  (forall m, m ∈ active t -> 0 <= dependents m /\ dependents m + Z.of_nat (occurrences (name (info m)) ds) < 2 ^ 32) ->
  exists t', acquire_dependencies ds t = Some t' /\ active t' = shift 1 ds <$> active t /\ framed t t' /\
    tainted t' = tainted t /\ world t' = world t.
Proof.
  induction ds as [|d ds IH]; intros t Hnd Hfind Hb; cbn [acquire_dependencies].
  { exists t. split_and!; try done. rewrite (list_fmap_ext _ id); [by rewrite list_fmap_id|].
    intros i m _. by apply shift_none. }
  destruct (Hfind d) as [j Hj]; [by left|]. rewrite Hj. cbn [mbind option_bind].
  destruct (find_some _ _ _ Hj) as (m & Hm & _ & Hn).
  assert (active (on_slot j take_dependent t) = shift 1 [d] <$> active t) as Ha.
  { rewrite active_on_slot. apply (alter_shift 1 d t j); [done|done|]. intros x Hx. assert (x = m) as -> by congruence.
    destruct (Hb m) as [H1 H2]; [by eapply list_elem_of_lookup_2|]. unfold take_dependent, shift. cbn in *.
    rewrite Hn, bool_decide_eq_true_2 in * by done. f_equal. rewrite u32_small by lia. lia. }
  destruct (IH (on_slot j take_dependent t)) as (t' & E & Ha' & Hf' & Ht & Hw).
  - by rewrite Ha, shift_names.
  - intros x Hx. unfold find. rewrite Ha, find_in_shift. apply Hfind. by right.
  - intros x Hx. rewrite Ha in Hx. apply list_elem_of_fmap in Hx as (y & -> & Hy). destruct (Hb y Hy) as [H1 H2].
    cbn in *. case_bool_decide; lia.
  - exists t'. split_and!; [done| |eapply framed_trans; [apply framed_on_slot; by eapply active_slot|done]|done|done].
    rewrite Ha', Ha, <- list_fmap_compose. apply list_fmap_ext. intros i x _. apply shift_cons.
Qed.

Lemma release_dependencies_spec ds : forall t,
  NoDup ((fun m => name (info m)) <$> active t) ->
  (forall m, m ∈ active t -> Z.of_nat (occurrences (name (info m)) ds) <= dependents m < 2 ^ 32) ->
  exists t', release_dependencies ds t = Some t' /\ active t' = shift (-1) ds <$> active t /\ framed t t' /\
    tainted t' = tainted t /\ world t' = world t.
Proof.
  induction ds as [|d ds IH]; intros t Hnd Hb; cbn [release_dependencies].
  { exists t. split_and!; try done. rewrite (list_fmap_ext _ id); [by rewrite list_fmap_id|].
    intros i m _. by apply shift_none. }
  destruct (find d t) as [j|] eqn:Hj.
  2:{ assert (forall m, m ∈ active t -> name (info m) <> d) as Hno.
      { pose proof (find_in_spec d (active t)) as Hs. unfold find in Hj. by rewrite Hj in Hs. }
      destruct (IH t Hnd) as (t' & E & Ha' & Hrest).
      { intros m Hm. specialize (Hb m Hm). cbn in Hb. case_bool_decide; lia. }
      exists t'. split_and!; [done| |apply Hrest..]. rewrite Ha'. apply list_fmap_ext. intros i x Hx.
      rewrite <- shift_cons. f_equal. symmetry. apply shift_none. cbn.
      rewrite bool_decide_eq_false_2; [done|]. intros E'. by apply (Hno x); [eapply list_elem_of_lookup_2|]. }
  destruct (find_some _ _ _ Hj) as (m & Hm & Hs & Hn). rewrite Hs. cbn [mbind option_bind].
  pose proof (Hb m ltac:(by eapply list_elem_of_lookup_2)) as Hbm. cbn in Hbm. rewrite Hn, bool_decide_eq_true_2 in Hbm by done.
  rewrite (proj2 (Z.eqb_neq _ _)) by lia.
  assert (active (on_slot j release_dependent t) = shift (-1) [d] <$> active t) as Ha.
  { rewrite active_on_slot. apply (alter_shift (-1) d t j); [done|done|]. intros x Hx. assert (x = m) as -> by congruence.
    unfold release_dependent, shift. cbn. rewrite Hn, bool_decide_eq_true_2 by done. f_equal. rewrite u32_small by lia. lia. }
  destruct (IH (on_slot j release_dependent t)) as (t' & E & Ha' & Hf' & Ht & Hw).
  - by rewrite Ha, shift_names.
  - intros x Hx. rewrite Ha in Hx. apply list_elem_of_fmap in Hx as (y & -> & Hy). specialize (Hb y Hy).
    cbn in *. case_bool_decide; lia.
  - exists t'. split_and!; [done| |eapply framed_trans; [apply framed_on_slot; by eapply active_slot|done]|done|done].
    rewrite Ha', Ha, <- list_fmap_compose. apply list_fmap_ext. intros i x _. apply shift_cons.
Qed.

(** A module starts or stops to hold references on its dependencies. *)
Lemma inv_switch k t t' i m f :
  inv t -> active t !! i = Some m -> framed t t' ->
  active t' = alter f i (shift k (deps (info m)) <$> active t) ->
  (forall x, info (f x) = info x /\ dependents (f x) = dependents x /\ state_ (f x) <> Failed) ->
  (forall d, Z.of_nat (contribution d (f (shift k (deps (info m)) m))) =
     Z.of_nat (contribution d m) + k * Z.of_nat (occurrences d (deps (info m)))) ->
  (forall x d, x ∈ active t' -> state_ x = Ready -> d ∈ deps (info x) ->
     exists y, y ∈ active t' /\ name (info y) = d /\ state_ y = Ready) ->
  inv t'.
Proof.
  intros Hi Hm [Hl Hr Hst _ _] Ha Hf Hc Hd. set (ds := deps (info m)) in *.
  assert (Forall2 (fun x x' => info x' = info x /\ dependents x' = dependents x + k * Z.of_nat (occurrences (name (info x)) ds))
    (active t) (active t')) as HF.
  { rewrite Ha. apply Forall2_same_length_lookup_2; [by rewrite length_alter, length_fmap|]. intros j x y Hx Hy.
    destruct (decide (j = i)) as [->|Hne].
    - rewrite list_lookup_alter_eq, list_lookup_fmap, Hx in Hy. injection Hy as <-. by destruct (Hf (shift k ds x)) as (-> & -> & _).
    - rewrite list_lookup_alter_ne, list_lookup_fmap, Hx in Hy by done. by injection Hy as <-. }
  assert (forall d, Z.of_nat (uses d (active t')) = Z.of_nat (uses d (active t)) + k * Z.of_nat (occurrences d ds)) as Huse.
  { intros d. assert (uses d (shift k ds <$> active t) = uses d (active t)) as Es.
    { generalize (active t). induction l as [|x l IH]; cbn; [done|]. by rewrite IH. }
    pose proof (uses_alter d f i (shift k ds <$> active t) (shift k ds m)) as Hu. rewrite list_lookup_fmap, Hm in Hu.
    specialize (Hu eq_refl). rewrite <- Ha, Es in Hu. specialize (Hc d).
    change (contribution d (shift k ds m)) with (contribution d m) in Hu. lia. }
  assert (total (active t') = total (active t)) as Htot
    by (apply total_ext; eapply Forall2_impl; [exact HF|by intros x x' []]).
  assert (forall x', x' ∈ active t' -> exists x, x ∈ active t /\ slack (active t') x' = slack (active t) x) as Hback.
  { intros x' [j Hj]%list_elem_of_lookup. destruct (Forall2_lookup_r _ _ _ _ _ HF Hj) as (x & Hx & Ei & Ed).
    exists x. split; [by eapply list_elem_of_lookup_2|]. unfold slack. rewrite Ei, Ed, Huse. lia. }
  constructor.
  - by rewrite Hl, (inv_length _ Hi).
  - rewrite Hr. apply (inv_registered _ Hi).
  - replace ((fun m => name (info m)) <$> active t') with ((fun m => name (info m)) <$> active t); [apply (inv_names _ Hi)|].
    clear -HF. induction HF as [|x x' l l' (E & _) _ IH]; [done|]. rewrite !fmap_cons, E. by f_equal.
  - done.
  - intros x' [j Hj]%list_elem_of_lookup Hx'. rewrite Ha in Hj. destruct (decide (j = i)) as [->|Hne].
    + rewrite list_lookup_alter_eq, list_lookup_fmap, Hm in Hj. injection Hj as <-. by destruct (Hf (shift k ds m)) as (_ & _ & ?).
    + rewrite list_lookup_alter_ne, list_lookup_fmap in Hj by done. destruct (active t !! j) as [x|] eqn:Hx; [|done].
      injection Hj as <-. apply (inv_failed _ Hi x); [by eapply list_elem_of_lookup_2|done].
  - intros x' Hx'. destruct (Hback _ Hx') as (x & Hx & ->). by apply (inv_count _ Hi).
  - intros x' Hx'. destruct (Hback _ Hx') as (x & Hx & ->). rewrite Htot. by apply (inv_room _ Hi).
  - rewrite Hr, Hst. apply (inv_stale _ Hi).
Qed.

(** ** Loading *)

Definition grown (m m' : Module_) : Prop :=
  info m' = info m /\ users m' = users m /\ image_base m' = image_base m /\ image_pages m' = image_pages m /\
  (state_ m = Ready -> state_ m' = Ready) /\ (state_ m' = Loading <-> state_ m = Loading).

Definition grows t t' : Prop := framed t t' /\ Forall2 grown (active t) (active t').

Fixpoint loading (l : list Module_) : nat :=
  match l with [] => 0 | m :: l => ((if bool_decide (state_ m = Loading) then 1 else 0) + loading l)%nat end.

Lemma loading_length l : (loading l <= length l)%nat.
Proof. induction l as [|m l IH]; cbn; [lia|]. case_bool_decide; lia. Qed.

Lemma loading_zero l : loading l = 0%nat <-> forall m, m ∈ l -> state_ m <> Loading.
Proof.
  induction l as [|m l IH]; cbn [loading]; [split; [|done]; intros _ m Hm; by apply elem_of_nil in Hm|].
  destruct (decide (state_ m = Loading)) as [E|E]; [rewrite bool_decide_eq_true_2 by done|rewrite bool_decide_eq_false_2 by done].
  - split; [lia|]. intros Hall. exfalso. by apply (Hall m); [left|].
  - rewrite Nat.add_0_l, IH. split; [|intros Hall x Hx; apply Hall; by right].
    intros Hall x [->|Hx]%elem_of_cons; auto.
Qed.

Lemma loading_grown l l' : Forall2 grown l l' -> loading l' = loading l.
Proof.
  induction 1 as [|m m' l l' (_ & _ & _ & _ & _ & Hl) _ IH]; cbn; [done|]. rewrite IH. by rewrite (bool_decide_ext _ _ Hl).
Qed.

Lemma loading_start (l : list Module_) i m : l !! i = Some m -> state_ m <> Loading ->
  loading (alter (set_state Loading) i l) = S (loading l).
Proof.
  revert i. induction l as [|x l IH]; intros [|i] Hi Hs; [done..| |].
  - injection Hi as ->. change (alter _ 0%nat (m :: l)) with (set_state Loading m :: l). cbn [loading].
    rewrite (bool_decide_eq_false_2 (state_ m = Loading)), bool_decide_eq_true_2 by done. done.
  - change (alter _ (S i) (x :: l)) with (x :: alter (set_state Loading) i l). cbn [loading]. rewrite (IH i Hi Hs). lia.
Qed.

Lemma grown_refl m : grown m m.
Proof. by repeat split. Qed.

Lemma grown_trans m1 m2 m3 : grown m1 m2 -> grown m2 m3 -> grown m1 m3.
Proof. intros (A1 & B1 & C1 & D1 & E1 & F1) (A2 & B2 & C2 & D2 & E2 & F2). repeat split; try congruence; tauto. Qed.

Lemma grows_refl t : grows t t.
Proof. split; [apply framed_refl|]. induction (active t); constructor; [apply grown_refl|done]. Qed.

Lemma grows_trans t1 t2 t3 : grows t1 t2 -> grows t2 t3 -> grows t1 t3.
Proof.
  intros [F1 G1] [F2 G2]. split; [by eapply framed_trans|]. clear F1 F2. revert G2. generalize (active t3).
  induction G1 as [|x y l1 l2 Hxy _ IH]; intros l3 G2; inversion G2; subst; constructor; [by eapply grown_trans|by apply IH].
Qed.

Lemma grows_ready t t' m d : grows t t' -> m ∈ active t -> name (info m) = d -> state_ m = Ready ->
  exists k, k ∈ active t' /\ name (info k) = d /\ state_ k = Ready.
Proof.
  intros [_ HF] [j Hj]%list_elem_of_lookup Hn Hs. destruct (Forall2_lookup_l _ _ _ _ _ HF Hj) as (k & Hk & Hg).
  exists k. destruct Hg as (E & _ & _ & _ & Hr & _). split; [by eapply list_elem_of_lookup_2|]. rewrite E. auto.
Qed.

(** What one call of [load_locked] on slot [i] comes to. *)
Definition loads (i : nat) (t : table W) (o : option (Z * table W)) : Prop :=
  exists r t', o = Some (r, t') /\ inv t' /\ grows t t' /\
    (r = 0 -> exists m, active t' !! i = Some m /\ state_ m = Ready).

Lemma load_dependencies_spec load n ds : forall t,
  (forall j t m, inv t -> (n <= loading (active t))%nat -> active t !! j = Some m -> loads j t (load j t)) ->
  inv t -> (n <= loading (active t))%nat ->
  exists r t', load_dependencies load ds t = Some (r, t') /\ inv t' /\ grows t t' /\
    (r = 0 -> forall d, d ∈ ds -> exists k, k ∈ active t' /\ name (info k) = d /\ state_ k = Ready).
Proof.
  induction ds as [|d ds IH]; intros t Hload Hi Hn; cbn [load_dependencies].
  { exists 0, t. split_and!; [done|done|apply grows_refl|]. intros _ d Hd. by apply elem_of_nil in Hd. }
  destruct (find d t) as [j|] eqn:Ej.
  2:{ exists (-1), t. split_and!; [done|done|apply grows_refl|done]. }
  destruct (find_some _ _ _ Ej) as (m & Hm & _ & Hname).
  destruct (Hload j t m Hi Hn Hm) as (r & t1 & E & Hi1 & Hg1 & Hr1). rewrite E. cbn [mbind option_bind].
  destruct (Z.eqb_spec r 0) as [->|Hr]; cbn [negb].
  2:{ exists r, t1. split_and!; [done|done|done|done]. }
  destruct (IH t1 Hload Hi1) as (r2 & t2 & E2 & Hi2 & Hg2 & Hr2).
  { destruct Hg1 as [_ HF]. by rewrite (loading_grown _ _ HF). }
  exists r2, t2. split_and!; [done|done|by eapply grows_trans|].
  intros -> x [->|Hx]%elem_of_cons; [|by apply Hr2]. destruct (Hr1 eq_refl) as (m1 & Hm1 & Hs1).
  eapply grows_ready; [exact Hg2|by eapply list_elem_of_lookup_2| |done].
  destruct Hg1 as [_ HF]. destruct (Forall2_lookup_l _ _ _ _ _ HF Hm) as (m1' & Hm1' & (Ei & _)).
  assert (m1' = m1) as -> by congruence. by rewrite Ei.
Qed.

(** The end of a load: [m] is the record of slot [i] when the load began. *)
Lemma start_spec i m t x :
  inv t -> active t !! i = Some x -> info x = info m -> state_ x = Loading ->
  (forall d, d ∈ deps (info m) -> exists k, k ∈ active t /\ name (info k) = d /\ state_ k = Ready) ->
  exists r t', start_module run_init i m t = Some (r, t') /\ inv t' /\ framed t t' /\
    (exists m', active t' !! i = Some m' /\ info m' = info x /\ users m' = users x /\ image_base m' = image_base x /\
       image_pages m' = image_pages x /\ state_ m' = (if r =? 0 then Ready else Failed)) /\
    (forall j y, j <> i -> active t !! j = Some y ->
       exists y', active t' !! j = Some y' /\ grown y y' /\ state_ y' = state_ y).
Proof.
  intros Hi Hx Ex Hs Hdeps. pose proof (proj2 (active_slot _ _ _ Hx)) as Hlt.
  unfold start_module. set (t1 := if module_license_is_free (license (info m)) then t else set_tainted t).
  destruct (if init (info m) then run_init (info m) (world t1) else (0, world t1)) as [result w].
  set (t2 := set_world w t1).
  assert (slots t2 = slots t /\ registered t2 = registered t) as [Hsl Hrg] by (unfold t2, t1; by destruct (module_license_is_free _)).
  assert (active t2 = active t) as Ha by (unfold active; by rewrite Hsl, Hrg).
  assert (framed t t2) as Hfr by (constructor; rewrite ?Hsl, ?Hrg; try done; unfold t2, t1; by destruct (module_license_is_free _)).
  assert (inv t2) as Hi2.
  { eapply inv_alike; [exact Hi|done|]. rewrite Ha. clear. induction (active t); constructor; [apply alike_refl|done]. }
  rewrite <- Ha in Hx. destruct (Z.eqb_spec result 0) as [->|Hne]; cbn [negb].
  - (* acquired *)
    assert (forall y, y ∈ active t2 -> 0 <= dependents y /\
      dependents y + Z.of_nat (occurrences (name (info y)) (deps (info m))) < 2 ^ 32) as Hb.
    { intros y Hy. pose proof (inv_count _ Hi2 y Hy) as Hc. pose proof (inv_room _ Hi2 y Hy) as Hr.
      pose proof (uses_total (name (info y)) (active t2) i x Hx) as Hu. rewrite Ex in Hu. unfold slack in *.
      rewrite Hs in Hu. specialize (Hu ltac:(done)). lia. }
    destruct (acquire_spec (deps (info m)) t2 (inv_names _ Hi2)) as (t3 & E & Ha3 & Hf3 & _ & _).
    { intros d Hd. destruct (Hdeps d Hd) as (k & Hk & Hn & _). apply (find_complete d t2 k); [by rewrite Ha|done]. }
    { exact Hb. }
    rewrite E. cbn [mbind option_bind].
    set (f := fun m => set_error 0 (set_state Ready m)). exists 0, (on_slot i f t3).
    assert (active (on_slot i f t3) = alter f i (shift 1 (deps (info x)) <$> active t2)) as Ha4
      by (rewrite active_on_slot, Ha3, Ex; done).
    split; [done|]. split_and!.
    + eapply (inv_switch 1 t2 (on_slot i f t3) i x f Hi2 Hx); [|exact Ha4|done| |].
      { eapply framed_trans; [exact Hf3|]. apply framed_on_slot. by rewrite (fr_registered _ _ Hf3), Hrg. }
      * intros d. unfold contribution, is_ready. rewrite (bool_decide_eq_true_2 (state_ (f _) = Ready)) by done.
        rewrite bool_decide_eq_false_2 by congruence. cbn [info f set_error set_state shift]. lia.
      * assert (forall y, y ∈ active t2 -> state_ y = Ready -> exists z, z ∈ active (on_slot i f t3) /\ name (info z) = name (info y) /\ state_ z = Ready) as Hkeep.
        { intros y [j Hj]%list_elem_of_lookup Hy. exists (if decide (j = i) then f (shift 1 (deps (info x)) y) else shift 1 (deps (info x)) y).
          rewrite Ha4. split; [|by case_decide]. apply (list_elem_of_lookup_2 _ j). case_decide as Hd.
          - subst. by rewrite list_lookup_alter_eq, list_lookup_fmap, Hj.
          - by rewrite list_lookup_alter_ne, list_lookup_fmap, Hj. }
        intros y d [j Hj]%list_elem_of_lookup Hy Hd. rewrite Ha4 in Hj. destruct (decide (j = i)) as [->|Hji].
        -- rewrite list_lookup_alter_eq, list_lookup_fmap, Hx in Hj. injection Hj as <-. cbn in Hd. rewrite Ex in Hd.
           destruct (Hdeps d Hd) as (k & Hk & Hn & Hkr). rewrite <- Ha in Hk. destruct (Hkeep k Hk Hkr) as (z & Hz & E1 & E2).
           exists z. by rewrite E1.
        -- rewrite list_lookup_alter_ne, list_lookup_fmap in Hj by done.
           destruct (active t2 !! j) as [y0|] eqn:Hy0; [|done]. injection Hj as <-. cbn in Hd, Hy.
           destruct (inv_deps _ Hi2 y0 d) as (k & Hk & Hn & Hkr); [by eapply list_elem_of_lookup_2|done|done|].
           destruct (Hkeep k Hk Hkr) as (z & Hz & E1 & E2). exists z. by rewrite E1.
    + eapply framed_trans; [exact Hfr|]. eapply framed_trans; [exact Hf3|]. apply framed_on_slot.
      rewrite (fr_registered _ _ Hf3), Hrg. done.
    + exists (f (shift 1 (deps (info x)) x)). rewrite Ha4, list_lookup_alter_eq, list_lookup_fmap, Hx. done.
    + intros j y Hji Hj. rewrite <- Ha in Hj. exists (shift 1 (deps (info x)) y).
      rewrite Ha4, list_lookup_alter_ne, list_lookup_fmap, Hj by done. split; [done|]. by repeat split.
  - (* failed *)
    set (f := fun m => set_error result (set_state Failed m)). exists result, (on_slot i f t2). split; [done|].
    split_and!.
    + apply inv_on_slot; [done|by rewrite Hrg|]. intros y Hy. rewrite Hx in Hy. injection Hy as <-. repeat split; cbn; [done|congruence|by left].
    + eapply framed_trans; [exact Hfr|]. apply framed_on_slot. by rewrite Hrg.
    + exists (f x). rewrite active_on_slot, list_lookup_alter_eq, Hx. rewrite (proj2 (Z.eqb_neq _ _) Hne). done.
    + intros j y Hji Hj. exists y. rewrite <- Ha in Hj. rewrite active_on_slot, list_lookup_alter_ne by done.
      split_and!; [done|apply grown_refl|done].
Qed.

(** From the table before a load to the one after it, over the one with the module
    marked Loading. *)
Lemma grows_close i t t2 t3 m x m3 :
  active t !! i = Some m -> state_ m = Registered -> grows (on_slot i (set_state Loading) t) t2 ->
  framed t2 t3 -> length (active t3) = length (active t2) -> active t2 !! i = Some x -> active t3 !! i = Some m3 ->
  info m3 = info x -> users m3 = users x -> image_base m3 = image_base x -> image_pages m3 = image_pages x ->
  state_ m3 <> Loading ->
  (forall j y, j <> i -> active t2 !! j = Some y -> exists y', active t3 !! j = Some y' /\ grown y y') ->
  grows t t3.
Proof.
  intros Hm Hs [Hf2 HF] Hf3 Hl Hx Hm3 E1 E2 E3 E4 Hns Hother. pose proof (proj2 (active_slot _ _ _ Hm)) as Hlt.
  split; [eapply framed_trans; [by apply framed_on_slot|by eapply framed_trans]|].
  apply Forall2_same_length_lookup_2.
  { rewrite Hl, <- (Forall2_length _ _ _ HF), active_on_slot. by rewrite length_alter. }
  intros j y z Hy Hz. destruct (decide (j = i)) as [->|Hne].
  - assert (y = m) as -> by congruence. assert (z = m3) as -> by congruence.
    assert (active (on_slot i (set_state Loading) t) !! i = Some (set_state Loading m)) as H1
      by (by rewrite active_on_slot, list_lookup_alter_eq, Hm).
    destruct (Forall2_lookup_lr _ _ _ _ _ _ HF H1 Hx) as (F1 & F2 & F3 & F4 & _). cbn in *.
    repeat split; try congruence.
  - assert (active (on_slot i (set_state Loading) t) !! j = Some y) as H1
      by (by rewrite active_on_slot, list_lookup_alter_ne).
    destruct (Forall2_lookup_l _ _ _ _ _ HF H1) as (y2 & Hy2 & G1). destruct (Hother j y2 Hne Hy2) as (y3 & Hy3 & G2).
    assert (z = y3) as -> by congruence. by eapply grown_trans.
Qed.

Lemma framed_active_length t t' : framed t t' -> length (active t') = length (active t).
Proof. intros Hf. unfold active. by rewrite !length_take, (fr_length _ _ Hf), (fr_registered _ _ Hf). Qed.

(** A call completes whatever the dependencies are, and the depth limit is never what
    stops it: a module on the way is Loading, and there are at most 64. *)
Lemma load_spec fuel : forall depth i t m,
  inv t -> (load_fuel <= fuel + depth)%nat -> (depth <= loading (active t))%nat -> active t !! i = Some m ->
  loads i t (load_locked run_init fuel depth i t).
Proof.
  induction fuel as [|fuel IH]; intros depth i t m Hi Hfu Hd Hm;
    pose proof (loading_length (active t)) as Hll; rewrite (active_length _ Hi) in Hll;
    pose proof (inv_registered _ Hi) as Hreg; unfold load_fuel, max_modules in *; [lia|].
  cbn [load_locked]. rewrite (proj2 (Nat.ltb_ge _ _)) by (unfold max_modules; lia).
  destruct (active_slot _ _ _ Hm) as [Hslot Hlt]. rewrite Hslot. cbn [mbind option_bind].
  destruct (state_ m) eqn:Hs.
  2:{ exists (-1), t. split_and!; [done|done|apply grows_refl|done]. }
  2:{ exists 0, t. split_and!; [done|done|apply grows_refl|]. intros _. by exists m. }
  2:{ exists (error m), t. split_and!; [done|done|apply grows_refl|]. intros E. exfalso.
      by apply (inv_failed _ Hi m); [eapply list_elem_of_lookup_2|..]. }
  set (t1 := on_slot i (set_state Loading) t).
  assert (inv t1) as Hi1.
  { apply inv_on_slot; [done|done|]. intros y Hy. assert (y = m) as -> by congruence. repeat split; cbn; congruence. }
  destruct (load_dependencies_spec (load_locked run_init fuel (S depth)) (S depth) (deps (info m)) t1)
    as (r & t2 & E & Hi2 & Hg2 & Hr2); [|done| |].
  { intros j t' y Hi' Hn Hy. eapply IH; [done| |done|exact Hy]. unfold load_fuel. lia. }
  { unfold t1. rewrite active_on_slot, (loading_start _ _ m); [lia|done|congruence]. }
  rewrite E. cbn [mbind option_bind].
  assert (active t1 !! i = Some (set_state Loading m)) as Hx1 by (unfold t1; by rewrite active_on_slot, list_lookup_alter_eq, Hm).
  destruct (Forall2_lookup_l _ _ _ _ _ (proj2 Hg2) Hx1) as (x & Hx & (Ei & _ & _ & _ & _ & Hxl)).
  assert (state_ x = Loading) as Hsx by by apply Hxl. pose proof (proj2 (active_slot _ _ _ Hx)) as Hlt2.
  destruct (Z.eqb_spec r 0) as [->|Hr]; cbn [negb].
  - destruct (start_spec i m t2 x Hi2 Hx Ei Hsx (Hr2 eq_refl)) as (r & t3 & E3 & Hi3 & Hf3 & (m3 & Hm3 & H1 & H2 & H3 & H4 & H5) & Ho').
    assert (forall j y, j <> i -> active t2 !! j = Some y -> exists y', active t3 !! j = Some y' /\ grown y y') as Ho
      by (intros j y Hne Hy; destruct (Ho' j y Hne Hy) as (y' & ? & ? & _); eauto).
    exists r, t3. split_and!; [done|done| |].
    + eapply (grows_close i t t2 t3 m x m3); try done; [by apply framed_active_length|]. rewrite H5. by destruct (r =? 0).
    + intros ->. by exists m3.
  - set (f := fun m => set_error (-1) (set_state Failed m)). exists (-1), (on_slot i f t2). split_and!; [done| | |done].
    + apply inv_on_slot; [done|done|]. intros y Hy. assert (y = x) as -> by congruence. repeat split; cbn; [done|congruence|by left].
    + eapply (grows_close i t t2 _ m x (f x)); try done; [by apply framed_on_slot|by rewrite active_on_slot, length_alter| |].
      * by rewrite active_on_slot, list_lookup_alter_eq, Hx.
      * intros j y Hne Hy. exists y. rewrite active_on_slot, list_lookup_alter_ne by done. split; [done|apply grown_refl].
Qed.

(** ** Unloading *)

(** Taking out a module that is not Ready; the vacated slot keeps a copy of the last. *)
Lemma inv_drop i t t' m :
  inv t -> active t !! i = Some m -> state_ m <> Ready -> drop_slot i t = Some t' ->
  inv t' /\ m :: active t' ≡ₚ active t.
Proof.
  intros Hi Hm Hs E. destruct (active_slot _ _ _ Hm) as [_ Hlt]. pose proof (active_length _ Hi) as Hlen.
  pose proof (inv_length _ Hi) as Hsl. pose proof (inv_registered _ Hi) as Hreg.
  unfold drop_slot in E. destruct (slots t !! (registered t - 1)%nat) as [x|] eqn:Hx; [|done]. injection E as <-.
  set (t' := mkTable _ _ _ _ _ _).
  assert (active t' = remove_at i (active t)) as Ha.
  { unfold remove_at. rewrite last_lookup, Hlen. replace (active t !! pred (registered t)) with (Some x).
    2:{ unfold active. rewrite lookup_take_lt by lia. by rewrite <- Hx; f_equal; lia. }
    unfold t', active. cbn [slots registered]. apply list_eq. intros k. destruct (decide (k < registered t - 1)%nat).
    - rewrite !lookup_take_lt by lia. destruct (decide (k = i)) as [->|Hne].
      + by rewrite !list_lookup_insert_eq by (rewrite ?length_take; lia).
      + by rewrite !list_lookup_insert_ne, lookup_take_lt by (done || lia).
    - by rewrite !lookup_take_ge by lia. }
  pose proof (remove_at_perm i (active t) m Hm) as Hp. rewrite <- Ha in Hp. split; [|done].
  assert (forall y, y ∈ active t' -> y ∈ active t) as Hin by (intros y Hy; rewrite <- Hp; by right).
  assert (forall d, uses d (active t') = uses d (active t)) as Hu.
  { intros d. rewrite <- (uses_perm d _ _ Hp). cbn [uses]. unfold contribution, is_ready. by rewrite bool_decide_eq_false_2. }
  assert (total (active t') <= total (active t))%nat as Ht by (rewrite <- (total_perm _ _ Hp); cbn; lia).
  constructor.
  - cbn. by rewrite length_insert.
  - cbn. lia.
  - pose proof (inv_names _ Hi) as Hnd. rewrite <- (fmap_Permutation _ _ _ Hp) in Hnd. cbn in Hnd. by apply NoDup_cons in Hnd as [_ ?].
  - intros y d Hy Hr Hd. destruct (inv_deps _ Hi y d (Hin y Hy) Hr Hd) as (k & Hk & Hn & Hkr).
    exists k. split; [|done]. rewrite <- Hp in Hk. apply elem_of_cons in Hk as [->|Hk]; [congruence|done].
  - intros y Hy. apply (inv_failed _ Hi), Hin, Hy.
  - intros y Hy. unfold slack. rewrite Hu. apply (inv_count _ Hi), Hin, Hy.
  - intros y Hy. unfold slack. rewrite Hu. pose proof (inv_room _ Hi y (Hin y Hy)) as Hr. unfold slack in Hr. lia.
  - intros y [k Hk]%list_elem_of_lookup. rewrite lookup_drop in Hk. unfold t' in Hk. cbn [slots registered] in Hk.
    destruct (decide (k = 0%nat)) as [->|Hk0]; [|rewrite list_lookup_insert_ne in Hk by lia].
    + assert (x = y) as ->.
      { rewrite Nat.add_0_r in Hk. destruct (decide (i = (registered t - 1)%nat)) as [E|Hne].
        - rewrite E, list_lookup_insert_eq in Hk by lia. congruence.
        - rewrite list_lookup_insert_ne in Hk by done. congruence. }
      assert (active t !! (registered t - 1)%nat = Some y) as Hy by (unfold active; by rewrite lookup_take_lt by lia).
      pose proof (inv_count _ Hi y ltac:(by eapply list_elem_of_lookup_2)) as Hc. unfold slack in Hc. lia.
    + apply (inv_stale _ Hi), (list_elem_of_lookup_2 _ (k - 1)). rewrite lookup_drop, <- Hk. f_equal. lia.
Qed.

(** A Ready module nobody holds a reference on stops, and gives its references back. *)
Lemma stop_spec i m t :
  inv t -> active t !! i = Some m -> state_ m = Ready -> dependents m = 0 ->
  exists t2, release_dependencies (deps (info m)) t = Some t2 /\
    let t3 := on_slot i (set_state Registered) t2 in
    inv t3 /\ framed t t3 /\ active t3 = alter (set_state Registered) i (shift (-1) (deps (info m)) <$> active t).
Proof.
  intros Hi Hm Hs Hd. destruct (active_slot _ _ _ Hm) as [_ Hlt].
  assert (m ∈ active t) as Hin by by eapply list_elem_of_lookup_2.
  assert (uses (name (info m)) (active t) = 0%nat) as Hu.
  { pose proof (inv_count _ Hi m Hin) as Hc. unfold slack in Hc. lia. }
  destruct (release_dependencies_spec (deps (info m)) t (inv_names _ Hi)) as (t2 & E & Ha2 & Hf2 & _).
  { intros x Hx. pose proof (inv_count _ Hi x Hx) as Hc. pose proof (inv_room _ Hi x Hx) as Hr. unfold slack in *.
    assert (forall l : list Module_, m ∈ l -> (occurrences (name (info x)) (deps (info m)) <= uses (name (info x)) l <= total l)%nat) as Hle.
    { clear -Hs. intros l Hl. assert (forall l : list Module_, (uses (name (info x)) l <= total l)%nat) as Hall.
      { induction l0 as [|y l0 IH]; cbn; [lia|]. unfold contribution at 1.
        pose proof (occurrences_length (name (info x)) (deps (info y))). destruct (is_ready y); lia. }
      split; [|done]. induction l as [|y l IH]; [by apply elem_of_nil in Hl|]. cbn.
      apply elem_of_cons in Hl as [<-|Hl]; [|specialize (IH Hl); lia].
      unfold contribution, is_ready. rewrite bool_decide_eq_true_2 by done. lia. }
    specialize (Hle _ Hin). lia. }
  exists t2. split; [done|]. intros t3. assert (framed t t3) as Hf3.
  { eapply framed_trans; [exact Hf2|]. apply framed_on_slot. by rewrite (fr_registered _ _ Hf2). }
  assert (active t3 = alter (set_state Registered) i (shift (-1) (deps (info m)) <$> active t)) as Ha3
    by (unfold t3; rewrite active_on_slot, Ha2; done).
  split_and!; [|done|done]. eapply (inv_switch (-1) t t3 i m); [done|done|done|exact Ha3|done| |].
  - intros d. unfold contribution, is_ready. rewrite (bool_decide_eq_false_2 (state_ (set_state _ _) = Ready)) by done.
    rewrite bool_decide_eq_true_2 by done. lia.
  - intros x d [j Hj]%list_elem_of_lookup Hx Hdx. rewrite Ha3 in Hj. destruct (decide (j = i)) as [->|Hji].
    { rewrite list_lookup_alter_eq, list_lookup_fmap, Hm in Hj. by injection Hj as <-. }
    rewrite list_lookup_alter_ne, list_lookup_fmap in Hj by done.
    destruct (active t !! j) as [y|] eqn:Hy; [|done]. injection Hj as <-. cbn in Hdx, Hx.
    destruct (inv_deps _ Hi y d) as (k & Hk & Hn & Hkr); [by eapply list_elem_of_lookup_2|done|done|].
    exists (shift (-1) (deps (info m)) k). split; [|done]. apply list_elem_of_lookup in Hk as [l Hl].
    apply (list_elem_of_lookup_2 _ l). rewrite Ha3, list_lookup_alter_ne, list_lookup_fmap, Hl; [done|].
    intros <-. assert (k = m) as -> by congruence. subst d.
    pose proof (uses_ready (name (info m)) (active t) y) as Hpos. rewrite Hu in Hpos.
    specialize (Hpos ltac:(by eapply list_elem_of_lookup_2) Hx Hdx). lia.
Qed.

(** What [module_unload] does, case by case. *)
Definition unloads (wanted : list Z) (t t' : table W) (r : Z) : Prop :=
  match find wanted t with
  | None => r = -1 /\ t' = t
  | Some i => exists m, active t !! i = Some m /\ name (info m) = wanted /\
      ((state_ m <> Ready /\ r = 0 /\ t' = t) \/
       (state_ m = Ready /\ (dependents m <> 0 \/ users m <> 0) /\ r = -1 /\ t' = t) \/
       (state_ m = Ready /\ dependents m = 0 /\ users m = 0 /\ r = 0 /\
        if image_base m =? 0 then released t' = released t /\ exports t' = exports t
        else released t' = released t ++ [(image_base m, image_pages m)] /\
             exports t' = symbol_unregister_owner (image_base m) (exports t) /\ find wanted t' = None))
  end.

Lemma unload_spec wanted t : inv t -> loading (active t) = 0%nat ->
  exists r t', module_unload run_exit wanted t = Some (r, t') /\ inv t' /\ loading (active t') = 0%nat /\ unloads wanted t t' r.
Proof.
  intros Hi Hl. unfold module_unload, unloads. destruct (find wanted t) as [i|] eqn:Ef.
  2:{ by exists (-1), t. }
  destruct (find_some _ _ _ Ef) as (m & Hm & Hsl & Hn). rewrite Hsl. cbn [mbind option_bind].
  destruct (decide (state_ m = Ready)) as [Hs|Hs].
  2:{ rewrite bool_decide_eq_false_2 by done. exists 0, t. split_and!; try done. exists m. split_and!; try done. by left. }
  rewrite bool_decide_eq_true_2 by done. cbn [negb].
  destruct (Z.eqb_spec (dependents m) 0) as [Hd|Hd]; cbn [negb orb].
  2:{ exists (-1), t. split_and!; try done. exists m. split_and!; try done. right; left. by split_and!; [|left|..]. }
  destruct (Z.eqb_spec (users m) 0) as [Hu|Hu]; cbn [negb].
  2:{ exists (-1), t. split_and!; try done. exists m. split_and!; try done. right; left. by split_and!; [|right|..]. }
  set (t1 := if exit_ (info m) then _ else t).
  assert (active t1 = active t /\ framed t t1) as [Ha1 Hf1] by (unfold t1; destruct (exit_ (info m)); by split).
  assert (inv t1) as Hi1.
  { eapply inv_alike; [exact Hi|exact Hf1|]. rewrite Ha1. clear. induction (active t); constructor; [apply alike_refl|done]. }
  rewrite <- Ha1 in Hm. destruct (stop_spec i m t1 Hi1 Hm Hs Hd) as (t2 & E2 & Hi3 & Hf3 & Ha3). rewrite E2. cbn [mbind option_bind].
  set (t3 := on_slot i (set_state Registered) t2) in *.
  assert (loading (active t3) = 0%nat) as Hl3.
  { rewrite loading_zero in Hl |- *. rewrite Ha3. intros x [j Hj]%list_elem_of_lookup. destruct (decide (j = i)) as [->|Hne].
    - rewrite list_lookup_alter_eq, list_lookup_fmap, Hm in Hj. by injection Hj as <-.
    - rewrite list_lookup_alter_ne, list_lookup_fmap in Hj by done. destruct (active t1 !! j) as [y|] eqn:Hy; [|done].
      injection Hj as <-. apply (Hl y). rewrite <- Ha1. by eapply list_elem_of_lookup_2. }
  assert (active t3 !! i = Some (set_state Registered (shift (-1) (deps (info m)) m))) as Hm3
    by (rewrite Ha3, list_lookup_alter_eq, list_lookup_fmap, Hm; done).
  destruct (Z.eqb_spec (image_base m) 0) as [Hb|Hb].
  - exists 0, t3. split_and!; [done|done|done|]. exists m. split_and!; [by rewrite <- Ha1|done|]. right; right.
    pose proof (fr_released _ _ Hf3). pose proof (fr_released _ _ Hf1). pose proof (fr_exports _ _ Hf3). pose proof (fr_exports _ _ Hf1).
    rewrite (proj2 (Z.eqb_eq _ _) Hb). split_and!; congruence.
  - set (t4 := on_slot i (set_image 0 0) t3). pose proof (proj2 (active_slot _ _ _ Hm3)) as Hlt3.
    assert (inv t4) as Hi4 by (apply inv_on_slot; [done|done|]; intros y _; repeat split; auto).
    assert (active t4 !! i = Some (set_image 0 0 (set_state Registered (shift (-1) (deps (info m)) m)))) as Hm4
      by (unfold t4; rewrite active_on_slot, list_lookup_alter_eq, Hm3; done).
    assert (loading (active t4) = 0%nat) as Hl4.
    { unfold t4. rewrite active_on_slot, loading_zero in *. intros x [j Hj]%list_elem_of_lookup. destruct (decide (j = i)) as [->|Hne].
      - rewrite list_lookup_alter_eq, Hm3 in Hj. by injection Hj as <-.
      - rewrite list_lookup_alter_ne in Hj by done. apply Hl3. by eapply list_elem_of_lookup_2. }
    assert (is_Some (drop_slot i t4)) as [t5 E5].
    { unfold drop_slot. destruct (slots t4 !! (registered t4 - 1)%nat) eqn:E; [by eexists|]. apply lookup_ge_None in E.
      destruct (active_slot _ _ _ Hm4). pose proof (inv_length _ Hi4). pose proof (inv_registered _ Hi4). lia. }
    destruct (inv_drop i t4 t5 _ Hi4 Hm4 ltac:(done) E5) as [Hi5 Hp]. rewrite E5. cbn [mbind option_bind].
    assert (released t5 = released t4 /\ exports t5 = exports t4) as [Er Ee].
    { unfold drop_slot in E5. destruct (slots t4 !! _); [|done]. by injection E5 as <-. }
    eexists 0, _. split; [done|]. split_and!; [by destruct Hi5; constructor| |].
    + unfold active. cbn [slots registered]. fold (active t5). rewrite loading_zero in *. intros x Hx. apply Hl4. rewrite <- Hp. by right.
    + exists m. split_and!; [by rewrite <- Ha1|done|]. right; right. rewrite (proj2 (Z.eqb_neq _ _) Hb). cbn [released exports]. rewrite Er, Ee. unfold t4. cbn [released exports on_slot set_slots].
      rewrite (fr_released _ _ Hf3), (fr_released _ _ Hf1), (fr_exports _ _ Hf3), (fr_exports _ _ Hf1). split_and!; try done.
      unfold find, active. cbn [slots registered]. fold (active t5). pose proof (find_in_spec wanted (active t5)) as Hsp.
      destruct (find_in wanted (active t5)) as [j|]; [|done]. exfalso. destruct Hsp as (k & Hk & Hkn).
      pose proof (inv_names _ Hi4) as Hnd. rewrite <- (fmap_Permutation _ _ _ Hp) in Hnd. cbn in Hnd. apply NoDup_cons in Hnd as [Hnot _].
      apply Hnot. apply list_elem_of_fmap. exists k. split; [cbn; congruence|by eapply list_elem_of_lookup_2].
Qed.

(** ** Registering *)

(** No counter can wrap before every module of the table is Ready. *)
Definition room t : Prop :=
  Forall (fun m => dependents m + Z.of_nat (total (active t)) < 2 ^ 32) (active t).

Lemma add_slot_spec i base pages t :
  inv t -> (registered t < max_modules)%nat -> (forall m, m ∈ active t -> name (info m) <> name i) ->
  room (add_slot i base pages t) ->
  inv (add_slot i base pages t) /\
  exists m, active (add_slot i base pages t) = active t ++ [m] /\ info m = i /\ state_ m = Registered.
Proof.
  intros Hi Hreg Hnew Hroom. set (t' := add_slot i base pages t) in *. pose proof (inv_length _ Hi) as Hlen.
  destruct (lookup_lt_is_Some_2 (slots t) (registered t)) as [x Hx]; [rewrite Hlen; lia|].
  assert (active t' = active t ++ [fill_slot i base pages x]) as Ha.
  { unfold t', active. cbn [slots registered add_slot].
    rewrite (take_S_r _ _ (fill_slot i base pages x)) by (rewrite list_lookup_alter_eq, Hx; done).
    f_equal. apply list_eq. intros k. destruct (decide (k < registered t)%nat).
    - rewrite !lookup_take_lt, list_lookup_alter_ne by lia. done.
    - by rewrite !lookup_take_ge by lia. }
  assert (forall d, uses d (active t') = uses d (active t)) as Hu.
  { intros d. rewrite Ha. generalize (active t). induction l as [|y l IH]; cbn; [done|]. by rewrite IH. }
  assert (uses (name i) (active t) = 0%nat) as H0.
  { apply uses_none. intros m Hm Hr Hd. destruct (inv_deps _ Hi m _ Hm Hr Hd) as (k & Hk & Hn & _). by apply (Hnew k). }
  assert (0 <= dependents x) as Hx0.
  { apply (inv_stale _ Hi), (list_elem_of_lookup_2 _ 0). by rewrite lookup_drop, Nat.add_0_r. }
  split; [|by exists (fill_slot i base pages x)]. unfold room in Hroom. rewrite Forall_forall in Hroom. constructor.
  - cbn. by rewrite length_alter.
  - cbn. lia.
  - rewrite Ha, fmap_app. apply NoDup_app. split; [apply (inv_names _ Hi)|]. split; [|apply NoDup_singleton].
    intros n (m & -> & Hm)%list_elem_of_fmap Hn. cbn in Hn. apply list_elem_of_singleton in Hn. by apply (Hnew m).
  - rewrite Ha. intros m d [Hm|Hm]%elem_of_app Hr Hd.
    + destruct (inv_deps _ Hi m d Hm Hr Hd) as (k & Hk & Hkk). exists k. split; [apply elem_of_app; by left|done].
    + apply list_elem_of_singleton in Hm as ->. done.
  - rewrite Ha. intros m [Hm|Hm]%elem_of_app Hf; [by apply (inv_failed _ Hi)|]. by apply list_elem_of_singleton in Hm as ->.
  - rewrite Ha in *. intros m [Hm|Hm]%elem_of_app; unfold slack; rewrite Hu; [apply (inv_count _ Hi), Hm|].
    apply list_elem_of_singleton in Hm as ->. cbn. rewrite H0. lia.
  - intros m Hm. specialize (Hroom m Hm). unfold slack. lia.
  - cbn. intros m [k Hk]%list_elem_of_lookup. rewrite lookup_drop, list_lookup_alter_ne in Hk by lia.
    apply (inv_stale _ Hi), (list_elem_of_lookup_2 _ (S k)). rewrite lookup_drop, <- Hk. f_equal. lia.
Qed.

(** ** Reachable tables *)

Definition boot (w : W) : table W := mkTable (replicate max_modules zero_slot) 0 false [] [] w.

(** Any history: the builtin modules, then registrations of images, loads, unloads and
    users that come and go, in any order and with any outcome of the modules' own
    functions. *)
Inductive reachable : table W -> Prop :=
  | reach_boot l w t : NoDup (name <$> l) -> Z.of_nat (sum_list_with (fun i => length (deps i)) l) < 2 ^ 32 ->
      module_init_builtin run_init l (boot w) = Some t -> reachable t
  | reach_register i base pages t r t' : reachable t -> module_register_loaded i base pages t = (r, t') ->
      room t' -> reachable t'
  | reach_load d t r t' : reachable t -> module_load run_init d t = Some (r, t') -> reachable t'
  | reach_unload d t r t' : reachable t -> module_unload run_exit d t = Some (r, t') -> reachable t'
  | reach_get d t b t' : reachable t -> module_get d t = (b, t') -> reachable t'
  | reach_put d t t' : reachable t -> module_put d t = Some t' -> reachable t'.

Definition settled t : Prop := inv t /\ loading (active t) = 0%nat.

Lemma settled_grows t t' : settled t -> inv t' -> grows t t' -> settled t'.
Proof. intros [_ Hl] Hi [_ HF]. split; [done|]. by rewrite (loading_grown _ _ HF). Qed.

Lemma settled_load d t : settled t -> exists r t', module_load run_init d t = Some (r, t') /\ settled t' /\
  (r = 0 -> exists m, m ∈ active t' /\ name (info m) = d /\ state_ m = Ready).
Proof.
  intros Hst. pose proof Hst as [Hi Hl]. unfold module_load. destruct (find d t) as [i|] eqn:Ef; [|by exists (-1), t].
  destruct (find_some _ _ _ Ef) as (m & Hm & _ & Hn).
  destruct (load_spec load_fuel 0 i t m Hi ltac:(lia) ltac:(lia) Hm) as (r & t' & E & Hi' & Hg & Hr).
  exists r, t'. split_and!; [done|by eapply settled_grows|]. intros ->. destruct (Hr eq_refl) as (m' & Hm' & Hs').
  exists m'. split; [by eapply list_elem_of_lookup_2|]. split; [|done].
  destruct (Forall2_lookup_lr _ _ _ _ _ _ (proj2 Hg) Hm Hm') as (-> & _). done.
Qed.

Lemma settled_load_all n i t : settled t -> (i + n <= registered t)%nat ->
  exists t', load_all run_init n i t = Some t' /\ settled t'.
Proof.
  revert i t. induction n as [|n IH]; intros i t Hst Hn; cbn [load_all]; [by exists t|].
  pose proof Hst as [Hi Hl]. destruct (lookup_lt_is_Some_2 (active t) i) as [m Hm]; [rewrite (active_length _ Hi); lia|].
  destruct (load_spec load_fuel 0 i t m Hi ltac:(lia) ltac:(lia) Hm) as (r & t' & E & Hi' & Hg & _). rewrite E. cbn [mbind option_bind].
  apply IH; [by eapply settled_grows|]. rewrite (fr_registered _ _ (proj1 Hg)). lia.
Qed.

Lemma settled_user i f t : settled t -> (i < registered t)%nat ->
  (forall m, info (f m) = info m /\ dependents (f m) = dependents m /\ state_ (f m) = state_ m /\ error (f m) = error m) ->
  settled (on_slot i f t).
Proof.
  intros [Hi Hl] Hlt Hf. split.
  - apply inv_on_slot; [done|done|]. intros m _. destruct (Hf m) as (E1 & E2 & E3 & E4).
    split_and!; [done|done|by rewrite E3|]. rewrite E3, E4. intros E. by right.
  - rewrite active_on_slot, loading_zero in *. intros x [j Hj]%list_elem_of_lookup. destruct (decide (j = i)) as [->|Hne].
    + rewrite list_lookup_alter_eq in Hj. destruct (active t !! i) as [y|] eqn:Hy; [|done]. injection Hj as <-.
      destruct (Hf y) as (_ & _ & -> & _). apply Hl. by eapply list_elem_of_lookup_2.
    + rewrite list_lookup_alter_ne in Hj by done. apply Hl. by eapply list_elem_of_lookup_2.
Qed.

Lemma total_app l l' : total (l ++ l') = (total l + total l')%nat.
Proof. induction l as [|m l IH]; cbn; lia. Qed.

Lemma settled_builtin l : forall t,
  settled t -> Forall (fun m => dependents m = 0) (slots t) -> NoDup (name <$> l) ->
  (forall m, m ∈ active t -> name (info m) ∉ name <$> l) ->
  Z.of_nat (total (active t) + sum_list_with (fun i => length (deps i)) l) < 2 ^ 32 ->
  settled (register_builtin l t).
Proof.
  induction l as [|i l IH]; intros t Hst Hz Hnd Hnew Hsum; cbn [register_builtin]; [done|].
  cbn in Hnd, Hsum. apply NoDup_cons in Hnd as [Hni Hnd].
  assert (settled (register_builtin l t)) as Hskip.
  { apply IH; [done|done|done| |lia]. intros m Hm Hin. apply (Hnew m Hm). cbn. by right. }
  destruct (max_modules <=? registered t)%nat eqn:Er; [done|]. destruct (negb (abi i =? module_abi_version)); [done|].
  apply Nat.leb_gt in Er. set (t' := add_slot i 0 0 t).
  assert (Forall (fun m => dependents m = 0) (slots t')) as Hz'.
  { apply Forall_forall. intros m [k Hk]%list_elem_of_lookup. cbn in Hk. rewrite Forall_forall in Hz.
    destruct (decide (k = registered t)) as [->|Hne].
    - rewrite list_lookup_alter_eq in Hk. destruct (slots t !! registered t) as [x|] eqn:Hx; [|done].
      injection Hk as <-. cbn. apply Hz. by eapply list_elem_of_lookup_2.
    - rewrite list_lookup_alter_ne in Hk by done. apply Hz. by eapply list_elem_of_lookup_2. }
  assert (forall m, m ∈ active t -> name (info m) <> name i) as Hne by (intros m Hm E; apply (Hnew m Hm); cbn; rewrite E; by left).
  assert (total (active t') = (total (active t) + length (deps i))%nat) as Htot.
  { destruct (lookup_lt_is_Some_2 (slots t) (registered t)) as [x Hx]; [rewrite (inv_length _ (proj1 Hst)); lia|].
    unfold t', active. cbn [slots registered add_slot].
    rewrite (take_S_r _ _ (fill_slot i 0 0 x)) by (rewrite list_lookup_alter_eq, Hx; done). rewrite total_app. cbn [total info fill_slot].
    replace (take (registered t) (alter (fill_slot i 0 0) (registered t) (slots t))) with (take (registered t) (slots t)); [lia|].
    apply list_eq. intros k. destruct (decide (k < registered t)%nat).
    - rewrite !lookup_take_lt, list_lookup_alter_ne by lia. done.
    - by rewrite !lookup_take_ge by lia. }
  destruct (add_slot_spec i 0 0 t (proj1 Hst) Er Hne) as [Hi' (m & Ha & Hmi & Hms)].
  { apply Forall_forall. intros y [k Hk]%list_elem_of_lookup. apply active_slot in Hk as [Hk _]. rewrite Forall_forall in Hz'.
    rewrite (Hz' y) by (by eapply list_elem_of_lookup_2). fold t'. rewrite Htot. lia. }
  fold t' in Hi', Ha. apply IH; [|done|done| |rewrite Htot; lia].
  - split; [done|]. rewrite Ha, loading_zero. intros x [Hx|Hx]%elem_of_app.
    + destruct Hst as [_ Hl]. rewrite loading_zero in Hl. by apply Hl.
    + apply list_elem_of_singleton in Hx as ->. congruence.
  - rewrite Ha. intros x [Hx|Hx]%elem_of_app; [intros Hin; apply (Hnew x Hx); cbn; by right|].
    apply list_elem_of_singleton in Hx as ->. by rewrite Hmi.
Qed.

Lemma settled_boot w : settled (boot w).
Proof.
  split; [|done]. constructor.
  - done.
  - unfold max_modules. cbn. lia.
  - constructor.
  - intros m d Hm. by apply elem_of_nil in Hm.
  - intros m Hm. by apply elem_of_nil in Hm.
  - intros m Hm. by apply elem_of_nil in Hm.
  - intros m Hm. by apply elem_of_nil in Hm.
  - intros m Hm. change (m ∈ replicate max_modules zero_slot) in Hm. by apply elem_of_replicate in Hm as [-> _].
Qed.

Lemma reachable_settled t : reachable t -> settled t.
Proof.
  induction 1 as [l w t Hnd Hsum E|i base pages t r t' _ IH E Hroom|d t r t' _ IH E|d t r t' _ IH E|d t b t' _ IH E|d t t' _ IH E].
  - unfold module_init_builtin in E. assert (settled (register_builtin l (boot w))) as Hst.
    { apply settled_builtin; [apply settled_boot| |done| |done].
      - apply Forall_forall. intros m [-> _]%elem_of_replicate. done.
      - intros m Hm. by apply elem_of_nil in Hm. }
    destruct (settled_load_all (registered (register_builtin l (boot w))) 0 _ Hst) as (t' & E' & Ht'); [lia|].
    by simplify_eq.
  - unfold module_register_loaded in E. destruct i as [i|]; [|by simplify_eq].
    destruct (negb (abi i =? module_abi_version)); [by simplify_eq|].
    destruct (find (name i) t) eqn:Ef; [by simplify_eq|]. destruct (max_modules <=? registered t)%nat eqn:Er; [by simplify_eq|].
    injection E as <- <-. apply Nat.leb_gt in Er.
    assert (forall m, m ∈ active t -> name (info m) <> name i) as Hne.
    { pose proof (find_in_spec (name i) (active t)) as Hs. unfold find in Ef. by rewrite Ef in Hs. }
    destruct (add_slot_spec i base pages t (proj1 IH) Er Hne Hroom) as [Hi' (m & Ha & _ & Hms)]. split; [done|].
    rewrite Ha, loading_zero. destruct IH as [_ Hl]. rewrite loading_zero in Hl. intros x [Hx|Hx]%elem_of_app; [by apply Hl|].
    apply list_elem_of_singleton in Hx as ->. congruence.
  - destruct (settled_load d t IH) as (r' & t'' & E' & Hst & _). by simplify_eq.
  - destruct (unload_spec d t (proj1 IH) (proj2 IH)) as (r' & t'' & E' & Hi & Hl & _). simplify_eq. by split.
  - unfold module_get in E. destruct (find d t) as [i|] eqn:Ef; [|by simplify_eq].
    destruct (find_some _ _ _ Ef) as (m & Hm & Hs & _). rewrite Hs in E. destruct (bool_decide _); [|by simplify_eq].
    injection E as <- <-. apply settled_user; [done|by eapply active_slot|done].
  - unfold module_put in E. destruct (find d t) as [i|] eqn:Ef; [|done]. cbn [mbind option_bind] in E.
    destruct (find_some _ _ _ Ef) as (m & Hm & Hs & _). rewrite Hs in E. cbn [mbind option_bind] in E.
    destruct (users m =? 0); [done|]. injection E as <-. apply settled_user; [done|by eapply active_slot|done].
Qed.



(** What unloading may do: a module some Ready module depends on, or that has users,
    is refused and nothing changes; otherwise a Ready one is stopped, and when it came
    from an image it leaves the table, its export tables go and the image is given
    back. *)
Theorem module_unload_guarded d t r t' :
  reachable t -> module_unload run_exit d t = Some (r, t') ->
  unloads d t t' r /\
  (forall m, m ∈ active t -> state_ m = Ready -> d ∈ deps (info m) -> r = -1 /\ t' = t).
Proof.
  intros Hr E. destruct (reachable_settled t Hr) as [Hi Hl].
  destruct (unload_spec d t Hi Hl) as (r' & t'' & E' & _ & _ & Hu). simplify_eq. split; [done|].
  intros m Hm Hs Hd. destruct (inv_deps _ Hi m d Hm Hs Hd) as (k & Hk & Hn & Hks).
  unfold unloads in Hu. destruct (find_complete d t k Hk Hn) as [i Ef]. rewrite Ef in Hu.
  destruct Hu as (x & Hx & Hxn & Hcases). apply list_elem_of_lookup in Hk as [j Hj].
  assert (i = j) as -> by (eapply (names_inj t); [done|done|done|congruence]). assert (x = k) as -> by congruence.
  pose proof (inv_count _ Hi k ltac:(by eapply list_elem_of_lookup_2)) as Hc. unfold slack in Hc.
  pose proof (uses_ready d (active t) m Hm Hs Hd) as Hpos. rewrite Hn in Hc.
  destruct Hcases as [(? & _)|[(_ & _ & ? & ?)|(_ & Hz & _)]]; [done|done|lia].
Qed.

(** ** Loading succeeds where it can *)

Section completeness.
Context (rank : list Z -> nat) (Hinit : forall i w, (run_init i w).1 = 0).

(** Every dependency is in the table and ranks below its dependent. *)
Definition ranked t : Prop := forall m d, m ∈ active t -> d ∈ deps (info m) ->
  (rank d < rank (name (info m)))%nat /\ exists k, k ∈ active t /\ name (info k) = d.

Definition no_failed t : Prop := forall m, m ∈ active t -> state_ m <> Failed.

(** What is being loaded ranks at least [n]. *)
Definition above (n : nat) t : Prop := forall m, m ∈ active t -> state_ m = Loading -> (n <= rank (name (info m)))%nat.

Lemma grows_back t t' m' : grows t t' -> m' ∈ active t' -> exists m, m ∈ active t /\ grown m m'.
Proof.
  intros [_ HF] [j Hj]%list_elem_of_lookup. destruct (Forall2_lookup_r _ _ _ _ _ HF Hj) as (m & Hm & Hg).
  exists m. split; [by eapply list_elem_of_lookup_2|done].
Qed.

Lemma grows_ranked t t' : grows t t' -> ranked t -> ranked t'.
Proof.
  intros Hg Hr m' d Hm' Hd. destruct (grows_back _ _ _ Hg Hm') as (m & Hm & (E & _)). rewrite E in *.
  destruct (Hr m d Hm Hd) as (Hlt & k & [j Hj]%list_elem_of_lookup & Hn). split; [done|].
  destruct (Forall2_lookup_l _ _ _ _ _ (proj2 Hg) Hj) as (k' & Hk' & (E' & _)). exists k'.
  split; [by eapply list_elem_of_lookup_2|]. by rewrite E'.
Qed.

Lemma grows_above n t t' : grows t t' -> above n t -> above n t'.
Proof.
  intros Hg Ha m' Hm' Hs. destruct (grows_back _ _ _ Hg Hm') as (m & Hm & (E & _ & _ & _ & _ & Hl)). rewrite E. apply Ha; [done|by apply Hl].
Qed.

Lemma start_zero i m t r t' : start_module run_init i m t = Some (r, t') -> r = 0.
Proof.
  unfold start_module. set (t1 := if module_license_is_free _ then t else _). pose proof (Hinit (info m) (world t1)) as H0.
  destruct (init (info m)); [destruct (run_init (info m) (world t1)) as [z w]; cbn in H0; subst z|];
    cbn [Z.eqb negb]; intros E; destruct (acquire_dependencies _ _); cbn in E; by simplify_eq.
Qed.

Lemma dependencies_complete load n top ds : forall t,
  (forall j t m, inv t -> (n <= loading (active t))%nat -> active t !! j = Some m -> loads j t (load j t)) ->
  (forall j t m, inv t -> (n <= loading (active t))%nat -> active t !! j = Some m -> ranked t -> no_failed t ->
     above (S (rank (name (info m)))) t -> exists t', load j t = Some (0, t') /\ no_failed t') ->
  inv t -> (n <= loading (active t))%nat -> ranked t -> no_failed t -> above top t ->
  (forall d, d ∈ ds -> (rank d < top)%nat /\ exists k, k ∈ active t /\ name (info k) = d) ->
  exists t', load_dependencies load ds t = Some (0, t') /\ no_failed t'.
Proof.
  induction ds as [|d ds IH]; intros t Hload Hcomp Hi Hn Hrk Hnf Hab Hds; cbn [load_dependencies]; [by exists t|].
  destruct (Hds d) as (Hlt & k & Hk & Hkn); [by left|]. destruct (find_complete d t k Hk Hkn) as [j Hj]. rewrite Hj.
  destruct (find_some _ _ _ Hj) as (m & Hm & _ & Hmn).
  destruct (Hcomp j t m Hi Hn Hm Hrk Hnf) as (t1 & E & Hnf1).
  { intros x Hx Hs. specialize (Hab x Hx Hs). rewrite Hmn. lia. }
  destruct (Hload j t m Hi Hn Hm) as (r & t1' & E' & Hi1 & Hg & _). rewrite E in E'. injection E' as <- <-.
  rewrite E. cbn [mbind option_bind Z.eqb negb]. apply IH; try done.
  - destruct Hg as [_ HF]. by rewrite (loading_grown _ _ HF).
  - by eapply grows_ranked.
  - by eapply grows_above.
  - intros x Hx. destruct (Hds x) as (Hx1 & y & [l Hl]%list_elem_of_lookup & Hyn); [by right|]. split; [done|].
    destruct (Forall2_lookup_l _ _ _ _ _ (proj2 Hg) Hl) as (y' & Hy' & (Ey & _)). exists y'.
    split; [by eapply list_elem_of_lookup_2|]. by rewrite Ey.
Qed.

Lemma load_complete fuel : forall depth i t m,
  inv t -> (load_fuel <= fuel + depth)%nat -> (depth <= loading (active t))%nat -> active t !! i = Some m ->
  ranked t -> no_failed t -> above (S (rank (name (info m)))) t ->
  exists t', load_locked run_init fuel depth i t = Some (0, t') /\ no_failed t'.
Proof.
  induction fuel as [|fuel IH]; intros depth i t m Hi Hfu Hd Hm Hrk Hnf Hab.
  { destruct (load_spec 0 depth i t m Hi Hfu Hd Hm) as (r & t' & E & _). done. }
  destruct (load_spec (S fuel) depth i t m Hi Hfu Hd Hm) as (r0 & t0 & E0 & Hi0 & Hg0 & _).
  pose proof (loading_length (active t)) as Hll. rewrite (active_length _ Hi) in Hll. pose proof (inv_registered _ Hi) as Hreg.
  cbn [load_locked] in *. rewrite (proj2 (Nat.ltb_ge _ _)) in * by (unfold max_modules in *; lia).
  destruct (active_slot _ _ _ Hm) as [Hslot Hlt]. rewrite Hslot in *. cbn [mbind option_bind] in *.
  assert (m ∈ active t) as Hin by by eapply list_elem_of_lookup_2.
  destruct (state_ m) eqn:Hs.
  2:{ specialize (Hab m Hin Hs). lia. }
  2:{ by exists t. }
  2:{ by apply Hnf in Hin. }
  set (t1 := on_slot i (set_state Loading) t) in *.
  assert (inv t1) as Hi1.
  { apply inv_on_slot; [done|done|]. intros y Hy. assert (y = m) as -> by congruence. repeat split; cbn; congruence. }
  assert (forall x, x ∈ active t1 -> exists y, y ∈ active t /\ info x = info y /\ (x = y \/ (y = m /\ state_ x = Loading))) as Hback.
  { unfold t1. rewrite active_on_slot. intros x [j Hj]%list_elem_of_lookup. destruct (decide (j = i)) as [->|Hne].
    - rewrite list_lookup_alter_eq, Hm in Hj. injection Hj as <-. exists m. split_and!; [done|done|by right].
    - rewrite list_lookup_alter_ne in Hj by done. exists x. split_and!; [by eapply list_elem_of_lookup_2|done|by left]. }
  assert (forall y, y ∈ active t -> exists x, x ∈ active t1 /\ info x = info y) as Hfwd.
  { unfold t1. rewrite active_on_slot. intros y [j Hj]%list_elem_of_lookup. destruct (decide (j = i)) as [->|Hne].
    - exists (set_state Loading y). split; [|done]. apply (list_elem_of_lookup_2 _ i). by rewrite list_lookup_alter_eq, Hj.
    - exists y. split; [|done]. apply (list_elem_of_lookup_2 _ j). by rewrite list_lookup_alter_ne. }
  assert (forall d, d ∈ deps (info m) -> (rank d < rank (name (info m)))%nat /\ exists k, k ∈ active t1 /\ name (info k) = d) as Hdm.
  { intros d Hdd. destruct (Hrk m d Hin Hdd) as (Hl & k & Hk & Hn). split; [done|]. destruct (Hfwd k Hk) as (x & Hx & Ex). exists x. by rewrite Ex. }
  assert (S depth <= loading (active t1))%nat as Hn1.
  { unfold t1. rewrite active_on_slot, (loading_start _ _ m); [lia|done|congruence]. }
  destruct (dependencies_complete (load_locked run_init fuel (S depth)) (S depth) (rank (name (info m))) (deps (info m)) t1)
    as (t2 & E & Hnf2); try done.
  - intros j t' y Hi' Hn' Hy. eapply load_spec; [done| |done|exact Hy]. unfold load_fuel in *. lia.
  - intros j t' y Hi' Hn' Hy. apply IH; [done| |done|done]. unfold load_fuel in *. lia.
  - intros x d Hx Hd'. destruct (Hback x Hx) as (y & Hy & Ey & _). rewrite Ey in *. destruct (Hrk y d Hy Hd') as (Hl & k & Hk & Hn).
    split; [done|]. destruct (Hfwd k Hk) as (z & Hz & Ez). exists z. by rewrite Ez.
  - intros x Hx. destruct (Hback x Hx) as (y & Hy & _ & [->|[_ Hsx]]); [by apply Hnf|congruence].
  - intros x Hx Hsx. destruct (Hback x Hx) as (y & Hy & Ey & [->|[-> _]]); [specialize (Hab y Hy Hsx); lia|by rewrite Ey].
  - rewrite E in *. cbn [mbind option_bind Z.eqb negb] in *. pose proof (start_zero _ _ _ _ _ E0) as ->.
    destruct (load_dependencies_spec (load_locked run_init fuel (S depth)) (S depth) (deps (info m)) t1)
      as (r2 & t2' & E2 & Hi2 & Hg2 & Hr2); [|done|done|].
    { intros j t' y Hi' Hn' Hy. eapply load_spec; [done| |done|exact Hy]. unfold load_fuel in *. lia. }
    rewrite E in E2. injection E2 as <- <-.
    assert (active t1 !! i = Some (set_state Loading m)) as Hx1 by (unfold t1; by rewrite active_on_slot, list_lookup_alter_eq, Hm).
    destruct (Forall2_lookup_l _ _ _ _ _ (proj2 Hg2) Hx1) as (x & Hx & (Ei & _ & _ & _ & _ & Hxl)).
    destruct (start_spec i m t2 x Hi2 Hx Ei ltac:(by apply Hxl) (Hr2 eq_refl)) as (r & t3 & E3 & _ & Hf3 & (m3 & Hm3 & _ & _ & _ & _ & H5) & Ho).
    rewrite E0 in E3. injection E3 as <- <-. exists t0. split; [done|]. intros y [j Hj]%list_elem_of_lookup.
    destruct (decide (j = i)) as [->|Hne]; [cbn in H5; congruence|].
    destruct (lookup_lt_is_Some_2 (active t2) j) as [y2 Hy2].
    { rewrite <- (framed_active_length _ _ Hf3). by eapply lookup_lt_Some. }
    destruct (Ho j y2 Hne Hy2) as (y' & Hy' & _ & Es). assert (y' = y) as -> by congruence. rewrite Es.
    apply Hnf2. by eapply list_elem_of_lookup_2.
Qed.

(** Loading succeeds where it can: when the dependencies of every registered module
    are registered too and run in no circle (they can be ranked), no module failed
    before and no [init] fails, [module_load] of any module in the table returns 0 and
    leaves it Ready. *)
Theorem module_load_complete d t :
  reachable t -> ranked t -> no_failed t -> is_Some (find d t) ->
  exists t', module_load run_init d t = Some (0, t') /\
    exists m, m ∈ active t' /\ name (info m) = d /\ state_ m = Ready.
Proof.
  intros Hr Hrk Hnf [i Ef]. pose proof (reachable_settled t Hr) as Hst. pose proof Hst as [Hi Hl].
  destruct (find_some _ _ _ Ef) as (m & Hm & _ & Hn).
  destruct (load_complete load_fuel 0 i t m Hi) as (t' & E & _); [lia|lia|done|done|done| |].
  { rewrite loading_zero in Hl. intros x Hx Hs. by apply Hl in Hx. }
  exists t'. assert (module_load run_init d t = Some (0, t')) as E' by (unfold module_load; by rewrite Ef). split; [done|].
  destruct (settled_load d t Hst) as (r & t'' & E'' & _ & Hz). rewrite E' in E''. injection E'' as <- <-. by apply Hz.
Qed.

End completeness.

End correctness.

(** ** A small table *)

(** [init] functions that succeed, [exit] functions that do nothing. *)
Definition good_init (_ : ModuleInfo) (_ : unit) : Z * unit := (0, tt).
Definition good_exit (_ : ModuleInfo) (_ : unit) : unit := tt.

Definition plain (n : Z) (ds : list (list Z)) : ModuleInfo := mkInfo 1 [n] (Some [77; 73; 84]) true true ds.

(** "a", and "b" that needs it, listed in the wrong order. *)
Definition demo_builtin : list ModuleInfo := [plain 98 [[97]]; plain 97 []].

Definition demo_table : table unit := default (boot tt) (module_init_builtin good_init demo_builtin (boot tt)).

Lemma demo_table_reachable : reachable good_init good_exit demo_table.
Proof.
  eapply (reach_boot _ _ demo_builtin tt); [|vm_compute; reflexivity|vm_compute; reflexivity].
  apply (bool_decide_unpack _). vm_compute. exact I.
Qed.


(** Builtin modules are not checked for their names: with two of one name, both become
    Ready and the second one is never found again. *)
Example duplicate_builtin :
  let t := default (boot tt) (module_init_builtin good_init [plain 97 []; plain 97 []] (boot tt)) in
  map (fun m => (name (info m), state_ m)) (active t) = [([97], Ready); ([97], Ready)] /\ find [97] t = Some 0%nat.
Proof. vm_compute. split; reflexivity. Qed.

Lemma module_unload_guarded_witness :
  exists t', module_unload good_exit [97] demo_table = Some (-1, t') /\ t' = demo_table.
Proof.
  exists demo_table. split; [vm_compute; reflexivity|].
  destruct (module_unload_guarded good_init good_exit [97] demo_table (-1) demo_table demo_table_reachable) as [_ H];
    [vm_compute; reflexivity|].
  apply (H (mkModule (plain 98 [[97]]) Ready 0 0 0 0 0)); [|reflexivity|by left].
  apply (list_elem_of_lookup_2 _ 0). vm_compute. reflexivity.
Defined.

(** The table once "b" and "a" are unloaded. *)
Definition demo_half : table unit := default demo_table (snd <$> module_unload good_exit [98] demo_table).
Definition demo_idle : table unit := default demo_half (snd <$> module_unload good_exit [97] demo_half).

Lemma demo_idle_reachable : reachable good_init good_exit demo_idle.
Proof.
  apply (reach_unload _ _ [97] demo_half 0); [|vm_compute; reflexivity].
  apply (reach_unload _ _ [98] demo_table 0); [exact demo_table_reachable|vm_compute; reflexivity].
Qed.

Lemma demo_idle_active : active demo_idle =
  [mkModule (plain 98 [[97]]) Registered 0 0 0 0 0; mkModule (plain 97 []) Registered 0 0 0 0 0].
Proof. vm_compute. reflexivity. Qed.

Definition demo_rank (d : list Z) : nat := if bool_decide (d = [98]) then 1 else 0.

Lemma demo_idle_ranked : ranked demo_rank demo_idle /\ no_failed demo_idle.
Proof.
  split; intros m; rewrite demo_idle_active.
  - intros d Hm Hd. apply elem_of_cons in Hm as [->|[->|Hm%elem_of_nil]%elem_of_cons]; [| |done].
    + cbn in Hd. apply list_elem_of_singleton in Hd as ->. split; [vm_compute; lia|].
      exists (mkModule (plain 97 []) Registered 0 0 0 0 0). split; [right; left|reflexivity].
    + by apply elem_of_nil in Hd.
  - intros Hm. by apply elem_of_cons in Hm as [->|[->|Hm%elem_of_nil]%elem_of_cons].
Qed.

Lemma module_load_complete_witness :
  exists t', module_load good_init [98] demo_idle = Some (0, t') /\
    exists m, m ∈ active t' /\ name (info m) = [98] /\ state_ m = Ready.
Proof.
  apply (module_load_complete good_init good_exit demo_rank);
    [reflexivity|exact demo_idle_reachable|apply demo_idle_ranked|apply demo_idle_ranked|vm_compute; by eexists].
Defined.

(** ** Counters left in a slot *)

Definition register_all (l : list (ModuleInfo * Z)) (t : table unit) : table unit :=
  fold_left (fun t x => (module_register_loaded (Some x.1) x.2 1 t).2) l t.

(** Images "x", "z" that needs "y", and "y"; "x" leaves and "w" takes the slot where the
    copy of "y" stayed. *)
Definition demo_reused : option (table unit) :=
  let t := register_all [(plain 120 [], 0x1000); (plain 122 [[121]], 0x2000); (plain 121 [], 0x3000)] (boot tt) in
  '(_, t) ← module_load good_init [122] t;
  '(_, t) ← module_load good_init [120] t;
  '(_, t) ← module_unload good_exit [120] t;
  let t := register_all [(plain 119 [], 0x4000)] t in
  '(_, t) ← module_load good_init [119] t;
  Some t.

(** A module registered in a slot an unloaded one vacated inherits the reference
    counters left there: here "w" is Ready, no module depends on it and it has no
    users, and still it can never be unloaded. *)
Theorem reused_slot_keeps_counters :
  exists t, demo_reused = Some t /\
    uses [119] (active t) = 0%nat /\
    (exists m, m ∈ active t /\ name (info m) = [119] /\ state_ m = Ready /\ users m = 0 /\ dependents m = 1) /\
    module_unload good_exit [119] t = Some (-1, t).
Proof.
  destruct demo_reused as [t|] eqn:E; [|vm_compute in E; discriminate]. exists t. split; [reflexivity|].
  vm_compute in E. injection E as <-. split; [reflexivity|]. split; [|reflexivity].
  eexists. split; [right; right; left|]. repeat split.
Qed.
