(* ===== verification/Panic.v ===== *)
(** * Kernel panics (src/kernel/lib/panic.cpp, the reports of src/kernel/cpu/idt.cpp)

    [Report] is the text of a panic, piece by piece as it is handed to the consoles,
    from the state of the other components.  [Output] interleaves CPUs that write to
    the consoles under the console lock, one character at a time, with a CPU that
    panics and stops the others with a non-maskable interrupt. *)

From stdpp Require Import functions.
From S2P Require Import Prelude Memory Stacks Printk Vmalloc Interrupts Scheduler ThreadList Trace Modules.

Module Report.

(** One call of [console_put], or one of [console_write]. *)
Inductive piece := Char (c : Z) | Text (t : list Z).

Definition text_of (p : piece) : list Z := match p with Char c => [c] | Text t => t end.

(** The conversions of [vprintk]: the characters between them and the digits go through
    [console_put], strings through [console_write]. *)
Definition lit (s : string) : list piece := Char <$> literal s.
Definition str (t : list Z) : list piece := [Text t].
Definition number (value base : Z) : list piece := Char <$> default [] (digits_loop (S (Z.to_nat buffer_size)) value base false buffer_size []).
Definition hex (value : Z) : list piece := number value 16.
Definition dec (value : Z) : list piece := number value 10.
Definition pr_err (l : list piece) : list piece := Text (level_prefix Error) :: l.

Record Registers := mkRegisters {
  r15 : Z; r14 : Z; r13 : Z; r12 : Z; r11 : Z; r10 : Z; r9 : Z; r8 : Z;
  rbp : Z; rdi : Z; rsi : Z; rdx : Z; rcx : Z; rbx : Z; rax : Z;
  vector : Z; error_code : Z; rip : Z; cs : Z; rflags : Z; rsp : Z; ss : Z }.

Definition dump_registers (regs : Registers) : list piece :=
  pr_err (lit "rip " ++ hex (rip regs) ++ lit "  cs " ++ hex (cs regs) ++ lit "  rflags " ++ hex (rflags regs) ++ [Char 10]) ++
  pr_err (lit "rsp " ++ hex (rsp regs) ++ lit "  ss " ++ hex (ss regs) ++ lit "  error " ++ hex (error_code regs) ++ [Char 10]) ++
  pr_err (lit "rax " ++ hex (rax regs) ++ lit "  rbx " ++ hex (rbx regs) ++ lit "  rcx " ++ hex (rcx regs) ++ lit "  rdx " ++ hex (rdx regs) ++ [Char 10]) ++
  pr_err (lit "rsi " ++ hex (rsi regs) ++ lit "  rdi " ++ hex (rdi regs) ++ lit "  rbp " ++ hex (rbp regs) ++ [Char 10]) ++
  pr_err (lit "r8  " ++ hex (r8 regs) ++ lit "  r9  " ++ hex (r9 regs) ++ lit "  r10 " ++ hex (r10 regs) ++ lit "  r11 " ++ hex (r11 regs) ++ [Char 10]) ++
  pr_err (lit "r12 " ++ hex (r12 regs) ++ lit "  r13 " ++ hex (r13 regs) ++ lit "  r14 " ++ hex (r14 regs) ++ lit "  r15 " ++ hex (r15 regs) ++ [Char 10]).

Record ControlRegisters := mkControl { read_cr0 : Z; read_cr2 : Z; read_cr3 : Z; read_cr4 : Z }.

Definition dump_control_registers (c : ControlRegisters) : list piece :=
  pr_err (lit "cr0 " ++ hex (read_cr0 c) ++ lit "  cr2 " ++ hex (read_cr2 c) ++ lit "  cr3 " ++ hex (read_cr3 c) ++ lit "  cr4 " ++ hex (read_cr4 c) ++ [Char 10]).

(** The text is [Trace]'s; its first five characters go out as one string. *)
Definition dump_instruction_bytes (m : memory) (rip : Z) : option (list piece) :=
  text ← Trace.dump_instruction_bytes m rip;
  Some (match text with [] => [] | _ => Text (take 5 text) :: (Char <$> drop 5 text) end).

Definition dump_stack_guards (L : layout) (m : memory) (unmapped : bool) : option (list piece) :=
  intact ← stack_guards_intact L m unmapped;
  if intact : bool then Some []
  else
    name ← overflowed_stack_name L m unmapped;
    Some (pr_err (lit "the " ++ str (literal (default "?"%string name)) ++ lit " stack overflowed into its guard page" ++ [Char 10])).

Definition thread_state_name (s : ThreadState) : string :=
  match s with
  | Scheduler.Ready => "ready"%string | Scheduler.Running => "running"%string | Sleeping => "sleeping"%string | Blocked => "blocked"%string | Dead => "dead"%string
  end.

Definition thread_line (t : Thread) : list piece :=
  pr_err (lit "  " ++ str (name_ t) ++ lit " " ++ dec (id_ t) ++ lit " [" ++ str (literal (thread_state_name (Scheduler.state_ t))) ++
    lit "] cpu " ++ dec (cpu_ t) ++ [Char 10]).

(** The lines for the threads [thread_at(i)], up to the first that is not there. *)
Fixpoint dump_thread_lines (n i : nat) (s : sched) : option (list piece) :=
  match n with
  | O => Some []
  | S n =>
    thread ← thread_at i s;
    if thread =? 0 then Some []
    else
      t ← threads s !! thread;
      rest ← dump_thread_lines n (S i) s;
      Some (thread_line t ++ rest)
  end.

Definition current_line (t : Thread) : list piece :=
  pr_err (lit "current thread: " ++ str (name_ t) ++ lit " (" ++ dec (id_ t) ++ lit ") on cpu " ++ dec (cpu_ t) ++ [Char 10]).

Definition threads_line (count : Z) : list piece := pr_err (lit "threads: " ++ dec count ++ lit " alive" ++ [Char 10]).

Definition dump_threads (self : Z) (s : sched) : option (list piece) :=
  first ← (if self =? 0 then Some [] else t ← threads s !! self; Some (current_line t));
  lines ← dump_thread_lines 16 0 s;
  Some (first ++ threads_line (thread_count s) ++ lines).

Definition module_state_name (s : ModuleState) : string :=
  match s with Registered => "registered"%string | Loading => "loading"%string | Modules.Ready => "ready"%string | Failed => "failed"%string end.

Section modules.
(** The version field, which nothing else reads. *)
Context {W : Type} (version : ModuleInfo -> list Z).

Definition module_line (m : Module_) : list piece :=
  pr_err (lit "  " ++ str (name (info m)) ++ lit " " ++ str (version (info m)) ++ lit " [" ++
    str (literal (module_state_name (Modules.state_ m))) ++ lit "]" ++ [Char 10]).

(** [n] modules from number [i] on. *)
Fixpoint dump_module_lines (n i : nat) (t : table W) : option (list piece) :=
  match n with
  | O => Some []
  | S n =>
    m ← module_at i t;
    rest ← dump_module_lines n (S i) t;
    Some (module_line m ++ rest)
  end.

Definition modules_line (count : nat) : list piece := pr_err (lit "modules: " ++ dec (Z.of_nat count) ++ lit " registered" ++ [Char 10]).

Definition dump_modules (t : table W) : option (list piece) :=
  lines ← dump_module_lines (module_count t) 0 t;
  Some (modules_line (module_count t) ++ lines).
End modules.

(** A line of the call trace; [name_of] are the names of the symbol table. *)
Definition print_symbol (table : list KsymEntry) (name_of : Z -> list Z) (address : Z) : list piece :=
  pr_err (match ksyms_lookup table address with
  | Some (name, offset) => lit "  [<" ++ hex address ++ lit ">] " ++ str (name_of name) ++ lit "+0x" ++ hex offset ++ [Char 10]
  | None => lit "  [<" ++ hex address ++ lit ">] ?" ++ [Char 10]
  end).

Definition backtrace_from (m : memory) (kernel_end : Z) (table : list KsymEntry) (name_of : Z -> list Z) (rip rbp : Z) : option (list piece) :=
  l ← Trace.backtrace_from m kernel_end rip rbp;
  Some (Text (literal "call trace:" ++ [10]) :: concat (print_symbol table name_of <$> l)).

(** What the report reads: memory, the image's end and symbols, the stacks, the control
    registers, the threads and the modules. *)
Record world (W : Type) := mkWorld {
  mem : memory; kernel_end : Z; ksyms : list KsymEntry; name_of : Z -> list Z;
  stacks : layout; guards_unmapped : bool; control : ControlRegisters;
  self : Z; threads_ : sched; modules : table W; version : ModuleInfo -> list Z }.
#[global] Arguments mem {W} _. #[global] Arguments kernel_end {W} _. #[global] Arguments ksyms {W} _. #[global] Arguments name_of {W} _.
#[global] Arguments stacks {W} _. #[global] Arguments guards_unmapped {W} _. #[global] Arguments control {W} _.
#[global] Arguments self {W} _. #[global] Arguments threads_ {W} _. #[global] Arguments modules {W} _. #[global] Arguments version {W} _.

Definition banner (message : list piece) : list piece := Text (10 :: literal "*** kernel panic: ") :: message ++ [Char 10].

(** The report of [panic]; [here] and [frame] are its own return address and frame. *)
Definition panic {W} (w : world W) (message : list piece) (here frame : Z) : option (list piece) :=
  guards ← dump_stack_guards (stacks w) (mem w) (guards_unmapped w);
  trace ← backtrace_from (mem w) (kernel_end w) (ksyms w) (name_of w) here frame;
  threads ← dump_threads (self w) (threads_ w);
  mods ← dump_modules (version w) (modules w);
  Some (banner message ++ dump_control_registers (control w) ++ guards ++ trace ++ threads ++ mods).

Definition panic_with_registers {W} (w : world W) (regs : Registers) (message : list piece) : option (list piece) :=
  code ← dump_instruction_bytes (mem w) (rip regs);
  guards ← dump_stack_guards (stacks w) (mem w) (guards_unmapped w);
  trace ← backtrace_from (mem w) (kernel_end w) (ksyms w) (name_of w) (rip regs) (rbp regs);
  threads ← dump_threads (self w) (threads_ w);
  mods ← dump_modules (version w) (modules w);
  Some (banner message ++ dump_registers regs ++ dump_control_registers (control w) ++ code ++ guards ++ trace ++ threads ++ mods).

(** [halt] *)
Definition halted_text : list Z := literal "system halted" ++ [10].

(** The lines in front of the panic of a fault; [cr2] is [fault_address()]. *)
Definition report_double_fault (L : layout) (cr2 : Z) (regs : Registers) : list piece :=
  let stack := match guard_page_owner L cr2 with Some s => Some s | None => guard_page_owner L (rsp regs) end in
  match stack with
  | Some s => pr_err (lit "the " ++ str (literal s) ++ lit " stack overflowed into its guard page, rsp " ++ hex (rsp regs) ++ [Char 10])
  | None => []
  end.

Definition bit_text (error_code mask : Z) (yes no : string) : list piece :=
  str (literal (if negb (Z.land error_code mask =? 0) then yes else no)).

Definition report_page_fault (L : layout) (kernel_start kernel_end cr2 : Z) (regs : Registers) : list piece :=
  match guard_page_owner L cr2 with
  | Some s => pr_err (lit "the " ++ str (literal s) ++ lit " stack overflowed into its guard page at " ++ hex cr2 ++ [Char 10])
  | None =>
    pr_err (lit "page fault at " ++ hex cr2 ++ lit " in " ++ str (literal (region_name kernel_start kernel_end cr2)) ++ lit ": " ++
      bit_text (error_code regs) 1 "protection violation" "page not present" ++ lit ", " ++
      bit_text (error_code regs) 2 "write" "read" ++ lit ", " ++
      bit_text (error_code regs) 4 "user mode" "kernel mode" ++
      bit_text (error_code regs) 8 ", reserved bit set" "" ++
      bit_text (error_code regs) 16 ", instruction fetch" "" ++ [Char 10])
  end.

(** *** The report gets made *)

Lemma guards_reported L m unmapped : unmapped = true \/ (forall k, 0 <= k < 4 -> Memory.mapped m (guard_of L k) page_size) ->
  is_Some (dump_stack_guards L m unmapped).
Proof.
  intros Hu. assert (exists r, intact_scan 4 0 L m unmapped = Some r) as [r E].
  { destruct unmapped; [by eexists|]. destruct Hu as [?|Hm]; [done|]. destruct (intact_scan_spec L m 4 0) as (r & E & _); [done|done|done|by exists r]. }
  unfold dump_stack_guards, stack_guards_intact, overflowed_stack_name. rewrite E. cbn. by destruct r.
Qed.

(** The threads of a list of addresses. *)
Definition roster_of (s : sched) (l : list Z) (ts : list Thread) : Prop := Forall2 (fun x t => threads s !! x = Some t) l ts.

(** The lines from number [i] on are those of the next [n] threads of the list. *)
Lemma thread_lines_reported s l ts : listed s l -> roster_of s l ts -> forall n i,
  dump_thread_lines n i s = Some (concat (thread_line <$> take n (drop i ts))).
Proof.
  intros Hl Hts. induction n as [|n IH]; intros i; cbn [dump_thread_lines]; [by rewrite take_0|].
  rewrite (thread_at_listed _ _ _ Hl). cbn [mbind option_bind]. destruct (l !! i) as [x|] eqn:Ex; cbn [from_option default id].
  - destruct (Forall2_lookup_l _ _ _ _ _ Hts Ex) as (t & Et & Ht). destruct (listed_known s l x Hl) as [Hx _]; [by eapply list_elem_of_lookup_2|].
    change (default 0 (Some x)) with x. rewrite (proj2 (Z.eqb_neq x 0) Hx), Ht. cbn [mbind option_bind]. rewrite IH. cbn [mbind option_bind]. by rewrite (drop_S _ _ _ Et).
  - cbn. apply lookup_ge_None in Ex. rewrite (Forall2_length _ _ _ Hts) in Ex. rewrite drop_ge by done. done.
Qed.

Lemma listed_roster s l : listed s l -> exists ts, roster_of s l ts.
Proof.
  intros Hl. assert (forall l', l' ⊆ l -> exists ts, roster_of s l' ts) as H; [|by apply H].
  induction l' as [|x l' IH]; intros Hs; [by exists []; constructor|]. destruct IH as [ts Hts]; [set_solver|].
  destruct (listed_known s l x Hl) as [_ [t Ht]]; [set_solver|]. exists (t :: ts). by constructor.
Qed.

Lemma dump_threads_listed self s l ts : listed s l -> roster_of s l ts -> self = 0 \/ is_Some (threads s !! self) ->
  dump_threads self s = Some ((if self =? 0 then [] else from_option current_line [] (threads s !! self)) ++ threads_line (thread_count s) ++ concat (thread_line <$> take 16 ts)).
Proof.
  intros Hl Hts Hs. unfold dump_threads. rewrite (thread_lines_reported _ _ _ Hl Hts), drop_0. destruct (Z.eqb_spec self 0) as [->|Hne].
  - done.
  - destruct Hs as [?|[u ->]]; done.
Qed.

(** One line for every module, in order. *)
Lemma modules_reported {W} (v : ModuleInfo -> list Z) (t : table W) : Modules.inv t ->
  dump_modules v t = Some (modules_line (length (active t)) ++ concat (module_line v <$> active t)).
Proof.
  intros [Hl Hreg _ _ _ _ _ _]. assert (length (active t) = registered t) as Hlen by (unfold active; rewrite length_take; lia).
  assert (forall n i, (i + n = registered t)%nat -> dump_module_lines v n i t = Some (concat (module_line v <$> drop i (active t)))) as Hlines.
  { induction n as [|n IH]; intros i Hi; cbn [dump_module_lines]; [rewrite drop_ge by lia; done|]. unfold module_at. rewrite (proj2 (Nat.ltb_lt i _)) by lia.
    destruct (slots t !! i) as [m|] eqn:Em; [|apply lookup_ge_None in Em; lia]. cbn [mbind option_bind]. rewrite (IH (S i)) by lia. cbn [mbind option_bind].
    assert (active t !! i = Some m) as Ea by (unfold active; rewrite lookup_take_lt by lia; done). by rewrite (drop_S _ _ _ Ea). }
  unfold dump_modules, module_count. rewrite (Hlines (registered t) 0%nat) by lia. by rewrite Hlen.
Qed.

(** The [n] bytes at [a] lie on no guard page that has been unmapped. *)
Definition clear {W} (w : world W) (a n : Z) : Prop := guards_unmapped w = true ->
  forall k, 0 <= k < 4 -> a + n <= guard_of (stacks w) k \/ guard_of (stacks w) k + page_size <= a.

Lemma clear_inside {W} (w : world W) a n i : clear w a n -> 0 <= i < n -> clear w (a + i) 1.
Proof. intros Hc Hi Hu k Hk. destruct (Hc Hu k Hk); lia. Qed.

(** C21: the report of an exception is made, and it is, in this order: the message, the
    registers, the control registers, the code at the instruction pointer, the overflowed
    stack, the call trace of at most 25 addresses in the kernel's text, the current thread,
    a line for each of the first sixteen threads and one for each module.  The threads and
    modules may be in any state the scheduler and the module table can reach; of memory only
    what lies between the first megabyte and the first gigabyte is read, all of it mapped
    but the guard pages.  What is asked of the interrupted code is that its instruction
    pointer and the frames its frame pointer leads to lie neither on an unmapped guard page
    nor in the last 16 bytes of the address space; [guard_frame_faults] and [dump_wraps]
    are what happens there. *)
Theorem panic_report_made {W} (w : world W) (root : Z) regs message :
  (forall a, image_start <= a < mapped_limit -> clear w a 1 -> is_Some (mem w !! a)) ->
  guards_unmapped w = true \/ (forall k, 0 <= k < 4 -> Memory.mapped (mem w) (guard_of (stacks w) k) page_size) ->
  Scheduler.reachable root (threads_ w) -> self w = 0 \/ is_Some (threads (threads_ w) !! self w) -> Modules.inv (modules w) ->
  0 <= rip regs < 2 ^ 64 - 16 -> clear w (rip regs) 16 ->
  (forall g, rtc (follows (mem w)) (rbp regs) g -> g < 2 ^ 64 - 16 /\ clear w g 16) ->
  exists code guards addresses roster ts,
    panic_with_registers w regs message = Some (
      banner message ++ dump_registers regs ++ dump_control_registers (control w) ++ code ++ guards ++
      (Text (literal "call trace:" ++ [10]) :: concat (print_symbol (ksyms w) (name_of w) <$> addresses)) ++
      ((if self w =? 0 then [] else from_option current_line [] (threads (threads_ w) !! self w)) ++ threads_line (thread_count (threads_ w)) ++ concat (thread_line <$> take 16 ts)) ++
      modules_line (length (active (modules w))) ++ concat (module_line (version w) <$> active (modules w))) /\
    dump_instruction_bytes (mem w) (rip regs) = Some code /\
    dump_stack_guards (stacks w) (mem w) (guards_unmapped w) = Some guards /\
    Trace.backtrace_from (mem w) (kernel_end w) (rip regs) (rbp regs) = Some addresses /\
    (length addresses <= 25)%nat /\ Forall (fun a => plausible_text (kernel_end w) a = true) addresses /\
    listed (threads_ w) roster /\ roster_of (threads_ w) roster ts.
Proof.
  intros Hm Hg Hr Hs Hi Hrip Hcl Hch.
  assert (forall a, image_start <= a -> a + 16 < mapped_limit -> clear w a 16 -> forall i, 0 <= i < 16 -> is_Some (mem w !! (a + i))) as Hread.
  { intros a H1 H2 Hc i Hi'. apply Hm; [lia|]. by eapply clear_inside. }
  assert (is_Some (dump_instruction_bytes (mem w) (rip regs))) as [code Ecode].
  { unfold dump_instruction_bytes. destruct (dump_returns (mem w) (rip regs)) as (text & -> & _); [by intros; apply Hread|done|]. by destruct text. }
  destruct (guards_reported _ _ _ Hg) as [g Eg].
  destruct (backtrace_safe (mem w) (kernel_end w) (rip regs) (rbp regs)) as (l & El & Hl & Ht).
  { intros f Hf Hp. destruct (Hch f Hf) as [Htop Hc].
    assert (0 <= f) as Hf0. { unfold plausible_frame in Hp. breflect. change image_start with 1048576 in *. lia. }
    apply plausible_frame_spec in Hp as (H1 & H2 & _); [|lia].
    split; apply rd_le_some; intros k Hk; change (Z.of_nat 8) with 8 in Hk; [replace (f + 8 + k) with (f + (8 + k)) by lia|]; apply Hread; (done || lia). }
  destruct (reachable_listed _ _ Hr) as [roster Hro]. destruct (listed_roster _ _ Hro) as [ts Hts].
  exists code, g, l, roster, ts. split; [|by split_and!]. unfold panic_with_registers, backtrace_from.
  rewrite Ecode, Eg, El, (modules_reported (version w) _ Hi). cbn [mbind option_bind].
  rewrite (dump_threads_listed _ _ _ _ Hro Hts Hs). done.
Qed.

(** A gigabyte of zeroes without the guard pages of the stacks. *)
Definition off_guards (L : layout) (p : Z * Z) : Prop := Forall (fun k => p.1 + 1 <= guard_of L k \/ guard_of L k + page_size <= p.1) [0; 1; 2; 3].
Definition guarded_image : memory := filter (off_guards demo_layout) zero_image.

Lemma guarded_image_lookup a : image_start <= a < mapped_limit -> off_guards demo_layout (a, 0) -> guarded_image !! a = Some 0.
Proof. intros Ha Hg. apply map_lookup_filter_Some. split; [by apply zero_image_lookup|done]. Qed.

Lemma guard_pages_unmapped k a : 0 <= k < 4 -> guard_of demo_layout k <= a < guard_of demo_layout k + page_size -> guarded_image !! a = None.
Proof.
  intros Hk Ha. apply map_lookup_filter_None. right. intros v _ Hg. unfold off_guards in Hg. rewrite Forall_forall in Hg.
  destruct (Hg k); [|cbn in *; lia..]. rewrite !elem_of_cons. lia.
Qed.

Definition demo_world (s : sched) : world unit :=
  mkWorld unit guarded_image 0x400000 Trace.demo_table (fun _ => literal "name") demo_layout true (mkControl 0x80010033 0 0x1000 0x20)
    0 s (Modules.boot tt) (fun _ => literal "1.0").
Definition demo_registers : Registers :=
  mkRegisters 0 0 0 0 0 0 0 0 0x210000 0 0 0 0 0 0 14 2 0x100010 8 0x202 0x200000 16.

Lemma panic_report_made_witness : exists s report, Scheduler.demo_boot = Some s /\
  panic_with_registers (demo_world s) demo_registers (lit "cpu exception") = Some report /\
  banner (lit "cpu exception") ++ dump_registers demo_registers `prefix_of` report.
Proof.
  destruct Scheduler.demo_reachable as (s & E & Hr).
  assert (forall a, (a = 0x100010 \/ a = 0x210000) -> clear (demo_world s) a 16) as Hclear.
  { intros a Ha _ k Hk. change (stacks (demo_world s)) with demo_layout. assert (k = 0 \/ k = 1 \/ k = 2 \/ k = 3) as Hc by lia.
    destruct Hc as [->|[->|[->| ->]]]; destruct Ha as [->| ->]; vm_compute; first [left; discriminate|right; discriminate]. }
  destruct (panic_report_made (demo_world s) 7 demo_registers (lit "cpu exception"))
    as (code & guards & addresses & roster & ts & H1 & _).
  - intros a Ha Hc. exists 0. apply guarded_image_lookup; [exact Ha|]. apply Forall_forall. intros k Hk. apply (Hc eq_refl).
    rewrite !elem_of_cons, elem_of_nil in Hk. lia.
  - left. reflexivity.
  - exact Hr.
  - left. reflexivity.
  - apply (Modules.settled_boot tt).
  - cbn; lia.
  - apply Hclear. left. reflexivity.
  - intros g Hg. assert (g = 0x210000) as ->.
    { eapply zero_chain; [|discriminate|exact Hg]. intros k Hk. apply guarded_image_lookup; [change image_start with 1048576; change mapped_limit with 1073741824; cbn; lia|].
      apply Forall_forall. intros j Hj. destruct (Hclear 0x210000 (or_intror eq_refl) eq_refl j); [rewrite !elem_of_cons, elem_of_nil in Hj; lia|left|right];
      change (stacks (demo_world s)) with demo_layout in *; cbn [fst rbp demo_registers]; lia. }
    split; [lia|]. apply Hclear. right. reflexivity.
  - eexists s, _. split; [exact E|]. split; [exact H1|]. rewrite (assoc_L (++) (banner _)). apply prefix_app_r. reflexivity.
Defined.
End Report.

Module Output.
Import Report.

(** The accesses of the writers: the console lock, the characters, [smp_halt_others]
    and the end of [halt]. *)
Inductive instr := Begin | Put (c : Z) | End | HaltOthers | DebugExit | Hlt.
#[global] Instance instr_eq : EqDecision instr.
Proof. solve_decision. Defined.

Definition console_put (c : Z) : list instr := [Begin; Put c; End].
Definition console_write (text : list Z) : list instr := Begin :: (Put <$> text) ++ [End].
Definition put_piece (p : piece) : list instr := match p with Char c => console_put c | Text t => console_write t end.
Definition put_pieces (l : list piece) : list instr := concat (put_piece <$> l).

Definition printk (level : LogLevel) (l : list piece) : list instr := put_pieces (Text (level_prefix level) :: l).

Definition halt (panic_exit : bool) : list instr :=
  console_write halted_text ++ (if panic_exit then [DebugExit] else []) ++ [Hlt].

(** [panic] and [panic_with_registers], for the report they make. *)
Definition panic (panic_exit : bool) (report : list piece) : list instr :=
  Begin :: HaltOthers :: put_pieces report ++ End :: halt panic_exit.

(** A CPU: what it has left to do, and whether it has stopped for good. *)
Record cpu := mkCpu { code : list instr; stopped : bool }.

(** The console lock (its owner and depth), what was written and by whom, [halting] and
    the CPUs an NMI is on its way to. *)
Record state := mk {
  owner : option nat; depth : nat; out : list (nat * Z); halting : bool; nmi : nat -> bool; cpus : nat -> cpu }.

Definition set_cpu (i : nat) (c : cpu) (s : state) : state := mk (owner s) (depth s) (out s) (halting s) (nmi s) (<[i := c]> (cpus s)).
Definition set_lock (o : option nat) (d : nat) (s : state) : state := mk o d (out s) (halting s) (nmi s) (cpus s).
Definition emit (i : nat) (c : Z) (s : state) : state := mk (owner s) (depth s) (out s ++ [(i, c)]) (halting s) (nmi s) (cpus s).

(** An NMI to every other CPU: delivery mode 4 in the command register. *)
Definition nmi_to_others (a : access) : bool :=
  match a with
  | LapicWrite r v => (r =? reg_icr_low) && (Z.land (Z.shiftr v 18) 3 =? 3) && (Z.land (Z.shiftr v 8) 7 =? 4)
  | _ => false
  end.

(** From here on the NMI counts as delivered: a CPU it is on its way to executes nothing
    more.  On the machine it arrives a little later; the lock the caller holds keeps
    such a CPU off the consoles in between. *)
Definition smp_halt_others (l : lapic) (i : nat) (s : state) : state :=
  let s := mk (owner s) (depth s) (out s) true (nmi s) (cpus s) in
  if lapic_present l && existsb nmi_to_others (lapic_broadcast_nmi l)
  then mk (owner s) (depth s) (out s) (halting s) (fun j => negb (j =? i)%nat || nmi s j) (cpus s) else s.

Definition mine (i : nat) (s : state) : bool := bool_decide (owner s = Some i).

Inductive event :=
  | Call (i : nat) (l : list instr)     (* the CPU has something to write *)
  | Panic (i : nat) (l : list instr)    (* it panics, whatever it was doing *)
  | Run (i : nat)
  | Nmi (i : nat).

Section machine.
Context {C : Type} `{IoApicChip C} (n : nat) (trampoline : Z) (m : machine C).

(** An NMI cannot be masked: a CPU it has reached does nothing but answer it. *)
Definition alive (i : nat) (s : state) : bool := (i <? n)%nat && negb (stopped (cpus s i)) && negb (nmi s i).

Definition exec (i : nat) (s : state) : option state :=
  match code (cpus s i) with
  | [] => None
  | x :: rest =>
    let s' := set_cpu i (mkCpu rest (stopped (cpus s i))) s in
    match x with
    | Begin =>
      match owner s with
      | None => Some (set_lock (Some i) 1 s')
      | Some j => if (j =? i)%nat then Some (set_lock (Some i) (S (depth s)) s') else None
      end
    | Put c => Some (emit i c s')
    | End => Some (if (depth s =? 1)%nat then set_lock None 0 s' else set_lock (owner s) (depth s - 1) s')
    | HaltOthers => Some (smp_halt_others (lapic_ m) i s')
    | DebugExit => Some s'
    | Hlt => None
    end
  end.

Definition step (e : event) (s : state) : option state :=
  match e with
  | Call i l => if alive i s && bool_decide (code (cpus s i) = []) then Some (set_cpu i (mkCpu l (stopped (cpus s i))) s) else None
  | Panic i l => if alive i s then Some (set_cpu i (mkCpu l (stopped (cpus s i))) s) else None
  | Run i => if alive i s then exec i s else None
  | Nmi i =>
    if nmi s i && negb (stopped (cpus s i)) then
      match isr_dispatch trampoline 2 8 (halting s) false m with
      | [Stop] => Some (set_cpu i (mkCpu (code (cpus s i)) true) s)
      | _ => None
      end
    else None
  end.

Fixpoint run (es : list event) (s : state) : option state :=
  match es with [] => Some s | e :: es => s ← step e s; run es s end.

Definition init : state := mk None 0 [] false (fun _ => false) (fun _ => mkCpu [] false).

(** What CPUs call: messages, strings and panics. *)
Definition legal (e : event) : Prop :=
  match e with
  | Call _ l => exists ps, l = put_pieces ps
  | Panic _ l => exists b ps, l = panic b ps
  | _ => True
  end.

Inductive reachable : state -> Prop :=
  | reach_init : reachable init
  | reach_step e s s' : reachable s -> legal e -> step e s = Some s' -> reachable s'.
End machine.

(** ** The lock and the report *)

(** The code is fit for a CPU that holds the lock [d] deep: it writes, releases and
    stops the others only while it holds the lock. *)
Fixpoint fits (d : nat) (c : list instr) : bool :=
  match c with
  | [] => true
  | Begin :: c => fits (S d) c
  | End :: c => match d with O => false | S d => fits d c end
  | Put _ :: c | HaltOthers :: c => negb (d =? 0)%nat && fits d c
  | DebugExit :: c | Hlt :: c => fits d c
  end.

(** How deep CPU [i] holds it. *)
Definition held (i : nat) (s : state) : nat := if mine i s then depth s else 0.

Lemma fits_more c : forall d, fits d c = true -> fits (S d) c = true.
Proof.
  induction c as [|x c IH]; intros d Hf; [done|]. destruct x; cbn in *; auto.
  - destruct d; [done|]. cbn in *. auto.
  - destruct d; [done|]. auto.
  - destruct d; [done|]. cbn in *. auto.
Qed.

Lemma fits_any c : fits 0 c = true -> forall d, fits d c = true.
Proof. intros H0 d. induction d; [done|by apply fits_more]. Qed.

(** Messages leave the depth as it is. *)
Lemma pieces_fit l c d : fits d c = true -> fits d (put_pieces l ++ c) = true.
Proof.
  intros Hc. induction l as [|p l IH]; [done|]. change (put_pieces (p :: l)) with (put_piece p ++ put_pieces l). rewrite <- app_assoc.
  destruct p as [x|t]; [done|]. cbn. induction t as [|x t IHt]; cbn; done.
Qed.

Lemma panic_fits b l d : fits d (panic b l) = true.
Proof. cbn. apply pieces_fit. cbn. apply fits_any. by destruct b. Qed.

Section invariant.
Context {C : Type} `{IoApicChip C} (n : nat) (trampoline : Z) (m : machine C).

(** The lock is free and its depth 0, or held; and every CPU's code fits. *)
Record inv (s : state) : Prop := {
  inv_depth : (depth s = 0)%nat <-> owner s = None;
  inv_fits : forall i, fits (held i s) (code (cpus s i)) = true }.

Lemma held_owner i s : inv s -> (0 < held i s)%nat <-> owner s = Some i.
Proof.
  intros Hi. unfold held, mine. case_bool_decide as Ho; [|split; [lia|done]]. split; [done|]. intros _.
  pose proof (inv_depth _ Hi) as Hd. destruct (depth s); [|lia]. by rewrite (proj1 Hd) in Ho.
Qed.

(** Code that replaces the code of one CPU. *)
Lemma set_cpu_inv i c s : inv s -> fits (held i s) (code c) = true -> inv (set_cpu i c s).
Proof.
  intros Hi Hf. split; [apply Hi|]. intros j. change (held j (set_cpu i c s)) with (held j s). cbn.
  destruct (decide (j = i)) as [->|Hne]; [by rewrite fn_lookup_insert|]. rewrite fn_lookup_insert_ne by done. by apply inv_fits.
Qed.

(** A change of the lock by a CPU that holds it or finds it free. *)
Lemma set_lock_inv i c o d s : inv s -> owner s = None \/ owner s = Some i -> (o = None /\ d = 0%nat) \/ (o = Some i /\ (0 < d)%nat) ->
  fits d (code c) = true -> inv (set_lock o d (set_cpu i c s)).
Proof.
  intros Hi Ho Hod Hf. split; [cbn; destruct Hod as [[-> ->]|[-> Hd]]; [done|split; [lia|done]]|]. intros j. unfold held, mine. cbn.
  destruct (decide (j = i)) as [->|Hne].
  - rewrite fn_lookup_insert. destruct Hod as [[-> ->]|[-> Hd]]; [done|]. by rewrite bool_decide_true.
  - rewrite fn_lookup_insert_ne by done. pose proof (inv_fits _ Hi j) as Hj. unfold held, mine in Hj.
    rewrite bool_decide_false in Hj by (destruct Ho as [-> | ->]; congruence). rewrite bool_decide_false; [done|].
    destruct Hod as [[-> _]|[-> _]]; congruence.
Qed.

Lemma output_exec_inv i s s' : inv s -> exec m i s = Some s' -> inv s'.
Proof.
  intros Hi E. pose proof (inv_fits _ Hi i) as Hf. unfold exec in E. destruct (code (cpus s i)) as [|x c]; [done|].
  destruct x as [|z| | | |]; cbn [fits] in Hf; try done.
  - destruct (owner s) as [j|] eqn:Ho.
    + destruct (Nat.eqb_spec j i) as [->|]; [|done]. injection E as <-. apply set_lock_inv; [done|tauto|right; split; [done|lia]|].
      unfold held, mine in Hf. by rewrite bool_decide_true in Hf.
    + injection E as <-. apply set_lock_inv; [done|tauto|right; split; [done|lia]|]. unfold held, mine in Hf. by rewrite bool_decide_false in Hf by congruence.
  - injection E as <-. apply andb_true_iff in Hf as [_ Hf]. destruct (set_cpu_inv i (mkCpu c (stopped (cpus s i))) s Hi Hf). by split.
  - destruct (held i s) as [|d] eqn:Hd; [done|]. assert (owner s = Some i) as Ho by (apply held_owner; [done|lia]).
    unfold held, mine in Hd. rewrite bool_decide_true in Hd by done. rewrite Hd in E. injection E as <-. destruct d as [|d]; cbn.
    + apply set_lock_inv; try done; tauto.
    + rewrite Ho. apply set_lock_inv; try done; [tauto|right; split; [done|lia]].
  - injection E as <-. apply andb_true_iff in Hf as [_ Hf]. destruct (set_cpu_inv i (mkCpu c (stopped (cpus s i))) s Hi Hf).
    unfold smp_halt_others. destruct (_ && _); by split.
  - injection E as <-. exact (set_cpu_inv i (mkCpu c (stopped (cpus s i))) s Hi Hf).
Qed.

Lemma output_step_inv e s s' : inv s -> legal e -> step n trampoline m e s = Some s' -> inv s'.
Proof.
  intros Hi Hl E. destruct e as [i l|i l|i|i]; cbn in E, Hl.
  - destruct (alive n i s); [|done]. case_bool_decide; [|done]. injection E as <-. destruct Hl as [ps ->].
    apply set_cpu_inv; [done|]. cbn. rewrite <- (app_nil_r (put_pieces ps)). by apply pieces_fit.
  - destruct (alive n i s); [|done]. injection E as <-. destruct Hl as (b & ps & ->). apply set_cpu_inv; [done|]. apply panic_fits.
  - destruct (alive n i s); [|done]. by eapply output_exec_inv.
  - destruct (nmi s i && _); [|done]. destruct (isr_dispatch _ _ _ _ _ _) as [|[] [|? ?]]; try done. injection E as <-.
    apply set_cpu_inv; [done|]. by apply inv_fits.
Qed.

Lemma output_reachable_inv s : reachable n trampoline m s -> inv s.
Proof. induction 1 as [|e s s' _ IH Hl E]; [|by eapply output_step_inv]. by split. Qed.

(** Only the CPU that holds the lock writes. *)
Lemma only_holder_writes e s s' : inv s -> step n trampoline m e s = Some s' ->
  out s' = out s \/ exists i c, e = Run i /\ owner s = Some i /\ out s' = out s ++ [(i, c)].
Proof.
  intros Hi E. destruct e as [i l|i l|i|i]; cbn in E.
  - destruct (_ && _); [|done]. injection E as <-. by left.
  - destruct (alive n i s); [|done]. injection E as <-. by left.
  - destruct (alive n i s); [|done]. pose proof (inv_fits _ Hi i) as Hf. unfold exec in E. destruct (code (cpus s i)) as [|x c]; [done|].
    destruct x as [|z| | | |].
    + destruct (owner s) as [j|]; [destruct (j =? i)%nat; [|done]|]; injection E as <-; by left.
    + right. exists i, z. injection E as <-. split; [done|]. split; [|done]. apply held_owner; [done|].
      cbn in Hf. destruct (held i s); [done|lia].
    + injection E as <-. left. by destruct (depth s =? 1)%nat.
    + injection E as <-. left. unfold smp_halt_others. by destruct (_ && _).
    + injection E as <-. by left.
    + done.
  - destruct (nmi s i && _); [|done]. destruct (isr_dispatch _ _ _ _ _ _) as [|[] [|? ?]]; try done. injection E as <-. by left.
Qed.

(** *** The CPU that panicked *)

Fixpoint written (c : list instr) : list Z :=
  match c with [] => [] | Put x :: c => x :: written c | _ :: c => written c end.

Lemma written_app c c' : written (c ++ c') = written c ++ written c'.
Proof. induction c as [|x c IH]; [done|]. destruct x; cbn; by rewrite ?IH. Qed.

Lemma written_puts t : written (Put <$> t) = t.
Proof. induction t as [|x t IH]; [done|]. cbn. by rewrite IH. Qed.

Lemma written_pieces l : written (put_pieces l) = concat (text_of <$> l).
Proof.
  induction l as [|p l IH]; [done|]. change (put_pieces (p :: l)) with (put_piece p ++ put_pieces l). rewrite written_app, IH.
  rewrite fmap_cons. cbn [concat]. f_equal. destruct p as [c|t]; [done|]. cbn. by rewrite written_app, written_puts, app_nil_r.
Qed.

(** Alone on the machine, its code ending in the endless [hlt]. *)
Record solo (j : nat) (s : state) : Prop := {
  solo_alive : alive n j s = true;
  solo_others : forall k, k <> j -> alive n k s = false;
  solo_lock : owner s = None \/ owner s = Some j;
  solo_code : exists c, code (cpus s j) = c ++ [Hlt] /\ Hlt ∉ c }.

Lemma solo_exec j s : solo j s -> code (cpus s j) <> [Hlt] -> exists s', exec m j s = Some s' /\ solo j s' /\
  (length (code (cpus s' j)) < length (code (cpus s j)))%nat /\
  out s' ++ (pair j <$> written (code (cpus s' j))) = out s ++ (pair j <$> written (code (cpus s j))).
Proof.
  intros [Ha Ho Hl (c & Ec & Hc)] Hn. destruct c as [|x c]; [done|]. cbn in Ec.
  assert (forall s', cpus s' = <[j := mkCpu (c ++ [Hlt]) (stopped (cpus s j))]> (cpus s) -> (nmi s' = nmi s \/ nmi s' = fun k => negb (k =? j)%nat || nmi s k) ->
    owner s' = None \/ owner s' = Some j -> solo j s' /\ code (cpus s' j) = c ++ [Hlt]) as Hgo.
  { intros s' E1 E2 E3. unfold alive in *. rewrite E1, fn_lookup_insert. split; [|done]. split; unfold alive; rewrite ?E1; [| |done|].
    - rewrite fn_lookup_insert. cbn. destruct E2 as [-> | ->]; [done|]. by rewrite Nat.eqb_refl.
    - intros k Hk. rewrite fn_lookup_insert_ne by done. specialize (Ho k Hk). destruct E2 as [-> | ->]; [done|].
      destruct (k <? n)%nat, (stopped (cpus s k)); cbn in *; try done. apply negb_false_iff in Ho. by rewrite Ho, orb_true_r.
    - rewrite fn_lookup_insert. exists c. split; [done|]. set_solver. }
  assert (forall s', solo j s' /\ code (cpus s' j) = c ++ [Hlt] -> written (x :: c ++ [Hlt]) = written (c ++ [Hlt]) -> out s' = out s ->
    exec m j s = Some s' -> exists s', exec m j s = Some s' /\ solo j s' /\
    (length (code (cpus s' j)) < length (code (cpus s j)))%nat /\
    out s' ++ (pair j <$> written (code (cpus s' j))) = out s ++ (pair j <$> written (code (cpus s j)))) as Hend.
  { intros s' [H1 H2] Hw Hout E. exists s'. rewrite Ec, H2, Hw, Hout. cbn. split_and!; try done; lia. }
  unfold exec in *. rewrite Ec in *. destruct x as [|z| | | |].
  - destruct Hl as [El|El]; rewrite El in *.
    + eapply Hend; [| | |done]; [apply Hgo; cbn; auto|done|done].
    + rewrite Nat.eqb_refl in *. eapply Hend; [| | |done]; [apply Hgo; cbn; auto|done|done].
  - eexists. split; [done|]. edestruct Hgo as [H1 H2]; [| | |split; [exact H1|]]; cbn; auto. rewrite fn_lookup_insert. cbn. split; [lia|].
    by rewrite <- app_assoc.
  - eapply Hend; [| | |done]; [|done|by destruct (depth s =? 1)%nat]. apply Hgo; destruct (depth s =? 1)%nat; cbn; auto.
  - eapply Hend; [| | |done]; [|done|unfold smp_halt_others; by destruct (_ && _)]. unfold smp_halt_others.
    apply Hgo; destruct (_ && _); cbn; auto.
  - eapply Hend; [| | |done]; [apply Hgo; cbn; auto|done|done].
  - set_solver.
Qed.

Lemma solo_step j e s s' : solo j s -> step n trampoline m e s = Some s' -> (forall l, e <> Panic j l) ->
  solo j s' /\ out s' ++ (pair j <$> written (code (cpus s' j))) = out s ++ (pair j <$> written (code (cpus s j))).
Proof.
  intros Hs E Hp. pose proof Hs as [Ha Ho Hl (c & Ec & Hc)].
  assert (forall i, alive n i s = true -> i = j) as Hj.
  { intros i Hi. destruct (decide (i = j)) as [|Hne]; [done|]. by rewrite Ho in Hi. }
  destruct e as [i l|i l|i|i]; cbn in E.
  - destruct (alive n i s) eqn:Hi; [|done]. apply Hj in Hi as ->. rewrite Ec in E. by destruct c.
  - destruct (alive n i s) eqn:Hi; [|done]. apply Hj in Hi as ->. by destruct (Hp l).
  - destruct (alive n i s) eqn:Hi; [|done]. apply Hj in Hi as ->. destruct (decide (code (cpus s j) = [Hlt])) as [Eh|Hn].
    + unfold exec in E. by rewrite Eh in E.
    + destruct (solo_exec j s Hs Hn) as (s1 & E1 & H1 & _ & H2). rewrite E in E1. injection E1 as <-. done.
  - destruct (nmi s i) eqn:Hn; [|done]. destruct (stopped (cpus s i)) eqn:Hst; [done|]. cbn in E.
    destruct (isr_dispatch _ _ _ _ _ _) as [|[] [|? ?]]; try done. injection E as <-.
    assert (i <> j) as Hne. { intros ->. unfold alive in Ha. by rewrite Hn, !andb_false_r in Ha. }
    cbn. rewrite fn_lookup_insert_ne by done. split; [|done]. split; unfold alive in *; cbn.
    + by rewrite fn_lookup_insert_ne.
    + intros k Hk. destruct (decide (k = i)) as [->|Hki]; [rewrite fn_lookup_insert; cbn; by rewrite andb_false_r|].
      rewrite fn_lookup_insert_ne by done. by apply Ho.
    + done.
    + rewrite fn_lookup_insert_ne by done. by exists c.
Qed.

Lemma solo_run j es : forall s s', solo j s -> run n trampoline m es s = Some s' -> (forall l, Panic j l ∉ es) ->
  solo j s' /\ out s' ++ (pair j <$> written (code (cpus s' j))) = out s ++ (pair j <$> written (code (cpus s j))).
Proof.
  induction es as [|e es IH]; intros s s' Hs E Hp; cbn in E; [by injection E as <-|]. apply bind_Some_inv in E as (s1 & E1 & E).
  destruct (solo_step j e s s1 Hs E1) as [H1 H2]; [intros l ->; destruct (Hp l); set_solver|].
  destruct (IH s1 s' H1 E) as [H3 H4]; [intros l Hl; destruct (Hp l); set_solver|]. split; [done|]. by rewrite H4.
Qed.

(** Its own accesses are enough to get it to the end. *)
Lemma solo_finishes j : forall k s, solo j s -> (length (code (cpus s j)) <= k)%nat ->
  exists l s', run n trampoline m (replicate l (Run j)) s = Some s' /\ (l <= k)%nat /\ code (cpus s' j) = [Hlt].
Proof.
  induction k as [|k IH]; intros s Hs Hk.
  - destruct (solo_code _ _ Hs) as (c & Ec & _). rewrite Ec, length_app in Hk. cbn in Hk. lia.
  - destruct (decide (code (cpus s j) = [Hlt])) as [Eh|Hn]; [exists 0%nat, s; split_and!; [done|lia|done]|].
    destruct (solo_exec j s Hs Hn) as (s1 & E1 & H1 & Hlen & _). destruct (IH s1 H1) as (l & s2 & E2 & Hl & Eh); [lia|].
    exists (S l), s2. cbn. rewrite (solo_alive _ _ Hs), E1. cbn. split_and!; [done|lia|done].
Qed.

Hypothesis lapic_there : lapic_present (lapic_ m) = true.

Lemma nmi_sent i s : smp_halt_others (lapic_ m) i s = mk (owner s) (depth s) (out s) true (fun j => negb (j =? i)%nat || nmi s j) (cpus s).
Proof. unfold smp_halt_others, lapic_broadcast_nmi. by rewrite lapic_there. Qed.

Lemma halting_solo j c s s' : inv s -> code (cpus s j) = HaltOthers :: c ++ [Hlt] -> Hlt ∉ c ->
  step n trampoline m (Run j) s = Some s' -> solo j s' /\ code (cpus s' j) = c ++ [Hlt] /\ out s' = out s.
Proof.
  intros Hi Ec Hc E. cbn in E. destruct (alive n j s) eqn:Ha; [|done]. unfold exec in E. rewrite Ec in E. injection E as <-.
  assert (owner s = Some j) as Ho. { apply held_owner; [done|]. pose proof (inv_fits _ Hi j) as Hf. rewrite Ec in Hf. cbn in Hf. destruct (held j s); [done|lia]. }
  rewrite nmi_sent. cbn. rewrite fn_lookup_insert. split; [|done].
  unfold alive in Ha. split; unfold alive; cbn.
  - rewrite fn_lookup_insert, Nat.eqb_refl. done.
  - intros k Hk. rewrite (proj2 (Nat.eqb_neq k j)) by done. by rewrite andb_false_r.
  - by right.
  - rewrite fn_lookup_insert. by exists c.
Qed.
End invariant.

Lemma pieces_no_hlt l : Hlt ∉ put_pieces l.
Proof.
  induction l as [|p l IH]; [set_solver|]. change (put_pieces (p :: l)) with (put_piece p ++ put_pieces l).
  rewrite elem_of_app. intros [Hp|Hp]; [|done]. destruct p as [c|t]; cbn in Hp; [set_solver|].
  unfold console_write in Hp. rewrite elem_of_cons, elem_of_app, list_elem_of_fmap in Hp. set_solver.
Qed.

(** C20: a panic report comes out whole.  From the moment a CPU that holds the console
    lock stops the others, whatever they were doing and however the steps interleave,
    the consoles show the report and "system halted" and nothing else; and the CPU
    needs only its own steps to print what is left of it, so no CPU that was stopped
    can be holding it up. *)
Theorem panic_report_whole {C} `{IoApicChip C} n trampoline (m : machine C) s j b report es s1 s' :
  lapic_present (lapic_ m) = true -> reachable n trampoline m s ->
  code (cpus s j) = HaltOthers :: put_pieces report ++ End :: halt b ->
  step n trampoline m (Run j) s = Some s1 -> run n trampoline m es s1 = Some s' -> (forall l, Panic j l ∉ es) ->
  let whole := out s ++ (pair j <$> concat (text_of <$> report) ++ halted_text) in
  out s' ++ (pair j <$> written (code (cpus s' j))) = whole /\
  exists l s'', run n trampoline m (replicate l (Run j)) s' = Some s'' /\ out s'' = whole /\ code (cpus s'' j) = [Hlt].
Proof.
  intros Hl Hr Ec E1 E2 Hp whole. pose proof (output_reachable_inv _ _ _ _ Hr) as Hi.
  set (tail := End :: console_write halted_text ++ (if b then [DebugExit] else [])).
  assert (put_pieces report ++ End :: halt b = (put_pieces report ++ tail) ++ [Hlt]) as Et.
  { unfold tail, halt. by rewrite <- app_assoc, <- app_comm_cons, <- app_assoc. }
  rewrite Et in Ec. destruct (halting_solo n trampoline m Hl j (put_pieces report ++ tail) s s1 Hi Ec) as (Hs & Ec1 & Ho); [|done|].
  { rewrite elem_of_app. intros [Hx|Hx]; [by apply pieces_no_hlt in Hx|]. revert Hx. apply (bool_decide_unpack (Hlt ∉ tail)). by destruct b. }
  assert (out s1 ++ (pair j <$> written (code (cpus s1 j))) = whole) as Hw.
  { assert (written tail ++ written [Hlt] = halted_text) as Hh by (by destruct b).
    subst whole. by rewrite Ho, Ec1, !written_app, written_pieces, <- app_assoc, Hh. }
  destruct (solo_run n trampoline m j es s1 s' Hs E2 Hp) as [Hs' Hw']. split; [by rewrite Hw'|].
  destruct (solo_finishes n trampoline m j _ s' Hs' (le_n _)) as (l & s'' & E3 & _ & Eh). exists l, s''. split; [done|]. split; [|done].
  destruct (solo_run n trampoline m j _ s' s'' Hs' E3) as [_ Hw'']; [intros x Hx%elem_of_replicate_inv; done|].
  rewrite Eh in Hw''. cbn in Hw''. rewrite app_nil_r in Hw''. by rewrite Hw'', Hw', Hw.
Qed.

Lemma output_run_reachable {C} `{IoApicChip C} n trampoline (m : machine C) es : forall s s',
  reachable n trampoline m s -> Forall legal es -> run n trampoline m es s = Some s' -> reachable n trampoline m s'.
Proof.
  induction es as [|e es IH]; intros s s' Hr Hl E; cbn in E; [by injection E as <-|]. apply bind_Some_inv in E as (s1 & E1 & E).
  apply Forall_cons in Hl as [He Hl]. eapply IH; [|done|done]. by eapply reach_step.
Qed.

(** CPU 1 is in the middle of a message when CPU 0 panics. *)
Definition demo_report : list piece := banner (lit "oops").
Definition demo_events : list event :=
  [Call 1 (printk Info (lit "hello")); Run 1; Run 1; Panic 0 (panic false demo_report)] ++ replicate 6 (Run 1) ++ [Run 0].
Definition demo_state : state := default init (run 2 0 demo_machine demo_events init).

Lemma demo_code : code (cpus demo_state 0%nat) = HaltOthers :: put_pieces demo_report ++ End :: halt false.
Proof. vm_compute. reflexivity. Qed.
Lemma panic_demo_reachable : reachable 2 0 demo_machine demo_state.
Proof.
  eapply (output_run_reachable 2 0 demo_machine demo_events); [apply reach_init| |].
  - apply Forall_app. split; [|by repeat constructor].
    apply Forall_cons. split; [by eexists|]. do 2 (apply Forall_cons; split; [done|]). apply Forall_cons. split; [by do 2 eexists|constructor].
  - unfold demo_state. destruct (run 2 0 demo_machine demo_events init) as [s|] eqn:E; [reflexivity|]. exfalso. revert E. vm_compute. discriminate.
Qed.

Lemma panic_report_whole_witness : exists s1 s'', step 2 0 demo_machine (Run 0) demo_state = Some s1 /\
  out s'' = out demo_state ++ (pair 0%nat <$> concat (text_of <$> demo_report) ++ halted_text) /\ code (cpus s'' 0%nat) = [Hlt].
Proof.
  destruct (step 2 0 demo_machine (Run 0) demo_state) as [s1|] eqn:E; [|exfalso; revert E; vm_compute; discriminate].
  destruct (panic_report_whole 2 0 demo_machine demo_state 0 false demo_report [] s1 s1) as (_ & l & s'' & _ & H1 & H2).
  - reflexivity.
  - exact panic_demo_reachable.
  - exact demo_code.
  - exact E.
  - reflexivity.
  - intros l. apply not_elem_of_nil.
  - exists s1, s''. split; [reflexivity|]. split; [exact H1|exact H2].
Defined.

(** [printk] takes the lock for each character of its format, so two messages can mix
    letter by letter. *)
Example printk_interleaves :
  (fun s => snd <$> out s) <$> run 2 0 demo_machine
    ([Call 0 (put_pieces (lit "ab")); Call 1 (put_pieces (lit "xy"))] ++
     concat (replicate 2 [Run 0; Run 0; Run 0; Run 1; Run 1; Run 1])) init
  = Some (literal "axby").
Proof. vm_compute. reflexivity. Qed.
End Output.
