(* ===== verification/SelfTests.v ===== *)
(** * The self tests of the kernel (src/kernel/main.cpp)

    The tests the command line can ask for drive the heap, the module table and the
    threads and check what they see.  Here each is the program it is, over the models of
    the components, and the theorems say which of its checks can fail. *)

From stdpp Require Import functions.
From S2P Require Import Prelude Interfaces Memory PageAlloc Paging Vmalloc Heap Modules.

(** ** The heap (heap_selftest) *)

Module HeapTest.

Definition chunk : Z := 512 * 1024.
Definition chunks : nat := 8.

Inductive report :=
  | Failed (i : nat)                                (* "allocation i failed" *)
  | Passed (before peak in_use : Z).                (* the three capacities it prints *)

Section test.
Context {M : Type} `{PageMapper M}.

(** The allocating loop from chunk [i] on; the blocks taken so far are [blocks]. *)
Fixpoint take_chunks (n i : nat) (blocks : list Z) (h : heap) (m : M) (mem : memory) :
    option ((nat + list Z) * heap * M * memory) :=
  match n with
  | O => Some (inr blocks, h, m, mem)
  | S n =>
    '(p, h, m) ← kmalloc chunk h m;
    if p =? 0 then Some (inl i, h, m, mem)
    else mem ← memset mem p 0x5A chunk; take_chunks n (S i) (blocks ++ [p]) h m mem
  end.

Fixpoint free_chunks (blocks : list Z) (h : heap) : option heap :=
  match blocks with [] => Some h | p :: blocks => h ← kfree p h; free_chunks blocks h end.

Definition heap_selftest (h : heap) (m : M) (mem : memory) : option (report * heap * M * memory) :=
  let before := heap_capacity h in
  '(r, h, m, mem) ← take_chunks chunks 0 [] h m mem;
  match r with
  | inl i => Some (Failed i, h, m, mem)
  | inr blocks =>
    let peak := heap_capacity h in
    h ← free_chunks blocks h;
    Some (Passed before peak (heap_used h), h, m, mem)
  end.
End test.

Section proofs.
Context {M : Type} `{PageMapperSpec M}.

(** [kmalloc] adds one block to those in use. *)
Lemma kmalloc_adds h (m : M) l size p h' m' : Heap.inv h m l -> 0 <= size < 2 ^ 64 -> kmalloc size h m = Some (p, h', m') ->
  if p =? 0 then Heap.inv h' m' l
  else exists l' c, Heap.inv h' m' l' /\ p = addr c + sizeof_BlockHeader /\ ~ allocated l c /\
    (forall x, allocated l' x <-> allocated l x \/ x = c) /\ 0 < size <= bsize c.
Proof.
  intros Hi Hsz E. destruct (kmalloc_spec _ _ _ _ Hi Hsz) as (p1 & h1 & m1 & E1 & Hspec).
  rewrite E in E1. injection E1 as <- <- <-. cbv zeta in Hspec. destruct (p =? 0); [by destruct Hspec as [? _]|].
  destruct Hspec as (Hs & l1 & b & l2 & _ & [Hfr Hfit] & -> & Hi' & _ & Hcase). set (w := align_up size) in *.
  destruct (align_up_spec size) as (A1 & A2 & A3); [lia|]. fold w in A1, A2, A3.
  assert (forall x, allocated (l1 ++ b :: l2) x <-> allocated l x) as Hall.
  { intros x. destruct Hcase as [[-> _]|(_ & _ & ->)]; [done|]. rewrite allocated_merged by done. unfold allocated.
    rewrite elem_of_app, list_elem_of_singleton. split; [intros [[?| ->] ?]; [tauto|done]|tauto]. }
  exists (l1 ++ hand_out b w ++ l2), (mkBlock (addr b) (granted b w) false). split_and!; try done.
  - rewrite <- Hall. intros [Hin _]. pose proof (inv_links _ _ _ Hi') as Hl.
    pose proof (contig_NoDup _ _ _ (lk_ok _ _ Hl) (lk_contig _ _ Hl)) as Hnd.
    assert (exists r, hand_out b w = mkBlock (addr b) (granted b w) false :: r) as [r Er].
    { unfold hand_out, carve, granted. destruct (_ <? _); by eexists. }
    rewrite Er, fmap_app in Hnd. cbn in Hnd. rewrite fmap_app in Hnd. apply NoDup_app in Hnd as (_ & Hd1 & Hd2). apply NoDup_cons in Hd2 as [Hd2 _].
    rewrite elem_of_app, elem_of_cons in Hin. destruct Hin as [Hin|[Hb|Hin]].
    + apply (list_elem_of_fmap_2 addr) in Hin. apply (Hd1 _ Hin). cbn. set_solver.
    + rewrite <- Hb in Hfr. done.
    + apply (list_elem_of_fmap_2 addr) in Hin. cbn in Hin. apply Hd2. set_solver.
  - intros x. rewrite allocated_hand_out by done. by rewrite Hall.
  - lia.
  - cbn. unfold granted. destruct (_ <? _); lia.
Qed.

(** [kfree] removes it again. *)
Lemma kfree_removes h (m : M) l c : Heap.inv h m l -> allocated l c ->
  exists h' l', kfree (addr c + sizeof_BlockHeader) h = Some h' /\ Heap.inv h' m l' /\ forall x, allocated l' x <-> allocated l x /\ x <> c.
Proof.
  intros Hi [Hc Hf]. pose proof (inv_links _ _ _ Hi) as Hl. pose proof (contig_NoDup _ _ _ (lk_ok _ _ Hl) (lk_contig _ _ Hl)) as Hnd.
  apply list_elem_of_split in Hc as (l1 & l2 & ->). destruct (kfree_spec _ _ _ _ _ Hi Hf) as (h' & E & Hi' & _).
  exists h', (merged l1 (freed c) l2). split; [done|]. split; [done|]. intros x. rewrite allocated_merged by done. unfold allocated.
  apply NoDup_fmap_1 in Hnd. apply NoDup_app in Hnd as (_ & Hd1 & Hd2). apply NoDup_cons in Hd2 as [Hd2 _].
  rewrite !elem_of_app, !elem_of_cons. split.
  - intros [[Hx|[->|Hx]] Hfx]; [|done|]; (split; [tauto|]); intros ->; [|done]. apply (Hd1 _ Hx). set_solver.
  - intros [[[Hx|[->|Hx]] Hfx] Hne]; tauto.
Qed.

(** What counts as used depends on the blocks in use alone. *)
Lemma used_filter l : used_of l = foldr (fun b n => bsize b + n) 0 (filter (fun b => bfree b = false) l).
Proof.
  induction l as [|b l IH]; [done|]. cbn [used_of]. rewrite filter_cons, IH. destruct (bfree b); [by rewrite decide_False by done|].
  by rewrite decide_True by done.
Qed.

Lemma sum_permuted (l l' : list block) : l ≡ₚ l' -> foldr (fun b n => bsize b + n) 0 l = foldr (fun b n => bsize b + n) 0 l'.
Proof. induction 1; cbn; lia. Qed.

Lemma used_same h h' (m m' : M) l l' : Heap.inv h m l -> Heap.inv h' m' l' -> (forall x, allocated l' x <-> allocated l x) -> used h' = used h.
Proof.
  intros Hi Hi' Hx. rewrite (inv_used _ _ _ Hi), (inv_used _ _ _ Hi'), !used_filter.
  assert (forall h (m : M) l, Heap.inv h m l -> NoDup l) as Hnd.
  { intros h1 m1 l1 H1. pose proof (inv_links _ _ _ H1) as Hl. eapply NoDup_fmap_1, contig_NoDup; [apply (lk_ok _ _ Hl)|apply (lk_contig _ _ Hl)]. }
  apply sum_permuted, NoDup_Permutation; [apply NoDup_filter; eauto..|].
  intros x. rewrite !list_elem_of_filter. specialize (Hx x). unfold allocated in Hx. tauto.
Qed.

Lemma attempts_base w n : alignment <= w <= 2 ^ 32 -> w mod alignment = 0 -> forall h (m : M) l p h' m',
  Heap.inv h m l -> attempts n w h m = Some (p, h', m') -> heap_base h' = heap_base h.
Proof.
  intros Hw Hwm. induction n as [|n IH]; intros h m l p h' m' Hi E; cbn [attempts] in E; [by injection E as <- <- <-|].
  destruct (find_inv h m l w Hi) as [[Ef _]|(l1 & b & l2 & -> & _ & Hfit & Hb0 & Ef)]; rewrite Ef in E; cbn [mbind option_bind] in E.
  - rewrite Z.eqb_refl in E. cbn [negb] in E.
    destruct (grow_spec h m l w Hi) as (ok & h1 & m1 & E1 & Hg); [unfold alignment in *; lia|].
    rewrite E1 in E. cbn [mbind option_bind] in E. destruct ok; cbn [negb] in E; [|injection E as <- <- <-; by destruct Hg as [_ ->]].
    destruct Hg as (Hi1 & _ & <-). by eapply IH.
  - destruct (Z.eqb_spec (addr b) 0) as [|_]; [done|]. cbn [negb] in E.
    destruct (take_block_inv h m l1 b l2 w Hi Hfit (proj1 Hw) Hwm) as (h2 & E2 & _ & B2 & _). rewrite E2 in E. cbn [mbind option_bind] in E.
    by injection E as <- <- <-.
Qed.

Lemma kmalloc_base h (m : M) l size p h' m' : Heap.inv h m l -> 0 <= size < 2 ^ 64 -> kmalloc size h m = Some (p, h', m') -> heap_base h' = heap_base h.
Proof.
  intros Hi Hs E. unfold kmalloc in E. destruct (Z.eqb_spec size 0) as [->|Hs0]; [by injection E as <- <- <-|].
  destruct (Z.ltb_spec heap_reserved size) as [Hbig|Hsmall]; [by injection E as <- <- <-|]. cbn [orb] in E.
  destruct (align_up_spec size ltac:(lia)) as (A1 & A2 & A3). change heap_reserved with 67108864 in *.
  eapply attempts_base in E; try done. unfold alignment in *. lia.
Qed.

(** The blocks in use are those of [l] and [cs], which are new. *)
Definition grew (l l' : list block) (cs : list block) : Prop :=
  NoDup cs /\ (forall x, x ∈ cs -> ~ allocated l x) /\ forall x, allocated l' x <-> allocated l x \/ x ∈ cs.

Definition payload (c : block) : Z := addr c + sizeof_BlockHeader.

Lemma take_chunks_spec l0 n : forall i cs h (m : M) mem l,
  Heap.inv h m l -> grew l0 l cs -> Memory.mapped mem (heap_base h) heap_reserved ->
  exists r h' m' mem' l' cs', take_chunks n i (payload <$> cs) h m mem = Some (r, h', m', mem') /\ Heap.inv h' m' l' /\ grew l0 l' cs' /\
    match r with inl j => (length cs' + i = j + length cs)%nat /\ (j < i + n)%nat | inr bs => bs = payload <$> cs' end.
Proof.
  induction n as [|n IH]; intros i cs h m mem l Hi Hg Hm; cbn [take_chunks]; [by exists (inr (payload <$> cs)), h, m, mem, l, cs|].
  assert (0 <= chunk < 2 ^ 64) as Hc by by vm_compute.
  destruct (kmalloc_spec _ _ _ _ Hi Hc) as (p & h1 & m1 & E & _). rewrite E. cbn [mbind option_bind].
  pose proof (kmalloc_adds h m l chunk p h1 m1 Hi Hc E) as Ha. pose proof (kmalloc_base h m l chunk p h1 m1 Hi Hc E) as Hb.
  destruct (p =? 0); [exists (inl i), h1, m1, mem, l, cs; split_and!; try done; lia|]. destruct Ha as (l1 & c & Hi1 & -> & Hnew & Hall & Hsz).
  destruct Hg as (G1 & G2 & G3). assert (allocated l1 c) as [Hin _] by (apply Hall; by right).
  pose proof (inv_links _ _ _ Hi1) as Hl. pose proof (elem_addr_lt _ _ _ _ (lk_ok _ _ Hl) (lk_contig _ _ Hl) Hin) as Hbd.
  pose proof (lk_committed _ _ Hl) as [Hcm _].
  destruct (memset_spec mem (addr c + sizeof_BlockHeader) 0x5A chunk) as (mem1 & Em & Hmem); [lia| |].
  { intros j Hj. destruct (Hm (addr c + sizeof_BlockHeader + j - heap_base h)) as [x Hx]; [unfold sizeof_BlockHeader in *; lia|].
    exists x. rewrite <- Hx. f_equal. lia. }
  rewrite Em. cbn [mbind option_bind]. change [addr c + sizeof_BlockHeader] with (payload <$> [c]). rewrite <- fmap_app.
  destruct (IH (S i) (cs ++ [c]) h1 m1 mem1 l1 Hi1) as (r & h' & m' & mem' & l' & cs' & E' & Hi' & Hg' & Hr).
  - split_and!.
    + apply NoDup_app. split_and!; [done| |apply NoDup_singleton]. intros x Hx ->%list_elem_of_singleton. apply Hnew, G3. by right.
    + intros x [Hx| ->%list_elem_of_singleton]%elem_of_app; [by apply G2|]. intros Hx. apply Hnew, G3. by left.
    + intros x. rewrite Hall, G3, elem_of_app, list_elem_of_singleton. tauto.
  - intros j Hj. rewrite Hb in *. rewrite Hmem. case_bool_decide; [by eexists|by apply Hm].
  - exists r, h', m', mem', l', cs'. split_and!; try done. destruct r as [j|]; [|done]. rewrite length_app in Hr. cbn in Hr. lia.
Qed.

Lemma free_chunks_spec l0 (m : M) cs : forall h l, Heap.inv h m l -> grew l0 l cs ->
  exists h' l', free_chunks (payload <$> cs) h = Some h' /\ Heap.inv h' m l' /\ forall x, allocated l' x <-> allocated l0 x.
Proof.
  induction cs as [|c cs IH]; intros h l Hi (G1 & G2 & G3).
  - exists h, l. split; [done|]. split; [done|]. intros x. rewrite G3. set_solver.
  - apply NoDup_cons in G1 as [Gc G1]. destruct (kfree_removes h m l c Hi) as (h1 & l1 & E & Hi1 & Hall); [apply G3; right; left|].
    destruct (IH h1 l1 Hi1) as (h' & l' & E' & Hi' & Hx).
    + split_and!; [done| |].
      * intros x Hx. apply G2. by right.
      * intros x. rewrite Hall, G3, elem_of_cons. split; [intros [[?|[->|?]] ?]; tauto|]. intros [Ha|Hin]; (split; [tauto|]); intros ->; [|done].
        apply (G2 c); [by left|done].
    + exists h', l'. rewrite fmap_cons. cbn [free_chunks]. change (payload c) with (addr c + sizeof_BlockHeader). by rewrite E.
Qed.

(** The test gives back what it takes: it ends, and when it passes the blocks in use
    are those before and it prints the amount used before; when an allocation fails it
    returns early and the chunks it had taken stay in use. *)
Lemma heap_selftest_restores h (m : M) mem l : Heap.inv h m l -> Memory.mapped mem (heap_base h) heap_reserved ->
  exists r h' m' mem' l', heap_selftest h m mem = Some (r, h', m', mem') /\ Heap.inv h' m' l' /\
    match r with
    | Passed before peak in_use => before = heap_capacity h /\ in_use = heap_used h /\ forall x, allocated l' x <-> allocated l x
    | Failed i => (i < chunks)%nat /\ exists cs, length cs = i /\ grew l l' cs
    end.
Proof.
  intros Hi Hm. unfold heap_selftest.
  destruct (take_chunks_spec l chunks 0 [] h m mem l Hi) as (r & h1 & m1 & mem1 & l1 & cs & E & Hi1 & Hg & Hr); [|done|].
  { split_and!; [constructor|set_solver|set_solver]. }
  change (take_chunks chunks 0 [] h m mem) with (take_chunks chunks 0 (payload <$> []) h m mem). rewrite E. cbn [mbind option_bind].
  destruct r as [j|bs].
  - exists (Failed j), h1, m1, mem1, l1. split; [done|]. split; [done|]. cbn in Hr. split; [lia|]. exists cs. split; [lia|done].
  - subst bs. destruct (free_chunks_spec l m1 cs h1 l1 Hi1 Hg) as (h' & l' & E' & Hi' & Hx). rewrite E'. cbn [mbind option_bind].
    eexists _, h', m1, mem1, l'. split; [done|]. split; [done|]. split; [done|]. split; [|done]. unfold heap_used. by eapply used_same.
Qed.
End proofs.
End HeapTest.

(** ** Every core at once (smp_selftest) *)

Module SmpTest.
Import HeapTest.

(** Where a worker is, with the rounds it has left after the current one. *)
Inductive pc :=
  | Get (r : nat) | Put (r : nat) | Hit (r : nat)   (* module_get, module_put, smp_hits *)
  | Kmalloc (r : nat) | Kfree (p : Z) (r : nat)
  | Count | Finished.                                (* smp_workers_done *)

Definition vga : list Z := literal "vga".

Section machine.
Context {M W : Type} `{PageMapper M}.

Record state := mk { mods : table W; heap_ : heap; maps : M; hits : Z; done : Z; workers : list pc }.

(** The next round. *)
Definition round (r : nat) : pc := match r with O => Count | S r => Get r end.

Definition goto (k : nat) (p : pc) (s : state) : state := mk (mods s) (heap_ s) (maps s) (hits s) (done s) (<[k := p]> (workers s)).

(** The next operation of worker [k]; every operation holds its component's lock or is
    one atomic access.  [None] is a fault, or nothing left to do. *)
Definition step (k : nat) (s : state) : option state :=
  match workers s !! k with
  | None | Some Finished => None
  | Some (Get r) =>
    let (ok, t) := module_get vga (mods s) in
    Some (goto k (if ok then Put r else Kmalloc r) (mk t (heap_ s) (maps s) (hits s) (done s) (workers s)))
  | Some (Put r) =>
    t ← module_put vga (mods s);
    Some (goto k (Hit r) (mk t (heap_ s) (maps s) (hits s) (done s) (workers s)))
  | Some (Hit r) => Some (goto k (Kmalloc r) (mk (mods s) (heap_ s) (maps s) (hits s + 1) (done s) (workers s)))
  | Some (Kmalloc r) =>
    '(p, h, m) ← kmalloc 64 (heap_ s) (maps s);
    Some (goto k (if p =? 0 then round r else Kfree p r) (mk (mods s) h m (hits s) (done s) (workers s)))
  | Some (Kfree p r) =>
    h ← kfree p (heap_ s);
    Some (goto k (round r) (mk (mods s) h (maps s) (hits s) (done s) (workers s)))
  | Some Count => Some (goto k Finished (mk (mods s) (heap_ s) (maps s) (hits s) (done s + 1) (workers s)))
  end.

(** [n] workers with [rounds] rounds each. *)
Definition init (t : table W) (h : heap) (m : M) (n rounds : nat) : state := mk t h m 0 0 (replicate n (round rounds)).

Inductive reachable (s0 : state) : state -> Prop :=
  | reach_init : reachable s0 s0
  | reach_step k s s' : reachable s0 s -> step k s = Some s' -> reachable s0 s'.
End machine.
Arguments state : clear implicits.

(** What the workers hold: references, blocks, and rounds they have not counted. *)
Definition putting (p : pc) : Z := match p with Put _ => 1 | _ => 0 end.
Definition pointer (p : pc) : option Z := match p with Kfree p _ => Some p | _ => None end.
Definition owing (p : pc) : Z :=
  match p with Get r | Put r | Hit r => Z.of_nat (S r) | Kmalloc r | Kfree _ r => Z.of_nat r | _ => 0 end.
Definition finished (p : pc) : Z := match p with Finished => 1 | _ => 0 end.
Definition total (f : pc -> Z) (l : list pc) : Z := foldr (fun p n => f p + n) 0 l.

Lemma total_insert f l k p q : l !! k = Some p -> total f (<[k := q]> l) = total f l - f p + f q.
Proof.
  revert k. induction l as [|x l IH]; intros [|k] Hk; try done; [injection Hk as ->; cbn; lia|].
  change (f x + total f (<[k := q]> l) = f x + total f l - f p + f q). rewrite (IH k Hk). lia.
Qed.

Lemma total_bound f l : (forall p, 0 <= f p <= 1) -> 0 <= total f l <= Z.of_nat (length l).
Proof. intros Hf. induction l as [|x l IH]; [done|]. pose proof (Hf x). cbn [total foldr length]. fold (total f l). lia. Qed.

Lemma pointers_insert l k p q : l !! k = Some p ->
  exists rest, omap pointer l ≡ₚ option_list (pointer p) ++ rest /\ omap pointer (<[k := q]> l) ≡ₚ option_list (pointer q) ++ rest.
Proof.
  intros Hk. apply list_elem_of_split_length in Hk as (l1 & l2 & -> & ->). exists (omap pointer l1 ++ omap pointer l2).
  rewrite insert_app_r_alt, Nat.sub_diag by done. cbn [insert list_insert]. rewrite !omap_app.
  assert (forall x, omap pointer (x :: l2) = option_list (pointer x) ++ omap pointer l2) as Hc by (intros x; cbn; by destruct (pointer x)).
  rewrite !Hc. split; rewrite !app_assoc; apply Permutation_app_tail, Permutation_app_comm.
Qed.

Lemma putting_bit p : 0 <= putting p <= 1.
Proof. destruct p; cbn; lia. Qed.

Lemma putting_round r : putting (round r) = 0.
Proof. by destruct r. Qed.
Lemma finished_round r : finished (round r) = 0.
Proof. by destruct r. Qed.
Lemma owing_round r : owing (round r) = Z.of_nat r.
Proof. by destruct r. Qed.

(** The table with [k] more users of slot [i]. *)
Definition more (k : Z) (m : Module_) : Module_ :=
  mkModule (info m) (state_ m) (dependents m) (users m + k) (error m) (image_base m) (image_pages m).

Lemma find_in_more d k i l : find_in d (alter (more k) i l) = find_in d l.
Proof.
  revert i. induction l as [|m l IH]; intros [|i]; [done|done| |]; cbn [alter list_alter find_in]; [done|].
  change (list_alter (more k) i l) with (alter (more k) i l). by rewrite IH.
Qed.

Section proofs.
Context {M W : Type} `{PageMapperSpec M}.
Context (t0 : table W) (h0 : heap) (m0 : M) (l0 : list block) (n rounds : nat) (i : nat) (v : Module_).
Hypothesis (vga_found : find vga t0 = Some i) (vga_slot : slots t0 !! i = Some v) (vga_ready : state_ v = Ready).
Hypothesis users_fit : 0 <= users v /\ users v + Z.of_nat n < 2 ^ 32.
Hypothesis heap_ok : Heap.inv h0 m0 l0.

Lemma on_slot_twice f g t : on_slot i f (on_slot (W := W) i g t) = on_slot i (fun m => f (g m)) t.
Proof.
  unfold on_slot, set_slots. cbn. f_equal. apply list_eq. intros j. destruct (decide (j = i)) as [->|Hj].
  - rewrite !list_lookup_alter_eq. by destruct (slots t !! i).
  - by rewrite !list_lookup_alter_ne.
Qed.

Lemma on_slot_ext f g t : (forall m, slots t !! i = Some m -> f m = g m) -> on_slot (W := W) i f t = on_slot i g t.
Proof.
  intros Hf. unfold on_slot. f_equal. apply list_eq. intros j. destruct (decide (j = i)) as [->|Hj].
  - rewrite !list_lookup_alter_eq. destruct (slots t !! i) as [m|] eqn:E; [|done]. cbn. by rewrite Hf.
  - by rewrite !list_lookup_alter_ne.
Qed.

Lemma find_more k : find vga (on_slot i (more k) t0) = Some i.
Proof. unfold find. rewrite active_on_slot, find_in_more. exact vga_found. Qed.

Lemma slot_more k : slots (on_slot i (more k) t0) !! i = Some (more k v).
Proof. cbn. by rewrite list_lookup_alter_eq, vga_slot. Qed.

Lemma get_more k : 0 <= k < Z.of_nat n -> module_get vga (on_slot i (more k) t0) = (true, on_slot i (more (k + 1)) t0).
Proof.
  intros Hk. unfold module_get. rewrite find_more, slot_more. cbn [more state_]. rewrite bool_decide_true by done. f_equal.
  rewrite on_slot_twice. apply on_slot_ext. intros m Hm. rewrite vga_slot in Hm. injection Hm as <-. unfold take_user, more. cbn.
  rewrite u32_small by lia. f_equal. lia.
Qed.

Lemma put_more k : 1 <= k <= Z.of_nat n -> module_put vga (on_slot i (more k) t0) = Some (on_slot i (more (k - 1)) t0).
Proof.
  intros Hk. unfold module_put. rewrite find_more. cbn [mbind option_bind]. rewrite slot_more. cbn [mbind option_bind more users].
  destruct (Z.eqb_spec (users v + k) 0); [lia|]. f_equal. rewrite on_slot_twice. apply on_slot_ext. intros m Hm. rewrite vga_slot in Hm.
  injection Hm as <-. unfold release_user, more. cbn. rewrite u32_small by lia. f_equal. lia.
Qed.

Record inv (s : state M W) : Prop := {
  inv_mods : mods s = on_slot i (more (total putting (workers s))) t0;
  inv_heap : exists l cs, Heap.inv (heap_ s) (maps s) l /\ grew l0 l cs /\ omap pointer (workers s) ≡ₚ payload <$> cs;
  inv_hits : hits s + total owing (workers s) = Z.of_nat n * Z.of_nat rounds;
  inv_done : done s = total finished (workers s);
  inv_length : length (workers s) = n }.

(** The block behind one of the pointers. *)
Lemma held_block cs p rest : payload <$> cs ≡ₚ p :: rest -> exists c cs', cs ≡ₚ c :: cs' /\ payload c = p /\ rest ≡ₚ payload <$> cs'.
Proof.
  intros E. assert (p ∈ payload <$> cs) as (c & -> & Hc)%list_elem_of_fmap by (rewrite E; left).
  apply elem_of_Permutation in Hc as [cs' Hc]. exists c, cs'. split; [done|]. split; [done|]. rewrite Hc in E. cbn in E.
  by apply Permutation_cons_inv in E.
Qed.

(** A worker moves on without touching the heap. *)
Lemma move_inv s k p q t h' d' : inv s -> workers s !! k = Some p -> pointer p = None -> pointer q = None ->
  t = on_slot i (more (total putting (workers s) - putting p + putting q)) t0 ->
  h' = hits s + owing p - owing q -> d' = done s - finished p + finished q ->
  inv (goto k q (mk t (heap_ s) (maps s) h' d' (workers s))).
Proof.
  intros [I1 (l & cs & I2 & I3 & I4) I5 I6 I7] Hk Hp Hq -> -> ->. split; cbn [goto mods heap_ maps hits done workers]; rewrite ?(total_insert _ _ _ _ _ Hk).
  - done.
  - exists l, cs. split_and!; try done. destruct (pointers_insert _ _ _ q Hk) as (rest & E1 & E2). rewrite Hp in E1. rewrite Hq in E2.
    by rewrite E2, <- I4, E1.
  - lia.
  - lia.
  - by rewrite length_insert.
Qed.

Lemma step_inv s k : inv s -> (exists p, workers s !! k = Some p /\ p <> Finished) -> exists s', step k s = Some s' /\ inv s'.
Proof.
  intros Hi (p & Hk & Hp). pose proof Hi as [I1 (l & cs & I2 & I3 & I4) I5 I6 I7].
  pose proof (total_bound putting (workers s) putting_bit) as Hb. rewrite I7 in Hb.
  assert (forall x, total putting (<[k := x]> (workers s)) = total putting (workers s) - putting p + putting x) as Hput
    by (intros x; by apply total_insert).
  unfold step. rewrite Hk. destruct p as [r|r|r|r|p r| |]; [..|done].
  - pose proof (total_bound putting (<[k := Put r]> (workers s)) putting_bit) as Hb'.
    rewrite Hput, length_insert, I7 in Hb'. cbn [putting] in Hb'. rewrite I1, get_more by lia. eexists. split; [done|].
    eapply (move_inv s k (Get r)); cbn [pointer putting owing finished]; try done; [f_equal; f_equal; lia|lia|lia].
  - pose proof (total_bound putting (<[k := Count]> (workers s)) putting_bit) as Hb'.
    rewrite Hput, length_insert, I7 in Hb'. cbn [putting] in Hb'. rewrite I1, put_more by lia. eexists. split; [done|].
    eapply (move_inv s k (Put r)); cbn [pointer putting owing finished]; try done; [f_equal; f_equal; lia|lia|lia].
  - eexists. split; [done|]. eapply (move_inv s k (Hit r)); cbn [pointer putting owing finished]; try done; [rewrite I1; f_equal; f_equal; lia|lia|lia].
  - destruct (kmalloc_spec (heap_ s) (maps s) l 64 I2) as (p & h1 & m1 & E & _); [lia|]. rewrite E. cbn [mbind option_bind].
    pose proof (kmalloc_adds _ _ _ 64 _ _ _ I2 ltac:(lia) E) as Ha. eexists. split; [done|].
    destruct (pointers_insert _ _ _ (if p =? 0 then round r else Kfree p r) Hk) as (rest & E1 & E2). cbn in E1.
    split; cbn [goto mods heap_ maps hits done workers]; rewrite ?(total_insert _ _ _ _ _ Hk), ?length_insert; try done.
    + rewrite I1. f_equal. f_equal. destruct (p =? 0); rewrite ?putting_round; cbn [putting]; lia.
    + destruct (p =? 0) eqn:Ep.
      * exists l, cs. split_and!; try done. rewrite E2, <- I4, E1. by destruct r.
      * destruct Ha as (l1 & c & Hi1 & -> & Hnew & Hall & _). exists l1, (c :: cs). destruct I3 as (G1 & G2 & G3). split_and!; [done|split_and!|].
        -- constructor; [|done]. intros Hc. apply Hnew, G3. by right.
        -- intros x [->|Hx]%elem_of_cons; [|by apply G2]. intros Hx. apply Hnew, G3. by left.
        -- intros x. rewrite Hall, G3, elem_of_cons. tauto.
        -- rewrite E2. cbn. rewrite <- E1, I4. done.
    + destruct (p =? 0); rewrite ?owing_round; cbn [owing]; lia.
    + destruct (p =? 0); rewrite ?finished_round; cbn [finished]; lia.
  - destruct (pointers_insert _ _ _ (round r) Hk) as (rest & E1 & E2). cbn in E1.
    destruct (held_block cs p rest) as (c & cs' & Hc & <- & Hrest); [by rewrite <- I4, E1|].
    destruct I3 as (G1 & G2 & G3). rewrite Hc in G1. apply NoDup_cons in G1 as [Gc G1].
    destruct (kfree_removes (heap_ s) (maps s) l c I2) as (h1 & l1 & E & Hi1 & Hall); [apply G3; right; rewrite Hc; left|].
    unfold payload. rewrite E. cbn [mbind option_bind]. eexists. split; [done|].
    split; cbn [goto mods heap_ maps hits done workers]; rewrite ?(total_insert _ _ _ _ _ Hk), ?length_insert; try done.
    + rewrite I1. f_equal. f_equal. rewrite putting_round. cbn [putting]. lia.
    + exists l1, cs'. split_and!; [done|split_and!; [done| |]|].
      * intros x Hx. apply G2. rewrite Hc. by right.
      * intros x. rewrite Hall, G3, Hc, elem_of_cons. split; [intros [[?|[->|?]] ?]; tauto|]. intros [Ha|Hin]; (split; [tauto|]); intros ->; [|done].
        apply (G2 c); [rewrite Hc; by left|done].
      * rewrite E2, <- Hrest. by destruct r.
    + rewrite owing_round. cbn [owing]. lia.
    + rewrite finished_round. cbn [finished]. lia.
  - eexists. split; [done|]. eapply (move_inv s k Count); cbn [pointer putting owing finished]; try done; [rewrite I1; f_equal; f_equal; lia|lia|lia].
Qed.

Lemma init_inv : inv (init t0 h0 m0 n rounds).
Proof.
  assert (forall f j, total f (replicate j (round rounds)) = Z.of_nat j * f (round rounds)) as Ht.
  { intros f j. induction j as [|j IH]; [done|]. cbn [replicate total foldr]. fold (total f (replicate j (round rounds))). rewrite IH. lia. }
  split; cbn [init mods heap_ maps hits done workers]; rewrite ?Ht, ?putting_round, ?finished_round, ?owing_round, ?length_replicate; try lia.
  - rewrite Z.mul_0_r. unfold on_slot. rewrite list_alter_id; [by destruct t0|]. intros m. unfold more. rewrite Z.add_0_r. by destruct m.
  - exists l0, []. split; [done|]. split; [split_and!; [constructor|set_solver|set_solver]|].
    clear. induction n as [|j IH]; [done|]. cbn. by destruct rounds.
Qed.

Lemma smp_reachable_inv s : reachable (init t0 h0 m0 n rounds) s -> inv s.
Proof.
  induction 1 as [|k s s' _ IH E]; [apply init_inv|]. destruct (step_inv s k IH) as (s1 & E1 & Hi); [|congruence].
  unfold step in E. destruct (workers s !! k) as [p|]; [|done]. exists p. split; [done|]. by intros ->.
Qed.
End proofs.

Lemma all_finished l : total finished l = Z.of_nat (length l) -> Forall (fun p => p = Finished) l.
Proof.
  induction l as [|p l IH]; [constructor|]. cbn [total foldr length]. fold (total finished l). intros E.
  assert (forall p, 0 <= finished p <= 1) as Hb by (intros []; cbn; lia).
  pose proof (total_bound finished l Hb). pose proof (Hb p). constructor; [|apply IH; lia]. destruct p; cbn in *; try lia. done.
Qed.

(** How far a worker is from its end. *)
Definition weight (p : pc) : Z :=
  match p with
  | Get r => 6 * Z.of_nat r + 6 | Put r => 6 * Z.of_nat r + 5 | Hit r => 6 * Z.of_nat r + 4
  | Kmalloc r => 6 * Z.of_nat r + 3 | Kfree _ r => 6 * Z.of_nat r + 2 | Count => 1 | Finished => 0
  end.

Lemma weight_round r : weight (round r) <= 6 * Z.of_nat r + 1.
Proof. destruct r; cbn [round weight]; lia. Qed.

Lemma step_lighter {M W} `{PageMapper M} k (s s' : state M W) : step k s = Some s' -> total weight (workers s') < total weight (workers s).
Proof.
  unfold step. destruct (workers s !! k) as [p|] eqn:Hk; [|done]. destruct p as [r|r|r|r|p r| |]; intros E; try done.
  - destruct (module_get vga (mods s)) as [ok t]. injection E as <-. cbn [goto workers]. rewrite (total_insert _ _ _ _ _ Hk).
    destruct ok; cbn [weight]; lia.
  - apply bind_Some_inv in E as (t & _ & E). injection E as <-. cbn [goto workers]. rewrite (total_insert _ _ _ _ _ Hk). cbn [weight]. lia.
  - injection E as <-. cbn [goto workers]. rewrite (total_insert _ _ _ _ _ Hk). cbn [weight]. lia.
  - apply bind_Some_inv in E as ([[p h] m] & _ & E). injection E as <-. cbn [goto workers]. rewrite (total_insert _ _ _ _ _ Hk).
    pose proof (weight_round r). destruct (p =? 0); cbn [weight]; lia.
  - apply bind_Some_inv in E as (h & _ & E). injection E as <-. cbn [goto workers]. rewrite (total_insert _ _ _ _ _ Hk).
    pose proof (weight_round r). cbn [weight]. lia.
  - injection E as <-. cbn [goto workers]. rewrite (total_insert _ _ _ _ _ Hk). cbn [weight]. lia.
Qed.

(** C22: the stress test of all cores cannot fail.  However the workers interleave on the
    module table and the heap, no [module_put] panics and no [kfree] faults, the workers
    all come to their end, and when they have, the table is as before, reference count
    included, the heap has as much in use as before, and every round was counted. *)
Theorem smp_selftest_passes {M W} `{PageMapperSpec M} (t0 : table W) h0 (m0 : M) l0 n rounds i v s :
  find vga t0 = Some i -> slots t0 !! i = Some v -> state_ v = Ready -> 0 <= users v -> users v + Z.of_nat n < 2 ^ 32 ->
  Heap.inv h0 m0 l0 -> reachable (init t0 h0 m0 n rounds) s ->
  (forall k p, workers s !! k = Some p -> p <> Finished -> exists s', step k s = Some s' /\ total weight (workers s') < total weight (workers s)) /\
  (done s = Z.of_nat n -> mods s = t0 /\ used (heap_ s) = used h0 /\ hits s = Z.of_nat n * Z.of_nat rounds).
Proof.
  intros Hf Hs Hr Hu1 Hu2 Hh Hreach. pose proof (smp_reachable_inv t0 h0 m0 l0 n rounds i v Hf Hs Hr (conj Hu1 Hu2) Hh s Hreach) as Hi. split.
  - intros k p Hk Hp. destruct (step_inv t0 l0 n rounds i v Hf Hs Hr (conj Hu1 Hu2) s k Hi) as (s' & E & _); [by exists p|].
    exists s'. split; [done|]. by eapply step_lighter.
  - intros Hd. destruct Hi as [I1 (l & cs & I2 & I3 & I4) I5 I6 I7]. rewrite I6, <- I7 in Hd. apply all_finished in Hd.
    assert (forall f, f Finished = 0 -> total f (workers s) = 0) as Hz.
    { intros f E. clear -Hd E. induction Hd as [|p l -> _ IH]; [done|]. cbn. by rewrite E. }
    assert (omap pointer (workers s) = []) as Hnil. { clear -Hd. induction Hd as [|p l -> _ IH]; [done|]. exact IH. }
    rewrite Hnil in I4. apply Permutation_nil_l in I4. symmetry in I4. apply fmap_nil_inv in I4 as ->. rewrite !Hz in * by done. split_and!.
    + rewrite I1. unfold on_slot. rewrite list_alter_id; [by destruct t0|]. intros m. unfold more. rewrite Z.add_0_r. by destruct m.
    + eapply used_same; [exact Hh|exact I2|]. intros x. destruct I3 as (_ & _ & G3). rewrite G3. set_solver.
    + lia.
Qed.

(** Two workers of one round each. *)
Definition demo_vga : Module_ := mkModule (mkInfo 1 vga (Some [77; 73; 84]) true true []) Ready 0 3 0 0 0.
Definition demo_mods : table unit := mkTable [demo_vga] 1 false [] [] tt.

Lemma smp_selftest_passes_witness : exists h m s', step 0 (init demo_mods h (m : space) 2 1) = Some s' /\
  total weight (workers s') < total weight (workers (init demo_mods h m 2 1)).
Proof.
  destruct demo_run_inv as (h & v & m & _ & _ & E & _). destruct (heap_init_inv _ _ _ _ _ _ _ Vmalloc.fresh_inv demo_frames_ok E) as (l & Hi & _).
  exists h, m. destruct (smp_selftest_passes demo_mods h m l 2 1 0 demo_vga (init demo_mods h m 2 1)) as [H _].
  - reflexivity.
  - reflexivity.
  - reflexivity.
  - cbn. lia.
  - cbn. lia.
  - exact Hi.
  - apply reach_init.
  - apply (H 0%nat (Get 0)); [reflexivity|discriminate].
Defined.
End SmpTest.

(** ** [thread_selftest] *)

Module ThreadTest.

(** The three kinds of worker. *)
Inductive worker := Counting (n : nat) | Sleeping | Arriving | Waiting | Woken | Finished.

(** Where [thread_selftest] is. *)
Inductive tester := First | Open | WakeAll | Second | Reported.

Record state := mk { worker_rounds : Z; workers_finished : Z; gate_opened : bool; early : bool; workers : list worker; main : tester }.

Definition counters : nat := 4.

Definition init (rounds : nat) : state :=
  mk 0 0 false false (replicate counters (Counting rounds) ++ [Sleeping; Arriving]) First.

Definition goto (k : nat) (w : worker) (s : state) : state :=
  mk (worker_rounds s) (workers_finished s) (gate_opened s) (early s) (<[k := w]> (workers s)) (main s).
Definition finish (k : nat) (s : state) : state :=
  mk (worker_rounds s) (workers_finished s + 1) (gate_opened s) (early s) (<[k := Finished]> (workers s)) (main s).
Definition set_main (t : tester) (s : state) : state :=
  mk (worker_rounds s) (workers_finished s) (gate_opened s) (early s) (workers s) t.

(** One atomic access of worker [k]; the yields and the sleep are what lets others run in
    between.  A worker in [gate.wait] does not run. *)
Definition work (k : nat) (s : state) : option state :=
  w ← workers s !! k;
  match w with
  | Counting (S n) => Some (mk (worker_rounds s + 1) (workers_finished s) (gate_opened s) (early s) (<[k := Counting n]> (workers s)) (main s))
  | Counting O => Some (finish k s)
  | Sleeping => Some (finish k s)
  | Arriving => Some (goto k Waiting s)
  | Waiting => None
  | Woken => Some (finish k (mk (worker_rounds s) (workers_finished s) (gate_opened s) (early s || negb (gate_opened s)) (workers s) (main s)))
  | Finished => None
  end.

Definition wake (w : worker) : worker := match w with Waiting => Woken | w => w end.

(** The tester's next access; [late] is whether the deadline has passed. *)
Definition test (late : bool) (s : state) : option state :=
  match main s with
  | First => Some (if negb (workers_finished s <? Z.of_nat counters + 1) || late then set_main Open s else s)
  | Open => Some (mk (worker_rounds s) (workers_finished s) true (early s) (workers s) WakeAll)
  | WakeAll => Some (mk (worker_rounds s) (workers_finished s) (gate_opened s) (early s) (wake <$> workers s) Second)
  | Second => Some (if negb (workers_finished s <? Z.of_nat counters + 2) || late then set_main Reported s else s)
  | Reported => None
  end.

Inductive reachable (rounds : nat) : state -> Prop :=
  | r_init : reachable rounds (init rounds)
  | r_work s s' k : reachable rounds s -> work k s = Some s' -> reachable rounds s'
  | r_test s s' late : reachable rounds s -> test late s = Some s' -> reachable rounds s'.

(** What a worker has yet to count, and whether it is done. *)
Definition owed (w : worker) : Z := match w with Counting n => Z.of_nat n | _ => 0 end.
Definition over (w : worker) : Z := match w with Finished => 1 | _ => 0 end.
Definition total (f : worker -> Z) (l : list worker) : Z := foldr (fun w n => f w + n) 0 l.

Record inv (rounds : nat) (s : state) : Prop := {
  i_rounds : worker_rounds s + total owed (workers s) = Z.of_nat (counters * rounds);
  i_done : workers_finished s = total over (workers s);
  i_count : length (workers s) = (counters + 2)%nat;
  i_gate : gate_opened s = false -> main s = First \/ main s = Open;
  i_woken : Woken ∈ workers s -> gate_opened s = true;
  i_early : early s = false
}.

Lemma worker_total_insert f l : forall k w v, l !! k = Some w -> total f (<[k := v]> l) = total f l + f v - f w.
Proof.
  induction l as [|x l IH]; intros [|k] w v Hk; try done; [injection Hk as ->; cbn; lia|].
  change (f x + total f (<[k := v]> l) = f x + total f l + f v - f w). rewrite (IH k w v Hk). lia.
Qed.

Lemma worker_total_wake l : total owed (wake <$> l) = total owed l /\ total over (wake <$> l) = total over l.
Proof.
  induction l as [|w l [IH1 IH2]]; [done|].
  change (owed (wake w) + total owed (wake <$> l) = owed w + total owed l /\ over (wake w) + total over (wake <$> l) = over w + total over l).
  rewrite IH1, IH2. by destruct w.
Qed.

Lemma woken_insert k w (l : list worker) : Woken ∈ <[k := w]> l -> w = Woken \/ Woken ∈ l.
Proof.
  intros [j Hj]%list_elem_of_lookup. apply list_lookup_insert_Some in Hj as [(-> & -> & _)|[_ Hj]]; [by left|]. right. by eapply list_elem_of_lookup_2.
Qed.

Lemma thread_inv_init rounds : inv rounds (init rounds).
Proof.
  constructor; try done.
  - unfold init, counters. cbn [worker_rounds workers]. cbn. lia.
  - by left.
  - intros Hw. unfold init, counters in Hw. cbn in Hw. rewrite !elem_of_cons, elem_of_nil in Hw. by destruct_or! Hw.
Qed.

Lemma thread_inv_work rounds s s' k : inv rounds s -> work k s = Some s' -> inv rounds s'.
Proof.
  intros [Hr Hd Hc Hg Hw He] E. unfold work in E. destruct (workers s !! k) as [w|] eqn:Hk; [|done]. cbn [mbind option_bind] in E.
  assert (forall v, length (<[k := v]> (workers s)) = (counters + 2)%nat) as Hlen by (intros v; by rewrite length_insert).
  assert (forall v, v <> Woken -> Woken ∈ <[k := v]> (workers s) -> gate_opened s = true) as Hwk
    by (intros v Hv [->|Hin]%woken_insert; [done|by apply Hw]).
  destruct w as [[|n]| | | | |]; try done; injection E as <-; constructor; cbn [worker_rounds workers_finished gate_opened early workers main finish goto];
    rewrite ?(worker_total_insert _ _ _ _ _ Hk); cbn [owed over]; try done; try lia; try (by apply Hwk).
  assert (gate_opened s = true) as -> by (apply Hw; by eapply list_elem_of_lookup_2). by rewrite He.
Qed.

Lemma thread_inv_test rounds s s' late : inv rounds s -> test late s = Some s' -> inv rounds s'.
Proof.
  intros [Hr Hd Hc Hg Hw He] E. unfold test in E. destruct (main s) eqn:Hm; try done; injection E as <-.
  - destruct (_ || _); constructor; cbn [set_main worker_rounds workers_finished gate_opened early workers main]; auto.
  - constructor; cbn [worker_rounds workers_finished gate_opened early workers main]; auto. done.
  - destruct (worker_total_wake (workers s)) as [E1 E2].
    assert (gate_opened s = true) as Ho by (destruct (gate_opened s); [done|]; by destruct (Hg eq_refl); congruence).
    constructor; cbn [worker_rounds workers_finished gate_opened early workers main]; rewrite ?E1, ?E2, ?length_fmap; try done. congruence.
  - assert (gate_opened s = true) as Ho by (destruct (gate_opened s); [done|]; by destruct (Hg eq_refl); congruence).
    destruct (_ || _); constructor; cbn [set_main worker_rounds workers_finished gate_opened early workers main]; auto; congruence.
Qed.

Lemma over_bounds l : 0 <= total over l <= Z.of_nat (length l) /\ (total over l = Z.of_nat (length l) -> total owed l = 0).
Proof.
  induction l as [|w l [IH1 IH2]]; [done|]. change (total over (w :: l)) with (over w + total over l). change (total owed (w :: l)) with (owed w + total owed l).
  cbn [length]. rewrite Nat2Z.inj_succ. destruct w; cbn [over owed]; split; lia.
Qed.

(** Whatever the threads do, the test never reports a worker that woke too early, counts
    no round twice, and if all six workers finish it has counted every round. *)
Theorem thread_selftest_counts rounds s : reachable rounds s ->
  early s = false /\ 0 <= worker_rounds s <= Z.of_nat (counters * rounds) /\
  (workers_finished s = Z.of_nat counters + 2 -> worker_rounds s = Z.of_nat (counters * rounds)).
Proof.
  intros Hr. assert (inv rounds s /\ 0 <= worker_rounds s) as [Hi H0].
  { induction Hr as [|s s' k _ [IH IH0] E|s s' late _ [IH IH0] E].
    - split; [apply thread_inv_init|done].
    - split; [by eapply thread_inv_work|]. unfold work in E. destruct (workers s !! k) as [[[|n]| | | | |]|]; cbn in E; try done; injection E as <-; cbn; lia.
    - split; [by eapply thread_inv_test|]. unfold test in E. destruct (main s); try done; injection E as <-; try destruct (_ || _); done. }
  destruct Hi as [Hrounds Hdone Hlen _ _ He]. split; [done|]. destruct (over_bounds (workers s)) as [_ Hz].
  assert (0 <= total owed (workers s)) as Ho.
  { clear. induction (workers s) as [|w l IH]; [done|]. change (total owed (w :: l)) with (owed w + total owed l). destruct w; cbn [owed]; lia. }
  split; [lia|]. intros Hf. rewrite Hz in Hrounds; [lia|]. rewrite <- Hdone, Hf, Hlen. unfold counters. lia.
Qed.

(** The gate is opened once: a waiter that gets there after [wake_all] waits for good, and
    the test runs into its deadline. *)
Example late_waiter_lost : exists s, reachable 0 s /\ main s = Second /\ workers s !! 5%nat = Some Waiting /\
  forall s', reachable 0 s' -> workers s' !! 5%nat = Some Waiting -> work 5 s' = None.
Proof.
  pose proof (r_init 0) as R. do 3 (eapply (r_test 0 _ _ true) in R; [|reflexivity]). eapply (r_work 0 _ _ 5) in R; [|reflexivity].
  eexists. split; [exact R|split; [|split]].
  - reflexivity.
  - reflexivity.
  - intros s' _ Hw. unfold work. by rewrite Hw.
Qed.

End ThreadTest.
