(* ===== verification/Entry.v ===== *)
(** * Ways in and out of the kernel (src/kernel/proc/syscall_entry.asm,
      src/kernel/cpu/isr.asm, src/kernel/sched/switch.asm, and [syscall_init_cpu] of
      src/kernel/proc/syscall.cpp)

    The assembly as lists of instructions on one CPU's registers and the memory, kept in
    words of eight bytes.  What the CPU does by itself ([syscall], [sysret], an interrupt,
    [iretq], [swapgs]) is modelled as far as this code depends on it.  The C++ function a
    stub calls is any step that keeps to the calling convention. *)

From S2P Require Import Prelude Memory Segments Scheduler Panic.

Inductive reg := RAX | RBX | RCX | RDX | RSI | RDI | RBP | RSP | R8 | R9 | R10 | R11 | R12 | R13 | R14 | R15.
#[global] Instance reg_eq_dec : EqDecision reg. Proof. solve_decision. Defined.

Record cpu := mkCpu {
  regs : reg -> Z; ip : Z; flags : Z; cs : Z; ss : Z; ds : Z; es : Z; gs_base : Z; kernel_gs_base : Z; msr : Z -> Z
}.

Definition state : Type := cpu * gmap Z Z.

Definition set (r : reg) (v : Z) (c : cpu) : cpu :=
  mkCpu (fun x => if decide (x = r) then v else regs c x) (ip c) (flags c) (cs c) (ss c) (ds c) (es c) (gs_base c) (kernel_gs_base c) (msr c).
Definition set_data (d e : Z) (c : cpu) : cpu := mkCpu (regs c) (ip c) (flags c) (cs c) (ss c) d e (gs_base c) (kernel_gs_base c) (msr c).
Definition set_gs (g k : Z) (c : cpu) : cpu := mkCpu (regs c) (ip c) (flags c) (cs c) (ss c) (ds c) (es c) g k (msr c).
Definition set_msr (n v : Z) (c : cpu) : cpu :=
  mkCpu (regs c) (ip c) (flags c) (cs c) (ss c) (ds c) (es c) (gs_base c) (kernel_gs_base c) (fun x => if x =? n then v else msr c x).
(** Control goes to [i] with these flags and segments. *)
Definition go (i f code stack : Z) (c : cpu) : cpu := mkCpu (regs c) i f code stack (ds c) (es c) (gs_base c) (kernel_gs_base c) (msr c).

(** ** Instructions *)

Inductive instr :=
  | Push (r : reg) | PushImm (v : Z) | PushGs (offset : Z) | Pop (r : reg)
  | Mov (d s : reg) | Store (base s : reg) | StoreGs (offset : Z) (s : reg) | LoadGs (d : reg) (offset : Z)
  | StoreAt (a : Z) (s : reg) | LoadAt (d : reg) (a : Z) | AddSp (n : Z)
  | MovImm16 (d : reg) (v : Z) | LoadDs (s : reg) | LoadEs (s : reg) | SwapGs | Ret | Iretq | Sysret.

Definition push_word (v : Z) (st : state) : state :=
  let sp := u64 (regs st.1 RSP - 8) in (set RSP sp st.1, <[sp := v]> st.2).

(** The word on top, which an instruction that pops takes. *)
Definition pop_word (st : state) : option (Z * state) :=
  v ← st.2 !! regs st.1 RSP; Some (v, (set RSP (u64 (regs st.1 RSP + 8)) st.1, st.2)).

Definition msr_efer : Z := 0xC0000080.
Definition msr_star : Z := 0xC0000081.
Definition msr_lstar : Z := 0xC0000082.
Definition msr_sfmask : Z := 0xC0000084.

(** The flags [sysret] and [iretq] load: the second bit is always set. *)
Definition sysret_flags (f : Z) : Z := Z.lor (Z.land f 0x3C7FD7) 2.

(** [None] when the code reads a word that is not there. *)
Definition exec (i : instr) (st : state) : option state :=
  match i with
  | Push r => Some (push_word (regs st.1 r) st)
  | PushImm v => Some (push_word v st)
  | PushGs o => v ← st.2 !! (gs_base st.1 + o); Some (push_word v st)
  | Pop r => '(v, st) ← pop_word st; Some (set r v st.1, st.2)
  | Mov d s => Some (set d (regs st.1 s) st.1, st.2)
  | Store b s => Some (st.1, <[regs st.1 b := regs st.1 s]> st.2)
  | StoreGs o s => Some (st.1, <[gs_base st.1 + o := regs st.1 s]> st.2)
  | LoadGs d o => v ← st.2 !! (gs_base st.1 + o); Some (set d v st.1, st.2)
  | StoreAt a s => Some (st.1, <[a := regs st.1 s]> st.2)
  | LoadAt d a => v ← st.2 !! a; Some (set d v st.1, st.2)
  | AddSp n => Some (set RSP (u64 (regs st.1 RSP + n)) st.1, st.2)
  | SwapGs => Some (set_gs (kernel_gs_base st.1) (gs_base st.1) st.1, st.2)
  | MovImm16 d v => Some (set d (Z.shiftl (Z.shiftr (regs st.1 d) 16) 16 + v) st.1, st.2)
  | LoadDs s => Some (set_data (u16 (regs st.1 s)) (es st.1) st.1, st.2)
  | LoadEs s => Some (set_data (ds st.1) (u16 (regs st.1 s)) st.1, st.2)
  | Ret => '(v, st) ← pop_word st; Some (go v (flags st.1) (cs st.1) (ss st.1) st.1, st.2)
  | Iretq =>
    '(i, st) ← pop_word st; '(code, st) ← pop_word st; '(f, st) ← pop_word st; '(sp, st) ← pop_word st; '(stack, st) ← pop_word st;
    Some (set RSP sp (go i f code stack st.1), st.2)
  | Sysret =>
    let base := Z.shiftr (msr st.1 msr_star) 48 in
    Some (go (regs st.1 RCX) (sysret_flags (regs st.1 R11)) (Z.lor (u16 (base + 16)) 3) (Z.lor (u16 (base + 8)) 3) st.1, st.2)
  end.

Fixpoint run (code : list instr) (st : state) : option state :=
  match code with [] => Some st | i :: code => st ← exec i st; run code st end.

(** ** The code *)

(** switch.asm. *)
Definition callee_saved : list reg := [RBP; RBX; R12; R13; R14; R15].
Definition context_switch : list instr :=
  (Push <$> callee_saved) ++ [Store RDI RSP; Mov RSP RSI] ++ (Pop <$> rev callee_saved) ++ [Ret].
Definition thread_entry_trampoline : list instr := [Mov RDI R12; Mov RSI R13].

(** syscall_entry.asm up to the call of the dispatcher, and from its return. *)
Definition PERCPU_KERNEL_STACK : Z := 24.
Definition PERCPU_USER_STACK : Z := 32.
Definition frame_regs : list reg := [R9; R8; R10; RDX; RSI; RDI; RAX].
Definition syscall_entry : list instr :=
  [SwapGs; StoreGs PERCPU_USER_STACK RSP; LoadGs RSP PERCPU_KERNEL_STACK; PushGs PERCPU_USER_STACK] ++
  (Push <$> RCX :: R11 :: frame_regs) ++ [Mov RDI RSP].
Definition syscall_return : list instr := (Pop <$> rev frame_regs ++ [R11; RCX]) ++ [Pop RSP; SwapGs; Sysret].

(** [saved] is the address of [saved_kernel_rsp]. *)
Definition enter_user_mode (saved : Z) : list instr :=
  (Push <$> callee_saved) ++ 
  [StoreAt saved RSP; MovImm16 RAX 0x23; LoadDs RAX; LoadEs RAX; PushImm 0x23; Push RSI; PushImm 0x202; PushImm 0x2B; Push RDI; Iretq].
Definition leave_user_mode (saved : Z) : list instr := LoadAt RSP saved :: (Pop <$> rev callee_saved) ++ [Ret].

(** isr.asm. *)
Definition isr_regs : list reg := [RAX; RBX; RCX; RDX; RSI; RDI; RBP; R8; R9; R10; R11; R12; R13; R14; R15].
Definition has_error_code (vec : Z) : bool :=
  (vec =? 8) || (vec =? 10) || (vec =? 11) || (vec =? 12) || (vec =? 13) || (vec =? 14) || (vec =? 17) || (vec =? 21).
Definition isr_stub (vec : Z) : list instr := if has_error_code vec then [PushImm vec] else [PushImm 0; PushImm vec].
Definition isr_entry (vec : Z) : list instr := isr_stub vec ++ (Push <$> isr_regs) ++ [Mov RDI RSP].
Definition isr_return : list instr := (Pop <$> rev isr_regs) ++ [AddSp 16; Iretq].

(** ** [syscall_init_cpu] *)

Definition efer_syscall_enable : Z := 1.
Definition selector_kernel_code : Z := 0x08.
Definition selector_kernel_data : Z := 0x10.
Definition selector_user_base : Z := 0x18.
Definition selector_user_data : Z := 0x20.
Definition selector_user_code : Z := 0x28.

Definition syscall_init_cpu (entry : Z) (c : cpu) : cpu :=
  let c := set_msr msr_efer (Z.lor (msr c msr_efer) efer_syscall_enable) c in
  let star := Z.lor (Z.shiftl selector_user_base 48) (Z.shiftl selector_kernel_code 32) in
  let c := set_msr msr_star star c in
  let c := set_msr msr_lstar entry c in
  set_msr msr_sfmask (Z.shiftl 1 9) c.

(** ** The hardware *)

(** The [syscall] instruction; [ip c] is the address behind it. *)
Definition syscall (c : cpu) : cpu :=
  let star := msr c msr_star in
  go (msr c msr_lstar) (Z.land (flags c) (Z.lnot (msr c msr_sfmask))) (Z.land (u16 (Z.shiftr star 32)) 0xFFFC)
    (u16 (u16 (Z.shiftr star 32) + 8)) (set R11 (flags c) (set RCX (ip c) c)).

(** The exceptions that come with an error code. *)
Definition pushes_error (vec : Z) : bool := has_error_code vec || (vec =? 29) || (vec =? 30).

(** An interrupt: [ist] is the stack its gate names, if any, and [rsp0] the one the task
    segment has for ring 0. *)
Definition interrupt_stack (ist : option Z) (rsp0 : Z) (c : cpu) : Z :=
  let sp := match ist with Some top => top | None => if Z.land (cs c) 3 =? 3 then rsp0 else regs c RSP end in
  16 * (sp / 16).

Definition interrupt (vec error : Z) (ist : option Z) (rsp0 gate : Z) (st : state) : state :=
  let c := st.1 in
  let st := push_word (ss c) (set RSP (interrupt_stack ist rsp0 c) c, st.2) in
  let st := push_word (regs c RSP) st in
  let st := push_word (flags c) st in
  let st := push_word (cs c) st in
  let st := push_word (ip c) st in
  let st := if pushes_error vec then push_word error st else st in
  (go gate (Z.land (flags c) (Z.lnot (2 ^ 9))) selector_kernel_code (if Z.land (cs c) 3 =? 3 then 0 else ss c) st.1, st.2).

(** ** Pushing and popping *)

(** The words [ws] lie from [a] upwards. *)
Definition words_at (m : gmap Z Z) (a : Z) (ws : list Z) : Prop := forall j w, ws !! j = Some w -> m !! (a + 8 * Z.of_nat j) = Some w.

(** Two CPU states that differ in registers only. *)
Definition same_rest (c c' : cpu) : Prop :=
  ip c' = ip c /\ flags c' = flags c /\ cs c' = cs c /\ ss c' = ss c /\ ds c' = ds c /\ es c' = es c /\ gs_base c' = gs_base c /\
  kernel_gs_base c' = kernel_gs_base c /\ msr c' = msr c.

Lemma words_cons m a w ws : words_at m a (w :: ws) <-> m !! a = Some w /\ words_at m (a + 8) ws.
Proof.
  split.
  - intros Hw. split; [specialize (Hw 0%nat w eq_refl); by rewrite Z.add_0_r in Hw|].
    intros j x Hj. specialize (Hw (S j) x Hj). by replace (a + 8 + 8 * Z.of_nat j) with (a + 8 * Z.of_nat (S j)) by lia.
  - intros [H0 Hw] [|j] x Hj; [injection Hj as <-; by rewrite Z.add_0_r|].
    replace (a + 8 * Z.of_nat (S j)) with (a + 8 + 8 * Z.of_nat j) by lia. by apply Hw.
Qed.

Lemma words_app m a ws ws' : words_at m a (ws ++ ws') <-> words_at m a ws /\ words_at m (a + 8 * Z.of_nat (length ws)) ws'.
Proof.
  revert a. induction ws as [|w ws IH]; intros a; cbn [app length].
  - rewrite Z.mul_0_r, Z.add_0_r. split; [intros Hw; by split|by intros [_ Hw]].
  - rewrite !words_cons, IH. replace (a + 8 + 8 * Z.of_nat (length ws)) with (a + 8 * Z.of_nat (S (length ws))) by lia. tauto.
Qed.

Lemma words_same m m' a ws : words_at m a ws -> (forall x, a <= x < a + 8 * Z.of_nat (length ws) -> m' !! x = m !! x) -> words_at m' a ws.
Proof. intros Hw Hm j w Hj. rewrite Hm; [by apply Hw|]. apply lookup_lt_Some in Hj. lia. Qed.

Lemma run_app l l' st : run (l ++ l') st = st ← run l st; run l' st.
Proof. revert st. induction l as [|i l IH]; intros st; [done|]. cbn. destruct (exec i st); [apply IH|done]. Qed.

Lemma run_store_at a r l c m : run (StoreAt a r :: l) (c, m) = run l (c, <[a := regs c r]> m).
Proof. reflexivity. Qed.

Lemma run_mov16 r v l c m : run (MovImm16 r v :: l) (c, m) = run l (set r (Z.shiftl (Z.shiftr (regs c r) 16) 16 + v) c, m).
Proof. reflexivity. Qed.

Lemma run_load_ds r l c m : run (LoadDs r :: l) (c, m) = run l (set_data (u16 (regs c r)) (es c) c, m).
Proof. reflexivity. Qed.

Lemma run_load_es r l c m : run (LoadEs r :: l) (c, m) = run l (set_data (ds c) (u16 (regs c r)) c, m).
Proof. reflexivity. Qed.

Lemma run_push r l c m :
  run (Push r :: l) (c, m) = run l (set RSP (u64 (regs c RSP - 8)) c, <[u64 (regs c RSP - 8) := regs c r]> m).
Proof. reflexivity. Qed.

Lemma run_push_imm v l c m :
  run (PushImm v :: l) (c, m) = run l (set RSP (u64 (regs c RSP - 8)) c, <[u64 (regs c RSP - 8) := v]> m).
Proof. reflexivity. Qed.

Lemma run_pop r l c m v : m !! regs c RSP = Some v -> run (Pop r :: l) (c, m) = run l (set r v (set RSP (u64 (regs c RSP + 8)) c), m).
Proof. intros E. cbn [run exec]. unfold pop_word. cbn [fst snd]. by rewrite E. Qed.

(** Pushing registers: they lie on the stack, the last on top; above nothing changed. *)
Lemma push_all rs : forall c m sp, RSP ∉ rs -> regs c RSP = sp -> 8 * Z.of_nat (length rs) <= sp < 2 ^ 64 ->
  exists c' m', run (Push <$> rs) (c, m) = Some (c', m') /\ regs c' RSP = sp - 8 * Z.of_nat (length rs) /\
    (forall r, r <> RSP -> regs c' r = regs c r) /\ same_rest c c' /\
    words_at m' (sp - 8 * Z.of_nat (length rs)) (rev (regs c <$> rs)) /\ (forall a, sp <= a -> m' !! a = m !! a) /\
    (forall a, a < sp - 8 * Z.of_nat (length rs) -> m' !! a = m !! a).
Proof.
  induction rs as [|r rs IH]; intros c m sp Hn Hsp Hr; cbn [fmap list_fmap run].
  { exists c, m. cbn [length rev]. rewrite Z.mul_0_r, Z.sub_0_r. split_and!; try done. }
  apply not_elem_of_cons in Hn as [Hne Hn]. cbn [length] in Hr.
  change (exec (Push r) (c, m) ≫= _) with (run (Push r :: (Push <$> rs)) (c, m)). rewrite run_push, Hsp, u64_small by lia. set (c1 := set RSP (sp - 8) c).
  destruct (IH c1 (<[sp - 8 := regs c r]> m) (sp - 8) Hn) as (c' & m' & E & Hs & Hk & Hrest & Hw & Hup & Hlo); [done|lia|].
  exists c', m'. cbn [length]. replace (sp - 8 * Z.of_nat (S (length rs))) with (sp - 8 - 8 * Z.of_nat (length rs)) by lia. split_and!; try done.
  - intros x Hx. rewrite Hk by done. cbn. by rewrite decide_False.
  - cbn [rev fmap list_fmap]. apply words_app. assert (regs c1 <$> rs = regs c <$> rs) as Eregs.
    { apply list_fmap_ext. intros i x Hx. cbn. rewrite decide_False; [done|]. intros ->. apply Hn. by eapply list_elem_of_lookup_2. }
    rewrite <- Eregs. split; [done|]. rewrite length_rev, length_fmap. apply words_cons. split; [|by intros j w Hj].
    replace (sp - 8 - 8 * Z.of_nat (length rs) + 8 * Z.of_nat (length rs)) with (sp - 8) by lia. rewrite Hup by lia. by rewrite lookup_insert_eq.
  - intros a Ha. rewrite Hup by lia. by rewrite lookup_insert_ne by lia.
  - intros a Ha. rewrite Hlo by lia. by rewrite lookup_insert_ne by lia.
Qed.

(** Popping registers off the words that lie there. *)
Lemma pop_all rs : forall c m sp ws, RSP ∉ rs -> NoDup rs -> regs c RSP = sp -> words_at m sp ws -> length ws = length rs ->
  0 <= sp -> sp + 8 * Z.of_nat (length rs) < 2 ^ 64 ->
  exists c', run (Pop <$> rs) (c, m) = Some (c', m) /\ regs c' RSP = sp + 8 * Z.of_nat (length rs) /\ same_rest c c' /\
    (forall r, r ∉ rs -> r <> RSP -> regs c' r = regs c r) /\
    (forall j r w, rs !! j = Some r -> ws !! j = Some w -> regs c' r = w).
Proof.
  induction rs as [|r rs IH]; intros c m sp ws Hn Hnd Hsp Hw Hl H0 Hr; cbn [fmap list_fmap run].
  { exists c. cbn [length]. rewrite Z.mul_0_r, Z.add_0_r. split_and!; done. }
  apply not_elem_of_cons in Hn as [Hne Hn]. apply NoDup_cons in Hnd as [Hx Hnd]. destruct ws as [|w ws]; [done|]. apply words_cons in Hw as [Hm Hw].
  cbn [length] in Hr. change (exec (Pop r) (c, m) ≫= _) with (run (Pop r :: (Pop <$> rs)) (c, m)). rewrite (run_pop r _ c m w) by by rewrite Hsp.
  rewrite Hsp, u64_small by lia. set (c1 := set r w (set RSP (sp + 8) c)).
  destruct (IH c1 m (sp + 8) ws Hn Hnd) as (c' & E & Hs & Hrest & Hk & Hv); [cbn; by rewrite decide_False, decide_True by done|done|by injection Hl|lia|lia|].
  exists c'. cbn [length]. split_and!; [done|lia|done| |].
  - intros x Hx' Hxs. apply not_elem_of_cons in Hx' as [Hxr Hx']. rewrite Hk by done. cbn. by rewrite !decide_False.
  - intros [|j] x y Hj Hy; cbn in Hj, Hy; [|by eapply Hv]. injection Hj as <-. injection Hy as <-. rewrite Hk by done. cbn. by rewrite decide_True.
Qed.

(** Facts about lists of registers are decided. *)
Ltac reg_list := apply (bool_decide_eq_true_1 _); vm_compute; reflexivity.

(** ** Switching threads *)

(** The stack [context_switch] leaves behind: the saved registers and the address to
    return to, from the pointer it stores. *)
Definition parked (c : cpu) (back : Z) : list Z := rev (regs c <$> callee_saved) ++ [back].

(** [x] lies outside the [n] bytes from [a]. *)
Definition outside (x a n : Z) : Prop := x < a \/ a + n <= x.

Lemma callee_saved_nodup : NoDup callee_saved /\ NoDup (rev callee_saved) /\ RSP ∉ callee_saved /\ RSP ∉ rev callee_saved.
Proof. split_and!; reg_list. Qed.

(** One switch: the running thread is parked at [sp - 48], which is stored at [save], and
    the thread parked at [next] continues. *)
Lemma context_switch_spec c m sp save next back ws ret :
  regs c RSP = sp -> regs c RDI = save -> regs c RSI = next -> m !! sp = Some back -> 48 <= sp < 2 ^ 64 ->
  words_at m next (ws ++ [ret]) -> length ws = 6%nat -> 0 <= next -> next + 56 < 2 ^ 64 ->
  (sp <= next \/ next + 56 <= sp - 48) -> outside save next 56 -> outside save (sp - 48) 56 ->
  exists c' m', run context_switch (c, m) = Some (c', m') /\ ip c' = ret /\ regs c' RSP = next + 56 /\
    (forall j r w, rev callee_saved !! j = Some r -> ws !! j = Some w -> regs c' r = w) /\
    cs c' = cs c /\ gs_base c' = gs_base c /\ m' !! save = Some (sp - 48) /\ words_at m' (sp - 48) (parked c back) /\
    (forall a, outside a (sp - 48) 48 -> a <> save -> m' !! a = m !! a).
Proof.
  intros Hsp Hdi Hsi Hback Hr Hw Hl Hn0 Hn1 Hdis Hs1 Hs2. destruct callee_saved_nodup as (Hnd & Hnd' & Hin & Hin').
  destruct (push_all callee_saved c m sp Hin Hsp) as (c1 & m1 & E1 & Hsp1 & Hk1 & (_ & _ & Hcs1 & _ & _ & _ & Hgs1 & _) & Hw1 & Hup & Hlo); [cbn; lia|].
  change (8 * Z.of_nat (length callee_saved)) with 48 in *. unfold outside in *.
  set (m2 := <[save := sp - 48]> m1). set (c2 := set RSP next c1).
  assert (forall a, outside a (sp - 48) 48 -> a <> save -> m2 !! a = m !! a) as Hkeep.
  { intros a Ha Hne. unfold m2. rewrite lookup_insert_ne by done. destruct Ha; [apply Hlo|apply Hup]; lia. }
  assert (words_at m2 next (ws ++ [ret])) as Hw2.
  { eapply words_same; [exact Hw|]. rewrite length_app, Hl. cbn [length]. intros x Hx. apply Hkeep; unfold outside; lia. }
  apply words_app in Hw2 as [Hws Hret]. rewrite Hl in Hret. change (8 * Z.of_nat 6) with 48 in Hret. apply words_cons in Hret as [Hret _].
  destruct (pop_all (rev callee_saved) c2 m2 next ws Hin' Hnd') as (c3 & E3 & Hsp3 & (_ & Hfl & Hcs & Hss & _ & _ & Hgs & _) & _ & Hv); [done|done|done|lia|cbn; lia|].
  change (8 * Z.of_nat (length (rev callee_saved))) with 48 in *.
  eexists _, m2. split.
  { unfold context_switch. rewrite run_app, E1. cbn [mbind option_bind]. rewrite run_app.
    change (run [Store RDI RSP; Mov RSP RSI] (c1, m1)) with (Some (set RSP (regs c1 RSI) c1, <[regs c1 RDI := regs c1 RSP]> m1)).
    cbn [mbind option_bind]. rewrite (Hk1 RSI), (Hk1 RDI), Hdi, Hsi, Hsp1, run_app by done. unfold m2, c2 in E3. rewrite E3. cbn [mbind option_bind run exec].
    unfold pop_word. cbn [fst snd]. rewrite Hsp3. unfold m2 in Hret. rewrite Hret. cbn [mbind option_bind fst snd]. reflexivity. }
  cbn [go set ip regs cs gs_base]. rewrite decide_True by done. split_and!.
  - done.
  - rewrite u64_small by lia. lia.
  - intros j r w Hj Hx. rewrite decide_False; [by eapply Hv|]. intros ->. apply Hin'. by eapply list_elem_of_lookup_2.
  - by rewrite Hcs.
  - by rewrite Hgs.
  - unfold m2. by rewrite lookup_insert_eq.
  - unfold parked. apply words_app. rewrite length_rev, length_fmap. change (8 * Z.of_nat (length callee_saved)) with 48. split.
    + eapply words_same; [exact Hw1|]. rewrite length_rev, length_fmap. intros x Hx. change (8 * Z.of_nat (length callee_saved)) with 48 in Hx.
      unfold m2. rewrite lookup_insert_ne by lia. done.
    + apply words_cons. split; [|by intros j w Hj]. replace (sp - 48 + 48) with sp by lia. rewrite Hkeep; [done|unfold outside; lia|lia].
  - done.
Qed.

Lemma callee_saved_cases r : r ∈ callee_saved -> r = RBP \/ r = RBX \/ r = R12 \/ r = R13 \/ r = R14 \/ r = R15.
Proof. unfold callee_saved. rewrite !elem_of_cons, elem_of_nil. tauto. Qed.

Lemma callee_saved_rev r : r ∈ callee_saved -> exists j, rev callee_saved !! j = Some r.
Proof. intros Hr. apply list_elem_of_lookup. unfold callee_saved in *. cbn. set_solver. Qed.

(** C11: A thread that is switched away comes back as if [context_switch] had returned: its
    stack pointer is stored where the scheduler asked, and a later switch to it, from
    whatever the CPU runs then, continues behind its call with the registers the
    calling convention preserves and with its stack pointer, as long as its parked
    frame was left alone. *)
Theorem context_switch_returns c m sp save next back ws ret c2 m2 sp2 back2 :
  regs c RSP = sp -> regs c RDI = save -> regs c RSI = next -> m !! sp = Some back -> 48 <= sp -> sp + 8 < 2 ^ 64 ->
  words_at m next (ws ++ [ret]) -> length ws = 6%nat -> 0 <= next -> next + 56 < 2 ^ 64 ->
  (sp <= next \/ next + 56 <= sp - 48) -> outside save next 56 -> outside save (sp - 48) 56 ->
  exists c1 m1 stored, run context_switch (c, m) = Some (c1, m1) /\ ip c1 = ret /\ m1 !! save = Some stored /\
    (regs c2 RSI = stored -> regs c2 RSP = sp2 -> m2 !! sp2 = Some back2 -> 48 <= sp2 < 2 ^ 64 ->
     (forall a, stored <= a < sp + 8 -> m2 !! a = m1 !! a) -> (sp2 <= stored \/ sp + 8 <= sp2 - 48) ->
     outside (regs c2 RDI) stored 56 -> outside (regs c2 RDI) (sp2 - 48) 56 ->
     exists c3 m3, run context_switch (c2, m2) = Some (c3, m3) /\ ip c3 = back /\ regs c3 RSP = sp + 8 /\
       forall r, r ∈ callee_saved -> regs c3 r = regs c r).
Proof.
  intros Hsp Hdi Hsi Hback Hlo Hhi Hw Hl Hn0 Hn1 Hdis Hs1 Hs2.
  destruct (context_switch_spec c m sp save next back ws ret) as (c1 & m1 & E & Hip & _ & _ & _ & _ & Hst & Hp & _); try done; [lia|].
  exists c1, m1, (sp - 48). split_and!; try done. intros Hsi2 Hsp2 Hb2 Hr2 Hsame Hd2 Ho1 Ho2.
  destruct (context_switch_spec c2 m2 sp2 (regs c2 RDI) (sp - 48) back2 (rev (regs c <$> callee_saved)) back) as (c3 & m3 & E3 & Hip3 & Hsp3 & Hv & _);
    try done; try lia.
  { eapply words_same; [exact Hp|]. intros x Hx. apply Hsame. cbn in Hx. lia. }
  exists c3, m3. split_and!; [done|done|lia|]. intros r Hr. destruct (callee_saved_rev r Hr) as [j Hj]. apply (Hv j); [done|].
  change (rev (regs c <$> callee_saved)) with (regs c <$> rev callee_saved). by rewrite list_lookup_fmap, Hj.
Qed.

(** A word of a stack that was pushed word by word. *)
Ltac find_word :=
  repeat match goal with
  | |- <[?a := _]> _ !! ?b = Some _ =>
    first [replace b with a by lia; rewrite lookup_insert_eq; reflexivity | rewrite lookup_insert_ne by lia]
  end.

(** A new thread starts in [thread_entry_start] with its entry point and argument: the
    frame [Scheduler::prepare] builds is one that [context_switch] can resume. *)
Theorem prepared_thread_starts trampoline thread name entry argument s s' t c m sp back :
  prepare trampoline thread name entry argument s = Some s' -> threads s' !! thread = Some t ->
  (forall a, stack_pointer_ t <= a < stack_pointer_ t + 56 -> m !! a = stack_words s' !! a) ->
  regs c RSP = sp -> regs c RSI = stack_pointer_ t -> m !! sp = Some back -> 48 <= sp < 2 ^ 64 ->
  0 <= stack_pointer_ t -> stack_pointer_ t + 56 < 2 ^ 64 -> (sp <= stack_pointer_ t \/ stack_pointer_ t + 56 <= sp - 48) ->
  outside (regs c RDI) (stack_pointer_ t) 56 -> outside (regs c RDI) (sp - 48) 56 ->
  exists c1 m1 c2, run context_switch (c, m) = Some (c1, m1) /\ ip c1 = trampoline /\ regs c1 RSP = stack_pointer_ t + 56 /\ regs c1 RBP = 0 /\
    run thread_entry_trampoline (c1, m1) = Some (c2, m1) /\ regs c2 RDI = entry /\ regs c2 RSI = argument.
Proof.
  intros Hp Ht Hm Hsp Hsi Hback Hr Hn0 Hn1 Hdis Ho1 Ho2. unfold prepare in Hp. destruct (threads s !! thread) as [t0|]; [|done].
  cbn [mbind option_bind fold_left push fst snd] in Hp. injection Hp as <-. cbn [threads set_words set_threads] in Ht. rewrite lookup_insert_eq in Ht.
  injection Ht as <-. cbn [stack_pointer_ stack_words set_words] in *. set (top := u64 _) in *.
  set (next := top - 8 - 8 - 8 - 8 - 8 - 8 - 8) in *.
  assert (words_at m next ([0; 0; argument; entry; 0; 0] ++ [trampoline])) as Hw.
  { eapply words_same; [|intros x Hx; apply Hm; cbn in Hx; lia]. cbn [app].
    repeat (apply words_cons; split; [unfold next; find_word|]). by intros j w Hj. }
  destruct (context_switch_spec c m sp (regs c RDI) next back [0; 0; argument; entry; 0; 0] trampoline) as (c1 & m1 & E & Hip & Hsp1 & Hv & _); try done.
  exists c1, m1. eexists. split; [done|]. split; [done|]. split; [done|]. split; [by apply (Hv 5%nat)|]. split; [reflexivity|].
  cbn. split; [by apply (Hv 3%nat)|by apply (Hv 2%nat)].
Qed.

(** ** System calls *)

(** What a call of a C++ function leaves of a stub's state: the stack pointer and the
    preserved registers; the frame is its argument, so memory is left to each stub.  The
    thread may have moved to another CPU, which has the same call gate. *)
Definition called (c c' : cpu) : Prop :=
  regs c' RSP = regs c RSP /\ (forall r, r ∈ callee_saved -> regs c' r = regs c r) /\ msr c' = msr c.

Lemma frame_nodup : NoDup (rev frame_regs ++ [R11; RCX]) /\ RSP ∉ rev frame_regs ++ [R11; RCX] /\ RSP ∉ RCX :: R11 :: frame_regs.
Proof. split_and!; reg_list. Qed.

(** A CPU as [syscall_init_cpu] and [percpu_setup] leave it: the gate is set, and the block
    [block] its kernel base points at names the kernel stack. *)
Record gate_ready (entry block top : Z) (c : cpu) (m : gmap Z Z) : Prop := {
  g_msr : exists b, msr c = msr (syscall_init_cpu entry b);
  g_block : kernel_gs_base c = block;
  g_stack : m !! (block + PERCPU_KERNEL_STACK) = Some top;
  g_top : 80 <= top < 2 ^ 64;
  g_apart : outside (block + PERCPU_USER_STACK) (top - 80) 80
}.

(** The way in: the dispatcher finds the call and its arguments in the frame it is given,
    with interrupts off and on the kernel's own stack. *)
Lemma syscall_entered entry block top c m : gate_ready entry block top c m ->
  exists c1 m1, run syscall_entry (syscall c, m) = Some (c1, m1) /\
    regs c1 RDI = top - 80 /\ regs c1 RSP = top - 80 /\ Z.testbit (flags c1) 9 = false /\ cs c1 = selector_kernel_code /\ ss c1 = selector_kernel_data /\
    gs_base c1 = block /\ msr c1 = msr c /\ (forall r, r ∈ callee_saved -> regs c1 r = regs c r) /\
    words_at m1 (top - 80) ((regs c <$> [RAX; RDI; RSI; RDX; R10; R8; R9]) ++ [flags c; ip c; regs c RSP]) /\
    (forall a, outside a (top - 80) 80 -> a <> block + PERCPU_USER_STACK -> m1 !! a = m !! a).
Proof.
  intros [[b Hmsr] Hblock Hstack Htop Hap]. destruct frame_nodup as (_ & _ & Hnin). unfold PERCPU_KERNEL_STACK, PERCPU_USER_STACK, outside in *.
  set (m0 := <[block + 32 := regs c RSP]> m). set (c0 := set RSP (top - 8) (set RSP top (set_gs (kernel_gs_base c) (gs_base c) (syscall c)))).
  assert (run [SwapGs; StoreGs PERCPU_USER_STACK RSP; LoadGs RSP PERCPU_KERNEL_STACK; PushGs PERCPU_USER_STACK] (syscall c, m)
    = Some (c0, <[top - 8 := regs c RSP]> m0)) as E0.
  { cbn [run exec mbind option_bind fst snd]. change (gs_base (set_gs (kernel_gs_base (syscall c)) (gs_base (syscall c)) (syscall c))) with (kernel_gs_base c).
    rewrite Hblock. change (regs (set_gs (kernel_gs_base (syscall c)) (gs_base (syscall c)) (syscall c)) RSP) with (regs c RSP).
    unfold PERCPU_KERNEL_STACK, PERCPU_USER_STACK. fold m0. assert (m0 !! (block + 24) = Some top) as -> by (unfold m0; by rewrite lookup_insert_ne by lia).
    cbn [mbind option_bind fst snd set gs_base]. change (gs_base (set_gs (kernel_gs_base (syscall c)) (gs_base (syscall c)) (syscall c))) with (kernel_gs_base c).
    rewrite Hblock. assert (m0 !! (block + 32) = Some (regs c RSP)) as -> by (unfold m0; by rewrite lookup_insert_eq).
    cbn [mbind option_bind]. unfold push_word. cbn [fst snd set regs]. rewrite decide_True by done. rewrite u64_small by lia. reflexivity. }
  destruct (push_all (RCX :: R11 :: frame_regs) c0 (<[top - 8 := regs c RSP]> m0) (top - 8) Hnin eq_refl) as
    (c1 & m1 & E1 & Hsp1 & Hk1 & (Hip1 & Hfl1 & Hcs1 & Hss1 & _ & _ & Hgs1 & _ & Hm1) & Hw1 & Hup & Hlo); [cbn; lia|].
  change (8 * Z.of_nat (length (RCX :: R11 :: frame_regs))) with 72 in *. replace (top - 8 - 72) with (top - 80) in * by lia.
  exists (set RDI (regs c1 RSP) c1), m1. split; [|split_and!].
  - unfold syscall_entry. rewrite run_app, E0. cbn [mbind option_bind]. rewrite run_app, E1. reflexivity.
  - cbn. by rewrite decide_True.
  - done.
  - cbn [set flags]. rewrite Hfl1. cbn [c0 set set_gs flags syscall go]. rewrite Z.land_spec, Z.lnot_spec, Hmsr by lia.
    change (Z.testbit (msr (syscall_init_cpu entry b) msr_sfmask) 9) with true. apply andb_false_r.
  - cbn [set cs]. rewrite Hcs1. cbn [c0 set set_gs cs syscall go]. by rewrite Hmsr.
  - cbn [set ss]. rewrite Hss1. cbn [c0 set set_gs ss syscall go]. by rewrite Hmsr.
  - cbn [set gs_base]. by rewrite Hgs1.
  - cbn [set msr]. by rewrite Hm1.
  - intros r Hr. cbn [set regs]. assert (r <> RDI /\ r <> RSP /\ r <> R11 /\ r <> RCX) as (N1 & N2 & N3 & N4) by (apply callee_saved_cases in Hr; destruct_or! Hr; subst; done).
    rewrite decide_False, Hk1 by done. cbn. by rewrite !decide_False.
  - change ((regs c <$> [RAX; RDI; RSI; RDX; R10; R8; R9]) ++ [flags c; ip c; regs c RSP])
      with (rev (regs c0 <$> RCX :: R11 :: frame_regs) ++ [regs c RSP]).
    apply words_app. split; [done|]. apply words_cons. split; [|by intros j w Hj]. rewrite length_rev, length_fmap.
    change (8 * Z.of_nat (length (RCX :: R11 :: frame_regs))) with 72. replace (top - 80 + 72) with (top - 8) by lia. rewrite Hup by lia. by rewrite lookup_insert_eq.
  - intros a Ha Hne. destruct Ha; [rewrite Hlo by lia|rewrite Hup by lia]; rewrite lookup_insert_ne by lia; unfold m0; by rewrite lookup_insert_ne by lia.
Qed.

(** C9: A system call returns to the program where it was: on every CPU the gate was set up
    on, the dispatcher gets the call's number and six arguments as the fields of
    [SyscallFrame], with interrupts off, on the kernel stack, aligned as the calling
    convention wants; and whatever it does within that convention, on whichever CPU it
    finishes, the program continues behind the [syscall] instruction, in ring 3 with
    its own stack, and with every register but [rax], [rcx] and [r11] as it was; [rax] is
    the result.  The selectors name the user segments of the descriptor table. *)
Theorem syscall_transparent entry block top c m c2 m2 result :
  gate_ready entry block top c m -> 0 <= regs c RSP < 2 ^ 64 ->
  exists c1 m1, run syscall_entry (syscall c, m) = Some (c1, m1) /\ regs c1 RDI = regs c1 RSP /\
    words_at m1 (regs c1 RDI) (regs c <$> [RAX; RDI; RSI; RDX; R10; R8; R9]) /\
    Z.testbit (flags c1) 9 = false /\ (top mod 16 = 0 -> regs c1 RSP mod 16 = 0) /\
    (forall a, outside a (top - 80) 80 -> a <> block + PERCPU_USER_STACK -> m1 !! a = m !! a) /\
    (called c1 c2 -> m2 !! regs c1 RDI = Some result -> (forall a, regs c1 RDI < a < top -> m2 !! a = m1 !! a) ->
     exists c3, run syscall_return (c2, m2) = Some (c3, m2) /\ ip c3 = ip c /\ flags c3 = sysret_flags (flags c) /\ regs c3 RAX = result /\
       (forall r, r <> RAX -> r <> RCX -> r <> R11 -> regs c3 r = regs c r) /\
       cs c3 = Z.lor selector_user_code 3 /\ ss c3 = Z.lor selector_user_data 3 /\
       forall tss cpu, gdt (gdt_init_cpu tss cpu) !! Z.to_nat (cs c3 / 8) = Some (descriptor 0xFA 0xA) /\
         gdt (gdt_init_cpu tss cpu) !! Z.to_nat (ss c3 / 8) = Some (descriptor 0xF2 0xA)).
Proof.
  intros Hg Hu. destruct (syscall_entered entry block top c m Hg) as (c1 & m1 & E & Hdi & Hsp & Hif & _ & _ & _ & Hms & Hcal & Hw & Hkeep).
  destruct Hg as [[b Hmsr] _ _ Htop _]. destruct frame_nodup as (Hnd & Hnin & _).
  exists c1, m1. rewrite Hdi. split_and!; try done.
  { by apply words_app in Hw as [Hw _]. }
  { intros Ha. rewrite Hsp. unfold outside in *. dlia. }
  intros (Hsp2 & Hcal2 & Hms2) Hres Hsame.
  set (ws := [result; regs c RDI; regs c RSI; regs c RDX; regs c R10; regs c R8; regs c R9; flags c; ip c]).
  assert (words_at m2 (top - 80) (ws ++ [regs c RSP])) as Hw2.
  { apply words_cons in Hw as [_ Hw]. apply words_cons. split; [done|]. eapply words_same; [exact Hw|]. intros x Hx. cbn in Hx. apply Hsame. lia. }
  apply words_app in Hw2 as [Hws Hlast]. change (8 * Z.of_nat (length ws)) with 72 in Hlast. apply words_cons in Hlast as [Hlast _].
  destruct (pop_all (rev frame_regs ++ [R11; RCX]) c2 m2 (top - 80) ws Hnin Hnd) as (c3 & E3 & Hsp3 & Hrest & Hk & Hv); [congruence|done|done|lia|cbn; lia|].
  change (8 * Z.of_nat (length (rev frame_regs ++ [R11; RCX]))) with 72 in *. destruct Hrest as (_ & _ & _ & _ & _ & _ & _ & _ & Hms3).
  eexists. split.
  { unfold syscall_return. rewrite run_app, E3. cbn [mbind option_bind]. rewrite (run_pop RSP _ c3 m2 (regs c RSP)) by by rewrite Hsp3. reflexivity. }
  assert (msr c3 msr_star = Z.lor (Z.shiftl selector_user_base 48) (Z.shiftl selector_kernel_code 32)) as Hstar by by rewrite Hms3, Hms2, Hms, Hmsr.
  cbn [fst snd go set set_gs regs ip flags cs ss msr]. rewrite Hstar, !(decide_False (P := RCX = RSP)), !(decide_False (P := R11 = RSP)) by done.
  rewrite (Hv 8%nat RCX (ip c)), (Hv 7%nat R11 (flags c)) by done. split_and!; try done.
  - by rewrite (Hv 0%nat RAX result).
  - intros r N1 N2 N3. destruct (decide (r = RSP)) as [->|Hne]; [done|].
    destruct r; try done; first [rewrite Hk by (reg_list || done); rewrite Hcal2, Hcal by reg_list; reflexivity
      | by apply (Hv 1%nat) | by apply (Hv 2%nat) | by apply (Hv 3%nat) | by apply (Hv 4%nat) | by apply (Hv 5%nat) | by apply (Hv 6%nat)].
Qed.

(** ** Interrupts *)

Lemma isr_nodup : NoDup (rev isr_regs) /\ RSP ∉ rev isr_regs /\ RSP ∉ isr_regs.
Proof. split_and!; reg_list. Qed.

Definition error_word (vec error : Z) : Z := if has_error_code vec then error else 0.

(** The stack pointer after a few pushes, from the first on. *)
Ltac narrow_stack := repeat match goal with |- context [u64 (?b - 8)] => lazymatch b with context [u64] => fail | _ => rewrite (u64_small (b - 8)) by lia end end.

(** What the CPU and the stub push in front of the registers. *)
Lemma interrupt_pushed vec error ist rsp0 gate c m base :
  vec <> 29 -> vec <> 30 -> interrupt_stack ist rsp0 c = base -> 56 <= base < 2 ^ 64 ->
  exists c1 m1, run (isr_stub vec) (interrupt vec error ist rsp0 gate (c, m)) = Some (c1, m1) /\ regs c1 RSP = base - 56 /\
    (forall r, r <> RSP -> regs c1 r = regs c r) /\ gs_base c1 = gs_base c /\ flags c1 = Z.land (flags c) (Z.lnot (2 ^ 9)) /\ cs c1 = selector_kernel_code /\
    words_at m1 (base - 56) [vec; error_word vec error; ip c; cs c; flags c; regs c RSP; ss c] /\
    (forall a, base <= a -> m1 !! a = m !! a) /\ (forall a, a < base - 56 -> m1 !! a = m !! a).
Proof.
  intros N1 N2 Hb Hr. unfold interrupt, isr_stub, pushes_error, error_word. cbn [fst snd]. rewrite Hb.
  rewrite (proj2 (Z.eqb_neq vec 29)), (proj2 (Z.eqb_neq vec 30)), !orb_false_r by done.
  destruct (has_error_code vec); cbn [run exec mbind option_bind];
    (eexists _, _; split; [reflexivity|]); unfold push_word; cbn [fst snd go set regs gs_base flags cs];
    repeat rewrite (decide_True (P := RSP = RSP)) by done; narrow_stack;
    (split; [lia|]); (split; [intros r Hne; by rewrite !decide_False|]); (split; [done|]); (split; [done|]); (split; [done|]);
    (split; [repeat (apply words_cons; split; [find_word|]); by intros j w Hj|]);
    (split; intros a Ha; by rewrite !lookup_insert_ne by lia).
Qed.

(** The frame [isr_dispatch] is given, read through its type. *)
Definition registers_at (m : gmap Z Z) (a : Z) : option Panic.Report.Registers :=
  ws ← mapM (fun j => m !! (a + 8 * j)) (seqZ 0 22);
  match ws with
  | [x15; x14; x13; x12; x11; x10; x9; x8; bp; di; si; dx; cx; bx; ax; v; e; i; code; f; sp; stack] =>
    Some (Panic.Report.mkRegisters x15 x14 x13 x12 x11 x10 x9 x8 bp di si dx cx bx ax v e i code f sp stack)
  | _ => None
  end.

Lemma registers_read m a ws : words_at m a ws -> length ws = 22%nat -> mapM (fun j => m !! (a + 8 * j)) (seqZ 0 22) = Some ws.
Proof.
  intros Hw Hl. apply mapM_Some. apply Forall2_same_length_lookup_2; [by rewrite length_seqZ|].
  intros i x y Hx Hy. apply lookup_seqZ in Hx as [-> _]. rewrite Z.add_0_l. by apply Hw.
Qed.

Lemma pop_word_at c m sp v : regs c RSP = sp -> m !! sp = Some v -> 0 <= sp + 8 < 2 ^ 64 -> pop_word (c, m) = Some (v, (set RSP (sp + 8) c, m)).
Proof. intros Hs Hm Hr. unfold pop_word. cbn [fst snd]. rewrite Hs, Hm. cbn [mbind option_bind]. by rewrite u64_small. Qed.

(** [add rsp, 16] and [iretq] on the words the CPU pushed for [c]. *)
Lemma iret_frame c3 m base vec error c : regs c3 RSP = base - 56 -> 56 <= base < 2 ^ 64 ->
  words_at m (base - 56) [vec; error_word vec error; ip c; cs c; flags c; regs c RSP; ss c] ->
  exists c4, run [AddSp 16; Iretq] (c3, m) = Some (c4, m) /\ (forall r, r <> RSP -> regs c4 r = regs c3 r) /\ regs c4 RSP = regs c RSP /\
    ip c4 = ip c /\ flags c4 = flags c /\ cs c4 = cs c /\ ss c4 = ss c /\ gs_base c4 = gs_base c3.
Proof.
  intros Hsp Hr Hw. repeat (apply words_cons in Hw as [? Hw]). eexists. split.
  { cbn [run]. change (exec (AddSp 16) (c3, m)) with (Some (set RSP (u64 (regs c3 RSP + 16)) c3, m)). cbn [mbind option_bind]. rewrite Hsp, u64_small by lia.
    replace (base - 56 + 16) with (base - 56 + 8 + 8) by lia. cbn [exec].
    rewrite (pop_word_at _ m (base - 56 + 8 + 8) (ip c)); [|done|done|lia]. cbn [mbind option_bind].
    rewrite (pop_word_at _ m (base - 56 + 8 + 8 + 8) (cs c)); [|done|done|lia]. cbn [mbind option_bind].
    rewrite (pop_word_at _ m (base - 56 + 8 + 8 + 8 + 8) (flags c)); [|done|done|lia]. cbn [mbind option_bind].
    rewrite (pop_word_at _ m (base - 56 + 8 + 8 + 8 + 8 + 8) (regs c RSP)); [|done|done|lia]. cbn [mbind option_bind].
    rewrite (pop_word_at _ m (base - 56 + 8 + 8 + 8 + 8 + 8 + 8) (ss c)); [|done|done|lia]. cbn [mbind option_bind fst snd]. reflexivity. }
  cbn [set regs go ip flags cs ss gs_base]. split; [intros r Hne; by rewrite !decide_False|]. rewrite decide_True by done. done.
Qed.

(** C10: An interrupt or exception of any vector but 29 and 30 (whose stubs are wrong,
    [security_exception_shifted]) leaves no trace in what it interrupts, in ring 3 or in
    the kernel: the stub hands [isr_dispatch] a frame whose fields are the interrupted registers, the
    vector and the error code, on the stack the gate or the task segment asks for, aligned
    for the call and with interrupts off; and when the dispatcher returns within the
    calling convention, [iretq] resumes with every register, the flags, the segments and
    the stack pointer of the interrupted code.  Nothing above the frame was touched. *)
Theorem interrupt_transparent vec error ist rsp0 gate c m base c2 m2 :
  vec <> 29 -> vec <> 30 -> interrupt_stack ist rsp0 c = base -> 176 <= base < 2 ^ 64 ->
  exists c1 m1, run (isr_entry vec) (interrupt vec error ist rsp0 gate (c, m)) = Some (c1, m1) /\ regs c1 RDI = regs c1 RSP /\
    registers_at m1 (regs c1 RDI) = Some (Panic.Report.mkRegisters (regs c R15) (regs c R14) (regs c R13) (regs c R12) (regs c R11) (regs c R10)
      (regs c R9) (regs c R8) (regs c RBP) (regs c RDI) (regs c RSI) (regs c RDX) (regs c RCX) (regs c RBX) (regs c RAX)
      vec (error_word vec error) (ip c) (cs c) (flags c) (regs c RSP) (ss c)) /\
    Z.testbit (flags c1) 9 = false /\ regs c1 RSP mod 16 = 0 /\ gs_base c1 = gs_base c /\ (forall a, base <= a -> m1 !! a = m !! a) /\
    (called c1 c2 -> (forall a, base - 176 <= a < base -> m2 !! a = m1 !! a) ->
     exists c3, run isr_return (c2, m2) = Some (c3, m2) /\ (forall r, regs c3 r = regs c r) /\
       ip c3 = ip c /\ flags c3 = flags c /\ cs c3 = cs c /\ ss c3 = ss c /\ gs_base c3 = gs_base c2).
Proof.
  intros N1 N2 Hb Hr. destruct isr_nodup as (Hnd & Hnin & Hnin'). assert (base mod 16 = 0) as Hal.
  { rewrite <- Hb. unfold interrupt_stack. rewrite Z.mul_comm. by apply Z.mod_mul. }
  destruct (interrupt_pushed vec error ist rsp0 gate c m base) as (c0 & m0 & E0 & Hsp0 & Hk0 & Hgs0 & Hfl0 & Hcs0 & Hw0 & Hup0 & Hlo0); try done; [lia|].
  destruct (push_all isr_regs c0 m0 (base - 56) Hnin' Hsp0) as (c1 & m1 & E1 & Hsp1 & Hk1 & (_ & Hfl1 & _ & _ & _ & _ & Hgs1 & _) & Hw1 & Hup1 & _); [cbn; lia|].
  change (8 * Z.of_nat (length isr_regs)) with 120 in *. replace (base - 56 - 120) with (base - 176) in * by lia.
  assert (regs c0 <$> isr_regs = regs c <$> isr_regs) as Er.
  { apply list_fmap_ext. intros i r Hi. apply Hk0. intros ->. apply Hnin'. by eapply list_elem_of_lookup_2. }
  set (tail := [vec; error_word vec error; ip c; cs c; flags c; regs c RSP; ss c]) in *. rewrite Er in Hw1.
  assert (words_at m1 (base - 176) (rev (regs c <$> isr_regs) ++ tail)) as Hw.
  { apply words_app. split; [done|]. rewrite length_rev, length_fmap. change (8 * Z.of_nat (length isr_regs)) with 120.
    replace (base - 176 + 120) with (base - 56) by lia. eapply words_same; [exact Hw0|]. intros x Hx. apply Hup1. lia. }
  exists (set RDI (regs c1 RSP) c1), m1. assert (regs (set RDI (regs c1 RSP) c1) RDI = base - 176) as Hdi by (cbn; by rewrite decide_True).
  rewrite Hdi. change (regs (set RDI (regs c1 RSP) c1) RSP) with (regs c1 RSP). split_and!.
  - unfold isr_entry. rewrite run_app, E0. cbn [mbind option_bind]. rewrite run_app, E1. reflexivity.
  - done.
  - unfold registers_at. rewrite (registers_read _ _ _ Hw eq_refl). reflexivity.
  - cbn [set flags]. rewrite Hfl1, Hfl0, Z.land_spec. change (Z.testbit (Z.lnot (2 ^ 9)) 9) with false. apply andb_false_r.
  - rewrite Hsp1. dlia.
  - cbn [set gs_base]. by rewrite Hgs1.
  - intros a Ha. rewrite Hup1 by lia. by apply Hup0.
  - intros (Hsp2 & _ & _) Hsame. change (regs (set RDI (regs c1 RSP) c1) RSP) with (regs c1 RSP) in Hsp2.
    assert (words_at m2 (base - 176) (rev (regs c <$> isr_regs) ++ tail)) as Hw2.
    { eapply words_same; [exact Hw|]. intros x Hx. cbn in Hx. apply Hsame. lia. }
    apply words_app in Hw2 as [Hws Hrest]. change (8 * Z.of_nat (length (rev (regs c <$> isr_regs)))) with 120 in Hrest.
    replace (base - 176 + 120) with (base - 56) in Hrest by lia.
    destruct (pop_all (rev isr_regs) c2 m2 (base - 176) (rev (regs c <$> isr_regs)) Hnin Hnd) as (c3 & E3 & Hsp3 & Hsr & _ & Hv); [congruence|done|done|lia|cbn; lia|].
    change (8 * Z.of_nat (length (rev isr_regs))) with 120 in Hsp3. replace (base - 176 + 120) with (base - 56) in Hsp3 by lia.
    destruct (iret_frame c3 m2 base vec error c Hsp3) as (c4 & E4 & Hr4 & Hsp4 & Hi4 & Hf4 & Hc4 & Hs4 & Hg4); [lia|exact Hrest|].
    exists c4. split; [unfold isr_return; rewrite run_app, E3; exact E4|]. split; [|split_and!; try done; rewrite Hg4; apply Hsr].
    intros r. destruct (decide (r = RSP)) as [->|Hne]; [done|]. rewrite Hr4 by done.
    assert (exists j, rev isr_regs !! j = Some r) as [j Hj] by (destruct r; try done; apply list_elem_of_lookup; reg_list).
    apply (Hv j); [done|]. change (rev (regs c <$> isr_regs)) with (regs c <$> rev isr_regs). by rewrite list_lookup_fmap, Hj.
Qed.

(** ** Into ring 3 and back *)

Lemma enter_user_mode_spec saved c m sp back : regs c RSP = sp -> m !! sp = Some back -> 88 <= sp -> sp < 2 ^ 64 -> outside saved (sp - 88) 96 ->
  exists c' m', run (enter_user_mode saved) (c, m) = Some (c', m') /\ ip c' = regs c RDI /\ regs c' RSP = regs c RSI /\ flags c' = 0x202 /\
    cs c' = 0x2B /\ ss c' = 0x23 /\ m' !! saved = Some (sp - 48) /\ words_at m' (sp - 48) (parked c back) /\
    (forall a, sp <= a -> a <> saved -> m' !! a = m !! a).
Proof.
  intros Hsp Hback Hlo Hhi Hout. destruct callee_saved_nodup as (_ & _ & Hin & _). unfold outside in *.
  destruct (push_all callee_saved c m sp Hin Hsp) as (c1 & m1 & E1 & Hsp1 & Hk1 & _ & Hw1 & Hup & _); [cbn; lia|].
  change (8 * Z.of_nat (length callee_saved)) with 48 in *.
  set (m2 := <[saved := sp - 48]> m1).
  set (m3 := <[sp - 48 - 8 - 8 - 8 - 8 - 8 := regs c RDI]> (<[sp - 48 - 8 - 8 - 8 - 8 := 0x2B]> (<[sp - 48 - 8 - 8 - 8 := 0x202]> (<[sp - 48 - 8 - 8 := regs c RSI]> (<[sp - 48 - 8 := 0x23]> m2))))).
  assert (forall a, sp - 48 <= a -> m3 !! a = m2 !! a) as Hm3 by (intros a Ha; unfold m3; by rewrite !lookup_insert_ne by lia).
  set (low' := Z.shiftl (Z.shiftr (regs c1 RAX) 16) 16 + 0x23).
  assert (exists c2, c2 = set_data (ds (set_data (u16 (regs (set RAX low' c1) RAX)) (es (set RAX low' c1)) (set RAX low' c1)))
    (u16 (regs (set_data (u16 (regs (set RAX low' c1) RAX)) (es (set RAX low' c1)) (set RAX low' c1)) RAX))
    (set_data (u16 (regs (set RAX low' c1) RAX)) (es (set RAX low' c1)) (set RAX low' c1))) as [c2 Ec2] by by eexists.
  eexists _, m3. split.
  { unfold enter_user_mode. rewrite run_app, E1. cbn [mbind option_bind].
    rewrite run_store_at, run_mov16, run_load_ds, run_load_es. fold low'. rewrite <- Ec2.
    assert (forall r, r <> RAX -> regs c2 r = regs c1 r) as Hc2 by (intros r Hr; rewrite Ec2; cbn [set_data set regs]; by rewrite decide_False).
    assert (regs c2 RSP = sp - 48) as Hsp2 by by rewrite Hc2.
    assert (regs c2 RSI = regs c RSI) as Hsi by by rewrite Hc2, Hk1.
    assert (regs c2 RDI = regs c RDI) as Hdi by by rewrite Hc2, Hk1. clear Ec2.
    rewrite Hsp1. fold m2. rewrite run_push_imm, run_push, !run_push_imm, run_push. cbn [set regs]. repeat rewrite (decide_True (P := RSP = RSP)) by done.
    rewrite !(decide_False (P := RSI = RSP)), !(decide_False (P := RDI = RSP)) by done. rewrite Hsp2, Hsi, Hdi. narrow_stack. fold m3.
    cbn [run exec]. assert (words_at m3 (sp - 88) [regs c RDI; 0x2B; 0x202; regs c RSI; 0x23]) as Hw.
    { unfold m3. repeat (apply words_cons; split; [find_word|]). by intros j w Hj. }
    do 4 (apply words_cons in Hw as [? Hw]). apply words_cons in Hw as [? _].
    rewrite (pop_word_at _ m3 (sp - 88) (regs c RDI)); [|cbn; rewrite decide_True by done; lia|done|lia]. cbn [mbind option_bind].
    rewrite (pop_word_at _ m3 (sp - 88 + 8) 0x2B); [|done|done|lia]. cbn [mbind option_bind].
    rewrite (pop_word_at _ m3 (sp - 88 + 8 + 8) 0x202); [|done|done|lia]. cbn [mbind option_bind].
    rewrite (pop_word_at _ m3 (sp - 88 + 8 + 8 + 8) (regs c RSI)); [|done|done|lia]. cbn [mbind option_bind].
    rewrite (pop_word_at _ m3 (sp - 88 + 8 + 8 + 8 + 8) 0x23); [|done|done|lia]. cbn [mbind option_bind fst snd]. reflexivity. }
  cbn [set go regs ip flags cs ss]. rewrite decide_True by done. split_and!; try done.
  - unfold m3. rewrite !lookup_insert_ne by lia. unfold m2. by rewrite lookup_insert_eq.
  - unfold parked. apply words_app. rewrite length_rev, length_fmap. change (8 * Z.of_nat (length callee_saved)) with 48. split.
    + eapply words_same; [exact Hw1|]. rewrite length_rev, length_fmap. change (8 * Z.of_nat (length callee_saved)) with 48. intros x Hx.
      rewrite Hm3 by lia. unfold m2. by rewrite lookup_insert_ne by lia.
    + apply words_cons. split; [|by intros j w Hj]. replace (sp - 48 + 48) with sp by lia. rewrite Hm3 by lia. unfold m2. rewrite lookup_insert_ne by lia. by rewrite Hup by lia.
  - intros a Ha Hne. rewrite Hm3 by lia. unfold m2. rewrite lookup_insert_ne by done. by apply Hup.
Qed.

Lemma leave_user_mode_spec saved c2 m2 s c back : m2 !! saved = Some s -> words_at m2 s (parked c back) -> 0 <= s -> s + 56 < 2 ^ 64 ->
  exists c3, run (leave_user_mode saved) (c2, m2) = Some (c3, m2) /\ ip c3 = back /\ regs c3 RSP = s + 56 /\ (forall r, r ∈ callee_saved -> regs c3 r = regs c r).
Proof.
  intros Hs Hw H0 H1. destruct callee_saved_nodup as (_ & Hnd & _ & Hin). unfold parked in Hw. apply words_app in Hw as [Hw Hb].
  change (8 * Z.of_nat (length (rev (regs c <$> callee_saved)))) with 48 in Hb. apply words_cons in Hb as [Hb _].
  destruct (pop_all (rev callee_saved) (set RSP s c2) m2 s _ Hin Hnd ltac:(done) Hw) as (c3 & E & Hsp & _ & _ & Hv); [done|lia|cbn; lia|].
  change (8 * Z.of_nat (length (rev callee_saved))) with 48 in Hsp. eexists. split.
  { unfold leave_user_mode. cbn [run exec mbind option_bind fst snd]. rewrite Hs. cbn [mbind option_bind]. rewrite run_app, E. cbn [mbind option_bind run exec].
    rewrite (pop_word_at c3 m2 (s + 48) back); [|done|done|lia]. cbn [mbind option_bind fst snd]. reflexivity. }
  cbn [go set ip regs]. rewrite decide_True by done. split_and!; [done|lia|]. intros r Hr. rewrite decide_False.
  - destruct (callee_saved_rev r Hr) as [j Hj]. apply (Hv j); [done|]. change (rev (regs c <$> callee_saved)) with (regs c <$> rev callee_saved). by rewrite list_lookup_fmap, Hj.
  - intros ->. apply callee_saved_cases in Hr. by destruct_or! Hr.
Qed.

(** A program that leaves, by its exit call or by a fault, brings the kernel back behind
    [enter_user_mode]: whatever happened on other stacks in between, [leave_user_mode]
    returns to the caller with its preserved registers and its stack pointer, provided
    the parked frame and the pointer to it were left alone.  The program itself starts
    at its entry point, in ring 3, on its own stack and with interrupts on. *)
Theorem user_mode_returns saved c m sp back c2 m2 :
  regs c RSP = sp -> m !! sp = Some back -> 88 <= sp -> sp + 8 < 2 ^ 64 -> outside saved (sp - 88) 96 ->
  exists c1 m1, run (enter_user_mode saved) (c, m) = Some (c1, m1) /\ ip c1 = regs c RDI /\ regs c1 RSP = regs c RSI /\
    Z.land (cs c1) 3 = 3 /\ Z.testbit (flags c1) 9 = true /\
    (m2 !! saved = m1 !! saved -> (forall a, sp - 48 <= a < sp + 8 -> m2 !! a = m1 !! a) ->
     exists c3, run (leave_user_mode saved) (c2, m2) = Some (c3, m2) /\ ip c3 = back /\ regs c3 RSP = sp + 8 /\
       forall r, r ∈ callee_saved -> regs c3 r = regs c r).
Proof.
  intros Hsp Hb Hlo Hhi Hout. destruct (enter_user_mode_spec saved c m sp back Hsp Hb Hlo) as (c1 & m1 & E & Hip & Hs & Hf & Hcs & _ & Hsv & Hp & _); [lia|done|].
  exists c1, m1. split_and!; try done; [by rewrite Hcs|by rewrite Hf|]. intros Hsame Hframe.
  destruct (leave_user_mode_spec saved c2 m2 (sp - 48) c back) as (c3 & E3 & Hip3 & Hsp3 & Hr3); [congruence| |lia|lia|].
  { eapply words_same; [exact Hp|]. intros x Hx. cbn in Hx. apply Hframe. lia. }
  exists c3. split_and!; [done|done|lia|done].
Qed.

(** ** At work *)

(** Registers with these three and a distinct value in each of the others. *)
Definition demo_regs (sp di si : Z) (r : reg) : Z :=
  match r with
  | RSP => sp | RDI => di | RSI => si | RAX => 1 | RBX => 2 | RCX => 3 | RDX => 4 | RBP => 5 | R8 => 8 | R9 => 9 | R10 => 10 | R11 => 11
  | R12 => 12 | R13 => 13 | R14 => 14 | R15 => 15
  end.

Definition demo_cpu (sp di si code : Z) : cpu :=
  mkCpu (demo_regs sp di si) 0x400000 0x202 code (code - 8) 0 0 0x7000 0x7000 (msr (syscall_init_cpu 0x5000 (mkCpu (demo_regs 0 0 0) 0 0 0 0 0 0 0 0 (fun _ => 0)))).

(** Thread A, on the stack below 4096, switches to B, parked at 8192; B switches back. *)
Definition demo_parked : gmap Z Z :=
  {[4000 := 77; 8192 := 0; 8200 := 0; 8208 := 0; 8216 := 0; 8224 := 0; 8232 := 0; 8240 := 99]}.

Lemma context_switch_returns_witness : exists c1 m1, run context_switch (demo_cpu 4000 100 8192 8, demo_parked) = Some (c1, m1) /\ ip c1 = 99 /\
  exists c3 m3, run context_switch (demo_cpu 8240 108 3952 8, m1) = Some (c3, m3) /\ ip c3 = 77 /\ regs c3 RSP = 4008 /\ regs c3 R15 = 15.
Proof.
  destruct (context_switch_returns (demo_cpu 4000 100 8192 8) demo_parked 4000 100 8192 77 [0; 0; 0; 0; 0; 0] 99 (demo_cpu 8240 108 3952 8)
    (match run context_switch (demo_cpu 4000 100 8192 8, demo_parked) with Some (_, m) => m | None => ∅ end) 8240 99) as (c1 & m1 & stored & E & Hip & Hst & Hback);
    try reflexivity; try lia; try (unfold outside; lia).
  { cbn [app]. repeat (apply words_cons; split; [reflexivity|]). intros j w Hj. discriminate Hj. }
  exists c1, m1. split; [exact E|]. split; [exact Hip|]. rewrite E in Hback.
  assert (stored = 3952) as -> by (assert (m1 = match run context_switch (demo_cpu 4000 100 8192 8, demo_parked) with Some (_, m) => m | None => ∅ end) as Em by (rewrite E; reflexivity);
    rewrite Em in Hst; vm_compute in Hst; congruence).
  destruct Hback as (c3 & m3 & E3 & Hip3 & Hsp3 & Hr3); try reflexivity; try lia; try (unfold outside; cbn; lia).
  - assert (m1 = match run context_switch (demo_cpu 4000 100 8192 8, demo_parked) with Some (_, m) => m | None => ∅ end) as -> by (rewrite E; reflexivity).
    vm_compute. reflexivity.
  - exists c3, m3. split; [exact E3|]. split; [exact Hip3|]. split; [exact Hsp3|]. rewrite Hr3; [reflexivity|]. reg_list.
Defined.

(** A program calls; the dispatcher answers 42. *)
Definition demo_block : gmap Z Z := {[0x7000 + PERCPU_KERNEL_STACK := 0x9000]}.

Lemma demo_gate : gate_ready 0x5000 0x7000 0x9000 (demo_cpu 0x8000 6 7 0x2B) demo_block.
Proof.
  constructor; [by eexists|reflexivity|reflexivity|lia|]. unfold outside, PERCPU_USER_STACK. lia.
Qed.

Definition demo_answer : cpu * gmap Z Z :=
  match run syscall_entry (syscall (demo_cpu 0x8000 6 7 0x2B), demo_block) with
  | Some (c, m) => (set RAX 0 (set RDX 0 c), <[0x9000 - 80 := 42]> m)
  | None => (demo_cpu 0 0 0 0, ∅)
  end.

Lemma syscall_transparent_witness : exists c3, run syscall_return demo_answer = Some (c3, demo_answer.2) /\
  ip c3 = 0x400000 /\ regs c3 RAX = 42 /\ regs c3 RDX = 4 /\ regs c3 RSP = 0x8000 /\ cs c3 = 0x2B.
Proof.
  destruct (syscall_transparent 0x5000 0x7000 0x9000 (demo_cpu 0x8000 6 7 0x2B) demo_block demo_answer.1 demo_answer.2 42 demo_gate)
    as (c1 & m1 & E & Hdi & _ & _ & _ & _ & Hret); [cbn; lia|].
  assert (demo_answer = (set RAX 0 (set RDX 0 c1), <[0x9000 - 80 := 42]> m1)) as Ed by (unfold demo_answer; rewrite E; reflexivity).
  assert (regs c1 RSP = 0x9000 - 80) as Hsp.
  { assert (regs demo_answer.1 RSP = 0x9000 - 80) as Hx by (vm_compute; reflexivity). rewrite Ed in Hx. exact Hx. }
  rewrite Hdi, Hsp, Ed in Hret. destruct Hret as (c3 & E3 & Hip & _ & Hax & Hr & Hcs & _).
  - split; [reflexivity|]. split; [|reflexivity]. intros r Hr. apply callee_saved_cases in Hr. destruct_or! Hr; subst r; reflexivity.
  - cbn [snd]. apply lookup_insert_eq.
  - intros a Ha. cbn [snd]. apply lookup_insert_ne. lia.
  - exists c3. rewrite Ed. split; [exact E3|]. split; [exact Hip|]. split; [exact Hax|]. split; [rewrite Hr; [reflexivity|discriminate..]|].
    split; [rewrite Hr; [reflexivity|discriminate..]|]. rewrite Hcs. reflexivity.
Defined.

(** A timer tick in ring 3. *)
Definition demo_tick : cpu * gmap Z Z :=
  match run (isr_entry 32) (interrupt 32 0 None 0x9000 0x6000 (demo_cpu 0x8000 6 7 0x2B, demo_block)) with
  | Some (c, m) => (set RAX 0 (set RCX 0 c), m)
  | None => (demo_cpu 0 0 0 0, ∅)
  end.

Lemma interrupt_transparent_witness : exists c3, run isr_return demo_tick = Some (c3, demo_tick.2) /\
  ip c3 = 0x400000 /\ regs c3 RAX = 1 /\ regs c3 RCX = 3 /\ regs c3 RSP = 0x8000 /\ cs c3 = 0x2B.
Proof.
  destruct (interrupt_transparent 32 0 None 0x9000 0x6000 (demo_cpu 0x8000 6 7 0x2B) demo_block 0x9000 demo_tick.1 demo_tick.2)
    as (c1 & m1 & E & Hdi & _ & _ & _ & _ & _ & Hret); [lia|lia|reflexivity|lia|].
  assert (demo_tick = (set RAX 0 (set RCX 0 c1), m1)) as Ed by (unfold demo_tick; rewrite E; reflexivity). rewrite Ed in Hret.
  destruct Hret as (c3 & E3 & Hr & Hip & _ & Hcs & _).
  - split; [reflexivity|]. split; [|reflexivity]. intros r Hr. apply callee_saved_cases in Hr. destruct_or! Hr; subst r; reflexivity.
  - reflexivity.
  - exists c3. rewrite Ed. split; [exact E3|]. rewrite !Hr. split; [exact Hip|]. split; [reflexivity|]. split; [reflexivity|]. split; [reflexivity|exact Hcs].
Defined.

(** The kernel enters a program from a stack below 4096. *)
Lemma user_mode_returns_witness : exists c1 m1, run (enter_user_mode 64) (demo_cpu 4000 0x400000 0x8000 8, demo_parked) = Some (c1, m1) /\
  ip c1 = 0x400000 /\ exists c3, run (leave_user_mode 64) (demo_cpu 0x9000 0 0 8, m1) = Some (c3, m1) /\ ip c3 = 77 /\ regs c3 RSP = 4008.
Proof.
  destruct (user_mode_returns 64 (demo_cpu 4000 0x400000 0x8000 8) demo_parked 4000 77 (demo_cpu 0x9000 0 0 8)
    (match run (enter_user_mode 64) (demo_cpu 4000 0x400000 0x8000 8, demo_parked) with Some (_, m) => m | None => ∅ end))
    as (c1 & m1 & E & Hip & _ & _ & _ & Hret); try reflexivity; try lia; try (unfold outside; lia).
  exists c1, m1. split; [exact E|]. split; [exact Hip|]. rewrite E in Hret. destruct Hret as (c3 & E3 & Hip3 & Hsp3 & _); [reflexivity|reflexivity|].
  exists c3. split; [exact E3|]. split; [exact Hip3|exact Hsp3].
Defined.

(** ** Where it does not hold *)

(** Vectors 29 and 30 come with an error code their stubs do not expect: the frame is
    off by a word, and the dispatcher reads the error code as the instruction pointer. *)
Example security_exception_shifted :
  match run (isr_entry 30) (interrupt 30 1 None 0x9000 0x6000 (demo_cpu 0x8000 6 7 0x2B, demo_block)) with
  | Some (c, m) => (fun r => (Panic.Report.rip r, Panic.Report.cs r)) <$> registers_at m (regs c RDI) = Some (1, 0x400000)
  | None => False
  end.
Proof. vm_compute. reflexivity. Qed.

(** An interrupt does not exchange the bases: one from ring 3 runs the handler with the
    base the program loaded. *)
Example handler_runs_on_program_base :
  match run (isr_entry 32) (interrupt 32 0 None 0x9000 0x6000 (set_gs 0 0x7000 (demo_cpu 0x8000 6 7 0x2B), demo_block)) with
  | Some (c, _) => gs_base c = 0
  | None => False
  end.
Proof. vm_compute. reflexivity. Qed.

(** There is one slot for the kernel's stack pointer: when a second thread enters a
    program, the first program to leave continues behind the second thread's call. *)
Example second_entry_takes_over :
  match run (enter_user_mode 64) (demo_cpu 4000 0x400000 0x8000 8, demo_parked) with
  | Some (_, m) =>
    match run (enter_user_mode 64) (demo_cpu 8240 0x400000 0x8000 8, m) with
    | Some (_, m) => match run (leave_user_mode 64) (demo_cpu 0x9000 0 0 8, m) with Some (c, _) => ip c = 99 /\ regs c RSP = 8248 | None => False end
    | None => False
    end
  | None => False
  end.
Proof. vm_compute. split; reflexivity. Qed.
