(* ===== verification/Api.v ===== *)
(** * What modules may call (src/kernel/module/api.cpp, src/include/eris/module_api.hpp) and
      the C++ runtime (src/kernel/lib/init.cpp)

    The exported functions that pass on to the kernel's components, the table of the
    names they are exported under, and the names the header promises to a module's
    compiler.  The interrupt services are in Interrupts.v and the PCI services in Virtio.v;
    [eris_inb] and the other five port accesses are single instructions. *)

From S2P Require Import Prelude Interfaces Memory PageAlloc Paging Vmalloc Heap Console Printk Clock Scheduler Symbols.

(** ** Services *)

Definition eris_log (m : memory) (message : Z) (s : Console.state) : option Console.state := console_write m message s.

(** The format's expansion behind one of two prefixes. *)
Definition eris_printk (m : memory) (level fmt : Z) (args : list Z) (s : Console.state) : option Console.state :=
  vprintk m fmt args (put_all (literal (if 3 <=? level then "[err] " else "[inf] ")) s).

Section services.
Context {M : Type} `{PageMapper M}.

Definition eris_kmalloc (size : Z) (h : heap) (m : M) : option (Z * heap * M) := kmalloc size h m.
Definition eris_kzalloc (size : Z) (h : heap) (m : M) (mem : memory) : option (Z * heap * M * memory) := kzalloc size h m mem.
Definition eris_map_device (address length : Z) (s : Vmalloc.state) (m : M) : Z * (Vmalloc.state * M) := map_device s m address length.
Definition eris_unmap_device (window length : Z) (s : Vmalloc.state) (m : M) : Vmalloc.state * M := unmap_device s m window length.

(** [operator new] and [operator new[]]; null is 0. *)
Definition operator_new (size : Z) (h : heap) (m : M) : option (Z * heap * M) := kmalloc size h m.
End services.

Definition eris_kfree (pointer : Z) (h : heap) : option heap := kfree pointer h.
Definition operator_delete (pointer : Z) (h : heap) : option heap := kfree pointer h.
Definition eris_alloc_pages (count : Z) (s : PageAlloc.state) : Z * PageAlloc.state := alloc_pages s count.
Definition eris_free_pages (frame count : Z) (s : PageAlloc.state) : PageAlloc.state := free_pages s frame count.
Definition eris_phys_to_virt (address : Z) : Z := phys_to_virt address.
Definition eris_virt_to_phys (address : Z) : Z := virt_to_phys address.
Definition eris_monotonic_ns (c : clock) (counter tsc : Z) : Z := monotonic_ns c counter tsc.
Definition eris_udelay (fuel : nat) (now : nat -> Z) (microseconds : Z) : option nat := udelay fuel now microseconds.
Definition eris_sleep_ms (root : Z) (k : nat) (now milliseconds sp : Z) (s : sched) : option sched := thread_sleep_ms root k now milliseconds sp s.
Definition eris_yield (root : Z) (k : nat) (now sp : Z) (s : sched) : option sched := yield root k now sp s.

(** ** Constructors (init.cpp) *)

(** [for (ctor = start; ctor != end; ++ctor)], calling each: the table is the words from
    [start], the loop ends at [end_]; [None] when it runs past the table. *)
Fixpoint call_global_ctors {S : Type} (run : Z -> S -> S) (table : list Z) (start end_ : Z) (s : S) : option S :=
  if start =? end_ then Some s
  else match table with [] => None | ctor :: table => call_global_ctors run table (start + 8) end_ (run ctor s) end.

(** ** The table *)

Open Scope string_scope.

(** The [ERIS_EXPORT_SYMBOL] lines. *)
Definition exported : list string :=
  ["eris_log"; "eris_printk"; "eris_kmalloc"; "eris_kzalloc"; "eris_kfree"; "eris_alloc_pages"; "eris_free_pages"; "eris_phys_to_virt";
   "eris_virt_to_phys"; "eris_map_device"; "eris_unmap_device"; "eris_irq_register"; "eris_irq_unmask"; "eris_irq_mask"; "eris_monotonic_ns";
   "eris_udelay"; "eris_sleep_ms"; "eris_yield"; "eris_inb"; "eris_inw"; "eris_inl"; "eris_outb"; "eris_outw"; "eris_outl";
   "eris_pci_device_count"; "eris_pci_device_at"; "eris_pci_bar"; "eris_pci_interrupt_line"; "eris_pci_enable"].

(** The declarations of the header. *)
Definition declared : list string :=
  ["eris_log"; "eris_printk"; "eris_kmalloc"; "eris_kzalloc"; "eris_kfree"; "eris_alloc_pages"; "eris_free_pages"; "eris_phys_to_virt";
   "eris_virt_to_phys"; "eris_map_device"; "eris_unmap_device"; "eris_irq_register"; "eris_irq_unmask"; "eris_irq_mask"; "eris_monotonic_ns";
   "eris_udelay"; "eris_sleep_ms"; "eris_yield"; "eris_inb"; "eris_inw"; "eris_inl"; "eris_outb"; "eris_outw"; "eris_outl";
   "eris_pci_device_count"; "eris_pci_device_at"; "eris_pci_bar"; "eris_pci_interrupt_line"; "eris_pci_enable"].

Close Scope string_scope.

(** One entry of [.eris_symtab]; [address_of] is where the linker put a function. *)
Definition ERIS_EXPORT_SYMBOL (address_of : string -> Z) (sym : string) : ExportedSymbol := mkSymbol (Some (literal sym)) (address_of sym).

(** ** Properties *)

Lemma exported_names : NoDup (literal <$> exported).
Proof. apply (bool_decide_eq_true_1 _). vm_compute. reflexivity. Qed.

(** A name of one entry only is found at that entry, wherever it stands. *)
Lemma find_symbol_unique wanted (t : list ExportedSymbol) s : s ∈ t -> name s = Some wanted ->
  (forall u, u ∈ t -> name u = Some wanted -> address u = address s) -> find_symbol wanted t = Some (address s).
Proof.
  intros Hs Hn Hu. pose proof (find_symbol_spec wanted t) as Hspec. destruct (find_symbol wanted t) as [a|].
  - destruct Hspec as (i & u & Hi & Hun & <- & _). f_equal. apply Hu; [|done]. by eapply list_elem_of_lookup_2.
  - by destruct (Hspec s Hs).
Qed.

(** Every function the header declares is exported: the loader resolves a module's
    reference to it to the kernel's function of that name, in whatever order the linker
    laid out the table and whatever tables other images have registered. *)
Theorem api_resolves address_of kernel others r sym :
  kernel ≡ₚ (ERIS_EXPORT_SYMBOL address_of <$> exported) ++ others ->
  (forall s n, s ∈ others -> n ∈ exported -> name s <> Some (literal n)) -> sym ∈ declared ->
  symbol_lookup kernel (literal sym) r = address_of sym.
Proof.
  intros Hp Ho Hin. change declared with exported in Hin. unfold symbol_lookup.
  rewrite (find_symbol_unique (literal sym) kernel (ERIS_EXPORT_SYMBOL address_of sym)); [done| |done|].
  - rewrite Hp. apply elem_of_app. left. by apply list_elem_of_fmap_2.
  - intros u Hu Hn. rewrite Hp in Hu. apply elem_of_app in Hu as [Hu|Hu]; [|by destruct (Ho u sym Hu Hin)].
    apply list_elem_of_fmap in Hu as (n & -> & Hn'). cbn [name ERIS_EXPORT_SYMBOL] in Hn. injection Hn as Hn.
    assert (n = sym) as ->; [|done].
    apply list_elem_of_lookup in Hin as [i Hi], Hn' as [j Hj].
    assert (i = j) as <-; [|congruence].
    eapply (NoDup_lookup (literal <$> exported) i j (literal sym)); [apply exported_names|by rewrite list_lookup_fmap, Hi|rewrite list_lookup_fmap, Hj; cbn; by rewrite Hn].
Qed.

Lemma api_resolves_witness :
  symbol_lookup (rev (ERIS_EXPORT_SYMBOL (fun n => Z.of_nat (String.length n)) <$> exported)) (literal "eris_kmalloc"%string) [] = 12.
Proof.
  apply (api_resolves (fun n => Z.of_nat (String.length n)) _ [] [] "eris_kmalloc"%string).
  - rewrite app_nil_r. symmetry. apply Permutation_rev.
  - intros s n Hs. apply elem_of_nil in Hs. destruct Hs.
  - apply (bool_decide_eq_true_1 _). vm_compute. reflexivity.
Defined.

(** Every constructor runs once, in the order of the table. *)
Lemma constructors_run {S : Type} (run : Z -> S -> S) table : forall start s,
  call_global_ctors run table start (start + 8 * Z.of_nat (length table)) s = Some (fold_left (fun s c => run c s) table s).
Proof.
  induction table as [|c table IH]; intros start s.
  - cbn. rewrite Z.add_0_r, Z.eqb_refl. done.
  - cbn [call_global_ctors length fold_left]. rewrite (proj2 (Z.eqb_neq _ _)) by lia.
    replace (start + 8 * Z.of_nat (Datatypes.S (length table))) with (start + 8 + 8 * Z.of_nat (length table)) by lia. apply IH.
Qed.
