(* ===== verification/Elf.v ===== *)
(** * ELF structures (src/include/eris/elf.hpp, src/kernel/module/loader.cpp)

    The packed structures of an object or program, read out of the bytes of a file.  A
    read past the end of the bytes is [None]: the kernel would read what lies behind
    its buffer. *)

From S2P Require Import Prelude.

Definition byte_at (b : list Z) (o : Z) : option Z := if o <? 0 then None else b !! Z.to_nat o.

(** A little-endian field of [n] bytes. *)
Fixpoint field (n : nat) (b : list Z) (o : Z) : option Z :=
  match n with
  | O => Some 0
  | S n => x ← byte_at b o; r ← field n b (o + 1); Some (x + 256 * r)
  end.

Record Header := mkHeader {
  ident : list Z; type_ : Z; machine : Z; entry : Z; program_header_offset : Z; section_header_offset : Z;
  program_header_count : Z; section_header_size : Z; section_header_count : Z; section_name_index : Z
}.

Definition sizeof_Header : Z := 64.

Definition parse_header (b : list Z) : option Header :=
  i ← mapM (byte_at b) (seqZ 0 16);
  t ← field 2 b 16; m ← field 2 b 18; e ← field 8 b 24; po ← field 8 b 32; so ← field 8 b 40;
  pc ← field 2 b 56; ss ← field 2 b 58; sc ← field 2 b 60; sn ← field 2 b 62;
  Some (mkHeader i t m e po so pc ss sc sn).

Record SectionHeader := mkSection {
  sh_name : Z; sh_type : Z; sh_flags : Z; sh_address : Z; sh_offset : Z; sh_size : Z; sh_link : Z; sh_info : Z;
  sh_alignment : Z; sh_entry_size : Z
}.

Definition sizeof_SectionHeader : Z := 64.

Definition parse_section (b : list Z) (o : Z) : option SectionHeader :=
  n ← field 4 b o; t ← field 4 b (o + 4); f ← field 8 b (o + 8); a ← field 8 b (o + 16); off ← field 8 b (o + 24);
  s ← field 8 b (o + 32); l ← field 4 b (o + 40); i ← field 4 b (o + 44); al ← field 8 b (o + 48); es ← field 8 b (o + 56);
  Some (mkSection n t f a off s l i al es).

Record Symbol := mkSymbol { st_name : Z; st_info : Z; st_section : Z; st_value : Z; st_size : Z }.

Definition sizeof_Symbol : Z := 24.

Definition parse_symbol (b : list Z) (o : Z) : option Symbol :=
  n ← field 4 b o; i ← field 1 b (o + 4); s ← field 2 b (o + 6); v ← field 8 b (o + 8); z ← field 8 b (o + 16);
  Some (mkSymbol n i s v z).

(** The addend is read as the unsigned word and used signed. *)
Record Rela := mkRela { r_offset : Z; r_info : Z; r_addend : Z }.

Definition sizeof_Rela : Z := 24.

Definition parse_rela (b : list Z) (o : Z) : option Rela :=
  x ← field 8 b o; i ← field 8 b (o + 8); a ← field 8 b (o + 16); Some (mkRela x i a).

Definition type_relocatable : Z := 1.
Definition machine_x86_64 : Z := 62.
Definition section_rela : Z := 4.
Definition section_nobits : Z := 8.
Definition section_flag_write : Z := 1.
Definition section_flag_alloc : Z := 2.
Definition section_flag_exec : Z := 4.
Definition section_undefined : Z := 0.
Definition r_x86_64_64 : Z := 1.
Definition r_x86_64_pc32 : Z := 2.
Definition r_x86_64_plt32 : Z := 4.
Definition r_x86_64_32 : Z := 10.
Definition r_x86_64_32s : Z := 11.
Definition r_x86_64_pc64 : Z := 24.

Definition rela_type (info : Z) : Z := u32 (Z.land info 0xFFFFFFFF).
Definition rela_symbol (info : Z) : Z := u32 (Z.shiftr info 32).

(** [0x7F 'E' 'L' 'F']. *)
Definition has_magic (h : Header) : bool :=
  bool_decide (ident h !! 0%nat = Some 127) && bool_decide (ident h !! 1%nat = Some 69) &&
  bool_decide (ident h !! 2%nat = Some 76) && bool_decide (ident h !! 3%nat = Some 70).

Definition header_looks_sane (h : Header) (length : Z) : bool :=
  if negb (has_magic h) then false
  else if negb (bool_decide (ident h !! 4%nat = Some 2)) || negb (bool_decide (ident h !! 5%nat = Some 1)) then false
  else if negb (type_ h =? type_relocatable) || negb (machine h =? machine_x86_64) then false
  else if negb (section_header_size h =? sizeof_SectionHeader) then false
  else u64 (section_header_offset h + section_header_count h * section_header_size h) <=? length.

(** ** Reading in range *)

Lemma byte_at_some b o : 0 <= o < Z.of_nat (length b) -> is_Some (byte_at b o).
Proof. intros Ho. unfold byte_at. rewrite (proj2 (Z.ltb_ge _ _)) by lia. apply lookup_lt_is_Some_2. lia. Qed.

Lemma field_some n b o : 0 <= o -> o + Z.of_nat n <= Z.of_nat (length b) -> is_Some (field n b o).
Proof.
  revert o. induction n as [|n IH]; intros o H0 H1; cbn [field]; [done|].
  destruct (byte_at_some b o) as [x ->]; [lia|]. cbn [mbind option_bind].
  destruct (IH (o + 1)) as [r ->]; [lia|lia|]. done.
Qed.

Lemma parse_header_some b : sizeof_Header <= Z.of_nat (length b) -> is_Some (parse_header b).
Proof.
  intros Hl. unfold parse_header, sizeof_Header in *.
  assert (is_Some (mapM (byte_at b) (seqZ 0 16))) as [i ->].
  { apply mapM_is_Some_2, Forall_forall. intros o Ho%elem_of_seqZ. apply byte_at_some. lia. }
  repeat match goal with |- context [field ?n b ?o] =>
    let x := fresh in destruct (field_some n b o) as [x ->]; [lia|lia|]; cbn [mbind option_bind] end. done.
Qed.

Lemma parse_section_some b o : 0 <= o -> o + sizeof_SectionHeader <= Z.of_nat (length b) -> is_Some (parse_section b o).
Proof.
  intros H0 Hl. unfold parse_section, sizeof_SectionHeader in *.
  repeat match goal with |- context [field ?n b ?k] =>
    let x := fresh in destruct (field_some n b k) as [x ->]; [lia|lia|]; cbn [mbind option_bind] end. done.
Qed.
