(* ===== verification/UserSpace.v ===== *)
(** * Process address spaces over the page tables (src/kernel/proc/process.cpp)

    [ProcessTable::load] makes a root table of its own whose first entry is the
    kernel's, so that everything below [user_base] is shared and everything above is
    empty.  This discharges the interface the loader of programs is proved against. *)

From S2P Require Import Prelude Interfaces Paging.

Section create.
Context {A : Type} `{FrameAllocatorSpec A}.

(** [alloc_page], [memset], [root[0] = kernel_root[0]], [space_.adopt]. *)
Definition new_space (s : @space A) : bool * @space A :=
  let st := space_tables s in
  let (root_frame, a) := fa_alloc (frames st) in
  let st := mk (tables st) a in
  if root_frame =? 0 then (false, Space (space_root s) st)
  else
    let root := phys_to_virt root_frame in
    let st := zero_table root st in
    let st := set_entry root 0 (entry st (phys_to_virt (space_root s)) 0) st in
    (true, Space root_frame st).

#[global] Instance space_users : UserSpaces (@space A) := { us_create := new_space }.

(** The tables below the first entry of the root, and the new root. *)
Definition in_branch (k : nat * Z) : Prop := (k.1 < 3)%nat /\ k.2 / 512 ^ (2 - Z.of_nat k.1) = 0.

#[local] Instance in_branch_dec k : Decision (in_branch k).
Proof. unfold in_branch. apply _. Defined.

Definition user_tree (f : Z) (T : gmap (nat * Z) Z) : gmap (nat * Z) Z :=
  <[(3%nat, 0) := f]> (filter (fun x => in_branch x.1) T).

Lemma user_tree_lookup f T l p t : (l < 3)%nat ->
  user_tree f T !! (l, p) = Some t <-> T !! (l, p) = Some t /\ p / 512 ^ (2 - Z.of_nat l) = 0.
Proof.
  intros Hl. unfold user_tree. rewrite lookup_insert_ne by (intros [= ? ?]; lia).
  rewrite map_lookup_filter_Some. unfold in_branch. cbn. naive_solver.
Qed.

Lemma user_tree_none f T l p : (l < 3)%nat -> (T !! (l, p) = None \/ p / 512 ^ (2 - Z.of_nat l) <> 0) -> user_tree f T !! (l, p) = None.
Proof.
  intros Hl Hn. apply eq_None_not_Some. intros [t Ht]. apply user_tree_lookup in Ht as [H1 H2]; [|done].
  destruct Hn; congruence.
Qed.

(** Being in the first branch, level by level. *)
Lemma branch_up l p : (l < 2)%nat -> p / 512 ^ (2 - Z.of_nat l) = p / 512 / 512 ^ (2 - Z.of_nat (S l)).
Proof.
  intros Hl. assert (l = 0 \/ l = 1)%nat as [-> | ->] by lia.
  - change (512 ^ (2 - Z.of_nat 0)) with 262144. change (512 ^ (2 - Z.of_nat 1)) with 512. rewrite Z.div_div by lia. done.
  - change (512 ^ (2 - Z.of_nat 1)) with 512. change (512 ^ (2 - Z.of_nat 2)) with 1. by rewrite Z.div_1_r.
Qed.

Lemma branch_child l p i : (l < 2)%nat -> 0 <= i < 512 ->
  (p * 512 + i) / 512 ^ (2 - Z.of_nat l) = p / 512 ^ (2 - Z.of_nat (S l)).
Proof.
  intros Hl Hi. rewrite branch_up by done. by rewrite Z.div_add_l, (Z.div_small i), Z.add_0_r by lia.
Qed.

(** The new tables: [f] is the new root, everything else is as it was. *)
Record created (st st' : state A) (root f : Z) : Prop := {
  cr_keep g : fa_owned (frames st) g -> fa_owned (frames st') g;
  cr_fresh : ~ fa_owned (frames st) f;
  cr_owned : fa_owned (frames st') f;
  cr_frame : 0 < f < 2 ^ 52 /\ f mod page_size = 0;
  cr_first : entry st' f 0 = entry st root 0;
  cr_rest j : 0 < j < 512 -> entry st' f j = 0;
  cr_other t j : f <> t -> entry st' t j = entry st t j
}.

Lemma new_space_created s s' : new_space s = (true, s') -> space_root s <> space_root s' ->
  created (space_tables s) (space_tables s') (space_root s) (space_root s').
Proof.
  destruct s as [root st]. unfold new_space. cbn [space_tables space_root].
  destruct (fa_alloc (frames st)) as [f a] eqn:E. destruct (Z.eqb_spec f 0) as [|Hf]; [done|]. intros [= <-] Hne.
  cbn [space_tables space_root] in *. unfold phys_to_virt.
  pose proof (fa_alloc_frame _ _ _ E Hf) as [Hr Hm].
  destruct (fill_spec f (fun _ => 0) entries_per_table (mk (tables st) a)) as (Hfr & Hin & Hout); [done|].
  fold (zero_table f (mk (tables st) a)) in *. set (st1 := zero_table f (mk (tables st) a)) in *.
  constructor; cbn [frames set_entry].
  - rewrite Hfr. intros g. by eapply fa_alloc_keeps.
  - by eapply fa_alloc_fresh.
  - rewrite Hfr. by eapply fa_alloc_owned.
  - split; [lia|done].
  - rewrite entry_set_entry_eq. by apply Hout.
  - intros j Hj. rewrite entry_set_entry_ne by lia. apply Hin. unfold entries_per_table. lia.
  - intros t j Ht. rewrite entry_set_entry_ne by (by left). by apply Hout.
Qed.

Lemma created_wf st st' root f T : wf st root T -> created st st' root f -> wf st' f (user_tree f T).
Proof.
  intros Hwf [Hkeep Hfresh Hown Hfr Hfirst Hrest Hother]. pose proof (frame_fresh _ _ _ _ Hwf Hfresh) as HfT.
  assert (forall k g, user_tree f T !! k = Some g -> (k = (3%nat, 0) /\ g = f) \/ (T !! k = Some g /\ in_branch k)) as Hcase.
  { intros k g Hg. unfold user_tree in Hg. apply lookup_insert_Some in Hg as [[<- <-]|[_ Hg]]; [by left|right].
    by apply map_lookup_filter_Some in Hg as [? ?]. }
  constructor.
  - unfold user_tree. by rewrite lookup_insert_eq.
  - intros k1 k2 g H1 H2. destruct (Hcase _ _ H1) as [[-> ->]|[H1' _]], (Hcase _ _ H2) as [[-> E]|[H2' _]];
      [done|by apply HfT in H2'|subst; by apply HfT in H1'|by eapply (wf_inj _ _ _ Hwf)].
  - intros k g Hg. destruct (Hcase _ _ Hg) as [[-> ->]|[Hg' _]]; [done|].
    destruct (wf_frame _ _ _ Hwf k g Hg') as (? & ? & ?). auto.
  - intros l p g Hg Hl. destruct (Hcase _ _ Hg) as [[[= -> ->] _]|[Hg' [_ Hb]]]; [lia|]. cbn in Hb.
    destruct (decide (l = 2)%nat) as [->|Hl2].
    + change (512 ^ (2 - Z.of_nat 2)) with 1 in Hb. rewrite Z.div_1_r in Hb. subst p. exists f. unfold user_tree. by rewrite lookup_insert_eq.
    + destruct (wf_parent _ _ _ Hwf l p g Hg' Hl) as [t Ht]. exists t. apply user_tree_lookup; [lia|]. split; [done|].
      rewrite <- branch_up; [done|lia].
  - intros l p g i Hg Hi. cbv zeta. destruct (Hcase _ _ Hg) as [[[= -> ->] ->]|[Hg' [Hl Hb]]].
    + (* the root *) rewrite Z.mul_0_l, Z.add_0_l. destruct (Z.eq_dec i 0) as [->|Hi0].
      * rewrite Hfirst. pose proof (wf_next _ _ _ Hwf 2 0 root 0 (wf_root _ _ _ Hwf) ltac:(lia)) as Hn. cbv zeta in Hn.
        rewrite Z.mul_0_l, Z.add_0_l in Hn. destruct (is_present _); [destruct (is_huge _); [by destruct Hn|]|].
        -- apply user_tree_lookup; [lia|]. split; [exact Hn|]. done.
        -- apply user_tree_none; [lia|by left].
      * rewrite Hrest by lia. change (is_present 0) with false. apply user_tree_none; [lia|right].
        change (512 ^ (2 - Z.of_nat 2)) with 1. by rewrite Z.div_1_r.
    + cbn in Hl, Hb. rewrite Hother by (intros ->; by apply HfT in Hg').
      pose proof (wf_next _ _ _ Hwf l p g i Hg' Hi) as Hn. cbv zeta in Hn. pose proof (branch_child l p i ltac:(lia) Hi) as Hc.
      destruct (is_present _); [destruct (is_huge _)|].
      * destruct Hn as (? & ? & ?). split_and!; [done|done|]. apply user_tree_none; [lia|by left].
      * apply user_tree_lookup; [lia|]. split; [done|]. by rewrite Hc.
      * apply user_tree_none; [lia|by left].
Qed.

Lemma user_index va : 0 <= va < 2 ^ 48 -> index_of va 3 = va / user_base.
Proof.
  intros Hva. rewrite index_of_div by lia. change (2 ^ (12 + 9 * 3)) with user_base.
  apply Z.mod_small. unfold user_base. split; [apply Z.div_pos; lia|apply Z.div_lt_upper_bound; lia].
Qed.

Lemma created_translate st st' root f T va : wf st root T -> created st st' root f -> 0 <= va < 2 ^ 48 ->
  translate st' f va = if va <? user_base then translate st root va else 0.
Proof.
  intros Hwf Hc Hva. pose proof (created_wf _ _ _ _ _ Hwf Hc) as Hwf'. pose proof (cr_fresh _ _ _ _ Hc) as Hfresh.
  pose proof (frame_fresh _ _ _ _ Hwf Hfresh) as HfT.
  unfold translate. rewrite (table_at_wf _ _ _ _ _ Hwf' (wf_root _ _ _ Hwf')), (table_at_wf _ _ _ _ _ Hwf (wf_root _ _ _ Hwf)).
  change 3%nat with (S 2). cbn [translate_from]. change (Z.of_nat 3) with 3. rewrite user_index by done.
  destruct (Z.ltb_spec va user_base) as [Hlt|Hge].
  - rewrite (Z.div_small va) by lia. rewrite (cr_first _ _ _ _ Hc).
    pose proof (wf_next _ _ _ Hwf 2 0 root 0 (wf_root _ _ _ Hwf) ltac:(lia)) as Hn. cbv zeta in Hn.
    destruct (is_present _) eqn:Ep; [|done]. destruct (is_huge _) eqn:Eh; [done|]. cbn [negb].
    rewrite Z.mul_0_l, Z.add_0_l in Hn.
    apply (translate_ext st st' root T va Hwf) with (l := 2%nat); [|lia|].
    + intros l t Hl Ht. left. unfold same_walk. rewrite (cr_other _ _ _ _ Hc); [done|]. intros ->. by apply HfT in Ht.
    + rewrite pfx_step, pfx_top, user_index, (Z.div_small va) by lia. exact Hn.
  - rewrite (cr_rest _ _ _ _ Hc); [done|]. assert (user_base = 2 ^ 39) as Hub by done.
    split; [apply Z.div_str_pos; lia|]. apply Z.div_lt_upper_bound; lia.
Qed.

#[global] Instance space_users_spec : UserSpacesSpec (@space A).
Proof.
  constructor. cbn [us_create pm_wf pm_translate space_mapper space_users]. intros s D ok s' (T & Hwf & HD) E. destruct ok.
  - assert (space_root s <> space_root s') as Hne.
    { destruct s as [root st]. unfold new_space in E. cbn [space_tables space_root] in *.
      destruct (fa_alloc (frames st)) as [f a] eqn:Ea. destruct (Z.eqb_spec f 0) as [|Hf]; [done|]. injection E as <-. cbn.
      intros <-. apply (fa_alloc_fresh _ _ _ Ea Hf). by apply (wf_frame _ _ _ Hwf) with (k := (3%nat, 0)), (wf_root _ _ _ Hwf). }
    pose proof (new_space_created _ _ E Hne) as Hc. split.
    + exists (user_tree (space_root s') T). split; [by eapply created_wf|]. intros g Hg. destruct (HD g Hg) as [Ho Hn].
      split; [by apply (cr_keep _ _ _ _ Hc)|]. intros k Hk. unfold user_tree in Hk.
      apply lookup_insert_Some in Hk as [[_ <-]|[_ Hk]]; [by apply (cr_fresh _ _ _ _ Hc)|].
      apply map_lookup_filter_Some in Hk as [Hk _]. by apply Hn in Hk.
    + intros _. split; intros va Hva; rewrite (created_translate _ _ _ _ T) by (done || (unfold user_base in *; lia)).
      * by rewrite (proj2 (Z.ltb_lt _ _)) by lia.
      * by rewrite (proj2 (Z.ltb_ge _ _)) by lia.
  - destruct s as [root st]. unfold new_space in E. cbn [space_tables space_root] in *.
    destruct (fa_alloc (frames st)) as [f a] eqn:Ea. destruct (Z.eqb_spec f 0) as [|Hf]; [|done]. injection E as <-.
    split; [|done]. assert (forall x, fa_owned (frames st) x -> fa_owned a x) as Hk by (intros; by eapply fa_alloc_keeps).
    exists T. split; [apply wf_frames; [done|]; intros k x Hx; apply Hk; by apply (wf_frame _ _ _ Hwf) in Hx as [? _]|].
    intros x Hx. destruct (HD x Hx). auto.
Qed.

End create.
