(* ===== verification/Device.v ===== *)
(** * Devices and drivers (src/kernel/device/device.cpp)

    The registry keeps the devices the buses announced and the registered drivers, by
    address; [log] records what was asked of drivers and devices.  What a driver
    answers is the driver's own: [matches], [probe] and [start] are the virtual
    functions. *)

From S2P Require Import Prelude.

Definition max_devices : nat := 64.
Definition max_drivers : nat := 32.

Inductive event :=
  | Probed (driver dev : Z)
  | Started (driver dev device : Z) (ok : bool)
  | Bound (driver dev device : Z).

Record state := mk { devices : list Z; drivers : list Z; log : list event }.

Definition note (e : event) (s : state) : state := mk (devices s) (drivers s) (log s ++ [e]).

Section registry.
(** [matches driver dev]: the driver's answer for the device's id; [probe driver dev]:
    the device it makes, 0 for none; [start]: whether that device starts. *)
Context (matches : Z -> Z -> bool) (probe : Z -> Z -> Z) (start : Z -> bool).

(** The loop of [device_probe] over the drivers. *)
Fixpoint probe_loop (ds : list Z) (dev : Z) (s : state) : Z * state :=
  match ds with
  | [] => (0, s)
  | d :: ds =>
    if (d =? 0) || negb (matches d dev) then probe_loop ds dev s
    else
      let device := probe d dev in
      let s := note (Probed d dev) s in
      if device =? 0 then probe_loop ds dev s
      else
        let s := note (Started d dev device (start device)) s in
        if negb (start device) then probe_loop ds dev s else (device, note (Bound d dev device) s)
  end.

Definition device_probe (dev : Z) (s : state) : Z * state := probe_loop (drivers s) dev s.

(** The replay of the devices found so far. *)
Fixpoint replay (devs : list Z) (driver : Z) (s : state) : state :=
  match devs with
  | [] => s
  | dev :: devs => replay devs driver (if negb (dev =? 0) && matches driver dev then (device_probe dev s).2 else s)
  end.

Definition driver_register (driver : Z) (s : state) : state :=
  if driver =? 0 then s
  else if (max_drivers <=? length (drivers s))%nat then s
  else
    let s := mk (devices s) (drivers s ++ [driver]) (log s) in
    replay (devices s) driver s.

(** The last driver takes the place of the one that leaves. *)
Fixpoint index_of (driver : Z) (ds : list Z) : option nat :=
  match ds with
  | [] => None
  | d :: ds => if negb (d =? driver) then S <$> index_of driver ds else Some O
  end.

Definition driver_unregister (driver : Z) (s : state) : state :=
  match index_of driver (drivers s) with
  | Some i => mk (devices s) (remove_at i (drivers s)) (log s)
  | None => s
  end.

Definition device_announce (dev : Z) (s : state) : state :=
  if dev =? 0 then s
  else if (max_devices <=? length (devices s))%nat then s
  else (device_probe dev (mk (devices s ++ [dev]) (drivers s) (log s))).2.

Definition device_count (s : state) : Z := Z.of_nat (length (devices s)).
Definition device_at (s : state) (index : nat) : option Z := devices s !! index.
Definition driver_count (s : state) : Z := Z.of_nat (length (drivers s)).

(** ** Properties *)

(** A driver that would take the device. *)
Definition takes (d dev : Z) : Prop := d <> 0 /\ matches d dev = true /\ probe d dev <> 0 /\ start (probe d dev) = true.

Definition bound (s : state) (dev : Z) : Prop := exists d device, Bound d dev device ∈ log s.

Inductive operation := Announce (dev : Z) | Register (driver : Z) | Unregister (driver : Z).
Definition perform (op : operation) (s : state) : state :=
  match op with Announce dev => device_announce dev s | Register d => driver_register d s | Unregister d => driver_unregister d s end.

(** Any history of the registry. *)
Inductive reachable : state -> Prop :=
  | reach_init : reachable (mk [] [] [])
  | reach_step op s : reachable s -> reachable (perform op s).

(** The loop keeps the tables and only adds to the log. *)
Lemma probe_loop_frame ds dev : forall s, let s' := (probe_loop ds dev s).2 in
  devices s' = devices s /\ drivers s' = drivers s /\ exists l, log s' = log s ++ l.
Proof.
  induction ds as [|d ds IH]; intros s; cbn [probe_loop]; [split_and!; [done..|exists []; by rewrite app_nil_r]|].
  assert (forall e, let s' := (probe_loop ds dev (note e s)).2 in devices s' = devices s /\ drivers s' = drivers s /\ exists l, log s' = log s ++ l) as IH1.
  { intros e. destruct (IH (note e s)) as (H1 & H2 & l & H3). split_and!; [done..|]. exists ([e] ++ l). by rewrite H3, app_assoc. }
  assert (forall e e', let s' := (probe_loop ds dev (note e' (note e s))).2 in devices s' = devices s /\ drivers s' = drivers s /\ exists l, log s' = log s ++ l) as IH2.
  { intros e e'. destruct (IH (note e' (note e s))) as (H1 & H2 & l & H3). split_and!; [done..|]. exists ([e; e'] ++ l). rewrite H3. cbn. by rewrite <- !app_assoc. }
  destruct ((d =? 0) || negb (matches d dev)); [apply IH|]. destruct (probe d dev =? 0); [apply IH1|].
  destruct (start (probe d dev)); cbn [negb snd]; [|apply IH2]. split_and!; [done..|]. eexists. cbn. by rewrite <- !app_assoc.
Qed.

(** A driver that takes the device is enough for it to be bound. *)
Lemma probe_loop_binds ds dev : forall s, (exists d, d ∈ ds /\ takes d dev) -> bound (probe_loop ds dev s).2 dev.
Proof.
  induction ds as [|d ds IH]; intros s (d' & Hd & Ht); [by apply elem_of_nil in Hd|]. cbn [probe_loop].
  destruct (Z.eqb_spec d 0) as [->|Hd0]; cbn [orb].
  { apply IH. apply elem_of_cons in Hd as [->|Hd]; [by destruct Ht|eauto]. }
  destruct (matches d dev) eqn:Em; cbn [negb].
  2:{ apply IH. apply elem_of_cons in Hd as [->|Hd]; [destruct Ht as (_ & ? & _); congruence|eauto]. }
  destruct (Z.eqb_spec (probe d dev) 0) as [Ep|Ep].
  { apply IH. apply elem_of_cons in Hd as [->|Hd]; [destruct Ht as (_ & _ & ? & _); done|eauto]. }
  destruct (start (probe d dev)) eqn:Es; cbn [negb snd].
  - exists d, (probe d dev). cbn. apply elem_of_app. right. by left.
  - apply IH. apply elem_of_cons in Hd as [->|Hd]; [destruct Ht as (_ & _ & _ & ?); congruence|eauto].
Qed.

Lemma bound_grows s s' l dev : log s' = log s ++ l -> bound s dev -> bound s' dev.
Proof. intros E (d & device & Hb). exists d, device. rewrite E. apply elem_of_app. by left. Qed.

Lemma replay_frame driver devs : forall s, let s' := replay devs driver s in
  devices s' = devices s /\ drivers s' = drivers s /\ exists l, log s' = log s ++ l.
Proof.
  induction devs as [|dev devs IH]; intros s; cbn [replay]; [split_and!; [done..|exists []; by rewrite app_nil_r]|].
  destruct (negb (dev =? 0) && matches driver dev); [|apply IH].
  destruct (probe_loop_frame (drivers s) dev s) as (H1 & H2 & l & H3). destruct (IH (device_probe dev s).2) as (H4 & H5 & l' & H6).
  unfold device_probe in *. rewrite H4, H5, H6, H1, H2, H3. split_and!; [done..|]. exists (l ++ l'). by rewrite app_assoc.
Qed.

Lemma replay_binds driver devs dev : forall s, driver ∈ drivers s -> takes driver dev -> dev ∈ devs -> dev <> 0 -> bound (replay devs driver s) dev.
Proof.
  induction devs as [|e devs IH]; intros s Hd Ht Hin Hne; [by apply elem_of_nil in Hin|]. cbn [replay].
  apply elem_of_cons in Hin as [<-|Hin].
  - destruct Ht as (Hd0 & Hm & Hp & Hs). rewrite (proj2 (Z.eqb_neq dev 0)), Hm by done. cbn [negb andb].
    destruct (replay_frame driver devs (device_probe dev s).2) as (_ & _ & l & E). eapply bound_grows; [exact E|].
    apply probe_loop_binds. exists driver. by split_and!.
  - destruct (negb (e =? 0) && matches driver e); [|by apply IH]. apply IH; try done.
    unfold device_probe. by destruct (probe_loop_frame (drivers s) e s) as (_ & -> & _).
Qed.

Definition inv (s : state) : Prop :=
  ~ 0 ∈ devices s /\ (length (devices s) <= max_devices)%nat /\ (length (drivers s) <= max_drivers)%nat /\
  forall d dev, d ∈ drivers s -> dev ∈ devices s -> takes d dev -> bound s dev.

Lemma register_preserves driver s : inv s -> inv (driver_register driver s).
Proof.
  intros (Hz & Hl & Hl' & Hb). unfold driver_register. destruct (driver =? 0); [by split_and!|]. destruct (Nat.leb_spec max_drivers (length (drivers s))); [by split_and!|].
  set (s1 := mk _ _ _). cbv zeta. destruct (replay_frame driver (devices s1) s1) as (E1 & E2 & l & E3). split_and!.
  - by rewrite E1.
  - by rewrite E1.
  - rewrite E2. cbn. rewrite length_app. cbn. lia.
  - rewrite E1, E2. intros d dev Hd Hdev Ht. cbn in Hd, Hdev. apply elem_of_app in Hd as [Hd|Hd].
    + eapply (bound_grows s1); [exact E3|]. by apply (Hb d).
    + apply list_elem_of_singleton in Hd as ->. apply replay_binds; try done; [cbn; apply elem_of_app; right; by left|]. intros ->. done.
Qed.

Lemma announce_preserves dev s : inv s -> inv (device_announce dev s).
Proof.
  intros (Hz & Hl & Hl' & Hb). unfold device_announce. destruct (Z.eqb_spec dev 0) as [|Hne]; [by split_and!|]. destruct (Nat.leb_spec max_devices (length (devices s))); [by split_and!|].
  set (s1 := mk _ _ _). destruct (probe_loop_frame (drivers s1) dev s1) as (E1 & E2 & l & E3). unfold device_probe. split_and!.
  - rewrite E1. cbn. rewrite elem_of_app, list_elem_of_singleton. intros [?|?]; congruence.
  - rewrite E1. cbn. rewrite length_app. cbn. lia.
  - by rewrite E2.
  - rewrite E1, E2. intros d e Hd He Ht. cbn in He. apply elem_of_app in He as [He|He].
    + eapply (bound_grows s1); [exact E3|]. by apply (Hb d).
    + apply list_elem_of_singleton in He as ->. apply probe_loop_binds. by exists d.
Qed.

Lemma index_of_lookup driver ds i : index_of driver ds = Some i -> ds !! i = Some driver.
Proof.
  revert i. induction ds as [|d ds IH]; intros i; cbn [index_of]; [done|]. destruct (Z.eqb_spec d driver) as [->|]; cbn [negb].
  - by intros [= <-].
  - destruct (index_of driver ds); [|done]. intros [= <-]. cbn. by apply IH.
Qed.

Lemma unregister_preserves driver s : inv s -> inv (driver_unregister driver s).
Proof.
  intros (Hz & Hl & Hl' & Hb). unfold driver_unregister. destruct (index_of driver (drivers s)) as [i|] eqn:Ei; [|by split_and!].
  apply index_of_lookup in Ei. pose proof (remove_at_perm i (drivers s) driver Ei) as Hp. pose proof (remove_at_length i (drivers s) driver Ei) as Hn.
  split_and!; cbn; [done..|lia|]. intros d dev Hd. apply Hb. rewrite <- Hp. by right.
Qed.

Lemma devices_reachable_inv s : reachable s -> inv s.
Proof.
  induction 1 as [|op s _ IH]; [split_and!; cbn; try lia; [by apply not_elem_of_nil|intros d dev Hd; by apply elem_of_nil in Hd]|].
  destruct op; [by apply announce_preserves|by apply register_preserves|by apply unregister_preserves].
Qed.
End registry.

(** whatever the order in which buses announce devices and drivers come and go, a
    recorded device that a registered driver would take, by matching it, making a
    device of it and that device starting, has been bound to some driver: a driver
    loaded after boot gets the devices found before it. *)
Theorem devices_get_bound matches probe start s d dev :
  reachable matches probe start s -> d ∈ drivers s -> dev ∈ devices s -> takes matches probe start d dev ->
  bound s dev.
Proof. intros Hr Hd Hdev Ht. by apply (devices_reachable_inv _ _ _ s Hr) with d. Qed.

(** Devices 1 and 2 announced before driver 10, which takes even ones, and driver 11,
    which takes all. *)
Definition demo_matches (d dev : Z) : bool := (d =? 11) || Z.even dev.
Definition demo_probe (d dev : Z) : Z := 100 * d + dev.
Definition demo (ops : list operation) : state := foldl (fun s op => perform demo_matches demo_probe (fun _ => true) op s) (mk [] [] []) ops.

Lemma demo_devices_reachable ops : reachable demo_matches demo_probe (fun _ => true) (demo ops).
Proof.
  unfold demo. assert (forall s, reachable demo_matches demo_probe (fun _ => true) s ->
    reachable demo_matches demo_probe (fun _ => true) (foldl (fun s op => perform demo_matches demo_probe (fun _ => true) op s) s ops)) as H; [|apply H, reach_init].
  induction ops as [|op ops IH]; intros s Hs; cbn; [done|]. apply IH. by apply reach_step.
Qed.

Lemma devices_get_bound_witness : bound (demo [Announce 1; Announce 2; Register 10; Register 11]) 1.
Proof.
  apply (devices_get_bound demo_matches demo_probe (fun _ => true) _ 11); [apply demo_devices_reachable| | |].
  - vm_compute. right. left.
  - vm_compute. left.
  - vm_compute. split_and!; (reflexivity || discriminate).
Defined.

(** A driver that comes later makes the earlier one probe and start its device again,
    although the device is bound already. *)
Lemma late_driver_reprobes :
  log (demo [Announce 2; Register 10; Register 11]) =
  [Probed 10 2; Started 10 2 1002 true; Bound 10 2 1002; Probed 10 2; Started 10 2 1002 true; Bound 10 2 1002].
Proof. vm_compute. reflexivity. Qed.
