(* ===== verification/Pci.v ===== *)
(** * PCI (src/kernel/device/pci.cpp)

    The configuration space is a type of host states with the read and the write of
    the register the address port selects ([PciHost]); the lock around the two port
    accesses makes each of them one step.  The devices found are the used part of the
    array. *)

From S2P Require Import Prelude.

(** [outl] of the index to 0xCF8, then [inl] or [outl] on 0xCFC. *)
Class PciHost (H : Type) := { cfg_read : H -> Z -> Z; cfg_write : H -> Z -> Z -> H }.

Record Address := mkAddress { bus : Z; slot : Z; function : Z }.

Definition offset_vendor : Z := 0x00.
Definition offset_device : Z := 0x02.
Definition offset_command : Z := 0x04.
Definition offset_status : Z := 0x06.
Definition offset_revision : Z := 0x08.
Definition offset_header_type : Z := 0x0E.
Definition offset_bar0 : Z := 0x10.
Definition offset_secondary_bus : Z := 0x19.
Definition offset_capabilities : Z := 0x34.
Definition offset_interrupt_line : Z := 0x3C.
Definition command_io_space : Z := Z.shiftl 1 0.
Definition command_memory_space : Z := Z.shiftl 1 1.
Definition command_bus_master : Z := Z.shiftl 1 2.
Definition status_capabilities : Z := Z.shiftl 1 4.
Definition max_devices : nat := 64.

Definition config_index (a : Address) (offset : Z) : Z :=
  Z.lor (Z.lor (Z.lor (Z.lor 0x80000000 (u32 (Z.shiftl (bus a) 16))) (u32 (Z.shiftl (slot a) 11))) (u32 (Z.shiftl (function a) 8)))
        (Z.land offset 0xFC).

(** [location_]: two hexadecimal digits each for bus and slot, one for the function. *)
Definition digit (d : Z) : Z := nth (Z.to_nat d) [48; 49; 50; 51; 52; 53; 54; 55; 56; 57; 97; 98; 99; 100; 101; 102] 0.
Definition write_digits (value : Z) : list Z := [digit (Z.shiftr value 4); digit (Z.land value 0x0F)].
Definition location_of (a : Address) : list Z := write_digits (bus a) ++ [58] ++ write_digits (slot a) ++ [46; u8 (48 + function a); 0].

Record PciDevice := mkDevice { address_ : Address; vendor_ : Z; device_ : Z; class_code_ : Z; subclass_ : Z; prog_if_ : Z; location_ : list Z }.

Definition make_device (a : Address) (vendor device class_code subclass prog_if : Z) : PciDevice :=
  mkDevice a vendor device class_code subclass prog_if (location_of a).

(** [DeviceId] as a driver sees it. *)
Inductive BusType := Platform | Pci.
Record DeviceId := mkId { id_bus : BusType; id_vendor : Z; id_device : Z; id_class_code : Z; id_subclass : Z }.
Definition id (d : PciDevice) : DeviceId := mkId Pci (vendor_ d) (device_ d) (class_code_ d) (subclass_ d).

Definition class_name (class_code subclass : Z) : string :=
  if class_code =? 0x00 then "unclassified"
  else if class_code =? 0x01 then
    if subclass =? 0x01 then "ide controller" else if subclass =? 0x06 then "sata controller"
    else if subclass =? 0x08 then "nvme controller" else "storage controller"
  else if class_code =? 0x02 then "network controller"
  else if class_code =? 0x03 then "display controller"
  else if class_code =? 0x04 then "multimedia controller"
  else if class_code =? 0x06 then if subclass =? 0x04 then "pci bridge" else "host bridge"
  else if class_code =? 0x07 then "communication controller"
  else if class_code =? 0x08 then "system peripheral"
  else if class_code =? 0x09 then "input controller"
  else if class_code =? 0x0C then if subclass =? 0x03 then "usb controller" else "serial bus controller"
  else "device".

Record Bar := mkBar { bar_address : Z; bar_length : Z; memory : bool; prefetchable : bool }.
Definition no_bar : Bar := mkBar 0 0 false false.

Section host.
Context {H : Type} `{PciHost H}.

Definition read32 (h : H) (a : Address) (offset : Z) : Z := cfg_read h (config_index a offset).
Definition read16 (h : H) (a : Address) (offset : Z) : Z := u16 (Z.shiftr (read32 h a offset) (Z.land offset 2 * 8)).
Definition read8 (h : H) (a : Address) (offset : Z) : Z := u8 (Z.shiftr (read32 h a offset) (Z.land offset 3 * 8)).
Definition write32 (a : Address) (offset value : Z) (h : H) : H := cfg_write h (config_index a offset) value.
Definition write16 (a : Address) (offset value : Z) (h : H) : H :=
  let shift := Z.land offset 2 * 8 in
  let current := read32 h a offset in
  let mask := not32 (u32 (Z.shiftl 0xFFFF shift)) in
  write32 a offset (Z.lor (Z.land current mask) (u32 (Z.shiftl value shift))) h.
Definition write8 (a : Address) (offset value : Z) (h : H) : H :=
  let shift := Z.land offset 3 * 8 in
  let current := read32 h a offset in
  let mask := not32 (u32 (Z.shiftl 0xFF shift)) in
  write32 a offset (Z.lor (Z.land current mask) (u32 (Z.shiftl value shift))) h.

(** ** Enumeration *)

Definition add_device (d : PciDevice) (devices : list PciDevice) : list PciDevice :=
  if (length devices <? max_devices)%nat then devices ++ [d] else devices.

Definition describe (h : H) (a : Address) : PciDevice :=
  let revision := read32 h a offset_revision in
  make_device a (read16 h a offset_vendor) (read16 h a offset_device)
    (u8 (Z.shiftr revision 24)) (u8 (Z.shiftr revision 16)) (u8 (Z.shiftr revision 8)).

(** [each f [a; b; ...]] is [f(a); f(b); ...]. *)
Fixpoint each {A} (f : A -> list PciDevice -> option (list PciDevice)) (l : list A) (devices : list PciDevice) : option (list PciDevice) :=
  match l with
  | [] => Some devices
  | a :: l => devices ← f a devices; each f l devices
  end.

(** [scan_bus] is the function's own recursive call, through a bridge. *)
Definition scan_function (scan_bus : Z -> list PciDevice -> option (list PciDevice)) (h : H) (a : Address) (devices : list PciDevice) : option (list PciDevice) :=
  if read16 h a offset_vendor =? 0xFFFF then Some devices
  else
    let d := describe h a in
    let devices := add_device d devices in
    if (class_code_ d =? 0x06) && (subclass_ d =? 0x04) then
      let secondary := read8 h a offset_secondary_bus in
      if negb (secondary =? bus a) then scan_bus secondary devices else Some devices
    else Some devices.

Definition scan_slot (scan_bus : Z -> list PciDevice -> option (list PciDevice)) (h : H) (b s : Z) (devices : list PciDevice) : option (list PciDevice) :=
  let first := mkAddress b s 0 in
  if read16 h first offset_vendor =? 0xFFFF then Some devices
  else
    devices ← scan_function scan_bus h first devices;
    if Z.land (read8 h first offset_header_type) 0x80 =? 0 then Some devices
    else each (fun f => scan_function scan_bus h (mkAddress b s f)) (seqZ 1 7) devices.

(** The recursion has no bound of its own; out of fuel is [None]. *)
Fixpoint scan_bus (fuel : nat) (h : H) (b : Z) (devices : list PciDevice) : option (list PciDevice) :=
  match fuel with
  | O => None
  | S fuel => each (fun s => scan_slot (scan_bus fuel h) h b s) (seqZ 0 32) devices
  end.

(** [init]: the devices, then [ready]; each of them is announced afterwards. *)
Definition init (fuel : nat) (h : H) : option (list PciDevice * bool) :=
  devices ← scan_bus fuel h 0 []; Some (devices, true).

Definition device_count (devices : list PciDevice) : Z := Z.of_nat (length devices).
Definition device_at (devices : list PciDevice) (index : nat) : option PciDevice := devices !! index.

(** ** One device *)

Definition interrupt_line (h : H) (d : PciDevice) : Z := read8 h (address_ d) offset_interrupt_line.

Definition bar (d : PciDevice) (index : Z) (h : H) : Bar * H :=
  if 6 <=? index then (no_bar, h)
  else
    let a := address_ d in
    let offset := u16 (offset_bar0 + index * 4) in
    let original := read32 h a offset in
    let command := read16 h a offset_command in
    let h := write16 a offset_command (u16 (Z.land command (Z.lnot (Z.lor command_io_space command_memory_space)))) h in
    let h := write32 a offset 0xFFFFFFFF h in
    let mask := read32 h a offset in
    let h := write32 a offset original h in
    if negb (Z.land original 1 =? 0) then
      (mkBar (Z.land original (not32 0x3)) (Z.land (u32 (not32 (Z.land mask (not32 0x3)) + 1)) 0xFFFF) false false,
       write16 a offset_command command h)
    else
      let sixty_four := Z.land (Z.shiftr original 1) 0x3 =? 0x2 in
      let prefetch := negb (Z.land original 0x8 =? 0) in
      let address := Z.land original (not32 0xF) in
      let size_mask := Z.land mask (not32 0xF) in
      if sixty_four && (index <? 5) then
        let high_original := read32 h a (offset + 4) in
        let h := write32 a (offset + 4) 0xFFFFFFFF h in
        let high_mask := read32 h a (offset + 4) in
        let h := write32 a (offset + 4) high_original h in
        let size_mask := Z.lor size_mask (u64 (Z.shiftl high_mask 32)) in
        (mkBar (Z.lor address (u64 (Z.shiftl high_original 32))) (u64 (not64 size_mask + 1)) true prefetch, write16 a offset_command command h)
      else
        let size_mask := Z.lor size_mask 0xFFFFFFFF00000000 in
        (mkBar address (u64 (not64 size_mask + 1)) true prefetch, write16 a offset_command command h).

(** The list of capabilities is followed for at most 48 links. *)
Fixpoint capability_loop (guard : nat) (h : H) (a : Address) (id offset : Z) : Z :=
  match guard with
  | O => 0
  | S guard =>
    if 0x40 <=? offset then
      if read8 h a offset =? id then offset
      else
        let offset := Z.land (read8 h a (offset + 1)) 0xFC in
        if offset =? 0 then 0 else capability_loop guard h a id offset
    else 0
  end.

Definition find_capability (h : H) (d : PciDevice) (id : Z) : Z :=
  let a := address_ d in
  if Z.land (read16 h a offset_status) status_capabilities =? 0 then 0
  else capability_loop 48 h a id (Z.land (read8 h a offset_capabilities) 0xFC).

Definition enable_bus_master (d : PciDevice) (h : H) : H :=
  write16 (address_ d) offset_command (Z.lor (read16 h (address_ d) offset_command) command_bus_master) h.
Definition enable_memory_space (d : PciDevice) (h : H) : H :=
  write16 (address_ d) offset_command (Z.lor (Z.lor (read16 h (address_ d) offset_command) command_memory_space) command_io_space) h.
End host.

(** ** Properties *)

(** *** Every reachable device is found *)

Section scan.
Context {H : Type} `{PciHost H} (h : H).

Definition present (a : Address) : bool := negb (read16 h a offset_vendor =? 0xFFFF).
Definition multifunction (b s : Z) : bool := negb (Z.land (read8 h (mkAddress b s 0) offset_header_type) 0x80 =? 0).

(** The functions of a bus: those of a slot count when its function 0 is there, and
    those besides it when that one says so. *)
Definition visible (b : Z) (a : Address) : Prop :=
  bus a = b /\ 0 <= slot a < 32 /\ present (mkAddress b (slot a) 0) = true /\ present a = true /\
  (function a = 0 \/ 1 <= function a < 8 /\ multifunction b (slot a) = true).

(** Bus [c] is behind a bridge on bus [b]. *)
Definition bridged (b c : Z) : Prop :=
  exists a, visible b a /\ class_code_ (describe h a) = 0x06 /\ subclass_ (describe h a) = 0x04 /\
    c = read8 h a offset_secondary_bus /\ c <> b.

(** [f] adds [l] to the devices, as far as there is room. *)
Definition adds (f : list PciDevice -> option (list PciDevice)) (l : list PciDevice) : Prop :=
  forall devices, (length devices <= max_devices)%nat -> f devices = Some (take max_devices (devices ++ l)).

Lemma take_take_app {A} n (l k : list A) : take n (take n l ++ k) = take n (l ++ k).
Proof.
  rewrite !take_app, take_take, Nat.min_id, length_take. destruct (Nat.le_ge_cases n (length l)).
  - by rewrite Nat.min_l, Nat.sub_diag, (proj2 (Nat.sub_0_le n (length l))) by done.
  - by rewrite Nat.min_r by done.
Qed.

Lemma take_length_le {A} n (l : list A) : (length (take n l) <= n)%nat.
Proof. rewrite length_take. lia. Qed.

Lemma adds_nothing f : (forall devices, f devices = Some devices) -> adds f [].
Proof. intros Hf devices Hd. by rewrite Hf, app_nil_r, take_ge. Qed.

Lemma adds_then f g l k : adds f l -> adds g k -> adds (fun d => d ← f d; g d) (l ++ k).
Proof.
  intros Hf Hg devices Hd. rewrite (Hf devices Hd). cbn [mbind option_bind]. rewrite Hg by apply take_length_le.
  by rewrite take_take_app, app_assoc.
Qed.

Lemma add_device_take d devices : (length devices <= max_devices)%nat -> add_device d devices = take max_devices (devices ++ [d]).
Proof.
  intros Hd. unfold add_device. destruct (Nat.ltb_spec (length devices) max_devices).
  - rewrite take_ge; [done|]. rewrite length_app. cbn. lia.
  - rewrite take_app_le by lia. by rewrite take_ge by lia.
Qed.

Lemma adds_each {A} (f : A -> list PciDevice -> option (list PciDevice)) (g : A -> list PciDevice) l :
  (forall a, a ∈ l -> adds (f a) (g a)) -> adds (each f l) (concat (g <$> l)).
Proof.
  induction l as [|a l IH]; intros Hl; cbn [each fmap list_fmap concat]; [by apply adds_nothing|].
  apply (adds_then (f a) (each f l)); [apply Hl; by left|]. apply IH. intros b Hb. apply Hl. by right.
Qed.

Lemma elem_of_concat {A} (x : A) ls : x ∈ concat ls <-> exists l, x ∈ l /\ l ∈ ls.
Proof.
  induction ls as [|k ls IH]; cbn [concat]; [rewrite elem_of_nil; split; [done|intros (l & _ & Hl); by apply elem_of_nil in Hl]|].
  rewrite elem_of_app, IH. setoid_rewrite elem_of_cons. naive_solver.
Qed.

(** *** The order of the enumeration *)

(** All functions of a bus that can be seen, by slot and by function. *)
Definition seen (a : Address) : bool :=
  present (mkAddress (bus a) (slot a) 0) && present a && ((function a =? 0) || multifunction (bus a) (slot a)).
Definition slot_functions (b s : Z) : list Address := mkAddress b s <$> seqZ 0 8.
Definition functions (b : Z) : list Address := filter (fun a => seen a = true) (concat (slot_functions b <$> seqZ 0 32)).

(** [a] is a bridge to bus [c]. *)
Definition bridge (a : Address) (c : Z) : Prop :=
  class_code_ (describe h a) = 0x06 /\ subclass_ (describe h a) = 0x04 /\ c = read8 h a offset_secondary_bus /\ c <> bus a.

(** Depth first: a function, all that is behind it when it is a bridge, then the next. *)
Inductive walk : list Address -> list Address -> Prop :=
  | walk_nil : walk [] []
  | walk_function a k l : (forall c, ~ bridge a c) -> walk k l -> walk (a :: k) (a :: l)
  | walk_bridge a c u k l : bridge a c -> walk (functions c) u -> walk k l -> walk (a :: k) (a :: u ++ l).

Lemma functions_visible b a : a ∈ functions b <-> visible b a.
Proof.
  unfold functions, visible, seen. rewrite list_elem_of_filter, elem_of_concat, !andb_true_iff, orb_true_iff, Z.eqb_eq. split.
  - intros [[[H1 H2] H3] (l & Ha & Hl)]. apply list_elem_of_fmap in Hl as (s & -> & Hs). apply elem_of_seqZ in Hs.
    apply list_elem_of_fmap in Ha as (f & -> & Hf). apply elem_of_seqZ in Hf. cbn in *. split_and!; try done; try lia.
    destruct H3 as [->|H3]; [by left|]. destruct (Z.eq_dec f 0); [by left|]. right. split; [lia|done].
  - intros (<- & Hs & H1 & H2 & Hf). split; [split; [done|]; tauto|]. exists (slot_functions (bus a) (slot a)).
    split; apply list_elem_of_fmap; [exists (function a)|exists (slot a)]; rewrite elem_of_seqZ; [split; [by destruct a|lia]|split; [done|lia]].
Qed.

Lemma functions_nodup b : NoDup (functions b).
Proof.
  apply NoDup_filter. assert (forall l, NoDup l -> NoDup (concat (slot_functions b <$> l))) as Hall; [|apply Hall, NoDup_seqZ].
  induction 1 as [|s l Hs Hl IH]; [constructor|]. cbn [fmap list_fmap concat]. apply NoDup_app. split_and!; [|intros a Ha Hc|done].
  - unfold slot_functions. apply NoDup_fmap_2; [intros x y [=]; done|apply NoDup_seqZ].
  - apply list_elem_of_fmap in Ha as (f & -> & _). apply elem_of_concat in Hc as (k & Hk & Hin).
    apply list_elem_of_fmap in Hin as (s' & -> & Hs'). apply list_elem_of_fmap in Hk as (f' & [= -> _] & _). done.
Qed.

Lemma filter_concat {A} (P : A -> bool) (ls : list (list A)) :
  filter (fun a => P a = true) (concat ls) = concat (filter (fun a => P a = true) <$> ls).
Proof. induction ls as [|l ls IH]; [done|]. cbn [concat fmap list_fmap]. by rewrite filter_app, IH. Qed.

Lemma concat_map_concat {A B} (f : A -> list B) (ls : list (list A)) : concat (f <$> concat ls) = concat ((fun l => concat (f <$> l)) <$> ls).
Proof. induction ls as [|l ls IH]; [done|]. cbn [concat fmap list_fmap]. by rewrite fmap_app, concat_app, IH. Qed.

Lemma fmap_concat {A B} (f : A -> B) (ls : list (list A)) : f <$> concat ls = concat ((fun l : list A => f <$> l) <$> ls).
Proof. induction ls as [|l ls IH]; [done|]. cbn [concat fmap list_fmap]. by rewrite <- IH, <- fmap_app. Qed.

Section bus.
Context (sb : Z -> list PciDevice -> option (list PciDevice)) (under : Z -> list Address) (b : Z).
Hypothesis sb_adds : forall c, bridged b c -> adds (sb c) (describe h <$> under c).

Definition behind (a : Address) : list Address :=
  let d := describe h a in
  if (class_code_ d =? 0x06) && (subclass_ d =? 0x04) && negb (read8 h a offset_secondary_bus =? bus a)
  then under (read8 h a offset_secondary_bus) else [].

Definition function_adds (a : Address) : list Address := if present a then a :: behind a else [].

Lemma scan_function_adds a : (present a = true -> visible b a) -> adds (scan_function sb h a) (describe h <$> function_adds a).
Proof.
  intros Hv. unfold scan_function, function_adds, present in *. destruct (read16 h a offset_vendor =? 0xFFFF); [by apply adds_nothing|].
  specialize (Hv eq_refl). cbn [negb fmap list_fmap]. intros devices Hd. rewrite (add_device_take _ devices Hd).
  set (ds := take max_devices (devices ++ [describe h a])).
  replace (take max_devices (devices ++ describe h a :: list_fmap _ _ (describe h) (behind a))) with (take max_devices (ds ++ (describe h <$> behind a)))
    by (subst ds; rewrite take_take_app, <- app_assoc; done).
  assert (length ds <= max_devices)%nat as Hds by apply take_length_le.
  unfold behind. destruct (Z.eqb_spec (class_code_ (describe h a)) 0x06), (Z.eqb_spec (subclass_ (describe h a)) 0x04); cbn [andb];
    try (by rewrite app_nil_r, take_ge).
  destruct (Z.eqb_spec (read8 h a offset_secondary_bus) (bus a)) as [|Hne]; cbn [negb]; [by rewrite app_nil_r, take_ge|].
  apply sb_adds; [|done]. exists a. split_and!; try done. destruct Hv as [-> _] in Hne |- *. done.
Qed.

Definition slot_adds (s : Z) : list Address :=
  if present (mkAddress b s 0) then
    function_adds (mkAddress b s 0) ++ (if multifunction b s then concat ((fun f => function_adds (mkAddress b s f)) <$> seqZ 1 7) else [])
  else [].

Lemma scan_slot_adds s : 0 <= s < 32 -> adds (scan_slot sb h b s) (describe h <$> slot_adds s).
Proof.
  intros Hs. unfold scan_slot, slot_adds, multifunction. destruct (present (mkAddress b s 0)) eqn:Ep.
  2:{ unfold present in Ep. apply negb_false_iff in Ep. rewrite Ep. by apply adds_nothing. }
  assert (read16 h (mkAddress b s 0) offset_vendor =? 0xFFFF = false) as -> by (unfold present in Ep; by apply negb_true_iff in Ep).
  rewrite fmap_app. apply (adds_then (scan_function sb h (mkAddress b s 0))).
  - apply scan_function_adds. intros _. split_and!; cbn; try done; try lia.
  - destruct (Z.land _ 0x80 =? 0) eqn:Em; cbn [negb]; [by apply adds_nothing|]. rewrite fmap_concat, <- list_fmap_compose.
    apply adds_each. intros f Hf. apply elem_of_seqZ in Hf. apply scan_function_adds. intros Hp.
    split_and!; cbn; try done; try lia. right. split; [lia|]. unfold multifunction. by rewrite Em.
Qed.

Definition bus_adds : list Address := concat (slot_adds <$> seqZ 0 32).

Lemma bus_adds_correct : adds (each (fun s => scan_slot sb h b s) (seqZ 0 32)) (describe h <$> bus_adds).
Proof.
  unfold bus_adds. rewrite fmap_concat, <- list_fmap_compose. apply adds_each. intros s Hs. apply elem_of_seqZ in Hs. apply scan_slot_adds. lia.
Qed.

(** A bus adds each of its functions with what is behind it. *)
Definition emits (a : Address) : list Address := a :: behind a.

(** Unseen functions add nothing; those that are there add themselves when their slot is
    looked through. *)
Lemma emits_seen l : (forall a, a ∈ l -> seen a = present a) -> concat (emits <$> filter (fun a => seen a = true) l) = concat (function_adds <$> l).
Proof.
  induction l as [|a l IH]; intros Hl; [done|]. rewrite filter_cons. cbn [fmap list_fmap concat]. unfold function_adds at 1.
  rewrite <- (Hl a) by (by left). rewrite <- IH by (intros x Hx; apply Hl; by right). destruct (seen a); case_decide; done.
Qed.

Lemma unseen_nothing l : (forall a, a ∈ l -> seen a = false) -> filter (fun a => seen a = true) l = [].
Proof.
  induction l as [|a l IH]; intros Hl; [done|]. rewrite filter_cons, decide_False by (rewrite Hl by (by left); done).
  apply IH. intros x Hx. apply Hl. by right.
Qed.

Lemma slot_adds_emits s : slot_adds s = concat (emits <$> filter (fun a => seen a = true) (slot_functions b s)).
Proof.
  clear sb_adds sb. unfold slot_adds. destruct (present (mkAddress b s 0)) eqn:Ep.
  2:{ rewrite unseen_nothing; [done|]. intros a Ha. apply list_elem_of_fmap in Ha as (f & -> & _). unfold seen. cbn. by rewrite Ep. }
  unfold slot_functions. rewrite (seqZ_cons 0 8) by lia. change (Z.succ 0) with 1. change (Z.pred 8) with 7. rewrite fmap_cons, filter_cons, decide_True.
  2:{ unfold seen. cbn. by rewrite Ep. }
  rewrite fmap_cons. cbn [concat]. unfold function_adds at 1. rewrite Ep. change (emits (mkAddress b s 0)) with (mkAddress b s 0 :: behind (mkAddress b s 0)).
  f_equal. destruct (multifunction b s) eqn:Em.
  - rewrite emits_seen, <- list_fmap_compose; [done|]. intros a Ha. apply list_elem_of_fmap in Ha as (f & -> & _). unfold seen. cbn.
    by rewrite Ep, Em, orb_true_r, andb_true_r.
  - rewrite unseen_nothing; [done|]. intros a Ha. apply list_elem_of_fmap in Ha as (f & -> & Hf). apply elem_of_seqZ in Hf. unfold seen. cbn.
    by rewrite Em, (proj2 (Z.eqb_neq f 0)), andb_false_r by lia.
Qed.

Lemma bus_adds_emits : bus_adds = concat (emits <$> functions b).
Proof.
  unfold bus_adds, functions. rewrite filter_concat, concat_map_concat, <- !list_fmap_compose. f_equal. apply list_fmap_ext. intros i s _. apply slot_adds_emits.
Qed.

Lemma bus_adds_walk : (forall c, bridged b c -> walk (functions c) (under c)) -> walk (functions b) bus_adds.
Proof.
  clear sb_adds sb. intros Hu. rewrite bus_adds_emits. assert (forall l, (forall a, a ∈ l -> visible b a) -> walk l (concat (emits <$> l))) as Hall.
  2:{ apply Hall. intros a. apply functions_visible. }
  induction l as [|a l IH]; intros Hl; [constructor|]. rewrite fmap_cons. cbn [concat]. change (emits a) with (a :: behind a). cbn [app].
  assert (visible b a) as Hv by (apply Hl; by left). assert (walk l (concat (emits <$> l))) as IHl by (apply IH; intros x Hx; apply Hl; by right). unfold behind.
  destruct ((class_code_ (describe h a) =? 6) && (subclass_ (describe h a) =? 4) && negb (read8 h a offset_secondary_bus =? bus a)) eqn:E.
  - breflect. apply walk_bridge with (read8 h a offset_secondary_bus); [by split_and!| |done]. apply Hu. exists a. destruct Hv as [<- Hv]. by split_and!.
  - apply walk_function; [|done]. intros c (H6 & H4 & -> & Hne). rewrite H6, H4, (proj2 (Z.eqb_neq _ (bus a))) in E by done. done.
Qed.
End bus.

(** What a scan finds, without a limit on the number of devices. *)
Fixpoint found (fuel : nat) (b : Z) : list Address :=
  match fuel with O => [] | S fuel => bus_adds (found fuel) b end.

(** With a rank that goes down through every bridge, the scan of a bus returns and is the
    walk over it. *)
Lemma scan_bus_adds (rank : Z -> nat) (r : Z) : (forall b c, rtc bridged r b -> bridged b c -> (rank c < rank b)%nat) ->
  forall fuel b, rtc bridged r b -> (rank b < fuel)%nat ->
  adds (scan_bus fuel h b) (describe h <$> found fuel b) /\ walk (functions b) (found fuel b).
Proof.
  intros Hrank. induction fuel as [|fuel IH]; intros b Hrb Hb; [lia|].
  assert (forall c, bridged b c -> (rank c < fuel)%nat) as Hlow by (intros c Hc; specialize (Hrank b c Hrb Hc); lia).
  assert (forall c, bridged b c -> rtc bridged r c) as Hon by (intros c Hc; by eapply rtc_r).
  split; [apply bus_adds_correct; intros c Hc; apply IH; auto|]. apply bus_adds_walk. intros c Hc. apply IH; auto.
Qed.

(** *** What the walk visits *)

Lemma bridge_bridged b a c : visible b a -> bridge a c -> bridged b c.
Proof. intros Hv (H6 & H4 & -> & Hne). exists a. destruct Hv as [<- Hv]. by split_and!. Qed.

(** A function of the walk is one it started from, or behind a bridge among those. *)
Lemma walk_visits k l : walk k l -> forall b, (forall a, a ∈ k -> visible b a) ->
  forall y, y ∈ l -> y ∈ k \/ exists a c, a ∈ k /\ bridge a c /\ rtc bridged c (bus y) /\ visible (bus y) y.
Proof.
  induction 1 as [|a k l Ha _ IH|a c u k l Ha _ IHu _ IHl]; intros b Hk y Hy; [by apply elem_of_nil in Hy|..].
  - apply elem_of_cons in Hy as [->|Hy]; [left; by left|]. destruct (IH b) with (y := y) as [H1|(x & c & Hx & H1)]; [intros; apply Hk; by right|done|left; by right|].
    right. exists x, c. split; [by right|done].
  - apply elem_of_cons in Hy as [->|Hy]; [left; by left|]. apply elem_of_app in Hy as [Hy|Hy].
    + right. exists a, c. split; [by left|]. split; [done|]. destruct (IHu c) with (y := y) as [H1|(x & c' & Hx & H1 & H2 & H3)]; [intros; by apply functions_visible|done|..].
      * apply functions_visible in H1. pose proof H1 as [Hb _]. rewrite Hb. split; [apply rtc_refl|done].
      * split; [|done]. eapply rtc_l; [|done]. apply functions_visible in Hx. by eapply bridge_bridged.
    + destruct (IHl b) with (y := y) as [H1|(x & c' & Hx & H1)]; [intros; apply Hk; by right|done|left; by right|]. right. exists x, c'. split; [by right|done].
Qed.

(** ... and every function behind a bridge is visited. *)
Lemma walk_reaches k l : walk k l -> (forall y, y ∈ k -> y ∈ l) /\ forall a c, a ∈ k -> bridge a c -> forall d y, rtc bridged c d -> visible d y -> y ∈ l.
Proof.
  induction 1 as [|a k l Ha _ [IH1 IH2]|a c u k l Ha _ [IHu1 IHu2] _ [IHl1 IHl2]]; split.
  - done.
  - intros a c Hk. by apply elem_of_nil in Hk.
  - set_solver.
  - intros x c Hx Hc d y Hd Hy. apply elem_of_cons in Hx as [->|Hx]; [by destruct (Ha c)|]. right. by eapply IH2.
  - set_solver.
  - intros x c' Hx Hc d y Hd Hy. right. apply elem_of_app. apply elem_of_cons in Hx as [->|Hx]; [left|right; by eapply IHl2].
    assert (c' = c) as -> by (destruct Ha as (_ & _ & -> & _), Hc as (_ & _ & -> & _); done).
    inversion Hd as [|x1 x2 x3 (x & Hv & H6 & H4 & Ex & Hne) Hr]; subst; [apply IHu1; by apply functions_visible|].
    eapply IHu2; [by apply functions_visible| |exact Hr|exact Hy]. destruct Hv as [Hv _]. split_and!; try done. by rewrite Hv.
Qed.

Section tree.
Context (rank : Z -> nat).
Hypothesis down : forall b c, rtc bridged 0 b -> bridged b c -> (rank c < rank b)%nat.
(** No two bridges lead to the same bus. *)
Hypothesis single : forall b b' a a' c, rtc bridged 0 b -> rtc bridged 0 b' -> visible b a -> visible b' a' -> bridge a c -> bridge a' c -> a = a'.

Lemma rank_down b c : rtc bridged 0 b -> rtc bridged b c -> (rank c <= rank b)%nat.
Proof.
  intros Hb Hc. revert Hb. induction Hc as [|x y z Hxy _ IH]; intros Hb; [done|]. pose proof (down x y Hb Hxy).
  assert (rtc bridged 0 y) as Hy by (by eapply rtc_r). specialize (IH Hy). lia.
Qed.

Lemma single_parent p q c : rtc bridged 0 p -> rtc bridged 0 q -> bridged p c -> bridged q c -> p = q.
Proof.
  intros Hp Hq (a & Ha & H1 & H2 & H3 & H4) (a' & Ha' & H1' & H2' & H3' & H4').
  assert (a = a') as -> by (apply (single p q a a' c); try done; [split_and!; try done; by destruct Ha as [-> _]|split_and!; try done; by destruct Ha' as [-> _]]).
  destruct Ha as [<- _], Ha' as [<- _]. done.
Qed.

(** Two buses with a common one behind them lie behind one another. *)
Lemma behind_both c c' d : rtc bridged 0 c -> rtc bridged 0 c' -> rtc bridged c d -> rtc bridged c' d -> rtc bridged c c' \/ rtc bridged c' c.
Proof.
  intros Hc Hc' Hd. revert d Hd. refine (rtc_ind_r _ c _ _); [by right|]. intros y d Hy Hyd IH Hd.
  apply rtc_inv_r in Hd as [->|(z & Hz & Hzd)]; [left; by eapply rtc_r|]. apply IH. assert (z = y) as ->; [|done].
  apply (single_parent z y d); [exact (transitivity Hc' Hz)|exact (transitivity Hc Hy)|done|done].
Qed.

Lemma siblings_apart b c c' d : rtc bridged 0 b -> bridged b c -> bridged b c' -> c <> c' -> rtc bridged c d -> rtc bridged c' d -> False.
Proof.
  intros Hb Hc Hc' Hne Hd Hd'.
  assert (forall x x', bridged b x -> bridged b x' -> x <> x' -> rtc bridged x x' -> False) as Hno.
  { intros x x' Hx Hx' Hn Hr. apply rtc_inv_r in Hr as [?|(p & Hp & Hpx)]; [done|]. assert (rtc bridged 0 x) as Hx0 by (by eapply rtc_r).
    assert (p = b) as -> by (apply (single_parent p b x'); [exact (transitivity Hx0 Hp)|done|done|done]). pose proof (down b x Hb Hx). pose proof (rank_down x b Hx0 Hp). lia. }
  destruct (behind_both c c' d) as [Hr|Hr]; [by eapply rtc_r|by eapply rtc_r|done|done|eapply (Hno c c'); eauto|eapply (Hno c' c); eauto].
Qed.

Lemma walk_nodup k l : walk k l -> forall b, rtc bridged 0 b -> (forall a, a ∈ k -> visible b a) -> NoDup k -> NoDup l.
Proof.
  induction 1 as [|a k l Ha Hw IH|a c u k l Ha Hu IHu Hw IHl]; intros b Hb Hk Hn; [constructor|..].
  all: apply NoDup_cons in Hn as [Hnk Hn]; assert (visible b a) as Hva by (apply Hk; by left); pose proof Hva as [Eb _];
    assert (forall x, x ∈ k -> visible b x) as Hk' by (intros x Hx; apply Hk; by right).
  all: assert (forall x c', visible b x -> bridge x c' -> rtc bridged c' b -> False) as Hbelow
    by (intros x c' Hx Hc Hr; pose proof (bridge_bridged b x c' Hx Hc) as Hbc; pose proof (down b c' Hb Hbc); assert (rtc bridged 0 c') as Hc0 by (by eapply rtc_r); pose proof (rank_down c' b Hc0 Hr); lia).
  all: assert (a ∉ l) as Hal by (intros Hin; destruct (walk_visits k l Hw b Hk' a Hin) as [?|(x & c' & Hx & H1 & H2 & _)]; [done|]; rewrite Eb in H2; by eapply Hbelow; [apply Hk'|..]).
  - apply NoDup_cons. split; [done|]. by apply (IH b).
  - pose proof (bridge_bridged b a c Hva Ha) as Hbc. assert (rtc bridged 0 c) as Hc0 by (by eapply rtc_r).
    assert (forall y, y ∈ u -> rtc bridged c (bus y)) as Hunder.
    { intros y Hy. destruct (walk_visits _ _ Hu c) with (y := y) as [H1|(x & c' & Hx & H1 & H2 & _)]; [intros; by apply functions_visible|done|..].
      - apply functions_visible in H1 as [-> _]. apply rtc_refl.
      - eapply rtc_l; [|done]. apply functions_visible in Hx. by eapply bridge_bridged. }
    apply NoDup_cons. split; [|apply NoDup_app; split_and!].
    + rewrite elem_of_app. intros [Hin|Hin]; [|done]. apply Hunder in Hin. rewrite Eb in Hin. by eapply Hbelow.
    + apply (IHu c); [done|intros; by apply functions_visible|apply functions_nodup].
    + intros y Hy Hyl. apply Hunder in Hy. destruct (walk_visits k l Hw b Hk' y Hyl) as [H1|(x & c' & Hx & H1 & H2 & _)].
      * apply Hk' in H1 as [E _]. rewrite E in Hy. by eapply Hbelow.
      * assert (c <> c') as Hne. { intros ->. assert (a = x) as -> by (eapply (single b b); eauto). done. }
        eapply (siblings_apart b c c' (bus y)); try done. eapply bridge_bridged; [by apply Hk'|done].
    + by apply (IHl b).
Qed.
End tree.
End scan.

(** C37: when the buses behind the bridges are numbered without a cycle, enumeration
    returns, and what it records are the first 64 functions of the depth-first walk from
    bus 0: slot by slot and function by function, behind a bridge all of its secondary
    bus.  The walk visits exactly the functions visible on bus 0 or on a bus reached from
    it through bridges, and none of them twice when no two bridges lead to the same bus. *)
Theorem pci_scan_complete {H} `{PciHost H} (h : H) (rank : Z -> nat) fuel :
  (forall b c, rtc (bridged h) 0 b -> bridged h b c -> (rank c < rank b)%nat) -> (rank 0%Z < fuel)%nat ->
  exists l, init fuel h = Some (take max_devices (describe h <$> l), true) /\ walk h (functions h 0) l /\
    (forall a, a ∈ l <-> exists c, rtc (bridged h) 0 c /\ visible h c a) /\
    ((forall b b' a a' c, rtc (bridged h) 0 b -> rtc (bridged h) 0 b' -> visible h b a -> visible h b' a' -> bridge h a c -> bridge h a' c -> a = a') -> NoDup l).
Proof.
  intros Hrank Hf. destruct (scan_bus_adds h rank 0 Hrank fuel 0 (rtc_refl _ _) Hf) as [Ha Hw]. exists (found h fuel 0). split_and!.
  - unfold init. rewrite (Ha []); [done|]. unfold max_devices. cbn. lia.
  - done.
  - intros a. destruct (walk_reaches h _ _ Hw) as [H1 H2]. split.
    + intros Hin. destruct (walk_visits h _ _ Hw 0) with (y := a) as [Hk|(x & c & Hx & Hc & Hr & Hv)]; [intros; by apply functions_visible|done|..].
      * exists 0. split; [apply rtc_refl|by apply functions_visible].
      * exists (bus a). split; [|done]. eapply rtc_l; [|done]. apply functions_visible in Hx. by eapply bridge_bridged.
    + intros (c & Hc & Hv). inversion Hc as [|x1 x2 x3 (x & Hx & H6 & H4 & Ex & Hne) Hr]; subst; [apply H1; by apply functions_visible|].
      eapply H2; [by apply functions_visible| |exact Hr|exact Hv]. destruct Hx as [Hx _]. split_and!; try done. by rewrite Hx.
  - intros Hs. eapply (walk_nodup h rank Hrank Hs); [done|apply rtc_refl|intros; by apply functions_visible|apply functions_nodup].
Qed.

(** A register file as a host: bus 0 has a host bridge at slot 0 and a bridge at slot 1
    to bus 1, where slot 2 has a disk. *)
#[export] Instance file_host : PciHost (Z -> Z) := {| cfg_read c i := u32 (c i); cfg_write c i v := fun j => if j =? i then v else c j |}.

Definition demo_bus (i : Z) : Z :=
  if i =? 0x80000000 then 0x12378086 else if i =? 0x80000008 then 0x06000002 else if i =? 0x8000000C then 0
  else if i =? 0x80000800 then 0x00011B36 else if i =? 0x80000808 then 0x06040000 else if i =? 0x8000080C then 0x00010000
  else if i =? 0x80000818 then 0x00010100
  else if i =? 0x80011000 then 0x10011AF4 else if i =? 0x80011008 then 0x01000000 else if i =? 0x8001100C then 0
  else 0xFFFFFFFF.

Lemma demo_scan : init 2 demo_bus = Some ([describe demo_bus (mkAddress 0 0 0); describe demo_bus (mkAddress 0 1 0); describe demo_bus (mkAddress 1 2 0)], true).
Proof. vm_compute. reflexivity. Qed.

(** Which buses have bridges, by looking at every function. *)
Definition bridges_checked (h : Z -> Z) (buses : list Z) (ok : Z -> Z -> bool) : bool :=
  forallb (fun b => forallb (fun s => forallb (fun f =>
    let a := mkAddress b s f in
    negb (present h a) || negb (class_code_ (describe h a) =? 6) || negb (subclass_ (describe h a) =? 4) || ok b (read8 h a offset_secondary_bus))
    (seqZ 0 8)) (seqZ 0 32)) buses.

Lemma demo_bridges : bridges_checked demo_bus [0; 1] (fun b c => (b =? 0) && (c =? 1)) = true.
Proof. vm_compute. reflexivity. Qed.

Lemma bridges_checked_ok h buses ok b c : bridges_checked h buses ok = true -> b ∈ buses -> bridged h b c -> ok b c = true.
Proof.
  unfold bridges_checked. rewrite forallb_forall. intros Hall Hb (a & (Ha & Hs & _ & Hp & Hf) & H6 & H4 & -> & _).
  specialize (Hall b (proj1 (list_elem_of_In _ _) Hb)). rewrite forallb_forall in Hall.
  assert (slot a ∈ seqZ 0 32) as Es by (apply elem_of_seqZ; lia). specialize (Hall _ (proj1 (list_elem_of_In _ _) Es)). rewrite forallb_forall in Hall.
  assert (function a ∈ seqZ 0 8) as Ef by (apply elem_of_seqZ; lia). specialize (Hall _ (proj1 (list_elem_of_In _ _) Ef)).
  destruct a as [ab sl fn]. cbn [bus slot function] in Ha, Hall. cbv beta zeta in Hall. subst ab. rewrite Hp, H6, H4 in Hall. exact Hall.
Qed.

Lemma demo_reach b : rtc (bridged demo_bus) 0 b -> b = 0 \/ b = 1.
Proof.
  intros Hr. apply rtc_ind_r with (P := fun b => b = 0 \/ b = 1) (x := 0) in Hr; [done|by left|].
  intros y z _ Hyz Hy. assert (y ∈ [0; 1]) as Hin by (rewrite !elem_of_cons; tauto).
  pose proof (bridges_checked_ok demo_bus _ _ y z demo_bridges Hin Hyz) as E. cbn in E. breflect. by right.
Qed.

Lemma pci_scan_complete_witness :
  exists l, init 2 demo_bus = Some (take max_devices (describe demo_bus <$> l), true) /\ mkAddress 1 2 0 ∈ l.
Proof.
  destruct (pci_scan_complete demo_bus (fun b => if b =? 0 then 1%nat else 0%nat) 2) as (l & E & _ & Hm & _).
  - intros b c Hr Hbc. assert (b ∈ [0; 1]) as Hin by (rewrite !elem_of_cons; destruct (demo_reach b Hr); tauto).
    pose proof (bridges_checked_ok demo_bus _ _ b c demo_bridges Hin Hbc) as Ec. cbn in Ec. apply andb_true_iff in Ec as [Eb Ec].
    apply Z.eqb_eq in Eb, Ec. subst. cbn. lia.
  - cbn. lia.
  - exists l. split; [exact E|]. apply Hm. exists 1. split.
    + apply rtc_once. exists (mkAddress 0 1 0). split; [|vm_compute; split; [reflexivity|split; [reflexivity|split; [reflexivity|discriminate]]]].
      split; [reflexivity|]. split; [cbn; lia|]. split; [vm_compute; reflexivity|]. split; [vm_compute; reflexivity|]. left. reflexivity.
    + split; [reflexivity|]. split; [cbn; lia|]. split; [vm_compute; reflexivity|]. split; [vm_compute; reflexivity|]. left. reflexivity.
Defined.

(** Two bridges that lead to each other's bus keep the scan from returning: whatever
    the fuel, it runs out. *)
Definition looped_bus (i : Z) : Z :=
  if (i =? 0x80000000) || (i =? 0x80010000) then 0x00011B36 else if (i =? 0x80000008) || (i =? 0x80010008) then 0x06040000
  else if i =? 0x80000018 then 0x00010100 else if i =? 0x80010018 then 0x00000000 else if (i =? 0x8000000C) || (i =? 0x8001000C) then 0x00010000
  else 0xFFFFFFFF.

Lemma looped_slot sb b c devices : (b = 0 /\ c = 1 \/ b = 1 /\ c = 0) -> (forall d, sb c d = None) -> scan_slot sb looped_bus b 0 devices = None.
Proof.
  intros Hbc Hsb. unfold scan_slot, scan_function.
  assert (read16 looped_bus (mkAddress b 0 0) offset_vendor = 0x1B36 /\ class_code_ (describe looped_bus (mkAddress b 0 0)) = 6 /\
    subclass_ (describe looped_bus (mkAddress b 0 0)) = 4 /\ read8 looped_bus (mkAddress b 0 0) offset_secondary_bus = c /\ c <> b) as (E1 & E2 & E3 & E4 & E5).
  { destruct Hbc as [[-> ->]|[-> ->]]; vm_compute; (split_and!; [reflexivity..|discriminate]). }
  rewrite E1, E2, E3, E4. cbn [bus]. rewrite (proj2 (Z.eqb_neq c b)) by done. cbn [Z.eqb Pos.eqb andb negb]. by rewrite Hsb.
Qed.

Lemma bridge_loop_diverges fuel b devices : b = 0 \/ b = 1 -> scan_bus fuel looped_bus b devices = None.
Proof.
  revert b devices. induction fuel as [|fuel IH]; intros b devices Hb; [done|]. cbn [scan_bus]. rewrite seqZ_cons by lia. cbn [each].
  rewrite (looped_slot _ b (1 - b)); [done|lia|]. intros d. apply IH. lia.
Qed.

(** *** Base address registers *)

(** What the sizing of a base address register relies on: a configuration register
    keeps the bits that can be written and the others stay as they are; in the low half
    of the command register likewise; other registers are not affected. *)
Class PciSpec (H : Type) `{PciHost H} (writable : Z -> Z) := {
  cfg_range : forall h i, 0 <= cfg_read h i < 2 ^ 32;
  cfg_frame : forall h i j v, i <> j -> cfg_read (cfg_write h i v) j = cfg_read h j;
  cfg_bar : forall h a index v, 0 <= index < 6 ->
    let i := config_index a (offset_bar0 + index * 4) in
    cfg_read (cfg_write h i v) i = Z.lor (Z.land (cfg_read h i) (not32 (writable i))) (Z.land v (writable i));
  cfg_command : forall h a v,
    let i := config_index a offset_command in
    Z.land (cfg_read (cfg_write h i v) i) 0xFFFF = Z.land (Z.lor (Z.land (cfg_read h i) (not32 (writable i))) (Z.land v (writable i))) 0xFFFF }.

Section bars.
Context {H : Type} {HP : PciHost H} {writable : Z -> Z} {HS : PciSpec H writable}.
Hypothesis writable_range : forall i, 0 <= writable i < 2 ^ 32.

Ltac bits k := apply Z.bits_inj'; intros k ?;
  repeat rewrite ?Z.lor_spec, ?Z.land_spec, ?Z.lnot_spec, ?Z.testbit_0_l by lia.

Lemma not32_bit x k : 0 <= k -> Z.testbit (not32 x) k = bool_decide (k < 32) && negb (Z.testbit x k).
Proof. intros Hk. unfold not32, u32. rewrite testbit_wrap by lia. by rewrite Z.lnot_spec. Qed.

Lemma high_bit x k : 0 <= x < 2 ^ 32 -> 32 <= k -> Z.testbit x k = false.
Proof. intros Hx Hk. apply (bit_beyond 32); lia. Qed.

(** A register written back is as it was. *)
Lemma restored W x y : 0 <= x < 2 ^ 32 -> 0 <= W < 2 ^ 32 ->
  Z.lor (Z.land (Z.lor (Z.land x (not32 W)) (Z.land y W)) (not32 W)) (Z.land x W) = x.
Proof.
  intros Hx HW. bits k. rewrite not32_bit by lia. case_bool_decide.
  - destruct (Z.testbit x k), (Z.testbit y k), (Z.testbit W k); done.
  - rewrite (high_bit x), (high_bit W) by lia. by rewrite !andb_false_r.
Qed.

(** Reading back all ones from a register whose address bits [b] can be written and
    whose flags [f] cannot gives the flags and the size mask. *)
Lemma sized W b f : 0 <= b < 2 ^ 32 -> 0 <= W < 2 ^ 32 -> Z.land b W = b -> Z.land f W = 0 ->
  Z.lor (Z.land (Z.lor b f) (not32 W)) (Z.land 0xFFFFFFFF W) = Z.lor (Z.land f (not32 W)) W.
Proof.
  intros Hb HW Eb Ef. bits k. apply (f_equal (fun z => Z.testbit z k)) in Eb, Ef. rewrite Z.land_spec in Eb, Ef. rewrite Z.testbit_0_l in Ef.
  change 0xFFFFFFFF with (Z.ones 32). rewrite not32_bit, Z.testbit_ones_nonneg by lia. case_bool_decide.
  - rewrite (proj2 (Z.ltb_lt k 32)) by lia. destruct (Z.testbit b k), (Z.testbit f k), (Z.testbit W k); done.
  - rewrite (high_bit W) by lia. by rewrite !andb_false_r.
Qed.

(** Masking off the four low bits. *)
Lemma without_flags W f : 0 <= W < 2 ^ 32 -> 0 <= f < 16 -> Z.land W 0xF = 0 -> Z.land (Z.lor f W) (not32 0xF) = W.
Proof.
  intros HW Hf EW. bits k. apply (f_equal (fun z => Z.testbit z k)) in EW. rewrite Z.land_spec, Z.testbit_0_l in EW.
  rewrite not32_bit by lia. change 0xF with (Z.ones 4) in *. rewrite Z.testbit_ones_nonneg in * by lia.
  destruct (Z.ltb_spec k 4).
  - rewrite andb_true_r in EW. by rewrite EW, !andb_false_r.
  - cbn [negb]. rewrite !andb_true_r. assert (Z.testbit f k = false) as ->.
    { apply (bit_beyond 4); lia. }
    cbn [orb]. case_bool_decide; [by rewrite andb_true_r|]. by rewrite (high_bit W) by lia.
Qed.

Lemma below_shift x n k : 0 <= n < k -> Z.testbit (u32 (Z.shiftl x k)) n = false.
Proof.
  intros Hn. unfold u32. rewrite testbit_wrap, Z.shiftl_spec by lia. rewrite (Z.testbit_neg_r x) by lia. apply andb_false_r.
Qed.

(** The low byte of an index is the register's offset. *)
Lemma config_low a o : Z.land (config_index a o) 0xFF = Z.land o 0xFC.
Proof.
  unfold config_index. bits k. change 0xFF with (Z.ones 8). rewrite Z.testbit_ones_nonneg by lia.
  destruct (Z.ltb_spec k 8).
  - rewrite !below_shift by lia. rewrite !orb_false_r, andb_true_r.
    change 0x80000000 with (2 ^ 31). rewrite Z.pow2_bits_false by lia. done.
  - rewrite andb_false_r. symmetry. replace (Z.testbit 0xFC k) with false; [apply andb_false_r|].
    symmetry. apply (bit_beyond 8); lia.
Qed.

Definition bar_index (a : Address) (index : Z) : Z := config_index a (offset_bar0 + index * 4).
Definition command_index (a : Address) : Z := config_index a offset_command.

Lemma bar_low a index : 0 <= index < 6 -> Z.land (bar_index a index) 0xFF = 16 + index * 4.
Proof.
  intros Hi. unfold bar_index. rewrite config_low. unfold offset_bar0.
  assert (index = 0 \/ index = 1 \/ index = 2 \/ index = 3 \/ index = 4 \/ index = 5) as Hc by lia.
  repeat destruct Hc as [->|Hc]; try subst; reflexivity.
Qed.

Lemma indices_differ a index index' : 0 <= index < 6 -> 0 <= index' < 6 ->
  bar_index a index <> command_index a /\ (index <> index' -> bar_index a index <> bar_index a index').
Proof.
  intros Hi Hi'. split.
  - intros E. apply (f_equal (fun z => Z.land z 0xFF)) in E. rewrite bar_low in E by done. unfold command_index in E. rewrite config_low in E.
    change (Z.land offset_command 0xFC) with 4 in E. lia.
  - intros Hne E. apply (f_equal (fun z => Z.land z 0xFF)) in E. rewrite !bar_low in E by done. lia.
Qed.

(** Writing all ones, reading back and restoring. *)
Lemma probe h a index b f : 0 <= index < 6 ->
  let i := bar_index a index in
  cfg_read h i = Z.lor b f -> 0 <= b < 2 ^ 32 -> 0 <= f < 16 -> Z.land b (writable i) = b -> Z.land f (writable i) = 0 ->
  cfg_read (cfg_write h i 0xFFFFFFFF) i = Z.lor f (writable i) /\
  forall j, cfg_read (cfg_write (cfg_write h i 0xFFFFFFFF) i (Z.lor b f)) j = cfg_read h j.
Proof.
  intros Hi i Er Hb Hf Eb Ef. pose proof (writable_range i) as HW. split.
  - subst i. unfold bar_index in *. rewrite cfg_bar by done. cbv zeta. rewrite Er, sized by done. f_equal.
    bits k. apply (f_equal (fun z => Z.testbit z k)) in Ef. rewrite Z.land_spec, Z.testbit_0_l in Ef. rewrite not32_bit by lia. case_bool_decide.
    + destruct (Z.testbit f k), (Z.testbit (writable _) k); done.
    + by rewrite (high_bit f) by lia.
  - intros j. destruct (Z.eq_dec i j) as [<-|Hne]; [|by rewrite !cfg_frame].
    subst i. unfold bar_index in *. rewrite !cfg_bar by done. cbv zeta. rewrite <- Er. apply restored; [apply cfg_range|done].
Qed.

Lemma command_bit h a v k : 0 <= k < 16 ->
  Z.testbit (cfg_read (cfg_write h (command_index a) v) (command_index a)) k =
  (Z.testbit (cfg_read h (command_index a)) k && negb (Z.testbit (writable (command_index a)) k)) || (Z.testbit v k && Z.testbit (writable (command_index a)) k).
Proof.
  intros Hk. pose proof (cfg_command h a v) as E. cbv zeta in E. fold (command_index a) in E.
  apply (f_equal (fun z => Z.testbit z k)) in E. change 0xFFFF with (Z.ones 16) in E. rewrite !Z.land_spec, Z.testbit_ones_nonneg in E by lia.
  rewrite (proj2 (Z.ltb_lt k 16)), !andb_true_r in E by lia. rewrite E, Z.lor_spec, !Z.land_spec, not32_bit by lia.
  by rewrite bool_decide_eq_true_2 by lia.
Qed.

Lemma write16_command a v h : 0 <= v < 2 ^ 16 ->
  write16 a offset_command v h = cfg_write h (command_index a) (Z.lor (Z.land (cfg_read h (command_index a)) (not32 0xFFFF)) v).
Proof.
  intros Hv. unfold write16, write32, read32. change (Z.land offset_command 2 * 8) with 0. rewrite !Z.shiftl_0_r, (u32_small v) by lia. done.
Qed.

Lemma u16_bit x k : 0 <= k < 16 -> Z.testbit (u16 x) k = Z.testbit x k.
Proof. intros Hk. unfold u16. rewrite testbit_wrap by lia. by rewrite bool_decide_eq_true_2 by lia. Qed.

(** Switching decoding off and writing the command back leaves it as it was, whatever
    happened to other registers in between. *)
Lemma command_restored a h h' v : 0 <= v < 2 ^ 16 ->
  cfg_read h' (command_index a) = cfg_read (write16 a offset_command v h) (command_index a) ->
  Z.land (cfg_read (write16 a offset_command (read16 h a offset_command) h') (command_index a)) 0xFFFF =
  Z.land (cfg_read h (command_index a)) 0xFFFF.
Proof.
  intros Hv E. assert (read16 h a offset_command = u16 (cfg_read h (command_index a))) as ->.
  { unfold read16, read32. change (Z.land offset_command 2 * 8) with 0. by rewrite Z.shiftr_0_r. }
  set (c := cfg_read h (command_index a)) in *. assert (0 <= u16 c < 2 ^ 16) as Hc by (apply wrap_range; lia).
  rewrite write16_command by done. bits k. change 0xFFFF with (Z.ones 16) at 2 3. rewrite Z.testbit_ones_nonneg by lia.
  destruct (Z.ltb_spec k 16); [|by rewrite !andb_false_r]. rewrite !andb_true_r, command_bit by lia.
  rewrite E, write16_command, command_bit by (done || lia). fold c. rewrite !Z.lor_spec, u16_bit by lia.
  assert (forall x, Z.testbit (Z.land x (not32 0xFFFF)) k = false) as Hm.
  { intros x. rewrite Z.land_spec, not32_bit by lia. change 0xFFFF with (Z.ones 16). rewrite Z.testbit_ones_nonneg, (proj2 (Z.ltb_lt k 16)) by lia.
    cbn. by rewrite !andb_false_r. }
  rewrite !Hm. cbn [orb]. destruct (Z.testbit c k), (Z.testbit (writable (command_index a)) k), (Z.testbit v k); done.
Qed.

(** Two halves of a 64-bit value. *)
Lemma join_halves lo hi : 0 <= lo < 2 ^ 32 -> 0 <= hi < 2 ^ 32 -> Z.lor lo (u64 (Z.shiftl hi 32)) = lo + 2 ^ 32 * hi.
Proof.
  intros Hl Hh. rewrite Z.shiftl_mul_pow2, u64_small by lia.
  pose proof (Z.add_lor_land lo (hi * 2 ^ 32)) as E.
  assert (Z.land lo (hi * 2 ^ 32) = 0) as E0; [|lia].
  rewrite <- Z.shiftl_mul_pow2 by lia. bits k. rewrite Z.shiftl_spec by lia. destruct (Z.lt_ge_cases k 32).
  - rewrite (Z.testbit_neg_r hi) by lia. apply andb_false_r.
  - by rewrite (high_bit lo) by lia.
Qed.

Lemma two_complement k : 0 <= k < 64 -> u64 (not64 (2 ^ 64 - 2 ^ k) + 1) = 2 ^ k.
Proof.
  intros Hk. assert (1 <= 2 ^ k <= 2 ^ 63).
  { split; [change 1 with (2 ^ 0)|]; apply Z.pow_le_mono_r; lia. }
  unfold not64. replace (u64 (Z.lnot (2 ^ 64 - 2 ^ k))) with (2 ^ k - 1).
  - rewrite u64_small by lia. lia.
  - unfold u64, wrap, Z.lnot. symmetry. replace (Z.pred (- (2 ^ 64 - 2 ^ k))) with (2 ^ k - 1 + -1 * 2 ^ 64) by lia.
    rewrite Z_mod_plus_full. apply Z.mod_small. lia.
Qed.

(** The flag bits of a register are those of its low four bits. *)
Lemma flag_bit b f k : Z.land b 0xF = 0 -> 0 <= k < 4 -> Z.testbit (Z.lor b f) k = Z.testbit f k.
Proof.
  intros Eb Hk. apply (f_equal (fun z => Z.testbit z k)) in Eb. change 0xF with (Z.ones 4) in Eb.
  rewrite Z.land_spec, Z.testbit_ones_nonneg, (proj2 (Z.ltb_lt k 4)), andb_true_r, Z.testbit_0_l in Eb by lia.
  by rewrite Z.lor_spec, Eb.
Qed.

Lemma flag_kind b f : Z.land b 0xF = 0 -> Z.land (Z.shiftr (Z.lor b f) 1) 0x3 = Z.land (Z.shiftr f 1) 0x3.
Proof.
  intros Eb. bits k. rewrite !Z.shiftr_spec by lia. change 0x3 with (Z.ones 2). rewrite Z.testbit_ones_nonneg by lia.
  destruct (Z.ltb_spec k 2); [|by rewrite !andb_false_r]. by rewrite flag_bit by (done || lia).
Qed.

Definition wide (f index : Z) : bool := (Z.land (Z.shiftr f 1) 0x3 =? 0x2) && (index <? 5).

(** What a memory region of [2^k] bytes at [b], with flags [f], looks like in the
    registers. *)
Record decodes (h : H) (a : Address) (index b bh f k : Z) : Prop := {
  dec_value : cfg_read h (bar_index a index) = Z.lor b f;
  dec_b : 0 <= b < 2 ^ 32;
  dec_aligned : Z.land b 0xF = 0;
  dec_f : 0 <= f < 16;
  dec_memory : Z.testbit f 0 = false;
  dec_writable : Z.land b (writable (bar_index a index)) = b;
  dec_flags : Z.land f (writable (bar_index a index)) = 0;
  dec_low : Z.land (writable (bar_index a index)) 0xF = 0;
  dec_high : bh = if wide f index then cfg_read h (bar_index a (index + 1)) else 0;
  dec_high_writable : wide f index = true -> Z.land bh (writable (bar_index a (index + 1))) = bh;
  dec_size : writable (bar_index a index) + 2 ^ 32 * (if wide f index then writable (bar_index a (index + 1)) else 2 ^ 32 - 1) = 2 ^ 64 - 2 ^ k;
  dec_k : 4 <= k < 64 }.
End bars.

(** sizing a memory base address register gives its address, the size of the region
    (any power of two a 32-bit or 64-bit register can decode) and its prefetchable
    flag, and puts every register back: the base address registers read what they read
    before and so does the command register. *)
Theorem pci_bar_decoded {H} `{HP : PciHost H} (writable : Z -> Z) `{HS : !PciSpec H writable} (h : H) d index b bh f k :
  (forall i, 0 <= writable i < 2 ^ 32) -> 0 <= index < 6 ->
  decodes (writable := writable) h (address_ d) index b bh f k ->
  (bar d index h).1 = mkBar (b + 2 ^ 32 * bh) (2 ^ k) true (Z.testbit f 3) /\
  (forall j, j <> command_index (address_ d) -> cfg_read (bar d index h).2 j = cfg_read h j) /\
  Z.land (cfg_read (bar d index h).2 (command_index (address_ d))) 0xFFFF = Z.land (cfg_read h (command_index (address_ d))) 0xFFFF.
Proof.
  intros Hwr Hi [Er Hb Eal Hf Hmem Ewr Efl Elow Ehi Ehw Esz Hk]. set (a := address_ d) in *.
  unfold bar. rewrite (proj2 (Z.leb_gt 6 index)) by lia. fold a.
  rewrite (u16_small (offset_bar0 + index * 4)) by (unfold offset_bar0; lia).
  set (c := read16 h a offset_command). set (c' := u16 (Z.land c _)).
  assert (0 <= c' < 2 ^ 16) as Hc' by (apply wrap_range; lia).
  set (h1 := write16 a offset_command c' h).
  assert (forall j, j <> command_index a -> cfg_read h1 j = cfg_read h j) as F1.
  { intros j Hj. subst h1. rewrite write16_command by done. by apply cfg_frame, not_eq_sym. }
  destruct (indices_differ a index index Hi Hi) as [Hn0 _].
  unfold write32, read32. fold (bar_index a index). rewrite Er.
  assert (cfg_read h1 (bar_index a index) = Z.lor b f) as Er1 by (rewrite F1; done).
  destruct (probe Hwr h1 a index b f Hi Er1 Hb Hf Ewr Efl) as [Em F2].
  rewrite Em. set (h2 := cfg_write (cfg_write h1 _ _) _ _) in *.
  replace (Z.land (Z.lor b f) 1 =? 0) with true by (symmetry; rewrite <- (negb_involutive (_ =? 0)); change 1 with (Z.shiftl 1 0); rewrite land_bit_testbit, flag_bit by (done || lia); by rewrite Hmem).
  cbn [negb]. rewrite flag_kind by done.
  assert (negb (Z.land (Z.lor b f) 0x8 =? 0) = Z.testbit f 3) as -> by (change 0x8 with (Z.shiftl 1 3); rewrite land_bit_testbit, flag_bit by (done || lia); done).
  rewrite (Z.lor_comm b f), (without_flags b f), (without_flags _ f) by done.
  assert (forall hk, (forall j, cfg_read hk j = cfg_read h1 j) ->
    (forall j, j <> command_index a -> cfg_read (write16 a offset_command c hk) j = cfg_read h j) /\
    Z.land (cfg_read (write16 a offset_command c hk) (command_index a)) 0xFFFF = Z.land (cfg_read h (command_index a)) 0xFFFF) as Hend.
  { intros hk Hhk. split.
    - intros j Hj. rewrite write16_command by (apply wrap_range; lia). rewrite cfg_frame by (by apply not_eq_sym). by rewrite Hhk, F1.
    - apply (command_restored a h hk c'); [done|]. apply Hhk. }
  fold (wide f index). destruct (wide f index) eqn:Ew.
  - unfold wide in Ew. apply andb_true_iff in Ew as [_ Hi5]. apply Z.ltb_lt in Hi5.
    replace (offset_bar0 + index * 4 + 4) with (offset_bar0 + (index + 1) * 4) by lia. fold (bar_index a (index + 1)).
    destruct (indices_differ a (index + 1) index ltac:(lia) Hi) as [Hn1 _].
    assert (cfg_read h2 (bar_index a (index + 1)) = Z.lor bh 0) as Eh by (rewrite F2, F1, Z.lor_0_r by done; done).
    assert (0 <= bh < 2 ^ 32) as Hbh by (rewrite Ehi; apply cfg_range).
    destruct (probe Hwr h2 a (index + 1) bh 0 ltac:(lia) Eh Hbh ltac:(lia) (Ehw eq_refl) (Z.land_0_l _)) as [Em2 F3].
    rewrite Em2, Z.lor_0_l, Eh, Z.lor_0_r. rewrite Z.lor_0_r in F3. rewrite !join_halves by (apply Hwr || done). rewrite Esz, two_complement by lia.
    split; [done|]. apply Hend. intros j. by rewrite F3, F2.
  - change 0xFFFFFFFF00000000 with (u64 (Z.shiftl (2 ^ 32 - 1) 32)). rewrite join_halves by (apply Hwr || lia). rewrite Esz, two_complement by lia.
    rewrite Ehi, Z.mul_0_r, Z.add_0_r. split; [done|]. by apply Hend.
Qed.

(** A host whose registers have a mask of writable bits. *)
Definition masked_host (writable : Z -> Z) : PciHost (Z -> Z) := {|
  cfg_read c i := u32 (c i);
  cfg_write c i v := fun j => if j =? i then Z.lor (Z.land (u32 (c i)) (not32 (writable i))) (Z.land v (writable i)) else c j |}.

Lemma masked_host_spec writable : (forall i, 0 <= writable i < 2 ^ 32) -> @PciSpec (Z -> Z) (masked_host writable) writable.
Proof.
  intros Hw. assert (forall x v i, u32 (Z.lor (Z.land (u32 x) (not32 (writable i))) (Z.land v (writable i))) =
    Z.lor (Z.land (u32 x) (not32 (writable i))) (Z.land v (writable i))) as Hu.
  { intros x v i. apply u32_small, lor_fits; [lia|apply land_fits; [lia|apply u32_range]|apply land_fits; [lia|apply Hw]]. }
  split; cbn.
  - auto with eris.
  - intros h i j v Hne. by rewrite (proj2 (Z.eqb_neq j i)) by (by apply not_eq_sym).
  - intros h a index v _. by rewrite Z.eqb_refl, Hu.
  - intros h a v. by rewrite Z.eqb_refl, Hu.
Qed.

(** A device at 0:3.0 with a prefetchable 64-bit region of 2^34 bytes at 0x400000000 in
    registers 2 and 3. *)
Definition demo_bar_writable (i : Z) : Z :=
  if i =? 0x80001818 then 0 else if i =? 0x8000181C then 0xFFFFFFFC else if i =? 0x80001804 then 0x7 else 0.
Definition demo_bar_values (i : Z) : Z :=
  if i =? 0x80001818 then 0xC else if i =? 0x8000181C then 4 else if i =? 0x80001804 then 0x00100007 else 0.
Definition demo_device : PciDevice := make_device (mkAddress 0 3 0) 0x1AF4 0x1042 1 0 0.

Lemma demo_writable_range i : 0 <= demo_bar_writable i < 2 ^ 32.
Proof. unfold demo_bar_writable. repeat case_match; lia. Qed.

Lemma pci_bar_decoded_witness :
  (@bar _ (masked_host demo_bar_writable) demo_device 2 demo_bar_values).1 = mkBar 0x400000000 (2 ^ 34) true true.
Proof.
  apply (@pci_bar_decoded _ (masked_host demo_bar_writable) demo_bar_writable (masked_host_spec _ demo_writable_range)
    demo_bar_values demo_device 2 0 4 0xC 34 demo_writable_range).
  - lia.
  - split; try reflexivity; cbn; lia.
Defined.

(** A register no region is behind reads zero whatever is written to it; it is reported
    as a region of 4 GiB. *)
Lemma absent_bar_has_a_size :
  (@bar _ (masked_host (fun _ => 0)) demo_device 0 (fun _ => 0)).1 = mkBar 0 0x100000000 true false.
Proof. vm_compute. reflexivity. Qed.
