(* ===== verification/Virtio.v ===== *)
(** * The block driver (src/modules/virtio_blk/virtio_blk.cpp) and the calls it makes of
      the PCI services for modules (src/kernel/module/api.cpp)

    State: the queue as its descriptor table, its ring of available requests and the
    driver's counters.  The device, the page allocator and the clock answer through
    parameters: the words read from its ports, the frame allocated, the values of the
    used index as it is polled and whether the deadline has passed by then.  What the
    driver does to the outside is a list of effects. *)

From S2P Require Import Prelude Pci.

Definition vendor_virtio : Z := 0x1AF4.
Definition device_legacy_blk : Z := 0x1001.
Definition device_modern_blk : Z := 0x1042.
Definition reg_device_features : Z := 0x00.
Definition reg_driver_features : Z := 0x04.
Definition reg_queue_address : Z := 0x08.
Definition reg_queue_size : Z := 0x0C.
Definition reg_queue_select : Z := 0x0E.
Definition reg_queue_notify : Z := 0x10.
Definition reg_status : Z := 0x12.
Definition reg_config : Z := 0x14.
Definition status_acknowledge : Z := 1.
Definition status_driver : Z := 2.
Definition status_driver_ok : Z := 4.
Definition status_failed : Z := 128.
Definition descriptor_next : Z := 1.
Definition descriptor_write : Z := 2.
Definition request_in : Z := 0.
Definition request_out : Z := 1.
Definition sector_size : Z := 512.

Record Descriptor := mkDescriptor { address : Z; length_ : Z; flags : Z; next : Z }.
Definition sizeof_Descriptor : Z := 16.
Definition sizeof_UsedElement : Z := 8.
Definition sizeof_RequestHeader : Z := 16.

Record Queue := mkQueue { port_ : Z; index_ : Z; size_ : Z; next_descriptor_ : Z; last_used_ : Z; frames_ : Z; pages_ : Z;
  descriptors_ : list Descriptor; ring : list Z; available_index : Z }.

Inductive effect :=
  | Outb (port value : Z) | Outw (port value : Z) | Outl (port value : Z)
  | Header (frame type sector : Z)     (* the request header at the frame *)
  | Status (frame : Z)                 (* 0xFF at the frame + 256 *)
  | FreePages (frame count : Z).

Definition align_up (value alignment : Z) : Z := Z.land (u64 (value + alignment - 1)) (not64 (alignment - 1)).

(** Where the parts of a queue of [size] entries go. *)
Definition descriptor_bytes (size : Z) : Z := u64 (sizeof_Descriptor * size).
Definition available_bytes (size : Z) : Z := u64 (2 * (3 + size)).
Definition used_offset (size : Z) : Z := align_up (u64 (descriptor_bytes size + available_bytes size)) 4096.
Definition used_bytes (size : Z) : Z := u64 (2 * 3 + sizeof_UsedElement * size).
Definition queue_pages (size : Z) : Z := u64 (used_offset size + align_up (used_bytes size) 4096) / 4096.

(** [size]: what the device answers; [frames]: what the allocator gives for the pages,
    0 when it has none. *)
Definition setup (port index size frames : Z) (q : Queue) : bool * Queue * list effect :=
  let select := Outw (u16 (port + reg_queue_select)) index in
  if size =? 0 then
    (false, mkQueue port index size (next_descriptor_ q) (last_used_ q) (frames_ q) (pages_ q) (descriptors_ q) (ring q) (available_index q), [select])
  else if frames =? 0 then
    (false, mkQueue port index size (next_descriptor_ q) (last_used_ q) frames (queue_pages size) (descriptors_ q) (ring q) (available_index q), [select])
  else
    (true, mkQueue port index size 0 0 frames (queue_pages size) (replicate (Z.to_nat size) (mkDescriptor 0 0 0 0)) (replicate (Z.to_nat size) 0) 0,
     [select; Outl (u16 (port + reg_queue_address)) (u32 (frames / 4096))]).

Definition teardown (q : Queue) : Queue * list effect :=
  if frames_ q =? 0 then (q, [])
  else
    (mkQueue (port_ q) (index_ q) (size_ q) (next_descriptor_ q) (last_used_ q) 0 0 (descriptors_ q) (ring q) (available_index q),
     [Outw (u16 (port_ q + reg_queue_select)) (index_ q); Outl (u16 (port_ q + reg_queue_address)) 0; FreePages (frames_ q) (pages_ q)]).

(** [while (used_->index == last_used_)]: [used n] is the [n]-th reading of the index,
    [expired n] whether the deadline has passed then.  The answer is the reading the
    loop ended with, or nothing after the deadline. *)
Fixpoint poll (fuel n : nat) (used : nat -> Z) (expired : nat -> bool) (last_used : Z) : option (option Z) :=
  match fuel with
  | O => None
  | S fuel => if used n =? last_used then if expired n then Some None else poll fuel (n + 1) used expired last_used else Some (Some (used (n + 1)%nat))
  end.

(** The three descriptors of a request and its place in the ring. *)
Definition publish (header_frame payload length : Z) (write : bool) (q : Queue) : Queue :=
  let first := next_descriptor_ q in
  let second := u16 ((first + 1) mod size_ q) in
  let third := u16 ((first + 2) mod size_ q) in
  let ds := <[Z.to_nat first := mkDescriptor header_frame sizeof_RequestHeader descriptor_next second]> (descriptors_ q) in
  let ds := <[Z.to_nat second := mkDescriptor payload (u32 length) (Z.lor descriptor_next (if write then 0 else descriptor_write)) third]> ds in
  let ds := <[Z.to_nat third := mkDescriptor (u64 (header_frame + 256)) 1 descriptor_write 0]> ds in
  mkQueue (port_ q) (index_ q) (size_ q) (u16 ((first + 3) mod size_ q)) (last_used_ q) (frames_ q) (pages_ q) ds
    (<[Z.to_nat (available_index q mod size_ q) := first]> (ring q)) (u16 (available_index q + 1)).

(** The effects are those of both outcomes, in the order of the source, which gives the
    page back once on each path; the fences order the stores for the device and add none.
    [header_frame]: the page allocated, 0 for none; [payload]: the buffer's physical
    address; [status]: the byte the device left. *)
Definition submit (fuel : nat) (header_frame payload : Z) (used : nat -> Z) (expired : nat -> bool) (status : Z)
    (type sector length : Z) (write : bool) (q : Queue) : option (bool * Queue * list effect) :=
  if size_ q <? 3 then Some (false, q, [])
  else if header_frame =? 0 then Some (false, q, [])
  else
    let q := publish header_frame payload length write q in
    let effects := [Header header_frame type sector; Status header_frame; Outw (u16 (port_ q + reg_queue_notify)) (index_ q); FreePages header_frame 1] in
    answer ← poll fuel 0 used expired (last_used_ q);
    match answer with
    | None => Some (false, q, effects)
    | Some last =>
      let q := mkQueue (port_ q) (index_ q) (size_ q) (next_descriptor_ q) last (frames_ q) (pages_ q) (descriptors_ q) (ring q) (available_index q) in
      Some (status =? 0, q, effects)
    end.

(** ** The PCI services (api.cpp) *)

Section host.
Context {H : Type} `{PciHost H}.

Definition eris_pci_device_count (devices : list PciDevice) : Z := device_count devices.
(** The fields stored through the pointers, all of them given. *)
Definition eris_pci_device_at (devices : list PciDevice) (index : nat) : option (Z * Z * Z * Z * Z) :=
  d ← device_at devices index;
  Some (vendor_ d, device_ d, bus (address_ d), slot (address_ d), function (address_ d)).
Definition eris_pci_bar (devices : list PciDevice) (index : nat) (bar_ : Z) (h : H) : Z * option (Z * bool) * H :=
  match device_at devices index with
  | None => (0, None, h)
  | Some d => let '(b, h) := bar d bar_ h in (bar_address b, Some (bar_length b, memory b), h)
  end.
Definition eris_pci_interrupt_line (devices : list PciDevice) (index : nat) (h : H) : Z :=
  match device_at devices index with Some d => interrupt_line h d | None => 0 end.
Definition eris_pci_enable (devices : list PciDevice) (index : nat) (h : H) : H :=
  match device_at devices index with Some d => enable_bus_master d (enable_memory_space d h) | None => h end.

(** The loop of [find_device]; the module's [length] and [memory] start as 0 and
    true. *)
Fixpoint find_loop (n i : nat) (devices : list PciDevice) (h : H) : option (nat * Z) * H :=
  match n with
  | O => (None, h)
  | S n =>
    match eris_pci_device_at devices i with
    | None => find_loop n (i + 1) devices h
    | Some (vendor, device, _, _, _) =>
      if negb (vendor =? vendor_virtio) then find_loop n (i + 1) devices h
      else if negb (device =? device_legacy_blk) && negb (device =? device_modern_blk) then find_loop n (i + 1) devices h
      else
        let '(bar, answer, h) := eris_pci_bar devices i 0 h in
        let memory := match answer with Some (_, m) => m | None => true end in
        if memory || (bar =? 0) then find_loop n (i + 1) devices h else (Some (i, u16 bar), h)
    end
  end.
Definition find_device (devices : list PciDevice) (h : H) : option (nat * Z) * H := find_loop (length devices) 0 devices h.

(** The module's variables. *)
Record module_state := mkModule { queue : Queue; io_base : Z; capacity_sectors : Z; attached : bool }.

(** [size], [frames]: as for [setup]; [low], [high]: the capacity the device gives. *)
Definition virtio_blk_init (devices : list PciDevice) (size frames low high : Z) (h : H) (m : module_state) : Z * module_state * H * list effect :=
  match find_device devices h with
  | (None, h) => (0, m, h, [])
  | (Some (index, port), h) =>
    let h := eris_pci_enable devices index h in
    let reset := [Outb (u16 (port + reg_status)) 0; Outb (u16 (port + reg_status)) status_acknowledge;
                  Outb (u16 (port + reg_status)) (Z.lor status_acknowledge status_driver); Outl (u16 (port + reg_driver_features)) 0] in
    let '(ok, q, effects) := setup port 0 size frames (queue m) in
    if negb ok then (-1, mkModule q port (capacity_sectors m) (attached m), h, reset ++ effects ++ [Outb (u16 (port + reg_status)) status_failed])
    else
      (0, mkModule q port (Z.lor (u64 (Z.shiftl high 32)) low) true, h,
       reset ++ effects ++ [Outb (u16 (port + reg_status)) (Z.lor (Z.lor status_acknowledge status_driver) status_driver_ok)])
  end.

Definition virtio_blk_exit (m : module_state) : module_state * list effect :=
  if negb (attached m) then (m, [])
  else
    let '(q, effects) := teardown (queue m) in
    (mkModule q (io_base m) (capacity_sectors m) false, Outb (u16 (io_base m + reg_status)) 0 :: effects).

Definition virtio_blk_present (m : module_state) : bool := attached m.
Definition virtio_blk_capacity (m : module_state) : Z := capacity_sectors m.

Definition set_queue (q : Queue) (m : module_state) : module_state := mkModule q (io_base m) (capacity_sectors m) (attached m).

Definition transfer (fuel : nat) (header_frame payload : Z) (used : nat -> Z) (expired : nat -> bool) (status : Z)
    (type sector sectors : Z) (write : bool) (m : module_state) : option (bool * module_state * list effect) :=
  if negb (attached m) || (sectors =? 0) then Some (false, m, [])
  else
    '(ok, q, effects) ← submit fuel header_frame payload used expired status type sector (u64 (sectors * sector_size)) write (queue m);
    Some (ok, set_queue q m, effects).
Definition virtio_blk_read fuel hf p used expired status sector sectors := transfer fuel hf p used expired status request_in sector sectors false.
Definition virtio_blk_write fuel hf p used expired status sector sectors := transfer fuel hf p used expired status request_out sector sectors true.
End host.

(** ** Properties *)

Lemma align_up_4096 v : 0 <= v < 2 ^ 32 -> v <= align_up v 4096 < v + 4096 /\ align_up v 4096 mod 4096 = 0.
Proof.
  intros Hv. unfold align_up. change (4096 - 1) with (2 ^ 12 - 1). rewrite (u64_small (v + 4096 - 1)) by lia.
  rewrite land_not64_ones by (unfold fits; lia). change (2 ^ 12) with 4096. split; [dlia|]. dlia.
Qed.

(** for every queue size a device can report the descriptor table, the ring of
    available requests and the ring of used ones lie one after the other inside the
    pages allocated for them, the used ring at the start of a page, and no page is
    allocated that is not needed. *)
Theorem queue_layout size : 0 < size < 2 ^ 16 ->
  let table_end := descriptor_bytes size in
  let available_end := table_end + (2 + 2 + 2 * size) in
  let used := used_offset size in
  table_end = 16 * size /\ available_end <= used /\ used mod 4096 = 0 /\
  used + (2 + 2 + 8 * size) <= queue_pages size * 4096 /\
  (queue_pages size - 1) * 4096 < used + used_bytes size.
Proof.
  intros Hs. cbv zeta. unfold used_offset, queue_pages, used_offset, descriptor_bytes, available_bytes, used_bytes, sizeof_Descriptor, sizeof_UsedElement.
  rewrite !(u64_small (16 * size)), !(u64_small (2 * (3 + size))), !(u64_small (16 * size + 2 * (3 + size))), !(u64_small (2 * 3 + 8 * size)) by lia.
  destruct (align_up_4096 (16 * size + 2 * (3 + size))) as [H1 H2]; [lia|]. destruct (align_up_4096 (2 * 3 + 8 * size)) as [H3 H4]; [lia|].
  set (a := align_up (16 * size + 2 * (3 + size)) 4096) in *. set (b := align_up (2 * 3 + 8 * size) 4096) in *.
  rewrite (u64_small (a + b)) by lia. split_and!; try lia; dlia.
Qed.

Lemma queue_layout_witness : queue_pages 256 = 3 /\ used_offset 256 mod 4096 = 0.
Proof. split; [reflexivity|]. apply (queue_layout 256). lia. Defined.

(** The queue is as large as its tables. *)
Definition ready (q : Queue) : Prop :=
  3 <= size_ q < 2 ^ 16 /\ 0 <= next_descriptor_ q < size_ q /\ 0 <= available_index q < 2 ^ 16 /\
  length (descriptors_ q) = Z.to_nat (size_ q) /\ length (ring q) = Z.to_nat (size_ q).

(** The chain a device follows from a descriptor on: through [next] as long as the
    flags say there is one. *)
Fixpoint chain (n : nat) (ds : list Descriptor) (i : Z) : option (list Descriptor) :=
  match n with
  | O => None
  | S n =>
    d ← ds !! Z.to_nat i;
    if Z.testbit (flags d) 0 then rest ← chain n ds (next d); Some (d :: rest) else Some [d]
  end.

(** C39: submitting a request puts one entry into the ring, at the place the device looks
    at next; from it the device finds exactly three buffers, the request header, the
    payload it may only read for a write and write for a read, and the status byte it
    may write; three different descriptors carry them, no other one is touched; the
    request succeeds exactly if the device answered in time with status 0, the counters
    stay in range, and the header's page is given back on every path. *)
Theorem request_published fuel header_frame payload used expired status type sector length write q answer :
  ready q -> header_frame <> 0 -> 0 <= header_frame < 2 ^ 63 -> 0 <= length < 2 ^ 32 ->
  poll fuel 0 used expired (last_used_ q) = Some answer ->
  exists q' effects,
    submit fuel header_frame payload used expired status type sector length write q = Some (match answer with Some _ => status =? 0 | None => false end, q', effects) /\
    ready q' /\ available_index q' = u16 (available_index q + 1) /\
    ring q' !! Z.to_nat (available_index q mod size_ q) = Some (next_descriptor_ q) /\
    chain 4 (descriptors_ q') (next_descriptor_ q) = Some [
      mkDescriptor header_frame 16 1 ((next_descriptor_ q + 1) mod size_ q);
      mkDescriptor payload length (if write then 1 else 3) ((next_descriptor_ q + 2) mod size_ q);
      mkDescriptor (header_frame + 256) 1 2 0] /\
    (forall i, (i <> Z.to_nat (next_descriptor_ q) /\ i <> Z.to_nat ((next_descriptor_ q + 1) mod size_ q) /\ i <> Z.to_nat ((next_descriptor_ q + 2) mod size_ q))%nat ->
       descriptors_ q' !! i = descriptors_ q !! i) /\
    Header header_frame type sector ∈ effects /\ FreePages header_frame 1 ∈ effects.
Proof.
  intros (Hs & Hn & Ha & Hd & Hr) Hh Hh' Hl Hp. unfold submit. rewrite (proj2 (Z.ltb_ge _ _)), (proj2 (Z.eqb_neq _ _)) by (done || lia).
  set (f := next_descriptor_ q) in *. set (sz := size_ q) in *.
  assert (0 <= (f + 1) mod sz < sz /\ 0 <= (f + 2) mod sz < sz /\ 0 <= (f + 3) mod sz < sz) as (B1 & B2 & B3) by (split_and!; apply Z.mod_pos_bound; lia).
  assert ((f + 1) mod sz <> f /\ (f + 2) mod sz <> f /\ (f + 1) mod sz <> (f + 2) mod sz) as (D1 & D2 & D3).
  { assert (forall k, 0 < k < sz -> (f + k) mod sz = if f + k <? sz then f + k else f + k - sz) as Hmod.
    { intros k Hk. destruct (Z.ltb_spec (f + k) sz); [apply Z.mod_small; lia|].
      replace (f + k) with (f + k - sz + 1 * sz) at 1 by lia. rewrite Z_mod_plus_full. apply Z.mod_small. lia. }
    rewrite !Hmod by lia. destruct (Z.ltb_spec (f + 1) sz), (Z.ltb_spec (f + 2) sz); lia. }
  set (q1 := publish header_frame payload length write q).
  change (last_used_ q1) with (last_used_ q). rewrite Hp. cbn [mbind option_bind].
  assert (exists q', (match answer with
      | None => Some (false, q1, [Header header_frame type sector; Status header_frame; Outw (u16 (port_ q1 + reg_queue_notify)) (index_ q1); FreePages header_frame 1])
      | Some last => Some (status =? 0, mkQueue (port_ q1) (index_ q1) (size_ q1) (next_descriptor_ q1) last (frames_ q1) (pages_ q1) (descriptors_ q1) (ring q1) (available_index q1),
         [Header header_frame type sector; Status header_frame; Outw (u16 (port_ q1 + reg_queue_notify)) (index_ q1); FreePages header_frame 1]) end) =
      Some (match answer with Some _ => status =? 0 | None => false end, q', [Header header_frame type sector; Status header_frame; Outw (u16 (port_ q1 + reg_queue_notify)) (index_ q1); FreePages header_frame 1]) /\
      size_ q' = size_ q1 /\ next_descriptor_ q' = next_descriptor_ q1 /\ descriptors_ q' = descriptors_ q1 /\ ring q' = ring q1 /\ available_index q' = available_index q1)
    as (q' & -> & Q1 & Q2 & Q3 & Q4 & Q5).
  { destruct answer; eexists; by split_and!. }
  exists q', [Header header_frame type sector; Status header_frame; Outw (u16 (port_ q1 + reg_queue_notify)) (index_ q1); FreePages header_frame 1].
  split; [done|]. unfold ready. rewrite Q1, Q2, Q3, Q4, Q5. subst q1. cbn. fold f sz.
  rewrite !(u16_small (_ mod sz)) by lia. rewrite (u32_small length), (u64_small (header_frame + 256)) by lia.
  split_and!; try done; try lia.
  - apply wrap_range; lia.
  - apply wrap_range; lia.
  - by rewrite !length_insert.
  - by rewrite length_insert.
  - apply list_lookup_insert_eq. rewrite Hr. pose proof (Z.mod_pos_bound (available_index q) sz). lia.
  - cbn [chain]. rewrite (list_lookup_insert_ne _ (Z.to_nat ((f + 2) mod sz))), (list_lookup_insert_ne _ (Z.to_nat ((f + 1) mod sz))), list_lookup_insert_eq by lia.
    cbn. rewrite (list_lookup_insert_ne _ (Z.to_nat ((f + 2) mod sz))), list_lookup_insert_eq by (rewrite ?length_insert; lia).
    cbn. destruct write; cbn; rewrite list_lookup_insert_eq by (rewrite !length_insert; lia); done.
  - intros i (I1 & I2 & I3). by rewrite !list_lookup_insert_ne by done.
  - left.
  - do 3 right. left.
Qed.

(** The deadline bounds the wait. *)
Lemma poll_returns used expired last_used : forall fuel n m, (n <= m < n + fuel)%nat -> expired m = true -> exists answer, poll fuel n used expired last_used = Some answer.
Proof.
  induction fuel as [|fuel IH]; intros n m Hm He; [lia|]. cbn [poll]. destruct (used n =? last_used); [|eauto].
  destruct (expired n) eqn:En; [eauto|]. apply (IH (n + 1)%nat m); [|done]. assert (n <> m) by congruence. lia.
Qed.

Definition demo_queue : Queue := mkQueue 0xC000 0 4 3 7 0x100000 2 (replicate 4 (mkDescriptor 0 0 0 0)) (replicate 4 0) 65535.

Lemma request_published_witness :
  exists q' effects, submit 5 0x200000 0x300000 (fun n => if (n <? 2)%nat then 7 else 8) (fun _ => false) 0 request_in 9 512 false demo_queue = Some (true, q', effects) /\
    chain 4 (descriptors_ q') 3 = Some [mkDescriptor 0x200000 16 1 0; mkDescriptor 0x300000 512 3 1; mkDescriptor 0x200100 1 2 0].
Proof.
  destruct (request_published 5 0x200000 0x300000 (fun n => if (n <? 2)%nat then 7 else 8) (fun _ => false) 0 request_in 9 512 false demo_queue (Some 8))
    as (q' & effects & E & _ & _ & _ & Hc & _).
  - split_and!; cbn; lia.
  - lia.
  - lia.
  - lia.
  - reflexivity.
  - exists q', effects. split; [exact E|exact Hc].
Defined.

(** A request that timed out is still in the device's hands: when the device finishes it
    later, the next request takes that for its own answer and returns without waiting. *)
Lemma late_answer_taken q1 effects1 :
  submit 3 0x200000 0x300000 (fun _ => 7) (fun n => (n =? 1)%nat) 0xFF request_in 9 512 false demo_queue = Some (false, q1, effects1) ->
  last_used_ q1 = 7 /\ poll 1 0 (fun _ => 8) (fun _ => false) (last_used_ q1) = Some (Some 8).
Proof. intros E. vm_compute in E. injection E as <- _. done. Qed.
