(* ===== verification/Block.v ===== *)
(** * Block devices (src/kernel/block/block.cpp, src/include/eris/block.hpp)

    A storage driver is the class [BlockDevice]: it moves whole sectors and may fail.
    [read_bytes] turns it into byte ranges through a page from the frame allocator;
    the registry keeps at most eight devices. *)

From S2P Require Import Prelude Interfaces.

Definition sector_size : Z := 512.

(** The virtual functions of [class BlockDevice]; [None] is a failed transfer. *)
Class BlockDevice (D : Type) := {
  bd_sector_count : D -> Z;
  bd_read : D -> Z -> Z -> option (list Z);
  bd_write : D -> Z -> list Z -> Z -> option D
}.

(** What a driver promises: a transfer that succeeds returns the device's bytes. *)
Class BlockDeviceSpec (D : Type) `{BlockDevice D} := {
  bd_byte : D -> Z -> Z;
  bd_read_spec d sector count bytes : 0 <= sector -> 0 <= count ->
    bd_read d sector count = Some bytes ->
    bytes = bd_byte d <$> seqZ (sector * sector_size) (count * sector_size)
}.

(** ** Bytes over sectors *)

Section read.
  Context {D A : Type} `{BlockDevice D} `{FrameAllocator A}.

(** The loop of [read_bytes]: whether every sector was read, and what was copied to
    the buffer.  Every turn copies at least one byte. *)
Fixpoint read_loop (fuel : nat) (d : D) (offset length : Z) (out : list Z) : option (bool * list Z) :=
  match fuel with
  | O => None
  | S fuel' =>
    if length <=? 0 then Some (true, out)
    else
      let sector := offset / sector_size in
      let inside := offset mod sector_size in
      let chunk := if length <? sector_size - inside then length else sector_size - inside in
      match bd_read d sector 1 with
      | None => Some (false, out)
      | Some bounce =>
        read_loop fuel' d (u64 (offset + chunk)) (length - chunk)
          (out ++ take (Z.to_nat chunk) (drop (Z.to_nat inside) bounce))
      end
  end.

Definition read_bytes (d : D) (offset length : Z) (a : A) : option (bool * list Z * A) :=
  let '(frame, a) := fa_alloc a in
  if frame =? 0 then Some (false, [], a)
  else
    '(ok, out) ← read_loop (S (Z.to_nat length)) d offset length [];
    Some (ok, out, fa_free a frame).

End read.

(** ** The registry *)

Definition max_devices : nat := 8.

(** [ModuleBlockDevice]: a driver that lives in a loadable module. *)
Record ModuleBlockDevice := mkModuleDevice { name_ : list Z; read_ : Z; write_ : Z; capacity_ : Z }.

(** A device pointer: one of the module devices, or an object elsewhere. *)
Inductive device := ModuleDevice (i : nat) | OtherDevice (address : Z).

#[export] Instance device_eq_dec : EqDecision device.
Proof. solve_decision. Defined.

Record registry := mkRegistry { devices : list device; module_devices : list ModuleBlockDevice }.

(** [device] is never null here: the two callers pass objects. *)
Definition block_register (d : device) (r : registry) : bool * registry :=
  if (max_devices <=? length (devices r))%nat then (false, r)
  else (true, mkRegistry (devices r ++ [d]) (module_devices r)).

Fixpoint index_of (d : device) (l : list device) : option nat :=
  match l with
  | [] => None
  | x :: l' => if negb (bool_decide (x = d)) then S <$> index_of d l' else Some O
  end.

Definition block_unregister (d : device) (r : registry) : registry :=
  match index_of d (devices r) with
  | None => r
  | Some i => mkRegistry (remove_at i (devices r)) (module_devices r)
  end.

Definition block_device_count (r : registry) : nat := length (devices r).
Definition block_device_at (index : nat) (r : registry) : option device := devices r !! index.

(** [names] are the names of the devices that are not module devices. *)
Definition name_of (names : Z -> list Z) (r : registry) (d : device) : option (list Z) :=
  match d with
  | ModuleDevice i => name_ <$> module_devices r !! i
  | OtherDevice a => Some (names a)
  end.

Fixpoint find_loop (names : Z -> list Z) (r : registry) (wanted : list Z) (l : list device) : option device :=
  match l with
  | [] => None
  | d :: l' =>
    if bool_decide (name_of names r d = Some wanted) then Some d else find_loop names r wanted l'
  end.

Definition block_device_find (names : Z -> list Z) (wanted : list Z) (r : registry) : option device :=
  find_loop names r wanted (devices r).

(** The first 15 bytes of the name fit. *)
Definition bind (name : list Z) (read write capacity : Z) : ModuleBlockDevice :=
  mkModuleDevice (take 15 name) read write capacity.

(** [lookup] is [symbol_lookup], [capacity] what calling the capacity function at an
    address returns. *)
Definition block_register_module (lookup : list Z -> Z) (capacity : Z -> Z)
    (name read_symbol write_symbol capacity_symbol : list Z) (r : registry) : bool * registry :=
  if (max_devices <=? length (module_devices r))%nat then (false, r)
  else
    let read := lookup read_symbol in
    let write := lookup write_symbol in
    let cap := lookup capacity_symbol in
    if (read =? 0) || (cap =? 0) || (capacity cap =? 0) then (false, r)
    else
      let d := ModuleDevice (length (module_devices r)) in
      block_register d (mkRegistry (devices r) (module_devices r ++ [bind name read write cap])).

(** ** Properties *)

Section read_proofs.
  Context {D A : Type} `{BlockDeviceSpec D} `{FrameAllocator A}.

(** The device's bytes from an offset. *)
Definition content (d : D) (offset length : Z) : list Z := bd_byte d <$> seqZ offset length.

Lemma content_app d o n m : 0 <= n -> 0 <= m -> content d o (n + m) = content d o n ++ content d (o + n) m.
Proof. intros. unfold content. by rewrite seqZ_app, fmap_app. Qed.

Lemma content_length d o n : 0 <= n -> Z.of_nat (length (content d o n)) = n.
Proof. intros. unfold content. rewrite length_fmap, length_seqZ. lia. Qed.

Lemma content_slice d o n i c : 0 <= i -> 0 <= c -> i + c <= n ->
  take (Z.to_nat c) (drop (Z.to_nat i) (content d o n)) = content d (o + i) c.
Proof.
  intros. replace n with (i + (c + (n - i - c))) by lia. rewrite !content_app by lia.
  rewrite drop_app_length' by (pose proof (content_length d o i ltac:(lia)); lia).
  apply take_app_length'. pose proof (content_length d (o + i) c ltac:(lia)). lia.
Qed.

Lemma read_loop_spec fuel d offset len out :
  0 <= offset -> 0 <= len -> offset + len < 2 ^ 64 -> (Z.to_nat len < fuel)%nat ->
  exists ok n, read_loop fuel d offset len out = Some (ok, out ++ content d offset n) /\ 0 <= n <= len /\
    (ok = true -> n = len) /\
    (ok = false -> n < len /\ bd_read d ((offset + n) / sector_size) 1 = None).
Proof.
  revert offset len out. induction fuel as [|fuel IH]; intros offset len out Ho Hl Hfit Hf; [lia|].
  cbn [read_loop]. destruct (Z.leb_spec len 0) as [Hz|Hz].
  { assert (len = 0) as -> by lia. exists true, 0. unfold content. rewrite seqZ_nil by lia.
    rewrite app_nil_r. split_and!; [done|lia|lia|lia|done]. }
  unfold sector_size in *. set (inside := offset mod 512). assert (0 <= inside < 512) as Hin by (unfold inside; dlia).
  set (chunk := if len <? 512 - inside then len else 512 - inside). assert (0 < chunk <= len /\ inside + chunk <= 512) as [Hc1 Hc2].
  { unfold chunk. destruct (Z.ltb_spec len (512 - inside)); lia. }
  destruct (bd_read d (offset / 512) 1) as [bounce|] eqn:Er.
  2:{ exists false, 0. unfold content. rewrite seqZ_nil, app_nil_r by lia.
      split_and!; [done|lia|lia|done|]. intros _. rewrite Z.add_0_r. split; [lia|done]. }
  apply bd_read_spec in Er; [|dlia|lia]. unfold sector_size in Er. rewrite Er.
  change (bd_byte d <$> seqZ (offset / 512 * 512) (1 * 512)) with (content d (offset / 512 * 512) (1 * 512)).
  rewrite content_slice by lia.
  replace (offset / 512 * 512 + inside) with offset by (unfold inside; dlia).
  rewrite u64_small by lia.
  destruct (IH (offset + chunk) (len - chunk) (out ++ content d offset chunk)) as (ok & n & E & Hn & Hok & Hko); [lia..|].
  exists ok, (chunk + n). rewrite E, content_app, app_assoc by lia.
  split_and!; [done|lia|lia|intros ?; specialize (Hok ltac:(done)); lia|].
  intros ?. destruct (Hko ltac:(done)) as [? ?]. rewrite Z.add_assoc. split; [lia|done].
Qed.

(** Reads at any offset are exact: [read_bytes] returns; it succeeds with exactly the
    device's bytes of the range when the page and every sector of it are there, and
    otherwise fails with a prefix of them in the buffer, the sector after it being the
    one that could not be read. *)
Theorem read_bytes_correct d offset len a :
  0 <= offset -> 0 <= len -> offset + len < 2 ^ 64 ->
  exists ok out a', read_bytes d offset len a = Some (ok, out, a') /\
    out = content d offset (Z.of_nat (length out)) /\
    (ok = true -> out = content d offset len) /\
    (ok = false -> (fa_alloc a).1 = 0 \/
       bd_read d ((offset + Z.of_nat (length out)) / sector_size) 1 = None).
Proof.
  intros Ho Hl Hfit. unfold read_bytes. destruct (fa_alloc a) as [frame a1].
  destruct (Z.eqb_spec frame 0) as [E|E].
  { exists false, [], a1. split_and!; [done|done|done|]. intros _. by left. }
  destruct (read_loop_spec (S (Z.to_nat len)) d offset len [] Ho Hl Hfit ltac:(lia)) as (ok & n & -> & Hn & Hok & Hko).
  cbn [mbind option_bind app]. exists ok, (content d offset n), (fa_free a1 frame).
  rewrite content_length by lia. split_and!; [done|done| |].
  - intros Ht. by rewrite (Hok Ht).
  - intros Hb. right. by destruct (Hko Hb).
Qed.

End read_proofs.

(** A two-sector disk whose second sector is unreadable. *)
Definition tiny_read (_ : unit) (sector count : Z) : option (list Z) :=
  if (0 <=? sector) && (sector + count <=? 1) then Some ((fun o => o mod 256) <$> seqZ (sector * 512) (count * 512)) else None.

#[local] Instance tiny_disk : BlockDevice unit :=
  {| bd_sector_count := fun _ => 2; bd_read := tiny_read; bd_write := fun _ _ _ _ => None |}.

#[local] Instance tiny_disk_spec : BlockDeviceSpec unit.
Proof.
  refine {| bd_byte := fun _ o => o mod 256 |}. intros d sector count bytes _ _ E.
  cbn in E. unfold tiny_read in E. destruct (_ && _); [|discriminate E]. by injection E as <-.
Defined.

#[local] Instance tiny_frames : FrameAllocator nat :=
  {| fa_alloc n := match n with O => (0, O) | S n' => (4096, n') end;
     fa_free n _ := S n; fa_owned _ _ := True |}.

Lemma read_bytes_correct_witness :
  exists ok out a', read_bytes (D:=unit) (A:=nat) tt 500 20 1%nat = Some (ok, out, a') /\
    out = content tt 500 (Z.of_nat (length out)).
Proof.
  destruct (read_bytes_correct (D:=unit) (A:=nat) tt 500 20 1%nat) as (ok & out & a' & H1 & H2 & _); [lia..|].
  exists ok, out, a'. done.
Defined.

Lemma index_of_spec d l : match index_of d l with
  | Some i => l !! i = Some d
  | None => d ∉ l
  end.
Proof.
  induction l as [|x l IH]; cbn [index_of]; [apply not_elem_of_nil|].
  case_bool_decide as E; cbn [negb]; [by subst|].
  destruct (index_of d l) as [i|]; cbn; [done|]. rewrite elem_of_cons. intros [?|?]; [by subst|done].
Qed.

(** Reachable registries. *)
Inductive registry_step : registry -> registry -> Prop :=
  | rs_register d r : d ∉ devices r -> (forall i, d <> ModuleDevice i) -> registry_step r (block_register d r).2
  | rs_unregister d r : registry_step r (block_unregister d r)
  | rs_module lookup cap name rs wr cs r : registry_step r (block_register_module lookup cap name rs wr cs r).2.

Inductive registry_reachable : registry -> Prop :=
  | rr_init : registry_reachable (mkRegistry [] [])
  | rr_step r r' : registry_reachable r -> registry_step r r' -> registry_reachable r'.

Definition registry_inv (r : registry) : Prop :=
  NoDup (devices r) /\ (length (devices r) <= max_devices)%nat /\
  (length (module_devices r) <= max_devices)%nat /\
  (forall i, ModuleDevice i ∈ devices r -> exists m, module_devices r !! i = Some m /\ read_ m <> 0 /\ capacity_ m <> 0).

Lemma register_inv_new d r mods :
  registry_inv r -> (length mods <= max_devices)%nat -> d ∉ devices r ->
  (forall i, ModuleDevice i ∈ d :: devices r -> exists m, mods !! i = Some m /\ read_ m <> 0 /\ capacity_ m <> 0) ->
  registry_inv (block_register d (mkRegistry (devices r) mods)).2.
Proof.
  intros (H1 & H2 & H3 & H4) Hm Hd Hall. unfold block_register. cbn [devices module_devices].
  destruct (Nat.leb_spec max_devices (length (devices r))) as [Hle|Hlt]; cbn [snd].
  - split_and!; [done|done|done|]. intros i Hi. apply Hall. by right.
  - split_and!; cbn [devices module_devices]; [|rewrite length_app; cbn; lia|done|].
    + apply NoDup_app. split_and!; [done| |apply NoDup_singleton]. intros y Hy ->%list_elem_of_singleton. done.
    + intros i Hi. apply Hall. apply elem_of_app in Hi as [Hi|Hi%list_elem_of_singleton]; [by right|subst; by left].
Qed.

Lemma registry_step_inv r r' : registry_inv r -> registry_step r r' -> registry_inv r'.
Proof.
  intros Hi Hs. destruct Hs as [d r Hd Hn|d r|lookup cap name rs wr cs r].
  - destruct Hi as (H1 & H2 & H3 & H4).
    replace (block_register d r) with (block_register d (mkRegistry (devices r) (module_devices r))) by (by destruct r).
    apply register_inv_new; [by split_and!|done|done|]. intros i [E|Hin]%elem_of_cons; [by destruct (Hn i)|by apply H4].
  - destruct Hi as (H1 & H2 & H3 & H4). unfold block_unregister. pose proof (index_of_spec d (devices r)) as Hx.
    destruct (index_of d (devices r)) as [i|]; [|by split_and!].
    pose proof (remove_at_perm i _ d Hx) as Hp. pose proof (remove_at_length i _ d Hx) as Hl.
    split_and!; cbn [devices module_devices]; [|lia|done|].
    + rewrite <- Hp in H1. by apply NoDup_cons in H1 as [_ ?].
    + intros j Hj. apply H4. rewrite <- Hp. by right.
  - unfold block_register_module. destruct (Nat.leb_spec max_devices (length (module_devices r))) as [|Hlt]; [done|].
    destruct ((lookup rs =? 0) || (lookup cs =? 0) || (cap (lookup cs) =? 0)) eqn:E; [done|].
    apply orb_false_iff in E as [E _]. apply orb_false_iff in E as [E1 E2]. apply Z.eqb_neq in E1, E2.
    destruct Hi as (H1 & H2 & H3 & H4).
    assert (ModuleDevice (length (module_devices r)) ∉ devices r) as Hnew.
    { intros Hin. destruct (H4 _ Hin) as (m & Hm & _). apply lookup_lt_Some in Hm. lia. }
    apply register_inv_new; [by split_and!|rewrite length_app; cbn; lia|done|].
    intros i [Ei|Hin]%elem_of_cons.
    + injection Ei as ->. eexists. rewrite lookup_app_r, Nat.sub_diag by lia. done.
    + destruct (H4 _ Hin) as (m & Hm & ?). exists m. split; [|done]. by apply lookup_app_l_Some.
Qed.

(** The registry stays sound: however devices come and go it holds at most eight,
    none twice, and every module device it lists is bound to a read and a capacity
    function, so a client never calls through null. *)
Theorem block_registry_sound r : registry_reachable r -> registry_inv r.
Proof.
  induction 1 as [|r r' Hr IH Hs]; [|by eapply registry_step_inv].
  split_and!; cbn; [constructor|lia|lia|]. intros i Hi. by apply elem_of_nil in Hi.
Qed.

Lemma block_registry_sound_witness :
  registry_inv (block_register_module (fun _ => 5) (fun _ => 100) [118] [1] [2] [3] (mkRegistry [] [])).2.
Proof. apply block_registry_sound. eapply rr_step; [apply rr_init|apply rs_module]. Defined.
