(* ===== verification/Vfs.v ===== *)
(** * The virtual file system (src/kernel/fs/vfs.cpp, src/include/eris/vfs.hpp)

    [FileSystems] is the interface the VFS walks: the virtual functions of [Inode] and
    [FileSystem], on nodes [N] of file systems [F] with state [S]; [None] outside a
    result is a fault.  Paths are the bytes of a C string without its terminator, 47
    is the slash.  The mount table holds at most eight mounts; its operations run
    under [mount_lock]. *)

From S2P Require Import Prelude.

Inductive NodeType := File | Directory | Device.

#[export] Instance NodeType_eq_dec : EqDecision NodeType.
Proof. solve_decision. Defined.

(** [node_read] gives the result and the bytes stored in the buffer. *)
Class FileSystems (S N F : Type) := {
  fs_name : F -> list Z;
  fs_root : F -> S -> option (option N * S);
  node_type : N -> S -> NodeType;
  node_size : N -> S -> Z;
  node_read : N -> Z -> Z -> S -> option (Z * list Z * S);
  node_write : N -> Z -> list Z -> S -> option (Z * S);
  node_lookup : N -> list Z -> S -> option (option N * S);
  node_entry_at : N -> Z -> S -> option (option (list Z) * S)
}.

Record Stat := mkStat { stat_type : NodeType; stat_size : Z }.

Definition max_mounts : nat := 8.
Definition max_path : nat := 128.

Record Mount (F : Type) := mkMount { path : list Z; filesystem : F }.
Arguments mkMount {F}.
Arguments path {F}.
Arguments filesystem {F}.

(** [p[i]], the terminator past the end. *)
Definition at_ (p : list Z) (i : nat) : Z := nth i p 0.

Fixpoint strip (n : nat) (p : list Z) : nat :=
  match n with
  | S (S _ as n') => if at_ p n' =? 47 then strip n' p else n
  | _ => n
  end.

(** The length without trailing slashes, the root's own kept. *)
Definition path_length (p : list Z) : nat := strip (length p) p.

(** [memcmp(a, b, n) == 0], which stops at the first difference. *)
Fixpoint same_bytes (n : nat) (i : nat) (a b : list Z) : bool :=
  match n with
  | O => true
  | S n' => if at_ a i =? at_ b i then same_bytes n' (S i) a b else false
  end.

(** Whether the loop of [mount_for] considers a mount. *)
Definition covers {F} (p : list Z) (m : Mount F) : bool :=
  let n := path_length (path m) in
  same_bytes n 0 p (path m) &&
  negb ((1 <? n)%nat && negb (at_ p n =? 0) && negb (at_ p n =? 47)).

Fixpoint mount_loop {F} (p : list Z) (ms : list (Mount F)) (best : option (Mount F)) : option (Mount F) :=
  match ms with
  | [] => best
  | m :: ms' =>
    mount_loop p ms'
      (if covers p m then
         match best with
         | None => Some m
         | Some b => if (path_length (path b) <? path_length (path m))%nat then Some m else best
         end
       else best)
  end.

(** The mount and the rest of the path. *)
Definition mount_for {F} (ms : list (Mount F)) (p : list Z) : option (Mount F * list Z) :=
  m ← mount_loop p ms None;
  let n := path_length (path m) in
  Some (m, drop (if (1 <? n)%nat then n else 0%nat) p).

Definition init {F} (_ : list (Mount F)) : list (Mount F) := [].

(** A null path or file system is refused; 0 for success, -1 otherwise. *)
Definition mount {F} (p : option (list Z)) (f : option F) (ms : list (Mount F)) : Z * list (Mount F) :=
  match p, f with
  | Some p, Some f =>
    if negb (at_ p 0 =? 47) then (-1, ms)
    else if (max_mounts <=? length ms)%nat then (-1, ms)
    else (0, ms ++ [mkMount (take (max_path - 1) p) f])
  | _, _ => (-1, ms)
  end.

Fixpoint find_mount {F} (p : list Z) (ms : list (Mount F)) : option nat :=
  match ms with
  | [] => None
  | m :: ms' => if bool_decide (path m = p) then Some O else S <$> find_mount p ms'
  end.

Definition unmount {F} (p : list Z) (ms : list (Mount F)) : Z * list (Mount F) :=
  match find_mount p ms with
  | None => (-1, ms)
  | Some i => (0, remove_at i ms)
  end.

Definition mount_count {F} (ms : list (Mount F)) : nat := length ms.

Fixpoint skip_slashes (l : list Z) : list Z :=
  match l with c :: l' => if c =? 47 then skip_slashes l' else l | [] => [] end.

(** Up to [room] bytes before the next slash, and what follows them. *)
Fixpoint take_component (room : nat) (l : list Z) : list Z * list Z :=
  match room, l with
  | S room', c :: l' =>
    if c =? 47 then ([], l)
    else let '(a, b) := take_component room' l' in (c :: a, b)
  | _, _ => ([], l)
  end.

Section walk.
  Context {S N F : Type} `{FileSystems S N F}.

Definition mount_at (index : nat) (ms : list (Mount F)) : option (list Z * list Z) :=
  m ← ms !! index; Some (path m, fs_name (filesystem m)).

(** The loop of [resolve]; every turn uses at least one byte of the path. *)
Fixpoint walk (fuel : nat) (node : N) (rest : list Z) (s : S) : option (option N * S) :=
  match fuel with
  | O => None
  | Datatypes.S fuel' =>
    match skip_slashes rest with
    | [] => Some (Some node, s)
    | rest =>
      let '(component, rest) := take_component 63 rest in
      '(r, s) ← node_lookup node component s;
      match r with
      | None => Some (None, s)
      | Some node => walk fuel' node rest s
      end
    end
  end.

Definition resolve (ms : list (Mount F)) (p : option (list Z)) (s : S) : option (option N * S) :=
  match p with
  | None => Some (None, s)
  | Some p =>
    if negb (at_ p 0 =? 47) then Some (None, s)
    else
      match mount_for ms p with
      | None => Some (None, s)
      | Some (m, rest) =>
        '(r, s) ← fs_root (filesystem m) s;
        match r with
        | None => Some (None, s)
        | Some node => walk (Datatypes.S (length rest)) node rest s
        end
      end
  end.

Definition stat (ms : list (Mount F)) (p : option (list Z)) (s : S) : option (option Stat * S) :=
  '(r, s) ← resolve ms p s;
  match r with
  | None => Some (None, s)
  | Some node => Some (Some (mkStat (node_type node s) (node_size node s)), s)
  end.

Definition read_file (ms : list (Mount F)) (p : option (list Z)) (len : Z) (s : S) : option (Z * list Z * S) :=
  '(r, s) ← resolve ms p s;
  match r with
  | None => Some (-1, [], s)
  | Some node =>
    if bool_decide (node_type node s = Directory) then Some (-1, [], s) else node_read node 0 len s
  end.

Definition write_file (ms : list (Mount F)) (p : option (list Z)) (buffer : list Z) (s : S) : option (Z * S) :=
  '(r, s) ← resolve ms p s;
  match r with
  | None => Some (-1, s)
  | Some node =>
    if bool_decide (node_type node s = Directory) then Some (-1, s) else node_write node 0 buffer s
  end.

Definition list_ (ms : list (Mount F)) (p : option (list Z)) (index : Z) (s : S) : option (option (list Z) * S) :=
  '(r, s) ← resolve ms p s;
  match r with
  | None => Some (None, s)
  | Some node =>
    if negb (bool_decide (node_type node s = Directory)) then Some (None, s) else node_entry_at node index s
  end.

End walk.

(** ** Mounts *)

Lemma same_bytes_spec n i a b : same_bytes n i a b = true <->
  forall j, (i <= j < i + n)%nat -> at_ a j = at_ b j.
Proof.
  revert i. induction n as [|n IH]; intros i; cbn [same_bytes]; [split; [lia|done]|].
  destruct (Z.eqb_spec (at_ a i) (at_ b i)) as [E|E].
  - rewrite IH. split; intros Hj j ?; [destruct (decide (j = i)) as [->|]; [done|]; apply Hj; lia|apply Hj; lia].
  - split; [done|]. intros Hj. exfalso. apply E, Hj. lia.
Qed.

(** The mount's path, less trailing slashes, is a prefix that ends at a component. *)
Definition under {F} (p : list Z) (m : Mount F) : Prop :=
  let n := path_length (path m) in
  (forall j, (j < n)%nat -> at_ p j = at_ (path m) j) /\ ((n <= 1)%nat \/ at_ p n = 0 \/ at_ p n = 47).

Lemma covers_spec {F} p (m : Mount F) : covers p m = true <-> under p m.
Proof.
  unfold covers, under. rewrite andb_true_iff, same_bytes_spec, negb_true_iff.
  assert (forall n, ((1 <? n)%nat && negb (at_ p n =? 0) && negb (at_ p n =? 47) = false) <->
    (n <= 1)%nat \/ at_ p n = 0 \/ at_ p n = 47) as ->.
  { intros n. destruct (Nat.ltb_spec 1 n), (Z.eqb_spec (at_ p n) 0), (Z.eqb_spec (at_ p n) 47); cbn; split; try lia; done || tauto || lia. }
  split; intros [H1 H2]; (split; [|done]); intros j Hj; apply H1; lia.
Qed.

Lemma mount_loop_spec {F} p (ms : list (Mount F)) best :
  match mount_loop p ms best with
  | None => best = None /\ forall m, m ∈ ms -> ~ under p m
  | Some b => (best = Some b \/ b ∈ ms /\ under p b) /\
      (forall m, m ∈ ms -> under p m -> (path_length (path m) <= path_length (path b))%nat) /\
      (forall m, best = Some m -> (path_length (path m) <= path_length (path b))%nat)
  end.
Proof.
  revert best. induction ms as [|m ms IH]; intros best; cbn [mount_loop].
  { destruct best as [b|]; [|split; [done|]; intros m Hm; by apply elem_of_nil in Hm].
    split_and!; [by left|intros m Hm; by apply elem_of_nil in Hm|]. intros m [= ->]. lia. }
  specialize (IH (if covers p m then match best with
    | None => Some m
    | Some b => if (path_length (path b) <? path_length (path m))%nat then Some m else best end else best)).
  destruct (mount_loop p ms _) as [b|].
  - destruct IH as (H1 & H2 & H3). destruct (covers p m) eqn:Ec.
    + apply covers_spec in Ec. destruct best as [b0|].
      * destruct (Nat.ltb_spec (path_length (path b0)) (path_length (path m))) as [Hl|Hl].
        -- specialize (H3 m eq_refl). split_and!.
           ++ right. destruct H1 as [[= <-]|[? ?]]; split; try done; [by left|by right].
           ++ intros x [->|Hx]%elem_of_cons Hu; [done|by apply H2].
           ++ intros x [= <-]. lia.
        -- specialize (H3 b0 eq_refl). split_and!.
           ++ destruct H1 as [H1|[? ?]]; [by left|right; split; [by right|done]].
           ++ intros x [->|Hx]%elem_of_cons Hu; [lia|by apply H2].
           ++ intros x [= <-]. lia.
      * specialize (H3 m eq_refl). split_and!; [|intros x [->|Hx]%elem_of_cons Hu; [done|by apply H2]|done].
        right. destruct H1 as [[= <-]|[? ?]]; split; try done; [by left|by right].
    + assert (~ under p m) as Hn by (rewrite <- covers_spec, Ec; done). split_and!; [| |done].
      * destruct H1 as [H1|[? ?]]; [by left|right; split; [by right|done]].
      * intros x [->|Hx]%elem_of_cons Hu; [done|by apply H2].
  - destruct IH as [H1 H2]. destruct (covers p m) eqn:Ec.
    + destruct best as [b0|]; [|done]. destruct (_ <? _)%nat; done.
    + split; [done|]. intros x [->|Hx]%elem_of_cons; [by rewrite <- covers_spec, Ec|by apply H2].
Qed.

(** The deepest mount wins: [mount_for] picks, among the mounts whose path is a prefix
    ending at a component boundary, one with the longest path, and finds none exactly
    when no mount qualifies; the rest of the path is what follows that prefix. *)
Theorem mount_for_longest {F} (ms : list (Mount F)) p :
  match mount_for ms p with
  | None => forall m, m ∈ ms -> ~ under p m
  | Some (m, rest) => m ∈ ms /\ under p m /\
      (forall m', m' ∈ ms -> under p m' -> (path_length (path m') <= path_length (path m))%nat) /\
      rest = drop (if (1 <? path_length (path m))%nat then path_length (path m) else 0%nat) p
  end.
Proof.
  unfold mount_for. pose proof (mount_loop_spec p ms None) as Hs. destruct (mount_loop p ms None) as [b|]; cbn.
  - destruct Hs as ([?|[H1 H2]] & H3 & _); [done|]. by split_and!.
  - by destruct Hs.
Qed.

(** ** Walking a path *)

(** The components of a path: the maximal runs of bytes that are not slashes. *)
Fixpoint components (l : list Z) (current : list Z) : list (list Z) :=
  match l with
  | [] => if decide (current = []) then [] else [current]
  | c :: l' =>
    if c =? 47 then (if decide (current = []) then [] else [current]) ++ components l' []
    else components l' (current ++ [c])
  end.

Lemma components_skip l : components (skip_slashes l) [] = components l [].
Proof. induction l as [|c l IH]; cbn; [done|]. destruct (c =? 47) eqn:E; cbn; [exact IH|]. by rewrite E. Qed.

Lemma take_component_spec room l a b : take_component room l = (a, b) ->
  l = a ++ b /\ Forall (fun c => c <> 47) a /\ (length a <= room)%nat /\
  (length a = room \/ b = [] \/ exists b', b = 47 :: b').
Proof.
  revert l a b. induction room as [|room IH]; intros l a b E; cbn in E.
  { destruct l; injection E as <- <-; split_and!; try done; by left. }
  destruct l as [|c l]; [injection E as <- <-; split_and!; try done; [cbn; lia|by right; left]|].
  destruct (Z.eqb_spec c 47) as [->|Hc].
  - injection E as <- <-. split_and!; try done; [cbn; lia|]. right. right. by eexists.
  - destruct (take_component room l) as [a' b'] eqn:E'. injection E as <- <-.
    destruct (IH _ _ _ E') as (-> & H1 & H2 & H3). split_and!; [done|by constructor|cbn; lia|].
    destruct H3 as [H3|H3]; [left; cbn; lia|by right].
Qed.

Lemma take_component_head room x l : x <> 47 -> exists a b, take_component (S room) (x :: l) = (x :: a, b).
Proof.
  intros Hx. cbn [take_component]. rewrite (proj2 (Z.eqb_neq x 47) Hx).
  destruct (take_component room l) as [a b]. by exists a, b.
Qed.

Lemma components_run a b cur : Forall (fun c => c <> 47) a -> components (a ++ b) cur = components b (cur ++ a).
Proof.
  intros Ha. revert cur. induction Ha as [|c a Hc Ha IH]; intros cur; cbn; [by rewrite app_nil_r|].
  rewrite (proj2 (Z.eqb_neq c 47) Hc), IH, <- app_assoc. done.
Qed.

Lemma components_cons a b : a <> [] -> Forall (fun c => c <> 47) a -> b = [] \/ (exists b', b = 47 :: b') ->
  components (a ++ b) [] = a :: components b [].
Proof.
  intros Hne Ha Hb. rewrite components_run by done. cbn [app].
  destruct Hb as [->|(b' & ->)]; cbn; rewrite decide_False by done; done.
Qed.

(** When a component is longer than the buffer, the first is at least as long. *)
Lemma component_long a b room : Forall (fun c => c <> 47) a -> length a = room -> a <> [] ->
  ~ (b = [] \/ exists b', b = 47 :: b') ->
  exists c cs, components (a ++ b) [] = c :: cs /\ (room < length c)%nat.
Proof.
  intros Ha Hl Hne Hb. rewrite components_run by done. cbn [app].
  destruct b as [|c b]; [exfalso; apply Hb; by left|].
  destruct (Z.eqb_spec c 47) as [->|Hc]; [exfalso; apply Hb; right; by eexists|].
  cbn. rewrite (proj2 (Z.eqb_neq c 47) Hc). clear Hb.
  assert (forall l cur, cur <> [] -> exists d cs, components l cur = d :: cs /\ (length cur <= length d)%nat) as Hgen.
  { induction l as [|x l IH]; intros cur Hcur; cbn; [rewrite decide_False by done; by eauto|].
    destruct (x =? 47); [rewrite decide_False by done; cbn; by eauto|].
    destruct (IH (cur ++ [x])) as (d & cs & E & Hd); [by destruct cur|]. rewrite length_app in Hd. cbn in Hd.
    exists d, cs. split; [done|lia]. }
  destruct (Hgen b (a ++ [c])) as (d & cs & E & Hd); [by destruct a|]. rewrite length_app in Hd. cbn in Hd.
  exists d, cs. split; [done|lia].
Qed.

Section walk_proofs.
  Context {S N F : Type} `{FileSystems S N F}.

(** Looking up one component after another, stopping at the first that is missing. *)
Fixpoint lookup_all (node : N) (cs : list (list Z)) (s : S) : option (option N * S) :=
  match cs with
  | [] => Some (Some node, s)
  | c :: cs' =>
    '(r, s) ← node_lookup node c s;
    match r with None => Some (None, s) | Some node => lookup_all node cs' s end
  end.

Lemma skip_slashes_head l x l' : skip_slashes l = x :: l' -> x <> 47.
Proof.
  induction l as [|c l IH]; cbn; intros E; [discriminate E|].
  destruct (Z.eqb_spec c 47) as [|Hc]; [by apply IH|]. injection E as -> _. exact Hc.
Qed.

Lemma skip_slashes_length l : (length (skip_slashes l) <= length l)%nat.
Proof. induction l as [|c l IH]; cbn; [lia|]. destruct (c =? 47); cbn; lia. Qed.

Lemma walk_spec fuel node rest s :
  (length rest < fuel)%nat -> Forall (fun c => (length c <= 63)%nat) (components rest []) ->
  walk fuel node rest s = lookup_all node (components rest []) s.
Proof.
  revert node rest s. induction fuel as [|fuel IH]; intros node rest s Hf Hc; [lia|]. cbn [walk].
  pose proof (skip_slashes_length rest) as Hlen. rewrite <- components_skip in Hc |- *.
  destruct (skip_slashes rest) as [|x l] eqn:Es; [done|].
  assert (x <> 47) as Hx by (by eapply skip_slashes_head).
  destruct (take_component 63 (x :: l)) as [a b] eqn:Et. pose proof (take_component_spec _ _ _ _ Et) as (E & Ha & Hla & Hb).
  assert (a <> []) as Hne.
  { destruct (take_component_head 62 x l Hx) as (a' & b' & Et'). rewrite Et in Et'. by injection Et' as -> _. }
  assert (b = [] \/ exists b', b = 47 :: b') as Hb'.
  { destruct (decide (b = [])) as [|Hbn]; [by left|].
    destruct b as [|y b]; [done|]. destruct (decide (y = 47)) as [->|Hy]; [right; by eexists|].
    exfalso. destruct Hb as [Hb|[?|[b' Hb']]]; [|done|congruence].
    destruct (component_long a (y :: b) 63 Ha Hb Hne) as (c & cs & E' & Hl); [intros [?|[? ?]]; congruence|].
    rewrite E, E' in Hc. apply Forall_cons in Hc as [Hc _]. lia. }
  rewrite E in Hc |- *. rewrite (components_cons a b Hne Ha Hb') in Hc |- *. cbn [lookup_all].
  apply Forall_cons in Hc as [_ Hc].
  destruct (node_lookup node a s) as [[[node'|] s']|]; cbn [mbind option_bind]; [|done|done].
  apply IH; [|done]. assert (length (x :: l) = length a + length b)%nat as El by (by rewrite E, length_app).
  destruct a; [done|]. cbn [length] in *. lia.
Qed.

(** [resolve] walks components: for an absolute path none of whose components exceeds
    the 63 bytes of the buffer, it returns what looking up the components of the rest
    one after another from the root of the deepest mount returns. *)
Theorem resolve_walks ms p s m rest :
  at_ p 0 = 47 -> mount_for ms p = Some (m, rest) ->
  Forall (fun c => (length c <= 63)%nat) (components rest []) ->
  resolve ms (Some p) s =
    ('(r, s) ← fs_root (filesystem m) s;
     match r with None => Some (None, s) | Some root => lookup_all root (components rest []) s end).
Proof.
  intros Hp Hm Hc. unfold resolve. rewrite Hp, Hm. cbn [Z.eqb Pos.eqb negb].
  destruct (fs_root (filesystem m) s) as [[[root|] s']|]; cbn [mbind option_bind]; [|done|done].
  by apply walk_spec; [lia|].
Qed.

(** [resolve] comes to an end on every path: where the file systems answer, so does it. *)
Lemma walk_total : (forall node name s, is_Some (node_lookup node name s)) ->
  forall fuel node rest s, (length rest < fuel)%nat -> is_Some (walk fuel node rest s).
Proof.
  intros Hlook. induction fuel as [|fuel IH]; intros node rest s Hf; [lia|]. cbn [walk].
  pose proof (skip_slashes_length rest) as Hlen. destruct (skip_slashes rest) as [|x l] eqn:Es; [done|].
  destruct (take_component_head 62 x l (skip_slashes_head _ _ _ Es)) as (a & b & Et). rewrite Et.
  destruct (take_component_spec _ _ _ _ Et) as [El _].
  destruct (Hlook node (x :: a) s) as [[[node'|] s'] ->]; cbn [mbind option_bind]; [|done].
  apply IH. apply (f_equal length) in El. rewrite length_app in El. cbn [length] in *. lia.
Qed.

Lemma resolve_total ms p s : (forall node name s, is_Some (node_lookup node name s)) -> (forall f s, is_Some (fs_root f s)) ->
  is_Some (resolve ms (Some p) s).
Proof.
  intros Hlook Hroot. unfold resolve. destruct (negb _); [done|]. destruct (mount_for ms p) as [[m rest]|]; [|done].
  destruct (Hroot (filesystem m) s) as [[[root|] s'] ->]; cbn [mbind option_bind]; [|done]. apply walk_total; [done|lia].
Qed.

End walk_proofs.
