(* ===== verification/Ramfs.v ===== *)
(** * The memory file system (src/kernel/fs/ramfs.cpp)

    32 file objects in one flat directory.  The data of a file is the heap block
    [data_] points to, as its bytes; [room n] tells whether [kzalloc n] succeeds.
    [None] is a store or load outside the block, or a loop out of fuel. *)

From S2P Require Import Prelude.

Definition max_nodes : nat := 32.
Definition max_name : nat := 32.

Record RamFile := mkFile { name_ : list Z; data_ : option (list Z); size_ : Z; capacity_ : Z; used_ : bool }.

Definition empty_file : RamFile := mkFile [] None 0 0 false.
Definition initial : list RamFile := replicate 32 empty_file.

(** The data and its size are left as they were. *)
Definition bind (name : list Z) (f : RamFile) : RamFile :=
  mkFile (take (max_name - 1) name) (data_ f) (size_ f) (capacity_ f) true.

(** The bytes at [data_ + offset]. *)
Definition load (f : RamFile) (offset chunk : Z) : option (list Z) :=
  d ← (match data_ f with Some d => Some d | None => Some [] end);
  if offset + chunk <=? Z.of_nat (length d)
  then Some (take (Z.to_nat chunk) (drop (Z.to_nat offset) d)) else None.

(** [memcpy(data + offset, buffer, length)]. *)
Definition store (d : list Z) (offset : Z) (buffer : list Z) : option (list Z) :=
  if offset + Z.of_nat (length buffer) <=? Z.of_nat (length d)
  then Some (take (Z.to_nat offset) d ++ buffer ++ drop (Z.to_nat offset + length buffer) d) else None.

Definition read (f : RamFile) (offset len : Z) : option (Z * list Z) :=
  if size_ f <=? offset then Some (0, [])
  else
    let available := size_ f - offset in
    let chunk := if len <? available then len else available in
    bytes ← load f offset chunk;
    Some (chunk, bytes).

(** [while (target < wanted) target *= 2;] *)
Fixpoint grow_loop (fuel : nat) (target wanted : Z) : option Z :=
  match fuel with
  | O => None
  | S fuel' => if target <? wanted then grow_loop fuel' (u64 (target * 2)) wanted else Some target
  end.

(** 64 doublings exhaust a 64-bit integer. *)
Definition grow (room : Z -> bool) (wanted : Z) (f : RamFile) : option (bool * RamFile) :=
  target ← grow_loop 65 (if capacity_ f =? 0 then 512 else capacity_ f) wanted;
  if negb (room target) then Some (false, f)
  else
    let fresh := replicate (Z.to_nat target) 0 in
    fresh ← (match data_ f with
             | Some _ => old ← load f 0 (size_ f); store fresh 0 old
             | None => Some fresh
             end);
    Some (true, mkFile (name_ f) (Some fresh) (size_ f) target (used_ f)).

Definition write (room : Z -> bool) (offset : Z) (buffer : list Z) (f : RamFile) : option (Z * RamFile) :=
  let len := Z.of_nat (length buffer) in
  '(ok, f) ← (if capacity_ f <? u64 (offset + len) then grow room (u64 (offset + len)) f else Some (true, f));
  if negb ok then Some (-1, f)
  else
    d ← store (default [] (data_ f)) offset buffer;
    let size := if size_ f <? u64 (offset + len) then u64 (offset + len) else size_ f in
    Some (len, mkFile (name_ f) (match data_ f with Some _ => Some d | None => None end) size (capacity_ f) (used_ f)).

Definition release (f : RamFile) : RamFile := mkFile (name_ f) None 0 0 false.

(** ** The directory *)

Fixpoint find (name : list Z) (files : list RamFile) : option nat :=
  match files with
  | [] => None
  | f :: files' =>
    if used_ f && bool_decide (name_ f = name) then Some O else S <$> find name files'
  end.

Definition lookup (name : list Z) (files : list RamFile) : option nat := find name files.

Fixpoint entry_at (index : Z) (files : list RamFile) : option (list Z) :=
  match files with
  | [] => None
  | f :: files' =>
    if negb (used_ f) then entry_at index files'
    else if index =? 0 then Some (name_ f) else entry_at (index - 1) files'
  end.

Fixpoint find_unused (files : list RamFile) : option nat :=
  match files with
  | [] => None
  | f :: files' => if used_ f then S <$> find_unused files' else Some O
  end.

Definition ramfs_create_file (name : list Z) (files : list RamFile) : option nat * list RamFile :=
  match find name files with
  | Some i => (Some i, files)
  | None =>
    match find_unused files with
    | Some i => (Some i, alter (bind name) i files)
    | None => (None, files)
    end
  end.

Definition ramfs_remove (name : list Z) (files : list RamFile) : bool * list RamFile :=
  match find name files with
  | None => (false, files)
  | Some i => (true, alter release i files)
  end.

(** ** File contents *)

Record wf (f : RamFile) : Prop := {
  wf_data : match data_ f with
            | Some d => Z.of_nat (length d) = capacity_ f /\ Forall (fun b => b = 0) (drop (Z.to_nat (size_ f)) d)
            | None => capacity_ f = 0
            end;
  wf_size : 0 <= size_ f <= capacity_ f;
  wf_capacity : capacity_ f = 0 \/ exists k, 9 <= k <= 63 /\ capacity_ f = 2 ^ k
}.

Definition contents (f : RamFile) : list Z := take (Z.to_nat (size_ f)) (default [] (data_ f)).

(** Byte [i] of a file, zero past the end. *)
Definition byte (f : RamFile) (i : Z) : Z := nth (Z.to_nat i) (contents f) 0.

Lemma grow_loop_spec fuel k wanted :
  9 <= k <= 63 -> 63 - k < Z.of_nat fuel -> wanted <= 2 ^ 63 ->
  exists k', k <= k' <= 63 /\ grow_loop fuel (2 ^ k) wanted = Some (2 ^ k') /\ wanted <= 2 ^ k'.
Proof.
  revert k. induction fuel as [|fuel IH]; intros k Hk Hf Hw; [lia|]. cbn [grow_loop].
  destruct (Z.ltb_spec (2 ^ k) wanted) as [Hlt|Hge]; [|exists k; split_and!; [lia..|done|lia]].
  assert (k < 63) as Hk63.
  { destruct (Z.eq_dec k 63) as [->|]; [lia|]. lia. }
  assert (u64 (2 ^ k * 2) = 2 ^ (k + 1)) as ->.
  { rewrite Z.pow_add_r by lia. apply u64_small. split; [lia|].
    change (2 ^ 1) with 2. rewrite Z.mul_comm, <- Z.pow_succ_r by lia. apply Z.pow_lt_mono_r; lia. }
  destruct (IH (k + 1)) as (k' & H1 & H2 & H3); [lia..|]. exists k'. split_and!; [lia..|done|done].
Qed.

(** Past 2^63 the doubling wraps to zero and never ends. *)
Lemma grow_loop_stuck fuel wanted : 0 < wanted -> grow_loop fuel 0 wanted = None.
Proof.
  intros Hw. induction fuel as [|fuel IH]; [done|]. cbn [grow_loop].
  rewrite (proj2 (Z.ltb_lt 0 wanted)) by done. exact IH.
Qed.

Lemma grow_loop_diverges fuel k wanted : 9 <= k <= 63 -> 2 ^ 63 < wanted -> grow_loop fuel (2 ^ k) wanted = None.
Proof.
  revert k. induction fuel as [|fuel IH]; intros k Hk Hw; [done|]. cbn [grow_loop].
  assert (2 ^ k <= 2 ^ 63) by (apply Z.pow_le_mono_r; lia). rewrite (proj2 (Z.ltb_lt (2 ^ k) wanted)) by lia.
  destruct (Z.eq_dec k 63) as [->|].
  - change (u64 (2 ^ 63 * 2)) with 0. apply grow_loop_stuck. lia.
  - assert (u64 (2 ^ k * 2) = 2 ^ (k + 1)) as ->.
    { rewrite Z.pow_add_r by lia. apply u64_small. split; [lia|].
      change (2 ^ 1) with 2. rewrite Z.mul_comm, <- Z.pow_succ_r by lia. apply Z.pow_lt_mono_r; lia. }
    apply IH; lia.
Qed.

Lemma nth_store d off buffer d' i :
  0 <= off -> store d off buffer = Some d' -> 0 <= i ->
  length d' = length d /\
  nth (Z.to_nat i) d' 0 = if decide (off <= i < off + Z.of_nat (length buffer))
                          then nth (Z.to_nat (i - off)) buffer 0 else nth (Z.to_nat i) d 0.
Proof.
  intros Ho E Hi. unfold store in E. destruct (Z.leb_spec (off + Z.of_nat (length buffer)) (Z.of_nat (length d))) as [Hl|]; [|done].
  injection E as <-. split; [rewrite !length_app, length_take, length_drop; lia|].
  rewrite !nth_lookup. case_decide as Hd.
  - rewrite lookup_app_r by (rewrite length_take; lia). rewrite length_take, lookup_app_l by lia.
    do 2 f_equal. lia.
  - destruct (decide (i < off)).
    + rewrite lookup_app_l by (rewrite length_take; lia). by rewrite lookup_take_lt by lia.
    + rewrite !lookup_app_r by (rewrite ?length_take; lia). rewrite lookup_drop, length_take. do 2 f_equal. lia.
Qed.

Lemma zero_tail d n i : Forall (fun b => b = 0) (drop n d) -> (n <= i)%nat -> nth i d 0 = 0.
Proof.
  intros H Hi. rewrite nth_lookup. destruct (d !! i) as [b|] eqn:E; [|done]. cbn.
  rewrite list.Forall_forall in H. apply H. apply (list_elem_of_lookup_2 _ (i - n)). rewrite lookup_drop.
  by replace (n + (i - n))%nat with i by lia.
Qed.

Lemma byte_data f i : wf f -> 0 <= i -> byte f i = nth (Z.to_nat i) (default [] (data_ f)) 0.
Proof.
  intros [Hd Hs _] Hi. unfold byte, contents. rewrite !nth_lookup.
  destruct (decide (i < size_ f)).
  - by rewrite lookup_take_lt by lia.
  - rewrite lookup_take_ge by lia. cbn. destruct (data_ f) as [d|]; cbn; [|done].
    destruct Hd as [_ Hz]. rewrite <- nth_lookup. symmetry. eapply zero_tail; [exact Hz|lia].
Qed.

Lemma zero_tail_intro d n : (forall i, (n <= i)%nat -> nth i d 0 = 0) -> Forall (fun b => b = 0) (drop n d).
Proof.
  intros H. rewrite list.Forall_forall. intros b Hb. apply list_elem_of_lookup in Hb as [i Hi].
  rewrite lookup_drop in Hi. specialize (H (n + i)%nat ltac:(lia)). rewrite nth_lookup, Hi in H. done.
Qed.

Lemma ram_grow_spec room wanted f :
  wf f -> capacity_ f < wanted <= 2 ^ 63 ->
  exists target, wanted <= target /\
    grow room wanted f = Some (false, f) /\ room target = false \/
    exists f', grow room wanted f = Some (true, f') /\ wf f' /\ wanted <= capacity_ f' /\
      size_ f' = size_ f /\ name_ f' = name_ f /\ used_ f' = used_ f /\
      (exists d, data_ f' = Some d) /\ forall i, 0 <= i -> byte f' i = byte f i.
Proof.
  intros Hw Hwant. pose proof Hw as [Hd Hs Hc]. unfold grow.
  assert (exists k, 9 <= k <= 63 /\ (if capacity_ f =? 0 then 512 else capacity_ f) = 2 ^ k) as (k & Hk & ->).
  { destruct Hc as [->|(k & Hk & ->)]; [exists 9; split; [lia|done]|]. exists k. split; [lia|].
    rewrite (proj2 (Z.eqb_neq _ _)); [done|]. apply Z.pow_nonzero; lia. }
  destruct (grow_loop_spec 65 k wanted Hk ltac:(lia) ltac:(lia)) as (k' & Hk' & -> & Hge). cbn [mbind option_bind].
  exists (2 ^ k'). destruct (room (2 ^ k')) eqn:Er; cbn [negb]; [right|by left].
  set (fresh := replicate (Z.to_nat (2 ^ k')) 0).
  assert (Z.of_nat (length fresh) = 2 ^ k') as Hlf.
  { unfold fresh. rewrite length_replicate. pose proof (Z.pow_nonneg 2 k'). lia. }
  assert (exists d, (match data_ f with Some _ => old ← load f 0 (size_ f); store fresh 0 old | None => Some fresh end) = Some d /\
    Z.of_nat (length d) = 2 ^ k' /\
    forall i, 0 <= i -> nth (Z.to_nat i) d 0 = if decide (i < size_ f) then nth (Z.to_nat i) (default [] (data_ f)) 0 else 0) as (d & -> & Hl & Hb).
  { assert (forall i, nth i fresh 0 = 0) as Hfz.
    { intros i. unfold fresh. rewrite nth_lookup. destruct (replicate _ 0 !! i) as [x|] eqn:E; [|done].
      by apply lookup_replicate in E as [-> _]. }
    destruct (data_ f) as [d|] eqn:Ed; cbn [default].
    - destruct Hd as [Hld _]. unfold load. rewrite Ed. cbn [mbind option_bind]. rewrite (proj2 (Z.leb_le _ _)) by lia.
      cbn [mbind option_bind]. set (old := take _ _).
      assert (length old = Z.to_nat (size_ f)) as Hlo by (unfold old; rewrite length_take, length_drop; lia).
      destruct (store fresh 0 old) as [d'|] eqn:Es.
      + exists d'. split; [done|]. destruct (nth_store fresh 0 old d' 0 ltac:(lia) Es ltac:(lia)) as [El _].
        split; [lia|]. intros i Hi. destruct (nth_store fresh 0 old d' i ltac:(lia) Es Hi) as [_ ->].
        rewrite Hlo, Hfz. destruct (decide (i < size_ f)).
        * rewrite decide_True by lia. unfold old. rewrite Z.sub_0_r, !nth_lookup, lookup_take_lt, lookup_drop by lia. done.
        * rewrite decide_False by lia. done.
      + exfalso. unfold store in Es. rewrite (proj2 (Z.leb_le _ _)) in Es by lia. discriminate Es.
    - exists fresh. split_and!; [done|done|]. intros i Hi. rewrite Hfz. by case_decide; [destruct (Z.to_nat i)|]. }
  cbn [mbind option_bind]. eexists. split; [reflexivity|].
  assert (wf (mkFile (name_ f) (Some d) (size_ f) (2 ^ k') (used_ f))) as Hw'.
  { constructor; cbn [data_ capacity_ size_]; [split; [done|]|lia|right; exists k'; split; [lia|done]].
    apply zero_tail_intro. intros i Hi. rewrite <- (Nat2Z.id i), Hb by lia. by rewrite decide_False by lia. }
  split_and!; try done; [by exists d|]. intros i Hi. rewrite byte_data by done. cbn [data_ default from_option id].
  rewrite Hb by done. case_decide as Hi2; [by rewrite byte_data|].
  unfold byte, contents. rewrite nth_lookup, lookup_take_ge by lia. done.
Qed.

(** [write] either runs out of memory and changes nothing, or overlays the buffer. *)
Lemma write_spec room offset buffer f :
  wf f -> 0 <= offset -> offset + Z.of_nat (length buffer) <= 2 ^ 63 ->
  let len := Z.of_nat (length buffer) in
  exists r f', write room offset buffer f = Some (r, f') /\ wf f' /\
    ((r = -1 /\ f' = f /\ exists n, offset + len <= n /\ room n = false) \/
     (r = len /\ size_ f' = Z.max (size_ f) (offset + len) /\
      forall i, 0 <= i -> byte f' i = if decide (offset <= i < offset + len)
                                      then nth (Z.to_nat (i - offset)) buffer 0 else byte f i)).
Proof.
  intros Hw Ho Hfit len. unfold write. fold len. rewrite u64_small by lia.
  assert ((exists n, offset + len <= n /\ room n = false /\
      (if capacity_ f <? offset + len then grow room (offset + len) f else Some (true, f)) = Some (false, f)) \/
    exists f1, (if capacity_ f <? offset + len then grow room (offset + len) f else Some (true, f)) = Some (true, f1) /\
      wf f1 /\ offset + len <= capacity_ f1 /\ size_ f1 = size_ f /\ forall i, 0 <= i -> byte f1 i = byte f i) as Hg.
  { destruct (Z.ltb_spec (capacity_ f) (offset + len)) as [Hlt|Hge].
    - destruct (ram_grow_spec room (offset + len) f Hw ltac:(lia)) as (target & [(H1 & H2 & H3)|(f1 & H1 & H2 & H3 & H4 & _ & _ & _ & H5)]).
      + left. by exists target.
      + right. by exists f1.
    - right. exists f. split_and!; try done. }
  destruct Hg as [(n & Hn & Hroom & ->)|(f1 & -> & Hw1 & Hcap & Es & Hb1)]; cbn [mbind option_bind negb].
  { exists (-1), f. split_and!; [done|done|]. left. split_and!; [done|done|]. by exists n. }
  pose proof (wf_data _ Hw1) as Hd. pose proof (wf_size _ Hw1) as Hs.
  assert (Z.of_nat (length (default [] (data_ f1))) = capacity_ f1) as Hld.
  { destruct (data_ f1); cbn; [by destruct Hd|lia]. }
  destruct (store (default [] (data_ f1)) offset buffer) as [d|] eqn:Est.
  2:{ exfalso. unfold store in Est. rewrite (proj2 (Z.leb_le _ _)) in Est by (unfold len in *; lia). discriminate Est. }
  cbn [mbind option_bind]. eexists _, _. split; [reflexivity|].
  pose proof (fun i => nth_store _ _ _ _ i Ho Est) as Hnth.
  set (size' := if size_ f1 <? offset + len then offset + len else size_ f1).
  assert (size' = Z.max (size_ f) (offset + len)) as Esz.
  { unfold size'. destruct (Z.ltb_spec (size_ f1) (offset + len)); lia. }
  set (data' := match data_ f1 with Some _ => Some d | None => None end).
  assert (default [] data' = d) as Ed.
  { unfold data'. destruct (data_ f1) as [x|]; [done|]. cbn in *.
    destruct (Hnth 0 ltac:(lia)) as [El _]. cbn in El. by destruct d. }
  assert (wf (mkFile (name_ f1) data' size' (capacity_ f1) (used_ f1))) as Hwf.
  { constructor; cbn [data_ size_ capacity_]; [|lia|by destruct Hw1].
    unfold data'. destruct (data_ f1) as [x|] eqn:Ex; [|done]. cbn in Hnth, Hld.
    destruct (Hnth 0 ltac:(lia)) as [El _]. split; [lia|]. apply zero_tail_intro. intros i Hi.
    rewrite <- (Nat2Z.id i). destruct (Hnth (Z.of_nat i) ltac:(lia)) as [_ ->]. fold len.
    rewrite decide_False by lia. destruct Hd as [_ Hz]. rewrite Nat2Z.id. eapply zero_tail; [exact Hz|lia]. }
  split; [done|]. right. split_and!; [done|exact Esz|]. intros i Hi. rewrite byte_data by done.
  cbn [data_]. rewrite Ed. destruct (Hnth i Hi) as [_ ->]. fold len. case_decide; [done|].
  rewrite <- Hb1 by done. by rewrite byte_data.
Qed.

(** [read] returns the bytes of the range that lie inside the file. *)
Lemma read_spec f offset len :
  wf f -> 0 <= offset -> 0 <= len ->
  exists bytes, read f offset len = Some (Z.of_nat (length bytes), bytes) /\
    Z.of_nat (length bytes) = Z.max 0 (Z.min len (size_ f - offset)) /\
    forall i, 0 <= i < Z.of_nat (length bytes) -> nth (Z.to_nat i) bytes 0 = byte f (offset + i).
Proof.
  intros Hw Ho Hl. unfold read. destruct (Z.leb_spec (size_ f) offset) as [Hle|Hlt].
  { exists []. split_and!; [done|cbn; lia|cbn; lia]. }
  set (chunk := if len <? size_ f - offset then len else size_ f - offset).
  assert (chunk = Z.min len (size_ f - offset)) as Ec.
  { unfold chunk. destruct (Z.ltb_spec len (size_ f - offset)); lia. }
  pose proof (wf_data _ Hw) as Hd. pose proof (wf_size _ Hw) as Hs.
  assert (exists d, data_ f = Some d /\ Z.of_nat (length d) = capacity_ f) as (d & Ed & Eld).
  { destruct (data_ f) as [d|]; [exists d; by destruct Hd|lia]. }
  unfold load. rewrite Ed. cbn [mbind option_bind]. rewrite (proj2 (Z.leb_le _ _)) by lia. cbn [mbind option_bind].
  set (bytes := take _ _). assert (Z.of_nat (length bytes) = chunk) as Elen.
  { unfold bytes. rewrite length_take, length_drop. lia. }
  exists bytes. split_and!; [by rewrite Elen|lia|]. intros i Hi. rewrite byte_data, Ed by (done || lia).
  cbn [from_option id]. unfold bytes. rewrite !nth_lookup, lookup_take_lt, lookup_drop by lia. do 2 f_equal. lia.
Qed.

(** A file behaves as an array of bytes: for any offset and buffer that end below 2^63,
    [write] returns; either memory ran out, the result is -1 and the file is unchanged,
    or the result is the length and every later read, at any offset and length, returns
    the bytes inside the file: the buffer's where the write reached, what was there
    before elsewhere, zero in a gap past the old end. *)
Theorem ramfs_write_read room offset buffer f :
  wf f -> 0 <= offset -> offset + Z.of_nat (length buffer) <= 2 ^ 63 ->
  let len := Z.of_nat (length buffer) in
  exists r f', write room offset buffer f = Some (r, f') /\ wf f' /\
    ((r = -1 /\ f' = f /\ exists n, offset + len <= n /\ room n = false) \/
     (r = len /\ size_ f' = Z.max (size_ f) (offset + len) /\
      forall o n, 0 <= o -> 0 <= n -> exists bytes, read f' o n = Some (Z.of_nat (length bytes), bytes) /\
        Z.of_nat (length bytes) = Z.max 0 (Z.min n (size_ f' - o)) /\
        forall i, 0 <= i < Z.of_nat (length bytes) ->
          nth (Z.to_nat i) bytes 0 = if decide (offset <= o + i < offset + len)
                                     then nth (Z.to_nat (o + i - offset)) buffer 0 else byte f (o + i))).
Proof.
  intros Hw Ho Hfit len. destruct (write_spec room offset buffer f Hw Ho Hfit) as (r & f' & E & Hw' & H).
  exists r, f'. split_and!; [done|done|]. destruct H as [H|(H1 & H2 & H3)]; [by left|]. right. split_and!; [done|done|].
  intros o n Ho' Hn. destruct (read_spec f' o n Hw' Ho' Hn) as (bytes & R1 & R2 & R3).
  exists bytes. split_and!; [done|done|]. intros i Hi. rewrite R3 by done. apply H3. lia.
Qed.

Lemma ramfs_write_read_witness :
  exists r f', write (fun _ => true) 3 [7; 8] empty_file = Some (r, f') /\ wf f'.
Proof.
  destruct (ramfs_write_read (fun _ => true) 3 [7; 8] empty_file) as (r & f' & H1 & H2 & _).
  - constructor; cbn; [done|lia|by left].
  - lia.
  - cbn. lia.
  - exists r, f'. done.
Defined.

(** Growing a file to more than 2^63 bytes never returns, however long it runs. *)
Lemma ramfs_grow_diverges fuel wanted : 2 ^ 63 < wanted -> grow_loop fuel 512 wanted = None.
Proof. apply (grow_loop_diverges fuel 9). lia. Qed.

(** ** The directory *)

Lemma ram_find_spec name files : match find name files with
  | Some i => exists f, files !! i = Some f /\ used_ f = true /\ name_ f = name
  | None => forall f, f ∈ files -> used_ f = true -> name_ f <> name
  end.
Proof.
  induction files as [|f files IH]; cbn [find]; [intros f Hf; by apply elem_of_nil in Hf|].
  destruct (used_ f) eqn:Eu; cbn [andb].
  - case_bool_decide as En; [by exists f|]. destruct (find name files) as [i|]; cbn; [done|].
    intros g [->|Hg]%elem_of_cons; [done|by apply IH].
  - destruct (find name files) as [i|]; cbn; [done|].
    intros g [->|Hg]%elem_of_cons; [congruence|by apply IH].
Qed.

Lemma find_unused_spec files : match find_unused files with
  | Some i => exists f, files !! i = Some f /\ used_ f = false
  | None => forall f, f ∈ files -> used_ f = true
  end.
Proof.
  induction files as [|f files IH]; cbn [find_unused]; [intros f Hf; by apply elem_of_nil in Hf|].
  destruct (used_ f) eqn:Eu; [|by exists f]. destruct (find_unused files) as [i|]; cbn; [done|].
  intros g [->|Hg]%elem_of_cons; [done|by apply IH].
Qed.

(** At most one file in use has a name, files are well formed, and a slot not in use is
    empty, so that a new file starts without data. *)
Record directory_ok (files : list RamFile) : Prop := {
  dir_wf : Forall wf files;
  dir_unique : forall i j f g, files !! i = Some f -> files !! j = Some g ->
    used_ f = true -> used_ g = true -> name_ f = name_ g -> i = j;
  dir_unused : forall f, f ∈ files -> used_ f = false -> data_ f = None /\ size_ f = 0 /\ capacity_ f = 0
}.

Lemma directory_alter g i files f0 :
  directory_ok files -> files !! i = Some f0 -> wf (g f0) ->
  (used_ (g f0) = true -> forall j f, files !! j = Some f -> j <> i -> used_ f = true -> name_ f <> name_ (g f0)) ->
  (used_ (g f0) = false -> data_ (g f0) = None /\ size_ (g f0) = 0 /\ capacity_ (g f0) = 0) ->
  directory_ok (alter g i files).
Proof.
  intros [H1 H2 H3] Hi Hw Hn Hu.
  assert (forall j f, alter g i files !! j = Some f -> (j = i /\ f = g f0) \/ (j <> i /\ files !! j = Some f)) as Hinv.
  { intros j f Hj. destruct (decide (i = j)) as [->|Hne].
    - rewrite list_lookup_alter_eq, Hi in Hj. injection Hj as <-. by left.
    - rewrite list_lookup_alter_ne in Hj by done. right. by split. }
  constructor.
  - apply Forall_lookup. intros j f Hj. destruct (Hinv j f Hj) as [[_ ->]|[_ Hj']]; [done|].
    rewrite Forall_lookup in H1. by eapply H1.
  - intros j k f h Hj Hk Uf Uh E. destruct (Hinv j f Hj) as [[-> ->]|[Hjn Hj']]; destruct (Hinv k h Hk) as [[-> ->]|[Hkn Hk']]; [done| | |].
    + exfalso. by apply (Hn Uf k h Hk' Hkn Uh).
    + exfalso. by apply (Hn Uh j f Hj' Hjn Uf).
    + by eapply H2.
  - intros f Hf Uf. apply list_elem_of_lookup in Hf as [j Hj]. destruct (Hinv j f Hj) as [[_ ->]|[_ Hj']]; [by apply Hu|].
    apply H3; [by eapply list_elem_of_lookup_2|done].
Qed.

Lemma initial_directory : directory_ok initial.
Proof.
  constructor.
  - apply Forall_replicate. constructor; cbn; [done|lia|by left].
  - intros i j f g Hi _ Uf. apply lookup_replicate in Hi as [-> _]. done.
  - intros f Hf _. apply list_elem_of_lookup in Hf as [i Hi]. apply lookup_replicate in Hi as [-> _]. done.
Qed.

Lemma create_file_spec name files :
  directory_ok files -> (length name <= max_name - 1)%nat ->
  let '(r, files') := ramfs_create_file name files in
  directory_ok files' /\
  match r with
  | Some i => find name files' = Some i /\
      (find name files = Some i /\ files' = files \/
       find name files = None /\ exists f, files' !! i = Some f /\ size_ f = 0) /\
      (forall j, j <> i -> files' !! j = files !! j)
  | None => find name files = None /\ files' = files /\ (forall f, f ∈ files -> used_ f = true)
  end.
Proof.
  intros Hd Hl. unfold ramfs_create_file. pose proof (ram_find_spec name files) as Hf.
  destruct (find name files) as [i|] eqn:Ef; [split_and!; [done|done|left; by split|done]|].
  pose proof (find_unused_spec files) as Hu. destruct (find_unused files) as [i|]; [|by split_and!].
  destruct Hu as (f & Hi & Hun). destruct (dir_unused _ Hd f) as (E1 & E2 & E3); [by eapply list_elem_of_lookup_2|done|].
  assert (name_ (bind name f) = name) as En by (cbn; rewrite take_ge by (unfold max_name in *; lia); done).
  assert (directory_ok (alter (bind name) i files)) as Hd'.
  { eapply directory_alter; [done|exact Hi| | |done].
    - constructor; cbn; rewrite ?E1, ?E2, ?E3; [done|lia|by left].
    - intros _ j g Hj _ Hug. rewrite En. apply Hf; [by eapply list_elem_of_lookup_2|done]. }
  assert (alter (bind name) i files !! i = Some (bind name f)) as Hi' by (by rewrite list_lookup_alter_eq, Hi).
  split_and!; [done| | |].
  - pose proof (ram_find_spec name (alter (bind name) i files)) as Hf'.
    destruct (find name (alter (bind name) i files)) as [j|].
    + destruct Hf' as (g & Hj & Hug & Hng). f_equal. eapply (dir_unique _ Hd' j i g); [done|exact Hi'|done|done|congruence].
    + exfalso. apply (Hf' (bind name f)); [by eapply list_elem_of_lookup_2|done|done].
  - right. split; [done|]. exists (bind name f). split; [done|]. exact E2.
  - intros j Hj. by rewrite list_lookup_alter_ne.
Qed.

Lemma remove_spec name files :
  directory_ok files ->
  let '(removed, files') := ramfs_remove name files in
  directory_ok files' /\ removed = bool_decide (find name files <> None) /\ find name files' = None /\
  (forall other, other <> name -> find other files' = find other files).
Proof.
  intros Hd. unfold ramfs_remove. pose proof (ram_find_spec name files) as Hf.
  destruct (find name files) as [i|] eqn:Ef; [|by split_and!].
  destruct Hf as (f & Hi & Hu & Hn).
  assert (directory_ok (alter release i files)) as Hd'.
  { eapply directory_alter; [done|exact Hi|constructor; cbn; [done|lia|by left]|done|done]. }
  split_and!; [done|done| |].
  - pose proof (ram_find_spec name (alter release i files)) as Hf'. destruct (find name (alter release i files)) as [j|]; [|done].
    exfalso. destruct Hf' as (g & Hj & Hug & Hng). destruct (decide (i = j)) as [->|Hne].
    + rewrite list_lookup_alter_eq, Hi in Hj. injection Hj as <-. done.
    + rewrite list_lookup_alter_ne in Hj by done. apply Hne. eapply (dir_unique _ Hd i j f g); [done..|congruence].
  - intros other Ho. clear Hd Hd' Ef. revert i Hi. induction files as [|g files IH]; intros [|i] Hi; [done|done| |].
    + injection Hi as ->. cbn [alter list_alter find release used_ name_]. rewrite Hu. cbn [andb].
      rewrite bool_decide_eq_false_2 by congruence. done.
    + cbn [alter list_alter find]. destruct (used_ g && bool_decide (name_ g = other)); [done|]. f_equal. by apply IH.
Qed.

(** Creating and removing by name: for a name that fits its field, a create returns the
    file of that name, the existing one if there is one and otherwise an empty one in
    a free slot, failing only when all 32 are taken; after a remove the name is gone;
    neither touches another file and both keep names unique. *)
Theorem ramfs_directory name files :
  directory_ok files -> (length name <= max_name - 1)%nat ->
  let '(r, files') := ramfs_create_file name files in
  let '(removed, files'') := ramfs_remove name files in
  directory_ok files' /\ directory_ok files'' /\
  match r with
  | Some i => find name files' = Some i /\
      (find name files = Some i /\ files' = files \/
       find name files = None /\ exists f, files' !! i = Some f /\ size_ f = 0) /\
      (forall j, j <> i -> files' !! j = files !! j)
  | None => find name files = None /\ files' = files /\ (forall f, f ∈ files -> used_ f = true)
  end /\
  removed = bool_decide (find name files <> None) /\ find name files'' = None /\
  (forall other, other <> name -> find other files'' = find other files).
Proof.
  intros Hd Hl. pose proof (create_file_spec name files Hd Hl) as H1. pose proof (remove_spec name files Hd) as H2.
  destruct (ramfs_create_file name files) as [r files'], (ramfs_remove name files) as [removed files''].
  destruct H1 as [H1 H1'], H2 as (H2 & H3 & H4 & H5). split_and!; [exact H1|exact H2|exact H1'|exact H3|exact H4|exact H5].
Qed.

Lemma ramfs_directory_witness :
  let '(r, files') := ramfs_create_file [97; 98] initial in
  let '(removed, files'') := ramfs_remove [97; 98] initial in
  directory_ok files' /\ directory_ok files'' /\ find [97; 98] files' = r /\ removed = false.
Proof.
  pose proof (ramfs_directory [97; 98] initial initial_directory ltac:(cbn; lia)) as H.
  destruct (ramfs_create_file [97; 98] initial) as [r files'] eqn:E1.
  destruct (ramfs_remove [97; 98] initial) as [removed files''] eqn:E2.
  destruct H as (H1 & H2 & H3 & H4 & _). split_and!; [exact H1|exact H2| |exact H4].
  destruct r as [i|]; [apply H3|]. destruct H3 as (H3 & -> & _). exact H3.
Defined.

(** For clients: the file a create returns is found under its name, and stays so
    while its data changes. *)
Lemma ramfs_create_found name files i files' :
  directory_ok files -> (length name <= max_name - 1)%nat -> ramfs_create_file name files = (Some i, files') ->
  directory_ok files' /\ find name files' = Some i /\ exists f, files' !! i = Some f.
Proof.
  intros Hd Hl E. pose proof (create_file_spec name files Hd Hl) as H. rewrite E in H.
  destruct H as (H1 & H2 & _). split_and!; [done|done|].
  pose proof (ram_find_spec name files') as Hf. rewrite H2 in Hf. destruct Hf as (f & Hi & _). by exists f.
Qed.

Lemma write_keeps room offset buffer f r f' : write room offset buffer f = Some (r, f') ->
  name_ f' = name_ f /\ used_ f' = used_ f.
Proof.
  unfold write. set (len := Z.of_nat (length buffer)).
  assert (forall ok g, (if capacity_ f <? u64 (offset + len) then grow room (u64 (offset + len)) f else Some (true, f)) = Some (ok, g) ->
    name_ g = name_ f /\ used_ g = used_ f) as Hg.
  { intros ok g. destruct (_ <? _); [|by intros [= _ <-]]. unfold grow.
    destruct (grow_loop _ _ _) as [target|]; [|done]. cbn [mbind option_bind]. destruct (room target); cbn [negb]; [|by intros [= _ <-]].
    intros E. apply bind_Some_inv in E as (d & _ & E). by injection E as _ <-. }
  intros E. apply bind_Some_inv in E as ([ok g] & Eg & E). specialize (Hg _ _ Eg). clear Eg.
  destruct ok; cbn [negb] in E; [|by injection E as _ <-].
  apply bind_Some_inv in E as (d & _ & E). by injection E as _ <-.
Qed.

Lemma ram_find_insert name files i f f' :
  find name files = Some i -> files !! i = Some f -> name_ f' = name_ f /\ used_ f' = used_ f ->
  find name (<[i := f']> files) = Some i.
Proof.
  intros Hf Hi [En Eu]. revert i Hf Hi. induction files as [|g files IH]; intros i Hf Hi; [done|].
  cbn [find] in Hf. destruct (used_ g && bool_decide (name_ g = name)) eqn:E.
  - injection Hf as <-. injection Hi as ->. cbn. by rewrite En, Eu, E.
  - destruct (find name files) as [j|] eqn:Ej; [|done]. injection Hf as <-.
    change (<[S j := f']> (g :: files)) with (g :: <[j := f']> files). cbn [find]. rewrite E.
    by rewrite (IH j eq_refl Hi).
Qed.

(** A name of 32 bytes or more is stored truncated and never found again. *)
Lemma ramfs_long_name_lost name files i files' :
  (max_name <= length name)%nat -> ramfs_create_file name files = (Some i, files') ->
  find name files = None -> files' !! i = Some (bind name (default empty_file (files !! i))) /\
  name_ (bind name (default empty_file (files !! i))) <> name.
Proof.
  intros Hl E Hf. unfold ramfs_create_file in E. rewrite Hf in E.
  pose proof (find_unused_spec files) as Hu. destruct (find_unused files) as [j|]; [|discriminate E].
  destruct Hu as (f & Hj & _). injection E as <- <-. rewrite list_lookup_alter_eq, Hj. split; [done|].
  cbn. intros En. apply (f_equal length) in En. rewrite length_take in En. unfold max_name in *. lia.
Qed.
