(* ===== verification/Ext2.v ===== *)
(** * The ext2 reader (src/kernel/fs/ext2.cpp)

    The on-disk structures are read at their packed offsets from the bytes a block
    device returns; every scratch page comes from the frame allocator and goes back.
    [None] is a fault: a division by zero, or a load or store outside the scratch page.
    At most 32 inodes are ever opened, and stay open. *)

From S2P Require Import Prelude Interfaces Block Vfs.

Definition ext2_magic : Z := 0xEF53.
Definition superblock_offset : Z := 1024.
Definition max_open_inodes : nat := 32.
Definition root_inode : Z := 2.
Definition mode_directory : Z := 0x4000.

Definition sizeof_Superblock : Z := 90.
Definition sizeof_GroupDescriptor : Z := 32.
Definition sizeof_DiskInode : Z := 100.
Definition sizeof_DirectoryEntry : Z := 8.

(** Little-endian fields of a packed structure. *)
Definition field8 (b : list Z) (o : nat) : Z := nth o b 0.
Definition field16 (b : list Z) (o : nat) : Z := field8 b o + 256 * field8 b (S o).
Definition field32 (b : list Z) (o : nat) : Z := field16 b o + 65536 * field16 b (S (S o)).

(** The fields of the superblock the reader uses. *)
Record Superblock := mkSuper {
  block_count : Z; log_block_size : Z; blocks_per_group : Z; inodes_per_group : Z;
  magic : Z; revision : Z; super_inode_size : Z
}.

Definition parse_super (b : list Z) : Superblock :=
  mkSuper (field32 b 4) (field32 b 24) (field32 b 32) (field32 b 40) (field16 b 56) (field32 b 76) (field16 b 88).

Record DiskInode := mkInode { mode : Z; isize_ : Z; direct : list Z; indirect : Z }.

Definition parse_inode (b : list Z) : DiskInode :=
  mkInode (field16 b 0) (field32 b 4) ((fun k => field32 b (40 + 4 * k)) <$> seq 0 12) (field32 b 88).

(** An open inode: its number and its disk copy. *)
Record Ext2Inode := mkNode { number : Z; disk_ : DiskInode }.

(** [device_] is set by a successful [mount]; [inodes] are the open ones in order. *)
Record Ext2Fs := mkFs {
  mounted : bool; super_ : Superblock; block_size_ : Z; inode_size_ : Z; group_count_ : Z;
  inodes : list Ext2Inode
}.

Definition initial : Ext2Fs := mkFs false (mkSuper 0 0 0 0 0 0 0) 1024 128 0 [].

Definition node_kind (n : Ext2Inode) : NodeType :=
  if negb (Z.land (mode (disk_ n)) mode_directory =? 0) then Directory else File.

Section ext2.
  Context {D A : Type} `{BlockDevice D} `{FrameAllocator A} (d : D).

Definition read_block (fs : Ext2Fs) (block : Z) (a : A) : option (option (list Z) * A) :=
  if negb (mounted fs) then Some (None, a)
  else
    '(ok, out, a) ← read_bytes d (u64 (block * block_size_ fs)) (block_size_ fs) a;
    Some (if (ok : bool) then Some out else None, a).

Definition read_inode (fs : Ext2Fs) (number : Z) (a : A) : option (option DiskInode * A) :=
  if (number =? 0) || negb (mounted fs) then Some (None, a)
  else if inodes_per_group (super_ fs) =? 0 then None
  else
    let group := (number - 1) / inodes_per_group (super_ fs) in
    let index := (number - 1) mod inodes_per_group (super_ fs) in
    let descriptor_block := if block_size_ fs =? 1024 then 2 else 1 in
    let descriptor_offset := u64 (descriptor_block * block_size_ fs + group * sizeof_GroupDescriptor) in
    '(ok, descriptor, a) ← read_bytes d descriptor_offset sizeof_GroupDescriptor a;
    if negb (ok : bool) then Some (None, a)
    else
      let inode_table := field32 descriptor 8 in
      let offset := u64 (inode_table * block_size_ fs + index * inode_size_ fs) in
      '(ok, out, a) ← read_bytes d offset sizeof_DiskInode a;
      Some (if (ok : bool) then Some (parse_inode out) else None, a).

(** [mount]; the shift is undefined for 32 or more and the group count divides. *)
Definition mount (fs : Ext2Fs) (a : A) : option (bool * Ext2Fs * A) :=
  '(ok, out, a) ← read_bytes d superblock_offset sizeof_Superblock a;
  let unmounted sb := mkFs false sb (block_size_ fs) (inode_size_ fs) (group_count_ fs) (inodes fs) in
  if negb (ok : bool) then Some (false, unmounted (super_ fs), a)
  else
    let sb := parse_super out in
    if negb (magic sb =? ext2_magic) then Some (false, unmounted sb, a)
    else if (32 <=? log_block_size sb) || (blocks_per_group sb =? 0) then None
    else
      let block_size := u32 (Z.shiftl 1024 (log_block_size sb)) in
      let inode_size := if (1 <=? revision sb) && negb (super_inode_size sb =? 0) then super_inode_size sb else 128 in
      let groups := u32 (block_count sb + blocks_per_group sb - 1) / blocks_per_group sb in
      Some (true, mkFs true sb block_size inode_size groups (inodes fs), a).

Fixpoint find_open (wanted : Z) (l : list Ext2Inode) : option nat :=
  match l with
  | [] => None
  | n :: l' => if number n =? wanted then Some O else S <$> find_open wanted l'
  end.

(** The index of the open inode, or null. *)
Definition open_ (fs : Ext2Fs) (wanted : Z) (a : A) : option (option nat * Ext2Fs * A) :=
  match find_open wanted (inodes fs) with
  | Some i => Some (Some i, fs, a)
  | None =>
    if (max_open_inodes <=? length (inodes fs))%nat then Some (None, fs, a)
    else
      '(r, a) ← read_inode fs wanted a;
      match r with
      | None => Some (None, fs, a)
      | Some disk =>
        Some (Some (length (inodes fs)),
              mkFs (mounted fs) (super_ fs) (block_size_ fs) (inode_size_ fs) (group_count_ fs)
                (inodes fs ++ [mkNode wanted disk]), a)
      end
  end.

Definition root (fs : Ext2Fs) (a : A) : option (option nat * Ext2Fs * A) := open_ fs root_inode a.

(** A block larger than the 4096 byte scratch page overruns it. *)
Definition read_scratch (fs : Ext2Fs) (block : Z) (a : A) : option (option (list Z) * A) :=
  if page_size <? block_size_ fs then None else read_block fs block a.

(** The disk block that holds block [index] of a file; 0 is a hole or a failure. *)
Definition block_for (fs : Ext2Fs) (n : Ext2Inode) (index : Z) (a : A) : option (Z * A) :=
  if index <? 12 then b ← direct (disk_ n) !! Z.to_nat index; Some (b, a)
  else
    let per_block := block_size_ fs / 4 in
    let indirect_index := index - 12 in
    if (per_block <=? indirect_index) || (indirect (disk_ n) =? 0) then Some (0, a)
    else
      let '(frame, a) := fa_alloc a in
      if frame =? 0 then Some (0, a)
      else
        '(table, a) ← read_scratch fs (indirect (disk_ n)) a;
        let block := match table with Some t => field32 t (4 * Z.to_nat indirect_index) | None => 0 end in
        Some (block, fa_free a frame).

(** The loop of [read]: what was copied so far is [out]. *)
Fixpoint read_loop (fuel : nat) (fs : Ext2Fs) (n : Ext2Inode) (offset len : Z) (out : list Z) (a : A) :
    option (list Z * A) :=
  match fuel with
  | O => None
  | S fuel' =>
    let done := Z.of_nat (length out) in
    if len <=? done then Some (out, a)
    else
      let index := u32 ((offset + done) / block_size_ fs) in
      let inside := (offset + done) mod block_size_ fs in
      '(block, a) ← block_for fs n index a;
      if block =? 0 then Some (out, a)
      else
        '(scratch, a) ← read_scratch fs block a;
        match scratch with
        | None => Some (out, a)
        | Some scratch =>
          let chunk := if len - done <? block_size_ fs - inside then len - done else block_size_ fs - inside in
          read_loop fuel' fs n offset len (out ++ take (Z.to_nat chunk) (drop (Z.to_nat inside) scratch)) a
        end
  end.

(** The result and the bytes stored; a division by a zero block size cannot happen
    after [mount]. *)
Definition read (fs : Ext2Fs) (n : Ext2Inode) (offset len : Z) (a : A) : option (Z * list Z * A) :=
  if isize_ (disk_ n) <=? offset then Some (0, [], a)
  else
    let available := isize_ (disk_ n) - offset in
    let len := if available <? len then available else len in
    let '(frame, a) := fa_alloc a in
    if frame =? 0 then Some (-1, [], a)
    else
      '(out, a) ← read_loop (S (Z.to_nat len)) fs n offset len [] a;
      Some (Z.of_nat (length out), out, fa_free a frame).

(** ** Directories *)

(** What one pass over a block of entries finds: [found] is the caller's test on an
    entry in use, at its offset in the block. *)
Fixpoint scan_block {R C : Type} (fuel : nat) (block : list Z) (block_size offset : Z)
    (found : list Z -> Z -> C -> option (option R * C)) (c : C) : option (option R * C) :=
  match fuel with
  | O => None
  | S fuel' =>
    if block_size <=? offset + sizeof_DirectoryEntry then Some (None, c)
    else
      let entry := drop (Z.to_nat offset) block in
      let length := field16 entry 4 in
      if length =? 0 then Some (None, c)
      else
        '(r, c) ← (if negb (field32 entry 0 =? 0) then found entry (block_size - offset) c else Some (None, c));
        match r with
        | Some r => Some (Some r, c)
        | None => scan_block fuel' block block_size (offset + length) found c
        end
  end.

(** [memcmp(entry_name, name, n) == 0] inside the entry, [room] bytes long. *)
Fixpoint name_matches (entry : list Z) (room : Z) (i : nat) (name : list Z) : option bool :=
  match name with
  | [] => Some true
  | c :: name' =>
    if room <=? sizeof_DirectoryEntry + Z.of_nat i then None
    else if field8 entry (8 + i) =? c then name_matches entry room (S i) name' else Some false
  end.

(** Block 12 + block_size / 4 and those after it do not exist. *)
Definition walk_fuel (fs : Ext2Fs) : nat := Z.to_nat (block_size_ fs / 4 + 14).

(** The test of [lookup]: the inode number of the entry with the name. *)
Definition is_named (name : list Z) (entry : list Z) (room : Z) (c : unit) : option (option Z * unit) :=
  if negb (Z.of_nat (length name) =? field8 entry 6) then Some (None, c)
  else
    same ← name_matches entry room 0 name;
    Some (if (same : bool) then Some (field32 entry 0) else None, c).

(** The blocks of the directory in order; when the inode of a match cannot be opened
    the walk goes on with the next block. *)
Fixpoint lookup_blocks (fuel : nat) (fs : Ext2Fs) (n : Ext2Inode) (index : Z) (name : list Z) (a : A) :
    option (option nat * Ext2Fs * A) :=
  match fuel with
  | O => None
  | S fuel' =>
    if isize_ (disk_ n) <=? u32 (index * block_size_ fs) then Some (None, fs, a)
    else
      '(block, a) ← block_for fs n index a;
      if block =? 0 then Some (None, fs, a)
      else
        '(bytes, a) ← read_scratch fs block a;
        match bytes with
        | None => Some (None, fs, a)
        | Some bytes =>
          '(r, _) ← scan_block (S (Z.to_nat (block_size_ fs))) bytes (block_size_ fs) 0 (is_named name) tt;
          '(found, fs, a) ← (match r with Some inode => open_ fs inode a | None => Some (None, fs, a) end);
          match found with
          | Some i => Some (Some i, fs, a)
          | None => lookup_blocks fuel' fs n (index + 1) name a
          end
        end
  end.

Definition lookup (fs : Ext2Fs) (n : Ext2Inode) (name : list Z) (a : A) : option (option nat * Ext2Fs * A) :=
  if negb (bool_decide (node_kind n = Directory)) then Some (None, fs, a)
  else
    let '(frame, a) := fa_alloc a in
    if frame =? 0 then Some (None, fs, a)
    else
      '(found, fs, a) ← lookup_blocks (walk_fuel fs) fs n 0 name a;
      Some (found, fs, fa_free a frame).

(** The test of [entry_at]: [seen] counts the entries in use before this one. *)
Definition is_nth (index : Z) (entry : list Z) (room : Z) (seen : Z) : option (option (list Z) * Z) :=
  if seen =? index then
    let n := Z.min 63 (field8 entry 6) in
    if room <? sizeof_DirectoryEntry + n then None
    else Some (Some (take (Z.to_nat n) (drop 8 entry)), seen)
  else Some (None, seen + 1).

Fixpoint entry_blocks (fuel : nat) (fs : Ext2Fs) (n : Ext2Inode) (block_index wanted seen : Z) (a : A) :
    option (option (list Z) * A) :=
  match fuel with
  | O => None
  | S fuel' =>
    if isize_ (disk_ n) <=? u32 (block_index * block_size_ fs) then Some (None, a)
    else
      '(block, a) ← block_for fs n block_index a;
      if block =? 0 then Some (None, a)
      else
        '(bytes, a) ← read_scratch fs block a;
        match bytes with
        | None => Some (None, a)
        | Some bytes =>
          '(r, seen) ← scan_block (S (Z.to_nat (block_size_ fs))) bytes (block_size_ fs) 0 (is_nth wanted) seen;
          match r with
          | Some name => Some (Some name, a)
          | None => entry_blocks fuel' fs n (block_index + 1) wanted seen a
          end
        end
  end.

Definition entry_at (fs : Ext2Fs) (n : Ext2Inode) (index : Z) (a : A) : option (option (list Z) * A) :=
  if negb (bool_decide (node_kind n = Directory)) then Some (None, a)
  else
    let '(frame, a) := fa_alloc a in
    if frame =? 0 then Some (None, a)
    else
      '(r, a) ← entry_blocks (walk_fuel fs) fs n 0 index 0 a;
      Some (r, fa_free a frame).

End ext2.

(** [ext2_mount]: the single file system object is handed out when the mount succeeds. *)
Definition ext2_mount {D A} `{BlockDevice D} `{FrameAllocator A} (d : option D) (fs : Ext2Fs) (a : A) :
    option (bool * Ext2Fs * A) :=
  match d with None => Some (false, fs, a) | Some d => mount d fs a end.

(** ** Reading files *)

Section ext2_proofs.
  Context {D A : Type} `{BlockDeviceSpec D} `{FrameAllocator A} (d : D).

(** After a mount that found a block size the scratch page can hold. *)
Record fs_ok (fs : Ext2Fs) : Prop := {
  ok_mounted : mounted fs = true;
  ok_block : block_size_ fs = 1024 \/ block_size_ fs = 2048 \/ block_size_ fs = 4096
}.

Record node_ok (n : Ext2Inode) : Prop := {
  ok_size : 0 <= isize_ (disk_ n) < 2 ^ 32;
  ok_direct : length (direct (disk_ n)) = 12%nat /\ Forall (fun b => 0 <= b < 2 ^ 32) (direct (disk_ n));
  ok_indirect : 0 <= indirect (disk_ n) < 2 ^ 32
}.

Context (bytes_small : forall o, 0 <= bd_byte d o < 256).

(** A sector of the block cannot be read. *)
Definition unreadable (fs : Ext2Fs) (block : Z) : Prop :=
  exists o, block * block_size_ fs <= o < (block + 1) * block_size_ fs /\ bd_read d (o / sector_size) 1 = None.

(** The block of a file, from the bytes of the disk. *)
Definition file_block (fs : Ext2Fs) (n : Ext2Inode) (index : Z) : Z :=
  if index <? 12 then nth (Z.to_nat index) (direct (disk_ n)) 0
  else if (block_size_ fs / 4 <=? index - 12) || (indirect (disk_ n) =? 0) then 0
  else field32 (content d (indirect (disk_ n) * block_size_ fs + 4 * (index - 12)) 4) 0.

(** Block [index] of the file is not to be had: it is a hole, it cannot be read, or it is
    not among the first twelve and the table of the others cannot be read. *)
Definition missing (fs : Ext2Fs) (n : Ext2Inode) (index : Z) : Prop :=
  file_block fs n index = 0 \/ unreadable fs (file_block fs n index) \/ 12 <= index /\ unreadable fs (indirect (disk_ n)).

(** Byte [pos] of a file, from the bytes of the disk. *)
Definition file_byte (fs : Ext2Fs) (n : Ext2Inode) (pos : Z) : Z :=
  bd_byte d (file_block fs n (pos / block_size_ fs) * block_size_ fs + pos mod block_size_ fs).

Lemma field32_drop b o k : field32 b (o + k) = field32 (drop o b) k.
Proof.
  unfold field32, field16, field8. rewrite !nth_lookup, !lookup_drop.
  rewrite !Nat.add_succ_r. done.
Qed.

Lemma field32_content o n : 4 <= n -> field32 (content d o n) 0 = field32 (content d o 4) 0.
Proof.
  intros Hn. replace n with (4 + (n - 4)) by lia. rewrite content_app by lia.
  unfold field32, field16, field8. rewrite !app_nth1; [done|..]; pose proof (content_length d o 4 ltac:(lia)); lia.
Qed.

Lemma field32_range o : 0 <= field32 (content d o 4) 0 < 2 ^ 32.
Proof.
  unfold content. do 4 (rewrite seqZ_cons by lia). rewrite seqZ_nil by lia.
  unfold field32, field16, field8. cbn [fmap list_fmap nth].
  pose proof (bytes_small o). pose proof (bytes_small (Z.succ o)).
  pose proof (bytes_small (Z.succ (Z.succ o))). pose proof (bytes_small (Z.succ (Z.succ (Z.succ o)))).
  change (2 ^ 32) with 4294967296. lia.
Qed.

Lemma read_scratch_spec fs block a :
  fs_ok fs -> 0 <= block < 2 ^ 32 ->
  exists r a', read_scratch d fs block a = Some (r, a') /\ (balanced a a' \/ out_of_pages 0 a) /\
    match r with
    | Some out => out = content d (block * block_size_ fs) (block_size_ fs) /\ balanced a a'
    | None => unreadable fs block \/ out_of_pages 0 a
    end.
Proof.
  intros [Hm Hb] Hk. assert (1024 <= block_size_ fs <= 4096) as Hbs by lia.
  unfold read_scratch, read_block, page_size. destruct (Z.ltb_spec 4096 (block_size_ fs)); [lia|].
  rewrite Hm. cbn [negb]. change (2 ^ 32) with 4294967296 in Hk.
  rewrite u64_small by (change (2 ^ 64) with 18446744073709551616; nia).
  assert (block * block_size_ fs + block_size_ fs < 2 ^ 64) as Hfit by (change (2 ^ 64) with 18446744073709551616; nia).
  unfold read_bytes. destruct (fa_alloc a) as [frame a1] eqn:Ea. destruct (Z.eqb_spec frame 0) as [E|E].
  { subst frame. cbn [mbind option_bind]. eexists _, _. split; [reflexivity|]. split; right; by eapply out_of_pages_now. }
  destruct (Block.read_loop_spec (S (Z.to_nat (block_size_ fs))) d (block * block_size_ fs) (block_size_ fs) [])
    as (ok & n & -> & Hn & Hok & Hko); [nia|lia|lia|lia|].
  cbn [mbind option_bind app]. eexists _, _. split; [reflexivity|].
  assert (balanced a (fa_free a1 frame)) as Hbal by (eapply balanced_page; [done|done|apply bal_refl]). split; [by left|]. destruct ok.
  - rewrite Hok by done. done.
  - left. destruct (Hko eq_refl) as [Hlt Hread]. eexists. split; [|exact Hread]. lia.
Qed.

Lemma block_for_spec fs n index a :
  fs_ok fs -> node_ok n -> 0 <= index ->
  exists b a', block_for d fs n index a = Some (b, a') /\ 0 <= b < 2 ^ 32 /\ (balanced a a' \/ out_of_pages 1 a) /\
    (b = file_block fs n index /\ balanced a a' \/ b = 0 /\ (missing fs n index \/ out_of_pages 1 a)).
Proof.
  intros Hf Hn Hi. pose proof (ok_block _ Hf) as Hbs. destruct Hn as [_ [Hl Hd] Hin].
  unfold block_for, file_block. destruct (Z.ltb_spec index 12) as [Hlt|Hge].
  { destruct (lookup_lt_is_Some_2 (direct (disk_ n)) (Z.to_nat index) ltac:(lia)) as [b Hb].
    rewrite Hb. cbn. exists b, a. split_and!; [done|..].
    - rewrite Forall_lookup in Hd. by apply (Hd _ _ Hb).
    - rewrite Forall_lookup in Hd. by apply (Hd _ _ Hb).
    - left. apply bal_refl.
    - left. rewrite nth_lookup, Hb. split; [done|apply bal_refl]. }
  destruct ((block_size_ fs / 4 <=? index - 12) || (indirect (disk_ n) =? 0)) eqn:E.
  { exists 0, a. split_and!; [done|lia|lia|left; apply bal_refl|left; split; [done|apply bal_refl]]. }
  apply orb_false_iff in E as [E _]. apply Z.leb_gt in E.
  destruct (fa_alloc a) as [frame a1] eqn:Ea. destruct (frame =? 0) eqn:Ez.
  { apply Z.eqb_eq in Ez as ->. assert (out_of_pages 1 a) by (by eapply out_of_pages_now). exists 0, a1. split_and!; [done|lia|lia|by right|by auto]. }
  apply Z.eqb_neq in Ez. destruct (read_scratch_spec fs (indirect (disk_ n)) a1 Hf Hin) as (r & a2 & -> & Hbal & Hr). cbn [mbind option_bind].
  assert (out_of_pages 0 a1 -> out_of_pages 1 a) as Hout by (by intros; eapply out_of_pages_inside).
  assert (balanced a1 a2 -> balanced a (fa_free a2 frame)) as Hback by (by intros; eapply balanced_page).
  eexists _, _. split; [reflexivity|]. destruct r as [t|].
  - destruct Hr as [-> Hr].
    assert (field32 (content d (indirect (disk_ n) * block_size_ fs) (block_size_ fs)) (4 * Z.to_nat (index - 12))
      = field32 (content d (indirect (disk_ n) * block_size_ fs + 4 * (index - 12)) 4) 0) as ->.
    { rewrite <- (Nat.add_0_r (4 * _)), field32_drop.
      assert (4 * (index - 12) + 4 <= block_size_ fs) as Hfit.
      { destruct Hbs as [Hbs|[Hbs|Hbs]]; rewrite Hbs in *; [change (1024 / 4) with 256 in E|
          change (2048 / 4) with 512 in E|change (4096 / 4) with 1024 in E]; lia. }
      replace (block_size_ fs) with (4 * (index - 12) + (block_size_ fs - 4 * (index - 12))) at 2 by lia.
      rewrite content_app by lia. rewrite drop_app_length'.
      - apply field32_content. lia.
      - pose proof (content_length d (indirect (disk_ n) * block_size_ fs) (4 * (index - 12)) ltac:(lia)). lia. }
    pose proof (field32_range (indirect (disk_ n) * block_size_ fs + 4 * (index - 12))). split_and!; [lia|lia|by auto|by auto].
  - split_and!; [lia|lia|by destruct Hbal; auto|]. right. split; [done|]. destruct Hr as [Hr|Hr]; [|by auto]. left. right. right. split; [lia|done].
Qed.

Lemma ext2_read_loop_spec fuel fs n offset len out a :
  fs_ok fs -> node_ok n -> 0 <= offset -> offset + len <= isize_ (disk_ n) ->
  out = file_byte fs n <$> seqZ offset (Z.of_nat (length out)) -> Z.of_nat (length out) <= len ->
  (Z.to_nat len - length out < fuel)%nat ->
  exists out' a', read_loop d fuel fs n offset len out a = Some (out', a') /\
    out' = file_byte fs n <$> seqZ offset (Z.of_nat (length out')) /\ Z.of_nat (length out') <= len /\ (balanced a a' \/ out_of_pages 1 a) /\
    (Z.of_nat (length out') = len \/
     missing fs n ((offset + Z.of_nat (length out')) / block_size_ fs) \/ out_of_pages 1 a).
Proof.
  intros Hf Hn Ho Hsz. pose proof (ok_block _ Hf) as Hbs. pose proof (ok_size _ Hn) as Hsize.
  assert (1024 <= block_size_ fs <= 4096) as Hbr by lia.
  revert out a. induction fuel as [|fuel IH]; intros out a Hout Hle Hfuel; [lia|]. cbn [read_loop].
  set (done := Z.of_nat (length out)) in *. destruct (Z.leb_spec len done) as [Hd|Hd].
  { exists out, a. split_and!; [done|done|lia|left; apply bal_refl|]. left. unfold done in *. lia. }
  assert (0 <= (offset + done) / block_size_ fs <= offset + done) as Hq.
  { split; [apply Z.div_pos; lia|]. apply Z.div_le_upper_bound; [lia|]. nia. }
  rewrite u32_small by lia. set (index := (offset + done) / block_size_ fs) in *.
  destruct (block_for_spec fs n index a Hf Hn ltac:(lia)) as (b & a1 & -> & Hb & Hbal & Hfb). cbn [mbind option_bind].
  destruct (Z.eqb_spec b 0) as [Hb0|Hb0].
  { exists out, a1. split_and!; [done|done|lia|done|]. right. destruct Hfb as [[Hfb _]|[_ ?]]; [|done]. left. left.
    change ((offset + Z.of_nat (length out)) / block_size_ fs) with index. congruence. }
  assert (file_block fs n index = b /\ balanced a a1) as [Efb Hbal1] by (destruct Hfb as [[? ?]|[? _]]; [done|congruence]).
  assert (out_of_pages 0 a1 -> out_of_pages 1 a) as Hoop.
  { intros Ho1. eapply out_of_pages_balanced; [done|]. by apply out_of_pages_more. }
  destruct (read_scratch_spec fs b a1 Hf Hb) as (r & a2 & -> & Hbal2 & Hr). cbn [mbind option_bind].
  destruct r as [scratch|].
  2:{ exists out, a2. split_and!; [done|done|lia|destruct Hbal2; [left; by eapply balanced_trans|by auto]|]. right. destruct Hr as [Hr|Hr]; [left|by auto].
      right. left. change ((offset + Z.of_nat (length out)) / block_size_ fs) with index. by rewrite Efb. }
  destruct Hr as [-> Hbal3]. assert (balanced a a2) as Hbal4 by (by eapply balanced_trans).
  set (inside := (offset + done) mod block_size_ fs).
  assert (0 <= inside < block_size_ fs) as Hins by (apply Z.mod_pos_bound; lia).
  assert (offset + done = index * block_size_ fs + inside) as Edm.
  { unfold index, inside. rewrite Z.mul_comm. apply Z.div_mod. lia. }
  set (chunk := if len - done <? block_size_ fs - inside then len - done else block_size_ fs - inside).
  assert (0 < chunk <= len - done /\ inside + chunk <= block_size_ fs) as [Hc1 Hc2].
  { unfold chunk. destruct (Z.ltb_spec (len - done) (block_size_ fs - inside)); lia. }
  clearbody chunk. rewrite content_slice by lia.
  assert (content d (b * block_size_ fs + inside) chunk = file_byte fs n <$> seqZ (offset + done) chunk) as Ec.
  { unfold content. apply list_eq. intros i. rewrite !list_lookup_fmap.
    destruct (decide (Z.of_nat i < chunk)) as [Hi|Hi].
    - rewrite (proj2 (lookup_seqZ (b * block_size_ fs + inside) chunk i _) (conj eq_refl Hi)).
      rewrite (proj2 (lookup_seqZ (offset + done) chunk i _) (conj eq_refl Hi)). cbn [fmap option_fmap option_map].
      f_equal. unfold file_byte.
      assert ((offset + done + Z.of_nat i) / block_size_ fs = index) as ->.
      { symmetry. apply (Z.div_unique _ _ _ (inside + Z.of_nat i)); lia. }
      assert ((offset + done + Z.of_nat i) mod block_size_ fs = inside + Z.of_nat i) as ->.
      { symmetry. apply (Z.mod_unique _ _ index); lia. }
      rewrite Efb. f_equal. lia.
    - rewrite !lookup_seqZ_ge by lia. done. }
  rewrite Ec.
  assert (Z.of_nat (length (out ++ (file_byte fs n <$> seqZ (offset + done) chunk))) = done + chunk) as Elen.
  { rewrite length_app, length_fmap, length_seqZ. unfold done. lia. }
  destruct (IH (out ++ (file_byte fs n <$> seqZ (offset + done) chunk)) a2) as (out' & a' & E & Ho' & Hl' & Hb' & Hr').
  - rewrite Elen, seqZ_app, fmap_app by lia. rewrite <- Hout. done.
  - lia.
  - lia.
  - assert (out_of_pages 1 a2 -> out_of_pages 1 a) as Ho2 by (by apply out_of_pages_balanced).
    exists out', a'. split_and!; [done|done|done|destruct Hb'; [left; by eapply balanced_trans|by auto]|]. destruct Hr' as [?|[?|?]]; auto.
Qed.

(** C24: Files read back as the disk holds them: on a mounted file system whose blocks fit
    the scratch page, [read] returns the bytes of the file from the offset, through
    direct and indirect blocks, as many as asked for or left in the file.  It stops
    short only at a block that is a hole or past the single indirect table, or that the
    disk fails to read (itself, or the table that names it), or when the allocator it was given runs out
    while [read] holds at most two pages, which the kernel's does not with three pages
    free ([pages_suffice]); and -1 is exactly the failure of the first allocation.
    Unless it ran out it has given every page back. *)
Theorem ext2_read_correct fs n offset len a :
  fs_ok fs -> node_ok n -> 0 <= offset -> 0 <= len ->
  exists r out a', read d fs n offset len a = Some (r, out, a') /\
    out = file_byte fs n <$> seqZ offset (Z.of_nat (length out)) /\
    r = (if (offset <? isize_ (disk_ n)) && ((fa_alloc a).1 =? 0) then -1 else Z.of_nat (length out)) /\
    (let wanted := Z.max 0 (Z.min len (isize_ (disk_ n) - offset)) in
     Z.of_nat (length out) = wanted \/
     Z.of_nat (length out) < wanted /\
       (missing fs n ((offset + Z.of_nat (length out)) / block_size_ fs) \/ out_of_pages 2 a)) /\
    (balanced a a' \/ out_of_pages 2 a).
Proof.
  intros Hf Hn Ho Hl. unfold read. destruct (Z.leb_spec (isize_ (disk_ n)) offset) as [Hle|Hlt].
  { exists 0, [], a. rewrite (proj2 (Z.ltb_ge offset (isize_ (disk_ n)))) by lia. split_and!; [done|done|done| |left; apply bal_refl]. left. cbn. lia. }
  rewrite (proj2 (Z.ltb_lt offset (isize_ (disk_ n)))) by lia. cbn [andb].
  set (len' := if _ <? len then _ else len). assert (len' = Z.min len (isize_ (disk_ n) - offset)) as El.
  { unfold len'. destruct (Z.ltb_spec (isize_ (disk_ n) - offset) len); lia. }
  clearbody len'. destruct (fa_alloc a) as [frame a1] eqn:Ea. cbn [fst]. destruct (Z.eqb_spec frame 0) as [->|E0].
  { assert (out_of_pages 2 a) as Hno by (by eapply out_of_pages_now). exists (-1), [], a1.
    split_and!; [done|done|done| |by right]. cbn [length]. destruct (Z.eq_dec len' 0); [left; cbn; lia|right].
    split; [cbn; lia|by right]. }
  assert (out_of_pages 1 a1 -> out_of_pages 2 a) as Hno by (by apply out_of_pages_inside with (1 := Ea)).
  destruct (ext2_read_loop_spec (S (Z.to_nat len')) fs n offset len' [] a1) as (out & a2 & -> & Hout & Hle' & Hbal & Hr);
    [done|done|done|lia|done|cbn; lia|cbn; lia|].
  cbn [mbind option_bind]. eexists _, out, _. split; [reflexivity|]. split_and!; [done|done| |].
  - replace (Z.max 0 (Z.min len (isize_ (disk_ n) - offset))) with len' by lia.
    destruct (Z.eq_dec (Z.of_nat (length out)) len') as [|Hne]; [by left|]. right. split; [lia|].
    destruct Hr as [?|[?|?]]; [done|by left|by auto].
  - destruct Hbal as [Hbal|?]; [left; by eapply balanced_page|by auto].
Qed.

(** ** Directories *)

(** The offsets of the entries of a block: each is where the one before says. *)
Fixpoint entries (fuel : nat) (block : list Z) (block_size offset : Z) : list Z :=
  match fuel with
  | O => []
  | S fuel' =>
    if block_size <=? offset + 8 then []
    else
      let length := field16 (drop (Z.to_nat offset) block) 4 in
      if length =? 0 then [] else offset :: entries fuel' block block_size (offset + length)
  end.

(** The entry is in use and has the name. *)
Definition named (block : list Z) (name : list Z) (o : Z) : bool :=
  let entry := drop (Z.to_nat o) block in
  negb (field32 entry 0 =? 0) && (field8 entry 6 =? Z.of_nat (length name)) &&
  bool_decide (take (length name) (drop 8 entry) = name).

(** Every entry's name lies inside the block. *)
Definition laid_out (block : list Z) (block_size : Z) : Prop :=
  Z.of_nat (length block) = block_size /\ Forall (fun b => 0 <= b) block /\
  Forall (fun o => o + 8 + field8 (drop (Z.to_nat o) block) 6 <= block_size)
    (entries (S (Z.to_nat block_size)) block block_size 0).

Lemma ext2_name_matches_spec entry room i name :
  8 + Z.of_nat i + Z.of_nat (length name) <= room -> Z.of_nat (length entry) = room ->
  name_matches entry room i name = Some (bool_decide (take (length name) (drop (8 + i) entry) = name)).
Proof.
  revert i. induction name as [|c name IH]; intros i Hfit Hlen; cbn [name_matches].
  { rewrite bool_decide_eq_true_2; done. }
  cbn [length] in Hfit. unfold sizeof_DirectoryEntry. destruct (Z.leb_spec room (8 + Z.of_nat i)); [lia|].
  destruct (lookup_lt_is_Some_2 entry (8 + i) ltac:(lia)) as [x Hx].
  assert (field8 entry (8 + i) = x) as -> by (unfold field8; by rewrite nth_lookup, Hx).
  rewrite (drop_S _ _ _ Hx). cbn [length take]. destruct (Z.eqb_spec x c) as [->|Hne].
  - rewrite IH by lia. rewrite Nat.add_succ_r. f_equal. apply bool_decide_ext. split; intros E; [by f_equal|by injection E].
  - by rewrite bool_decide_eq_false_2 by congruence.
Qed.

Lemma field8_nonneg block o i : Forall (fun b => 0 <= b) block -> 0 <= field8 (drop o block) i.
Proof.
  intros Hp. unfold field8. rewrite nth_lookup, lookup_drop. destruct (block !! (o + i)%nat) as [b|] eqn:E; [|done].
  rewrite Forall_lookup in Hp. by apply (Hp _ _ E).
Qed.

Lemma field16_nonneg block o i : Forall (fun b => 0 <= b) block -> 0 <= field16 (drop o block) i.
Proof. intros Hp. unfold field16. pose proof (field8_nonneg block o i Hp). pose proof (field8_nonneg block o (S i) Hp). lia. Qed.

(** Scanning for a name terminates, every entry moving on, and stops at the first entry
    with the name. *)
Lemma scan_named_spec fuel block block_size offset name :
  Forall (fun b => 0 <= b) block -> Z.of_nat (length block) = block_size -> 0 <= offset ->
  (Z.to_nat (block_size - offset) < fuel)%nat ->
  Forall (fun o => o + 8 + field8 (drop (Z.to_nat o) block) 6 <= block_size) (entries fuel block block_size offset) ->
  scan_block fuel block block_size offset (is_named name) tt
  = Some ((fun o => field32 (drop (Z.to_nat o) block) 0) <$> List.find (named block name) (entries fuel block block_size offset), tt).
Proof.
  intros Hpos Hlen. revert offset. induction fuel as [|fuel IH]; intros offset Ho Hf Hall; [lia|].
  cbn [scan_block entries] in *. unfold sizeof_DirectoryEntry.
  destruct (Z.leb_spec block_size (offset + 8)) as [|Hlt]; [done|].
  pose proof (field16_nonneg block (Z.to_nat offset) 4 Hpos) as Hl.
  pose proof (field8_nonneg block (Z.to_nat offset) 6 Hpos) as Hn6.
  set (entry := drop (Z.to_nat offset) block) in *.
  destruct (Z.eqb_spec (field16 entry 4) 0) as [|Hnz]; [done|]. apply Forall_cons in Hall as [Hfit Hall]. fold entry in Hfit.
  cbn [List.find].
  assert ((if negb (field32 entry 0 =? 0) then is_named name entry (block_size - offset) tt else Some (None, tt))
    = Some (if named block name offset then Some (field32 entry 0) else None, tt)) as ->.
  { unfold named. fold entry. destruct (negb (field32 entry 0 =? 0)); cbn [andb]; [|done]. unfold is_named.
    rewrite Z.eqb_sym. destruct (Z.eqb_spec (field8 entry 6) (Z.of_nat (length name))) as [E|]; cbn [negb andb]; [|done].
    rewrite ext2_name_matches_spec; [|lia|unfold entry; rewrite length_drop; lia]. cbn [mbind option_bind].
    rewrite Nat.add_0_r. by case_bool_decide. }
  cbn [mbind option_bind]. destruct (named block name offset); [done|]. apply IH; [lia|lia|done].
Qed.

(** The search through the blocks, from the bytes of the disk. *)
Fixpoint dir_find (fuel : nat) (fs : Ext2Fs) (n : Ext2Inode) (index : Z) (name : list Z) : option Z :=
  match fuel with
  | O => None
  | S fuel' =>
    if isize_ (disk_ n) <=? index * block_size_ fs then None
    else
      let b := file_block fs n index in
      if b =? 0 then None
      else
        let bytes := content d (b * block_size_ fs) (block_size_ fs) in
        match List.find (named bytes name) (entries (S (Z.to_nat (block_size_ fs))) bytes (block_size_ fs) 0) with
        | Some o => Some (field32 (drop (Z.to_nat o) bytes) 0)
        | None => dir_find fuel' fs n (index + 1) name
        end
  end.

Context (readable : forall sector, bd_read d sector 1 <> None).

Lemma not_unreadable fs block : ~ unreadable fs block.
Proof. intros (o & _ & E). by apply readable in E. Qed.

Lemma block_for_reliable fs n index a :
  fs_ok fs -> node_ok n -> 0 <= index -> ~ out_of_pages 1 a ->
  exists a', block_for d fs n index a = Some (file_block fs n index, a') /\ 0 <= file_block fs n index < 2 ^ 32 /\ balanced a a'.
Proof.
  intros Hf Hn Hi Ha. destruct (block_for_spec fs n index a Hf Hn Hi) as (b & a' & E & Hb & [Hbal|?] & Hr); [|done].
  exists a'. destruct Hr as [[-> _]|[-> [[Hr|[Hr|[_ Hr]]]|?]]]; [done| |by apply not_unreadable in Hr..|done]. by rewrite Hr.
Qed.

Lemma lookup_blocks_spec fuel fs n index name a :
  fs_ok fs -> node_ok n -> 0 <= index ->
  (forall i, 0 <= i -> file_block fs n i <> 0 ->
     laid_out (content d (file_block fs n i * block_size_ fs) (block_size_ fs)) (block_size_ fs)) ->
  (Z.to_nat (13 + block_size_ fs / 4 - index) < fuel)%nat -> index <= 12 + block_size_ fs / 4 -> ~ out_of_pages 1 a ->
  (forall k a, dir_find fuel fs n index name = Some k -> exists i fs' a', open_ d fs k a = Some (Some i, fs', a')) ->
  exists r fs' a', lookup_blocks d fuel fs n index name a = Some (r, fs', a') /\
    match dir_find fuel fs n index name with
    | None => r = None /\ fs' = fs
    | Some k => exists a1, open_ d fs k a1 = Some (r, fs', a')
    end.
Proof.
  intros Hf Hn Hi Hlay. pose proof (ok_block _ Hf) as Hbs.
  assert (256 <= block_size_ fs / 4 <= 1024 /\ block_size_ fs <= 4096 /\ 0 < block_size_ fs) as (Hq & Hb1 & Hb2).
  { destruct Hbs as [Hbs|[Hbs|Hbs]]; rewrite Hbs; dlia. }
  revert index Hi a. induction fuel as [|fuel IH]; intros index Hi a Hfu Hle Hpages Hopen; [lia|].
  cbn [lookup_blocks dir_find] in *. rewrite u32_small by (change (2 ^ 32) with 4294967296; nia).
  destruct (isize_ (disk_ n) <=? index * block_size_ fs); [by exists None, fs, a|].
  destruct (block_for_reliable fs n index a Hf Hn Hi Hpages) as (a1 & -> & Hb & Hbal). cbn [mbind option_bind].
  destruct (Z.eqb_spec (file_block fs n index) 0) as [|Hb0]; [by exists None, fs, a1|].
  assert (~ out_of_pages 1 a1) as Hpages1 by (intros ?; apply Hpages; by eapply out_of_pages_balanced).
  destruct (read_scratch_spec fs (file_block fs n index) a1 Hf Hb) as (r & a2 & -> & _ & Hr). cbn [mbind option_bind].
  destruct r as [bytes|]; [|by destruct Hr as [?%not_unreadable|?%out_of_pages_more]].
  destruct Hr as [-> Hbal2]. assert (~ out_of_pages 1 a2) as Hpages2 by (intros ?; apply Hpages1; by eapply out_of_pages_balanced). set (bytes := content d _ _) in *.
  assert (laid_out bytes (block_size_ fs)) as (Hl1 & Hl2 & Hl3) by (by apply Hlay).
  rewrite scan_named_spec by (done || lia). cbn [mbind option_bind].
  destruct (List.find (named bytes name) _) as [o|] eqn:Ef; cbn [fmap option_fmap option_map].
  - destruct (Hopen (field32 (drop (Z.to_nat o) bytes) 0) a2 eq_refl) as (i & fs' & a' & E).
    rewrite E. cbn [mbind option_bind]. exists (Some i), fs', a'. split; [done|]. by exists a2.
  - assert (index < 12 + block_size_ fs / 4) as Hlt.
    { destruct (decide (index = 12 + block_size_ fs / 4)) as [->|]; [|lia]. exfalso. apply Hb0.
      unfold file_block. destruct (Z.ltb_spec (12 + block_size_ fs / 4) 12); [lia|].
      rewrite (proj2 (Z.leb_le _ _)) by lia. done. }
    cbn [mbind option_bind]. apply IH; [lia|lia|lia|done|done].
Qed.

(** Names resolve as the directory says: on a disk that can be read, with three pages to
    be had, in a directory whose entries lie inside their blocks, [lookup] returns; it yields the inode of the first
    entry in use whose name is the wanted one, opened, and null exactly when there is
    none, in which case nothing is opened. *)
Theorem ext2_lookup_correct fs n name a :
  fs_ok fs -> node_ok n -> node_kind n = Directory -> ~ out_of_pages 2 a ->
  (forall i, 0 <= i -> file_block fs n i <> 0 ->
     laid_out (content d (file_block fs n i * block_size_ fs) (block_size_ fs)) (block_size_ fs)) ->
  (forall k a, dir_find (walk_fuel fs) fs n 0 name = Some k -> exists i fs' a', open_ d fs k a = Some (Some i, fs', a')) ->
  exists r fs' a', lookup d fs n name a = Some (r, fs', a') /\
    match dir_find (walk_fuel fs) fs n 0 name with
    | None => r = None /\ fs' = fs
    | Some k => exists a1 a2, open_ d fs k a1 = Some (r, fs', a2)
    end.
Proof.
  intros Hf Hn Hk Hpages Hlay Hopen. unfold lookup. rewrite Hk, bool_decide_eq_true_2 by done. cbn [negb].
  destruct (fa_alloc a) as [frame a1] eqn:Ea. destruct (Z.eqb_spec frame 0) as [->|E0].
  { destruct Hpages. by eapply out_of_pages_now. }
  assert (~ out_of_pages 1 a1) as Hpages1 by (intros ?; apply Hpages; by eapply out_of_pages_inside).
  pose proof (ok_block _ Hf) as Hbs.
  assert (0 <= block_size_ fs / 4) as Hq by (apply Z.div_pos; lia).
  destruct (lookup_blocks_spec (walk_fuel fs) fs n 0 name a1) as (r & fs' & a' & E & Hr);
    [done|done|lia|done|unfold walk_fuel; lia|lia|done|done|].
  rewrite E. cbn [mbind option_bind]. eexists r, fs', _. split; [done|].
  destruct (dir_find _ _ _ _ _); [|done]. destruct Hr as [a2 Hr]. by exists a2, a'.
Qed.

End ext2_proofs.

(** ** A disk given by its bytes, for demonstrations *)

#[local] Instance byte_disk : BlockDevice (Z -> Z) :=
  {| bd_sector_count := fun _ => 2 ^ 32;
     bd_read := fun f sector count => Some (f <$> seqZ (sector * sector_size) (count * sector_size));
     bd_write := fun _ _ _ _ => None |}.

#[local] Instance byte_disk_spec : BlockDeviceSpec (Z -> Z).
Proof.
  refine {| bd_byte := fun f o => f o |}. intros f sector count bytes _ _ E. by injection E as <-.
Defined.

#[local] Instance endless_frames : FrameAllocator unit :=
  {| fa_alloc _ := (4096, tt); fa_free _ _ := tt; fa_owned _ _ := True |}.

(** One directory block at 3072 with the entry "hi" for inode 5. *)
Definition demo_disk (o : Z) : Z :=
  nth (Z.to_nat (o - 3072)) (if o <? 3072 then [] else [5; 0; 0; 0; 0; 4; 2; 1; 104; 105]) 0.

Definition demo_fs : Ext2Fs :=
  mkFs true (mkSuper 100 0 100 100 ext2_magic 1 128) 1024 128 1 [mkNode 5 (mkInode 0x8000 0 (replicate 12 0) 0)].
Definition demo_dir : Ext2Inode := mkNode 2 (mkInode 0x4000 1024 (3 :: replicate 11 0) 0).

Lemma demo_bytes o : 0 <= bd_byte demo_disk o < 256.
Proof.
  cbn. unfold demo_disk. destruct (o <? 3072); [destruct (Z.to_nat _); cbn; lia|].
  destruct (nth_in_or_default (Z.to_nat (o - 3072)) [5; 0; 0; 0; 0; 4; 2; 1; 104; 105] 0) as [Hin| ->]; [|lia].
  revert Hin. generalize (nth (Z.to_nat (o - 3072)) [5; 0; 0; 0; 0; 4; 2; 1; 104; 105] 0). cbn. lia.
Qed.

Lemma demo_fs_ok : fs_ok demo_fs.
Proof. constructor; [done|by left]. Qed.

Lemma demo_dir_ok : node_ok demo_dir.
Proof. constructor; cbn; [lia|split; [done|]|lia]. repeat constructor; lia. Qed.

Lemma demo_disk_readable sector : bd_read demo_disk sector 1 <> None.
Proof. discriminate. Qed.

Lemma demo_pages n : ~ out_of_pages (A:=unit) n tt.
Proof. induction n as [|n IH]; intros ([] & _ & [E|E]); [discriminate E|done|discriminate E|]. by apply IH. Qed.

Lemma demo_find_ok : dir_find demo_disk (walk_fuel demo_fs) demo_fs demo_dir 0 [104; 105] = Some 5.
Proof. vm_compute. reflexivity. Qed.

Lemma demo_blocks i : 0 <= i -> file_block demo_disk demo_fs demo_dir i <> 0 -> i = 0.
Proof.
  intros Hi. unfold file_block. cbn [demo_dir disk_ direct indirect]. destruct (Z.ltb_spec i 12).
  - destruct (Z.to_nat i) as [|m] eqn:E; [lia|]. intros Hn. exfalso. apply Hn. cbn [nth].
    rewrite nth_lookup. destruct (replicate 11 0 !! m) as [x|] eqn:Ex; [|done]. by apply lookup_replicate in Ex as [-> _].
  - rewrite orb_true_r. done.
Qed.

Lemma demo_entries : entries 1025 (content demo_disk 3072 1024) 1024 0 = [0].
Proof. vm_compute. reflexivity. Qed.

Lemma demo_laid_out : laid_out (content demo_disk 3072 1024) 1024.
Proof.
  split_and!.
  - apply content_length. lia.
  - unfold content. apply Forall_fmap, Forall_true. intros o. cbn. apply demo_bytes.
  - change (S (Z.to_nat 1024)) with 1025%nat. rewrite demo_entries. repeat constructor. vm_compute. discriminate.
Qed.

Lemma ext2_lookup_correct_witness :
  exists r fs' a', lookup demo_disk demo_fs demo_dir [104; 105] tt = Some (r, fs', a') /\
    exists a1 a2, open_ demo_disk demo_fs 5 a1 = Some (r, fs', a2).
Proof.
  pose proof (ext2_lookup_correct (A:=unit) demo_disk demo_bytes demo_disk_readable demo_fs demo_dir [104; 105] tt
    demo_fs_ok demo_dir_ok eq_refl (demo_pages 2)) as H. rewrite demo_find_ok in H. apply H.
  - intros i Hi Hb. apply demo_blocks in Hb; [|done]. subst i. exact demo_laid_out.
  - intros k a [= <-]. exists 0%nat, demo_fs, a. reflexivity.
Defined.

Lemma ext2_read_correct_witness :
  exists out a', read demo_disk demo_fs demo_dir 8 2 tt = Some (2, out, a') /\
    out = file_byte demo_disk demo_fs demo_dir <$> seqZ 8 2.
Proof.
  destruct (ext2_read_correct (A:=unit) demo_disk demo_bytes demo_fs demo_dir 8 2 tt demo_fs_ok demo_dir_ok)
    as (r & out & a' & H1 & H2 & H3 & [H4|[Hlt [H4|H4]]] & _); [lia..| | |].
  - rewrite H4 in H2, H3. exists out, a'. rewrite H1, H3. split; [reflexivity|exact H2].
  - exfalso. destruct H4 as [H4|[(o & _ & H4)|[_ (o & _ & H4)]]]; [|discriminate H4|discriminate H4].
    change (block_size_ demo_fs) with 1024 in H4. change (Z.max 0 _) with 2 in Hlt. rewrite Z.div_small in H4 by lia. discriminate H4.
  - destruct (demo_pages 2 H4).
Defined.

(** The type test looks at one bit of the mode: a socket (0xC000) or a block device
    (0x6000) counts as a directory. *)
Lemma ext2_socket_is_directory n s i b :
  node_kind (mkNode n (mkInode 0xC1A4 s i b)) = Directory /\ node_kind (mkNode n (mkInode 0x61A4 s i b)) = Directory.
Proof. split; reflexivity. Qed.
