(* ===== verification/Devfs.v ===== *)
(** * The device file system (src/kernel/fs/devfs.cpp)

    One directory with the console and a node per block device.  Disks are numbered;
    a node keeps the number of its device. *)

From S2P Require Import Prelude Interfaces Memory Console Printk Block.

Definition max_nodes : nat := 16.
Definition max_name : nat := 24.

Record BlockNode := mkBlockNode { node_name : list Z; device_ : nat }.

(** "console". *)
Definition console_name : list Z := [99; 111; 110; 115; 111; 108; 101].

Definition bind (d : list Z * nat) : BlockNode := mkBlockNode (take (max_name - 1) d.1) d.2.

(** [devfs_refresh]: the registered devices in order, with their names. *)
Definition devfs_refresh (devices : list (list Z * nat)) : list BlockNode := bind <$> take max_nodes devices.

Definition devfs_create (devices : list (list Z * nat)) : list BlockNode := devfs_refresh devices.

Inductive node := ConsoleNode | Block (i : nat).

Fixpoint find_node (name : list Z) (i : nat) (l : list BlockNode) : option node :=
  match l with
  | [] => None
  | b :: l' => if bool_decide (node_name b = name) then Some (Block i) else find_node name (S i) l'
  end.

Definition lookup (name : list Z) (nodes : list BlockNode) : option node :=
  if bool_decide (name = console_name) then Some ConsoleNode else find_node name 0 nodes.

Definition entry_at (index : Z) (nodes : list BlockNode) : option (list Z) :=
  if index =? 0 then Some console_name else node_name <$> nodes !! Z.to_nat (index - 1).

Section nodes.
  Context {D A : Type} `{BlockDevice D} `{FrameAllocator A}.

Definition block_size (d : D) : Z := u64 (bd_sector_count d * sector_size).

(** -1 when the device cannot deliver all of it. *)
Definition block_read (d : D) (offset len : Z) (a : A) : option (Z * list Z * A) :=
  '(ok, out, a) ← read_bytes d offset len a;
  Some (if (ok : bool) then len else -1, out, a).

Definition block_write (d : D) (offset : Z) (buffer : list Z) : Z * D :=
  let len := Z.of_nat (length buffer) in
  if negb (offset mod sector_size =? 0) || negb (len mod sector_size =? 0) then (-1, d)
  else
    match bd_write d (offset / sector_size) buffer (len / sector_size) with
    | None => (-1, d)
    | Some d' => (len, d')
    end.

End nodes.

(** [ConsoleNode::write]: one character after the other. *)
Definition console_node_write (buffer : list Z) (s : Console.state) : Z * Console.state :=
  (Z.of_nat (length buffer), put_all buffer s).

(** ** Properties *)

Lemma find_node_spec name i l : match find_node name i l with
  | Some n => exists j b, n = Block (i + j) /\ l !! j = Some b /\ node_name b = name
  | None => forall b, b ∈ l -> node_name b <> name
  end.
Proof.
  revert i. induction l as [|b l IH]; intros i; cbn [find_node]; [intros b Hb; by apply elem_of_nil in Hb|].
  case_bool_decide as E; [exists 0%nat, b; by rewrite Nat.add_0_r|].
  specialize (IH (S i)). destruct (find_node name (S i) l) as [n|].
  - destruct IH as (j & c & -> & H1 & H2). exists (S j), c. by rewrite Nat.add_succ_r.
  - intros c [->|Hc]%elem_of_cons; [done|by apply IH].
Qed.

(** Listing and lookup agree: every name the directory lists can be looked up, and a
    lookup that finds a block node finds one with the name, whose device is the one
    registered under a name it abbreviates. *)
Theorem devfs_directory devices index name :
  0 <= index -> entry_at index (devfs_create devices) = Some name ->
  exists n, lookup name (devfs_create devices) = Some n /\
    match n with
    | ConsoleNode => name = console_name
    | Block i => exists d, devices !! i = Some d /\ name = take (max_name - 1) d.1
    end.
Proof.
  intros Hi E. unfold entry_at in E. unfold lookup. case_bool_decide as Ec; [by exists ConsoleNode|].
  destruct (Z.eqb_spec index 0) as [|Hne]; [congruence|].
  destruct (devfs_create devices !! Z.to_nat (index - 1)) as [b|] eqn:Eb; [|discriminate E].
  cbn in E. injection E as E. pose proof (find_node_spec name 0 (devfs_create devices)) as Hf.
  destruct (find_node name 0 (devfs_create devices)) as [n|].
  - destruct Hf as (j & c & -> & Hj & Hn). exists (Block (0 + j)). split; [done|].
    unfold devfs_create, devfs_refresh in Hj. rewrite list_lookup_fmap in Hj.
    destruct (take max_nodes devices !! j) as [d|] eqn:Ed; [|done]. cbn in Hj. injection Hj as <-.
    exists d. split; [|by rewrite <- Hn]. apply lookup_take_Some in Ed as [Ed _]. exact Ed.
  - exfalso. apply (Hf b); [by eapply list_elem_of_lookup_2|done].
Qed.

Lemma devfs_directory_witness :
  exists n, lookup [118; 100; 97] (devfs_create [([118; 100; 97], 0%nat)]) = Some n.
Proof.
  destruct (devfs_directory [([118; 100; 97], 0%nat)] 1 [118; 100; 97]) as (n & H & _); [lia|reflexivity|].
  exists n. exact H.
Defined.
