(* ===== verification/FileSystems.v ===== *)
(** * The mounted file systems together (mount_filesystems in src/kernel/main.cpp)

    The memory, device and ext2 file systems as one instance of the interface the VFS
    walks, and the mount table the kernel builds at boot. *)

From S2P Require Import Prelude Interfaces Memory Console Printk Block Vfs Ramfs Ext2 Devfs.

Inductive fs := RamFs | DevFs | Ext2.

Inductive node :=
  | RamDirectory | RamNode (i : nat)
  | DevDirectory | DevNode (n : Devfs.node)
  | Ext2Node (i : nat).

(** The state of all of them, with the disks, the consoles, the frame allocator and
    what the heap can serve: [room n] tells whether [kzalloc] of [n] bytes succeeds
    during the call at hand.  The heap itself is in Heap.v; since every theorem here holds
    for any [room], the answers may be different ones at every call. *)
Record system (D A : Type) := mkSystem {
  files : list Ramfs.RamFile; room : Z -> bool;
  nodes : list BlockNode; disks : list D; consoles : Console.state;
  ext2 : Ext2.Ext2Fs; frames : A
}.
Arguments mkSystem {D A}.
Arguments files {D A}.
Arguments room {D A}.
Arguments nodes {D A}.
Arguments disks {D A}.
Arguments consoles {D A}.
Arguments ext2 {D A}.
Arguments frames {D A}.

Section system.
  Context {D A : Type} `{BlockDevice D} `{FrameAllocator A}.

Definition set_files (x : list Ramfs.RamFile) (s : system D A) : system D A :=
  mkSystem x (room s) (nodes s) (disks s) (consoles s) (ext2 s) (frames s).
Definition set_consoles (x : Console.state) (s : system D A) : system D A :=
  mkSystem (files s) (room s) (nodes s) (disks s) x (ext2 s) (frames s).
Definition set_disks (x : list D) (s : system D A) : system D A :=
  mkSystem (files s) (room s) (nodes s) x (consoles s) (ext2 s) (frames s).
Definition set_ext2 (x : Ext2.Ext2Fs) (a : A) (s : system D A) : system D A :=
  mkSystem (files s) (room s) (nodes s) (disks s) (consoles s) x a.
Definition set_frames (a : A) (s : system D A) : system D A := set_ext2 (ext2 s) a s.

(** The disk behind a node of /dev. *)
Definition disk_of (i : nat) (s : system D A) : option (nat * D) :=
  b ← nodes s !! i; d ← disks s !! device_ b; Some (device_ b, d).

(** "ramfs", "devfs" and "ext2". *)
Definition name_of (f : fs) : list Z :=
  match f with
  | RamFs => [114; 97; 109; 102; 115]
  | DevFs => [100; 101; 118; 102; 115]
  | Ext2 => [101; 120; 116; 50]
  end.

(** The ext2 image is on the first disk. *)
Definition root_of (f : fs) (s : system D A) : option (option node * system D A) :=
  match f with
  | RamFs => Some (Some RamDirectory, s)
  | DevFs => Some (Some DevDirectory, s)
  | Ext2 =>
    d ← disks s !! 0%nat;
    '(r, e, a) ← Ext2.root d (ext2 s) (frames s);
    Some (option_map Ext2Node r, set_ext2 e a s)
  end.

Definition type_of (n : node) (s : system D A) : NodeType :=
  match n with
  | RamDirectory | DevDirectory => Directory
  | RamNode _ => File
  | DevNode _ => Device
  | Ext2Node i => match Ext2.inodes (ext2 s) !! i with Some e => Ext2.node_kind e | None => File end
  end.

Definition size_of (n : node) (s : system D A) : Z :=
  match n with
  | RamDirectory | DevDirectory | DevNode ConsoleNode => 0
  | RamNode i => match files s !! i with Some f => Ramfs.size_ f | None => 0 end
  | DevNode (Block i) => match disk_of i s with Some (_, d) => Devfs.block_size d | None => 0 end
  | Ext2Node i => match Ext2.inodes (ext2 s) !! i with Some e => Ext2.isize_ (Ext2.disk_ e) | None => 0 end
  end.

Definition read_node (n : node) (offset len : Z) (s : system D A) : option (Z * list Z * system D A) :=
  match n with
  | RamDirectory | DevDirectory => Some (-1, [], s)
  | RamNode i => f ← files s !! i; '(r, out) ← Ramfs.read f offset len; Some (r, out, s)
  | DevNode ConsoleNode => Some (0, [], s)
  | DevNode (Block i) =>
    '(_, d) ← disk_of i s; '(r, out, a) ← Devfs.block_read d offset len (frames s); Some (r, out, set_frames a s)
  | Ext2Node i =>
    d ← disks s !! 0%nat; e ← Ext2.inodes (ext2 s) !! i;
    '(r, out, a) ← Ext2.read d (ext2 s) e offset len (frames s); Some (r, out, set_frames a s)
  end.

(** Directories and ext2 inodes inherit [Inode::write], which refuses. *)
Definition write_node (n : node) (offset : Z) (buffer : list Z) (s : system D A) : option (Z * system D A) :=
  match n with
  | RamDirectory | DevDirectory | Ext2Node _ => Some (-1, s)
  | RamNode i =>
    f ← files s !! i; '(r, f) ← Ramfs.write (room s) offset buffer f;
    Some (r, set_files (<[i := f]> (files s)) s)
  | DevNode ConsoleNode => let '(r, c) := Devfs.console_node_write buffer (consoles s) in Some (r, set_consoles c s)
  | DevNode (Block i) =>
    '(k, d) ← disk_of i s; let '(r, d) := Devfs.block_write d offset buffer in Some (r, set_disks (<[k := d]> (disks s)) s)
  end.

(** Files inherit [Inode::lookup] and [Inode::entry_at], which return null. *)
Definition lookup_node (n : node) (name : list Z) (s : system D A) : option (option node * system D A) :=
  match n with
  | RamDirectory => Some (option_map RamNode (Ramfs.lookup name (files s)), s)
  | DevDirectory => Some (option_map DevNode (Devfs.lookup name (nodes s)), s)
  | RamNode _ | DevNode _ => Some (None, s)
  | Ext2Node i =>
    d ← disks s !! 0%nat; e ← Ext2.inodes (ext2 s) !! i;
    '(r, x, a) ← Ext2.lookup d (ext2 s) e name (frames s); Some (option_map Ext2Node r, set_ext2 x a s)
  end.

Definition entry_of (n : node) (index : Z) (s : system D A) : option (option (list Z) * system D A) :=
  match n with
  | RamDirectory => Some (Ramfs.entry_at index (files s), s)
  | DevDirectory => Some (Devfs.entry_at index (nodes s), s)
  | RamNode _ | DevNode _ => Some (None, s)
  | Ext2Node i =>
    d ← disks s !! 0%nat; e ← Ext2.inodes (ext2 s) !! i;
    '(r, a) ← Ext2.entry_at d (ext2 s) e index (frames s); Some (r, set_frames a s)
  end.

#[export] Instance all_filesystems : FileSystems (system D A) node fs := {|
  fs_name := name_of; fs_root := root_of; node_type := type_of; node_size := size_of;
  node_read := read_node; node_write := write_node; node_lookup := lookup_node; node_entry_at := entry_of
|}.

(** "/", "/dev" and "/mnt", the last when the first disk holds an ext2 image. *)
Definition mount_filesystems (has_ext2 : bool) : list (Mount fs) :=
  let ms := Vfs.init [] in
  let ms := (Vfs.mount (Some [47]) (Some RamFs) ms).2 in
  let ms := (Vfs.mount (Some [47; 100; 101; 118]) (Some DevFs) ms).2 in
  if has_ext2 then (Vfs.mount (Some [47; 109; 110; 116]) (Some Ext2) ms).2 else ms.

(** ** Paths in the root directory *)

(** A name that fits a file's field and is not a mount point. *)
Definition plain_name (name : list Z) : Prop :=
  name <> [] /\ (length name <= 31)%nat /\ Forall (fun c => c <> 47 /\ c <> 0) name /\
  name <> [100; 101; 118] /\ name <> [109; 110; 116].

Lemma at_name name i : Forall (fun c => c <> 47 /\ c <> 0) name ->
  at_ name i <> 47 /\ (at_ name i = 0 -> (length name <= i)%nat).
Proof.
  intros Hf. unfold at_. rewrite nth_lookup. destruct (name !! i) as [c|] eqn:E; cbn.
  - rewrite Forall_lookup in Hf. by destruct (Hf _ _ E).
  - apply lookup_ge_None in E. split; [lia|done].
Qed.

Lemma three_bytes name a b c : Forall (fun c => c <> 47 /\ c <> 0) name ->
  at_ name 0 = a -> at_ name 1 = b -> at_ name 2 = c -> a <> 0 -> b <> 0 -> c <> 0 -> at_ name 3 = 0 \/ at_ name 3 = 47 ->
  name = [a; b; c].
Proof.
  intros Hf Ha Hb Hc Ha0 Hb0 Hc0 Hd. destruct (at_name name 3 Hf) as [H47 Hz].
  assert (length name <= 3)%nat as Hl by (destruct Hd; [by apply Hz|done]).
  destruct name as [|x [|y [|z [|w name]]]]; cbn in *; try lia; try congruence.
Qed.

Lemma root_mount name has_ext2 : plain_name name ->
  mount_for (mount_filesystems has_ext2) (47 :: name) = Some (mkMount [47] RamFs, 47 :: name).
Proof.
  intros (Hne & Hl & Hf & Hdev & Hmnt). unfold mount_for.
  assert (covers (47 :: name) (mkMount [47] RamFs) = true) as C1 by reflexivity.
  assert (covers (47 :: name) (mkMount [47; 100; 101; 118] DevFs) = false) as C2.
  { apply not_true_is_false. rewrite covers_spec. intros [Hp He]. cbn in Hp, He. apply Hdev.
    apply (three_bytes name); [done|..|lia|lia|lia|].
    - exact (Hp 1%nat ltac:(lia)).
    - exact (Hp 2%nat ltac:(lia)).
    - exact (Hp 3%nat ltac:(lia)).
    - destruct He as [?|He]; [lia|exact He]. }
  assert (covers (47 :: name) (mkMount [47; 109; 110; 116] Ext2) = false) as C3.
  { apply not_true_is_false. rewrite covers_spec. intros [Hp He]. cbn in Hp, He. apply Hmnt.
    apply (three_bytes name); [done|..|lia|lia|lia|].
    - exact (Hp 1%nat ltac:(lia)).
    - exact (Hp 2%nat ltac:(lia)).
    - exact (Hp 3%nat ltac:(lia)).
    - destruct He as [?|He]; [lia|exact He]. }
  destruct has_ext2; cbn [mount_filesystems Vfs.init Vfs.mount at_ nth Z.eqb Pos.eqb negb max_mounts Nat.leb length app snd max_path Nat.sub take];
    cbn [mount_loop]; rewrite C1, C2, ?C3; reflexivity.
Qed.

Lemma plain_components name : plain_name name -> components (47 :: name) [] = [name].
Proof.
  intros (Hne & _ & Hf & _). cbn [components Z.eqb Pos.eqb]. rewrite decide_True by done. cbn [app].
  rewrite <- (app_nil_r name) at 1. rewrite components_cons; [done|done| |by left].
  eapply Forall_impl; [exact Hf|]. by intros c [? _].
Qed.

Lemma resolve_plain name has_ext2 (s : system D A) : plain_name name ->
  resolve (mount_filesystems has_ext2) (Some (47 :: name)) s = Some (option_map RamNode (Ramfs.find name (files s)), s).
Proof.
  intros Hp. unfold resolve. cbn [at_ nth Z.eqb Pos.eqb negb]. rewrite root_mount by done.
  cbn [fs_root all_filesystems root_of filesystem mbind option_bind].
  rewrite walk_spec; [|lia|rewrite plain_components by done; constructor; [destruct Hp as (_ & ? & _); lia|done]].
  rewrite plain_components by done. cbn [lookup_all node_lookup all_filesystems lookup_node mbind option_bind].
  unfold Ramfs.lookup. by destruct (Ramfs.find name (files s)).
Qed.

(** C23: A file is what was last written to it: after [ramfs_create_file] for a plain name,
    writing a buffer to "/name" and reading as many bytes back from the same path gives
    the buffer, unless the heap ran out, in which case the write says so. *)
Theorem file_write_read name buffer has_ext2 (s : system D A) i files' :
  plain_name name -> directory_ok (files s) -> Z.of_nat (length buffer) <= 2 ^ 63 ->
  ramfs_create_file name (files s) = (Some i, files') ->
  let ms := mount_filesystems has_ext2 in
  let p := Some (47 :: name) in
  let len := Z.of_nat (length buffer) in
  exists r s2, write_file ms p buffer (set_files files' s) = Some (r, s2) /\
    (r = len /\ read_file ms p len s2 = Some (len, buffer, s2) \/
     r = -1 /\ exists n, len <= n /\ room s n = false).
Proof.
  intros Hp Hd Hlen Ec ms p len.
  pose proof (ramfs_create_found name (files s) i files' Hd ltac:(destruct Hp as (_ & ? & _); unfold Ramfs.max_name; lia) Ec)
    as (Hd' & Hfind & f & Hi).
  unfold write_file, ms, p. rewrite resolve_plain by done. cbn [set_files files]. rewrite Hfind.
  cbn [fmap option_fmap option_map mbind option_bind node_type all_filesystems type_of].
  rewrite bool_decide_eq_false_2 by done. cbn [node_write all_filesystems write_node set_files files room]. rewrite Hi.
  cbn [mbind option_bind]. assert (Ramfs.wf f) as Hw.
  { pose proof (dir_wf _ Hd') as HF. rewrite Forall_lookup in HF. by apply (HF _ _ Hi). }
  destruct (write_spec (room s) 0 buffer f Hw ltac:(lia) ltac:(lia)) as (r & f' & Ew & Hw' & H1).
  pose proof (write_keeps _ _ _ _ _ _ Ew) as Hkeep. rewrite Ew. cbn [mbind option_bind]. eexists r, _. split; [reflexivity|].
  destruct H1 as [(-> & _ & n & H2 & H3)|(-> & Hsz & Hb)]; [right; split; [done|by exists n]|left]. split; [done|].
  unfold read_file. rewrite resolve_plain by done. cbn [set_files files].
  rewrite (ram_find_insert name files' i f f' Hfind Hi Hkeep). cbn [fmap option_fmap option_map mbind option_bind node_type all_filesystems type_of].
  rewrite bool_decide_eq_false_2 by done. cbn [node_read all_filesystems read_node set_files files].
  rewrite list_lookup_insert_eq by (by eapply lookup_lt_Some). cbn [mbind option_bind].
  unfold len. destruct (read_spec f' 0 (Z.of_nat (length buffer)) Hw' ltac:(lia) ltac:(lia)) as (bytes & -> & Hbl & Hbb).
  cbn [mbind option_bind]. assert (length bytes = length buffer) as El by lia.
  assert (bytes = buffer) as ->; [|done].
  apply list_eq. intros k. destruct (decide (k < length buffer)%nat) as [Hk|Hk]; [|rewrite !lookup_ge_None_2 by lia; done].
  specialize (Hbb (Z.of_nat k) ltac:(lia)). rewrite Hb in Hbb by lia. rewrite decide_True in Hbb by lia.
  rewrite !nth_lookup in Hbb. replace (Z.to_nat (0 + Z.of_nat k - 0)) with k in Hbb by lia. rewrite Nat2Z.id in Hbb.
  destruct (lookup_lt_is_Some_2 buffer k Hk) as [x Hx]. destruct (lookup_lt_is_Some_2 bytes k ltac:(lia)) as [y Hy].
  rewrite Hx, Hy in *. cbn in Hbb. congruence.
Qed.

(** "/dev/console" reaches the consoles: writing a text to it appends exactly the text to
    what every registered console has been given, and returns its length. *)
Theorem console_through_vfs text has_ext2 (s : system D A) :
  Console.inv (consoles s) ->
  exists s', write_file (mount_filesystems has_ext2) (Some ([47; 100; 101; 118; 47] ++ console_name)) text s
      = Some (Z.of_nat (length text), s') /\
    Console.consoles (consoles s') = Console.consoles (consoles s) /\
    forall d, seen (consoles s') d
      = seen (consoles s) d ++ (if decide (d ∈ Console.consoles (consoles s)) then text else []).
Proof.
  intros Hi.
  assert (resolve (mount_filesystems has_ext2) (Some ([47; 100; 101; 118; 47] ++ console_name)) s
    = Some (Some (DevNode ConsoleNode), s)) as E by (destruct has_ext2; reflexivity).
  unfold write_file. rewrite E. cbn [mbind option_bind node_type all_filesystems type_of].
  rewrite bool_decide_eq_false_2 by done. cbn [node_write all_filesystems write_node console_node_write].
  eexists. split; [reflexivity|]. cbn [set_consoles consoles]. apply put_all_seen. apply (inv_nodup _ Hi).
Qed.

End system.

#[local] Instance no_disk : BlockDevice unit :=
  {| bd_sector_count := fun _ => 0; bd_read := fun _ _ _ => None; bd_write := fun _ _ _ _ => None |}.
#[local] Instance no_frames : FrameAllocator unit :=
  {| fa_alloc _ := (0, tt); fa_free _ _ := tt; fa_owned _ _ := True |}.

(** An empty system with one console. *)
Definition demo_system : system unit unit :=
  mkSystem Ramfs.initial (fun _ => true) [] [] (Console.mk [7] []) Ext2.initial tt.

Definition demo_name : list Z := [110; 111; 116; 101; 115].

Lemma file_write_read_witness :
  exists files' r s2, ramfs_create_file demo_name (files demo_system) = (Some 0%nat, files') /\
    write_file (mount_filesystems false) (Some (47 :: demo_name)) [104; 105] (set_files files' demo_system) = Some (r, s2) /\
    r = 2 /\ read_file (mount_filesystems false) (Some (47 :: demo_name)) 2 s2 = Some (2, [104; 105], s2).
Proof.
  assert (plain_name demo_name) as Hp.
  { split_and!; [discriminate|cbn; lia|repeat constructor; lia|discriminate|discriminate]. }
  destruct (ramfs_create_file demo_name (files demo_system)) as [[i|] files'] eqn:E; [|discriminate E].
  assert (i = 0%nat) as -> by (by injection E as <- _).
  destruct (file_write_read demo_name [104; 105] false demo_system 0 files' Hp initial_directory ltac:(cbn; lia) E)
    as (r & s2 & H1 & [[H2 H3]|[H2 (n & _ & H3)]]); [|discriminate H3].
  exists files', r, s2. split_and!; [reflexivity|exact H1|exact H2|exact H3].
Defined.

Lemma console_through_vfs_witness :
  exists s', write_file (mount_filesystems true) (Some ([47; 100; 101; 118; 47] ++ console_name)) [104; 105] demo_system
      = Some (2, s') /\ seen (consoles s') 7 = [104; 105].
Proof.
  destruct (console_through_vfs [104; 105] true demo_system) as (s' & H1 & _ & H2).
  - constructor; [apply NoDup_singleton|unfold max_consoles; cbn; lia|]. cbn. rewrite list_elem_of_singleton. lia.
  - exists s'. split; [exact H1|]. rewrite H2. reflexivity.
Defined.

Lemma resolve_walks_witness :
  resolve (mount_filesystems true) (Some ([47; 100; 101; 118; 47] ++ console_name)) demo_system
  = lookup_all DevDirectory [console_name] demo_system.
Proof.
  rewrite (resolve_walks (mount_filesystems true) ([47; 100; 101; 118; 47] ++ console_name) demo_system
    (mkMount [47; 100; 101; 118] DevFs) ([47] ++ console_name)).
  - reflexivity.
  - reflexivity.
  - reflexivity.
  - vm_compute. repeat constructor; lia.
Defined.
