(* ===== verification/Process.v ===== *)
(** * Processes (src/kernel/proc/process.cpp, src/include/eris/process.hpp)

    State: the process records (the first [process_total] of the array), which one is
    running, the address space being filled and the bytes of physical memory, which
    the kernel reaches through its direct map.  The address space and the frames come
    through the mapper interface.  A program file is its bytes; reading past them is
    [None], as in the kernel nothing checks the offsets of its headers. *)

From S2P Require Import Prelude Interfaces Memory PageAlloc PagingInit Paging UserSpace Elf.

Definition max_processes : nat := 8.
Definition max_program_bytes : Z := Z.shiftl 1 20.
Definition user_stack_top : Z := user_base + 0x40000000.
Definition user_stack_pages : Z := 16.
Definition name_length : nat := 24.

Inductive ProcessState := Ready | Running | Exited.

Record Process := mkProcess {
  name_ : list Z; id_ : Z; state_ : ProcessState; exit_code_ : Z; entry_ : Z; brk_ : Z; page_count_ : Z
}.

Definition set_entry (x : Z) (p : Process) : Process :=
  mkProcess (name_ p) (id_ p) (state_ p) (exit_code_ p) x (brk_ p) (page_count_ p).
Definition set_brk (x : Z) (p : Process) : Process :=
  mkProcess (name_ p) (id_ p) (state_ p) (exit_code_ p) (entry_ p) x (page_count_ p).
Definition add_page (p : Process) : Process :=
  mkProcess (name_ p) (id_ p) (state_ p) (exit_code_ p) (entry_ p) (brk_ p) (u64 (page_count_ p + 1)).

Record ProgramHeader := mkProgram {
  p_type : Z; p_flags : Z; p_offset : Z; virtual_address : Z; file_size : Z; memory_size : Z
}.

Definition sizeof_ProgramHeader : Z := 56.

Definition parse_program (b : list Z) (o : Z) : option ProgramHeader :=
  t ← field 4 b o; f ← field 4 b (o + 4); off ← field 8 b (o + 8); va ← field 8 b (o + 16);
  fs ← field 8 b (o + 32); ms ← field 8 b (o + 40); Some (mkProgram t f off va fs ms).

Definition program_load : Z := 1.
Definition program_flag_execute : Z := 1.
Definition program_flag_write : Z := 2.

(** ** The process table *)

(** The copy of a name into [name_], cut to what fits before the terminator. *)
Definition take_name (name : list Z) : list Z := take (name_length - 1) name.

(** The record the zeroed slot becomes, and its index. *)
Definition allocate (name : list Z) (ps : list Process) : option nat * list Process :=
  if (max_processes <=? length ps)%nat then (None, ps)
  else
    let p := mkProcess (take_name name) (Z.of_nat (length ps) + 1) Ready 0 0 0 0 in
    (Some (length ps), ps ++ [p]).

Definition process_count (ps : list Process) : nat := length ps.
Definition process_at (index : nat) (ps : list Process) : option Process := ps !! index.

Definition exit (code : Z) (p : Process) : Process :=
  mkProcess (name_ p) (id_ p) Exited code (entry_ p) (brk_ p) (page_count_ p).

(** [running] is the index of the process. *)
Definition activate (i : nat) (ps : list Process) : option nat * list Process :=
  (Some i, alter (fun p => mkProcess (name_ p) (id_ p) Running (exit_code_ p) (entry_ p) (brk_ p) (page_count_ p)) i ps).

(** [ProcessTable::release]: nobody runs. *)
Definition release : option nat := None.

(** The last component of the path. *)
Fixpoint base_name (path : list Z) (name : list Z) : list Z :=
  match path with
  | [] => name
  | c :: rest => base_name rest (if c =? 47 then rest else name)
  end.

Section loading.
Context {M : Type} `{UserSpaces M}.

Record world := mkWorld { space : M; mem : gmap Z Z }.

(** [memset(phys_to_virt(frame), 0, page_size)]. *)
Definition zero_frame (frame : Z) (m : gmap Z Z) : gmap Z Z :=
  for_z 0 page_size (fun i => <[phys_to_virt frame + i := 0]>) m.

(** The loops that give [n] pages from [base] on a fresh frame each. *)
Fixpoint map_fresh (n : nat) (i base flags : Z) (p : Process) (w : world) : bool * Process * world :=
  match n with
  | O => (true, p, w)
  | S n =>
    let (frame, m) := pm_alloc (space w) in
    if frame =? 0 then (false, p, mkWorld m (mem w))
    else
      let bytes := zero_frame frame (mem w) in
      let (ok, m) := pm_map m (u64 (base + i * page_size)) frame page_size flags in
      if ok then map_fresh n (i + 1) base flags (add_page p) (mkWorld m bytes)
      else (false, p, mkWorld m bytes)
  end.

(** The image goes through the direct map byte by byte. *)
Fixpoint copy_segment (n : nat) (offset : Z) (s : ProgramHeader) (image : list Z) (w : world) : option (bool * world) :=
  match n with
  | O => Some (true, w)
  | S n =>
    let where_ := u64 (virtual_address s + offset) in
    let frame := pm_translate (space w) where_ in
    if frame =? 0 then Some (false, w)
    else
      b ← byte_at image (u64 (p_offset s + offset));
      copy_segment n (offset + 1) s image (mkWorld (space w) (<[phys_to_virt frame := b]> (mem w)))
  end.

Definition seg_start (s : ProgramHeader) : Z := Z.land (virtual_address s) (not64 (page_size - 1)).

Definition seg_pages (s : ProgramHeader) : Z :=
  u64 (u64 (memory_size s + u64 (virtual_address s - seg_start s)) + page_size - 1) / page_size.

Definition executable (s : ProgramHeader) : bool := negb (Z.land (p_flags s) program_flag_execute =? 0).
Definition writable (s : ProgramHeader) : bool := negb (Z.land (p_flags s) program_flag_write =? 0).

Definition load_flags (s : ProgramHeader) : Z :=
  let flags := flags_or PageFlags_User PageFlags_Write in
  if executable s then flags else flags_or flags PageFlags_NoExecute.

Definition final_flags (s : ProgramHeader) : Z :=
  if executable s then PageFlags_User else flags_or PageFlags_User PageFlags_NoExecute.

Definition load_segment (s : ProgramHeader) (image : list Z) (p : Process) (w : world) : option (bool * Process * world) :=
  if virtual_address s <? user_base then Some (false, p, w)
  else
    let '(ok, p, w) := map_fresh (Z.to_nat (seg_pages s)) 0 (seg_start s) (load_flags s) p w in
    if negb ok then Some (false, p, w)
    else
      '(ok, w) ← copy_segment (Z.to_nat (file_size s)) 0 s image w;
      if negb (ok : bool) then Some (false, p, w)
      else
        let end_ := u64 (virtual_address s + memory_size s) in
        let p := if brk_ p <? end_ then set_brk end_ p else p in
        let w := if writable s then w
                 else mkWorld (pm_protect (space w) (seg_start s) (u64 (seg_pages s * page_size)) (final_flags s)).2 (mem w) in
        Some (true, p, w).

Definition loadable (s : ProgramHeader) : bool := (p_type s =? program_load) && negb (memory_size s =? 0).

Fixpoint load_segments (n : nat) (i : Z) (h : Header) (image : list Z) (p : Process) (w : world) :
    option (bool * Process * world) :=
  match n with
  | O => Some (true, p, w)
  | S n =>
    s ← parse_program image (program_header_offset h + i * sizeof_ProgramHeader);
    if negb (loadable s) then load_segments n (i + 1) h image p w
    else
      '(ok, p, w) ← load_segment s image p w;
      if ok : bool then load_segments n (i + 1) h image p w else Some (false, p, w)
  end.

Definition load (image : list Z) (p : Process) (w : world) : option (bool * Process * world) :=
  if Z.of_nat (length image) <? sizeof_Header then Some (false, p, w)
  else
    h ← parse_header image;
    if negb (has_magic h) || negb (machine h =? machine_x86_64) then Some (false, p, w)
    else if negb (type_ h =? 2) then Some (false, p, w)
    else
      let (ok, m) := us_create (space w) in
      let w := mkWorld m (mem w) in
      if negb ok then Some (false, p, w)
      else load_segments (Z.to_nat (program_header_count h)) 0 h image (set_entry (Elf.entry h) p) w.

Definition map_stack (p : Process) (w : world) : bool * Process * world :=
  let base := user_stack_top - user_stack_pages * page_size in
  map_fresh (Z.to_nat user_stack_pages) 0 base
    (flags_or (flags_or PageFlags_User PageFlags_Write) PageFlags_NoExecute) p w.

(** [Process::owns]. *)
Definition owns (m : M) (address len : Z) : bool :=
  if (address <? user_base) || (max_program_bytes <? len) then false
  else negb (pm_translate m address =? 0) && negb (pm_translate m (u64 (u64 (address + len) - 1)) =? 0).

End loading.
Arguments world : clear implicits.

(** ** What the process sees *)

Section correctness.
Context {M : Type} `{UserSpacesSpec M} `{!PageMapperSpec M}.
Implicit Types (w : world M).

(** The byte at a user address, when it is mapped. *)
Definition view w (va : Z) : option Z :=
  let pa := pm_translate (space w) va in if pa =? 0 then None else mem w !! pa.

(** The pages [V] of user space are on frames of their own, nothing else of it is
    mapped, and below it everything is as in [k]. *)
Record uinv (k : Z -> Z) (V : gmap Z Z) w : Prop := {
  u_wf : exists D, pm_wf (space w) D /\ forall pg f, V !! pg = Some f -> f ∈ D;
  u_page pg f : V !! pg = Some f ->
    user_base <= pg /\ pg + page_size <= 2 ^ 48 /\ pg mod page_size = 0 /\ 0 < f < 2 ^ 30 /\ f mod page_size = 0;
  u_at pg f i : V !! pg = Some f -> 0 <= i < page_size -> pm_translate (space w) (pg + i) = f + i;
  u_inj pg pg' f : V !! pg = Some f -> V !! pg' = Some f -> pg = pg';
  u_none va : user_base <= va < 2 ^ 48 -> V !! page_base va = None -> pm_translate (space w) va = 0;
  u_kernel va : 0 <= va < user_base -> pm_translate (space w) va = k va;
  u_mem pg f i : V !! pg = Some f -> 0 <= i < page_size -> is_Some (mem w !! (f + i))
}.

Lemma zero_frame_lookup f m a : zero_frame f m !! a = if (f <=? a) && (a <? f + page_size) then Some 0 else m !! a.
Proof.
  unfold zero_frame, phys_to_virt.
  enough (forall n, 0 <= n -> for_z 0 n (fun i => <[f + i := 0]>) m !! a = if (f <=? a) && (a <? f + n) then Some 0 else m !! a) as Hn
    by (apply Hn; by unfold page_size).
  intros n Hn. apply (for_z_ind (fun k (m' : gmap Z Z) => m' !! a = if (f <=? a) && (a <? f + k) then Some 0 else m !! a)); [lia| |].
  - rewrite Z.add_0_r. destruct (Z.leb_spec f a), (Z.ltb_spec a f); cbn; (done || lia).
  - intros i m' Hi IH. destruct (decide (a = f + i)) as [->|Hne].
    + rewrite lookup_insert_eq. rewrite (proj2 (Z.leb_le _ _)), (proj2 (Z.ltb_lt _ _)) by lia. done.
    + rewrite lookup_insert_ne, IH by done. destruct (Z.leb_spec f a), (Z.ltb_spec a (f + i)), (Z.ltb_spec a (f + (i + 1))); cbn; (done || lia).
Qed.

(** A user address is a page and an offset. *)
Lemma page_split va : va = page_base va + va mod page_size /\ 0 <= va mod page_size < page_size /\ page_base va mod page_size = 0.
Proof. unfold page_base, page_size. split; [dlia|]. split; [dlia|]. by apply Z.mod_mul. Qed.

Lemma page_base_add pg i : pg mod page_size = 0 -> 0 <= i < page_size -> page_base (pg + i) = pg.
Proof. unfold page_base, page_size. intros. dlia. Qed.

Lemma u_translate k V w va f : uinv k V w -> V !! page_base va = Some f ->
  pm_translate (space w) va = f + va mod page_size.
Proof. intros Hu Hf. destruct (page_split va) as (Hva & Hr & _). rewrite Hva at 1. by apply (u_at _ _ _ Hu). Qed.

Lemma u_translate_inj k V w va va' f f' : uinv k V w -> V !! page_base va = Some f -> V !! page_base va' = Some f' ->
  f + va mod page_size = f' + va' mod page_size -> va = va'.
Proof.
  intros Hu Hf Hf' E. destruct (page_split va) as (Hva & Hr & _), (page_split va') as (Hva' & Hr' & _).
  destruct (u_page _ _ _ Hu _ _ Hf) as (_ & _ & _ & _ & Hm), (u_page _ _ _ Hu _ _ Hf') as (_ & _ & _ & _ & Hm').
  assert (f = f') as <- by (unfold page_size in *; dlia).
  pose proof (u_inj _ _ _ Hu _ _ _ Hf Hf') as Hpg. lia.
Qed.

(** One more page. *)
Lemma fresh_page k V w pg f m1 m2 flags :
  uinv k V w -> user_base <= pg -> pg + page_size <= 2 ^ 48 -> pg mod page_size = 0 -> V !! pg = None ->
  pm_alloc (space w) = (f, m1) -> f <> 0 -> pm_map m1 pg f page_size flags = (true, m2) ->
  let w' := mkWorld m2 (zero_frame f (mem w)) in
  uinv k (<[pg := f]> V) w' /\
  (forall va, user_base <= va < 2 ^ 48 -> view w' va = if page_base va =? pg then Some 0 else view w va).
Proof.
  intros Hu Hpg Hpg' Hal Hnone Ea Hf Em w'. destruct (u_wf _ _ _ Hu) as (D & HD & HVD).
  destruct (pm_alloc_spec _ _ _ _ HD Ea) as [Hsame1 Hwf1]. rewrite (proj2 (Z.eqb_neq _ _) Hf) in Hwf1.
  destruct Hwf1 as (Hwf1 & HfD & Hfr & Hfm). assert (user_base = 2 ^ 39) as Hub by done.
  assert (pm_span page_size = page_size) as Hspan by done.
  assert (pm_range pg page_size) as Hrange by (split_and!; [lia|done|done|rewrite Hspan; lia]).
  assert (f + pm_span page_size <= 2 ^ 52) as Hspan2 by (rewrite Hspan; unfold page_size; lia).
  assert (0 <= f) as Hf0 by lia.
  destruct (pm_map_spec _ _ _ _ _ _ _ _ Hwf1 Hrange Hf0 Hfm Hspan2 Em) as (Hwf2 & Hsame2 & Hin).
  rewrite Hspan in *. specialize (Hin eq_refl).
  assert (forall va, 0 <= va < 2 ^ 48 -> ~ pg <= va < pg + page_size -> pm_translate m2 va = pm_translate (space w) va) as Hout.
  { intros va Hva Hn. rewrite Hsame2 by done. apply Hsame1; [done|lia]. }
  assert (forall pg', user_base <= pg' -> pg' + page_size <= 2 ^ 48 -> pg' mod page_size = 0 -> pg' <> pg ->
    forall i, 0 <= i < page_size -> pm_translate m2 (pg' + i) = pm_translate (space w) (pg' + i)) as Hother.
  { intros pg' ? ? ? Hne i Hi. apply Hout; [lia|]. unfold page_size in *. dlia. }
  split.
  - constructor; cbn [space w'].
    + exists ({[f]} ∪ D). split; [done|]. intros pg' g Hg. apply lookup_insert_Some in Hg as [[_ <-]|[_ Hg]]; [set_solver|].
      apply elem_of_union. right. by eapply HVD.
    + intros pg' g Hg. apply lookup_insert_Some in Hg as [[<- <-]|[_ Hg]]; [split_and!; (done || lia)|]. by apply (u_page _ _ _ Hu).
    + intros pg' g i Hg Hi. apply lookup_insert_Some in Hg as [[<- <-]|[Hne Hg]].
      * rewrite Hin by lia. lia.
      * destruct (u_page _ _ _ Hu _ _ Hg) as (? & ? & ? & _). rewrite Hother by done. by apply (u_at _ _ _ Hu).
    + intros pg1 pg2 g Hg1 Hg2. apply lookup_insert_Some in Hg1 as [[<- <-]|[Hn1 Hg1]], Hg2 as [[E2 E2']|[Hn2 Hg2]]; subst; try done.
      * by apply HVD in Hg2.
      * by apply HVD in Hg1.
      * by eapply (u_inj _ _ _ Hu).
    + intros va Hva Hn. apply lookup_insert_None in Hn as [Hn Hne]. rewrite Hout; [by apply (u_none _ _ _ Hu)|lia|].
      intros Hr. apply Hne. symmetry. unfold page_base, page_size in *. dlia.
    + intros va Hva. rewrite Hout by lia. by apply (u_kernel _ _ _ Hu).
    + intros pg' g i Hg Hi. unfold w'. cbn [mem]. rewrite zero_frame_lookup. destruct (_ && _) eqn:Ein; [by eexists|].
      apply lookup_insert_Some in Hg as [[_ <-]|[_ Hg]]; [|by eapply (u_mem _ _ _ Hu)].
      rewrite (proj2 (Z.leb_le _ _)), (proj2 (Z.ltb_lt _ _)) in Ein by lia. done.
  - intros va Hva. unfold view, w'. cbn [space mem]. rewrite zero_frame_lookup. destruct (page_split va) as (E & Hr & _).
    destruct (Z.eqb_spec (page_base va) pg) as [Hp|Hp].
    + rewrite Hin by lia. rewrite (proj2 (Z.eqb_neq _ _)) by lia. rewrite (proj2 (Z.leb_le _ _)), (proj2 (Z.ltb_lt _ _)) by lia. done.
    + assert (~ pg <= va < pg + page_size) as Hn by (intros ?; apply Hp; unfold page_base, page_size in *; dlia).
      rewrite Hout by (done || lia). destruct (Z.eqb_spec (pm_translate (space w) va) 0) as [|Ht]; [done|].
      destruct (V !! page_base va) as [g|] eqn:Hg; [|by rewrite (u_none _ _ _ Hu va Hva Hg) in Ht].
      rewrite (u_translate _ _ _ _ _ Hu Hg). assert (g <> f) as Hgf by (intros ->; by apply HVD in Hg).
      destruct (u_page _ _ _ Hu _ _ Hg) as (_ & _ & _ & _ & Hgm).
      replace ((f <=? g + va mod page_size) && (g + va mod page_size <? f + page_size)) with false; [done|].
      symmetry. apply andb_false_iff. rewrite Z.leb_gt, Z.ltb_ge. unfold page_size in *. dlia.
Qed.

Definition in_pages (lo n va : Z) : bool := (lo <=? va) && (va <? lo + n * page_size).

Lemma map_fresh_spec k n : forall i base flags p w V p' w',
  uinv k V w -> base mod page_size = 0 -> 0 <= i -> user_base <= base + i * page_size ->
  base + (i + Z.of_nat n) * page_size <= 2 ^ 48 ->
  (forall j, i <= j < i + Z.of_nat n -> V !! (base + j * page_size) = None) ->
  map_fresh n i base flags p w = (true, p', w') ->
  (exists V', uinv k V' w' /\
     forall pg, is_Some (V' !! pg) <-> is_Some (V !! pg) \/ (pg mod page_size = 0 /\ in_pages (base + i * page_size) (Z.of_nat n) pg = true)) /\
  (forall va, user_base <= va < 2 ^ 48 ->
     view w' va = if in_pages (base + i * page_size) (Z.of_nat n) va then Some 0 else view w va) /\
  entry_ p' = entry_ p /\ brk_ p' = brk_ p /\ u64 (page_count_ p') = u64 (page_count_ p + Z.of_nat n).
Proof.
  induction n as [|n IH]; intros i base flags p w V p' w' Hu Hal Hi Hlo Hhi Hnone E; cbn [map_fresh] in E.
  { injection E as <- <-. assert (forall lo va, in_pages lo (Z.of_nat 0) va = false) as Hno.
    { intros lo va. unfold in_pages. change (Z.of_nat 0) with 0. rewrite Z.mul_0_l, Z.add_0_r. destruct (Z.leb_spec lo va), (Z.ltb_spec va lo); cbn; (done || lia). }
    split_and!; [|by intros va _; rewrite Hno|done|done|by rewrite Z.add_0_r].
    exists V. split; [done|]. intros pg. rewrite Hno. naive_solver. }
  destruct (pm_alloc (space w)) as [f m1] eqn:Ea. destruct (Z.eqb_spec f 0) as [|Hf]; [done|].
  rewrite u64_small in E by (unfold user_base, page_size in *; lia).
  destruct (pm_map m1 (base + i * page_size) f page_size flags) as [ok m2] eqn:Em. destruct ok; [|done].
  set (pg := base + i * page_size) in *.
  assert (pg mod page_size = 0) as Hpg by (unfold pg, page_size in *; dlia).
  destruct (fresh_page k V w pg f m1 m2 flags Hu Hlo) as [Hu1 Hv1]; [unfold pg, page_size in *; lia|done|apply (Hnone i); lia|done|done|done|].
  apply (IH (i + 1) base flags _ _ (<[pg := f]> V)) in E as ((V' & Hu' & HV') & Hv' & He & Hb & Hc); [|done|done|lia| | |].
  - assert (forall va, in_pages pg (Z.of_nat (S n)) va = (page_base va =? pg) || in_pages (base + (i + 1) * page_size) (Z.of_nat n) va) as Hsplit.
    { intros va. unfold in_pages, pg, page_base, page_size in *.
      destruct (Z.eqb_spec (va / 4096 * 4096) (base + i * 4096)), (Z.leb_spec (base + i * 4096) va), (Z.leb_spec (base + (i + 1) * 4096) va),
        (Z.ltb_spec va (base + i * 4096 + Z.of_nat (S n) * 4096)), (Z.ltb_spec va (base + (i + 1) * 4096 + Z.of_nat n * 4096)); cbn; (done || dlia). }
    split_and!.
    + exists V'. split; [done|]. intros x. rewrite HV', Hsplit, orb_true_iff, Z.eqb_eq. rewrite lookup_insert_is_Some.
      assert (x mod page_size = 0 -> page_base x = x) as Hb' by (unfold page_base, page_size; intros; dlia).
      split.
      * intros [[<-|[Hne Hs]]|[Hm Hr]]; [right; split; [done|left; by apply page_base_aligned]|by left|right; by auto].
      * intros [Hs|[Hm [Heq|Hr]]]; [destruct (decide (pg = x)); [by left; left|by left; right]|left; left; rewrite Hb' in Heq by done; done|by right].
    + intros va Hva. rewrite Hv', Hsplit by done. rewrite Hv1 by done. destruct (in_pages _ (Z.of_nat n) va); [by rewrite orb_true_r|].
      by rewrite orb_false_r.
    + by rewrite He.
    + by rewrite Hb.
    + rewrite Hc. cbn [add_page page_count_]. unfold u64, wrap. rewrite Zplus_mod_idemp_l. f_equal. lia.
  - unfold page_size in *. lia.
  - unfold page_size in *. lia.
  - intros j Hj. rewrite lookup_insert_ne; [apply Hnone; lia|]. unfold pg, page_size. lia.
Qed.

(** One byte written through the direct map. *)
Lemma poke_spec k V w x f b : uinv k V w -> V !! page_base x = Some f ->
  let w' := mkWorld (space w) (<[f + x mod page_size := b]> (mem w)) in
  uinv k V w' /\ forall va, user_base <= va < 2 ^ 48 -> view w' va = if va =? x then Some b else view w va.
Proof.
  intros Hu Hf w'. destruct (u_page _ _ _ Hu _ _ Hf) as (_ & _ & _ & Hfr & Hfm). destruct (page_split x) as (_ & Hr & _). split.
  - destruct Hu as [U1 U2 U3 U4 U5 U6 U7]. constructor; try done. intros pg g i Hg Hi. unfold w'. cbn [mem].
    apply lookup_insert_is_Some'. right. by eapply U7.
  - intros va Hva. unfold view, w'. cbn [space mem]. destruct (Z.eqb_spec va x) as [->|Hne].
    + rewrite (u_translate _ _ _ _ _ Hu Hf), (proj2 (Z.eqb_neq _ _)) by lia. by rewrite lookup_insert_eq.
    + destruct (Z.eqb_spec (pm_translate (space w) va) 0) as [|Ht]; [done|].
      destruct (V !! page_base va) as [g|] eqn:Hg; [|by rewrite (u_none _ _ _ Hu va Hva Hg) in Ht].
      rewrite lookup_insert_ne; [done|]. rewrite (u_translate _ _ _ _ _ Hu Hg). intros E'.
      apply Hne. symmetry. by eapply (u_translate_inj _ _ _ _ _ _ _ Hu Hf Hg).
Qed.

(** The image bytes, through the direct map. *)
Lemma copy_spec k V s image n : forall offset w,
  uinv k V w -> 0 <= offset -> user_base <= virtual_address s -> virtual_address s + offset + Z.of_nat n <= 2 ^ 48 ->
  0 <= p_offset s -> p_offset s + offset + Z.of_nat n <= Z.of_nat (length image) -> Z.of_nat (length image) < 2 ^ 64 ->
  (forall j, offset <= j < offset + Z.of_nat n -> is_Some (V !! page_base (virtual_address s + j))) ->
  exists w', copy_segment n offset s image w = Some (true, w') /\ uinv k V w' /\ space w' = space w /\
    forall va, user_base <= va < 2 ^ 48 ->
      view w' va = if (virtual_address s + offset <=? va) && (va <? virtual_address s + offset + Z.of_nat n)
                   then byte_at image (p_offset s + (va - virtual_address s)) else view w va.
Proof.
  induction n as [|n IH]; intros offset w Hu Hoff Hva0 Hhi Hp0 Hp1 Hlen Hmapped; cbn [copy_segment].
  { exists w. split_and!; [done..|]. intros va Hva. destruct (Z.leb_spec (virtual_address s + offset) va), (Z.ltb_spec va (virtual_address s + offset + Z.of_nat 0)); cbn; (done || lia). }
  rewrite (u64_small (virtual_address s + offset)) by (unfold user_base in *; lia).
  destruct (Hmapped offset) as [f Hf]; [lia|]. set (x := virtual_address s + offset) in *.
  rewrite (u_translate _ _ _ _ _ Hu Hf). destruct (u_page _ _ _ Hu _ _ Hf) as (_ & _ & _ & Hfr & Hfm).
  destruct (page_split x) as (_ & Hr & _). rewrite (proj2 (Z.eqb_neq _ _)) by lia.
  rewrite u64_small by lia. destruct (byte_at_some image (p_offset s + offset)) as [b Hb]; [lia|]. rewrite Hb. cbn [mbind option_bind].
  destruct (poke_spec k V w x f b Hu Hf) as [Hu1 Hv1]. unfold phys_to_virt. set (w1 := mkWorld (space w) _) in *.
  destruct (IH (offset + 1) w1 Hu1) as (w' & E & Hu' & Hs & Hv); [lia|lia|lia|lia|lia|lia|intros j Hj; apply Hmapped; lia|].
  exists w'. split_and!; [done|done|by rewrite Hs|]. intros va Hva. rewrite Hv by done.
  rewrite Hv1 by done. unfold x in *. destruct (Z.eqb_spec va (virtual_address s + offset)) as [->|Hne].
  - rewrite (proj2 (Z.leb_gt (virtual_address s + (offset + 1)) _)), Z.leb_refl by lia.
    rewrite (proj2 (Z.ltb_lt _ (virtual_address s + offset + Z.of_nat (S n)))) by lia. cbn. rewrite <- Hb. f_equal. lia.
  - destruct (Z.leb_spec (virtual_address s + (offset + 1)) va), (Z.leb_spec (virtual_address s + offset) va),
      (Z.ltb_spec va (virtual_address s + (offset + 1) + Z.of_nat n)), (Z.ltb_spec va (virtual_address s + offset + Z.of_nat (S n))); cbn; (done || lia).
Qed.

(** A segment the loader can place: in user space, no more file bytes than memory, and
    those inside the file. *)
Record good (image : list Z) (s : ProgramHeader) : Prop := {
  g_low : user_base <= virtual_address s;
  g_high : virtual_address s + memory_size s + page_size <= 2 ^ 48;
  g_size : 0 <= file_size s <= memory_size s;
  g_memory : 0 < memory_size s;
  g_file : 0 <= p_offset s /\ p_offset s + file_size s <= Z.of_nat (length image)
}.

(** The pages of a segment. *)
Definition covers (s : ProgramHeader) (va : Z) : bool := in_pages (seg_start s) (seg_pages s) va.

Lemma seg_start_base image s : good image s -> seg_start s = page_base (virtual_address s).
Proof.
  intros [Hlo Hhi _ Hm _]. unfold seg_start, not64, page_base, page_size, user_base in *.
  change (u64 (Z.lnot (4096 - 1))) with (not64 (2 ^ 12 - 1)). rewrite land_not64_ones by (unfold fits; lia). dlia.
Qed.

Lemma seg_pages_bounds image s : good image s ->
  0 < seg_pages s /\ seg_start s mod page_size = 0 /\ user_base <= seg_start s /\
  seg_start s + seg_pages s * page_size <= 2 ^ 48 /\
  seg_start s <= virtual_address s /\ virtual_address s + memory_size s <= seg_start s + seg_pages s * page_size.
Proof.
  intros Hg. pose proof (seg_start_base _ _ Hg) as Hs. destruct Hg as [Hlo Hhi Hsz Hm _].
  unfold seg_pages. rewrite Hs. unfold page_base, page_size, user_base in *.
  rewrite (u64_small (virtual_address s - _)) by dlia. rewrite (u64_small (memory_size s + _)) by dlia. rewrite u64_small by dlia.
  set (v := virtual_address s) in *. set (m := memory_size s) in *. clearbody v m. clear Hs Hsz. dlia.
Qed.

Lemma load_segment_spec k V s image p w :
  good image s -> Z.of_nat (length image) < 2 ^ 64 -> uinv k V w ->
  (forall pg, is_Some (V !! pg) -> covers s pg = false) ->
  exists ok p' w', load_segment s image p w = Some (ok, p', w') /\
    (ok = true ->
      (exists V', uinv k V' w' /\
         forall pg, is_Some (V' !! pg) <-> is_Some (V !! pg) \/ (pg mod page_size = 0 /\ covers s pg = true)) /\
      (forall va, user_base <= va < 2 ^ 48 ->
         view w' va = if (virtual_address s <=? va) && (va <? virtual_address s + file_size s)
                      then byte_at image (p_offset s + (va - virtual_address s))
                      else if covers s va then Some 0 else view w va) /\
      entry_ p' = entry_ p /\ brk_ p' = Z.max (brk_ p) (virtual_address s + memory_size s) /\
      u64 (page_count_ p') = u64 (page_count_ p + seg_pages s)).
Proof.
  intros Hg Hlen Hu Hfree. destruct (seg_pages_bounds _ _ Hg) as (Hn & Hal & Hlo & Hhi & Hva & Hend).
  pose proof Hg as [G1 G2 G3 G4 [G5 G6]]. unfold load_segment.
  rewrite (proj2 (Z.ltb_ge _ _)) by lia.
  destruct (map_fresh (Z.to_nat (seg_pages s)) 0 (seg_start s) (load_flags s) p w) as [[ok p1] w1] eqn:Em.
  destruct ok; cbn [negb]; [|by eexists false, _, _].
  apply (map_fresh_spec k _ _ _ _ _ _ V) in Em as ((V1 & Hu1 & HV1) & Hv1 & He1 & Hb1 & Hc1); try done.
  2:{ rewrite Z.mul_0_l, Z.add_0_r. done. }
  2:{ rewrite Z2Nat.id by lia. lia. }
  2:{ intros j Hj. rewrite Z2Nat.id in Hj by lia. apply eq_None_not_Some. intros Hs. apply Hfree in Hs.
      unfold covers, in_pages, page_size in *. apply andb_false_iff in Hs as [Hs|Hs]; [apply Z.leb_gt in Hs|apply Z.ltb_ge in Hs]; lia. }
  rewrite Z2Nat.id, Z.mul_0_l, Z.add_0_r in * by lia.
  assert (seg_start s = page_base (virtual_address s)) as Hss by by eapply seg_start_base.
  destruct (copy_spec k V1 s image (Z.to_nat (file_size s)) 0 w1 Hu1) as (w2 & Ec & Hu2 & Hs2 & Hv2); try done; try (rewrite ?Z2Nat.id; lia).
  { intros j Hj. rewrite Z2Nat.id in Hj by lia. apply HV1. right. split; [by apply page_split|].
    unfold in_pages, page_base, page_size in *. apply andb_true_iff. rewrite Z.leb_le, Z.ltb_lt. dlia. }
  rewrite Ec. cbn [mbind option_bind negb]. rewrite Z2Nat.id in Hv2 by lia. rewrite u64_small by (unfold user_base, page_size in *; lia).
  eexists true, _, _. split; [reflexivity|]. intros _.
  assert (forall w3, (forall va, 0 <= va < 2 ^ 48 -> pm_translate (space w3) va = pm_translate (space w2) va) -> mem w3 = mem w2 ->
    (exists D, pm_wf (space w3) D /\ forall pg f, V1 !! pg = Some f -> f ∈ D) ->
    uinv k V1 w3 /\ forall va, user_base <= va < 2 ^ 48 -> view w3 va = view w2 va) as Hkeep.
  { intros w3 Ht Hm Hwf. assert (user_base = 2 ^ 39) as Hub by done. split.
    - destruct Hu2 as [U1 U2 U3 U4 U5 U6 U7]. constructor; [done|done| |done| | |by rewrite Hm].
      + intros pg f i Hf Hi. destruct (U2 _ _ Hf) as (? & ? & _). rewrite Ht by lia. by apply U3.
      + intros va Hva' Hn'. rewrite Ht by lia. by apply U5.
      + intros va Hva'. rewrite Ht by lia. by apply U6.
    - intros va Hva'. unfold view. by rewrite Ht, Hm by lia. }
  set (w3 := if writable s then w2 else _).
  assert (uinv k V1 w3 /\ forall va, user_base <= va < 2 ^ 48 -> view w3 va = view w2 va) as [Hu3 Hv3].
  { unfold w3. destruct (writable s); [by split|]. destruct (u_wf _ _ _ Hu2) as (D & HD & HVD).
    destruct (pm_protect (space w2) (seg_start s) (u64 (seg_pages s * page_size)) (final_flags s)) as [ok m3] eqn:Ep.
    assert (pm_range (seg_start s) (u64 (seg_pages s * page_size))) as Hrange.
    { rewrite u64_small by (unfold user_base, page_size in *; lia). unfold user_base in *. split_and!; [lia|done|unfold page_size; lia|].
      unfold pm_span, page_size in *. replace ((seg_pages s * 4096 + 4096 - 1) / 4096) with (seg_pages s) by dlia. lia. }
    destruct (pm_protect_spec _ _ _ _ _ _ _ HD Hrange Ep) as [HD' Hsame]. apply Hkeep; cbn [space mem snd].
    - intros va Hva'. apply Hsame; [done|lia].
    - done.
    - by exists D. }
  split_and!.
  - exists V1. split; [done|]. exact HV1.
  - intros va Hva'. rewrite Hv3, Hv2, Hv1, Z.add_0_r by done. done.
  - by destruct (brk_ p1 <? _); cbn; rewrite He1.
  - destruct (Z.ltb_spec (brk_ p1) (virtual_address s + memory_size s)); cbn; rewrite ?Hb1 in *; lia.
  - by destruct (brk_ p1 <? _); cbn; rewrite Hc1.
Qed.

(** What byte [j] of a segment holds. *)
Definition content (image : list Z) (s : ProgramHeader) (j : Z) : option Z :=
  if j <? file_size s then byte_at image (p_offset s + j) else Some 0.

(** No two segments share a page. *)
Definition apart (l : list ProgramHeader) : Prop := forall a b s t, l !! a = Some s -> l !! b = Some t -> a <> b ->
  loadable s = true -> loadable t = true -> forall va, covers s va = true -> covers t va = false.

Fixpoint pages_of_all (l : list ProgramHeader) : Z :=
  match l with [] => 0 | s :: l => (if loadable s then seg_pages s else 0) + pages_of_all l end.

Lemma covers_inside image s j : good image s -> 0 <= j < memory_size s -> covers s (virtual_address s + j) = true.
Proof.
  intros Hg Hj. destruct (seg_pages_bounds _ _ Hg) as (_ & _ & _ & _ & ? & ?). unfold covers, in_pages.
  apply andb_true_iff. rewrite Z.leb_le, Z.ltb_lt. lia.
Qed.

Section segments.
Context (k : Z -> Z) (h : Header) (image : list Z) (Hlen : Z.of_nat (length image) < 2 ^ 64).

(** The state after the segments [l], the pages [V] being there before. *)
Definition placed (l : list ProgramHeader) (V : gmap Z Z) (p : Process) (w : world M) (p' : Process) (w' : world M) : Prop :=
  (exists V', uinv k V' w' /\ forall pg, is_Some (V' !! pg) <->
     is_Some (V !! pg) \/ (pg mod page_size = 0 /\ exists s, s ∈ l /\ loadable s = true /\ covers s pg = true)) /\
  (forall s j, s ∈ l -> loadable s = true -> 0 <= j < memory_size s -> view w' (virtual_address s + j) = content image s j) /\
  (forall va, user_base <= va < 2 ^ 48 -> (forall s, s ∈ l -> loadable s = true -> covers s va = false) -> view w' va = view w va) /\
  entry_ p' = entry_ p /\ u64 (page_count_ p') = u64 (page_count_ p + pages_of_all l).

Lemma load_segments_spec l : forall i V p w,
  (forall j s, l !! j = Some s ->
     parse_program image (program_header_offset h + (i + Z.of_nat j) * sizeof_ProgramHeader) = Some s) ->
  (forall s, s ∈ l -> loadable s = true -> good image s) -> apart l -> uinv k V w ->
  (forall s pg, s ∈ l -> loadable s = true -> is_Some (V !! pg) -> covers s pg = false) ->
  exists ok p' w', load_segments (length l) i h image p w = Some (ok, p', w') /\ (ok = true -> placed l V p w p' w').
Proof.
  induction l as [|s l IH]; intros i V p w Hparse Hgood Hapart Hu Hfree; cbn [length load_segments].
  { eexists true, p, w. split; [done|]. intros _. split_and!; [|intros s j Hs; by apply elem_of_nil in Hs|done|done|cbn; by rewrite Z.add_0_r].
    exists V. split; [done|]. intros pg. split; [by left|]. intros [?|(_ & s & Hs & _)]; [done|by apply elem_of_nil in Hs]. }
  pose proof (Hparse 0%nat s eq_refl) as Hp0. rewrite Z.add_0_r in Hp0. rewrite Hp0. cbn [mbind option_bind].
  assert (forall j t, l !! j = Some t ->
    parse_program image (program_header_offset h + (i + 1 + Z.of_nat j) * sizeof_ProgramHeader) = Some t) as Hparse'.
  { intros j t Ht. rewrite <- (Hparse (S j) t Ht). do 2 f_equal. lia. }
  assert (forall t, t ∈ l -> loadable t = true -> good image t) as Hgood' by (intros t Ht; apply Hgood; by right).
  assert (apart l) as Hapart' by (intros a b x y Ha Hb Hab; apply (Hapart (S a) (S b)); [done|done|congruence]).
  destruct (loadable s) eqn:Els; cbn [negb].
  2:{ destruct (IH (i + 1) V p w Hparse' Hgood' Hapart' Hu) as (ok & p' & w' & E & Hpost).
      { intros t pg Ht. apply Hfree. by right. }
      exists ok, p', w'. split; [done|]. intros ->. destruct (Hpost eq_refl) as ((V' & Hu' & HV') & Hin & Hout & He & Hc).
      assert (forall t, t ∈ s :: l -> loadable t = true -> t ∈ l) as Hskip by (intros t [->|Ht]%elem_of_cons; congruence).
      split_and!; [|intros t j Ht Hl; apply Hin; auto| |done|by cbn; rewrite Els].
      - exists V'. split; [done|]. intros pg. rewrite HV'. split; [intros [?|(? & t & Ht & ?)]; [by left|right; split; [done|exists t; split; [by right|done]]]|].
        intros [?|(? & t & Ht & Hl & ?)]; [by left|right; split; [done|exists t; auto]].
      - intros va Hva Hno. apply Hout; [done|]. intros t Ht. apply Hno. by right. }
  pose proof (Hgood s ltac:(by left) Els) as Hgs.
  destruct (load_segment_spec k V s image p w Hgs Hlen Hu) as (ok & p1 & w1 & E1 & Hpost1).
  { intros pg Hpg. apply (Hfree s pg); [by left|done|done]. }
  rewrite E1. cbn [mbind option_bind]. destruct ok; [|by eexists false, _, _].
  destruct (Hpost1 eq_refl) as ((V1 & Hu1 & HV1) & Hv1 & He1 & _ & Hc1).
  assert (forall t, t ∈ l -> loadable t = true -> forall va, covers s va = true -> covers t va = false) as Hst.
  { intros t [b Hb]%list_elem_of_lookup Hl. by apply (Hapart 0%nat (S b) s t). }
  destruct (IH (i + 1) V1 p1 w1 Hparse' Hgood' Hapart' Hu1) as (ok & p' & w' & E & Hpost).
  { intros t pg Ht Hl Hpg. apply HV1 in Hpg as [Hpg|[_ Hpg]]; [apply Hfree; [by right|done|done]|by apply Hst]. }
  exists ok, p', w'. split; [done|]. intros ->. destruct (Hpost eq_refl) as ((V' & Hu' & HV') & Hin & Hout & He & Hc).
  destruct (seg_pages_bounds _ _ Hgs) as (_ & _ & _ & Hhi & Hva0 & Hend). pose proof Hgs as [G1 G2 G3 G4 _]. split_and!.
  - exists V'. split; [done|]. intros pg. rewrite HV', HV1. split.
    + intros [[?|[? ?]]|(? & t & Ht & ?)]; [by left|right; split; [done|exists s; by split; [left|]]|right; split; [done|exists t; by split; [right|]]].
    + intros [?|(? & t & Ht & ? & ?)]; [by left; left|]. apply elem_of_cons in Ht as [->|Ht]; [by left; right|right; eauto].
  - intros t j Ht Hl Hj. apply elem_of_cons in Ht as [->|Ht]; [|by apply Hin].
    pose proof (covers_inside _ _ _ Hgs Hj) as Hcov. rewrite Hout; [|unfold page_size in *; lia|intros t Ht Hlt; by apply Hst].
    rewrite Hv1 by (unfold page_size in *; lia). unfold content. rewrite (proj2 (Z.leb_le _ _)) by lia.
    destruct (Z.ltb_spec j (file_size s)).
    + rewrite (proj2 (Z.ltb_lt _ _)) by lia. cbn. f_equal. lia.
    + rewrite (proj2 (Z.ltb_ge _ _)) by lia. cbn. by rewrite Hcov.
  - intros va Hva Hno. rewrite Hout; [|done|intros t Ht; apply Hno; by right]. rewrite Hv1 by done.
    assert (covers s va = false) as Hn by (apply Hno; [by left|done]). rewrite Hn.
    destruct (Z.leb_spec (virtual_address s) va), (Z.ltb_spec va (virtual_address s + file_size s)); cbn; try done.
    replace va with (virtual_address s + (va - virtual_address s)) in Hn by lia. rewrite (covers_inside _ _ _ Hgs) in Hn by lia. done.
  - by rewrite He.
  - rewrite Hc. cbn [pages_of_all]. rewrite Els. unfold u64, wrap in *.
    rewrite <- Zplus_mod_idemp_l, Hc1, Zplus_mod_idemp_l. f_equal. lia.
Qed.

End segments.

(** A program the loader can place: an x86_64 executable whose segments are in its
    file, in user space, on pages of their own and off the stack's pages. *)
Definition stack_base : Z := user_stack_top - user_stack_pages * page_size.

Record program (image : list Z) (h : Header) (segs : list ProgramHeader) : Prop := {
  pr_header : parse_header image = Some h;
  pr_kind : has_magic h = true /\ machine h = machine_x86_64 /\ type_ h = 2;
  pr_length : Z.of_nat (length image) < 2 ^ 64;
  pr_count : length segs = Z.to_nat (program_header_count h);
  pr_parse j s : segs !! j = Some s ->
    parse_program image (program_header_offset h + Z.of_nat j * sizeof_ProgramHeader) = Some s;
  pr_good s : s ∈ segs -> loadable s = true -> good image s;
  pr_apart : apart segs;
  pr_stack s va : s ∈ segs -> loadable s = true -> in_pages stack_base user_stack_pages va = true -> covers s va = false
}.

Lemma in_pages_base lo n va : lo mod page_size = 0 -> in_pages lo n (page_base va) = in_pages lo n va.
Proof.
  intros Hlo. unfold in_pages, page_base, page_size in *.
  destruct (Z.leb_spec lo va), (Z.leb_spec lo (va / 4096 * 4096)), (Z.ltb_spec va (lo + n * 4096)), (Z.ltb_spec (va / 4096 * 4096) (lo + n * 4096));
    cbn; (done || dlia).
Qed.

Lemma parse_header_length image h : parse_header image = Some h -> sizeof_Header <= Z.of_nat (length image).
Proof.
  intros E. destruct (Z.le_gt_cases sizeof_Header (Z.of_nat (length image))) as [|Hlt]; [done|exfalso].
  assert (field 2 image 62 = None) as Hn.
  { unfold sizeof_Header in Hlt. cbn [field]. unfold byte_at. change (62 + 1 <? 0) with false. change (62 <? 0) with false.
    cbn match. rewrite (lookup_ge_None_2 image (Z.to_nat (62 + 1))) by lia. by destruct (image !! Z.to_nat 62). }
  unfold parse_header in E. repeat (match type of E with (?x ≫= _) = Some _ => destruct x eqn:?; [|done] end; cbn [mbind option_bind] in E).
  congruence.
Qed.

(** The state after a successful load, with its ghost pages. *)
Lemma program_placed image h segs D p w :
  program image h segs -> pm_wf (space w) D ->
  exists ok p1 w1, load image p w = Some (ok, p1, w1) /\
    (ok = true -> forall p2 w2, map_stack p1 w1 = (true, p2, w2) ->
      (exists V, uinv (pm_translate (space w)) V w2) /\
      (forall s j, s ∈ segs -> loadable s = true -> 0 <= j < memory_size s ->
         view w2 (virtual_address s + j) = content image s j) /\
      (forall va, in_pages stack_base user_stack_pages va = true -> view w2 va = Some 0) /\
      (forall va, user_base <= va < 2 ^ 48 -> in_pages stack_base user_stack_pages va = false ->
         (forall s, s ∈ segs -> loadable s = true -> covers s va = false) -> pm_translate (space w2) va = 0) /\
      (forall va, 0 <= va < user_base -> pm_translate (space w2) va = pm_translate (space w) va) /\
      entry_ p2 = Elf.entry h /\ u64 (page_count_ p2) = u64 (page_count_ p + pages_of_all segs + user_stack_pages)).
Proof.
  intros [P1 (P2 & P3 & P4) P5 P6 P7 P8 P9 P10] HD. unfold load.
  rewrite (proj2 (Z.ltb_ge _ _)) by by eapply parse_header_length. rewrite P1. cbn [mbind option_bind].
  rewrite P2, P3, P4, !Z.eqb_refl. cbn [negb orb].
  destruct (us_create (space w)) as [ok m] eqn:Ec. destruct (us_create_spec _ _ _ _ HD Ec) as [HD' Hm].
  destruct ok; cbn [negb]; [|by eexists false, _, _]. destruct (Hm eq_refl) as [Hk Hz].
  rewrite <- P6. set (w0 := mkWorld m (mem w)).
  assert (uinv (pm_translate (space w)) ∅ w0) as Hu0.
  { constructor; cbn [space w0]; try (intros; by simplify_map_eq); [|by intros; apply Hz|done].
    exists D. split; [done|]. intros pg f Hf. by rewrite lookup_empty in Hf. }
  destruct (load_segments_spec (pm_translate (space w)) h image P5 segs 0 ∅ (set_entry (Elf.entry h) p) w0) as (ok & p1 & w1 & E & Hpost); try done.
  { intros s pg _ _ [x Hx]. by rewrite lookup_empty in Hx. }
  exists ok, p1, w1. split; [done|]. intros -> p2 w2 Es. destruct (Hpost eq_refl) as ((V1 & Hu1 & HV1) & Hin & Hout & He & Hc).
  unfold map_stack in Es. fold stack_base in Es. assert (user_base = 2 ^ 39) as Hub by done.
  assert (forall j, 0 <= j < 0 + Z.of_nat (Z.to_nat user_stack_pages) -> V1 !! (stack_base + j * page_size) = None) as Hclear.
  { intros j Hj. apply eq_None_not_Some. intros Hs. apply HV1 in Hs as [[x Hx]|(_ & s & Hs & Hl & Hcov)]; [by rewrite lookup_empty in Hx|].
    rewrite P10 in Hcov; [done|done|done|]. unfold in_pages. change (Z.of_nat (Z.to_nat user_stack_pages)) with user_stack_pages in Hj.
    unfold page_size. apply andb_true_iff. rewrite Z.leb_le, Z.ltb_lt. lia. }
  assert (stack_base mod page_size = 0) as Hsb1 by done. assert (user_base <= stack_base + 0 * page_size) as Hsb2 by done.
  assert (stack_base + (0 + Z.of_nat (Z.to_nat user_stack_pages)) * page_size <= 2 ^ 48) as Hsb3 by done.
  destruct (map_fresh_spec _ _ _ _ _ _ _ V1 _ _ Hu1 Hsb1 (Z.le_refl 0) Hsb2 Hsb3 Hclear Es)
    as ((V2 & Hu2 & HV2) & Hv2 & He2 & _ & Hc2).
  rewrite Z.mul_0_l, Z.add_0_r in *. change (Z.of_nat (Z.to_nat user_stack_pages)) with user_stack_pages in *.
  assert (forall va, in_pages stack_base user_stack_pages va = true -> user_base <= va < 2 ^ 48) as Hstack.
  { intros va Hva. apply andb_true_iff in Hva as [Hva1 Hva2]. apply Z.leb_le in Hva1. apply Z.ltb_lt in Hva2.
    change stack_base with 550829490176 in *. change user_stack_pages with 16 in *. unfold page_size in *. rewrite Hub. lia. }
  split_and!.
  - by exists V2.
  - intros s j Hs Hl Hj. pose proof (P8 s Hs Hl) as Hg. destruct (seg_pages_bounds _ _ Hg) as (_ & _ & _ & ? & ? & ?). pose proof (g_low _ _ Hg).
    rewrite Hv2 by lia. destruct (in_pages stack_base user_stack_pages (virtual_address s + j)) eqn:Ein; [|by apply Hin].
    pose proof (P10 s _ Hs Hl Ein) as Hno. by rewrite (covers_inside _ _ _ Hg Hj) in Hno.
  - intros va Hva. rewrite Hv2 by by apply Hstack. by rewrite Hva.
  - intros va Hva Hns Hnc. apply (u_none _ _ _ Hu2 va Hva). apply eq_None_not_Some. intros Hsome.
    apply HV2 in Hsome as [Hsome|[_ Hsome]]; [|by rewrite in_pages_base, Hns in Hsome].
    apply HV1 in Hsome as [[x Hx]|(_ & s & Hs & Hl & Hcov)]; [by rewrite lookup_empty in Hx|].
    unfold covers in Hcov. rewrite in_pages_base in Hcov by by apply (seg_pages_bounds image), P8.
    specialize (Hnc s Hs Hl). unfold covers in Hnc. congruence.
  - intros va Hva. by apply (u_kernel _ _ _ Hu2).
  - by rewrite He2, He.
  - rewrite Hc2. unfold u64, wrap in *. rewrite <- Zplus_mod_idemp_l, Hc, Zplus_mod_idemp_l. done.
Qed.

(** C12: A program whose file is well formed (its headers and the bytes of its segments
    lie in the file, its segments in user space, apart from each other and from the
    stack) is loaded as its headers say.  The loader stays inside the file; when it and
    the stack find memory, every segment shows the bytes of the file followed by zeroes,
    the stack is zeroed, nothing else of user space is mapped, and below it the process
    sees exactly the kernel's mappings.  A file whose ranges leave it is not refused but
    read beyond its end ([load_reads_outside]). *)
Theorem program_loaded image h segs D p w :
  program image h segs -> pm_wf (space w) D ->
  exists ok p1 w1, load image p w = Some (ok, p1, w1) /\
    (ok = true -> forall p2 w2, map_stack p1 w1 = (true, p2, w2) ->
      (forall s j, s ∈ segs -> loadable s = true -> 0 <= j < memory_size s ->
         view w2 (virtual_address s + j) = content image s j) /\
      (forall va, in_pages stack_base user_stack_pages va = true -> view w2 va = Some 0) /\
      (forall va, user_base <= va < 2 ^ 48 -> in_pages stack_base user_stack_pages va = false ->
         (forall s, s ∈ segs -> loadable s = true -> covers s va = false) -> pm_translate (space w2) va = 0) /\
      (forall va, 0 <= va < user_base -> pm_translate (space w2) va = pm_translate (space w) va) /\
      entry_ p2 = Elf.entry h /\ u64 (page_count_ p2) = u64 (page_count_ p + pages_of_all segs + user_stack_pages)).
Proof.
  intros Hp HD. destruct (program_placed image h segs D p w Hp HD) as (ok & p1 & w1 & E & Hpost).
  exists ok, p1, w1. split; [done|]. intros Hok p2 w2 Es. by destruct (Hpost Hok p2 w2 Es) as (_ & ?).
Qed.

(** The range check is enough for anything up to a page: when both ends of the range
    are mapped user addresses, every byte between them is one too. *)
Theorem owns_range k V w address len :
  uinv k V w -> 1 <= len <= page_size -> address + len <= 2 ^ 48 -> owns (space w) address len = true ->
  forall j, 0 <= j < len -> user_base <= address + j /\ is_Some (V !! page_base (address + j)) /\
    pm_translate (space w) (address + j) <> 0.
Proof.
  intros Hu Hl Hhi Ho j Hj. unfold owns in Ho. destruct (Z.ltb_spec address user_base) as [|Hlo]; [done|].
  destruct (max_program_bytes <? len); [done|]. cbn [orb] in Ho. apply andb_true_iff in Ho as [Hfirst Hlast].
  assert (user_base = 2 ^ 39) as Hub by done. assert (page_size = 4096) as Hps by done.
  rewrite (u64_small (address + len)), u64_small in Hlast by lia. apply negb_true_iff, Z.eqb_neq in Hfirst, Hlast.
  assert (forall va, user_base <= va < 2 ^ 48 -> pm_translate (space w) va <> 0 -> is_Some (V !! page_base va)) as Hsome.
  { intros va Hva Ht. destruct (V !! page_base va) eqn:E; [by eexists|]. by rewrite (u_none _ _ _ Hu va Hva E) in Ht. }
  assert (is_Some (V !! page_base (address + j))) as [f Hf].
  { apply Hsome in Hfirst; [|lia]. apply Hsome in Hlast; [|lia].
    assert (page_base (address + j) = page_base address \/ page_base (address + j) = page_base (address + len - 1)) as [-> | ->]; [|done|done].
    unfold page_base. rewrite Hps in *. dlia. }
  split_and!; [lia|by eexists|]. rewrite (u_translate _ _ _ _ _ Hu Hf). destruct (u_page _ _ _ Hu _ _ Hf) as (_ & _ & _ & ? & _).
  destruct (page_split (address + j)) as (_ & ? & _). lia.
Qed.

End correctness.

(** ** Addresses beyond 48 bits *)

Section alias.
Context {A : Type} `{FrameAllocator A}.

Lemma index_of_alias va l : 0 <= l <= 3 -> index_of (2 ^ 48 + va) l = index_of va l.
Proof.
  intros Hl. rewrite !index_of_div by lia. replace (2 ^ 48) with (2 ^ (27 - 9 * l) * 512 * 2 ^ (12 + 9 * l)).
  - rewrite Z.add_comm, Z.div_add by (apply Z.pow_nonzero; lia). by rewrite Z.mod_add.
  - change 512 with (2 ^ 9). rewrite <- !Z.pow_add_r by lia. f_equal. lia.
Qed.

Lemma land_alias va n : 0 <= n <= 48 -> Z.land (2 ^ 48 + va) (2 ^ n - 1) = Z.land va (2 ^ n - 1).
Proof.
  intros Hn. replace (2 ^ n - 1) with (Z.ones n) by (rewrite Z.ones_equiv; lia). rewrite !Z.land_ones by lia.
  replace (2 ^ 48) with (2 ^ (48 - n) * 2 ^ n) by (rewrite <- Z.pow_add_r by lia; f_equal; lia).
  rewrite Z.add_comm. apply Z.mod_add. apply Z.pow_nonzero; lia.
Qed.

Lemma translate_alias l : forall (st : state A) t va, (l <= 3)%nat -> translate_from l st t (2 ^ 48 + va) = translate_from l st t va.
Proof.
  induction l as [|l IH]; intros st t va Hl; cbn [translate_from]; rewrite index_of_alias by lia.
  - change (page_size - 1) with (2 ^ 12 - 1). by rewrite land_alias.
  - change (huge_page_size - 1) with (2 ^ 21 - 1). rewrite land_alias by lia. by rewrite IH by lia.
Qed.

(** The walk looks at 48 bits, the check for a lower bound only: an address with bit 48
    set passes [owns] whenever the address below it is mapped, a kernel address
    included. *)
Theorem owns_ignores_high_bits (s : @Paging.space A) va :
  0 <= va < 2 ^ 48 -> pm_translate s va <> 0 -> owns s (2 ^ 48 + va) 1 = true.
Proof.
  intros Hva Ht. unfold owns. assert (user_base = 2 ^ 39) as Hub by done.
  rewrite (proj2 (Z.ltb_ge _ _)) by lia. change (max_program_bytes <? 1) with false. cbn [orb].
  rewrite (u64_small (_ + 1)), u64_small by lia. replace (2 ^ 48 + va + 1 - 1) with (2 ^ 48 + va) by lia.
  assert (pm_translate s (2 ^ 48 + va) = pm_translate s va) as -> by (apply (translate_alias 3); lia).
  apply Z.eqb_neq in Ht. by rewrite Ht.
Qed.

Lemma table_for_alias l create user : forall (st : state A) t va, (l <= 3)%nat ->
  table_for_from l st t (2 ^ 48 + va) create user = table_for_from l st t va create user.
Proof.
  induction l as [|l IH]; intros st t va Hl; [done|]. cbn [table_for_from]. unfold walk_level. rewrite index_of_alias by lia.
  destruct (if is_present _ then _ else _) as [ok st1]. destruct (negb ok); [done|].
  destruct (if (_ && _) then _ else _) as [ok2 st2]. destruct ok2; [|done]. apply IH. lia.
Qed.

(** The same holes in the loader: a page at an address with bit 48 set passes the test
    against [user_base] and is mapped in place of the page below, which may be the
    kernel's. *)
Theorem map_ignores_high_bits (s : @Paging.space A) va frame flags :
  0 <= va < 2 ^ 48 -> (2 ^ 48 + va <? user_base) = false /\
    pm_map s (2 ^ 48 + va) frame page_size flags = pm_map s va frame page_size flags.
Proof.
  intros Hva. assert (user_base = 2 ^ 39) as Hub by done. split; [apply Z.ltb_ge; lia|].
  cbn [pm_map space_mapper]. unfold on_space, map. change (pages_of page_size) with 1%nat. cbn [map_loop].
  rewrite !Z.add_0_r, !u64_small by lia. unfold table_for. rewrite table_for_alias by lia.
  rewrite index_of_alias by lia. by rewrite (u64_small va) by lia.
Qed.

End alias.

(** ** A small program *)

Definition bytes (n : nat) (v : Z) : list Z := (fun i => v / 256 ^ i mod 256) <$> seqZ 0 (Z.of_nat n).

(** Four bytes of code at [user_base + 0x1000], sixteen of memory, in a file of 124. *)
Definition demo_file : list Z := Eval vm_compute in
  [127; 69; 76; 70; 2; 1; 1; 0] ++ replicate 8 0 ++ bytes 2 2 ++ bytes 2 62 ++ bytes 4 1 ++ bytes 8 (user_base + 0x1000) ++
  bytes 8 64 ++ bytes 8 0 ++ bytes 4 0 ++ bytes 2 64 ++ bytes 2 56 ++ bytes 2 1 ++ bytes 2 0 ++ bytes 2 0 ++ bytes 2 0 ++
  bytes 4 1 ++ bytes 4 5 ++ bytes 8 120 ++ bytes 8 (user_base + 0x1000) ++ bytes 8 0 ++ bytes 8 4 ++ bytes 8 16 ++ bytes 8 4096 ++
  [72; 49; 192; 195].

Definition demo_segment : ProgramHeader := mkProgram 1 5 120 (user_base + 0x1000) 4 16.

Definition demo_header : Header :=
  mkHeader [127; 69; 76; 70; 2; 1; 1; 0; 0; 0; 0; 0; 0; 0; 0; 0] 2 62 (user_base + 0x1000) 64 0 1 0 0 0.

Lemma demo_program : program demo_file demo_header [demo_segment].
Proof.
  assert (seg_start demo_segment = user_base + 0x1000 /\ seg_pages demo_segment = 1) as [Es Ep] by (by vm_compute).
  constructor.
  - vm_compute. reflexivity.
  - by vm_compute.
  - by vm_compute.
  - by vm_compute.
  - intros [|j] s Hs; [|done]. injection Hs as <-. vm_compute. reflexivity.
  - intros s Hs%list_elem_of_singleton _. subst s. by constructor; vm_compute.
  - intros [|a] [|b] s t Hs Ht; done.
  - intros s va Hs%list_elem_of_singleton _ Hin. subst s. unfold covers, in_pages in *. rewrite Es, Ep.
    apply andb_true_iff in Hin as [Hin _]. apply Z.leb_le in Hin. apply andb_false_iff. right. apply Z.ltb_ge.
    change stack_base with 550829490176 in Hin. change (user_base + 0x1000 + 1 * page_size) with 549755822080. lia.
Qed.

Definition demo_kernel : @Paging.space PageAlloc.state := Space page_size empty_space.

Lemma demo_kernel_wf : pm_wf demo_kernel ∅.
Proof.
  destruct empty_space_wf as [T HT]. exists T. split; [exact HT|]. intros f Hf. by apply not_elem_of_empty in Hf.
Qed.

Definition demo_process : Process := mkProcess [105] 1 Ready 0 0 0 0.

(** Both steps find memory. *)
Lemma demo_load_ok : match load demo_file demo_process (mkWorld demo_kernel ∅) with
  | Some (true, p, w) => let '(ok, _, _) := map_stack p w in ok
  | _ => false
  end = true.
Proof. vm_compute. reflexivity. Qed.

(** The loader checks neither range of a file: a segment said to begin at the file's end,
    and a header table said to lie there, are read beyond it ([None]). *)
Definition outside_segment : list Z := <[72%nat := 124]> demo_file.
Definition outside_headers : list Z := <[32%nat := 124]> demo_file.

Example load_reads_outside :
  (p_offset <$> parse_program outside_segment 64) = Some 124 /\
  load outside_segment demo_process (mkWorld demo_kernel ∅) = None /\
  (program_header_offset <$> parse_header outside_headers) = Some 124 /\
  load outside_headers demo_process (mkWorld demo_kernel ∅) = None.
Proof. vm_compute. repeat split. Qed.

Lemma program_loaded_witness : exists p1 w1, load demo_file demo_process (mkWorld demo_kernel ∅) = Some (true, p1, w1) /\
  exists p2 w2, map_stack p1 w1 = (true, p2, w2) /\ entry_ p2 = user_base + 0x1000 /\
    view w2 (user_base + 0x1002) = Some 192 /\ view w2 (user_base + 0x1008) = Some 0.
Proof.
  pose proof demo_load_ok as Hok.
  destruct (program_loaded demo_file demo_header [demo_segment] ∅ demo_process (mkWorld demo_kernel ∅) demo_program demo_kernel_wf)
    as (ok & p1 & w1 & E & Hpost). rewrite E in Hok. destruct ok; [|discriminate Hok]. exists p1, w1. split; [exact E|].
  destruct (map_stack p1 w1) as [[ok p2] w2] eqn:Es. subst ok. exists p2, w2. split; [reflexivity|].
  destruct (Hpost eq_refl p2 w2 eq_refl) as (Hseg & _ & _ & _ & He & _).
  clear E Es Hpost. split; [exact He|]. assert (demo_segment ∈ [demo_segment]) as Hin by (left). split.
  - refine (eq_trans (Hseg demo_segment 2 Hin eq_refl _) _); [split; [discriminate|reflexivity]|reflexivity].
  - refine (eq_trans (Hseg demo_segment 8 Hin eq_refl _) _); [split; [discriminate|reflexivity]|reflexivity].
Defined.

Lemma owns_ignores_high_bits_witness :
  0 <= 0x40001234 < 2 ^ 48 /\ owns (Space page_size two_pages) (2 ^ 48 + 0x40001234) 1 = true.
Proof.
  split; [lia|]. apply (owns_ignores_high_bits (Space page_size two_pages) 0x40001234); [lia|]. vm_compute. discriminate.
Defined.

(** The program's memory, for the components that use it: its code can be named as a
    buffer of four bytes. *)
Lemma demo_user : exists k V (w : world (@Paging.space PageAlloc.state)), uinv k V w /\ owns (space w) (user_base + 0x1000) 4 = true.
Proof.
  pose proof demo_load_ok as Hok.
  destruct (program_placed demo_file demo_header [demo_segment] ∅ demo_process (mkWorld demo_kernel ∅) demo_program demo_kernel_wf)
    as (ok & p1 & w1 & E & Hpost). rewrite E in Hok. destruct ok; [|discriminate Hok].
  destruct (map_stack p1 w1) as [[ok p2] w2] eqn:Es. subst ok.
  destruct (Hpost eq_refl p2 w2 eq_refl) as ([V HV] & Hseg & _). clear E Es Hpost.
  exists (pm_translate demo_kernel), V, w2. split; [exact HV|]. assert (demo_segment ∈ [demo_segment]) as Hin by (left).
  assert (forall j, 0 <= j < 4 -> pm_translate (space w2) (user_base + 0x1000 + j) <> 0) as Ht.
  { intros j Hj Hz. assert (view w2 (virtual_address demo_segment + j) = content demo_file demo_segment j) as Hv
      by (apply Hseg; [exact Hin|reflexivity|cbn; lia]).
    unfold view in Hv. change (virtual_address demo_segment) with (user_base + 0x1000) in Hv. rewrite Hz in Hv.
    assert (j = 0 \/ j = 1 \/ j = 2 \/ j = 3) as [->|[->|[->| ->]]] by lia; discriminate Hv. }
  unfold owns. change ((user_base + 0x1000 <? user_base) || (max_program_bytes <? 4)) with false. cbn match.
  rewrite u64_small by (unfold user_base; rewrite u64_small; lia). rewrite u64_small by (unfold user_base; lia).
  replace (user_base + 4096 + 4 - 1) with (user_base + 4096 + 3) by lia.
  pose proof (Ht 0) as H0. rewrite Z.add_0_r in H0. apply andb_true_iff. rewrite !negb_true_iff, !Z.eqb_neq.
  split; [apply H0; lia|apply Ht; lia].
Qed.
