(* ===== verification/Syscall.v ===== *)
(** * System calls (src/kernel/proc/syscall.cpp)

    State: the eight open files, shared by every program, the consoles, the file
    systems behind the interface of the virtual file system, and the processes.  A
    pointer of the program goes through its address space; touching an address that is
    not mapped faults in the kernel and is [None], as is what an inode reports so. *)

From S2P Require Import Prelude Interfaces Memory PageAlloc Paging UserSpace Vfs Console Process.

Definition max_open_files : nat := 8.
Definition max_user_string : Z := 1024.
Definition path_size : nat := 128.

Record OpenFile := mkFile { used : bool; offset : Z; path : list Z }.

(** The numbers of the calls. *)
Inductive Call := Exit | Write | Read | GetPid | Sleep | Open | Close | Time.

Definition call_of (number : Z) : option Call :=
  if number =? 0 then Some Exit else if number =? 1 then Some Write else if number =? 2 then Some Read
  else if number =? 3 then Some GetPid else if number =? 4 then Some Sleep else if number =? 5 then Some Open
  else if number =? 6 then Some Close else if number =? 7 then Some Time else None.

(** [static_cast<int>]. *)
Definition to_int (x : Z) : Z := let v := u32 x in if v <? 2 ^ 31 then v else v - 2 ^ 32.

(** [static_cast<u64>] of a signed result. *)
Definition result (r : Z) : Z := u64 r.

Section calls.
Context {M : Type} `{UserSpaces M} {S N F : Type} `{FileSystems S N F}.

(** [mounts] is the mount table; the file systems' own state is [files]. *)
Record kernel := mkKernel {
  open_files : list OpenFile; console : Console.state; mounts : list (Mount F); files : S;
  processes : list Process; running : option nat; user : world M
}.

Definition set_open (l : list OpenFile) (s : kernel) : kernel :=
  mkKernel l (console s) (mounts s) (files s) (processes s) (running s) (user s).
Definition set_files (f : S) (s : kernel) : kernel :=
  mkKernel (open_files s) (console s) (mounts s) f (processes s) (running s) (user s).
Definition set_console (c : Console.state) (s : kernel) : kernel :=
  mkKernel (open_files s) c (mounts s) (files s) (processes s) (running s) (user s).
Definition set_user (w : world M) (s : kernel) : kernel :=
  mkKernel (open_files s) (console s) (mounts s) (files s) (processes s) (running s) w.
Definition set_processes (l : list Process) (s : kernel) : kernel :=
  mkKernel (open_files s) (console s) (mounts s) (files s) l (running s) (user s).

Definition current_process (s : kernel) : option Process := i ← running s; processes s !! i.

Definition user_range_ok (address len : Z) (s : kernel) : bool :=
  match current_process s with
  | None => false
  | Some _ => (len <=? max_user_string) && owns (space (user s)) address len
  end.

(** What the program's buffer holds. *)
Definition user_bytes (w : world M) (address : Z) (n : nat) : option (list Z) :=
  mapM (fun i => view w (address + i)) (seqZ 0 (Z.of_nat n)).

(** Bytes the kernel writes into the program's buffer. *)
Fixpoint user_write (w : world M) (address : Z) (bs : list Z) : option (world M) :=
  match bs with
  | [] => Some w
  | b :: bs =>
    let pa := pm_translate (space w) address in
    if pa =? 0 then None else user_write (mkWorld (space w) (<[pa := b]> (mem w))) (address + 1) bs
  end.

(** A string up to its terminator; no program has more memory than the fuel. *)
Fixpoint user_string (fuel : nat) (w : world M) (address : Z) : option (list Z) :=
  match fuel with
  | O => None
  | Datatypes.S fuel =>
    b ← view w address;
    if b =? 0 then Some [] else rest ← user_string fuel w (address + 1); Some (b :: rest)
  end.

Definition string_fuel (w : world M) : nat := Datatypes.S (size (mem w)).

Definition put_all (text : list Z) (c : Console.state) : Console.state := fold_left console_put text c.

Definition file_index (handle : Z) : Z := u64 (handle - 3).

(** The entry of a handle that is in use. *)
Definition open_file (handle : Z) (s : kernel) : option (nat * OpenFile) :=
  let index := file_index handle in
  if Z.of_nat max_open_files <=? index then None
  else
    f ← open_files s !! Z.to_nat index;
    if used f then Some (Z.to_nat index, f) else None.

Definition sys_write (handle buffer len : Z) (s : kernel) : option (Z * kernel) :=
  if negb (user_range_ok buffer len s) then Some (-1, s)
  else if (handle =? 1) || (handle =? 2) then
    text ← user_bytes (user s) buffer (Z.to_nat len);
    Some (len, set_console (put_all text (console s)) s)
  else
    match open_file handle s with
    | None => Some (-1, s)
    | Some (_, f) =>
      text ← user_bytes (user s) buffer (Z.to_nat len);
      '(written, fs) ← write_file (mounts s) (Some (path f)) text (files s);
      Some (written, set_files fs s)
    end.

Fixpoint find_unused (l : list OpenFile) : option nat :=
  match l with
  | [] => None
  | f :: l => if used f then option_map Datatypes.S (find_unused l) else Some 0%nat
  end.

Definition sys_open (address : Z) (s : kernel) : option (Z * kernel) :=
  if negb (user_range_ok address 1 s) then Some (-1, s)
  else
    name ← user_string (string_fuel (user s)) (user s) address;
    '(status, fs) ← stat (mounts s) (Some name) (files s);
    let s := set_files fs s in
    match status with
    | None => Some (-1, s)
    | Some _ =>
      match find_unused (open_files s) with
      | None => Some (-1, s)
      | Some i => Some (Z.of_nat i + 3, set_open (<[i := mkFile true 0 (take (path_size - 1) name)]> (open_files s)) s)
      end
    end.

Definition sys_read (handle buffer len : Z) (s : kernel) : option (Z * kernel) :=
  if negb (user_range_ok buffer len s) then Some (-1, s)
  else if handle <? 3 then Some (-1, s)
  else
    match open_file handle s with
    | None => Some (-1, s)
    | Some (i, f) =>
      '(r, fs) ← resolve (mounts s) (Some (path f)) (files s);
      let s := set_files fs s in
      match r with
      | None => Some (-1, s)
      | Some node =>
        '(count, data, fs) ← node_read node (offset f) len (files s);
        let s := set_files fs s in
        w ← user_write (user s) buffer data;
        let s := set_user w s in
        if 0 <? count
        then Some (count, set_open (<[i := mkFile true (u64 (offset f + count)) (path f)]> (open_files s)) s)
        else Some (count, s)
      end
    end.

Definition sys_close (handle : Z) (s : kernel) : Z * kernel :=
  if handle <? 3 then (-1, s)
  else
    match open_file handle s with
    | None => (-1, s)
    | Some (i, f) => (0, set_open (<[i := mkFile false (offset f) (path f)]> (open_files s)) s)
    end.

(** How a call comes back to the program: with a result, after a sleep, or not at
    all. *)
Inductive outcome := Returns (number : Z) | Sleeps (ms : Z) | Leaves.

Definition syscall_dispatch (now number first second third : Z) (s : kernel) : option (outcome * kernel) :=
  match call_of number with
  | Some Exit =>
    let s := match running s with
             | Some i => set_processes (alter (exit (to_int first)) i (processes s)) s
             | None => s
             end in
    Some (Leaves, s)
  | Some Write => '(r, s) ← sys_write first second third s; Some (Returns (result r), s)
  | Some Read => '(r, s) ← sys_read first second third s; Some (Returns (result r), s)
  | Some GetPid => Some (Returns (match current_process s with Some p => id_ p | None => 0 end), s)
  | Some Sleep => Some (Sleeps first, s)
  | Some Open => '(r, s) ← sys_open first s; Some (Returns (result r), s)
  | Some Close => let '(r, s) := sys_close first s in Some (Returns (result r), s)
  | Some Time => Some (Returns now, s)
  | None => Some (Returns (result (-1)), s)
  end.

End calls.

(** ** Properties *)

Section correctness.
Context {M : Type} `{UserSpacesSpec M} `{!PageMapperSpec M} {S N F : Type} `{FileSystems S N F}.
Implicit Types (s : @kernel M S F).

(** A range the kernel accepted, inside the 48-bit space. *)
Lemma range_mapped k V s address len :
  uinv k V (user s) -> user_range_ok address len s = true -> 1 <= len -> address + len <= 2 ^ 48 ->
  forall j, 0 <= j < len -> user_base <= address + j < 2 ^ 48 /\ is_Some (V !! page_base (address + j)).
Proof.
  intros Hu Hok Hl Hhi j Hj. unfold user_range_ok in Hok. destruct (current_process s); [|done].
  apply andb_true_iff in Hok as [Hlen Ho]. apply Z.leb_le in Hlen.
  assert (1 <= len <= page_size) as Hlp by (unfold max_user_string, page_size in *; lia).
  destruct (owns_range k V (user s) address len Hu Hlp Hhi Ho j Hj) as (? & ? & _). split; [lia|done].
Qed.

Lemma user_bytes_spec k V w address n :
  uinv k V w ->
  (forall j, 0 <= j < Z.of_nat n -> user_base <= address + j < 2 ^ 48 /\ is_Some (V !! page_base (address + j))) ->
  exists text, user_bytes w address n = Some text /\ length text = n /\
    forall j, (j < n)%nat -> view w (address + Z.of_nat j) = text !! j.
Proof.
  intros Hu Hm. unfold user_bytes.
  assert (is_Some (mapM (fun i => view w (address + i)) (seqZ 0 (Z.of_nat n)))) as [text E].
  { apply mapM_is_Some_2, Forall_forall. intros i Hi%elem_of_seqZ. destruct (Hm i) as [_ [f Hf]]; [lia|].
    change (is_Some (view w (address + i))). unfold view. rewrite (u_translate _ _ _ _ _ Hu Hf). destruct (page_split (address + i)) as (_ & Hr & _).
    destruct (u_page _ _ _ Hu _ _ Hf) as (_ & _ & _ & Hfr & _). rewrite (proj2 (Z.eqb_neq _ _)) by lia.
    by apply (u_mem _ _ _ Hu _ _ _ Hf). }
  exists text. split; [done|]. apply mapM_Some in E. pose proof (Forall2_length _ _ _ E) as Hlen. rewrite length_seqZ in Hlen.
  split; [lia|]. intros j Hj.
  destruct (lookup_lt_is_Some_2 (seqZ 0 (Z.of_nat n)) j) as [i Hi]; [rewrite length_seqZ; lia|].
  destruct (Forall2_lookup_l _ _ _ _ _ E Hi) as (b & Hb & Hv). apply lookup_seqZ in Hi as [-> _].
  rewrite Hb, <- Hv. by rewrite Z.add_0_l.
Qed.


Lemma user_put_all_seen text c : NoDup (consoles c) -> consoles (put_all text c) = consoles c /\
  forall d, seen (put_all text c) d = seen c d ++ (if decide (d ∈ consoles c) then text else []).
Proof.
  unfold put_all. revert c. induction text as [|b text IH]; intros c Hn; cbn [fold_left].
  { split; [done|]. intros d. destruct (decide _); by rewrite app_nil_r. }
  destruct (IH (console_put c b) Hn) as [E1 E2]. split; [done|]. intros d. rewrite E2, seen_put by done.
  cbn [console_put consoles]. rewrite <- app_assoc. f_equal. by destruct (decide _).
Qed.

(** A write to handle 1 or 2 the kernel accepts never faults, returns its length and
    gives every registered console exactly the bytes the program has in its buffer. *)
Theorem sys_write_console k V s handle buffer len :
  uinv k V (user s) -> user_range_ok buffer len s = true -> 1 <= len -> buffer + len <= 2 ^ 48 ->
  handle = 1 \/ handle = 2 -> NoDup (consoles (console s)) ->
  exists text s', sys_write handle buffer len s = Some (len, s') /\ length text = Z.to_nat len /\
    (forall j, (j < Z.to_nat len)%nat -> view (user s) (buffer + Z.of_nat j) = text !! j) /\
    (forall d, seen (console s') d = seen (console s) d ++ (if decide (d ∈ consoles (console s)) then text else [])) /\
    user s' = user s /\ files s' = files s /\ open_files s' = open_files s.
Proof.
  intros Hu Hok Hl Hhi Hh Hn. unfold sys_write. rewrite Hok. cbn [negb].
  assert ((handle =? 1) || (handle =? 2) = true) as -> by (destruct Hh as [-> | ->]; done).
  destruct (user_bytes_spec k V (user s) buffer (Z.to_nat len) Hu) as (text & E & Ht & Hv).
  { intros j Hj. eapply (range_mapped k V s buffer len); [done|done|done|done|lia]. }
  rewrite E. cbn [mbind option_bind]. eexists text, _. split; [done|]. split_and!; try done. apply user_put_all_seen, Hn.
Qed.


(** Memory the program may not name: below its half of the address space, longer than the
    limit, or, inside the 48-bit space, with a byte on a page it does not have. *)
Definition foreign (V : gmap Z Z) (address len : Z) : Prop :=
  address < user_base \/ max_user_string < len \/
  address + len <= 2 ^ 48 /\ exists j, 0 <= j < len /\ V !! page_base (address + j) = None.

(** The handle of an entry of the table that is in use. *)
Definition names_file (handle : Z) s : Prop :=
  exists i f, handle = Z.of_nat i + 3 /\ open_files s !! i = Some f /\ used f = true.

Definition bad_request (V : gmap Z Z) (number first second third : Z) s : Prop :=
  7 < number \/
  number = 1 /\ (foreign V second third \/ first <> 1 /\ first <> 2 /\ ~ names_file first s) \/
  number = 2 /\ (foreign V second third \/ ~ names_file first s) \/
  number = 5 /\ foreign V first 1 \/
  number = 6 /\ ~ names_file first s.

(** The range lies on one page or on two that touch, and both ends are looked at. *)
Lemma foreign_refused k V s address len : uinv k V (user s) -> foreign V address len -> user_range_ok address len s = false.
Proof.
  intros Hu Hf. unfold user_range_ok. destruct (current_process s); [|done]. destruct (Z.leb_spec len max_user_string) as [Hl|]; [|done]. cbn [andb].
  unfold owns. destruct (Z.ltb_spec address user_base); [done|]. cbn [orb]. destruct (max_program_bytes <? len); [done|].
  destruct Hf as [|[|(Hhi & j & Hj & Hn)]]; [lia|lia|]. assert (0 < user_base) as Hb by done. unfold max_user_string in Hl.
  rewrite (u64_small (address + len)), u64_small by lia. apply andb_false_iff. rewrite !negb_false_iff, !Z.eqb_eq.
  assert (page_base (address + j) = page_base address \/ page_base (address + j) = page_base (address + len - 1)) as [E|E]
    by (unfold page_base, page_size; dlia); rewrite E in Hn; [left|right]; apply (u_none _ _ _ Hu); (done || lia).
Qed.

Lemma unnamed_refused handle s : 0 <= handle < 2 ^ 64 -> ~ names_file handle s -> open_file handle s = None.
Proof.
  intros Hh Hn. unfold open_file, file_index. destruct (Z.leb_spec (Z.of_nat max_open_files) (u64 (handle - 3))) as [|Hlt]; [done|].
  assert (3 <= handle) as H3.
  { destruct (Z.le_gt_cases 3 handle) as [|Hsmall]; [done|]. exfalso. revert Hlt. assert (handle = 0 \/ handle = 1 \/ handle = 2) as Hc by lia.
    by destruct Hc as [->|[->| ->]]. }
  rewrite u64_small in * by lia. destruct (open_files s !! Z.to_nat (handle - 3)) as [f|] eqn:E; [|done]. cbn [mbind option_bind].
  destruct (used f) eqn:Ef; [|done]. destruct Hn. exists (Z.to_nat (handle - 3)), f. split; [lia|done].
Qed.

(** C29: Bad requests have no effect: a buffer below the program's half of the address space,
    or longer than 1024 bytes, or with a byte in the 48-bit space on a page the program
    does not have; a handle that names no file in use; or a number that is no call: each
    gives the program -1 and leaves the kernel as it was.  Of the name [sys_open] is
    given only the first byte is looked at, and of addresses above 2^48 only the low 48
    bits ([owns_ignores_high_bits]): nothing is said of those. *)
Theorem syscall_refuses k V now number first second third s :
  uinv k V (user s) -> 0 <= first < 2 ^ 64 -> bad_request V number first second third s ->
  syscall_dispatch now number first second third s = Some (Returns (2 ^ 64 - 1), s).
Proof.
  intros Hu Hf [Hn|[[-> Hbad]|[[-> Hbad]|[[-> Hbad]|[-> Hbad]]]]]; unfold syscall_dispatch.
  - unfold call_of. rewrite !(proj2 (Z.eqb_neq number _)) by lia. done.
  - cbn [call_of Z.eqb]. unfold sys_write. destruct Hbad as [Hbad|(Hf1 & Hf2 & Ho)]; [by rewrite (foreign_refused k V)|].
    apply Z.eqb_neq in Hf1, Hf2. destruct (user_range_ok second third s); [|done]. cbn [negb]. by rewrite Hf1, Hf2, unnamed_refused.
  - cbn [call_of Z.eqb]. unfold sys_read. destruct Hbad as [Hbad|Ho]; [by rewrite (foreign_refused k V)|].
    destruct (user_range_ok second third s); [|done]. cbn [negb]. rewrite unnamed_refused by done. by destruct (first <? 3).
  - cbn [call_of Z.eqb]. unfold sys_open. by rewrite (foreign_refused k V).
  - cbn [call_of Z.eqb]. unfold sys_close. rewrite unnamed_refused by done. by destruct (first <? 3).
Qed.

(** Handles come and go in turn: the handle [sys_open] returns is one that was free, it
    is open afterwards at offset 0, no other file changes, and closing it frees
    exactly that entry. *)
Theorem sys_open_close address s r s' :
  length (open_files s) = max_open_files -> sys_open address s = Some (r, s') -> r <> -1 ->
  exists i f p, r = Z.of_nat i + 3 /\ open_files s !! i = Some f /\ used f = false /\
    open_files s' = <[i := mkFile true 0 p]> (open_files s) /\ open_file r s' = Some (i, mkFile true 0 p) /\
    exists s'', sys_close r s' = (0, s'') /\ open_files s'' = <[i := mkFile false 0 p]> (open_files s).
Proof.
  intros Hlen E Hr. unfold sys_open in E. destruct (negb _); [by simplify_eq|].
  destruct (user_string _ _ _) as [name|]; [|done]. cbn [mbind option_bind] in E.
  destruct (stat _ _ _) as [[status fs]|]; [|done]. cbn [mbind option_bind] in E.
  destruct status as [st|]; [|by simplify_eq]. cbn [open_files set_files] in E.
  destruct (find_unused (open_files s)) as [i|] eqn:Ei; [|by simplify_eq]. injection E as <- <-.
  assert (forall l i, find_unused l = Some i -> exists f, l !! i = Some f /\ used f = false) as Hfind.
  { clear. induction l as [|f l IH]; intros i E; [done|]. cbn in E. destruct (used f) eqn:Eu; [|injection E as <-; by exists f].
    destruct (find_unused l) as [j|]; [|done]. injection E as <-. by apply IH. }
  destruct (Hfind _ _ Ei) as (f & Hf & Hu). pose proof (lookup_lt_Some _ _ _ Hf) as Hi. rewrite Hlen in Hi. unfold max_open_files in Hi.
  set (p := take (path_size - 1) name). set (s1 := set_open _ _).
  assert (open_file (Z.of_nat i + 3) s1 = Some (i, mkFile true 0 p)) as Ho.
  { unfold open_file, file_index. replace (Z.of_nat i + 3 - 3) with (Z.of_nat i) by lia. rewrite u64_small by lia.
    rewrite (proj2 (Z.leb_gt _ _)) by (unfold max_open_files; lia). rewrite Nat2Z.id. cbn [open_files s1 set_open].
    rewrite list_lookup_insert_eq by (by eapply lookup_lt_Some). done. }
  exists i, f, p. split_and!; try done. unfold sys_close. rewrite (proj2 (Z.ltb_ge _ _)) by lia. rewrite Ho.
  eexists. split; [reflexivity|]. cbn. by rewrite list_insert_insert_eq.
Qed.

End correctness.

(** ** A program at work *)

(** A file system of one file whose bytes are 10, 11, 12, ... *)
#[local] Instance one_file : FileSystems unit unit unit := {|
  fs_name _ := [120]; fs_root _ s := Some (Some tt, s); node_type _ _ := File; node_size _ _ := 64;
  node_read _ o n s := Some (n, (fun i => 10 + o + i) <$> seqZ 0 n, s); node_write _ _ b s := Some (Z.of_nat (length b), s);
  node_lookup _ _ s := Some (Some tt, s); node_entry_at _ _ s := Some (None, s) |}.

Definition demo_files : list OpenFile := mkFile true 5 [47; 102] :: replicate 7 (mkFile false 0 []).

(** A kernel that runs the program whose memory is [w]. *)
Definition demo_kernel (w : world (@Paging.space PageAlloc.state)) : @kernel (@Paging.space PageAlloc.state) unit unit :=
  mkKernel demo_files (Console.mk [7] []) [mkMount [47] tt] tt [demo_process] (Some 0%nat) w.

Definition demo_buffer : Z := user_base + 0x1000.

Lemma sys_write_console_witness : exists w text s',
  sys_write 1 demo_buffer 4 (demo_kernel w) = Some (4, s') /\ length text = 4%nat /\ seen (console s') 7 = text.
Proof.
  destruct demo_user as (k & V & w & Hu & Ho).
  destruct (sys_write_console k V (demo_kernel w) 1 demo_buffer 4 Hu) as (text & s' & E & Hl & _ & Hs & _).
  - exact Ho.
  - lia.
  - unfold demo_buffer, user_base. lia.
  - left. reflexivity.
  - apply NoDup_singleton.
  - exists w, text, s'. split; [exact E|]. split; [exact Hl|]. exact (Hs 7).
Defined.


Lemma syscall_refuses_witness : exists w,
  syscall_dispatch 0 1 1 0x1000 4 (demo_kernel w) = Some (Returns (2 ^ 64 - 1), demo_kernel w) /\
  syscall_dispatch 0 2 3 demo_buffer 2000 (demo_kernel w) = Some (Returns (2 ^ 64 - 1), demo_kernel w) /\
  syscall_dispatch 0 6 4 0 0 (demo_kernel w) = Some (Returns (2 ^ 64 - 1), demo_kernel w).
Proof.
  destruct demo_user as (k & V & w & Hu & _). exists w.
  split; [|split]; apply (syscall_refuses k V); try exact Hu; try lia.
  - right; left. split; [reflexivity|]. left. left. reflexivity.
  - right; right; left. split; [reflexivity|]. left. right. left. reflexivity.
  - right; right; right; right. split; [reflexivity|]. intros (i & f & Hi & Ef & Eu).
    assert (i = 1%nat) as -> by lia. cbn in Ef. injection Ef as <-. discriminate Eu.
Defined.

(** Memory where user addresses are physical ones, with "/f" in the buffer. *)
#[local] Instance flat : PageMapper unit := {|
  pm_alloc m := (0, m); pm_free m _ := m; pm_map m _ _ _ _ := (true, m); pm_unmap m _ _ := (true, m);
  pm_protect m _ _ _ := (true, m); pm_translate _ va := va; pm_wf _ _ := True |}.

Definition flat_kernel : @kernel unit unit unit :=
  mkKernel demo_files (Console.mk [7] []) [mkMount [47] tt] tt [demo_process] (Some 0%nat)
    (mkWorld tt {[demo_buffer := 47; demo_buffer + 1 := 102; demo_buffer + 2 := 0]}).

Lemma sys_open_close_witness : exists s' s'',
  sys_open demo_buffer flat_kernel = Some (4, s') /\ open_file 4 s' = Some (1%nat, mkFile true 0 [47; 102]) /\
  sys_close 4 s' = (0, s'').
Proof.
  destruct (sys_open demo_buffer flat_kernel) as [[r s']|] eqn:E; [|vm_compute in E; discriminate E].
  assert (r = 4) as -> by (vm_compute in E; congruence).
  destruct (sys_open_close demo_buffer flat_kernel 4 s' eq_refl E ltac:(discriminate)) as (i & f & p & _ & _ & _ & _ & Ho & s'' & Hc & _).
  exists s', s''. split; [reflexivity|]. split; [|exact Hc]. vm_compute in E. injection E as <-. reflexivity.
Defined.
