(* ===== verification/Programs.v ===== *)
(** * The programs of ring 3 (src/user)

    What init.c, crash.c and spin.c do, from crt0's [_start] to the exit call, on the
    memory of their own address space and with the kernel's [syscall_dispatch] behind
    the [syscall] instruction.  A program is a function on the machine: the kernel, the
    times it will answer [SYS_TIME] with, and what the program asked to sleep.  Where the
    compiler puts a literal or a local array is a parameter.  Touching an address that
    is not mapped is a fault; that the literals' pages are read-only is not part of the
    state (no program here stores into one). *)

From S2P Require Import Prelude Interfaces Memory User PageAlloc Paging UserSpace Vfs Console Process Syscall.

(** ** The library (eris.h) *)

Definition SYS_EXIT : Z := 0.
Definition SYS_WRITE : Z := 1.
Definition SYS_READ : Z := 2.
Definition SYS_GETPID : Z := 3.
Definition SYS_SLEEP : Z := 4.
Definition SYS_OPEN : Z := 5.
Definition SYS_CLOSE : Z := 6.
Definition SYS_TIME : Z := 7.

(** The [i64] in [rax]. *)
Definition to_i64 (x : Z) : Z := let v := u64 x in if v <? 2 ^ 63 then v else v - 2 ^ 64.

Section programs.
Context {M : Type} `{UserSpaces M} {S N F : Type} `{FileSystems S N F}.

Record machine := mkMachine { os : @kernel M S F; times : nat -> Z; calls : nat; slept : list Z }.

Definition set_os (k : @kernel M S F) (m : machine) : machine := mkMachine k (times m) (calls m) (slept m).

(** How far a program got: a value, a fault at an address, out of ring 3 by the exit
    call, a fault of the kernel on its behalf, or round the loop after a refused exit. *)
Inductive ran (A : Type) := Ret (a : A) (m : machine) | Faulted (address : Z) (m : machine) | Left (m : machine)
  | KernelFault (m : machine) | Hangs (m : machine).

Definition prg (A : Type) : Type := machine -> ran A.
Definition ret {A} (a : A) : prg A := fun m => Ret A a m.
Definition bind {A B} (c : prg A) (k : A -> prg B) : prg B := fun m =>
  match c m with
  | Ret _ a m => k a m
  | Faulted _ x m => Faulted B x m
  | Left _ m => Left B m
  | KernelFault _ m => KernelFault B m
  | Hangs _ m => Hangs B m
  end.

Local Notation "'let*' x ':=' c 'in' k" := (bind c (fun x => k)) (at level 10, x name, c at level 100, k at level 200).
Local Notation "c ;; k" := (bind c (fun _ => k)) (at level 100, right associativity).

Definition load (address : Z) : prg Z := fun m =>
  match view (user (os m)) address with Some b => Ret Z b m | None => Faulted Z address m end.

Definition store (address b : Z) : prg unit := fun m =>
  match user_write (user (os m)) address [b] with
  | Some w => Ret unit tt (set_os (set_user w (os m)) m)
  | None => Faulted unit address m
  end.

(** The [syscall] instruction and the way back. *)
Definition syscall (number first second third : Z) : prg Z := fun m =>
  match syscall_dispatch (times m (calls m)) number first second third (os m) with
  | None => KernelFault Z m
  | Some (Returns r, k) => Ret Z (to_i64 r) (mkMachine k (times m) (Datatypes.S (calls m)) (slept m))
  | Some (Sleeps ms, k) => Ret Z 0 (mkMachine k (times m) (Datatypes.S (calls m)) (slept m ++ [ms]))
  | Some (Leaves, k) => Left Z (mkMachine k (times m) (Datatypes.S (calls m)) (slept m))
  end.

Definition write (handle buffer length : Z) : prg Z := syscall SYS_WRITE (u64 handle) buffer length.
Definition read (handle buffer length : Z) : prg Z := syscall SYS_READ (u64 handle) buffer length.
Definition open (path : Z) : prg Z := let* r := syscall SYS_OPEN path 0 0 in ret (to_int r).
Definition close (handle : Z) : prg Z := let* r := syscall SYS_CLOSE (u64 handle) 0 0 in ret (to_int r).
Definition getpid : prg Z := let* r := syscall SYS_GETPID 0 0 0 in ret (to_int r).
Definition sleep_ms (milliseconds : Z) : prg Z := syscall SYS_SLEEP milliseconds 0 0.
Definition monotonic_ns : prg Z := let* r := syscall SYS_TIME 0 0 0 in ret (u64 r).

(** [while (text[length] != '\0') ++length;]: a string is no longer than the memory
    there is. *)
Fixpoint strlen_loop (fuel : nat) (text length : Z) : prg Z :=
  match fuel with
  | O => fun m => Hangs Z m
  | Datatypes.S fuel =>
    let* c := load (text + length) in
    if c =? 0 then ret length else strlen_loop fuel text (length + 1)
  end.

Definition strlen (text : Z) : prg Z := fun m => strlen_loop (string_fuel (user (os m))) text 0 m.

Definition print (text : Z) : prg Z := let* length := strlen text in write 1 text length.

(** The loop of [print_number]: [index] places are left in front. *)
Fixpoint digits_loop (digits : Z) (index : nat) (value : Z) : prg nat :=
  match index with
  | O => ret O
  | Datatypes.S below =>
    if 0 <? value then store (digits + Z.of_nat below) (48 + value mod 10) ;; digits_loop digits below (value / 10)
    else ret index
  end.

(** [digits] is the array of 24 bytes on the stack. *)
Definition print_number (digits value : Z) : prg Z :=
  store (digits + 23) 0 ;;
  let* index := (if value =? 0 then store (digits + 22) 48 ;; ret 22%nat else ret 23%nat) in
  let* index := digits_loop digits index value in
  print (digits + Z.of_nat index).

(** ** crt0.asm *)

Definition start (main : prg Z) : prg Z :=
  let* r := main in
  syscall SYS_EXIT r 0 0 ;;
  fun m => Hangs Z m.

(** ** The programs *)

(** [at_ l] is the address of the literal [l]; [digits] and [buffer] the arrays on the
    stack. *)
Record layout := mkLayout { at_ : list Z -> Z; digits : Z; buffer : Z }.

Definition line (s : string) : list Z := literal s ++ [10].

Definition buffer_size : Z := 64.

(** [for (i64 i = 0; i < length; ++i) if (buffer[i] == '\n') buffer[i] = '\0';] with [n]
    rounds left. *)
Fixpoint cut_lines (n : nat) (buffer i : Z) : prg unit :=
  match n with
  | O => ret tt
  | Datatypes.S n =>
    let* c := load (buffer + i) in
    (if c =? 10 then store (buffer + i) 0 else ret tt) ;;
    cut_lines n buffer (i + 1)
  end.

Definition say (l : layout) (text : list Z) : prg Z := print (at_ l text).

(** What init does with the file. *)
Definition init_file (l : layout) : prg unit :=
  let* handle := open (at_ l (literal "/mnt/hello.txt")) in
  if 0 <=? handle then
    let* length := read handle (buffer l) (buffer_size - 1) in
    (if 0 <? length then
       store (buffer l + length) 0 ;;
       say l (literal "init: /mnt/hello.txt says ") ;;
       cut_lines (Z.to_nat length) (buffer l) 0 ;;
       print (buffer l) ;;
       say l [10] ;; ret tt
     else ret tt) ;;
    close handle ;; ret tt
  else say l (line "init: no file to read, the disk is empty") ;; ret tt.

Definition init_main (l : layout) : prg Z :=
  say l (line "init: hello from ring 3") ;;
  say l (literal "init: pid is ") ;;
  let* pid := getpid in
  print_number (digits l) (u64 pid) ;;
  say l [10] ;;
  let* before := monotonic_ns in
  sleep_ms 20 ;;
  let* after := monotonic_ns in
  say l (literal "init: slept ") ;;
  print_number (digits l) (u64 (after - before) / 1000000) ;;
  say l (line " ms") ;;
  init_file l ;;
  say l (line "init: leaving with 42") ;;
  ret 42.

Definition nowhere : Z := 0x4000000000.

(** The eight bytes of a [u64], the lowest first. *)
Fixpoint store_bytes (n : nat) (address value : Z) : prg unit :=
  match n with
  | O => ret tt
  | Datatypes.S n => store address (u8 value) ;; store_bytes n (address + 1) (Z.shiftr value 8)
  end.

Definition crash_main (l : layout) : prg Z :=
  say l (line "crash: about to write where nothing is mapped") ;;
  store_bytes 8 nowhere 1 ;;
  say l (line "crash: still here, which means the kernel let it through") ;;
  ret 0.

Definition spin_main (l : layout) : prg Z :=
  say l (line "spin: counting") ;;
  let sum := User.spin_sum User.rounds in
  say l (literal "spin: sum is ") ;;
  print_number (digits l) sum ;;
  say l (literal ", expected ") ;;
  print_number (digits l) User.expected ;;
  say l [10] ;;
  if negb (sum =? User.expected) then say l (line "spin: the numbers do not match") ;; ret 1
  else say l (line "spin: survived the ticks") ;; ret 0.

End programs.

(** ** What a run needs and keeps *)

Section behaviour.
Context {M : Type} `{UserSpaces M} {S N F : Type} `{FileSystems S N F}.
Implicit Types (m : @machine M S F) (w : world M).

(** The addresses [D] are the program's: readable, and no two of them on one byte of
    physical memory. *)
Record home (D : Z -> Prop) w : Prop := {
  h_range a : D a -> user_base <= a < 2 ^ 48;
  h_some a : D a -> is_Some (view w a);
  h_inj a b : D a -> D b -> pm_translate (space w) a = pm_translate (space w) b -> a = b
}.

(** The string [t] lies at [a], its terminator included. *)
Definition holds (D : Z -> Prop) w (a : Z) (t : list Z) : Prop :=
  forall j, (j <= length t)%nat -> D (a + Z.of_nat j) /\ view w (a + Z.of_nat j) = (t ++ [0]) !! j.

(** The file systems answer, and a read gives no more than was asked for. *)
Definition serves : Prop :=
  (forall f fs, is_Some (fs_root f fs)) /\ (forall node name fs, is_Some (node_lookup node name fs)) /\
  (forall node o len fs, 0 <= len -> exists count data fs', node_read node o len fs = Some (count, data, fs') /\
     -1 <= count <= len /\ Z.of_nat (length data) = Z.max 0 count).

Variables (D : Z -> Prop) (l : layout) (m0 : @machine M S F).

(** Where a program stores. *)
Definition scratch (a : Z) : Prop := digits l <= a < digits l + 24 \/ buffer l <= a < buffer l + buffer_size.

(** What no step of a program changes. *)
Record steady m : Prop := {
  s_home : home D (user (os m));
  s_space : space (user (os m)) = space (user (os m0));
  s_views a : D a -> ~ scratch a -> view (user (os m)) a = view (user (os m0)) a;
  s_running : running (os m) = running (os m0);
  s_processes : processes (os m) = processes (os m0);
  s_mounts : mounts (os m) = mounts (os m0);
  s_consoles : consoles (console (os m)) = consoles (console (os m0));
  s_times : times m = times m0
}.

Definition shows m m' (text : list Z) : Prop := forall d,
  seen (console (os m')) d = seen (console (os m)) d ++ (if decide (d ∈ consoles (console (os m0))) then text else []).

Definition acts {A} (c : prg A) m (Q : A -> @machine M S F -> list Z -> Prop) : Prop :=
  exists a m' text, c m = Ret A a m' /\ steady m' /\ shows m m' text /\ Q a m' text.

(** [c] ends with a value in [P] after [n] calls, shows [text] and leaves the open
    files and the file systems alone. *)
Definition gives {A} (c : prg A) m (P : A -> @machine M S F -> Prop) (text : list Z) (n : nat) : Prop :=
  acts c m (fun a m' t => P a m' /\ t = text /\ calls m' = (calls m + n)%nat /\
    (open_files (os m'), Syscall.files (os m')) = (open_files (os m), Syscall.files (os m))).

Lemma shows_same m m' : console (os m') = console (os m) -> shows m m' [].
Proof. intros E d. rewrite E. destruct (decide _); by rewrite app_nil_r. Qed.

Lemma shows_trans m m1 m2 t1 t2 : shows m m1 t1 -> shows m1 m2 t2 -> shows m m2 (t1 ++ t2).
Proof. intros Ha Hb d. rewrite Hb, Ha, <- app_assoc. by destruct (decide _). Qed.

Lemma acts_bind {A B} (c : prg A) (k : A -> prg B) m Q :
  acts c m (fun a m1 t1 => acts (k a) m1 (fun b m2 t2 => Q b m2 (t1 ++ t2))) -> acts (bind c k) m Q.
Proof.
  intros (a & m1 & t1 & E1 & _ & Hs1 & b & m2 & t2 & E2 & Hst & Hs2 & HQ).
  exists b, m2, (t1 ++ t2). unfold bind. rewrite E1. split_and!; [done..| |done]. by eapply shows_trans.
Qed.

Lemma acts_mono {A} (c : prg A) m (Q Q' : A -> machine -> list Z -> Prop) :
  acts c m Q -> (forall a m' t, steady m' -> Q a m' t -> Q' a m' t) -> acts c m Q'.
Proof. intros (a & m' & t & E & Hst & Hs & HQ) Hm. exists a, m', t. by eauto 6. Qed.

Lemma ret_gives {A} (a : A) m : steady m -> gives (ret a) m (fun b m' => b = a /\ m' = m) [] 0.
Proof. intros Hst. exists a, m, []. split_and!; [done|done|by apply shows_same|done..|lia|done]. Qed.

(** A step that [gives] and what follows. *)
Lemma gives_then {A B} (c : prg A) (k : A -> prg B) m P t n Q : gives c m P t n ->
  (forall a m1, steady m1 -> P a m1 -> calls m1 = (calls m + n)%nat ->
     (open_files (os m1), Syscall.files (os m1)) = (open_files (os m), Syscall.files (os m)) ->
     acts (k a) m1 (fun b m2 t2 => Q b m2 (t ++ t2))) ->
  acts (bind c k) m Q.
Proof.
  intros Hg Hk. apply acts_bind. eapply acts_mono; [exact Hg|]. intros a m1 t1 Hst (HP & -> & Hc & Ho). by apply Hk.
Qed.

(** A program's byte is on memory of its own. *)
Lemma home_at w a : home D w -> D a -> exists b, pm_translate (space w) a <> 0 /\ mem w !! pm_translate (space w) a = Some b /\ view w a = Some b.
Proof.
  intros Hh Ha. destruct (h_some _ _ Hh a Ha) as [b Hb]. exists b. unfold view in *.
  destruct (Z.eqb_spec (pm_translate (space w) a) 0); [done|]. by split_and!.
Qed.

(** The fuel of the string loops is enough: the bytes of a string are on distinct
    bytes of memory. *)
Lemma holds_fuel w a t : home D w -> holds D w a t -> (length t < string_fuel w)%nat.
Proof.
  intros Hh Ht. unfold string_fuel. set (f := fun j => pm_translate (space w) (a + Z.of_nat j)).
  assert (length t <= size (mem w))%nat; [|lia].
  transitivity (size (list_to_set (f <$> seq 0 (length t)) : gset Z)).
  - rewrite size_list_to_set, length_fmap, length_seq; [done|]. apply NoDup_fmap_2_strong; [|apply NoDup_seq].
    intros i j Hi%elem_of_seq Hj%elem_of_seq E. destruct (Ht i), (Ht j); [lia..|].
    apply (h_inj _ _ Hh) in E; [lia|done..].
  - rewrite <- size_dom. apply subseteq_size. intros x Hx%elem_of_list_to_set.
    apply list_elem_of_fmap in Hx as (j & -> & Hj%elem_of_seq). destruct (Ht j) as [Hd _]; [lia|].
    destruct (home_at w _ Hh Hd) as (b & _ & Hb & _). by apply elem_of_dom_2 in Hb.
Qed.

(** The loop of [strlen] from place [i] of a string without a zero in it. *)
Lemma strlen_loop_spec m a t n : home D (user (os m)) -> holds D (user (os m)) a t -> Forall (fun c => c <> 0) t ->
  forall fuel i, (i + n = length t)%nat -> (n < fuel)%nat ->
  strlen_loop fuel a (Z.of_nat i) m = Ret Z (Z.of_nat (length t)) m.
Proof.
  intros Hh Ht Hz. induction n as [|n IH]; intros fuel i Hi Hf; (destruct fuel as [|fuel]; [lia|]); cbn [strlen_loop];
    unfold bind, load; destruct (Ht i) as [_ ->]; try lia.
  - rewrite lookup_app_r by lia. replace (i - length t)%nat with 0%nat by lia. cbn. by replace i with (length t) by lia.
  - destruct (lookup_lt_is_Some_2 t i) as [c Hc]; [lia|]. rewrite (lookup_app_l_Some _ _ _ _ Hc).
    rewrite (proj2 (Z.eqb_neq c 0)) by exact (Forall_lookup_1 _ _ _ _ Hz Hc).
    replace (Z.of_nat i + 1) with (Z.of_nat (Datatypes.S i)) by lia. apply IH; lia.
Qed.

Lemma strlen_spec m a t : home D (user (os m)) -> holds D (user (os m)) a t -> Forall (fun c => c <> 0) t ->
  strlen a m = Ret Z (Z.of_nat (length t)) m.
Proof.
  intros Hh Ht Hz. unfold strlen. apply (strlen_loop_spec m a t (length t) Hh Ht Hz _ 0); [done|]. by eapply holds_fuel.
Qed.

(** The same string as the kernel reads it. *)
Lemma user_string_spec w a t : home D w -> holds D w a t -> Forall (fun c => c <> 0) t ->
  user_string (string_fuel w) w a = Some t.
Proof.
  intros Hh Ht Hz. pose proof (holds_fuel _ _ _ Hh Ht) as Hf. revert Hf. generalize (string_fuel w). clear Hh.
  revert a Ht. induction t as [|c t IH]; intros a Ht fuel Hf; (destruct fuel as [|fuel]; [cbn in Hf; lia|]); cbn [user_string].
  - destruct (Ht 0%nat) as [_ Hv]; [lia|]. rewrite Z.add_0_r in Hv. by rewrite Hv.
  - apply Forall_cons in Hz as [Hc Hz]. destruct (Ht 0%nat) as [_ Hv]; [lia|]. rewrite Z.add_0_r in Hv. rewrite Hv. cbn.
    rewrite (proj2 (Z.eqb_neq c 0)) by done. rewrite (IH Hz (a + 1)); [done| |cbn in Hf; lia].
    intros j Hj. specialize (Ht (Datatypes.S j)). rewrite Nat2Z.inj_succ in Ht. replace (a + 1 + Z.of_nat j) with (a + Z.succ (Z.of_nat j)) by lia.
    apply Ht. cbn. lia.
Qed.

Lemma user_bytes_holds w a t : holds D w a t -> user_bytes w a (length t) = Some t.
Proof.
  intros Ht. unfold user_bytes. apply mapM_Some. apply Forall2_same_length_lookup_2; [by rewrite length_seqZ, Nat2Z.id|].
  intros i x y Hx Hy. apply lookup_seqZ in Hx as [-> Hx]. destruct (Ht i) as [_ Hv]; [lia|]. rewrite Z.add_0_l, Hv.
  by rewrite (lookup_app_l_Some _ _ _ _ Hy).
Qed.

(** A range of the program's passes the kernel's check. *)
Lemma home_range_ok m a len : steady m -> is_Some (current_process (os m0)) -> 1 <= len <= max_user_string ->
  D a -> D (a + len - 1) -> user_range_ok a len (os m) = true.
Proof.
  intros Hst [p Hp] Hl Ha Hb. unfold user_range_ok, current_process in *. rewrite (s_running _ Hst), (s_processes _ Hst), Hp.
  pose proof (s_home _ Hst) as Hh. destruct (h_range _ _ Hh _ Ha), (h_range _ _ Hh _ Hb). unfold max_user_string in *.
  destruct (home_at _ _ Hh Ha) as (_ & Hta & _), (home_at _ _ Hh Hb) as (_ & Htb & _).
  apply andb_true_iff. split; [apply Z.leb_le; lia|]. unfold owns. rewrite (proj2 (Z.ltb_ge _ _)) by done.
  rewrite (proj2 (Z.ltb_ge max_program_bytes len)) by (change max_program_bytes with 1048576; lia). cbn [orb].
  rewrite u64_small by (rewrite u64_small; unfold user_base in *; lia). rewrite u64_small by (unfold user_base in *; lia).
  apply andb_true_iff. by rewrite !negb_true_iff, !Z.eqb_neq.
Qed.

(** ** What each step does *)

Hypothesis Hconsoles : NoDup (consoles (console (os m0))).
Hypothesis Hprocess : is_Some (current_process (os m0)).

Lemma print_gives m a t : steady m -> holds D (user (os m)) a t -> Forall (fun c => c <> 0) t ->
  Z.of_nat (length t) <= max_user_string -> gives (print a) m (fun _ m' => user (os m') = user (os m)) t 1.
Proof.
  intros Hst Ht Hz Hl. unfold gives, print, write, syscall, syscall_dispatch, sys_write.
  assert (exists r, bind (strlen a) (fun len => syscall SYS_WRITE (u64 1) a len) m
    = Ret Z r (mkMachine (set_console (put_all t (console (os m))) (os m)) (times m) (Datatypes.S (calls m)) (slept m))) as [r E].
  { unfold bind. rewrite (strlen_spec m a t (s_home _ Hst) Ht Hz). unfold syscall, syscall_dispatch. cbn [SYS_WRITE call_of Z.eqb Pos.eqb].
    unfold sys_write. destruct (user_range_ok _ _ _) eqn:Er.
    - cbn [negb]. change ((u64 1 =? 1) || (u64 1 =? 2)) with true. cbn match. rewrite Nat2Z.id, (user_bytes_holds _ _ _ Ht).
      eexists. reflexivity.
    - destruct t as [|c t].
      + cbn [negb mbind option_bind]. eexists. by destruct (os m).
      + assert (user_range_ok a (Z.of_nat (length (c :: t))) (os m) = true); [|congruence].
        destruct (Ht 0%nat), (Ht (length t)); [cbn; lia..|]. rewrite Z.add_0_r in *. apply home_range_ok; [done..|cbn in *; lia|done|].
        replace (a + Z.of_nat (length (c :: t)) - 1) with (a + Z.of_nat (length t)) by (cbn; lia). done. }
  exists r, (mkMachine (set_console (put_all t (console (os m))) (os m)) (times m) (Datatypes.S (calls m)) (slept m)), t.
  split; [exact E|]. assert (NoDup (consoles (console (os m)))) as Hnd by by rewrite (s_consoles _ Hst).
  destruct (user_put_all_seen t (console (os m)) Hnd) as [Hc Hs]. split_and!.
  - destruct Hst. constructor; cbn [os set_console user running processes mounts console]; try done. by rewrite Hc.
  - intros d. cbn [os set_console console]. by rewrite Hs, (s_consoles _ Hst).
  - done.
  - done.
  - cbn [calls]. lia.
  - done.
Qed.

(** A byte stored where the program may. *)
Lemma store_gives m a b : steady m -> D a -> scratch a ->
  gives (store a b) m (fun _ m' => forall x, D x -> view (user (os m')) x = if x =? a then Some b else view (user (os m)) x) [] 0.
Proof.
  intros Hst Ha Hs. pose proof (s_home _ Hst) as Hh. destruct (home_at _ _ Hh Ha) as (b0 & Ht & Hb0 & _).
  unfold gives, acts, store. cbn [user_write]. rewrite (proj2 (Z.eqb_neq _ _) Ht).
  set (w := mkWorld _ _). assert (forall x, D x -> view w x = if x =? a then Some b else view (user (os m)) x) as Hv.
  { intros x Hx. unfold view. cbn [w space mem]. destruct (Z.eqb_spec x a) as [->|Hne].
    - rewrite (proj2 (Z.eqb_neq _ _) Ht). by rewrite lookup_insert_eq.
    - destruct (pm_translate (space (user (os m))) x =? 0); [done|]. rewrite lookup_insert_ne; [done|].
      intros E. apply Hne. symmetry. by apply (h_inj _ _ Hh). }
  eexists tt, _, []. split; [reflexivity|]. split; [|split_and!; [by apply shows_same|exact Hv|done|cbn; lia|done]].
  destruct Hst as [_ Hsp Hvw Hr Hp Hm Hc Hti]. constructor; cbn [os set_os set_user user running processes mounts console]; try done.
  - destruct Hh as [Hra Hso Hin]. constructor; [done| |done]. intros x Hx. rewrite Hv by done. destruct (x =? a); [done|by apply Hso].
  - intros x Hx Hns. rewrite Hv by done. destruct (Z.eqb_spec x a) as [->|_]; [done|by apply Hvw].
Qed.

(** A string of the program survives what leaves its bytes alone. *)
Lemma holds_same w w' a t : holds D w a t -> (forall j, (j <= length t)%nat -> view w' (a + Z.of_nat j) = view w (a + Z.of_nat j)) ->
  holds D w' a t.
Proof. intros Ht Hv j Hj. destruct (Ht j Hj) as [? <-]. by rewrite Hv. Qed.

Lemma holds_cons w a c t : D (a - 1) -> view w (a - 1) = Some c -> holds D w a t -> holds D w (a - 1) (c :: t).
Proof.
  intros Hd Hv Ht [|j] Hj; [by rewrite Z.add_0_r|]. replace (a - 1 + Z.of_nat (Datatypes.S j)) with (a + Z.of_nat j) by lia.
  apply Ht. cbn in Hj. lia.
Qed.

(** A byte stored just in front of a string. *)
Lemma store_front m a c t : steady m -> D (a - 1) -> scratch (a - 1) -> holds D (user (os m)) a t ->
  gives (store (a - 1) c) m (fun _ m' => holds D (user (os m')) (a - 1) (c :: t)) [] 0.
Proof.
  intros Hst Hd Hs Ht. eapply acts_mono; [by apply (store_gives m (a - 1) c)|]. cbn beta.
  intros [] m' tx _ (Hv & Hrest). split; [|exact Hrest]. apply holds_cons; [done|by rewrite Hv, Z.eqb_refl|].
  eapply holds_same; [exact Ht|]. intros j Hj. destruct (Ht j Hj) as [Hdj _]. rewrite Hv by done. by rewrite (proj2 (Z.eqb_neq _ _)) by lia.
Qed.

Hypothesis Hdigits : forall j, 0 <= j < 24 -> D (digits l + j).

Lemma digits_place j : 0 <= j < 24 -> D (digits l + j) /\ scratch (digits l + j).
Proof. intros Hj. split; [by apply Hdigits|left; lia]. Qed.

Lemma digits_loop_gives index : forall m value out, steady m -> (index + length out = 23)%nat ->
  holds D (user (os m)) (digits l + Z.of_nat index) out ->
  gives (digits_loop (digits l) index value) m
    (fun i m' => holds D (user (os m')) (digits l + Z.of_nat i) (number_loop index value out)) [] 0.
Proof.
  induction index as [|below IH]; intros m value out Hst Hi Hh; cbn [digits_loop number_loop].
  { eapply acts_mono; [by apply ret_gives|]. by intros a m' t _ ((-> & ->) & Hrest). }
  destruct (0 <? value); [|eapply acts_mono; [by apply ret_gives|]; by intros a m' t _ ((-> & ->) & Hrest)].
  destruct (digits_place (Z.of_nat below)) as [Hd Hs]; [lia|].
  replace (digits l + Z.of_nat below) with (digits l + Z.of_nat (Datatypes.S below) - 1) in * by lia.
  eapply gives_then; [by apply store_front|]. intros [] m1 Hst1 Hh1 Hc1 Ho1. cbn beta in Hh1.
  eapply acts_mono; [apply (IH m1 (value / 10) (48 + value mod 10 :: out) Hst1)|].
  - cbn. lia.
  - by replace (digits l + Z.of_nat below) with (digits l + Z.of_nat (Datatypes.S below) - 1) by lia.
  - intros i m' t _ (Hi' & -> & Hc & Ho). split_and!; [done|done|lia|congruence].
Qed.

(** [print_number] shows the digits [User.print_number] computes, and stores only in its
    own array. *)
Lemma print_number_gives m value : steady m -> 0 <= value < 2 ^ 64 ->
  gives (print_number (digits l) value) m (fun _ _ => True) (User.print_number value) 1.
Proof.
  intros Hst Hv. destruct (print_number_roundtrip value Hv) as (_ & Hd & _ & Hlen).
  unfold print_number. destruct (digits_place 23) as [Hd23 Hs23]; [lia|].
  eapply gives_then; [by apply store_gives|]. intros [] m1 Hst1 Hv1 Hc1 Ho1. cbn beta in Hv1.
  assert (holds D (user (os m1)) (digits l + Z.of_nat 23) []) as H23.
  { intros j Hj. cbn in Hj. replace j with 0%nat by lia. rewrite Z.add_0_r. change (Z.of_nat 23) with 23. split; [done|].
    by rewrite Hv1, Z.eqb_refl. }
  assert (forall m2 i t, steady m2 -> calls m2 = calls m1 ->
    (open_files (os m2), Syscall.files (os m2)) = (open_files (os m1), Syscall.files (os m1)) -> t = User.print_number value ->
    holds D (user (os m2)) (digits l + Z.of_nat i) t ->
    acts (print (digits l + Z.of_nat i)) m2 (fun _ m' tx => True /\ tx = t /\ calls m' = (calls m + 1)%nat /\
      (open_files (os m'), Syscall.files (os m')) = (open_files (os m), Syscall.files (os m)))) as Hprint.
  { intros m2 i t Hst2 Hc2 Ho2 -> Hh2. eapply acts_mono; [apply (print_gives m2 _ _ Hst2 Hh2)|].
    - eapply Forall_impl; [exact Hd|]. cbn. lia.
    - unfold max_user_string. lia.
    - intros a m' tx _ (_ & -> & Hc & Ho). split_and!; [done|done|lia|congruence]. }
  unfold User.print_number, digits_size in *. destruct (Z.eqb_spec value 0) as [->|Hne].
  - destruct (digits_place 22) as [Hd22 Hs22]; [lia|]. replace (digits l + 22) with (digits l + Z.of_nat 23 - 1) in * by lia.
    apply acts_bind. eapply gives_then; [by apply store_front|]. intros [] m2 Hst2 Hh2 Hc2 Ho2. cbn beta in Hh2.
    eapply acts_mono; [by apply ret_gives|]. intros i m2' t2 _ ((-> & ->) & -> & _).
    eapply gives_then; [by apply ret_gives|]. intros i m3 _ (-> & ->) _ _. cbn [app].
    apply Hprint; [done|lia|congruence|done|]. by replace (digits l + Z.of_nat 22) with (digits l + Z.of_nat 23 - 1) by lia.
  - eapply gives_then; [by apply ret_gives|]. intros i m2 _ (-> & ->) _ _.
    eapply gives_then; [by apply (digits_loop_gives 23 m1 value [] Hst1)|]. intros i m3 Hst3 Hh3 Hc3 Ho3. cbn beta in Hh3. cbn [app].
    apply Hprint; [done|lia|congruence|done|done].
Qed.

(** The literals of the program, where the loader put them. *)
Definition placed (texts : list (list Z)) : Prop := forall t, t ∈ texts ->
  holds D (user (os m0)) (at_ l t) t /\ forall j, (j <= length t)%nat -> ~ scratch (at_ l t + Z.of_nat j).

Definition plain (t : list Z) : bool := forallb (fun c => negb (c =? 0)) t && (Z.of_nat (length t) <=? max_user_string).

Lemma placed_holds texts t m : placed texts -> t ∈ texts -> steady m -> holds D (user (os m)) (at_ l t) t.
Proof.
  intros Hp Hin Hst. destruct (Hp t Hin) as [Ht Hs]. eapply holds_same; [exact Ht|]. intros j Hj.
  apply (s_views _ Hst); [by apply Ht|by apply Hs].
Qed.

Lemma plain_spec t : plain t = true -> Forall (fun c => c <> 0) t /\ Z.of_nat (length t) <= max_user_string.
Proof.
  unfold plain. rewrite andb_true_iff, Z.leb_le, forallb_forall. intros [Hz Hl]. split; [|done].
  apply Forall_forall. intros c Hc%list_elem_of_In%Hz. by apply negb_true_iff, Z.eqb_neq in Hc.
Qed.

Lemma say_gives texts t m : placed texts -> t ∈ texts -> plain t = true -> steady m ->
  gives (say l t) m (fun _ m' => user (os m') = user (os m)) t 1.
Proof. intros Hp Hin Ht Hst. apply plain_spec in Ht as [Hz Hl]. apply print_gives; [done|by eapply placed_holds|done..]. Qed.

(** The calls that only ask. *)
Lemma to_i64_u64 x : 0 <= x < 2 ^ 64 -> u64 (to_i64 x) = x.
Proof. intros Hx. unfold to_i64. rewrite (u64_small x) by lia. destruct (Z.ltb_spec x (2 ^ 63)); [by apply u64_small|]. unfold u64, wrap. dlia. Qed.

Lemma time_gives m : steady m -> 0 <= times m0 (calls m) < 2 ^ 64 ->
  gives monotonic_ns m (fun r m' => r = times m0 (calls m)) [] 1.
Proof.
  intros Hst Ht. eexists (times m0 (calls m)), _, []. split_and!.
  - unfold monotonic_ns, bind, syscall, syscall_dispatch. cbn. unfold ret. rewrite (s_times _ Hst), to_i64_u64 by done. reflexivity.
  - destruct Hst. by constructor.
  - by apply shows_same.
  - done.
  - done.
  - cbn. lia.
  - done.
Qed.

Lemma sleep_gives m ms : steady m -> gives (sleep_ms ms) m (fun _ m' => slept m' = slept m ++ [ms]) [] 1.
Proof.
  intros Hst. eexists 0, _, []. split_and!; [reflexivity|destruct Hst; by constructor|by apply shows_same|done|done|cbn; lia|done].
Qed.

Lemma getpid_gives m p : steady m -> current_process (os m0) = Some p -> 0 <= id_ p < 2 ^ 31 ->
  gives getpid m (fun r _ => r = id_ p) [] 1.
Proof.
  intros Hst Hp Hid. eexists (id_ p), _, []. split_and!.
  - unfold getpid, bind, syscall, syscall_dispatch. cbn [SYS_GETPID call_of Z.eqb Pos.eqb].
    assert (current_process (os m) = Some p) as -> by (unfold current_process in *; by rewrite (s_running _ Hst), (s_processes _ Hst)).
    unfold ret, to_i64, to_int. rewrite u64_small by lia. rewrite (proj2 (Z.ltb_lt _ (2 ^ 63))), u32_small, (proj2 (Z.ltb_lt _ (2 ^ 31))) by lia. reflexivity.
  - destruct Hst. by constructor.
  - by apply shows_same.
  - done.
  - done.
  - cbn. lia.
  - done.
Qed.

(** ** Files *)

Hypothesis Hserves : serves.

Lemma first_unused (fs : list OpenFile) i : find_unused fs = Some i -> exists f, fs !! i = Some f /\ used f = false.
Proof.
  revert i. induction fs as [|f fs IH]; intros i E; [done|]. cbn in E. destruct (used f) eqn:Eu; [|injection E as <-; by exists f].
  destruct (find_unused fs) as [j|]; [|done]. injection E as <-. by apply IH.
Qed.

(** What stays when only the file table and the file systems move on. *)
Lemma steady_files m fs files : steady m -> steady (mkMachine (set_open fs (set_files files (os m))) (times m) (Datatypes.S (calls m)) (slept m)).
Proof. intros []. by constructor. Qed.

Lemma small_result x : -1 <= x < 2 ^ 31 -> to_i64 (result x) = x /\ to_int x = x.
Proof.
  intros Hx. unfold to_i64, to_int, result. destruct (decide (x = -1)) as [->|Hne]; [done|].
  rewrite !u64_small by (rewrite ?u64_small; lia). rewrite u32_small by lia.
  by rewrite (proj2 (Z.ltb_lt x (2 ^ 63))), (proj2 (Z.ltb_lt x (2 ^ 31))) by lia.
Qed.

Lemma open_acts m a t : steady m -> holds D (user (os m)) a t -> plain t = true -> length (open_files (os m)) = max_open_files ->
  acts (open a) m (fun h m' text => text = [] /\ user (os m') = user (os m) /\
    exists r, resolve (mounts (os m0)) (Some t) (Syscall.files (os m)) = Some (r, Syscall.files (os m')) /\
    (h = -1 /\ open_files (os m') = open_files (os m) /\ (r = None \/ find_unused (open_files (os m)) = None) \/
     exists node i f, r = Some node /\ find_unused (open_files (os m)) = Some i /\
       h = Z.of_nat i + 3 /\ open_files (os m) !! i = Some f /\ used f = false /\
       open_files (os m') = <[i := mkFile true 0 (take (path_size - 1) t)]> (open_files (os m)))).
Proof.
  intros Hst Ht [Hz Hl]%plain_spec Hlen. pose proof (s_home _ Hst) as Hh. destruct (Ht 0%nat) as [Hd0 _]; [lia|]. rewrite Z.add_0_r in Hd0.
  assert (exists r fs files node, sys_open a (os m) = Some (r, set_open fs (set_files files (os m))) /\
    resolve (mounts (os m)) (Some t) (Syscall.files (os m)) = Some (node, files) /\
    (r = -1 /\ fs = open_files (os m) /\ (node = None \/ find_unused (open_files (os m)) = None) \/
     exists n i f, node = Some n /\ find_unused (open_files (os m)) = Some i /\
       r = Z.of_nat i + 3 /\ open_files (os m) !! i = Some f /\ used f = false /\
       fs = <[i := mkFile true 0 (take (path_size - 1) t)]> (open_files (os m)))) as (r & fs & files & node & E & Eres & Hr).
  { unfold sys_open. rewrite (home_range_ok m a 1) by (try done; by replace (a + 1 - 1) with a by lia).
    cbn [negb]. rewrite (user_string_spec _ _ _ Hh Ht Hz). cbn [mbind option_bind]. unfold stat.
    destruct (resolve_total (mounts (os m)) t (Syscall.files (os m)) (proj1 (proj2 Hserves)) (proj1 Hserves)) as [[node fs] ->]. cbn [mbind option_bind].
    destruct node as [node|]; [|exists (-1), (open_files (os m)), fs, None; split_and!; [done|done|]; left; by split_and!; [| |left]].
    cbn [open_files set_files]. destruct (find_unused (open_files (os m))) as [i|] eqn:Ei; [|exists (-1), (open_files (os m)), fs, (Some node); split_and!; [done|done|]; left; by split_and!; [| |right]].
    destruct (first_unused _ _ Ei) as (f & Hf & Hu).
    exists (Z.of_nat i + 3), (<[i := mkFile true 0 (take (path_size - 1) t)]> (open_files (os m))), fs, (Some node). split; [done|]. split; [done|].
    right. by exists node, i, f. }
  assert (-1 <= r < 2 ^ 31) as Hrange.
  { destruct Hr as [[-> _]|(n & i & f & _ & _ & -> & Hf & _)]; [lia|]. apply lookup_lt_Some in Hf. rewrite Hlen in Hf. unfold max_open_files in Hf. lia. }
  destruct (small_result r Hrange) as [E1 E2]. rewrite (s_mounts _ Hst) in Eres.
  exists r, (mkMachine (set_open fs (set_files files (os m))) (times m) (Datatypes.S (calls m)) (slept m)), [].
  split; [|split; [by apply steady_files|split; [by apply shows_same|]]].
  - unfold open, bind, syscall, syscall_dispatch. cbn [SYS_OPEN call_of Z.eqb Pos.eqb]. rewrite E. cbn [mbind option_bind]. unfold ret. by rewrite E1, E2.
  - split; [done|]. split; [done|]. exists node. split; [exact Eres|]. exact Hr.
Qed.

Hypothesis Hbuffer : forall j, 0 <= j < buffer_size -> D (buffer l + j).

Lemma open_file_handle m i f : open_files (os m) !! i = Some f -> used f = true -> length (open_files (os m)) = max_open_files ->
  open_file (Z.of_nat i + 3) (os m) = Some (i, f) /\ u64 (Z.of_nat i + 3) = Z.of_nat i + 3.
Proof.
  intros Hf Hu Hlen. pose proof (lookup_lt_Some _ _ _ Hf) as Hi. rewrite Hlen in Hi. unfold max_open_files in Hi.
  split; [|apply u64_small; lia]. unfold open_file, file_index. replace (Z.of_nat i + 3 - 3) with (Z.of_nat i) by lia. rewrite u64_small by lia.
  rewrite (proj2 (Z.leb_gt _ _)) by (unfold max_open_files; lia). rewrite Nat2Z.id, Hf. cbn. by rewrite Hu.
Qed.

(** The kernel's write of bytes into the program's buffer. *)
Lemma user_write_buffer bs : forall m a, steady m ->
  (forall j, (j < length bs)%nat -> D (a + Z.of_nat j) /\ scratch (a + Z.of_nat j)) ->
  exists w, user_write (user (os m)) a bs = Some w /\ steady (set_os (set_user w (os m)) m) /\
    forall x, D x -> view w x = if (a <=? x) && (x <? a + Z.of_nat (length bs)) then bs !! Z.to_nat (x - a) else view (user (os m)) x.
Proof.
  induction bs as [|b bs IH]; intros m a Hst Hp.
  { exists (user (os m)). split; [done|]. split; [destruct Hst; by constructor|]. intros x _. cbn [length].
    destruct (Z.leb_spec a x), (Z.ltb_spec x (a + Z.of_nat 0)); cbn; (done || lia). }
  destruct (Hp 0%nat) as [Hd Hs]; [cbn; lia|]. rewrite Z.add_0_r in *.
  destruct (store_gives m a b Hst Hd Hs) as ([] & m1 & tx & E & Hst1 & _ & Hv1 & _).
  unfold store in E. cbn [user_write] in E |- *. destruct (pm_translate (space (user (os m))) a =? 0); [done|].
  injection E as <-. cbn [os set_os set_user user] in Hv1. set (w1 := mkWorld _ _) in *.
  destruct (IH _ (a + 1) Hst1) as (w & E & Hst2 & Hv2).
  { intros j Hj. specialize (Hp (Datatypes.S j)). replace (a + 1 + Z.of_nat j) with (a + Z.of_nat (Datatypes.S j)) by lia. apply Hp. cbn. lia. }
  exists w. split; [done|]. split; [done|]. intros x Hx. rewrite Hv2 by done. cbn [os set_os set_user user]. rewrite Hv1 by done.
  cbn [length]. destruct (Z.eqb_spec x a) as [->|Hne].
  - rewrite (proj2 (Z.leb_gt (a + 1) a)), Z.leb_refl by lia. cbn [andb]. rewrite (proj2 (Z.ltb_lt a _)), Z.sub_diag by lia. done.
  - destruct (Z.leb_spec (a + 1) x), (Z.leb_spec a x), (Z.ltb_spec x (a + 1 + Z.of_nat (length bs))),
      (Z.ltb_spec x (a + Z.of_nat (Datatypes.S (length bs)))); cbn; try (done || lia).
    by replace (Z.to_nat (x - a)) with (Datatypes.S (Z.to_nat (x - (a + 1)))) by lia.
Qed.

(** What reading an open file gives: its path is resolved again, -1 when it is gone. *)
Definition read_outcome (f : OpenFile) (k : @kernel M S F) : option (Z * list Z) :=
  '(r, fs) ← resolve (mounts k) (Some (Syscall.path f)) (Syscall.files k);
  match r with
  | None => Some (-1, [])
  | Some node => '(count, data, _) ← node_read node (offset f) (buffer_size - 1) fs; Some (count, data)
  end.

Lemma read_acts m i f : steady m -> open_files (os m) !! i = Some f -> used f = true -> length (open_files (os m)) = max_open_files ->
  acts (read (Z.of_nat i + 3) (buffer l) (buffer_size - 1)) m (fun count m' text => text = [] /\ -1 <= count < buffer_size /\
    (exists f', used f' = true /\ open_files (os m') = <[i := f']> (open_files (os m))) /\
    exists data, Z.of_nat (length data) = Z.max 0 count /\ (forall j, (j < length data)%nat -> view (user (os m')) (buffer l + Z.of_nat j) = data !! j) /\
      read_outcome f (os m) = Some (count, data)).
Proof.
  intros Hst Hf Hu Hlen. destruct (open_file_handle m i f Hf Hu Hlen) as [Ho Eh]. unfold buffer_size in *.
  assert (exists count w fs files data, sys_read (Z.of_nat i + 3) (buffer l) 63 (os m)
      = Some (count, set_open fs (set_user w (set_files files (os m)))) /\ -1 <= count < 64 /\
    steady (set_os (set_user w (os m)) m) /\ (exists f', used f' = true /\ fs = <[i := f']> (open_files (os m))) /\
    Z.of_nat (length data) = Z.max 0 count /\ (forall j, (j < length data)%nat -> view w (buffer l + Z.of_nat j) = data !! j) /\
    read_outcome f (os m) = Some (count, data))
    as (count & w & fs & files & data & E & Hc & Hst' & (f' & Hf' & Hfs) & Hd & Hv & Hout).
  { unfold sys_read. rewrite (home_range_ok m (buffer l) 63); [|done|done|unfold max_user_string; lia|rewrite <- (Z.add_0_r (buffer l)); apply Hbuffer; lia|].
    2: replace (buffer l + 63 - 1) with (buffer l + 62) by lia; apply Hbuffer; lia.
    cbn [negb]. rewrite (proj2 (Z.ltb_ge (Z.of_nat i + 3) 3)), Ho by lia. 
    destruct (resolve_total (mounts (os m)) (Syscall.path f) (Syscall.files (os m)) (proj1 (proj2 Hserves)) (proj1 Hserves)) as [[node fs] Eres].
    unfold read_outcome. rewrite Eres. cbn [mbind option_bind].
    assert (exists f', used f' = true /\ open_files (os m) = <[i := f']> (open_files (os m))) as Hself
      by (exists f; by rewrite list_insert_id).
    destruct node as [node|].
    2: { exists (-1), (user (os m)), (open_files (os m)), fs, []. split; [done|]. split; [lia|]. split; [destruct Hst; by constructor|].
         split; [done|]. split; [done|]. split; [|done]. intros j Hj. cbn in Hj. lia. }
    cbn [Syscall.files set_files]. destruct (proj2 (proj2 Hserves) node (offset f) 63 fs) as (count & data & fs' & Erd & Hcount & Hdata); [lia|].
    change (buffer_size - 1) with 63. rewrite Erd.
    cbn [mbind option_bind user set_files].
    destruct (user_write_buffer data m (buffer l) Hst) as (w & -> & Hst' & Hv).
    { intros j Hj. split; [apply Hbuffer; lia|right; unfold buffer_size; lia]. }
    cbn [mbind option_bind]. exists count, w, (if 0 <? count then <[i := mkFile true (u64 (offset f + count)) (Syscall.path f)]> (open_files (os m)) else open_files (os m)), fs', data.
    split; [destruct (0 <? count); done|]. split; [lia|]. split; [done|]. split; [destruct (0 <? count); [by exists (mkFile true (u64 (offset f + count)) (Syscall.path f))|done]|]. split; [done|]. split; [|done].
    intros j Hj. rewrite Hv by (apply Hbuffer; lia). rewrite (proj2 (Z.leb_le _ _)), (proj2 (Z.ltb_lt _ _)) by lia.
    cbn. f_equal. lia. }
  destruct (small_result count) as [E1 _]; [lia|].
  exists count, (mkMachine (set_open fs (set_user w (set_files files (os m)))) (times m) (Datatypes.S (calls m)) (slept m)), [].
  split_and!; [|destruct Hst'; by constructor|by apply shows_same|done|lia|lia| |].
  - unfold read, syscall, syscall_dispatch. cbn [SYS_READ call_of Z.eqb Pos.eqb]. rewrite Eh. change (64 - 1) with 63. rewrite E. cbn [mbind option_bind]. by rewrite E1.
  - by exists f'.
  - by exists data.
Qed.

Lemma close_acts m i f : steady m -> open_files (os m) !! i = Some f -> used f = true -> length (open_files (os m)) = max_open_files ->
  acts (close (Z.of_nat i + 3)) m (fun r m' text => text = [] /\
    open_files (os m') = <[i := mkFile false (offset f) (Syscall.path f)]> (open_files (os m))).
Proof.
  intros Hst Hf Hu Hlen. destruct (open_file_handle m i f Hf Hu Hlen) as [Ho Eh].
  eexists 0, (mkMachine (set_open (<[i := mkFile false (offset f) (Syscall.path f)]> (open_files (os m))) (os m)) (times m) (Datatypes.S (calls m)) (slept m)), [].
  split_and!; [|destruct Hst; by constructor|by apply shows_same|done|done].
  unfold close, bind, syscall, syscall_dispatch. cbn [SYS_CLOSE call_of Z.eqb Pos.eqb]. rewrite Eh. unfold sys_close.
  by rewrite (proj2 (Z.ltb_ge (Z.of_nat i + 3) 3)), Ho by lia.
Qed.

(** The text up to the first newline or zero. *)
Fixpoint first_line (data : list Z) : list Z :=
  match data with
  | [] => []
  | b :: data => if (b =? 0) || (b =? 10) then [] else b :: first_line data
  end.

Lemma first_line_prefix data : exists rest, data = first_line data ++ rest /\ Forall (fun c => c <> 0 /\ c <> 10) (first_line data) /\
  (rest = [] \/ exists b rest', rest = b :: rest' /\ (b = 0 \/ b = 10)).
Proof.
  induction data as [|b data (rest & E & Hz & Hr)]; [exists []; split_and!; [done|constructor|by left]|]. cbn [first_line].
  destruct (Z.eqb_spec b 0), (Z.eqb_spec b 10); cbn [orb];
    [exists (b :: data); split_and!; [done|constructor|right; by eauto 6]..|].
  exists rest. cbn. rewrite <- E. split; [done|]. split; [by constructor|done].
Qed.

Lemma cut_lines_gives n : forall m i, steady m -> 0 <= i -> i + Z.of_nat n < buffer_size ->
  gives (cut_lines n (buffer l) i) m (fun _ m' => forall x, D x -> view (user (os m')) x =
    if (buffer l + i <=? x) && (x <? buffer l + i + Z.of_nat n)
    then (if decide (view (user (os m)) x = Some 10) then Some 0 else view (user (os m)) x) else view (user (os m)) x) [] 0.
Proof.
  induction n as [|n IH]; intros m i Hst Hi Hn; cbn [cut_lines].
  { eapply acts_mono; [by apply ret_gives|]. intros a m' t _ ((-> & ->) & Hrest). split; [|done]. intros x _.
    destruct (Z.leb_spec (buffer l + i) x), (Z.ltb_spec x (buffer l + i + Z.of_nat 0)); cbn; (done || lia). }
  assert (D (buffer l + i)) as Hd by (apply Hbuffer; lia). destruct (home_at _ _ (s_home _ Hst) Hd) as (c & _ & _ & Hc).
  assert (gives (load (buffer l + i)) m (fun a m' => a = c /\ m' = m) [] 0) as Hload.
  { exists c, m, []. unfold load. rewrite Hc. split_and!; [done|done|by apply shows_same|done|done|done|lia|done]. }
  eapply gives_then; [exact Hload|]. intros ? ? _ (-> & ->) _ _.
  assert (gives (if c =? 10 then store (buffer l + i) 0 else ret tt) m (fun _ m' => forall x, D x -> view (user (os m')) x =
    if x =? buffer l + i then (if c =? 10 then Some 0 else Some c) else view (user (os m)) x) [] 0) as Hstore.
  { destruct (c =? 10); [apply store_gives; [done..|right; lia]|]. eapply acts_mono; [by apply ret_gives|].
    intros a m' t _ ((-> & ->) & Hrest). split; [|done]. intros x _. destruct (Z.eqb_spec x (buffer l + i)) as [->|_]; done. }
  eapply gives_then; [exact Hstore|]. intros [] m1 Hst1 Hv1 Hc1 Ho1. cbn beta in Hv1.
  eapply acts_mono; [apply (IH m1 (i + 1) Hst1); lia|]. intros [] m' t _ (Hv & -> & Hcl & Hop).
  split_and!; [|done|lia|congruence]. intros x Hx. rewrite Hv by done. rewrite !Hv1 by done.
  destruct (Z.eqb_spec x (buffer l + i)) as [->|Hne].
  - rewrite (proj2 (Z.leb_gt (buffer l + (i + 1)) _)), Z.leb_refl by lia. cbn [andb]. rewrite (proj2 (Z.ltb_lt (buffer l + i) _)), Hc by lia.
    destruct (Z.eqb_spec c 10) as [->|Hne]; [done|]. rewrite decide_False by congruence. done.
  - destruct (Z.leb_spec (buffer l + (i + 1)) x), (Z.leb_spec (buffer l + i) x), (Z.ltb_spec x (buffer l + (i + 1) + Z.of_nat n)),
      (Z.ltb_spec x (buffer l + i + Z.of_nat (Datatypes.S n))); cbn; (done || lia).
Qed.

(** ** init *)

(** What became of the file: it could not be opened, gave nothing, or these bytes. *)
Inductive found := NoFile | Nothing | Bytes (data : list Z).

Definition file_text (f : found) : list Z :=
  match f with
  | NoFile => line "init: no file to read, the disk is empty"
  | Nothing => []
  | Bytes data => literal "init: /mnt/hello.txt says " ++ first_line data ++ [10]
  end.

(** What becomes of the file on a kernel [k]: the name is looked up, a slot of the
    file table is taken, and the file is read from its beginning. *)
Definition file_outcome (k : @kernel M S F) : found :=
  let name := literal "/mnt/hello.txt" in
  match resolve (mounts k) (Some name) (Syscall.files k), find_unused (open_files k) with
  | Some (Some _, fs), Some _ =>
    match read_outcome (mkFile true 0 name) (set_files fs k) with
    | Some (count, data) => if 0 <? count then Bytes data else Nothing
    | None => Nothing
    end
  | _, _ => NoFile
  end.

Definition init_literals : list (list Z) :=
  [line "init: hello from ring 3"; literal "init: pid is "; [10]; literal "init: slept "; line " ms"; literal "/mnt/hello.txt";
   literal "init: /mnt/hello.txt says "; line "init: no file to read, the disk is empty"; line "init: leaving with 42"].

Definition init_text (pid ms : Z) (f : found) : list Z :=
  line "init: hello from ring 3" ++ literal "init: pid is " ++ User.print_number pid ++ [10] ++
  literal "init: slept " ++ User.print_number ms ++ line " ms" ++ file_text f ++ line "init: leaving with 42".

(** What init prints of the bytes it read. *)
Definition init_shows (length : Z) : prg unit :=
  bind (store (buffer l + length) 0) (fun _ => bind (say l (literal "init: /mnt/hello.txt says ")) (fun _ =>
  bind (cut_lines (Z.to_nat length) (buffer l) 0) (fun _ => bind (print (buffer l)) (fun _ => bind (say l [10]) (fun _ => ret tt))))).

Lemma init_shows_gives m data : placed init_literals -> steady m -> 0 < Z.of_nat (length data) < buffer_size ->
  (forall j, (j < length data)%nat -> view (user (os m)) (buffer l + Z.of_nat j) = data !! j) ->
  gives (init_shows (Z.of_nat (length data))) m (fun _ _ => True) (file_text (Bytes data)) 3.
Proof.
  intros Hp Hst Hlen Hv. unfold gives, init_shows. set (n := Z.of_nat (length data)) in *.
  assert (D (buffer l + n)) as Hd by (apply Hbuffer; lia). assert (scratch (buffer l + n)) as Hs by (right; unfold buffer_size in *; lia).
  eapply gives_then; [by apply store_gives|]. intros [] m1 Hst1 Hv1 Hc1 Ho1. cbn beta in Hv1.
  eapply gives_then; [apply (say_gives init_literals); [done|by repeat constructor|done|done]|]. intros ? m2 Hst2 Hu2 Hc2 Ho2. cbn beta in Hu2.
  eapply gives_then; [apply (cut_lines_gives _ m2 0 Hst2); unfold n; lia|]. intros [] m3 Hst3 Hv3 Hc3 Ho3. cbn beta in Hv3.
  rewrite Hu2, !Z.add_0_r in Hv3. destruct (first_line_prefix data) as (rest & Edata & Hz & Hrest).
  assert (holds D (user (os m3)) (buffer l) (first_line data)) as Hh.
  { intros j Hj. assert (length data = length (first_line data) + length rest)%nat as El by (rewrite Edata at 1; apply length_app).
    assert (D (buffer l + Z.of_nat j)) as Hdj by (apply Hbuffer; lia). split; [done|]. rewrite Hv3, Hv1 by done.
    rewrite (proj2 (Z.leb_le _ _)) by lia. rewrite Z2Nat.id by lia. cbn [andb].
    destruct (decide (j < length (first_line data))%nat) as [Hlt|Hge].
    - rewrite (proj2 (Z.ltb_lt _ _)) by lia. rewrite (proj2 (Z.eqb_neq _ _)) by lia. rewrite Hv by lia.
      destruct (lookup_lt_is_Some_2 _ _ Hlt) as [c Hc]. rewrite (lookup_app_l_Some _ _ _ _ Hc), Edata, (lookup_app_l_Some _ _ _ _ Hc).
      rewrite decide_False; [done|]. intros E. injection E as ->. by destruct (Forall_lookup_1 _ _ _ _ Hz Hc).
    - assert (j = length (first_line data)) as -> by lia. rewrite lookup_app_r, Nat.sub_diag by lia. cbn [lookup list_lookup].
      destruct Hrest as [-> | (b & rest' & -> & Hb)].
      + cbn in El. rewrite (proj2 (Z.ltb_ge _ _)) by lia. rewrite (proj2 (Z.eqb_eq _ _)); [done|lia].
      + cbn in El. rewrite (proj2 (Z.ltb_lt _ _)) by lia. rewrite (proj2 (Z.eqb_neq _ _)) by lia. rewrite Hv by lia.
        pose proof (list_lookup_middle (first_line data) rest' b _ eq_refl) as Hm. rewrite <- Edata in Hm. rewrite Hm.
        destruct Hb as [-> | ->]; [by rewrite decide_False by congruence|by rewrite decide_True]. }
  eapply gives_then; [apply (print_gives m3 _ _ Hst3 Hh)|].
  - eapply Forall_impl; [exact Hz|]. cbn. tauto.
  - assert (length (first_line data) <= length data)%nat by (rewrite Edata at 2; rewrite length_app; lia). unfold max_user_string, buffer_size in *. lia.
  - intros ? m4 Hst4 _ Hc4 Ho4.
    eapply gives_then; [apply (say_gives init_literals); [done|by repeat constructor|done|done]|]. intros ? m5 Hst5 _ Hc5 Ho5.
    eapply acts_mono; [by apply ret_gives|]. intros [] m6 t _ ((_ & ->) & -> & _). cbn [app file_text].
    split_and!; [done|done|lia|congruence].
Qed.

Lemma init_file_acts m : placed init_literals -> steady m -> length (open_files (os m)) = max_open_files ->
  acts (init_file l) m (fun _ m' t => t = file_text (file_outcome (os m)) /\ used <$> open_files (os m') = used <$> open_files (os m)).
Proof.
  intros Hp Hst Hlen. unfold init_file. apply acts_bind. eapply acts_mono; [apply (open_acts m _ (literal "/mnt/hello.txt") Hst); [|done|done]|].
  { eapply placed_holds; [exact Hp|by repeat constructor|done]. }
  intros h m1 t1 Hst1 (-> & _ & res & Eres & Hopen).
  assert (file_outcome (os m) = match res, find_unused (open_files (os m)) with
    | Some _, Some _ => match read_outcome (mkFile true 0 (literal "/mnt/hello.txt")) (os m1) with
        | Some (count, data) => if 0 <? count then Bytes data else Nothing | None => Nothing end
    | _, _ => NoFile end) as ->.
  { unfold file_outcome. rewrite (s_mounts _ Hst), Eres. destruct res; [|done]. destruct (find_unused _); [|done].
    unfold read_outcome. cbn [mounts set_files Syscall.files]. by rewrite (s_mounts _ Hst), (s_mounts _ Hst1). }
  destruct Hopen as [(-> & Ho1 & Hnone)|(node & i & f & -> & Ei & -> & Hf & Hu & Ho1)].
  - assert (match res, find_unused (open_files (os m)) with
      | Some _, Some _ => match read_outcome (mkFile true 0 (literal "/mnt/hello.txt")) (os m1) with
          | Some (count, data) => if 0 <? count then Bytes data else Nothing | None => Nothing end
      | _, _ => NoFile end = NoFile) as -> by (destruct Hnone as [-> | ->]; [done|by destruct res]).
    cbn [Z.leb Z.compare]. eapply gives_then; [apply (say_gives init_literals); [done|by repeat constructor|done|done]|].
    intros ? m2 Hst2 _ _ Ho2. eapply acts_mono; [by apply ret_gives|]. intros [] m3 t3 _ ((_ & ->) & -> & _).
    split; [done|]. congruence.
  - rewrite Ei. change (take (path_size - 1) (literal "/mnt/hello.txt")) with (literal "/mnt/hello.txt") in Ho1.
    set (p := literal "/mnt/hello.txt") in *.
    rewrite (proj2 (Z.leb_le 0 _)) by lia. pose proof (lookup_lt_Some _ _ _ Hf) as Hi.
    assert (open_files (os m1) !! i = Some (mkFile true 0 p)) as Hf1 by (rewrite Ho1; by apply list_lookup_insert_eq).
    assert (length (open_files (os m1)) = max_open_files) as Hlen1 by (by rewrite Ho1, length_insert).
    apply acts_bind. eapply acts_mono; [by apply (read_acts m1 i _ Hst1 Hf1)|].
    intros count m2 t2 Hst2 (-> & Hc & (f2 & Hu2 & Ho2) & data & Hd & Hv & ->).
    assert (gives (if 0 <? count then init_shows count else ret tt) m2 (fun _ _ => True)
      (file_text (if 0 <? count then Bytes data else Nothing)) (if 0 <? count then 3 else 0)) as Hshow.
    { destruct (Z.ltb_spec 0 count); [|eapply acts_mono; [by apply ret_gives|]; intros a m' t _ (_ & -> & ? & ?); split_and!; done].
      replace count with (Z.of_nat (length data)) by lia. apply init_shows_gives; [done|done|lia|done]. }
    eapply gives_then; [exact Hshow|]. intros [] m3 Hst3 _ _ [= Ho3 _].
    assert (open_files (os m3) !! i = Some f2) as Hf3 by (rewrite Ho3, Ho2, list_lookup_insert_eq; [done|by rewrite Ho1, length_insert]).
    apply acts_bind. eapply acts_mono; [apply (close_acts m3 i f2 Hst3 Hf3 Hu2)|].
    { by rewrite Ho3, Ho2, length_insert. }
    intros r m4 t4 Hst4 (-> & Ho4). eapply acts_mono; [by apply ret_gives|]. intros [] m5 t5 _ ((_ & ->) & -> & _).
    cbn [app]. rewrite app_nil_r. split; [done|].
    rewrite Ho4, Ho3, Ho2, Ho1, !list_insert_insert_eq, list_fmap_insert. apply list_insert_id. rewrite list_lookup_fmap, Hf. cbn. by rewrite Hu.
Qed.

Lemma init_main_acts m p : placed init_literals -> steady m -> length (open_files (os m)) = max_open_files ->
  current_process (os m0) = Some p -> 0 <= id_ p < 2 ^ 31 -> (forall n, 0 <= times m0 n < 2 ^ 64) ->
  acts (init_main l) m (fun r m' t => r = 42 /\ used <$> open_files (os m') = used <$> open_files (os m) /\
    t = init_text (id_ p) (u64 (times m0 (calls m + 7) - times m0 (calls m + 5)) / 1000000) (file_outcome (os m))).
Proof.
  intros Hp Hst Hlen Hpr Hid Hti. unfold init_main.
  assert (forall t x, t ∈ init_literals -> plain t = true -> steady x -> gives (say l t) x (fun _ m' => user (os m') = user (os x)) t 1) as Hsay
    by (intros; by apply (say_gives init_literals)).
  eapply gives_then; [apply Hsay; [by repeat constructor|done|done]|]. intros ? m1 Hst1 _ Hc1 Ho1.
  eapply gives_then; [apply Hsay; [by repeat constructor|done|done]|]. intros ? m2 Hst2 _ Hc2 Ho2.
  eapply gives_then; [by apply (getpid_gives m2 p)|]. intros ? m3 Hst3 -> Hc3 Ho3. rewrite u64_small by lia.
  eapply gives_then; [apply print_number_gives; [done|lia]|]. intros ? m4 Hst4 _ Hc4 Ho4.
  eapply gives_then; [apply Hsay; [by repeat constructor|done|done]|]. intros ? m5 Hst5 _ Hc5 Ho5.
  eapply gives_then; [by apply time_gives|]. intros ? m6 Hst6 -> Hc6 Ho6.
  eapply gives_then; [by apply sleep_gives|]. intros ? m7 Hst7 _ Hc7 Ho7.
  eapply gives_then; [by apply time_gives|]. intros ? m8 Hst8 -> Hc8 Ho8.
  replace (calls m5) with (calls m + 5)%nat by lia. replace (calls m7) with (calls m + 7)%nat by lia.
  set (ms := u64 _ / 1000000). assert (0 <= ms < 2 ^ 64) as Hms.
  { unfold ms. pose proof (u64_range (times m0 (calls m + 7) - times m0 (calls m + 5))) as Hr. clear - Hr. dlia. }
  eapply gives_then; [apply Hsay; [by repeat constructor|done|done]|]. intros ? m9 Hst9 _ Hc9 Ho9.
  eapply gives_then; [by apply print_number_gives|]. intros ? m10 Hst10 _ Hc10 Ho10.
  eapply gives_then; [apply Hsay; [by repeat constructor|done|done]|]. intros ? m11 Hst11 _ Hc11 Ho11.
  assert (open_files (os m11) = open_files (os m)) as Ho by congruence.
  assert (file_outcome (os m11) = file_outcome (os m)) as Ef.
  { assert (Syscall.files (os m11) = Syscall.files (os m)) as Hfs by congruence.
    unfold file_outcome, read_outcome. cbn [mounts set_files]. by rewrite (s_mounts _ Hst11), (s_mounts _ Hst), Ho, Hfs. }
  apply acts_bind. eapply acts_mono; [apply init_file_acts; [done|done|by rewrite Ho]|]. intros ? m12 t12 Hst12 (-> & Ho12). rewrite Ef.
  eapply gives_then; [apply Hsay; [by repeat constructor|done|done]|]. intros ? m13 Hst13 _ Hc13 Ho13.
  eapply acts_mono; [by apply ret_gives|]. intros r m14 t14 _ ((-> & ->) & -> & _). split; [done|]. split; [congruence|].
  unfold init_text. cbn [app]. by rewrite app_nil_r.
Qed.

(** ** spin and crash *)

Definition spin_literals : list (list Z) :=
  [line "spin: counting"; literal "spin: sum is "; literal ", expected "; [10]; line "spin: the numbers do not match"; line "spin: survived the ticks"].

Definition spin_text : list Z :=
  line "spin: counting" ++ literal "spin: sum is " ++ literal "120000000" ++ literal ", expected " ++ literal "120000000" ++ [10] ++
  line "spin: survived the ticks".

Lemma spin_main_acts m : placed spin_literals -> steady m ->
  acts (spin_main l) m (fun r m' t => r = 0 /\ t = spin_text /\ open_files (os m') = open_files (os m)).
Proof.
  intros Hp Hst. unfold spin_main.
  assert (forall t x, t ∈ spin_literals -> plain t = true -> steady x -> gives (say l t) x (fun _ m' => user (os m') = user (os x)) t 1) as Hsay
    by (intros; by apply (say_gives spin_literals)).
  assert (spin_sum rounds = expected) as -> by (rewrite spin_sum_closed by (unfold rounds; lia); reflexivity). rewrite Z.eqb_refl. cbn [negb].
  eapply gives_then; [apply Hsay; [by repeat constructor|done|done]|]. intros ? m1 Hst1 _ Hc1 Ho1.
  eapply gives_then; [apply Hsay; [by repeat constructor|done|done]|]. intros ? m2 Hst2 _ Hc2 Ho2.
  eapply gives_then; [apply print_number_gives; [done|unfold expected; lia]|]. intros ? m3 Hst3 _ Hc3 Ho3.
  eapply gives_then; [apply Hsay; [by repeat constructor|done|done]|]. intros ? m4 Hst4 _ Hc4 Ho4.
  eapply gives_then; [apply print_number_gives; [done|unfold expected; lia]|]. intros ? m5 Hst5 _ Hc5 Ho5.
  eapply gives_then; [apply Hsay; [by repeat constructor|done|done]|]. intros ? m6 Hst6 _ Hc6 Ho6.
  eapply gives_then; [apply Hsay; [by repeat constructor|done|done]|]. intros ? m7 Hst7 _ Hc7 Ho7.
  eapply acts_mono; [by apply ret_gives|]. intros r m8 t8 _ ((-> & ->) & -> & _). split_and!; [done|done|congruence].
Qed.

Definition crash_literals : list (list Z) := [line "crash: about to write where nothing is mapped"].

Lemma crash_main_faults m : placed crash_literals -> steady m -> pm_translate (space (user (os m0))) nowhere = 0 ->
  exists m', crash_main l m = Faulted Z nowhere m' /\ steady m' /\ shows m m' (line "crash: about to write where nothing is mapped") /\
    open_files (os m') = open_files (os m).
Proof.
  intros Hp Hst Hn.
  destruct (say_gives crash_literals (line "crash: about to write where nothing is mapped") m Hp ltac:(by repeat constructor) eq_refl Hst)
    as (a & m1 & t & E & Hst1 & Hs & _ & -> & _ & [= Ho _]).
  exists m1. split; [|done]. unfold crash_main, bind. rewrite E. cbn [store_bytes]. unfold bind, store. cbn [user_write].
  by rewrite (s_space _ Hst1), Hn.
Qed.

(** crt0 turns what [main] returns into the exit call. *)
Lemma start_leaves main m i r (Q : machine -> list Z -> Prop) : running (os m0) = Some i ->
  acts main m (fun a m' t => a = r /\ Q m' t) ->
  exists m1 m' t, start main m = Left Z m' /\ Q m1 t /\ steady m1 /\ shows m m1 t /\ user (os m') = user (os m1) /\ console (os m') = console (os m1) /\
    open_files (os m') = open_files (os m1) /\ processes (os m') = alter (exit (to_int r)) i (processes (os m0)).
Proof.
  intros Hr (a & m1 & t & E & Hst & Hs & -> & HQ).
  eexists m1, _, t. split; [|split_and!; [exact HQ|exact Hst|exact Hs|..]].
  - unfold start, bind. rewrite E. unfold syscall, syscall_dispatch. cbn [SYS_EXIT call_of Z.eqb]. rewrite (s_running _ Hst), Hr, (s_processes _ Hst). reflexivity.
  - done.
  - done.
  - done.
  - done.
Qed.

Lemma steady_start : home D (user (os m0)) -> steady m0.
Proof. by constructor. Qed.

End behaviour.

(** The memory of a loaded program is a home: its pages are on frames of their own. *)
Lemma loaded_home {M} `{UserSpacesSpec M} `{!PageMapperSpec M} k V (w : world M) : uinv k V w ->
  home (fun a => user_base <= a < 2 ^ 48 /\ is_Some (V !! page_base a)) w.
Proof.
  intros Hu. constructor.
  - by intros a [? _].
  - intros a [_ [f Hf]]. unfold view. rewrite (u_translate _ _ _ _ _ Hu Hf). destruct (page_split a) as (_ & Hr & _).
    destruct (u_page _ _ _ Hu _ _ Hf) as (_ & _ & _ & Hfr & _). rewrite (proj2 (Z.eqb_neq _ _)) by lia. by apply (u_mem _ _ _ Hu _ _ _ Hf).
  - intros a b [_ [f Hf]] [_ [g Hg]] E. rewrite (u_translate _ _ _ _ _ Hu Hf), (u_translate _ _ _ _ _ Hu Hg) in E.
    destruct (page_split a) as (Ea & Hra & _), (page_split b) as (Eb & Hrb & _).
    destruct (u_page _ _ _ Hu _ _ Hf) as (_ & _ & _ & Hfr & Hfm), (u_page _ _ _ Hu _ _ Hg) as (_ & _ & _ & Hgr & Hgm).
    assert (f = g) as -> by (unfold page_size in *; dlia). pose proof (u_inj _ _ _ Hu _ _ _ Hf Hg) as Ep. lia.
Qed.

(** ** The runs *)

(** A machine about to run the program of process [i]: the program's memory holds its two
    arrays, and the kernel's file table and file systems are in order. *)
Record runnable {M} `{UserSpaces M} {S N F} `{FileSystems S N F} (D : Z -> Prop) (l : layout) (m : @machine M S F) (i : nat) (p : Process) : Prop := {
  r_home : home D (user (os m));
  r_digits j : 0 <= j < 24 -> D (digits l + j);
  r_buffer j : 0 <= j < buffer_size -> D (buffer l + j);
  r_running : running (os m) = Some i;
  r_process : processes (os m) !! i = Some p;
  r_id : 0 <= id_ p < 2 ^ 31;
  r_files : length (open_files (os m)) = max_open_files;
  r_serves : serves;
  r_consoles : NoDup (consoles (console (os m)));
  r_times n : 0 <= times m n < 2 ^ 64
}.

Section runs.
Context {M : Type} `{UserSpaces M} {S N F : Type} `{FileSystems S N F}.
Implicit Types (m : @machine M S F).

Lemma runnable_current D l m i p : runnable D l m i p -> current_process (os m) = Some p.
Proof. intros Hr. unfold current_process. rewrite (r_running _ _ _ _ _ Hr). exact (r_process _ _ _ _ _ Hr). Qed.

(** How a run ended: the exit code is recorded, the consoles show the text, no file is
    left open, and outside its arrays the program's memory is as it was. *)
Definition finished (D : Z -> Prop) (l : layout) m (i : nat) (code : Z) (text : list Z) m' : Prop :=
  processes (os m') = alter (exit code) i (processes (os m)) /\
  (forall d, d ∈ consoles (console (os m)) -> seen (console (os m')) d = seen (console (os m)) d ++ text) /\
  used <$> open_files (os m') = used <$> open_files (os m) /\
  (forall a, D a -> ~ scratch l a -> view (user (os m')) a = view (user (os m)) a).

Lemma start_finishes D l m i p main r text : runnable D l m i p ->
  acts D l m main m (fun a m' t => a = r /\ (used <$> open_files (os m') = used <$> open_files (os m)) /\ t = text) ->
  exists m', start main m = Left Z m' /\ finished D l m i (to_int r) text m'.
Proof.
  intros Hr Ha. destruct (start_leaves D l m main m i r _ (r_running _ _ _ _ _ Hr) Ha)
    as (m1 & m' & t & E & (Hu & ->) & Hst & Hs & Eu & Ec & Eo & Ep).
  exists m'. split; [done|]. split_and!; [done| | |].
  - intros d Hd. rewrite Ec, Hs. by rewrite decide_True.
  - by rewrite Eo.
  - intros a Ha' Hn. rewrite Eu. by apply (s_views _ _ _ _ Hst).
Qed.

(** C13: init always gets to its exit call and leaves 42 in its process, whatever the disk
    holds: it shows its greeting, its own number, how long the clock says it slept and
    what becomes of /mnt/hello.txt on this kernel ([file_outcome]: a message when the
    lookup or the file table refuses it, nothing when the read gives no bytes, else the first
    line of the bytes the file system answers); it gives back the file it opened, and it
    stores nothing outside its two arrays. *)
Theorem init_runs D l m i p : runnable D l m i p -> placed D l m init_literals ->
  exists m', start (init_main l) m = Left Z m' /\
    finished D l m i 42
      (init_text (id_ p) (u64 (times m (calls m + 7) - times m (calls m + 5)) / 1000000) (file_outcome (os m))) m'.
Proof.
  intros Hr Hp. pose proof (runnable_current _ _ _ _ _ Hr) as Hcur. pose proof (steady_start D l m (r_home _ _ _ _ _ Hr)) as Hst.
  apply (start_finishes D l m i p (init_main l) 42 _ Hr).
  apply (init_main_acts D l m (r_consoles _ _ _ _ _ Hr) (ex_intro _ p Hcur) (r_digits _ _ _ _ _ Hr) (r_serves _ _ _ _ _ Hr)
    (r_buffer _ _ _ _ _ Hr) m p Hp Hst (r_files _ _ _ _ _ Hr) Hcur (r_id _ _ _ _ _ Hr) (r_times _ _ _ _ _ Hr)).
Qed.

(** spin leaves 0 in its process after it has shown twice the sum it expected. *)
Theorem spin_runs D l m i p : runnable D l m i p -> placed D l m spin_literals ->
  exists m', start (spin_main l) m = Left Z m' /\ finished D l m i 0 spin_text m'.
Proof.
  intros Hr Hp. pose proof (runnable_current _ _ _ _ _ Hr) as Hcur. pose proof (steady_start D l m (r_home _ _ _ _ _ Hr)) as Hst.
  apply (start_finishes D l m i p (spin_main l) 0 _ Hr).
  eapply acts_mono; [by apply (spin_main_acts D l m (r_consoles _ _ _ _ _ Hr) (ex_intro _ p Hcur) (r_digits _ _ _ _ _ Hr) m)|].
  cbn beta. intros a m' t _ (-> & -> & ->). done.
Qed.

(** crash takes the fault at the address it stores to, after its first line and before
    its second; the kernel has lost nothing by it. *)
Theorem crash_faults D l m i p : runnable D l m i p -> placed D l m crash_literals -> pm_translate (space (user (os m))) nowhere = 0 ->
  exists m', start (crash_main l) m = Faulted Z nowhere m' /\ processes (os m') = processes (os m) /\ open_files (os m') = open_files (os m) /\
    (forall d, d ∈ consoles (console (os m)) ->
       seen (console (os m')) d = seen (console (os m)) d ++ line "crash: about to write where nothing is mapped").
Proof.
  intros Hr Hp Hn. pose proof (runnable_current _ _ _ _ _ Hr) as Hcur. pose proof (steady_start D l m (r_home _ _ _ _ _ Hr)) as Hst.
  destruct (crash_main_faults D l m (r_consoles _ _ _ _ _ Hr) (ex_intro _ p Hcur) m Hp Hst Hn) as (m' & E & Hst' & Hs & Ho).
  exists m'. unfold start, bind. rewrite E. split_and!; [done|by apply (s_processes _ _ _ _ Hst')|done|].
  intros d Hd. rewrite Hs. by rewrite decide_True.
Qed.

End runs.

(** ** A machine that runs init *)

(** A file system of one file, "hi" and a newline. *)
#[local] Instance hello : FileSystems unit unit unit := {|
  fs_name _ := [120]; fs_root _ s := Some (Some tt, s); node_type _ _ := File; node_size _ _ := 3;
  node_read _ o n s := let data := take (Z.to_nat n) (drop (Z.to_nat o) [104; 105; 10]) in Some (Z.of_nat (length data), data, s);
  node_write _ _ b s := Some (-1, s); node_lookup _ _ s := Some (Some tt, s); node_entry_at _ _ s := Some (None, s) |}.

(** Memory where the program's addresses are physical ones; nothing else is mapped. *)
#[local] Instance flat : PageMapper unit := {|
  pm_alloc m := (0, m); pm_free m _ := m; pm_map m _ _ _ _ := (true, m); pm_unmap m _ _ := (true, m);
  pm_protect m _ _ _ := (true, m); pm_translate _ va := if (user_base <=? va) && (va <? user_base + 1024) then va else 0; pm_wf _ _ := True |}.
#[local] Instance flat_spaces : UserSpaces unit := {| us_create m := (true, m) |}.

(** The literals one after the other from [a] on, and where each begins. *)
Fixpoint lay (a : Z) (texts : list (list Z)) : list Z * list (list Z * Z) :=
  match texts with
  | [] => ([], [])
  | t :: texts => let (bytes, at_) := lay (a + Z.of_nat (length t) + 1) texts in (t ++ 0 :: bytes, (t, a) :: at_)
  end.

Fixpoint find (t : list Z) (table : list (list Z * Z)) : Z :=
  match table with [] => 0 | (t', a) :: table => if decide (t = t') then a else find t table end.

Definition demo_layout (texts : list (list Z)) : layout :=
  mkLayout (fun t => find t (lay (user_base + 128) texts).2) user_base (user_base + 32).

Definition demo_memory (texts : list (list Z)) : gmap Z Z :=
  let bytes := replicate 128 0 ++ (lay (user_base + 128) texts).1 in
  list_to_map (zip (seqZ user_base 1024) (bytes ++ replicate (1024 - length bytes) 0)).

Definition demo_machine (texts : list (list Z)) : @machine unit unit unit :=
  mkMachine (mkKernel (replicate 8 (mkFile false 0 [])) (Console.mk [7] []) [mkMount [47] tt] tt [demo_process] (Some 0%nat) (mkWorld tt (demo_memory texts)))
    (fun n => u64 (Z.of_nat n * 10000000)) 0 [].

Definition demo_home (a : Z) : Prop := user_base <= a < user_base + 1024.
#[local] Instance demo_home_dec a : Decision (demo_home a) := ltac:(unfold demo_home; apply _).

Definition readable_bytes (w : world unit) : bool :=
  forallb (fun a => match view w a with Some _ => true | None => false end) (seqZ user_base 1024).

Definition laid_out (w : world unit) (l : layout) (texts : list (list Z)) : bool :=
  forallb (fun t => let a := at_ l t in
    (user_base + 128 <=? a) && (a + Z.of_nat (length t) <? user_base + 1024) &&
    forallb (fun j => bool_decide (view w (a + Z.of_nat j) = (t ++ [0]) !! j)) (seq 0 (Datatypes.S (length t)))) texts.

Lemma readable_home (w : world unit) : readable_bytes w = true -> home demo_home w.
Proof.
  intros Hb. unfold readable_bytes in Hb. rewrite forallb_forall in Hb. destruct w as [[] mem].
  assert (forall a, demo_home a -> pm_translate tt a = a) as Ht.
  { intros a Ha. cbn. unfold demo_home in Ha. by rewrite (proj2 (Z.leb_le _ _)), (proj2 (Z.ltb_lt _ _)) by lia. }
  constructor.
  - unfold demo_home. intros a Ha. unfold user_base in *. lia.
  - intros a Ha. specialize (Hb a). destruct (view _ a); [done|]. discriminate Hb. apply list_elem_of_In, elem_of_seqZ. unfold demo_home in Ha. lia.
  - intros a b Ha Hb' E. cbn [space] in E. by rewrite !Ht in E.
Qed.

Lemma hello_serves : serves.
Proof.
  split; [done|]. split; [done|]. intros node o len fs Hl. cbn [node_read hello]. set (data := take _ _).
  exists (Z.of_nat (length data)), data, fs. split; [done|]. split; [|lia]. unfold data. rewrite length_take. lia.
Qed.

Lemma demo_runnable texts : readable_bytes (user (os (demo_machine texts))) = true ->
  runnable demo_home (demo_layout texts) (demo_machine texts) 0 demo_process.
Proof.
  intros Hb. constructor.
  - by apply readable_home.
  - intros j Hj. unfold demo_home. cbn [demo_layout digits]. lia.
  - intros j Hj. unfold demo_home, buffer_size in *. cbn [demo_layout buffer]. lia.
  - done.
  - done.
  - cbn. lia.
  - done.
  - exact hello_serves.
  - apply NoDup_singleton.
  - intros n. cbn [demo_machine times]. apply u64_range.
Qed.

Lemma demo_placed texts : laid_out (user (os (demo_machine texts))) (demo_layout texts) texts = true -> placed demo_home (demo_layout texts) (demo_machine texts) texts.
Proof.
  unfold laid_out. rewrite forallb_forall. intros Hl t Hin. specialize (Hl t (proj1 (list_elem_of_In _ _) Hin)). cbn zeta in Hl.
  apply andb_true_iff in Hl as [Ha Hv]. apply andb_true_iff in Ha as [Hlo Hhi]. apply Z.leb_le in Hlo. apply Z.ltb_lt in Hhi.
  rewrite forallb_forall in Hv. split.
  - intros j Hj. split; [unfold demo_home; lia|]. apply (bool_decide_eq_true_1 _), Hv, in_seq. lia.
  - intros j Hj [Hd|Hd]; unfold buffer_size in Hd; cbn [demo_layout digits buffer] in Hd; lia.
Qed.

Lemma demo_literals : readable_bytes (user (os (demo_machine init_literals))) && laid_out (user (os (demo_machine init_literals))) (demo_layout init_literals) init_literals = true.
Proof. vm_compute. reflexivity. Qed.

Lemma init_runs_witness : exists m', start (init_main (demo_layout init_literals)) (demo_machine init_literals) = Left Z m' /\
  exit_code_ <$> processes (os m') = [42] /\ seen (console (os m')) 7 = init_text 1 20 (Bytes [104; 105; 10]).
Proof.
  destruct (proj1 (andb_true_iff _ _) demo_literals) as [Hr Hl].
  destruct (init_runs demo_home (demo_layout init_literals) (demo_machine init_literals) 0 demo_process (demo_runnable _ Hr) (demo_placed _ Hl))
    as (m' & E & Hp & Hs & _).
  exists m'. split; [exact E|]. split; [rewrite Hp; reflexivity|]. rewrite (Hs 7); [reflexivity|]. apply list_elem_of_singleton. reflexivity.
Defined.

(** The three runs, computed. *)
Example init_says_hello : match start (init_main (demo_layout init_literals)) (demo_machine init_literals) with
  | Left _ m => seen (console (os m)) 7 = init_text 1 20 (Bytes [104; 105; 10]) /\ slept m = [20]
  | _ => False
  end.
Proof. vm_compute. split; reflexivity. Qed.

Example crash_is_caught : match start (crash_main (demo_layout crash_literals)) (demo_machine crash_literals) with
  | Faulted _ a m => a = nowhere /\ seen (console (os m)) 7 = line "crash: about to write where nothing is mapped"
  | _ => False
  end.
Proof. vm_compute. split; reflexivity. Qed.
