(* ===== verification/Loader.v ===== *)
(** * Loading module images (src/kernel/module/loader.cpp)

    State: the virtual space allocator, the kernel's address space and frames behind the
    mapper interface, the bytes of kernel memory by virtual address, and the module
    table with the export tables.  The image is the bytes of the file.  What a frame
    held before ([stale]) and what a constructor does ([construct]) are parameters.  A
    read outside the file or a touch of memory that is not mapped is [None]. *)

From S2P Require Import Prelude Interfaces Memory PageAlloc Paging PagingInit Vmalloc Symbols Modules Elf.

Definition max_sections : nat := 64.

Record Placement := mkPlacement { pl_address : Z; executable : bool; writable : bool }.

(** [section_count] is only ever written. *)
Record LoadedImage := mkLoaded { base : Z; pages : Z; placement : list Placement }.

Definition empty_image : LoadedImage := mkLoaded 0 0 (replicate max_sections (mkPlacement 0 false false)).

Definition round_up_pages (bytes : Z) : Z := u64 (u64 (bytes + page_size) - 1) / page_size.

(** The bytes of a string up to its terminator, none beyond the end of the file. *)
Fixpoint string_from (fuel : nat) (get : Z -> option Z) (o : Z) : option (list Z) :=
  match fuel with
  | O => None
  | S fuel =>
    b ← get o;
    if b =? 0 then Some [] else rest ← string_from fuel get (o + 1); Some (b :: rest)
  end.

Definition string_at (image : list Z) (strings : SectionHeader) (offset : Z) : option (list Z) :=
  string_from (S (length image)) (byte_at image) (sh_offset strings + offset).

Definition section (image : list Z) (h : Header) (i : Z) : option SectionHeader :=
  parse_section image (section_header_offset h + i * sizeof_SectionHeader).

(** The loops skip everything that takes no memory. *)
Definition allocated (s : SectionHeader) : bool :=
  negb (Z.land (sh_flags s) section_flag_alloc =? 0) && negb (sh_size s =? 0).

Section memory.
Context {M : Type} `{PageMapper M} (stale : Z -> Z).

Record machine := mkMachine { ranges : Vmalloc.state; space : M; mem : gmap Z Z }.

(** A page appears in kernel memory with whatever its frame held, or disappears. *)
Definition show_page (a : Z) (m : gmap Z Z) : gmap Z Z := for_z 0 page_size (fun i => <[a + i := stale (a + i)]>) m.
Definition hide_page (a : Z) (m : gmap Z Z) : gmap Z Z := for_z 0 page_size (fun i => delete (a + i)) m.

Fixpoint allocate_pages (n : nat) (i window total : Z) (s : machine) : bool * machine :=
  match n with
  | O => (true, s)
  | S n =>
    let (frame, m) := pm_alloc (space s) in
    if frame =? 0 then (false, mkMachine (vmalloc_release (ranges s) window total) m (mem s))
    else
      let page := u64 (window + i * page_size) in
      let (ok, m) := pm_map m page frame page_size (flags_or PageFlags_Write PageFlags_NoExecute) in
      if ok then allocate_pages n (i + 1) window total (mkMachine (ranges s) m (show_page page (mem s)))
      else (false, mkMachine (vmalloc_release (ranges s) window total) (pm_free m frame) (mem s))
  end.

Definition allocate_image (loaded : LoadedImage) (bytes : Z) (s : machine) : bool * LoadedImage * machine :=
  let n := round_up_pages bytes in
  let (window, v) := vmalloc_reserve (ranges s) (u64 (n * page_size)) in
  let s := mkMachine v (space s) (mem s) in
  if window =? 0 then (false, loaded, s)
  else
    let (ok, s) := allocate_pages (Z.to_nat n) 0 window (u64 (n * page_size)) s in
    if ok then (true, mkLoaded window n (placement loaded), s) else (false, loaded, s).

Fixpoint release_pages (n : nat) (i start : Z) (s : machine) : machine :=
  match n with
  | O => s
  | S n =>
    let page := u64 (start + i * page_size) in
    let frame := pm_translate (space s) page in
    let (_, m) := pm_unmap (space s) page page_size in
    let m := if frame =? 0 then m else pm_free m (Z.land frame (not64 (page_size - 1))) in
    release_pages n (i + 1) start (mkMachine (ranges s) m (hide_page page (mem s)))
  end.

Definition release_image (loaded : LoadedImage) (s : machine) : machine :=
  if base loaded =? 0 then s
  else
    let s := release_pages (Z.to_nat (pages loaded)) 0 (base loaded) s in
    mkMachine (vmalloc_release (ranges s) (base loaded) (u64 (pages loaded * page_size))) (space s) (mem s).

Definition module_release_image (b n : Z) (s : machine) : machine :=
  release_image (mkLoaded b n (placement empty_image)) s.

(** ** Layout *)

(** The bytes all sections take, each on pages of its own. *)
Fixpoint total_bytes (l : list SectionHeader) (total : Z) : Z :=
  match l with
  | [] => total
  | s :: l => total_bytes l (if allocated s then u64 (total + u64 (round_up_pages (sh_size s) * page_size)) else total)
  end.

(** [memcpy] of file bytes. *)
Definition copy_in (image : list Z) (offset where_ size : Z) (m : gmap Z Z) : option (gmap Z Z) :=
  for_o 0 size (fun i m => b ← byte_at image (offset + i); wr8 m (where_ + i) b) m.

Fixpoint place_sections (l : list SectionHeader) (i : nat) (cursor : Z) (image : list Z) (loaded : LoadedImage) (m : gmap Z Z) :
    option (LoadedImage * gmap Z Z) :=
  match l with
  | [] => Some (loaded, m)
  | s :: l =>
    if negb (allocated s) then place_sections l (S i) cursor image loaded m
    else
      let where_ := u64 (base loaded + cursor) in
      let p := mkPlacement where_ (negb (Z.land (sh_flags s) section_flag_exec =? 0))
                 (negb (Z.land (sh_flags s) section_flag_write =? 0)) in
      let loaded := mkLoaded (base loaded) (pages loaded) (<[i := p]> (placement loaded)) in
      m ← (if sh_type s =? section_nobits then memset m where_ 0 (sh_size s)
           else copy_in image (sh_offset s) where_ (sh_size s) m);
      place_sections l (S i) (u64 (cursor + u64 (round_up_pages (sh_size s) * page_size))) image loaded m
  end.

(** ** Relocations *)

(** [static_cast<i64>]. *)
Definition signed64 (x : Z) : Z := let v := u64 x in if v <? 2 ^ 63 then v else v - 2 ^ 64.

Definition fits32 (v : Z) : bool := negb ((v <? -0x80000000) || (0x7FFFFFFF <? v)).

(** Width and bytes of what a relocation writes; [None] is [return false]. *)
Definition relocation (type symbol addend where_ : Z) : option (nat * Z) :=
  if type =? r_x86_64_64 then Some (8%nat, u64 (symbol + addend))
  else if (type =? r_x86_64_pc32) || (type =? r_x86_64_plt32) then
    let value := signed64 (symbol + addend - where_) in
    if fits32 value then Some (4%nat, u32 value) else None
  else if (type =? r_x86_64_32) || (type =? r_x86_64_32s) then
    let value := signed64 (symbol + addend) in
    if fits32 value then Some (4%nat, u32 value) else None
  else if type =? r_x86_64_pc64 then Some (8%nat, u64 (symbol + addend - where_))
  else None.

Fixpoint wr_le (n : nat) (a v : Z) (m : gmap Z Z) : option (gmap Z Z) :=
  match n with
  | O => Some m
  | S n => m ← wr8 m a (v mod 256); wr_le n (a + 1) (v / 256) m
  end.

(** The outer [None] is a fault, the inner one an unresolved symbol. *)
Definition symbol_address (kernel : list ExportedSymbol) (exports : list RegisteredTable) (image : list Z)
    (symbols strings : SectionHeader) (loaded : LoadedImage) (index : Z) : option (option Z) :=
  if sh_size symbols / sizeof_Symbol <=? index then Some None
  else
    symbol ← parse_symbol image (sh_offset symbols + index * sizeof_Symbol);
    if st_section symbol =? section_undefined then
      name ← string_at image strings (st_name symbol);
      let address := symbol_lookup kernel name exports in
      Some (if address =? 0 then None else Some address)
    else if Z.of_nat max_sections <=? st_section symbol then Some None
    else
      p ← placement loaded !! Z.to_nat (st_section symbol);
      Some (Some (u64 (pl_address p + st_value symbol))).

Section relocating.
Context (kernel : list ExportedSymbol) (exports : list RegisteredTable) (image : list Z) (h : Header) (loaded : LoadedImage).

Fixpoint relocate_entries (n : nat) (entry : Z) (s symbols strings : SectionHeader) (m : gmap Z Z) : option (bool * gmap Z Z) :=
  match n with
  | O => Some (true, m)
  | S n =>
    rela ← parse_rela image (sh_offset s + entry * sizeof_Rela);
    symbol ← symbol_address kernel exports image symbols strings loaded (rela_symbol (r_info rela));
    match symbol with
    | None => Some (false, m)
    | Some symbol =>
      p ← placement loaded !! Z.to_nat (sh_info s);
      let where_ := u64 (pl_address p + r_offset rela) in
      match relocation (rela_type (r_info rela)) symbol (r_addend rela) where_ with
      | None => Some (false, m)
      | Some (width, value) =>
        m ← wr_le width where_ value m;
        relocate_entries n (entry + 1) s symbols strings m
      end
    end
  end.

Fixpoint apply_relocations (l : list SectionHeader) (m : gmap Z Z) : option (bool * gmap Z Z) :=
  match l with
  | [] => Some (true, m)
  | s :: l =>
    if negb (sh_type s =? section_rela) then apply_relocations l m
    else
      target ← section image h (sh_info s);
      if Z.land (sh_flags target) section_flag_alloc =? 0 then apply_relocations l m
      else
        symbols ← section image h (sh_link s);
        strings ← section image h (sh_link symbols);
        '(ok, m) ← relocate_entries (Z.to_nat (sh_size s / sizeof_Rela)) 0 s symbols strings m;
        if ok : bool then apply_relocations l m else Some (false, m)
  end.

(** ** After the relocations *)

Definition protection (p : Placement) : Z :=
  let flags := if writable p then flags_or PageFlags_None PageFlags_Write else PageFlags_None in
  if executable p then flags else flags_or flags PageFlags_NoExecute.

Fixpoint apply_protections (l : list SectionHeader) (i : nat) (m : M) : option M :=
  match l with
  | [] => Some m
  | s :: l =>
    if negb (allocated s) then apply_protections l (S i) m
    else
      p ← placement loaded !! i;
      let m := (pm_protect m (Z.land (pl_address p) (not64 (page_size - 1)))
                  (u64 (round_up_pages (sh_size s) * page_size)) (protection p)).2 in
      apply_protections l (S i) m
  end.

Context (construct : Z -> gmap Z Z -> gmap Z Z).

Fixpoint call_entries (n : nat) (a : Z) (m : gmap Z Z) : option (gmap Z Z) :=
  match n with
  | O => Some m
  | S n =>
    f ← rd64 m a;
    call_entries n (a + 8) (if f =? 0 then m else construct f m)
  end.

(** ".init_array" and ".ctors". *)
Definition init_array_name : list Z := [46; 105; 110; 105; 116; 95; 97; 114; 114; 97; 121].
Definition ctors_name : list Z := [46; 99; 116; 111; 114; 115].
Definition symtab_name : list Z := [46; 101; 114; 105; 115; 95; 115; 121; 109; 116; 97; 98].
Definition modules_name : list Z := [46; 101; 114; 105; 115; 95; 109; 111; 100; 117; 108; 101; 115].

Fixpoint run_constructors (names : SectionHeader) (l : list SectionHeader) (i : nat) (m : gmap Z Z) : option (gmap Z Z) :=
  match l with
  | [] => Some m
  | s :: l =>
    name ← string_at image names (sh_name s);
    if negb (bool_decide (name = init_array_name)) && negb (bool_decide (name = ctors_name))
    then run_constructors names l (S i) m
    else
      p ← placement loaded !! i;
      m ← call_entries (Z.to_nat (sh_size s / 8)) (pl_address p) m;
      run_constructors names l (S i) m
  end.

(** A string in kernel memory; null has none. *)
Definition string_in (m : gmap Z Z) (a : Z) : option (option (list Z)) :=
  if a =? 0 then Some None else option_map Some (string_from (S (size m)) (fun o => m !! o) a).

Definition sizeof_ExportedSymbol : Z := 16.

Fixpoint read_exports (n : nat) (a : Z) (m : gmap Z Z) : option (list ExportedSymbol) :=
  match n with
  | O => Some []
  | S n =>
    np ← rd64 m a; address ← rd64 m (a + 8); name ← string_in m np;
    rest ← read_exports n (a + sizeof_ExportedSymbol) m;
    Some (Symbols.mkSymbol name address :: rest)
  end.

Fixpoint register_exports (names : SectionHeader) (l : list SectionHeader) (i : nat) (m : gmap Z Z) (r : list RegisteredTable) :
    option (list RegisteredTable) :=
  match l with
  | [] => Some r
  | s :: l =>
    name ← string_at image names (sh_name s);
    if negb (bool_decide (name = symtab_name)) then register_exports names l (S i) m r
    else
      p ← placement loaded !! i;
      table ← read_exports (Z.to_nat (sh_size s / sizeof_ExportedSymbol)) (pl_address p) m;
      register_exports names l (S i) m (symbol_register_table (Symbols.mkTable (pl_address p) table (base loaded)) r).2
  end.

Definition sizeof_ModuleInfo : Z := 72.

Fixpoint read_names (n : nat) (a : Z) (m : gmap Z Z) : option (list (list Z)) :=
  match n with
  | O => Some []
  | S n =>
    p ← rd64 m a; name ← string_in m p; rest ← read_names n (a + 8) m;
    Some (default [] name :: rest)
  end.

(** The descriptor at an address: abi, name, version, author, license, init, exit,
    deps, dep_count. *)
Definition read_descriptor (a : Z) (m : gmap Z Z) : option ModuleInfo :=
  abi ← rd32 m a; np ← rd64 m (a + 8); name ← string_in m np; lp ← rd64 m (a + 32); license ← string_in m lp;
  init ← rd64 m (a + 40); exit ← rd64 m (a + 48); deps ← rd64 m (a + 56); count ← rd64 m (a + 64);
  names ← read_names (Z.to_nat count) deps m;
  Some (mkInfo abi (default [] name) license (negb (init =? 0)) (negb (exit =? 0)) names).

Context {W : Type}.

Fixpoint register_descriptors (n : nat) (a : Z) (m : gmap Z Z) (t : Modules.table W) (registered : Z) :
    option (Z * Modules.table W) :=
  match n with
  | O => Some (registered, t)
  | S n =>
    info ← read_descriptor a m;
    let (r, t) := module_register_loaded (Some info) (base loaded) (pages loaded) t in
    register_descriptors n (a + sizeof_ModuleInfo) m t (if r =? 0 then registered + 1 else registered)
  end.

Fixpoint register_modules (names : SectionHeader) (l : list SectionHeader) (i : nat) (m : gmap Z Z) (t : Modules.table W)
    (registered : Z) : option (Z * Modules.table W) :=
  match l with
  | [] => Some (registered, t)
  | s :: l =>
    name ← string_at image names (sh_name s);
    if negb (bool_decide (name = modules_name)) then register_modules names l (S i) m t registered
    else
      p ← placement loaded !! i;
      '(registered, t) ← register_descriptors (Z.to_nat (sh_size s / sizeof_ModuleInfo)) (pl_address p) m t registered;
      register_modules names l (S i) m t registered
  end.

End relocating.

Definition set_exports {W} (r : list RegisteredTable) (t : Modules.table W) : Modules.table W :=
  Modules.mkTable (slots t) (registered t) (tainted t) r (released t) (Modules.world t).

Definition module_load_image {W} (kernel : list ExportedSymbol) (construct : Z -> gmap Z Z -> gmap Z Z) (image : list Z)
    (s : machine) (t : Modules.table W) : option (Z * machine * Modules.table W) :=
  if Z.of_nat (length image) <? sizeof_Header then Some (-1, s, t)
  else
    h ← parse_header image;
    if negb (header_looks_sane h (Z.of_nat (length image))) then Some (-1, s, t)
    else if Z.of_nat max_sections <? section_header_count h then Some (-1, s, t)
    else
      sections ← mapM (section image h) (seqZ 0 (section_header_count h));
      let total := total_bytes sections 0 in
      if total =? 0 then Some (-1, s, t)
      else
        let '(ok, loaded, s) := allocate_image empty_image total s in
        if negb ok then Some (-1, s, t)
        else
          '(loaded, m) ← place_sections sections 0 0 image loaded (mem s);
          '(ok, m) ← apply_relocations kernel (exports t) image h loaded sections m;
          let s := mkMachine (ranges s) (space s) m in
          if negb (ok : bool) then Some (-1, release_image loaded s, t)
          else
            names ← section image h (section_name_index h);
            m ← run_constructors image loaded construct names sections 0 m;
            r ← register_exports image loaded names sections 0 m (exports t);
            let t := set_exports r t in
            mapped ← apply_protections loaded sections 0 (space s);
            let s := mkMachine (ranges s) mapped m in
            '(registered, t) ← register_modules image loaded names sections 0 m t 0;
            if registered =? 0 then Some (-1, release_image loaded s, t)
            else Some (0, s, t).

End memory.

(** ** What a relocation means *)

(** The value the psABI gives a relocation of symbol [S], addend [A] at place [P]. *)
Definition abi_value (type S A P : Z) : Z :=
  if (type =? r_x86_64_pc32) || (type =? r_x86_64_plt32) || (type =? r_x86_64_pc64) then S + signed64 A - P else S + signed64 A.

(** A 4-byte field the processor sign-extends.  The loader holds R_X86_64_32 to the same
    range as R_X86_64_32S, so the value is right for both; the psABI zero-extends the
    first and would also admit values from 2^31 to 2^32. *)
Definition sign_extend32 (v : Z) : Z := if v <? 2 ^ 31 then v else v - 2 ^ 32.

Lemma signed64_mod x y : x mod 2 ^ 64 = y mod 2 ^ 64 -> signed64 x = signed64 y.
Proof. intros E. unfold signed64, u64, wrap. by rewrite E. Qed.

Lemma signed64_congr x : signed64 x mod 2 ^ 64 = x mod 2 ^ 64.
Proof.
  unfold signed64, u64, wrap. destruct (_ <? _); [by rewrite Z.mod_mod|].
  rewrite <- (Z.mod_add (x mod 2 ^ 64 - 2 ^ 64) 1) by lia. rewrite Z.mul_1_l, Z.sub_add. by rewrite Z.mod_mod.
Qed.

Lemma fits32_sign v : fits32 v = true -> sign_extend32 (u32 v) = v /\ -2 ^ 31 <= v < 2 ^ 31.
Proof.
  intros Hf. unfold fits32 in Hf. apply negb_true_iff, orb_false_iff in Hf as [H1 H2]. apply Z.ltb_ge in H1, H2.
  split; [|lia]. unfold sign_extend32, u32, wrap. destruct (Z.ltb_spec (v mod 2 ^ 32) (2 ^ 31)) as [Hs|Hs]; change (2 ^ 32) with 4294967296 in *;
    change (2 ^ 31) with 2147483648 in *; dlia.
Qed.

Lemma wr_le_spec n : forall a v m, 0 <= v < 2 ^ (8 * Z.of_nat n) -> Memory.mapped m a (Z.of_nat n) ->
  exists m', wr_le n a v m = Some m' /\ rd_le n m' a = Some v /\
    forall x, ~ a <= x < a + Z.of_nat n -> m' !! x = m !! x.
Proof.
  induction n as [|n IH]; intros a v m Hv Hm; cbn [wr_le rd_le].
  { exists m. split_and!; [done|f_equal; change (2 ^ (8 * Z.of_nat 0)) with 1 in Hv; lia|done]. }
  rewrite wr8_mapped by (rewrite <- (Z.add_0_r a); apply Hm; lia). cbn [mbind option_bind].
  assert (2 ^ (8 * Z.of_nat (S n)) = 256 * 2 ^ (8 * Z.of_nat n)) as Hp
    by (replace (8 * Z.of_nat (S n)) with (8 + 8 * Z.of_nat n) by lia; by rewrite Z.pow_add_r by lia).
  destruct (IH (a + 1) (v / 256) (<[a := v mod 256]> m)) as (m' & E & Hr & Hx).
  { split; [dlia|]. apply Z.div_lt_upper_bound; lia. }
  { intros i Hi. replace (a + 1 + i) with (a + (i + 1)) by lia. apply (mapped_insert m a (Z.of_nat (S n))); [done|lia]. }
  exists m'. split_and!; [done| |].
  - rewrite Hx, lookup_insert_eq by lia. cbn [mbind option_bind]. rewrite Hr. cbn. f_equal. dlia.
  - intros x Hn. rewrite Hx by lia. apply lookup_insert_ne. lia.
Qed.

Lemma congr_add x y z : x mod 2 ^ 64 = y mod 2 ^ 64 -> (z + x) mod 2 ^ 64 = (z + y) mod 2 ^ 64.
Proof. intros E. by rewrite Z.add_mod, E, <- Z.add_mod by lia. Qed.

(** What a relocation of each kind comes to. *)
Lemma relocation_spec type symbol addend where_ width value :
  relocation type symbol addend where_ = Some (width, value) ->
  (width = 4%nat \/ width = 8%nat) /\ 0 <= value < 2 ^ (8 * Z.of_nat width) /\
  value = abi_value type symbol addend where_ mod 2 ^ (8 * Z.of_nat width) /\
  (width = 4%nat -> sign_extend32 value = signed64 (abi_value type symbol addend where_)).
Proof.
  unfold relocation, abi_value. set (q := symbol + addend - where_). set (s := symbol + addend).
  assert (s mod 2 ^ 64 = (symbol + signed64 addend) mod 2 ^ 64) as Hs by (symmetry; apply congr_add, signed64_congr).
  assert (q mod 2 ^ 64 = (symbol + signed64 addend - where_) mod 2 ^ 64) as Hq.
  { unfold q. replace (symbol + addend - where_) with (- where_ + symbol + addend) by lia.
    replace (symbol + signed64 addend - where_) with (- where_ + symbol + signed64 addend) by lia.
    symmetry. apply congr_add, signed64_congr. }
  assert (forall x y, x mod 2 ^ 64 = y mod 2 ^ 64 -> fits32 (signed64 x) = true ->
    0 <= u32 (signed64 x) < 2 ^ 32 /\ u32 (signed64 x) = y mod 2 ^ 32 /\ sign_extend32 (u32 (signed64 x)) = signed64 y) as Hnarrow.
  { intros x y Hxy Hf. destruct (fits32_sign _ Hf) as [Hsg _]. split; [apply u32_range|]. split.
    - unfold u32, wrap. pose proof (signed64_congr x) as Hc. rewrite Hxy in Hc.
      assert (forall z, z mod 2 ^ 32 = (z mod 2 ^ 64) mod 2 ^ 32) as Hz by (intros z; change (2 ^ 64) with (2 ^ 32 * 2 ^ 32); rewrite <- Znumtheory.Zmod_div_mod; [done|lia|lia|by exists (2 ^ 32)]).
      by rewrite Hz, Hc, <- Hz.
    - rewrite Hsg. by apply signed64_mod. }
  assert (forall x y, x mod 2 ^ 64 = y mod 2 ^ 64 -> 0 <= u64 x < 2 ^ 64 /\ u64 x = y mod 2 ^ 64) as Hwide
    by (intros x y Hxy; split; [apply u64_range|exact Hxy]).
  destruct (Z.eqb_spec type r_x86_64_64) as [->|_].
  { intros [= <- <-]. destruct (Hwide s _ Hs) as [? ?]. split_and!; try done; [by right|lia..]. }
  destruct ((type =? r_x86_64_pc32) || (type =? r_x86_64_plt32)) eqn:Epc.
  { cbn [orb]. cbv zeta. destruct (fits32 (signed64 q)) eqn:Ef; [|done]. intros [= <- <-]. destruct (Hnarrow q _ Hq Ef) as (? & ? & ?).
    split_and!; try done; [by left|lia..]. }
  cbn [orb]. destruct ((type =? r_x86_64_32) || (type =? r_x86_64_32s)) eqn:E32.
  { destruct (Z.eqb_spec type r_x86_64_pc64) as [->|_]; [done|].
    cbv zeta. destruct (fits32 (signed64 s)) eqn:Ef; [|done]. intros [= <- <-]. destruct (Hnarrow s _ Hs Ef) as (? & ? & ?).
    split_and!; try done; [by left|lia..]. }
  destruct (type =? r_x86_64_pc64); [|done].
  intros [= <- <-]. destruct (Hwide q _ Hq) as [? ?]. split_and!; try done; [by right|lia..].
Qed.

(** C16: A relocation is applied exactly: where the loader does not refuse it, the field ends
    up with the value the ABI prescribes, a 32-bit field sign-extends to the full
    64-bit value, and no other byte changes. *)
Theorem relocation_applied type symbol addend where_ width value m :
  relocation type symbol addend where_ = Some (width, value) -> Memory.mapped m where_ (Z.of_nat width) ->
  exists m', wr_le width where_ value m = Some m' /\
    rd_le width m' where_ = Some (abi_value type symbol addend where_ mod 2 ^ (8 * Z.of_nat width)) /\
    (width = 4%nat -> exists v, rd_le 4 m' where_ = Some v /\ sign_extend32 v = signed64 (abi_value type symbol addend where_)) /\
    (forall x, ~ where_ <= x < where_ + Z.of_nat width -> m' !! x = m !! x).
Proof.
  intros E Hm. destruct (relocation_spec _ _ _ _ _ _ E) as (_ & Hr & Hv & Hs).
  destruct (wr_le_spec width where_ value m Hr Hm) as (m' & Ew & Hrd & Hout). exists m'.
  split_and!; [done|by rewrite Hrd, Hv| |done]. intros ->. exists value. by auto.
Qed.

(** ** Where the sections go *)

Definition extent (s : SectionHeader) : Z := round_up_pages (sh_size s) * page_size.

(** The bytes before section [j]. *)
Fixpoint offset_at (l : list SectionHeader) (j : nat) : Z :=
  match j, l with
  | S j, s :: l => (if allocated s then extent s else 0) + offset_at l j
  | _, _ => 0
  end.

Definition footprint (l : list SectionHeader) : Z := offset_at l (length l).

(** Sizes a file can have, and bytes that are in it. *)
Definition well_sized (image : list Z) (s : SectionHeader) : Prop :=
  0 <= sh_size s < 2 ^ 62 /\
  (allocated s = true -> sh_type s <> section_nobits -> 0 <= sh_offset s /\ sh_offset s + sh_size s <= Z.of_nat (length image)).

(** Byte [x] of a placed section. *)
Definition section_byte (image : list Z) (s : SectionHeader) (x : Z) : option Z :=
  if sh_type s =? section_nobits then Some 0 else byte_at image (sh_offset s + x).

Lemma extent_bounds image s : well_sized image s -> sh_size s <= extent s < 2 ^ 63 /\ extent s mod page_size = 0 /\ 0 <= extent s.
Proof.
  intros [Hs _]. unfold extent, round_up_pages, page_size. rewrite (u64_small (sh_size s + 4096)), u64_small by lia.
  split; [dlia|]. split; [by apply Z.mod_mul|dlia].
Qed.

Lemma offset_mono l : forall j, Forall (fun s => 0 <= extent s) l -> 0 <= offset_at l j <= footprint l.
Proof.
  unfold footprint. induction l as [|s l IH]; intros [|j] Hl; cbn [offset_at length]; try lia; apply Forall_cons in Hl as [Hs Hl].
  - pose proof (IH 0%nat Hl). destruct (allocated s); lia.
  - pose proof (IH j Hl). destruct (allocated s); lia.
Qed.

Lemma offset_step l : forall j k s, Forall (fun s => 0 <= extent s) l -> l !! j = Some s -> allocated s = true -> (j < k)%nat ->
  (k <= length l)%nat -> offset_at l j + extent s <= offset_at l k.
Proof.
  induction l as [|t l IH]; intros [|j] [|k] s Hl Hj Ha Hjk Hk; try done; cbn [length] in *; try lia; apply Forall_cons in Hl as [Ht Hl]; cbn [offset_at].
  - injection Hj as ->. rewrite Ha. pose proof (offset_mono l k Hl). lia.
  - specialize (IH j k s Hl Hj Ha ltac:(lia) ltac:(lia)). lia.
Qed.

Lemma total_bytes_spec image l : forall t, Forall (well_sized image) l -> 0 <= t -> t + footprint l < 2 ^ 64 -> total_bytes l t = t + footprint l.
Proof.
  unfold footprint. induction l as [|s l IH]; intros t Hl Ht Hf; cbn [total_bytes offset_at length] in *; [lia|].
  apply Forall_cons in Hl as [Hs Hl]. pose proof (extent_bounds _ _ Hs) as (He & _ & He0).
  assert (Forall (fun s => 0 <= extent s) l) as Hl0 by (eapply Forall_impl; [exact Hl|intros x Hx; by apply (extent_bounds _ _ Hx)]).
  pose proof (offset_mono l (length l) Hl0) as Hm. fold (extent s). rewrite IH; [|done|..]; destruct (allocated s); rewrite ?(u64_small (extent s)), ?u64_small by lia; lia.
Qed.

Lemma copy_in_spec image offset where_ size m :
  0 <= size -> 0 <= offset -> offset + size <= Z.of_nat (length image) -> Memory.mapped m where_ size ->
  exists m', copy_in image offset where_ size m = Some m' /\
    forall a, m' !! a = if bool_decide (where_ <= a < where_ + size) then byte_at image (offset + (a - where_)) else m !! a.
Proof.
  intros Hs Ho Hl Hm. unfold copy_in.
  destruct (for_o_ind (fun i (m' : gmap Z Z) => forall a, m' !! a =
     if bool_decide (where_ <= a < where_ + i) then byte_at image (offset + (a - where_)) else m !! a) 0 size
     (fun i m => b ← byte_at image (offset + i); wr8 m (where_ + i) b) m) as (m' & E & HP); [done| | |by exists m'].
  - intros a. by rewrite bool_decide_eq_false_2 by lia.
  - intros i m' Hi HP. destruct (byte_at_some image (offset + i)) as [b Hb]; [lia|]. rewrite Hb. cbn [mbind option_bind].
    rewrite wr8_mapped by (rewrite HP, bool_decide_eq_false_2 by lia; apply Hm; lia). eexists. split; [done|]. intros a.
    destruct (decide (a = where_ + i)) as [->|Hne].
    + rewrite lookup_insert_eq, bool_decide_eq_true_2 by lia. rewrite <- Hb. f_equal. lia.
    + rewrite lookup_insert_ne, HP by done. by rewrite (bool_decide_ext (where_ <= a < where_ + i) (where_ <= a < where_ + (i + 1))) by lia.
Qed.

Lemma section_written image s where_ m :
  well_sized image s -> allocated s = true -> Memory.mapped m where_ (sh_size s) ->
  exists m', (if sh_type s =? section_nobits then memset m where_ 0 (sh_size s)
              else copy_in image (sh_offset s) where_ (sh_size s) m) = Some m' /\
    (forall x, 0 <= x < sh_size s -> m' !! (where_ + x) = section_byte image s x) /\
    (forall a, ~ where_ <= a < where_ + sh_size s -> m' !! a = m !! a).
Proof.
  intros [Hs Hf] Ha Hm. unfold section_byte. destruct (Z.eqb_spec (sh_type s) section_nobits) as [E|E].
  - destruct (memset_spec m where_ 0 (sh_size s) ltac:(lia) Hm) as (m' & Em & HP). exists m'. split_and!; [done|..]; intros x Hx; rewrite HP.
    + by rewrite bool_decide_eq_true_2 by lia.
    + by rewrite bool_decide_eq_false_2 by lia.
  - destruct (Hf Ha E) as [Ho Hl]. destruct (copy_in_spec image (sh_offset s) where_ (sh_size s) m ltac:(lia) Ho Hl Hm) as (m' & Em & HP).
    exists m'. split_and!; [done|..]; intros x Hx; rewrite HP.
    + rewrite bool_decide_eq_true_2 by lia. f_equal. lia.
    + by rewrite bool_decide_eq_false_2 by lia.
Qed.

(** What placing the sections [l] from [cursor] on comes to. *)
Definition laid_out (image : list Z) (l : list SectionHeader) (i : nat) (cursor : Z) (loaded loaded' : LoadedImage) (m m' : gmap Z Z) : Prop :=
  base loaded' = base loaded /\ pages loaded' = pages loaded /\ length (placement loaded') = length (placement loaded) /\
  (forall j, (j < i)%nat -> placement loaded' !! j = placement loaded !! j) /\
  (forall j s, l !! j = Some s -> allocated s = true -> exists p, placement loaded' !! (i + j)%nat = Some p /\
     pl_address p = base loaded + cursor + offset_at l j /\
     executable p = negb (Z.land (sh_flags s) section_flag_exec =? 0) /\
     writable p = negb (Z.land (sh_flags s) section_flag_write =? 0) /\
     forall x, 0 <= x < sh_size s -> m' !! (pl_address p + x) = section_byte image s x) /\
  (forall a, ~ base loaded + cursor <= a < base loaded + cursor + footprint l -> m' !! a = m !! a).

Lemma place_sections_spec image l : forall i cursor loaded m,
  Forall (well_sized image) l -> 0 <= base loaded -> 0 <= cursor -> base loaded + cursor + footprint l < 2 ^ 63 ->
  Memory.mapped m (base loaded + cursor) (footprint l) -> (i + length l <= length (placement loaded))%nat ->
  exists loaded' m', place_sections l i cursor image loaded m = Some (loaded', m') /\ laid_out image l i cursor loaded loaded' m m'.
Proof.
  induction l as [|s l IH]; intros i cursor loaded m Hl Hb Hc Hf Hm Hi; cbn [place_sections].
  { exists loaded, m. split; [done|]. split_and!; try done. }
  apply Forall_cons in Hl as [Hs Hl]. pose proof (extent_bounds _ _ Hs) as (He & _ & He0). cbn [length] in Hi.
  assert (Forall (fun s => 0 <= extent s) l) as Hl0 by (eapply Forall_impl; [exact Hl|intros x Hx; by apply (extent_bounds _ _ Hx)]).
  assert (0 <= footprint l) as Hfl by (pose proof (offset_mono l 0 Hl0); lia).
  assert (footprint (s :: l) = (if allocated s then extent s else 0) + footprint l) as Hfp by done. rewrite Hfp in *.
  destruct (allocated s) eqn:Ea; cbn [negb].
  2:{ destruct (IH (S i) cursor loaded m Hl Hb Hc) as (loaded' & m' & E & B & P & L & Hlow & Hin & Hout); [lia|by rewrite Z.add_0_l in Hm|lia|].
      exists loaded', m'. split; [done|]. split_and!; try done; [intros j Hj; apply Hlow; lia| |].
      - intros [|j] t Ht Hat; [by injection Ht as ->; congruence|]. destruct (Hin j t Ht Hat) as (p & Hp & Hrest).
        exists p. split; [by rewrite <- Hp; f_equal; lia|]. cbn [offset_at]. rewrite Ea, Z.add_0_l. exact Hrest.
      - rewrite Hfp. intros a Ha. apply Hout. lia. }
  rewrite (u64_small (base loaded + cursor)) by lia. fold (extent s). rewrite (u64_small (extent s)), (u64_small (cursor + extent s)) by lia.
  set (p0 := mkPlacement _ _ _). set (loaded0 := mkLoaded _ _ _).
  destruct (section_written image s (base loaded + cursor) m Hs Ea) as (m1 & Em & Hin1 & Hout1).
  { intros x Hx. apply Hm. lia. }
  cbn [base] in Em. rewrite Em. cbn [mbind option_bind].
  destruct (IH (S i) (cursor + extent s) loaded0 m1 Hl Hb) as (loaded' & m' & E & B & P & L & Hlow & Hin & Hout); cbn [base loaded0] in *; try lia.
  { intros x Hx. rewrite Hout1 by lia. replace (base loaded + (cursor + extent s) + x) with (base loaded + cursor + (extent s + x)) by lia. apply Hm. lia. }
  { cbn [placement loaded0]. rewrite length_insert. lia. }
  exists loaded', m'. split; [done|]. split_and!; [done|done|by rewrite L; cbn; rewrite length_insert| | |].
  - intros j Hj. rewrite Hlow by lia. cbn [placement loaded0]. apply list_lookup_insert_ne. lia.
  - intros [|j] t Ht Hat.
    + injection Ht as <-. exists p0. rewrite Nat.add_0_r, Hlow by lia. cbn [placement loaded0].
      rewrite list_lookup_insert_eq by lia. split_and!; try done; [cbn; lia|]. intros x Hx. cbn [pl_address p0].
      rewrite Hout by lia. by apply Hin1.
    + destruct (Hin j t Ht Hat) as (p & Hp & Hpa & Hrest). exists p. split; [by rewrite <- Hp; f_equal; lia|].
      cbn [offset_at]. rewrite Ea. split; [lia|exact Hrest].
  - intros a Ha. rewrite Hfp in Ha. rewrite Hout by lia. apply Hout1. lia.
Qed.

(** C15: Every section gets its own pages.  For the sections of a file that fit, the loader
    asks for exactly their pages; in that window it places them in order on whole
    pages without overlap, each with its own permissions, shows the file's bytes (or
    zeroes) there and writes nowhere else. *)
Theorem image_laid_out image l window n m :
  Forall (well_sized image) l -> (length l <= max_sections)%nat -> 0 <= window -> window mod page_size = 0 ->
  window + footprint l < 2 ^ 63 -> Memory.mapped m window (total_bytes l 0) ->
  exists loaded m', place_sections l 0 0 image (mkLoaded window n (placement empty_image)) m = Some (loaded, m') /\
    total_bytes l 0 = footprint l /\
    (forall j s, l !! j = Some s -> allocated s = true -> exists p, placement loaded !! j = Some p /\
       pl_address p mod page_size = 0 /\ window <= pl_address p /\ pl_address p + extent s <= window + total_bytes l 0 /\
       sh_size s <= extent s /\
       executable p = negb (Z.land (sh_flags s) section_flag_exec =? 0) /\ writable p = negb (Z.land (sh_flags s) section_flag_write =? 0) /\
       (forall x, 0 <= x < sh_size s -> m' !! (pl_address p + x) = section_byte image s x) /\
       forall k t q, (j < k)%nat -> l !! k = Some t -> allocated t = true -> placement loaded !! k = Some q ->
         pl_address p + extent s <= pl_address q) /\
    (forall a, ~ window <= a < window + total_bytes l 0 -> m' !! a = m !! a).
Proof.
  intros Hl Hn Hw Hal Hf Hm.
  assert (Forall (fun s => 0 <= extent s) l) as Hl0 by (eapply Forall_impl; [exact Hl|intros x Hx; by apply (extent_bounds _ _ Hx)]).
  assert (total_bytes l 0 = footprint l) as Ht by (rewrite (total_bytes_spec image) by (done || lia); lia). rewrite Ht in *.
  destruct (place_sections_spec image l 0 0 (mkLoaded window n (placement empty_image)) m Hl) as (loaded & m' & E & _ & _ & _ & _ & Hin & Hout);
    [done|done|by cbn [base]; rewrite Z.add_0_r|by cbn [base]; rewrite Z.add_0_r|done|].
  cbn [base] in *. rewrite Z.add_0_r in *. exists loaded, m'. split_and!; try done.
  intros j s Hj Ha. destruct (Hin j s Hj Ha) as (p & Hp & Hpa & Hx & Hwr & Hb). exists p.
  assert (well_sized image s) as Hs by (rewrite Forall_forall in Hl; apply Hl; by eapply list_elem_of_lookup_2).
  pose proof (extent_bounds _ _ Hs) as (He & _ & _). pose proof (offset_mono l j Hl0).
  pose proof (offset_step l j (length l) s Hl0 Hj Ha ltac:(by eapply lookup_lt_Some) ltac:(done)) as Hend. fold (footprint l) in Hend.
  assert (forall l j, Forall (well_sized image) l -> offset_at l j mod page_size = 0) as Hmod.
  { clear. induction l as [|s l IH]; intros [|j] Hl; try done. apply Forall_cons in Hl as [Hs Hl]. cbn [offset_at].
    pose proof (extent_bounds _ _ Hs) as (_ & Hm & _). specialize (IH j Hl). unfold page_size in *. destruct (allocated s); dlia. }
  specialize (Hmod l j Hl). split_and!; try done; [rewrite Hpa; unfold page_size in *; dlia|lia|lia|lia|].
  intros k t q Hjk Hk Hat Hq. destruct (Hin k t Hk Hat) as (q' & Hq' & Hqa & _). cbn [Nat.add] in *. assert (q' = q) as -> by congruence.
  pose proof (offset_step l j k s Hl0 Hj Ha Hjk ltac:(apply Nat.lt_le_incl; by eapply lookup_lt_Some)). lia.
Qed.

(** ** A small image *)

Lemma relocation_applied_witness :
  relocation r_x86_64_pc32 0x40001000 (2 ^ 64 - 4) 0x40002000 = Some (4%nat, 2 ^ 32 - 0x1004) /\
  exists m', wr_le 4 0x40002000 (2 ^ 32 - 0x1004) (zero_memory 0x40002000 4) = Some m' /\
    exists v, rd_le 4 m' 0x40002000 = Some v /\ sign_extend32 v = -0x1004.
Proof.
  split; [reflexivity|].
  destruct (relocation_applied r_x86_64_pc32 0x40001000 (2 ^ 64 - 4) 0x40002000 4 (2 ^ 32 - 0x1004) (zero_memory 0x40002000 4))
    as (m' & E & _ & Hv & _).
  - reflexivity.
  - intros i Hi. apply zero_memory_mapped. lia.
  - exists m'. split; [exact E|]. exact (Hv eq_refl).
Defined.

(** Four bytes of code and eight zeroed ones. *)
Definition demo_sections : list SectionHeader :=
  [mkSection 0 1 6 0 0 4 0 0 16 0; mkSection 0 8 3 0 0 8 0 0 16 0].

Lemma image_laid_out_witness : exists loaded m',
  place_sections demo_sections 0 0 [72; 49; 192; 195] (mkLoaded 0x40000000 2 (placement empty_image)) (zero_memory 0x40000000 8192)
    = Some (loaded, m') /\
  exists p, placement loaded !! 0%nat = Some p /\ 0x40000000 <= pl_address p /\ pl_address p + 4096 <= 0x40002000 /\
    m' !! (pl_address p + 2) = Some 192.
Proof.
  destruct (image_laid_out [72; 49; 192; 195] demo_sections 0x40000000 2 (zero_memory 0x40000000 8192))
    as (loaded & m' & E & _ & Hin & _).
  - constructor; [|constructor; [|constructor]]; (split; [cbn; lia|]); cbn; [lia|done].
  - vm_compute. lia.
  - lia.
  - reflexivity.
  - reflexivity.
  - intros i Hi. apply zero_memory_mapped. change (total_bytes demo_sections 0) with 8192 in Hi. lia.
  - exists loaded, m'. split; [exact E|]. clear E.
    destruct (Hin 0%nat (mkSection 0 1 6 0 0 4 0 0 16 0) eq_refl eq_refl) as (p & Hp & _ & Hlo & Hhi & _ & _ & _ & Hb & _).
    exists p. split; [exact Hp|]. split; [exact Hlo|]. split; [exact Hhi|]. rewrite Hb by (cbn; lia). reflexivity.
Defined.
