(* ===== verification/Launch.v ===== *)
(** * Running a program (process_run in src/kernel/proc/process.cpp)

    The whole way of a program: its file is read into a heap buffer, loaded into an
    address space of its own, run in user mode until it leaves, and the kernel takes
    over again.  State: the kernel of the system calls, the heap, the thread that runs
    the program and its CPU's block.  What the program does in user mode is a list of
    events: system calls, stores to its memory, or the fault that ends it.  Files live
    in the same heap (RamFile::grow and release in src/kernel/fs/ramfs.cpp), so a call
    of the program can leave the heap, and the mappings behind it, different: that is an
    event of its own, with any heap.  [None] is a fault of the kernel, or a program
    that has not left yet. *)

From S2P Require Import Prelude Interfaces Memory PageAlloc Paging UserSpace Segments Scheduler Heap Vfs Console Process Syscall.

(** Runs of frames, the root of an address space, and the way back from a process's
    address space to the kernel's over the same frames. *)
Class PageRuns (M : Type) := {
  pr_alloc : M -> Z -> Z * M;
  pr_free : M -> Z -> Z -> M;
  us_root : M -> Z;
  us_return : M -> M -> M
}.

Definition syscall_stack_pages : Z := 4.

Inductive event {M : Type} :=
  | Call (now number first second third : Z)
  | Storage (h : heap) (m : M)     (* the files' storage has changed in the heap *)
  | Store (address byte : Z)
  | Fault (status : Z).
Arguments event : clear implicits.

Section run.
Context {M : Type} `{UserSpaces M} `{PageRuns M} {S N F : Type} `{FileSystems S N F}.

Record launch := mkLaunch { kern : @kernel M S F; heap_ : heap; self : option Thread; cpu : Segments.PerCpu }.

Definition set_kern (k : @kernel M S F) (s : launch) : launch := mkLaunch k (heap_ s) (self s) (cpu s).
Definition set_heap (h : heap) (s : launch) : launch := mkLaunch (kern s) h (self s) (cpu s).
Definition set_running (r : option nat) (k : @kernel M S F) : @kernel M S F :=
  mkKernel (open_files k) (console k) (mounts k) (files k) (processes k) r (user k).
Definition set_space (m : M) (k : @kernel M S F) : @kernel M S F := set_user (mkWorld m (mem (user k))) k.

(** [enter_user_mode]: returns when the program calls exit or faults. *)
Fixpoint run_user (es : list (event M)) (k : @kernel M S F) (h : heap) : option (@kernel M S F * heap) :=
  match es with
  | [] => None
  | Store a b :: es => w ← user_write (user k) a [b]; run_user es (set_user w k) h
  | Storage h m :: es => run_user es (set_space m k) h
  | Fault status :: _ =>
    Some (match running k with
          | Some i => set_processes (alter (Process.exit status) i (processes k)) k
          | None => k
          end, h)
  | Call now number a b c :: es =>
    '(o, k) ← syscall_dispatch now number a b c k;
    match o with Leaves => Some (k, h) | _ => run_user es k h end
  end.

(** The file in a heap buffer: its address and its bytes, or nothing when the program
    cannot be read. *)
Definition read_image (path : list Z) (s : launch) : option (option (Z * list Z) * launch) :=
  let k := kern s in
  '(status, fs) ← stat (mounts k) (Some path) (files k);
  let k := set_files fs k in
  match status with
  | None => Some (None, set_kern k s)
  | Some status =>
    let size := stat_size status in
    if (size =? 0) || (max_program_bytes <? size) then Some (None, set_kern k s)
    else
      '(image, h, m) ← kmalloc size (heap_ s) (space (user k));
      let s := set_kern (set_space m k) (set_heap h s) in
      if image =? 0 then Some (None, s)
      else
        '(read, data, fs) ← read_file (mounts k) (Some path) size (files k);
        let s := set_kern (set_files fs (kern s)) s in
        if read <=? 0 then h ← kfree image (heap_ s); Some (None, set_heap h s)
        else Some (Some (image, take (Z.to_nat read) data), s)
  end.

(** The process made from the image, which is freed; its index, or nothing when it
    could not be made.  On success its address space is the current one. *)
Definition make_process (path : list Z) (image : Z) (data : list Z) (s : launch) : option (option nat * launch) :=
  let k := kern s in
  let (slot, ps) := allocate (base_name path path) (processes k) in
  match slot with
  | None => h ← kfree image (heap_ s); Some (None, set_heap h s)
  | Some i =>
    p ← ps !! i;
    '(ok, p, w) ← Process.load data p (user k);
    let '(ok, p, w) := if ok : bool then map_stack p w else (false, p, w) in
    let k := set_processes (<[i := p]> ps) k in
    h ← kfree image (heap_ s);
    let s := set_heap h s in
    if ok : bool then Some (Some i, set_kern (set_user w k) s)
    else Some (None, set_kern (set_user (mkWorld (us_return (space (user k)) (space w)) (mem w)) k) s)
  end.

Definition with_thread (stack root : Z) (t : option Thread) : option Thread :=
  (fun t => set_address_space root (set_syscall_stack stack t)) <$> t.

(** [home] is the kernel's address space before the process had its own. *)
Definition execute (es : list (event M)) (home : M) (i : nat) (s : launch) : option (Z * option Z * launch) :=
  let k := kern s in
  let (stack, m) := pr_alloc (space (user k)) syscall_stack_pages in
  let k := set_space m k in
  if stack =? 0 then Some (-1, None, set_kern (set_space (us_return home m) k) s)
  else
    let top := phys_to_virt stack + syscall_stack_pages * page_size in
    let t := with_thread top (us_root (space (user k))) (self s) in
    let c := tss_set_kernel_stack top (cpu s) in
    let (r, ps) := activate i (processes k) in
    '(k, h) ← run_user es (set_running r (set_processes ps k)) (heap_ s);
    let k := set_running Process.release k in
    let m := pr_free (us_return home (space (user k))) stack syscall_stack_pages in
    let k := set_space m k in
    p ← processes k !! i;
    Some (0, Some (exit_code_ p), mkLaunch k h (with_thread 0 0 t) c).

(** The result, the exit code when there is one, and what is left. *)
Definition process_run (es : list (event M)) (path : list Z) (s : launch) : option (Z * option Z * launch) :=
  '(image, s) ← read_image path s;
  match image with
  | None => Some (-1, None, s)
  | Some (image, data) =>
    let home := space (user (kern s)) in
    '(made, s) ← make_process path image data s;
    match made with
    | None => Some (-1, None, s)
    | Some i => execute es home i s
    end
  end.
End run.
Arguments launch : clear implicits.

(** ** The image's buffer is given back *)

Section heap.
Context {M : Type} `{PageMapperSpec M}.

(** The heap is a tiling by blocks of which the ones in use are those of [l]. *)
Definition same_blocks (l : list block) (h : heap) : Prop :=
  exists l', links h l' /\ Heap.used h = used_of l' /\ forall c, allocated l' c <-> allocated l c.

Lemma buffer_returned h m l size p h' m' :
  Heap.inv h m l -> 0 <= size < 2 ^ 64 -> kmalloc size h m = Some (p, h', m') ->
  if p =? 0 then same_blocks l h' else exists h'', kfree p h' = Some h'' /\ same_blocks l h''.
Proof.
  intros Hi Hsz E. destruct (kmalloc_spec _ _ _ _ Hi Hsz) as (p1 & h1 & m1 & E1 & Hspec).
  rewrite E in E1. injection E1 as <- <- <-. cbv zeta in Hspec. destruct (Z.eqb_spec p 0) as [_|_].
  { destruct Hspec as (Hi' & -> & _). exists l. split_and!; [apply (inv_links _ _ _ Hi')|apply (inv_used _ _ _ Hi')|done]. }
  destruct Hspec as (_ & l1 & b & l2 & _ & [Hfr _] & -> & Hi' & _ & Hcase).
  set (w := align_up size) in *.
  assert (exists r, hand_out b w = mkBlock (addr b) (granted b w) false :: r /\ Forall (fun c => bfree c = true) r) as (r & Eh & Hr).
  { unfold hand_out, carve, granted. destruct (_ <? _); eexists; (split; [done|]); repeat constructor. }
  rewrite Eh in Hi'. cbn [app] in Hi'. destruct (kfree_spec _ _ _ _ _ Hi' eq_refl) as (h'' & Ef & Hi'' & _).
  exists h''. split; [done|]. eexists. split_and!; [apply (inv_links _ _ _ Hi'')|apply (inv_used _ _ _ Hi'')|]. intros c.
  rewrite allocated_merged by done.
  transitivity (allocated (l1 ++ b :: l2) c).
  - unfold allocated. rewrite !elem_of_app, !elem_of_cons, elem_of_app. rewrite Forall_forall in Hr. split.
    + intros [[?|[->|[Hc|?]]] Hf]; [tauto|done| |tauto]. apply Hr in Hc. congruence.
    + intros [[?|[->|?]] Hf]; [tauto|congruence|tauto].
  - destruct Hcase as [[-> _]|(_ & _ & ->)]; [done|]. rewrite allocated_merged by done. unfold allocated.
    rewrite elem_of_app, list_elem_of_singleton. split; [intros [[?| ->] ?]; [tauto|done]|tauto].
Qed.
End heap.

(** ** User mode *)

Section user.
Context {M : Type} `{UserSpaces M} {S N F : Type} `{FileSystems S N F}.
Implicit Types (k : @kernel M S F).

Lemma sys_read_keeps h b n k r k' : sys_read h b n k = Some (r, k') -> processes k' = processes k /\ running k' = running k.
Proof.
  unfold sys_read. destruct (user_range_ok b n k); cbn [negb]; [|by intros [= _ <-]].
  destruct (h <? 3); [by intros [= _ <-]|]. destruct (open_file h k) as [[i f]|]; [|by intros [= _ <-]].
  intros E. apply bind_Some_inv in E as ([[x|] fs] & _ & E); [|by injection E as _ <-].
  apply bind_Some_inv in E as ([[c d] fs'] & _ & E). apply bind_Some_inv in E as (w & _ & E).
  destruct (0 <? c); by injection E as _ <-.
Qed.

Lemma sys_write_keeps h b n k r k' : sys_write h b n k = Some (r, k') -> processes k' = processes k /\ running k' = running k.
Proof.
  unfold sys_write. destruct (user_range_ok b n k); cbn [negb]; [|by intros [= _ <-]].
  destruct (_ || _); intros E; [apply bind_Some_inv in E as (t & _ & E); by injection E as _ <-|].
  destruct (open_file h k) as [[i f]|]; [|by injection E as _ <-]. apply bind_Some_inv in E as (t & _ & E).
  apply bind_Some_inv in E as ([c fs] & _ & E). by injection E as _ <-.
Qed.

Lemma sys_open_keeps a k r k' : sys_open a k = Some (r, k') -> processes k' = processes k /\ running k' = running k.
Proof.
  unfold sys_open. destruct (user_range_ok a 1 k); cbn [negb]; [|by intros [= _ <-]].
  intros E. apply bind_Some_inv in E as (n & _ & E). apply bind_Some_inv in E as ([[x|] fs] & _ & E); [|by injection E as _ <-].
  destruct (find_unused _); by injection E as _ <-.
Qed.

(** A call that comes back leaves the processes as they are. *)
Lemma syscall_keeps now n a b c k o k' : syscall_dispatch now n a b c k = Some (o, k') -> o <> Leaves ->
  processes k' = processes k /\ running k' = running k.
Proof.
  unfold syscall_dispatch. intros E Ho. destruct (call_of n) as [[]|].
  - by injection E as <- _.
  - apply bind_Some_inv in E as ([r k1] & E1 & E). injection E as _ <-. by eapply sys_write_keeps.
  - apply bind_Some_inv in E as ([r k1] & E1 & E). injection E as _ <-. by eapply sys_read_keeps.
  - by injection E as _ <-.
  - by injection E as _ <-.
  - apply bind_Some_inv in E as ([r k1] & E1 & E). injection E as _ <-. by eapply sys_open_keeps.
  - unfold sys_close in E. destruct (a <? 3); [by injection E as _ <-|].
    destruct (open_file a k) as [[i f]|]; by injection E as _ <-.
  - by injection E as _ <-.
  - by injection E as _ <-.
Qed.

(** Only [Exit] does not come back. *)
Lemma syscall_leaves now n a b c k k' : syscall_dispatch now n a b c k = Some (Leaves, k') ->
  k' = match running k with Some i => set_processes (alter (Process.exit (to_int a)) i (processes k)) k | None => k end.
Proof.
  unfold syscall_dispatch. destruct (call_of n) as [[]|]; intros E; try (by injection E as <-).
  all: try (apply bind_Some_inv in E as ([r k1] & E1 & E); discriminate E).
  all: try discriminate E. destruct (sys_close a k). discriminate E.
Qed.

(** How a program that left did so. *)
Fixpoint status_of (es : list (event M)) : option Z :=
  match es with
  | [] => None
  | Store _ _ :: es | Storage _ _ :: es => status_of es
  | Fault status :: _ => Some status
  | Call _ n a _ _ :: es => match call_of n with Some Exit => Some (to_int a) | _ => status_of es end
  end.

(** The heap as the files' storage leaves it, up to the program's end. *)
Fixpoint heap_after (es : list (event M)) (h : heap) : heap :=
  match es with
  | [] | Fault _ :: _ => h
  | Store _ _ :: es => heap_after es h
  | Storage h _ :: es => heap_after es h
  | Call _ n _ _ _ :: es => match call_of n with Some Exit => h | _ => heap_after es h end
  end.

(** A program that leaves has exited with its status; no other process changed, and the
    heap is as its files' storage left it. *)
Lemma run_user_exits es : forall k h k' h' i, run_user es k h = Some (k', h') -> running k = Some i ->
  h' = heap_after es h /\
  exists status, status_of es = Some status /\ processes k' = alter (Process.exit status) i (processes k).
Proof.
  induction es as [|[now n a b c|h1 m|a b|status] es IH]; intros k h k' h' i E Hr; cbn [run_user status_of heap_after] in *; [done| | | |].
  - apply bind_Some_inv in E as ([o k1] & E1 & E). assert (o = Leaves \/ o <> Leaves) as [->|Ho] by (destruct o; [by right|by right|by left]).
    + injection E as <- <-. pose proof (syscall_leaves _ _ _ _ _ _ _ E1) as ->. rewrite Hr.
      assert (call_of n = Some Exit) as ->.
      { unfold syscall_dispatch in E1. destruct (call_of n) as [[]|]; try done.
        all: try (apply bind_Some_inv in E1 as ([r k1] & E2 & E1); discriminate E1).
        destruct (sys_close a k). discriminate E1. }
      split; [done|]. by exists (to_int a).
    + destruct (syscall_keeps _ _ _ _ _ _ _ _ E1 Ho) as [Ep Er]. rewrite Hr in Er.
      assert (match o with Leaves => Some (k1, h) | _ => run_user es k1 h end = run_user es k1 h) as Eo by (by destruct o).
      rewrite Eo in E. destruct (IH k1 h k' h' i E Er) as (Hh & status & Es & Hp).
      assert (call_of n <> Some Exit) as Hn.
      { intros Hn. unfold syscall_dispatch in E1. rewrite Hn in E1. apply Ho. by injection E1 as <- _. }
      rewrite Hp, Ep. destruct (call_of n) as [[]|]; try done; (split; [done|]; by exists status).
  - destruct (IH _ _ k' h' i E Hr) as (Hh & status & Es & Hp). split; [done|]. by exists status.
  - apply bind_Some_inv in E as (w & _ & E). destruct (IH _ _ k' h' i E Hr) as (Hh & status & Es & Hp). split; [done|]. by exists status.
  - injection E as <- <-. rewrite Hr. split; [done|]. by exists status.
Qed.
End user.

(** ** From the path to the exit code *)

Section outcome.
Context {M : Type} `{UserSpaces M} `{!PageMapperSpec M} `{PageRuns M} {S N F : Type} `{FileSystems S N F}.
Context (Hsize : forall n fs, 0 <= node_size n fs).
Implicit Types (s : launch M S F).

(** What loading a program does not touch. *)
Definition framed s s' : Prop :=
  running (kern s') = running (kern s) /\ open_files (kern s') = open_files (kern s) /\
  console (kern s') = console (kern s) /\ self s' = self s /\ cpu s' = cpu s.

(** Freeing [image] leaves the blocks of [l]. *)
Definition returns_to (l : list block) (image : Z) (h : heap) : Prop :=
  exists h', kfree image h = Some h' /\ same_blocks l h'.

Lemma read_image_spec path s l o s1 :
  Heap.inv (heap_ s) (space (user (kern s))) l -> read_image path s = Some (o, s1) ->
  framed s s1 /\ processes (kern s1) = processes (kern s) /\
  match o with None => same_blocks l (heap_ s1) | Some (image, _) => returns_to l image (heap_ s1) end.
Proof.
  intros Hi E. unfold read_image in E. cbv zeta in E.
  assert (same_blocks l (heap_ s)) as Hs0 by (exists l; split_and!; [apply (inv_links _ _ _ Hi)|apply (inv_used _ _ _ Hi)|done]).
  apply bind_Some_inv in E as ([st fs] & Est & E).
  assert (match st with Some x => 0 <= stat_size x | None => True end) as Hst.
  { unfold stat in Est. apply bind_Some_inv in Est as ([[n|] fs1] & _ & Est); injection Est as <- _; [apply Hsize|done]. }
  destruct st as [st|]; [|injection E as <- <-; by split_and!].
  destruct (Z.eqb_spec (stat_size st) 0); cbn [orb] in E; [injection E as <- <-; by split_and!|].
  destruct (Z.ltb_spec max_program_bytes (stat_size st)) as [|Hmax]; [injection E as <- <-; by split_and!|].
  apply bind_Some_inv in E as ([[image h] m] & Em & E).
  assert (0 <= stat_size st < 2 ^ 64) as Hsz by (change max_program_bytes with 1048576 in Hmax; lia).
  pose proof (buffer_returned _ _ _ _ _ _ _ Hi Hsz Em) as Hb. destruct (image =? 0); [injection E as <- <-; by split_and!|].
  destruct Hb as (h'' & Ef & Hs). apply bind_Some_inv in E as ([[rd data] fs'] & Er & E).
  destruct (rd <=? 0).
  - apply bind_Some_inv in E as (h1 & E1 & E). injection E as <- <-. cbn in E1. rewrite Ef in E1. injection E1 as <-. by split_and!.
  - injection E as <- <-. split_and!; [done..|]. by exists h''.
Qed.

Lemma make_process_spec path image data s l o s1 :
  returns_to l image (heap_ s) -> make_process path image data s = Some (o, s1) ->
  framed s s1 /\ same_blocks l (heap_ s1) /\
  match o with
  | None => processes (kern s1) = processes (kern s) \/ exists p, processes (kern s1) = processes (kern s) ++ [p]
  | Some i => i = length (processes (kern s)) /\ exists p, processes (kern s1) = processes (kern s) ++ [p]
  end.
Proof.
  intros (h & Ef & Hs) E. unfold make_process, allocate in E. cbv zeta in E. destruct (_ <=? _)%nat.
  { rewrite Ef in E. cbn in E. injection E as <- <-. split_and!; [done..|by left]. }
  rewrite lookup_app_r, Nat.sub_diag in E by lia. cbn [lookup list_lookup mbind option_bind] in E.
  apply bind_Some_inv in E as ([[ok p] w] & _ & E).
  destruct (if ok then map_stack p w else (false, p, w)) as [[ok' p'] w'].
  rewrite Ef in E. cbn [mbind option_bind] in E.
  assert (<[length (processes (kern s)):=p']> (processes (kern s) ++ [mkProcess (take_name (base_name path path))
    (Z.of_nat (length (processes (kern s))) + 1) Process.Ready 0 0 0 0]) = processes (kern s) ++ [p']) as Ep.
  { rewrite insert_app_r_alt, Nat.sub_diag by lia. done. }
  destruct ok'; injection E as <- <-; cbn [set_kern set_user set_processes kern processes heap_ set_heap]; rewrite Ep;
    (split; [done|]; split; [done|]); [split; [done|]; by exists p'|right; by exists p'].
Qed.

Lemma execute_spec es home i s r code s' ps p :
  processes (kern s) = ps ++ [p] -> i = length ps -> execute es home i s = Some (r, code, s') ->
  ((r = -1 /\ code = None /\ heap_ s' = heap_ s /\ framed s s' /\ processes (kern s') = processes (kern s)) \/
   (r = 0 /\ heap_ s' = heap_after es (heap_ s) /\ exists status, status_of es = Some status /\ code = Some status /\
      processes (kern s') = ps ++ [Process.exit status p] /\ running (kern s') = None /\ self s' = with_thread 0 0 (self s))).
Proof.
  intros Hps -> E. unfold execute in E. cbv zeta in E. destruct (pr_alloc _ _) as [stack m] eqn:Es.
  destruct (stack =? 0); [injection E as <- <- <-; left; by split_and!|].
  cbn [set_space set_user processes activate] in E. apply bind_Some_inv in E as ([k h] & Ek & E).
  destruct (run_user_exits _ _ _ _ _ (length ps) Ek eq_refl) as (Hh & status & Est & Hk). cbn [processes set_running set_processes] in Hk.
  rewrite Hps in Hk. apply bind_Some_inv in E as (q & Eq & E). injection E as <- <- <-. right. split; [done|]. split; [done|].
  exists status. cbn [set_space set_user set_running processes kern running self] in *. rewrite Hk in Eq |- *.
  rewrite !alter_app_r_alt, !Nat.sub_diag in * by lia.
  rewrite lookup_app_r, Nat.sub_diag in Eq by lia. injection Eq as <-.
  split_and!; [done..|]. unfold with_thread. by destruct (self s).
Qed.

(** C14: Running a program is all or nothing.  Whatever the file holds and the program does,
    when [process_run] returns there is a heap [h0] with exactly the blocks of the one it
    began with (the image's buffer has been given back on every path, before the program is
    entered), and: either it returned -1, the program never ran, the heap is [h0] and what the kernel keeps for
    programs is as it was, but for at most one more process slot; or it returned 0, the
    heap is [h0] but for what the program's own calls stored in files, the exit
    code is the one the program passed to exit or the fault's, nobody is running, and
    the thread is back to its own stack and address space. *)
Theorem process_run_outcome es path s r code s' l :
  Heap.inv (heap_ s) (space (user (kern s))) l -> process_run es path s = Some (r, code, s') ->
  exists h0, same_blocks l h0 /\
  ((r = -1 /\ code = None /\ heap_ s' = h0 /\ framed s s' /\
    (processes (kern s') = processes (kern s) \/ exists p, processes (kern s') = processes (kern s) ++ [p])) \/
   (r = 0 /\ heap_ s' = heap_after es h0 /\ exists status p, status_of es = Some status /\ code = Some status /\
    processes (kern s') = processes (kern s) ++ [Process.exit status p] /\
    running (kern s') = None /\ self s' = with_thread 0 0 (self s))).
Proof.
  intros Hi E. unfold process_run in E. apply bind_Some_inv in E as ([o s1] & E1 & E).
  destruct (read_image_spec _ _ _ _ _ Hi E1) as (F1 & P1 & Hb1). destruct o as [[image data]|].
  2:{ injection E as <- <- <-. eexists. split; [done|]. left. split_and!; [done..|by left]. }
  cbv zeta in E. apply bind_Some_inv in E as ([o s2] & E2 & E).
  destruct (make_process_spec _ _ _ _ _ _ _ Hb1 E2) as (F2 & Hb2 & P2). rewrite P1 in P2.
  assert (framed s s2) as F12 by (destruct F1 as (A1 & A2 & A3 & A4 & A5), F2 as (B1 & B2 & B3 & B4 & B5); split_and!; congruence).
  destruct o as [i|]; [|injection E as <- <- <-; eexists; split; [done|]; left; by split_and!].
  destruct P2 as (-> & p & P2). exists (heap_ s2). split; [done|].
  destruct (execute_spec _ _ _ _ _ _ _ _ _ P2 eq_refl E) as [(-> & -> & Eh & F3 & P3)|(-> & Eh & st & Hst & -> & P3 & R3 & T3)].
  - left. destruct F12 as (A1 & A2 & A3 & A4 & A5), F3 as (B1 & B2 & B3 & B4 & B5).
    do 3 (split; [done|]). split; [split_and!; congruence|]. right. exists p. congruence.
  - right. split; [done|]. split; [done|]. exists st, p. destruct F12 as (_ & _ & _ & A4 & _). split_and!; [done..|]. by rewrite T3, A4.
Qed.
End outcome.

(** ** A program that runs *)

(** The page tables over the page allocator. *)
#[export] Instance space_runs : PageRuns (@Paging.space PageAlloc.state) := {|
  pr_alloc s n := on_space s (fun st _ => let (f, a) := PageAlloc.alloc_pages (frames st) n in (f, Paging.mk (tables st) a));
  pr_free s f n := Space (space_root s) (Paging.mk (tables (space_tables s)) (PageAlloc.free_pages (frames (space_tables s)) f n));
  us_root := space_root;
  us_return home s := Space (space_root home) (space_tables s)
|}.

(** A file system of one file, the program of Process.v. *)
#[local] Instance program_file : FileSystems unit unit unit := {|
  fs_name _ := [120]; fs_root _ s := Some (Some tt, s); node_type _ _ := File; node_size _ _ := Z.of_nat (length demo_file);
  node_read _ o n s := Some (n, take (Z.to_nat n) (drop (Z.to_nat o) demo_file), s); node_write _ _ b s := Some (-1, s);
  node_lookup _ _ s := Some (Some tt, s); node_entry_at _ _ s := Some (None, s) |}.

Definition demo_launch (h : heap) (m : @Paging.space PageAlloc.state) : launch (@Paging.space PageAlloc.state) unit unit :=
  mkLaunch (mkKernel (replicate 8 (mkFile false 0 [])) (Console.mk [7] []) [mkMount [47] tt] tt [] None (mkWorld m ∅))
    h (Some zero_thread) zero_cpu.

(** It stores to its memory, asks for its id and leaves with 42. *)
Definition demo_events : list (event (@Paging.space PageAlloc.state)) := [Store (user_base + 0x1000) 7; Call 5 3 0 0 0; Call 6 0 42 0 0].

Definition demo_result : option (Z * option Z * list Process) :=
  '(h, v, m) ← heap_init empty_heap Vmalloc.fresh Vmalloc.demo_space;
  '(r, code, s) ← process_run demo_events [47; 102] (demo_launch h m);
  Some (r, code, processes (kern s)).

Lemma demo_result_ok : (fun x => (x.1.1, x.1.2)) <$> demo_result = Some (0, Some 42).
Proof. vm_compute. reflexivity. Qed.

Lemma process_run_outcome_witness : exists h m s',
  process_run demo_events [47; 102] (demo_launch h m) = Some (0, Some 42, s') /\
  length (processes (kern s')) = 1%nat /\ running (kern s') = None.
Proof.
  pose proof demo_result_ok as E. unfold demo_result in E.
  destruct (heap_init empty_heap Vmalloc.fresh Vmalloc.demo_space) as [[[h v] m]|] eqn:E1; [|discriminate E].
  cbn [mbind option_bind] in E. exists h, m.
  destruct (process_run demo_events [47; 102] (demo_launch h m)) as [[[r code] s']|] eqn:E2; [|discriminate E].
  cbn [mbind option_bind fmap option_fmap option_map fst snd] in E. injection E as -> ->.
  destruct (heap_init_inv _ _ _ _ _ _ _ Vmalloc.fresh_inv demo_frames_ok E1) as (l & Hi & _).
  assert (forall (n : unit) (fs : unit), 0 <= node_size n fs) as Hs by (intros; cbn; lia).
  destruct (process_run_outcome Hs demo_events [47; 102] (demo_launch h m) 0 (Some 42) s' l Hi E2)
    as (h0 & _ & [(Hr & _)|(_ & _ & status & p & _ & _ & Hp & Hrun & _)]); [discriminate Hr|].
  exists s'. split; [reflexivity|]. split; [rewrite Hp; reflexivity|exact Hrun].
Defined.
