(* ===== verification/Boot.v ===== *)
(** * The second half of the boot (src/kernel/main.cpp)

    What [kernel_init] does between the components: the modules of the boot archive
    are loaded and started unless the command line says otherwise, and the programs it
    carries are copied into the root file system.  The archive and the command line are
    byte memory, the module table, the loader's machine and the memory file system are
    the states of their components.  [None] is a read outside mapped memory. *)

From S2P Require Import Prelude Interfaces Memory Process Syscall Launch Block Vfs Cmdline Initrd Symbols Modules Loader Ramfs FileSystems.

Definition comma : Z := 44.

(** ** The blacklist *)

(** [*p != '\0' && *p != ','] *)
Definition in_part (c : Z) : bool := negb (c =? 0) && negb (c =? comma).

(** The loop over the parts between commas; every turn consumes a byte of the list. *)
Fixpoint blacklist_loop (fuel : nat) (m : memory) (p : Z) (name : list Z) : option bool :=
  match fuel with
  | O => None
  | S fuel =>
    c ← m !! p;
    if c =? 0 then Some false
    else
      e ← Cmdline.skip (S (size m)) in_part m p;
      hit ← (if e - p =? Z.of_nat (length name) then literal_at m p name else Some false);
      if (hit : bool) then Some true
      else c ← m !! e; blacklist_loop fuel m (if c =? comma then e + 1 else e) name
  end.

(** [key] is where "modules.blacklist" stands; [name] is the module's name. *)
Definition blacklisted (s : Cmdline.state) (key : Z) (name : list Z) : option bool :=
  list ← cmdline_value s key;
  match list with
  | None => Some false
  | Some p => blacklist_loop (S (size (Cmdline.mem s))) (Cmdline.mem s) p name
  end.

(** The bytes of a range. *)
Definition bytes_of (m : memory) (a len : Z) : option (list Z) := mapM (fun i => m !! (a + i)) (seqZ 0 len).

(** "modules/" and "bin/". *)
Definition modules_prefix : list Z := [109; 111; 100; 117; 108; 101; 115; 47].
Definition bin_prefix : list Z := [98; 105; 110; 47].

(** ** Modules from the archive *)

Section modules.
Context {M W : Type} `{PageMapper M} (stale : Z -> Z) (kernel : list ExportedSymbol)
  (construct : Z -> gmap Z Z -> gmap Z Z) (run_init : ModuleInfo -> W -> Z * W).

(** The first loop: [n] files are left, the next is number [i]. *)
Fixpoint load_images (n : nat) (i : Z) (m : memory) (a : Initrd.state) (s : machine (M := M)) (t : table W) :
    option (machine (M := M) * table W) :=
  match n with
  | O => Some (s, t)
  | S n =>
    '(data, name, len) ← initrd_data_at m a i;
    if (data =? 0) || (len =? 0) || (name =? 0) then load_images n (i + 1) m a s t
    else
      is_module ← literal_at m name modules_prefix;
      if negb (is_module : bool) then load_images n (i + 1) m a s t
      else
        image ← bytes_of m data len;
        '(_, s, t) ← module_load_image stale kernel construct image s t;
        load_images n (i + 1) m a s t
  end.

(** The second loop; the table has at most [max_modules] entries. *)
Fixpoint start_registered (fuel i : nat) (black : list Z -> option bool) (t : table W) : option (table W) :=
  match fuel with
  | O => Some t
  | S fuel =>
    match module_at i t with
    | None => Some t
    | Some m =>
      if negb (bool_decide (state_ m = Registered)) then start_registered fuel (S i) black t
      else
        skip ← black (Modules.name (info m));
        if (skip : bool) then start_registered fuel (S i) black t
        else '(_, t) ← module_load run_init (Modules.name (info m)) t; start_registered fuel (S i) black t
    end
  end.

(** [noload] and [key] are where the strings "modules.noload" and "modules.blacklist"
    stand. *)
Definition load_initrd_modules (c : Cmdline.state) (noload key : Z) (m : memory) (a : Initrd.state)
    (s : machine (M := M)) (t : table W) : option (machine (M := M) * table W) :=
  off ← (if initrd_available a then cmdline_has c noload else Some true);
  if (off : bool) then Some (s, t)
  else
    '(s, t) ← load_images (Z.to_nat (initrd_file_count a)) 0 m a s t;
    t ← start_registered max_modules 0 (blacklisted c key) t;
    Some (s, t).
End modules.

(** ** Programs from the archive *)

(** The copy loop of [start_init]: the base name is found before the prefix is looked
    at, a program goes to the start of its file. *)
Fixpoint copy_programs (n : nat) (i : Z) (m : memory) (a : Initrd.state) (room : Z -> bool) (files : list RamFile) :
    option (list RamFile) :=
  match n with
  | O => Some files
  | S n =>
    '(data, name, len) ← initrd_data_at m a i;
    if (data =? 0) || (name =? 0) || (len =? 0) then copy_programs n (i + 1) m a room files
    else
      base ← base_loop (S (size m)) m name name;
      is_program ← literal_at m name bin_prefix;
      if negb (is_program : bool) then copy_programs n (i + 1) m a room files
      else
        base ← string_from (S (size m)) (fun a => m !! a) base;
        let (r, files) := ramfs_create_file base files in
        match r with
        | None => copy_programs n (i + 1) m a room files
        | Some k =>
          image ← bytes_of m data len;
          f ← files !! k;
          '(_, f) ← Ramfs.write room 0 image f;
          copy_programs n (i + 1) m a room (<[k := f]> files)
        end
  end.

(** The rest of [start_init]: [init] and [noinit] are where the two keys stand, [es] is
    what the program does.  The exit code, when a program ran. *)
Section init.
Context {M D A : Type} `{UserSpaces M} `{PageRuns M} `{BlockDevice D} `{FrameAllocator A}.

Definition on_files (f : system D A -> system D A) (s : launch M (system D A) fs) : launch M (system D A) fs :=
  set_kern (Syscall.set_files (f (Syscall.files (kern s))) (kern s)) s.

Definition start_init (c : Cmdline.state) (init noinit : Z) (m : memory) (a : Initrd.state) (es : list (event M))
    (s : launch M (system D A) fs) : option (option Z * launch M (system D A) fs) :=
  value ← cmdline_value c init;
  path ← (match value with
          | None => Some (literal "/init")
          | Some p => string_from (S (size (Cmdline.mem c))) (fun x => Cmdline.mem c !! x) p
          end);
  off ← cmdline_has c noinit;
  if (off : bool) then Some (None, s)
  else
    let sys := Syscall.files (kern s) in
    copied ← copy_programs (Z.to_nat (initrd_file_count a)) 0 m a (room sys) (files sys);
    let s := on_files (set_files copied) s in
    '(status, sys) ← stat (Syscall.mounts (kern s)) (Some path) (Syscall.files (kern s));
    let s := on_files (fun _ => sys) s in
    match status with
    | None => Some (None, s)
    | Some _ => '(_, code, s) ← process_run es path s; Some (code, s)
    end.
End init.

(** ** The blacklist means what it says *)









(** ** What loading a module leaves alone *)

Section spared.
Context {W : Type} (run_init : ModuleInfo -> W -> Z * W) (P : list Z -> Prop).
Implicit Types (t : table W).

Definition spared (m m' : Module_) : Prop :=
  info m' = info m /\ (~ P (Modules.name (info m)) -> state_ m' = state_ m).

(** The table keeps its modules, and the state of those whose name is not in [P]. *)
Definition spares t t' : Prop := Forall2 spared (active t) (active t').


#[local] Instance spares_pre : PreOrder spares.
Proof.
  split.
  - intros t. apply Forall2_same_length_lookup_2; [done|]. intros i x y Hx Hy. assert (x = y) as -> by congruence. by split.
  - intros t1 t2 t3 H1 H2. eapply Forall2_trans; [|exact H1|exact H2].
    intros m1 m2 m3 [E1 S1] [E2 S2]. split; [congruence|].
    intros Hn. rewrite S2, S1; [done|done|by rewrite E1].
Qed.






End spared.


(** ** Every module that may start starts *)

Section started.
Context {W : Type} (run_init : ModuleInfo -> W -> Z * W) (rank : list Z -> nat) (Hinit : forall i w, (run_init i w).1 = 0).
Implicit Types (t : table W).





End started.

Definition blacklist_key : list Z := literal "modules.blacklist".



(** ** A small machine *)

#[local] Instance no_pages : PageMapper unit := {|
  pm_alloc m := (0, m); pm_free m _ := m; pm_map m _ _ _ _ := (false, m); pm_unmap m _ _ := (false, m);
  pm_protect m _ _ _ := (false, m); pm_translate _ _ := 0; pm_wf _ _ := True |}.

(** A list of names at 0x100, the keys at 0x200 and 0x300. *)
Definition line_memory (line : list Z) : memory :=
  place 0x100 (line ++ [0]) ∪ place 0x200 (blacklist_key ++ [0]) ∪ place 0x300 (literal "modules.noload" ++ [0]).

Definition a_line : list Z := blacklist_key ++ [61; 97].
Definition a_cmdline : memory := Eval vm_compute in line_memory a_line.
Definition a_c : Cmdline.state := Cmdline.mk a_cmdline [0x100].


(** The archive of Initrd.v holds no modules; the table has "b", which needs "a". *)
Definition demo_boot (c : Cmdline.state) : option (machine * table unit) :=
  load_initrd_modules (fun _ => 0) [] (fun _ m => m) good_init c 0x300 0x200 demo_archive (Initrd.mk 0x8000 0x600 1)
    (mkMachine (Vmalloc.mk [] true) tt ∅) demo_idle.

Definition summary (t : table unit) : list (list Z * ModuleState) := (fun m => (Modules.name (info m), state_ m)) <$> active t.




(** The blacklist keeps a module from being started for its own sake only: "a" is on
    it, and runs because "b" needs it. *)
Lemma blacklisted_dependency_starts :
  blacklisted a_c 0x200 [97] = Some true /\ summary <$> (snd <$> demo_boot a_c) = Some [([98], Ready); ([97], Ready)].
Proof. split; vm_compute; reflexivity. Qed.

(** ** The programs of the archive are files of the root directory *)

(** The file objects not in use. *)
Fixpoint unused (files : list RamFile) : nat :=
  match files with [] => 0 | f :: files => (if used_ f then 0 else 1) + unused files end.

Lemma unused_insert files : forall k f g, files !! k = Some f -> used_ f = false -> used_ g = true ->
  unused files = S (unused (<[k := g]> files)).
Proof.
  induction files as [|x files IH]; intros [|k] f g Hk Hf Hg; [done|done| |].
  - injection Hk as ->. cbn. by rewrite Hf, Hg.
  - change (<[S k := g]> (x :: files)) with (x :: <[k := g]> files). cbn [unused]. rewrite (IH k f g Hk Hf Hg). lia.
Qed.

Lemma unused_found files : unused files <> 0%nat -> is_Some (find_unused files).
Proof.
  intros Hu. pose proof (find_unused_spec files) as H. destruct (find_unused files); [done|]. exfalso. apply Hu. clear Hu.
  induction files as [|f files IH]; [done|]. cbn. rewrite (H f) by left. apply IH. intros g Hg. apply H. by right.
Qed.

Lemma insert_alter {A} (l : list A) : forall k g x, <[k := x]> (alter g k l) = <[k := x]> l.
Proof. induction l as [|y l IH]; intros [|k] g x; [done..|]. change (y :: <[k := x]> (alter g k l) = y :: <[k := x]> l). by rewrite IH. Qed.

Lemma insert_as_alter {A} (l : list A) : forall k x, <[k := x]> l = alter (fun _ => x) k l.
Proof. induction l as [|y l IH]; intros [|k] x; [done..|]. change (y :: <[k := x]> l = y :: alter (fun _ => x) k l). by rewrite IH. Qed.

(** A new name hides no other. *)
Lemma find_fresh files : forall k f g other, files !! k = Some f -> used_ f = false -> name_ g <> other ->
  Ramfs.find other (<[k := g]> files) = Ramfs.find other files.
Proof.
  induction files as [|x files IH]; intros [|k] f g other Hk Hf Hg; [done|done| |].
  - injection Hk as ->. cbn. by rewrite Hf, bool_decide_eq_false_2, andb_false_r by done.
  - change (<[S k := g]> (x :: files)) with (x :: <[k := g]> files). cbn [Ramfs.find].
    by rewrite (IH k f g other Hk Hf Hg).
Qed.

(** A whole file, read from its start. *)
Definition holds (f : RamFile) (image : list Z) : Prop :=
  size_ f = Z.of_nat (length image) /\ forall n, size_ f <= n -> Ramfs.read f 0 n = Some (Z.of_nat (length image), image).

Lemma write_holds room image f :
  Ramfs.wf f -> size_ f = 0 -> (forall n, room n = true) -> Z.of_nat (length image) <= 2 ^ 63 ->
  exists f', Ramfs.write room 0 image f = Some (Z.of_nat (length image), f') /\ Ramfs.wf f' /\ holds f' image.
Proof.
  intros Hw Hz Hroom Hl. destruct (write_spec room 0 image f Hw ltac:(lia) ltac:(lia)) as (r & f' & E & Hw' & H).
  destruct H as [(_ & _ & n & _ & Hn)|(-> & Hs & Hb)]; [by rewrite Hroom in Hn|]. exists f'. split_and!; [done|done|].
  assert (size_ f' = Z.of_nat (length image)) as Hs' by lia. split; [done|]. intros n Hn.
  destruct (read_spec f' 0 n Hw' ltac:(lia) ltac:(lia)) as (bytes & -> & Hbl & Hbb).
  assert (length bytes = length image) as El by lia. rewrite El. do 2 f_equal. apply (nth_ext _ _ 0 0 El). intros k Hk.
  specialize (Hbb (Z.of_nat k) ltac:(lia)). rewrite Nat2Z.id, Hb, decide_True in Hbb by lia.
  rewrite Hbb. f_equal. lia.
Qed.

(** One turn of the loop for a program whose name is new. *)
Lemma install_spec room name image files :
  directory_ok files -> (length name <= 31)%nat -> Ramfs.find name files = None -> unused files <> 0%nat ->
  (forall n, room n = true) -> Z.of_nat (length image) <= 2 ^ 63 ->
  exists k files1 f f', ramfs_create_file name files = (Some k, files1) /\ files1 !! k = Some f /\
    Ramfs.write room 0 image f = Some (Z.of_nat (length image), f') /\
    let files2 := <[k := f']> files1 in
    directory_ok files2 /\ Ramfs.find name files2 = Some k /\ files2 !! k = Some f' /\ holds f' image /\
    unused files = S (unused files2) /\
    (forall other, other <> name -> Ramfs.find other files2 = Ramfs.find other files) /\
    (forall j, j <> k -> files2 !! j = files !! j) /\ exists f0, files !! k = Some f0 /\ used_ f0 = false.
Proof.
  intros Hd Hl Hf Hu Hroom Hi. unfold ramfs_create_file. rewrite Hf. destruct (unused_found files Hu) as [k Hk]. rewrite Hk.
  pose proof (find_unused_spec files) as Hs. rewrite Hk in Hs. destruct Hs as (f0 & H0 & Hun).
  destruct (dir_unused _ Hd f0) as (E1 & E2 & E3); [by eapply list_elem_of_lookup_2|done|].
  set (f := bind name f0). assert (Ramfs.wf f) as Hw by (constructor; cbn; rewrite ?E1, ?E2, ?E3; [done|lia|by left]).
  destruct (write_holds room image f Hw E2 Hroom Hi) as (f' & Ew & Hw' & Hh).
  destruct (write_keeps _ _ _ _ _ _ Ew) as [En Eu].
  assert (name_ f' = name) as Hn by (rewrite En; cbn; by rewrite take_ge by (unfold Ramfs.max_name; lia)).
  assert (used_ f' = true) as Hu' by (by rewrite Eu).
  exists k, (alter (bind name) k files), f, f'. split; [done|]. split; [by rewrite list_lookup_alter_eq, H0|]. split; [done|].
  cbv zeta. rewrite insert_alter.
  pose proof (lookup_lt_Some _ _ _ H0) as Hlt.
  assert (directory_ok (<[k := f']> files)) as Hd2.
  { rewrite insert_as_alter. eapply directory_alter; [done|exact H0|done| |congruence]. intros _ j g Hj _ Hug. rewrite Hn.
    pose proof (ram_find_spec name files) as H. rewrite Hf in H. apply H; [by eapply list_elem_of_lookup_2|done]. }
  assert (<[k := f']> files !! k = Some f') as Hk' by (by apply list_lookup_insert_eq).
  split_and!; [done| |done|done|by eapply unused_insert| |intros j Hj; by rewrite list_lookup_insert_ne|by exists f0].
  - pose proof (ram_find_spec name (<[k := f']> files)) as H. destruct (Ramfs.find name (<[k := f']> files)) as [j|].
    + destruct H as (g & Hj & Hug & Hng). f_equal. eapply (dir_unique _ Hd2 j k g f'); [done..|congruence].
    + exfalso. apply (H f'); [by eapply list_elem_of_lookup_2|done|done].
  - intros other Ho. eapply find_fresh; [exact H0|done|congruence].
Qed.

Lemma string_from_spec m b : forall fuel p, cstring m p b -> (length b < fuel)%nat -> string_from fuel (fun a => m !! a) p = Some b.
Proof.
  induction b as [|c b IH]; intros [|fuel] p Hc Hf; [cbn in Hf; lia| |cbn in Hf; lia|];
    cbn [string_from]; rewrite (cstring_head _ _ _ Hc); cbn [mbind option_bind hd]; [done|].
  pose proof (proj2 Hc) as Hn. inversion Hn as [|? ? Hc0 _]; subst. rewrite (proj2 (Z.eqb_neq _ _) Hc0).
  rewrite (IH fuel (p + 1)); [done|by eapply cstring_tail|cbn in Hf; lia].
Qed.

Lemma literal_prefix m lit : forall p n, cstring m p n -> Forall (fun c => c <> 0) lit ->
  literal_at m p lit = Some (bool_decide (lit `prefix_of` n)).
Proof.
  induction lit as [|x lit IH]; intros p n Hc Hl; cbn [literal_at].
  { done. }
  inversion Hl as [|? ? Hx Hl']; subst. rewrite (cstring_head _ _ _ Hc). cbn [mbind option_bind].
  destruct n as [|c n]; cbn [hd].
  { by rewrite (proj2 (Z.eqb_neq _ _)). }
  destruct (Z.eqb_spec c x) as [->|Hne].
  - rewrite (IH (p + 1) n) by (done || by eapply cstring_tail). f_equal. apply bool_decide_ext.
    split; [apply prefix_cons|by intros Hp%prefix_cons_inv_2].
  - f_equal. symmetry. apply bool_decide_eq_false. intros Hp%prefix_cons_inv_1. congruence.
Qed.

Section programs.
Context (m : memory) (a : Initrd.state) (names base : Z * Z -> list Z) (room : Z -> bool).
Context (Hread : readable m a) (Hroom : forall n, room n = true).

(** The entry's data. *)
Definition data_of (e : Z * Z) : list Z := default [] (bytes_of m (e.1 + block_size) e.2).

Definition is_program (e : Z * Z) : bool := negb (e.2 =? 0) && bool_decide (bin_prefix `prefix_of` names e).
Definition programs (l : list (Z * Z)) : list (Z * Z) := List.filter is_program l.

(** An entry of the archive with a terminated name. *)
Definition entry_ok (e : Z * Z) : Prop :=
  inside a e /\ cstring m e.1 (names e) /\ is_basename (names e) (base e).

Lemma data_of_spec e : inside a e -> bytes_of m (e.1 + block_size) e.2 = Some (data_of e) /\ Z.of_nat (length (data_of e)) = e.2.
Proof.
  intros (I1 & I2 & I3). unfold data_of, bytes_of.
  assert (is_Some (mapM (fun i => m !! (e.1 + block_size + i)) (seqZ 0 e.2))) as [l E].
  { apply mapM_is_Some_2, Forall_forall. intros i Hi%elem_of_seqZ. destruct Hread as [Hm _ _].
    destruct (Hm (e.1 + block_size + i - archive a)) as [x Hx]; [unfold block_size in *; lia|].
    exists x. rewrite <- Hx. f_equal. lia. }
  rewrite E. split; [done|]. apply mapM_Some, Forall2_length in E. rewrite length_seqZ in E. cbn. lia.
Qed.

Lemma data_at_spec l i : entries (blocks a) m a 0 = Some l -> 0 <= i -> i + Z.of_nat (length l) < 2 ^ 64 ->
  initrd_data_at m a i = Some (match Initrd.files m l !! Z.to_nat i with
    | Some e => (e.1 + block_size, e.1 + tar_name, e.2) | None => (0, 0, 0) end).
Proof.
  intros El Hi Hlim. destruct (archive_entries m a Hread) as (l' & El' & Hl). rewrite El in El'. injection El' as <-.
  unfold initrd_data_at. rewrite (walk_run _ _ _ _ _ _ l El), (run_index m a) by (done || lia). rewrite Z.sub_0_r.
  by destruct (Initrd.files m l !! Z.to_nat i) as [[h sz]|].
Qed.

(** The base name the loop finds. *)
Lemma base_found e : entry_ok e -> exists p, base_loop (S (size m)) m e.1 e.1 = Some p /\ cstring m p (base e).
Proof.
  intros (_ & Hc & Hb). destruct (base_loop_spec (S (size m)) m e.1 [] (names e)) as (d & b & E & Hs & Hd & El);
    [done|by intros ?%elem_of_nil|by eapply cstring_fuel|].
  cbn in E, El. rewrite Z.add_0_r in El. exists (e.1 + Z.of_nat (length d)). split; [done|].
  assert (b = base e) as <-; [|rewrite E in Hc; by apply cstring_drop].
  apply (is_basename_unique (names e)); [|done]. split; [done|by exists d].
Qed.

(** The file of a program. *)
Definition installed (files : list RamFile) (e : Z * Z) : Prop :=
  exists k f, Ramfs.find (base e) files = Some k /\ files !! k = Some f /\ holds f (data_of e).

Lemma copy_programs_spec post : forall i files,
  (forall j e, post !! j = Some e -> initrd_data_at m a (i + Z.of_nat j) = Some (e.1 + block_size, e.1 + tar_name, e.2)) ->
  Forall entry_ok post -> directory_ok files -> (length (programs post) <= unused files)%nat -> NoDup (base <$> programs post) ->
  (forall e, e ∈ programs post -> Ramfs.find (base e) files = None /\ (length (base e) <= 31)%nat) ->
  exists files', copy_programs (length post) i m a room files = Some files' /\ directory_ok files' /\
    (forall e, e ∈ programs post -> installed files' e) /\
    (forall name k f, Ramfs.find name files = Some k -> files !! k = Some f -> used_ f = true ->
       (forall e, e ∈ programs post -> base e <> name) -> Ramfs.find name files' = Some k /\ files' !! k = Some f).
Proof.
  induction post as [|e post IH]; intros i files Hat Hok Hd Hun Hnd Hnew; cbn [length copy_programs].
  { exists files. split_and!; [done|done|intros e He; by apply elem_of_nil in He|done]. }
  inversion Hok as [|? ? He Hok']; subst. pose proof He as (Hin & Hc & Hb). pose proof Hin as (I1 & I2 & I3).
  assert (forall j e', post !! j = Some e' -> initrd_data_at m a (i + 1 + Z.of_nat j) = Some (e'.1 + block_size, e'.1 + tar_name, e'.2)) as Hat'.
  { intros j e' Hj. rewrite <- (Hat (S j) e' Hj). f_equal. lia. }
  pose proof (Hat 0%nat e eq_refl) as E0. rewrite Z.add_0_r in E0. rewrite E0. cbn [mbind option_bind].
  unfold tar_name. rewrite !Z.add_0_r. pose proof (rd_archive _ _ Hread) as Ha.
  rewrite (proj2 (Z.eqb_neq (e.1 + block_size) 0)), (proj2 (Z.eqb_neq e.1 0)) by (unfold block_size; lia). cbn [orb].
  unfold programs in *. cbn [List.filter] in *. assert (is_program e = negb (e.2 =? 0) && bool_decide (bin_prefix `prefix_of` names e)) as Eip by done.
  rewrite Eip in Hun, Hnd, Hnew |- *. clear Eip.
  destruct (Z.eqb_spec e.2 0) as [Ez|Ez]; cbn [negb andb] in *; [by apply IH|].
  destruct (base_found e He) as (p & Ep & Hp). rewrite Ep. cbn [mbind option_bind].
  rewrite (literal_prefix m bin_prefix _ (names e) Hc) by (repeat constructor; lia). cbn [mbind option_bind].
  case_bool_decide as Hpre; cbn [negb] in *; [|by apply IH].
  rewrite (string_from_spec m (base e) _ _ Hp) by (by eapply cstring_fuel). cbn [mbind option_bind length] in *.
  destruct (Hnew e) as [Hnone Hlen]; [left|]. destruct (data_of_spec e Hin) as [Ed El].
  assert (archive_length a < 2 ^ 32) as Hal by apply (rd_length _ _ Hread).
  destruct (install_spec room (base e) (data_of e) files) as (k & files1 & f & f' & Ec & Hk & Ew & Hd2 & Hf2 & Hk2 & Hh & Hu2 & Ho2 & Hj2 & f0 & H0 & Hu0);
    [done|done|done|lia|done|unfold block_size in *; lia|].
  rewrite Ec, Ed, Hk. cbn [mbind option_bind]. rewrite Ew. cbn [mbind option_bind].
  rewrite fmap_cons in Hnd. apply NoDup_cons in Hnd as [Hni Hnd].
  assert (forall e', e' ∈ List.filter is_program post -> base e' <> base e) as Hother.
  { intros e' He' E. apply Hni. rewrite <- E. by apply list_elem_of_fmap_2. }
  destruct (IH (i + 1) (<[k := f']> files1)) as (files' & E & Hd' & Hinst & Hkeep); [done|done|done|unfold programs; lia|done| |].
  { intros e' He'. destruct (Hnew e') as [H1 H2]; [by right|]. split; [|done]. rewrite Ho2; [done|by apply Hother]. }
  exists files'. split_and!; [done|done| |].
  - intros e' [->|He']%elem_of_cons; [|by apply Hinst]. exists k, f'.
    destruct (Hkeep (base e) k f') as [A B]; [done|done| |done|done].
    pose proof (ram_find_spec (base e) (<[k := f']> files1)) as Hs. rewrite Hf2 in Hs. destruct Hs as (g & Hg & Hug & _). congruence.
  - intros name j g Hn Hj Hug Hall. assert (j <> k) as Hjk by (intros ->; congruence).
    apply Hkeep; [|by rewrite Hj2|done|intros e' He'; apply Hall; by right].
    rewrite Ho2; [done|]. apply not_eq_sym, Hall. by left.
Qed.
End programs.

Lemma entries_length m s fuel : forall o l, entries fuel m s o = Some l -> (length l < fuel)%nat.
Proof.
  induction fuel as [|fuel IH]; intros o l E; [done|]. cbn [entries] in E.
  destruct (Initrd.entry_at m s o) as [[[? ?]|]|]; cbn [mbind option_bind] in E; [|injection E as <-; simpl; lia|done].
  apply bind_Some_inv in E as (l1 & E1 & E). injection E as <-. apply IH in E1. simpl. lia.
Qed.

(** C19: The programs the loader brought are files: when the archive's programs have base
    names of their own that are plain and new, the directory has room for them and the
    heap does not run out, the copy loop of [start_init] neither faults nor skips one,
    and afterwards "/name" is a file of the program's size whose bytes are those in the
    archive. *)
Theorem programs_installed {D A} `{BlockDevice D} `{FrameAllocator A} m a names base l has_ext2 (sys : system D A) :
  readable m a -> entries (blocks a) m a 0 = Some l -> initrd_file_count a = Z.of_nat (length (Initrd.files m l)) ->
  Forall (entry_ok m a names base) (Initrd.files m l) ->
  let ps := programs names (Initrd.files m l) in
  NoDup (base <$> ps) -> (forall e, e ∈ ps -> plain_name (base e) /\ Ramfs.find (base e) (files sys) = None) ->
  directory_ok (files sys) -> (length ps <= unused (files sys))%nat -> (forall n, room sys n = true) ->
  exists files', copy_programs (Z.to_nat (initrd_file_count a)) 0 m a (room sys) (files sys) = Some files' /\
    let sys' := set_files files' sys in
    let ms := mount_filesystems has_ext2 in
    forall e, e ∈ ps ->
      Vfs.stat ms (Some (47 :: base e)) sys' = Some (Some (Vfs.mkStat Vfs.File e.2), sys') /\
      Vfs.read_file ms (Some (47 :: base e)) e.2 sys' = Some (e.2, data_of m e, sys').
Proof.
  intros Hr El Hcount Hok ps Hnd Hps Hd Hun Hroom.
  assert (Z.of_nat (length l) < 2 ^ 33) as Hlen.
  { apply entries_length in El. unfold blocks, block_size in El. destruct Hr as [_ _ Hl].
    assert (0 <= archive_length a / 512 <= 2 ^ 32) by dlia. lia. }
  assert (length (Initrd.files m l) <= length l)%nat as Hfl by (unfold Initrd.files; apply List.filter_length_le).
  destruct (copy_programs_spec m a names base (room sys) Hr Hroom (Initrd.files m l) 0 (files sys)) as (files' & E & _ & Hinst & _); try done.
  { intros j e Hj. pose proof (lookup_lt_Some _ _ _ Hj). rewrite (data_at_spec m a Hr l) by (done || lia).
    rewrite Z.add_0_l, Nat2Z.id, Hj. done. }
  { intros e He. destruct (Hps e He) as [(_ & Hl & _) Hf]. by split. }
  exists files'. rewrite Hcount, Nat2Z.id. split; [done|]. cbv zeta. intros e He.
  destruct (Hinst e He) as (k & f & Hf & Hk & Hs & Hrd). destruct (Hps e He) as [Hp _].
  assert (entry_ok m a names base e) as (Hin & _).
  { unfold ps, programs in He. apply list_elem_of_In, filter_In in He as [He _]. rewrite Forall_forall in Hok. apply Hok. by apply list_elem_of_In. }
  destruct (data_of_spec m a Hr e Hin) as [_ Hdl]. rewrite Hdl in *. unfold Vfs.stat, Vfs.read_file.
  rewrite !resolve_plain by done. cbn [set_files files]. rewrite Hf.
  cbn [option_map mbind option_bind Vfs.node_type Vfs.node_size Vfs.node_read all_filesystems type_of size_of read_node set_files files].
  rewrite Hk, Hs. cbn [mbind option_bind]. split; [done|]. rewrite bool_decide_eq_false_2 by done. rewrite Hrd by lia. done.
Qed.

(** One program "bin/x" of five bytes. *)
Definition program_archive : memory := Eval vm_compute in
  place 0x8000 [98; 105; 110; 47; 120; 0] ∪ place 0x807C [48; 48; 48; 48; 48; 48; 48; 48; 48; 48; 53; 0]
  ∪ place 0x809C [48] ∪ place 0x8200 [1; 2; 3; 4; 5] ∪ zero_memory 0x8000 0x400.

Definition program_state : Initrd.state := Initrd.mk 0x8000 0x400 1.

#[local] Instance no_disk : BlockDevice unit :=
  {| bd_sector_count := fun _ => 0; bd_read := fun _ _ _ => None; bd_write := fun _ _ _ _ => None |}.
#[local] Instance no_frames : FrameAllocator unit :=
  {| fa_alloc _ := (0, tt); fa_free _ _ := tt; fa_owned _ _ := True |}.

Lemma program_readable : readable program_archive program_state.
Proof.
  constructor; [|vm_compute; reflexivity|vm_compute; split; [discriminate|reflexivity]].
  intros i Hi. apply (mapped_range _ 0x8000 0x400); [vm_compute; reflexivity|].
  cbn [program_state archive archive_length] in *. lia.
Qed.

Lemma program_files : Initrd.files program_archive [(0x8000, 5)] = [(0x8000, 5)].
Proof. vm_compute. reflexivity. Qed.

Lemma program_entry : entry_ok program_archive program_state (fun _ => [98; 105; 110; 47; 120]) (fun _ => [120]) (0x8000, 5).
Proof.
  split_and!; [vm_compute; split_and!; discriminate|apply cstring_check; vm_compute; reflexivity|].
  split; [intros [=]%list_elem_of_singleton|]. exists [98; 105; 110; 47]. split; [done|]. right. by exists [98; 105; 110].
Qed.

Lemma programs_installed_witness :
  exists files', copy_programs 1 0 program_archive program_state (fun _ => true) Ramfs.initial = Some files' /\
    read_file (mount_filesystems false) (Some [47; 120]) 5 (set_files files' demo_system)
      = Some (5, [1; 2; 3; 4; 5], set_files files' demo_system).
Proof.
  destruct (programs_installed program_archive program_state (fun _ => [98; 105; 110; 47; 120]) (fun _ => [120])
    [(0x8000, 5)] false demo_system program_readable) as (files' & E & Hp).
  - vm_compute. reflexivity.
  - rewrite program_files. reflexivity.
  - rewrite program_files. constructor; [exact program_entry|constructor].
  - rewrite program_files. apply (bool_decide_unpack _). vm_compute. exact I.
  - intros e _. split; [|vm_compute; reflexivity]. split_and!; [discriminate|cbn; lia|repeat constructor; lia|discriminate|discriminate].
  - exact initial_directory.
  - rewrite program_files. vm_compute. lia.
  - reflexivity.
  - exists files'. split; [exact E|]. apply (Hp (0x8000, 5)). rewrite program_files. apply (list_elem_of_lookup_2 _ 0). reflexivity.
Defined.
